(* ===== verification/_CoqProject ===== *)
-Q . S2P
Prelude.v
Decimal.v
Mask.v
ShardState.v
Epochs.v
Votepower.v
Quorum.v
Effective.v
Staking.v
StakingVerifier.v
Committee.v
FBFTLog.v
ViewChange.v
Engine.v
CrossShard.v
Decider.v
Consensus.v
Fbft.v
Slash.v
Rewards.v
BlockReward.v
Trie.v
Journal.v
LoadMap.v
StateDB.v
Accounts.v
BlockPayout.v
StateCommit.v
StateTransition.v
TxList.v
TxPool.v
PoolReset.v
StakingTransition.v
PoolStaking.v
StateTransfer.v
CommitPool.v
TwoPhase.v
