(* ===== verification/Prelude.v ===== *)
(** * A verification library for DyShard, a sharded chain with dynamic account migration

    DyShard is a fork of the Harmony node.  Accounts are assigned to shards by a range map and
    moved between shards by a two-phase commit; each shard runs a BFT consensus with voting
    power by stake.  This library models the parts of the node that carry that logic and proves
    what makes them correct.  Definitions keep the names of the Go code where that is possible;
    a definition that stands for part of a function says so.  Paths are those under src/.

    ** The parts and the files

    Shared:
    - [Prelude]: results of Go calls ([option] for return-or-panic, [result] with an error),
      64-bit arithmetic, sums over lists and maps, [sort.Search], shared tactics and hints.
    - [Decimal] (numeric/decimal.go): the fixed-point numbers of stakes and voting power, with
      banker's rounding, overflow panics, parsing and printing.

    Shards, committees and stakes:
    - [ShardState] (shard/shard_state.go, shard/mapping/range, internal/configs/sharding/
      instance.go): committees, the range-map lookup, hashes, the two storage formats; [Epochs]
      (internal/params/config.go, internal/configs/sharding): forks, epochs and instances of
      every network.
    - [Staking] (staking/types, staking/availability): validators and delegations;
      [StakingVerifier] (core/staking_verifier.go): the five staking messages; [Effective]
      (staking/effective): the auction; [Committee] (shard/committee/assignment.go): the
      committees of an epoch; [Slash] (staking/slash): double signers.
    - [Rewards] and [BlockReward] (internal/chain/reward.go, engine.go, AddReward of
      core/state/statedb.go): rewards, payouts of undelegations, the end of a block;
      [BlockPayout]: its payments on the accounts of [StateDB].

    Consensus:
    - [Mask] (crypto/bls/mask.go): the bitmap of signers with its aggregate key; [Votepower]
      (consensus/votepower) and [Quorum] (consensus/quorum): the roster of a committee, ballot
      boxes, the uniform and the staked quorum; [Decider]: what the handlers ask of either.
    - [FBFTLog] (consensus/fbft_log.go), [ViewChange] (consensus/view_change_construct.go),
      [Consensus] (consensus.go, leader.go, validator.go, view_change.go and the files they
      share): the messages of a node, the votes of a view change, the handlers; [Fbft]: what the
      handlers guarantee.
    - [Engine] (internal/chain/engine.go, core/types/crosslink.go): aggregate signatures of
      headers and cross links with their caches; [CrossShard] (core/types/cx_receipt.go,
      core/block_validator.go, node/node_cross_shard.go): receipts between shards.

    State and transactions:
    - [Trie] (core/state/database.go): the interface of tries and codes, a class with laws;
      [Journal] (core/state/journal.go): the undo log, generic in its entries.
    - [StateDB] (core/state/statedb.go, state_object.go): account objects with the freeze flag
      that restricts their setters; [Accounts]: the same operations on a map of accounts, and
      transfers (core/evm.go); [StateCommit]: what [Finalise], [Commit] and [Copy] leave;
      [LoadMap] (shard/mapping/load): the map from accounts to shards, a database of that shape.
    - [StateTransition] (core/state_transition.go, core/gaspool.go): gas and nonces of a message;
      [StakingTransition]: staking messages on the account state.
    - [TxList] (core/tx_list.go), [TxPool], [PoolReset] (core/tx_pool.go,
      core/state/managed_state.go) and [PoolStaking]: the lists of the transaction pool, the
      pool, its transactions of abandoned blocks and its check of staking messages.

    Migration:
    - [StateTransfer] (core/state_processor.go, node/worker/worker.go,
      atomic/types/atomic_transaction.go): the execution of migration transactions;
      [CommitPool] (atomic/commit_pool.go, commit_handler.go): the pool of a follower, its
      handlers and event loop; [TwoPhase] (atomic/serverShard.go): the coordinator, and the
      system of coordinator and followers.

    A migration runs through them in this order: the coordinator proposes it to followers of
    both shards ([TwoPhase]); each follower caches a freeze transaction ([CommitPool]); a block
    executes it ([StateTransfer] on [StateDB]) and the follower acknowledges; the coordinator
    sends the commit, a second block installs the account on the target shard and changes the
    load map ([LoadMap]).

    ** What is proved

    - Migration: while the two databases stay in memory, the commit transaction installs what was
      frozen ([migration_moves_account]); no commit is sent before the freeze is in a block of
      every follower asked ([commit_needs_freeze_everywhere], [propose_ack_after_block]); the
      invariant of the pool and its progress, on every schedule without time-outs and with
      acknowledging followers ([CommitPool_invariant], [reset_completes],
      [StateTransfer_completes]); and the schedules on which the code loses a migration, deadlocks
      or panics.
    - Accounts: the database with its cached objects and journal refines a map with saved copies
      as snapshots ([StateDB_refines]), freezing protects an account ([freeze_protects]), reverts
      restore ([StateDB_revert_restores]), commits can be read back ([Commit_reopen]); where the
      freeze flag and the load map are lost ([New_thaws], [New_reads_initial]).
    - Transactions: gas is charged exactly ([TransitionDb_charges]) except to frozen senders
      ([frozen_sender_replays]); staking transactions conserve tokens ([DelegateTx_tokens]); the
      sorted map of an account refines a sorted list ([txSortedMap_refines]), [FilterValid] keeps
      the valid prefix ([FilterValid_spec]), the pool and its indexes stay consistent
      ([pool_consistent]) as long as no transaction lacks a receiver ([nil_receiver_panics]).
    - Consensus: voting powers of a committee with stakes sum to one ([Compute_power_one]),
      tallies are exact ([staked_tally]), any two quorums intersect in more than a third
      ([staked_quorum_intersection]); a validator signs a commit only with a certificate
      ([onPrepared_commits], [conflicting_commits_need_third]) except in a new view
      ([newView_commits_uncertified]); the messages of an honest leader are accepted by validators
      that are ready for them ([prepared_accepted], [newView_accepted]); one vote per member and
      view ([viewchange_votes]).
    - Chain: accepted signatures are backed by a quorum, beyond the first block
      ([accepted_backed]), but not bound to shard and number ([VerifyCrossLink_forged]); receipts
      are authentic and credited once ([receipts_authentic], [receipts_credited_once]), up to a
      replay ([receipts_replayed]); finalisation conserves tokens but for payments to frozen
      accounts ([Finalize_conserves], [AccumulateRewards_accounts]).
    - Stakes: the committee of an epoch ([eposCommittee_spec]), the auction for every iteration
      order ([Apply_order]), slashes ([delegatorSlashApply_spec]), the registry of validators
      while no key is brought twice in a block ([registry_preserved], [same_key_in_block]); the
      range-map lookup is a walk in a binary tree ([CalculateShardIDByRangeMap_tree]).

    ** Interfaces

    Components meet in classes: [TrieBackend] with [TrieLaws] between the state databases and the
    trie, [DeciderOps] with [DeciderLaws] between the handlers and the quorum, [ChainOps] between
    the handlers and the chain, [HeaderVerifier] between receipts and the engine, [StateReader]
    between staking messages and the state (a record of operations), [Cache] between the engine
    and its caches, [EpochSchedule] between the schedules of the networks and their users.  The
    theorems of a client are proved against the class, the other file has the instance.

    ** Bounds and fuel

    Go integers are [Z], with the wrap-around written out where the code can reach it; byte
    arrays used as keys are numbers.  Loops over slices are structural.  Where Go iterates a map
    or pops a priority queue with ties, the order is an argument, or [map_to_list] with theorems
    about sets.  Loops with fuel have the measure of the Go loop as fuel ([sort.Search]: the
    length of the range; heaps: the index or the length; the loops of the price heap and of the
    pool: the length of the list; the last mile of the log: the number of blocks), and their
    specifications show that it is enough.  Interleavings are executable functions of a list of
    events, and the theorems about them quantify over all lists that meet their conditions.

    ** What is a parameter

    RLP, Keccak, the BLS group and signatures, bech32, tries and the code database, the LRU
    caches, the priority queue of go-ethereum and the virtual machine are not part of the modelled
    code: they are classes or arguments with the laws that the code relies on, and instances show
    that the laws can hold.

    ** What is not modelled

    Networking, RPC, synchronisation, the command line, key stores and ABI encoding (glue and
    I/O); the EVM (taken from go-ethereum, a parameter of [StateTransition]); the codecs and
    accessors of headers, blocks and transactions; the storage of blocks, their insertion and
    reorganisation, and the assembly of blocks by the worker; the journal of the pool; the
    tables of genesis accounts (data). *)

From Stdlib Require Import ZArith Lia.
From stdpp Require Import base gmap list option fin_maps.

(** ** Identifiers of the Go code that are fixed-size byte arrays

    [common.Address] ([20]byte), [common.Hash] ([32]byte) and
    [bls.SerializedPublicKey] ([48]byte) are only compared and used as map keys
    by the modelled code; each is represented by its big-endian value. *)
Abbreviation Address := Z (only parsing).
Abbreviation Hash := Z (only parsing).
Abbreviation SerializedPublicKey := Z (only parsing).
Abbreviation bytes := (list Z) (only parsing).

(** ** Outcomes

    A Go call that can only return or panic is an [option] ([None] is the
    panic).  A Go call that also returns an [error] is a [result]. *)
Inductive result (E A : Type) : Type :=
| Ok (a : A)
| Err (e : E)
| Panic.
Arguments Ok {E A} a.
Arguments Err {E A} e.
Arguments Panic {E A}.

Definition result_ret {E A} (a : A) : result E A := Ok a.

Definition result_bind {E A B} (f : A → result E B) (m : result E A) : result E B :=
  match m with
  | Ok a => f a
  | Err e => Err e
  | Panic => Panic
  end.

#[global] Instance result_mret {E} : MRet (result E) := @result_ret E.
#[global] Instance result_mbind {E} : MBind (result E) := @result_bind E.

(** A panicking computation used where an error could also be returned. *)
Definition lift_panic {E A} (m : option A) : result E A :=
  match m with Some a => Ok a | None => Panic end.

Definition is_ok {E A} (m : result E A) : bool :=
  match m with Ok _ => true | _ => false end.

(** ** Machine integers *)
Declare Scope go_scope.
Delimit Scope go_scope with go.

Definition u64 (z : Z) : Z := z mod 2 ^ 64.
Definition u32 (z : Z) : Z := z mod 2 ^ 32.
Definition isU64 (z : Z) : Prop := (0 ≤ z < 2 ^ 64)%Z.

(** [big.Int.Int64]: the low 64 bits in two's complement. *)
Definition i64 (z : Z) : Z := ((z + 2 ^ 63) mod 2 ^ 64 - 2 ^ 63)%Z.

Notation "x '+64' y" := (u64 (x + y)) (at level 50, left associativity) : go_scope.
Notation "x '-64' y" := (u64 (x - y)) (at level 50, left associativity) : go_scope.

Lemma u64_small z : isU64 z → u64 z = z.
Proof. apply Z.mod_small. Qed.

Lemma i64_small z : (- 2 ^ 63 ≤ z < 2 ^ 63)%Z → i64 z = z.
Proof. intros Hz. unfold i64. rewrite Z.mod_small; lia. Qed.

Lemma u64_range z : isU64 (u64 z).
Proof. apply Z.mod_pos_bound; lia. Qed.

(** ** Automation *)
Create HintDb dyshard.
#[export] Hint Resolve u64_range : dyshard.

(** Case on the scrutinee of every [match] of the goal. *)
Ltac case_all := repeat (case_match; simplify_eq/=; try done).

(** Invert a successful computation in the [option] (panic) monad. *)
Ltac inv_bind :=
  repeat match goal with
  | H : mbind _ _ = Some _ |- _ =>
      let x := fresh "x" in let E := fresh "E" in
      apply bind_Some in H as [x [E H]]
  end; simplify_eq/=.

Lemma option_Forall2_from_Some {A B} (R : A → B → Prop) x my :
  option_Forall2 R (Some x) my → ∃ y, my = Some y ∧ R x y.
Proof. inversion 1; subst; eauto. Qed.

(** A computation that evaluates to a result that passes a test. *)
Lemma eval_Some {A} (o : option A) (P : A → bool) :
  match o with Some x => P x | None => false end = true → ∃ x, o = Some x ∧ P x = true.
Proof. destruct o; [eauto|done]. Qed.

(** Filters that agree on the elements of the list. *)
Lemma filter_ext_elem {A} (P Q : A → Prop) `{!∀ x, Decision (P x), !∀ x, Decision (Q x)} (l : list A) :
  (∀ x, x ∈ l → P x ↔ Q x) → filter P l = filter Q l.
Proof.
  induction l as [|x l IH]; intros Hl; [done|]. rewrite !filter_cons.
  rewrite IH by (intros; apply Hl; by right). specialize (Hl x ltac:(by left)). do 2 case_decide; tauto.
Qed.

(** ** Sums *)
Definition sumZ {A} (f : A → Z) (l : list A) : Z := foldr (λ a acc, (f a + acc)%Z) 0%Z l.

Section sums.
  Context {A : Type}.
  Implicit Types (f g : A → Z) (l : list A).
Local Open Scope Z_scope.

Lemma sumZ_cons f a l : sumZ f (a :: l) = f a + sumZ f l.
Proof. done. Qed.

Lemma sumZ_app f l1 l2 : sumZ f (l1 ++ l2) = sumZ f l1 + sumZ f l2.
Proof. induction l1 as [|a l1 IH]; simpl; [done|]. rewrite IH. lia. Qed.

Lemma sumZ_perm f l1 l2 : l1 ≡ₚ l2 → sumZ f l1 = sumZ f l2.
Proof. induction 1; simpl; lia. Qed.

Lemma sumZ_ext f g l : (∀ a, a ∈ l → f a = g a) → sumZ f l = sumZ g l.
Proof.
  induction l as [|a l IH]; intros H; [done|]. simpl.
  rewrite (H a), IH; [done| |]; set_solver.
Qed.

Lemma sumZ_nonneg f l : (∀ a, a ∈ l → 0 ≤ f a) → 0 ≤ sumZ f l.
Proof.
  induction l as [|a l IH]; intros H; [done|]. simpl.
  pose proof (H a ltac:(set_solver)). assert (0 ≤ sumZ f l) by (apply IH; set_solver). lia.
Qed.

Lemma sumZ_const f l c : (∀ a, a ∈ l → f a = c) → sumZ f l = c * Z.of_nat (length l).
Proof.
  induction l as [|a l IH]; intros H; simpl; [lia|].
  rewrite (H a), IH by set_solver. lia.
Qed.

Lemma sumZ_zero f l : (∀ a, a ∈ l → f a = 0) → sumZ f l = 0.
Proof. intros H. rewrite (sumZ_const f l 0 H). lia. Qed.

Lemma sumZ_update f l i x y : l !! i = Some x → sumZ f (<[i := y]> l) = sumZ f l + f y - f x.
Proof.
  intros Hi. rewrite insert_take_drop by (by eapply lookup_lt_Some).
  rewrite <-(take_drop_middle _ _ _ Hi) at 3. rewrite !sumZ_app, !sumZ_cons. lia.
Qed.

End sums.

(** The sum of [f k v] over the entries of a map. *)
Definition map_sum {K V} `{Countable K} (f : K → V → Z) (m : gmap K V) : Z :=
  sumZ (λ kv, f kv.1 kv.2) (map_to_list m).

Section map_sums.
  Context {K V : Type} `{Countable K}.
  Implicit Types (f g : K → V → Z) (m : gmap K V).
Local Open Scope Z_scope.

Lemma map_sum_empty f : map_sum f (∅ : gmap K V) = 0.
Proof. unfold map_sum. by rewrite map_to_list_empty. Qed.

Lemma map_sum_insert f m k v :
  m !! k = None → map_sum f (<[k:=v]> m) = f k v + map_sum f m.
Proof.
  intros Hk. unfold map_sum.
  by rewrite (sumZ_perm _ _ _ (map_to_list_insert m k v Hk)).
Qed.

Lemma map_sum_delete f m k v :
  m !! k = Some v → map_sum f m = f k v + map_sum f (delete k m).
Proof.
  intros Hk. rewrite <-(insert_id m k v Hk) at 1. rewrite <-insert_delete_eq.
  apply map_sum_insert, lookup_delete_eq.
Qed.

Lemma map_sum_update f m k v v' :
  m !! k = Some v → map_sum f (<[k:=v']> m) = map_sum f m + f k v' - f k v.
Proof.
  intros Hk. rewrite <-insert_delete_eq.
  rewrite map_sum_insert by apply lookup_delete_eq.
  rewrite (map_sum_delete f m k v Hk). lia.
Qed.

Lemma map_sum_ext f g m :
  (∀ k v, m !! k = Some v → f k v = g k v) → map_sum f m = map_sum g m.
Proof.
  intros E. apply sumZ_ext. intros [k v] Hin. apply E. by apply elem_of_map_to_list.
Qed.

Lemma map_sum_nonneg f m :
  (∀ k v, m !! k = Some v → 0 ≤ f k v) → 0 ≤ map_sum f m.
Proof.
  intros E. apply sumZ_nonneg. intros [k v] Hin. apply E. by apply elem_of_map_to_list.
Qed.

Lemma map_sum_zero f m :
  (∀ k v, m !! k = Some v → f k v = 0) → map_sum f m = 0.
Proof.
  intros E. apply sumZ_zero. intros [k v] Hin. apply E. by apply elem_of_map_to_list.
Qed.

Lemma map_sum_list_to_map f (l : list (K * V)) :
  NoDup l.*1 → map_sum f (list_to_map l) = sumZ (λ kv, f kv.1 kv.2) l.
Proof. intros Hnd. unfold map_sum. apply sumZ_perm. by apply map_to_list_to_map. Qed.

End map_sums.

(** ** Go's [sort.Search]

    The binary search of the standard library's [sort] package:
    [for i < j { h := (i+j)/2; if !f(h) { i = h+1 } else { j = h } }]; a run takes at most
    [n] iterations, which is the fuel. *)
Fixpoint search_loop (fuel : nat) (f : nat → bool) (i j : nat) : nat :=
  match fuel with
  | O => i
  | S fuel' =>
      if decide (i < j) then
        let h := Nat.div2 (i + j) in
        if f h then search_loop fuel' f i h else search_loop fuel' f (S h) j
      else i
  end.

Definition sort_Search (n : nat) (f : nat → bool) : nat := search_loop n f 0 n.

Lemma search_loop_spec fuel f i j k :
  j - i ≤ fuel → i ≤ k → k ≤ j →
  (∀ h, i ≤ h → h < k → f h = false) →
  (∀ h, k ≤ h → h < j → f h = true) →
  search_loop fuel f i j = k.
Proof.
  revert i j. induction fuel as [|fuel IH]; intros i j Hf Hik Hkj Hlo Hhi; simpl; [lia|].
  case_decide as Hij; [|lia].
  pose proof (Nat.div2_odd (i + j)) as Hdiv.
  assert (Nat.div2 (i + j) < j ∧ i ≤ Nat.div2 (i + j)) as [Hlt Hge]
    by (destruct (Nat.odd (i + j)); simpl in Hdiv; lia).
  destruct (f (Nat.div2 (i + j))) eqn:E.
  - apply IH; [lia|lia| |auto|intros h ??; apply Hhi; lia].
    destruct (decide (k ≤ Nat.div2 (i + j))); [done|].
    rewrite Hlo in E by lia. done.
  - apply IH; [lia| |lia|intros h ??; apply Hlo; lia|auto].
    destruct (decide (k ≤ Nat.div2 (i + j))); [|lia].
    rewrite Hhi in E by lia. done.
Qed.

(** On a predicate that is false below [k] and true from [k] on, the search finds [k]. *)
Lemma sort_Search_spec n f k :
  k ≤ n → (∀ h, h < k → f h = false) → (∀ h, k ≤ h → h < n → f h = true) →
  sort_Search n f = k.
Proof. intros. apply search_loop_spec; auto with lia. Qed.
