(* ===== verification/Decimal.v ===== *)
(** * Fixed-point decimals ([numeric/decimal.go])

    A [Dec] wraps a [*big.Int] that holds the value times 10^18.  A non-nil [Dec] is
    represented by that integer; the methods that test for the nil pointer ([IsNil],
    [Copy], [String]) take an [option].  [None] as a result is a Go panic: the overflow
    check of 315 bits, the division by zero of [big.Int.Quo], the index or precision
    check of the multiplier table.  Texts are lists of ASCII characters. *)

From Stdlib Require Import ZArith Lia Ascii String.
From stdpp Require Import base list option sets gmap.
From S2P Require Import Prelude.
Local Open Scope Z_scope.

Abbreviation Dec := Z (only parsing).
Abbreviation text := (list ascii) (only parsing).

(** ** Constants and the multiplier table *)
Definition Precision : Z := 18.
Definition DecimalPrecisionBits : Z := 60.
Definition precisionReuse : Z := 10 ^ Precision.
Definition fivePrecision : Z := Z.quot precisionReuse 2.

Definition calcPrecisionMultiplier (prec : Z) : option Z :=
  if prec >? Precision then None
  else
    let zerosToAdd := Precision - prec in
    Some (10 ^ zerosToAdd).

(** The table [init] fills. *)
Definition precisionMultipliers : list (option Z) :=
  map (λ i, calcPrecisionMultiplier (Z.of_nat i)) (seq 0 (Z.to_nat Precision + 1)).

Definition precisionMultiplier (prec : Z) : option Z :=
  if prec >? Precision then None
  else if prec <? 0 then None
  else mjoin (precisionMultipliers !! Z.to_nat prec).

(** ** Constructors *)
Definition ZeroDec : Dec := 0.
Definition OneDec : Dec := precisionReuse.
Definition SmallestDec : Dec := 1.

Definition NewDecWithPrec (i prec : Z) : option Dec :=
  m ← precisionMultiplier prec; Some (i * m).
Definition NewDec (i : Z) : option Dec := NewDecWithPrec i 0.
Definition NewDecFromBigIntWithPrec (i prec : Z) : option Dec :=
  m ← precisionMultiplier prec; Some (i * m).
Definition NewDecFromBigInt (i : Z) : option Dec := NewDecFromBigIntWithPrec i 0.
Definition NewDecFromIntWithPrec (i prec : Z) : option Dec :=
  m ← precisionMultiplier prec; Some (i * m).
Definition NewDecFromInt (i : Z) : option Dec := NewDecFromIntWithPrec i 0.

(** ** Predicates and comparisons *)
Definition IsNil (d : option Dec) : bool := match d with None => true | Some _ => false end.
Definition Copy (d : option Dec) : option Dec := if IsNil d then None else d.
Definition IsZero (d : Dec) : bool := Z.sgn d =? 0.
Definition IsNegative (d : Dec) : bool := Z.sgn d =? -1.
Definition IsPositive (d : Dec) : bool := Z.sgn d =? 1.
Definition Equal (d d2 : Dec) : bool := match d ?= d2 with Eq => true | _ => false end.
Definition GT (d d2 : Dec) : bool := match d ?= d2 with Gt => true | _ => false end.
Definition GTE (d d2 : Dec) : bool := match d ?= d2 with Lt => false | _ => true end.
Definition LT (d d2 : Dec) : bool := match d ?= d2 with Lt => true | _ => false end.
Definition LTE (d d2 : Dec) : bool := match d ?= d2 with Gt => false | _ => true end.
Definition Neg (d : Dec) : Dec := - d.
Definition Abs (d : Dec) : Dec := Z.abs d.

(** ** Arithmetic *)

(** [big.Int.BitLen]. *)
Definition BitLen (z : Z) : Z := if z =? 0 then 0 else Z.log2 (Z.abs z) + 1.

(** The overflow check that ends every operation. *)
Definition checkBits (res : Z) : option Dec :=
  if BitLen res >? 255 + DecimalPrecisionBits then None else Some res.

(** Bankers rounding on a non-negative integer: the code after the sign test. *)
Definition chopRoundNonneg (d : Z) : Z :=
  let quo := Z.quot d precisionReuse in
  let rem := Z.rem d precisionReuse in
  if Z.sgn rem =? 0 then quo
  else match rem ?= fivePrecision with
       | Lt => quo
       | Gt => quo + 1
       | Eq => if negb (Z.testbit quo 0) then quo else quo + 1
       end.

Definition chopPrecisionAndRound (d : Z) : Z :=
  if Z.sgn d =? -1 then - chopRoundNonneg (- d) else chopRoundNonneg d.

Definition chopPrecisionAndTruncate (d : Z) : Z := Z.quot d precisionReuse.

Definition chopPrecisionAndRoundUp (d : Z) : Z :=
  if Z.sgn d =? -1 then - chopPrecisionAndTruncate (- d)
  else
    let quo := Z.quot d precisionReuse in
    let rem := Z.rem d precisionReuse in
    if Z.sgn rem =? 0 then quo else quo + 1.

Definition Add (d d2 : Dec) : option Dec := checkBits (d + d2).
Definition Sub (d d2 : Dec) : option Dec := checkBits (d - d2).
Definition Mul (d d2 : Dec) : option Dec := checkBits (chopPrecisionAndRound (d * d2)).
Definition MulTruncate (d d2 : Dec) : option Dec := checkBits (chopPrecisionAndTruncate (d * d2)).
Definition MulInt (d i : Z) : option Dec := checkBits (d * i).
Definition MulInt64 (d i : Z) : option Dec := checkBits (d * i).

(** [big.Int.Quo] truncates and panics on a zero divisor. *)
Definition bigQuo (x y : Z) : option Z := if y =? 0 then None else Some (Z.quot x y).

Definition Quo (d d2 : Dec) : option Dec :=
  let mul := d * precisionReuse * precisionReuse in
  quo ← bigQuo mul d2; checkBits (chopPrecisionAndRound quo).
Definition QuoTruncate (d d2 : Dec) : option Dec :=
  let mul := d * precisionReuse * precisionReuse in
  quo ← bigQuo mul d2; checkBits (chopPrecisionAndTruncate quo).
Definition QuoRoundUp (d d2 : Dec) : option Dec :=
  let mul := d * precisionReuse * precisionReuse in
  quo ← bigQuo mul d2; checkBits (chopPrecisionAndRoundUp quo).
Definition QuoInt (d i : Z) : option Dec := bigQuo d i.
Definition QuoInt64 (d i : Z) : option Dec := bigQuo d i.

Definition IsInteger (d : Dec) : bool := Z.sgn (Z.rem d precisionReuse) =? 0.

Definition IsInt64 (z : Z) : bool := (- 2 ^ 63 <=? z) && (z <? 2 ^ 63).

Definition RoundInt (d : Dec) : Z := chopPrecisionAndRound d.
Definition RoundInt64 (d : Dec) : option Z :=
  let chopped := chopPrecisionAndRound d in
  if negb (IsInt64 chopped) then None else Some chopped.
Definition TruncateInt (d : Dec) : Z := chopPrecisionAndTruncate d.
Definition TruncateInt64 (d : Dec) : option Z :=
  let chopped := chopPrecisionAndTruncate d in
  if negb (IsInt64 chopped) then None else Some chopped.
Definition TruncateDec (d : Dec) : option Dec := NewDecFromBigInt (chopPrecisionAndTruncate d).

Definition Ceil (d : Dec) : option Dec :=
  let quo := Z.quot d precisionReuse in
  let rem := Z.rem d precisionReuse in
  if rem =? 0 then NewDecFromBigInt quo
  else if Z.sgn rem =? -1 then NewDecFromBigInt quo
  else NewDecFromBigInt (quo + 1).

Fixpoint DecsEqual_loop (d1s d2s : list Dec) : bool :=
  match d1s, d2s with
  | d1 :: d1s', d2 :: d2s' => if negb (Equal d1 d2) then false else DecsEqual_loop d1s' d2s'
  | _, _ => true
  end.
Definition DecsEqual (d1s d2s : list Dec) : bool :=
  if negb (length d1s =? length d2s)%nat then false else DecsEqual_loop d1s d2s.

Definition MinDec (d1 d2 : Dec) : Dec := if LT d1 d2 then d1 else d2.
Definition MaxDec (d1 d2 : Dec) : Dec := if LT d1 d2 then d2 else d1.

(** ** Texts *)
Definition chr0 : ascii := "0"%char.
Definition chrDot : ascii := "."%char.
Definition chrMinus : ascii := "-"%char.
Definition chrPlus : ascii := "+"%char.

Definition digit_char (d : Z) : ascii := ascii_of_N (Z.to_N (48 + d)).
Definition char_digit (c : ascii) : option Z :=
  let v := Z.of_N (N_of_ascii c) - 48 in
  if (0 <=? v) && (v <=? 9) then Some v else None.

(** [big.Int.MarshalText] of a non-negative integer: its decimal digits. *)
Fixpoint digits_loop (fuel : nat) (n : Z) (acc : text) : text :=
  match fuel with
  | O => acc
  | S fuel' =>
      let acc' := digit_char (n mod 10) :: acc in
      if n / 10 =? 0 then acc' else digits_loop fuel' (n / 10) acc'
  end.
Definition digits (n : Z) : text := digits_loop (S (Z.to_nat (Z.log2 n))) n [].

(** [big.Int.SetString(s, 10)]: an optional sign and at least one digit, all consumed. *)
Fixpoint parseDigits (acc : Z) (s : text) : option Z :=
  match s with
  | [] => Some acc
  | c :: s' => d ← char_digit c; parseDigits (10 * acc + d) s'
  end.
Definition parseNat (s : text) : option Z :=
  match s with [] => None | _ => parseDigits 0 s end.
Definition SetString (s : text) : option Z :=
  match s with
  | c :: s' =>
      if decide (c = chrMinus) then Z.opp <$> parseNat s'
      else if decide (c = chrPlus) then parseNat s'
      else parseNat s
  | [] => None
  end.

(** [strings.Split(str, ".")]. *)
Fixpoint splitDot (s : text) : list text :=
  match s with
  | [] => [[]]
  | c :: s' =>
      if decide (c = chrDot) then [] :: splitDot s'
      else match splitDot s' with
           | w :: ws => (c :: w) :: ws
           | [] => [[c]]
           end
  end.

(** The decimal text of a non-negative value. *)
Definition stringNonneg (d : Dec) : text :=
  let bzInt := digits d in
  let inputSize := length bzInt in
  let prec := Z.to_nat Precision in
  if decide (inputSize ≤ prec)%nat
  then [chr0; chrDot] ++ replicate (prec - inputSize) chr0 ++ bzInt
  else let decPointPlace := (inputSize - prec)%nat in
       take decPointPlace bzInt ++ [chrDot] ++ drop decPointPlace bzInt.

Definition DecString (d : Dec) : text :=
  if IsNegative d then chrMinus :: stringNonneg (Neg d) else stringNonneg d.

Inductive decError :=
| errDecimalEmpty
| errBadDecimalLength
| errTooManyPeriods
| errTooMuchPrecision (lenDecs : nat)
| errBadConversion (combinedStr : text).

(** The part of [NewDecFromStr] after the minus sign has been removed. *)
Definition newDecFromUnsigned (neg : bool) (str : text) : result decError Dec :=
  if decide (str = []) then Err errDecimalEmpty
  else
    let strs := splitDot str in
    let finish (lenDecs : nat) (combinedStr : text) :=
      if decide (Z.to_nat Precision < lenDecs)%nat then Err (errTooMuchPrecision lenDecs)
      else
        let zerosToAdd := (Z.to_nat Precision - lenDecs)%nat in
        let combinedStr := combinedStr ++ replicate zerosToAdd chr0 in
        match SetString combinedStr with
        | None => Err (errBadConversion combinedStr)
        | Some combined => Ok (if neg then - combined else combined)
        end in
    match strs with
    | [w] => finish O w
    | [w; f] =>
        if decide (length f = O ∨ length w = O) then Err errBadDecimalLength
        else finish (length f) (w ++ f)
    | _ => Err errTooManyPeriods
    end.

Definition NewDecFromStr (str : text) : result decError Dec :=
  match str with
  | [] => Err errDecimalEmpty
  | c :: str' =>
      if decide (c = chrMinus) then newDecFromUnsigned true str'
      else newDecFromUnsigned false str
  end.

Definition MustNewDecFromStr (s : text) : option Dec :=
  match NewDecFromStr s with Ok d => Some d | _ => None end.

(** * Properties *)

(** ** Rounding *)

(** [q] is the integer nearest to [d / 10^18], the even one when two are equally near. *)
Definition roundsHalfEven (d q : Z) : Prop :=
  2 * Z.abs (q * precisionReuse - d) < precisionReuse ∨
  (2 * Z.abs (q * precisionReuse - d) = precisionReuse ∧ Z.even q = true).

Lemma precisionReuse_val : precisionReuse = 1000000000000000000.
Proof. reflexivity. Qed.
Lemma fivePrecision_val : fivePrecision = 500000000000000000.
Proof. reflexivity. Qed.

Lemma quot_rem_nonneg d :
  0 ≤ d → d = precisionReuse * Z.quot d precisionReuse + Z.rem d precisionReuse
          ∧ 0 ≤ Z.rem d precisionReuse < precisionReuse.
Proof.
  intros Hd. split; [apply Z.quot_rem'|].
  apply Z.rem_bound_pos; [done|]. rewrite precisionReuse_val. lia.
Qed.

Lemma roundsHalfEven_unique d q q' :
  roundsHalfEven d q → roundsHalfEven d q' → q = q'.
Proof.
  unfold roundsHalfEven. rewrite precisionReuse_val, !Z.even_spec. unfold Z.Even.
  intros [H|[H [k ->]]] [H'|[H' [k' ->]]]; lia.
Qed.

Lemma roundsHalfEven_opp d q : roundsHalfEven d q → roundsHalfEven (- d) (- q).
Proof.
  unfold roundsHalfEven. rewrite Z.even_opp.
  intros [?|[??]]; [left; lia|right; split; [lia|done]].
Qed.

Lemma chopRoundNonneg_spec d : 0 ≤ d → roundsHalfEven d (chopRoundNonneg d).
Proof.
  intros Hd. destruct (quot_rem_nonneg d Hd) as [Hq Hr].
  unfold chopRoundNonneg, roundsHalfEven.
  set (quo := Z.quot d precisionReuse) in *. set (rem := Z.rem d precisionReuse) in *.
  rewrite fivePrecision_val. rewrite precisionReuse_val in *.
  destruct (Z.eqb_spec (Z.sgn rem) 0); [left; lia|].
  destruct (Z.compare_spec rem 500000000000000000); [|left; lia|left; lia].
  rewrite Z.bit0_odd, Z.negb_odd. right. destruct (Z.even quo) eqn:E.
  - split; [lia|done].
  - split; [lia|]. rewrite Z.even_add, E. done.
Qed.

(** The rounding of every [Mul], [Quo] and [RoundInt] is round-half-to-even, also for
    negative values. *)
Lemma chopRound_spec d q : chopPrecisionAndRound d = q ↔ roundsHalfEven d q.
Proof.
  assert (roundsHalfEven d (chopPrecisionAndRound d)) as Hspec.
  { unfold chopPrecisionAndRound. destruct (Z.eqb_spec (Z.sgn d) (-1)).
    - rewrite <-(Z.opp_involutive d) at 1. apply roundsHalfEven_opp, chopRoundNonneg_spec. lia.
    - apply chopRoundNonneg_spec. lia. }
  split; [by intros <-|]. by apply roundsHalfEven_unique.
Qed.

Lemma chopRound_opp d : chopPrecisionAndRound (- d) = - chopPrecisionAndRound d.
Proof. apply chopRound_spec, roundsHalfEven_opp. by apply chopRound_spec. Qed.

Lemma chopRound_mono d d' : d ≤ d' → chopPrecisionAndRound d ≤ chopPrecisionAndRound d'.
Proof.
  intros Hle. pose proof (proj1 (chopRound_spec d _) eq_refl) as H.
  pose proof (proj1 (chopRound_spec d' _) eq_refl) as H'. revert H H'.
  unfold roundsHalfEven. rewrite precisionReuse_val, !Z.even_spec. unfold Z.Even.
  generalize (chopPrecisionAndRound d), (chopPrecisionAndRound d').
  intros q q' [?|[? [k ->]]] [?|[? [k' ->]]]; lia.
Qed.

Lemma chopRound_exact q : chopPrecisionAndRound (q * precisionReuse) = q.
Proof. apply chopRound_spec. left. rewrite precisionReuse_val. lia. Qed.

Lemma chopRound_nonneg d : 0 ≤ d → 0 ≤ chopPrecisionAndRound d.
Proof. intros H. pose proof (chopRound_mono 0 d H) as Hm. by rewrite (chopRound_exact 0 : chopPrecisionAndRound 0 = 0) in Hm. Qed.

(** ** The overflow check *)
Lemma BitLen_le z n : 0 ≤ n → BitLen z ≤ n ↔ Z.abs z < 2 ^ n.
Proof.
  intros Hn. unfold BitLen. destruct (Z.eqb_spec z 0) as [->|Hz].
  - split; [|lia]. intros _. by apply Z.pow_pos_nonneg.
  - rewrite (Z.log2_lt_pow2 (Z.abs z) n) by lia. lia.
Qed.

Lemma checkBits_Some z : Z.abs z < 2 ^ 315 → checkBits z = Some z.
Proof.
  intros Hz. unfold checkBits. apply (BitLen_le z 315) in Hz; [|lia].
  rewrite Z.gtb_ltb. destruct (Z.ltb_spec (255 + DecimalPrecisionBits) (BitLen z)); [|done].
  unfold DecimalPrecisionBits in *. lia.
Qed.

Lemma checkBits_inv z d : checkBits z = Some d → d = z ∧ Z.abs z < 2 ^ 315.
Proof.
  unfold checkBits. rewrite Z.gtb_ltb. case_match eqn:E; [done|]. intros [= <-]. split; [done|].
  apply Z.ltb_ge in E. by apply (BitLen_le z 315); [lia|].
Qed.

(** ** Multiplication and division *)

(** [Mul] returns the product rounded half-to-even to 18 decimals, and panics exactly
    when that value needs more than 315 bits. *)
Theorem Mul_correct (d d2 q : Z) :
  roundsHalfEven (d * d2) q →
  Mul d d2 = (if Z.abs q <? 2 ^ 315 then Some q else None).
Proof.
  intros Hq. apply chopRound_spec in Hq. unfold Mul. rewrite Hq.
  destruct (Z.ltb_spec (Z.abs q) (2 ^ 315)); [by apply checkBits_Some|].
  destruct (checkBits q) as [z|] eqn:E; [|done]. apply checkBits_inv in E as [_ ?]. lia.
Qed.

Lemma quot_error x y : y ≠ 0 → Z.abs (Z.quot x y * y - x) < Z.abs y.
Proof.
  intros Hy. pose proof (Z.quot_rem' x y) as Hqr. pose proof (Z.rem_bound_abs x y Hy).
  replace (Z.quot x y * y - x) with (- Z.rem x y) by lia. by rewrite Z.abs_opp.
Qed.

(** A quotient that [Quo] returns is within half a unit in the last place (plus the
    10^-18 units lost by the inner truncation) of the exact quotient: multiplied out,
    [2 P |q d2 - d P| <= |d2| (P + 2)] with [P = 10^18]. *)
Lemma Quo_error_bound (d d2 q : Z) :
  Quo d d2 = Some q →
  2 * precisionReuse * Z.abs (q * d2 - d * precisionReuse) ≤ Z.abs d2 * (precisionReuse + 2).
Proof.
  unfold Quo, bigQuo. destruct (Z.eqb_spec d2 0) as [|Hd2]; [done|]. simpl.
  intros [-> _]%checkBits_inv.
  set (x := d * precisionReuse * precisionReuse).
  pose proof (quot_error x d2 Hd2) as He.
  pose proof (proj1 (chopRound_spec (Z.quot x d2) _) eq_refl) as Hr.
  set (q := chopPrecisionAndRound (Z.quot x d2)) in *.
  assert (2 * Z.abs (q * precisionReuse - Z.quot x d2) ≤ precisionReuse) as Hb
    by (destruct Hr as [?|[? _]]; lia).
  assert (Z.abs ((q * precisionReuse - Z.quot x d2) * d2) * 2 ≤ precisionReuse * Z.abs d2) as Hb2
    by (rewrite Z.abs_mul; nia).
  subst x. rewrite precisionReuse_val in *.
  replace (2 * 1000000000000000000 * Z.abs (q * d2 - d * 1000000000000000000))
    with (2 * Z.abs (q * 1000000000000000000 * d2 - d * 1000000000000000000 * 1000000000000000000)).
  2:{ replace (q * 1000000000000000000 * d2 - d * 1000000000000000000 * 1000000000000000000)
        with (1000000000000000000 * (q * d2 - d * 1000000000000000000)) by ring.
      rewrite Z.abs_mul. lia. }
  set (t := Z.quot _ _) in *. lia.
Qed.

(** A multiplication by [OneDec] and a division by [OneDec] are the identity on values
    that fit, and [Quo] by zero panics. *)
Theorem Mul_Quo_one (d : Z) :
  Z.abs d < 2 ^ 315 → Mul d OneDec = Some d ∧ Quo d OneDec = Some d ∧ Quo d ZeroDec = None.
Proof.
  intros Hd. unfold Mul, Quo, OneDec, bigQuo. split_and!; [| |done].
  - rewrite chopRound_exact. by apply checkBits_Some.
  - destruct (Z.eqb_spec precisionReuse 0); [done|]. simpl.
    rewrite Z.quot_mul by done. rewrite chopRound_exact. by apply checkBits_Some.
Qed.

(** [Ceil] returns the least whole number that is not below the decimal. *)
Theorem Ceil_least (d : Z) :
  ∃ n, Ceil d = Some (n * precisionReuse) ∧ d ≤ n * precisionReuse ∧
       ∀ m, d ≤ m * precisionReuse → n ≤ m.
Proof.
  pose proof (Z.quot_rem' d precisionReuse) as Hqr.
  pose proof (Z.rem_bound_abs d precisionReuse ltac:(done)) as Hb.
  pose proof (Z.rem_sign_mul d precisionReuse ltac:(done)) as Hs.
  unfold Ceil. set (q := Z.quot d precisionReuse) in *. set (r := Z.rem d precisionReuse) in *.
  assert (∀ n, NewDecFromBigInt n = Some (n * precisionReuse)) as HN by done.
  rewrite !HN. rewrite precisionReuse_val in *.
  destruct (Z.eqb_spec r 0); [exists q; split_and!; [done|lia|lia]|].
  destruct (Z.eqb_spec (Z.sgn r) (-1)); [exists q|exists (q + 1)]; split_and!; done || nia.
Qed.

(** ** Texts *)
Lemma char_digit_char d : 0 ≤ d < 10 → char_digit (digit_char d) = Some d.
Proof.
  intros Hd.
  assert (d = 0 ∨ d = 1 ∨ d = 2 ∨ d = 3 ∨ d = 4 ∨ d = 5 ∨ d = 6 ∨ d = 7 ∨ d = 8 ∨ d = 9) as H by lia.
  destruct_or! H; by subst.
Qed.

Lemma parseDigits_app a s1 s2 :
  parseDigits a (s1 ++ s2) = parseDigits a s1 ≫= λ b, parseDigits b s2.
Proof.
  revert a. induction s1 as [|c s1 IH]; intros a; [done|]. simpl.
  destruct (char_digit c); simpl; [apply IH|done].
Qed.

Lemma parseDigits_zeros a k : parseDigits a (replicate k chr0) = Some (a * 10 ^ Z.of_nat k).
Proof.
  revert a. induction k as [|k IH]; intros a; simpl; [f_equal; lia|].
  rewrite IH. f_equal. rewrite Nat2Z.inj_succ, Z.pow_succ_r by lia. lia.
Qed.

(** A text of decimal digits. *)
Definition isDigits (s : text) : Prop := Forall (λ c, is_Some (char_digit c)) s.

Lemma isDigits_not_in s c : char_digit c = None → isDigits s → c ∉ s.
Proof.
  intros Hc Hs Hin. unfold isDigits in Hs. rewrite Forall_forall in Hs.
  destruct (Hs c Hin). congruence.
Qed.

Lemma digits_loop_spec fuel n acc :
  0 ≤ n < 10 ^ Z.of_nat fuel → (0 < fuel)%nat →
  ∃ ds, digits_loop fuel n acc = ds ++ acc ∧ ds ≠ [] ∧ isDigits ds ∧
        ∀ a, parseDigits a ds = Some (a * 10 ^ Z.of_nat (length ds) + n).
Proof.
  revert n acc. induction fuel as [|fuel IH]; intros n acc Hn Hf; [lia|]. simpl.
  pose proof (Z.div_mod n 10 ltac:(lia)) as Hdm. pose proof (Z.mod_pos_bound n 10 ltac:(lia)).
  assert (∀ b, parseDigits b [digit_char (n mod 10)] = Some (10 * b + n mod 10)) as Hone
    by (intros b; simpl; by rewrite char_digit_char by lia).
  assert (is_Some (char_digit (digit_char (n mod 10)))) as Hdig
    by (rewrite char_digit_char by lia; eauto).
  destruct (Z.eqb_spec (n / 10) 0) as [Hz|Hnz].
  - exists [digit_char (n mod 10)]. split_and!; [done|done|by repeat constructor|].
    intros a. rewrite Hone. f_equal. change (Z.of_nat (length _)) with 1. lia.
  - destruct fuel as [|fuel]; [simpl in Hn; rewrite Z.div_small in Hnz; lia|].
    destruct (IH (n / 10) (digit_char (n mod 10) :: acc)) as (ds & -> & Hne & Hds & Hp);
      [|lia|].
    { rewrite Nat2Z.inj_succ, Z.pow_succ_r in Hn by lia.
      split; [apply Z.div_pos; lia|apply Z.div_lt_upper_bound; lia]. }
    exists (ds ++ [digit_char (n mod 10)]). split_and!.
    + by rewrite <-app_assoc.
    + by destruct ds.
    + apply Forall_app; split; [done|by repeat constructor].
    + intros a. rewrite parseDigits_app, Hp. etransitivity; [apply Hone|]. f_equal.
      rewrite length_app, Nat2Z.inj_add, Z.pow_add_r by lia.
      change (10 ^ Z.of_nat (length [_])) with 10. lia.
Qed.

Lemma digits_spec n :
  0 ≤ n → digits n ≠ [] ∧ isDigits (digits n) ∧
  ∀ a, parseDigits a (digits n) = Some (a * 10 ^ Z.of_nat (length (digits n)) + n).
Proof.
  intros Hn. unfold digits.
  destruct (digits_loop_spec (S (Z.to_nat (Z.log2 n))) n []) as (ds & -> & H); [|lia|].
  - split; [done|]. rewrite Nat2Z.inj_succ, Z2Nat.id by apply Z.log2_nonneg.
    destruct (Z.eq_dec n 0) as [->|]; [done|].
    pose proof (Z.log2_spec n ltac:(lia)) as [_ Hlt].
    eapply Z.lt_le_trans; [exact Hlt|]. apply Z.pow_le_mono_l. pose proof (Z.log2_nonneg n). lia.
  - by rewrite app_nil_r.
Qed.

Lemma splitDot_none s : chrDot ∉ s → splitDot s = [s].
Proof.
  induction s as [|c s IH]; intros H; [done|]. simpl.
  case_decide; [set_solver|]. rewrite IH by set_solver. done.
Qed.

Lemma splitDot_one a b : chrDot ∉ a → chrDot ∉ b → splitDot (a ++ chrDot :: b) = [a; b].
Proof.
  intros Ha Hb. induction a as [|c a IH]; simpl.
  - by rewrite splitDot_none.
  - case_decide; [set_solver|]. rewrite IH by set_solver. done.
Qed.

Lemma SetString_digits s : s ≠ [] → isDigits s → SetString s = parseDigits 0 s.
Proof.
  intros Hne Hs. destruct s as [|c s]; [done|]. simpl.
  inversion Hs as [|?? [v Hv] Hrest]; subst.
  destruct (decide (c = chrMinus)) as [->|]; [done|].
  destruct (decide (c = chrPlus)) as [->|]; done.
Qed.

Lemma isDigits_zeros k : isDigits (replicate k chr0).
Proof. apply Forall_replicate. eauto. Qed.

(** The text of a non-negative value splits at its point into digits [w] and exactly 18
    digits [f], whose concatenation denotes the value. *)
Lemma stringNonneg_shape d :
  0 ≤ d → ∃ w f, stringNonneg d = w ++ chrDot :: f ∧ w ≠ [] ∧ length f = 18%nat ∧
                 isDigits (w ++ f) ∧ parseDigits 0 (w ++ f) = Some d.
Proof.
  intros Hd. destruct (digits_spec d Hd) as (Hne & Hds & Hp).
  unfold stringNonneg. change (Z.to_nat Precision) with 18%nat. case_decide as Hlen.
  - exists [chr0], (replicate (18 - length (digits d)) chr0 ++ digits d).
    split_and!; [done|done| | |].
    + rewrite length_app, length_replicate. lia.
    + simpl. constructor; [by eexists|]. apply Forall_app; split; [apply isDigits_zeros|done].
    + simpl. rewrite parseDigits_app, parseDigits_zeros. simpl. rewrite Hp. f_equal; lia.
  - exists (take (length (digits d) - 18) (digits d)), (drop (length (digits d) - 18) (digits d)).
    rewrite take_drop. split_and!; [done| |rewrite length_drop; lia|done|rewrite Hp; f_equal; lia].
    intros Heq%(f_equal length). rewrite length_take in Heq. simpl in Heq. lia.
Qed.

Lemma newDecFromUnsigned_string neg d :
  0 ≤ d → newDecFromUnsigned neg (stringNonneg d) = Ok (if neg then - d else d).
Proof.
  intros Hd. destruct (stringNonneg_shape d Hd) as (w & f & -> & Hw & Hf & Hds & Hp).
  pose proof Hds as [Hdw Hdf]%Forall_app. unfold newDecFromUnsigned.
  rewrite decide_False by (by destruct w).
  rewrite splitDot_one by (by apply isDigits_not_in).
  rewrite decide_False by (destruct w; simpl in *; [done|lia]).
  change (Z.to_nat Precision) with 18%nat. rewrite Hf, decide_False by lia.
  change (replicate (18 - 18) chr0) with (@nil ascii). rewrite app_nil_r.
  rewrite SetString_digits, Hp by (done || by destruct w). done.
Qed.

(** Printing a decimal and reading the text back gives the same decimal, for every
    value and sign. *)
Theorem String_roundtrip (d : Z) : NewDecFromStr (DecString d) = Ok d.
Proof.
  unfold DecString, IsNegative. destruct (Z.eqb_spec (Z.sgn d) (-1)) as [Hn|Hn].
  - simpl. rewrite newDecFromUnsigned_string by (unfold Neg; lia). unfold Neg. f_equal. lia.
  - destruct (stringNonneg_shape d ltac:(lia)) as (w & f & Hs & Hw & Hf & Hds & Hp).
    pose proof (newDecFromUnsigned_string false d ltac:(lia)) as Hok.
    rewrite Hs in *. destruct w as [|c w]; [done|]. simpl in *.
    inversion Hds as [|?? [v Hv] ?]; subst.
    rewrite decide_False by (intros ->; done). exact Hok.
Qed.

Definition asText (s : string) : text := list_ascii_of_string s.

(** [NewDecFromStr] accepts a second sign: ["--5"] is read as plus five and ["+5"] is
    accepted, while the documented form has at most one leading minus. *)
Theorem NewDecFromStr_double_sign :
  NewDecFromStr (asText "--5") = Ok (5 * precisionReuse) ∧
  NewDecFromStr (asText "-+5") = Ok (- 5 * precisionReuse) ∧
  NewDecFromStr (asText "+5") = Ok (5 * precisionReuse).
Proof. split_and!; vm_compute; reflexivity. Qed.

(** Concrete runs. *)
Example NewDecFromStr_ex1 :
  NewDecFromStr (asText "-123.456") = Ok (-123456000000000000000).
Proof. vm_compute. reflexivity. Qed.
Example NewDecFromStr_ex2 : NewDecFromStr (asText "1.2.3") = Err errTooManyPeriods.
Proof. vm_compute. reflexivity. Qed.
Example NewDecFromStr_ex3 : NewDecFromStr (asText "1.") = Err errBadDecimalLength.
Proof. vm_compute. reflexivity. Qed.
Example DecString_ex : DecString (-1500000000000000000) = asText "-1.500000000000000000".
Proof. vm_compute. reflexivity. Qed.
Example Quo_ex : Quo (2 * precisionReuse) (3 * precisionReuse) = Some 666666666666666667.
Proof. vm_compute. reflexivity. Qed.

(** ** Witnesses *)
Lemma Mul_correct_witness : Mul 1500000000000000000 3 = Some 4.
Proof. exact (Mul_correct 1500000000000000000 3 4 (or_intror (conj eq_refl eq_refl))). Defined.
