(* ===== verification/Mask.v ===== *)
(** * Participation bitmasks ([crypto/bls/mask.go], [crypto/bls/bls.go],
      [internal/utils/bytes.go])

    A [Mask] records which members of a committee have signed, and keeps the aggregate of
    their public keys.  The curve operations of the BLS library are the interface
    [BlsKey]; the file proves that the kept aggregate is the sum of exactly the enabled
    keys, whatever the sequence of mask operations.  A byte is an integer in [0, 256). *)

From Stdlib Require Import ZArith Lia.
From stdpp Require Import base gmap list option sets.
From S2P Require Import Prelude.
Local Open Scope Z_scope.

(** ** The BLS library's public keys

    [bls.PublicKey] with its zero value and its [Add] and [Sub] methods.  The laws are
    those of the curve's abelian group. *)
Class BlsKey (G : Type) := {
  keyZero : G;
  keyAdd : G → G → G;
  keySub : G → G → G;
}.

Class BlsKeyLaws (G : Type) `{BlsKey G} := {
  keyAdd_comm : ∀ a b, keyAdd a b = keyAdd b a;
  keyAdd_assoc : ∀ a b c, keyAdd a (keyAdd b c) = keyAdd (keyAdd a b) c;
  keyAdd_zero : ∀ a, keyAdd keyZero a = a;
  keySub_add : ∀ a b, keySub (keyAdd a b) b = a;
}.

(** The integers as a toy instance, used by the concrete runs. *)
#[export] Instance Z_BlsKey : BlsKey Z := {| keyZero := 0; keyAdd := Z.add; keySub := Z.sub |}.
#[export] Instance Z_BlsKeyLaws : BlsKeyLaws Z.
Proof. split; simpl; intros; lia. Qed.

(** ** Counting bits ([internal/utils/bytes.go]) *)
Definition halfByteLookup : list Z := [0; 1; 1; 2; 1; 2; 2; 3; 1; 2; 2; 3; 2; 3; 3; 4].

Definition countOneBitsInByte (by' : Z) : Z :=
  default 0 (halfByteLookup !! Z.to_nat (Z.land by' 15)) +
  default 0 (halfByteLookup !! Z.to_nat (Z.shiftr by' 4)).

Fixpoint CountOneBits (arr : bytes) : Z :=
  match arr with
  | [] => 0
  | b :: arr' => countOneBitsInByte b + CountOneBits arr'
  end.

(** ** The mask *)
Inductive maskError :=
| errKeyNotFound
| errMismatchingBitmap (expected provided : nat)
| errIndexOutOfRange
| errMismatchingLengths.

Section Mask.
Context {G : Type} `{BlsKey G}.

Record PublicKeyWrapper := mkPublicKeyWrapper { Bytes : SerializedPublicKey; Object : G }.

Record Mask := mkMask {
  Bitmap : bytes;
  Publics : list PublicKeyWrapper;
  PublicsIndex : gmap SerializedPublicKey Z;
  AggregatePublic : G;
}.

Definition Len (publics : list PublicKeyWrapper) : nat :=
  Z.to_nat (Z.shiftr (Z.of_nat (length publics) + 7) 3).

(** [index[key.Bytes] = i], in the order of the slice: a later duplicate wins. *)
Fixpoint indexFrom (i : nat) (publics : list PublicKeyWrapper)
    (index : gmap SerializedPublicKey Z) : gmap SerializedPublicKey Z :=
  match publics with
  | [] => index
  | key :: rest => indexFrom (S i) rest (<[Bytes key := Z.of_nat i]> index)
  end.

(** The byte and the bit of cosigner [i]. *)
Definition bytOf (i : Z) : option nat :=
  let byt := Z.shiftr i 3 in if byt <? 0 then None else Some (Z.to_nat byt).
Definition mskOf (i : Z) : Z := Z.shiftl 1 (Z.land i 7).

(** [(bm[byt] & msk) != 0]; an index outside the slice panics. *)
Definition readBit (bm : bytes) (i : Z) : option bool :=
  byt ← bytOf i; b ← bm !! byt; Some (negb (Z.land b (mskOf i) =? 0)).

(** [bm[byt] ^= msk]. *)
Definition flipBit (bm : bytes) (i : Z) : option bytes :=
  byt ← bytOf i; b ← bm !! byt; Some (<[byt := Z.lxor b (mskOf i)]> bm).

(** The body shared by [SetBit] and the loop of [SetMask]: flip to 1 and add the key when
    the bit is 0 and wanted; then flip to 0 and subtract when it is 1 and not wanted. *)
Definition applyBit (m : Mask) (i : Z) (want : bool) : option Mask :=
  key ← Publics m !! Z.to_nat i;
  cur ← readBit (Bitmap m) i;
  m1 ← (if negb cur && want then
          bm ← flipBit (Bitmap m) i;
          Some (mkMask bm (Publics m) (PublicsIndex m) (keyAdd (AggregatePublic m) (Object key)))
        else Some m);
  cur1 ← readBit (Bitmap m1) i;
  (if cur1 && negb want then
     bm ← flipBit (Bitmap m1) i;
     Some (mkMask bm (Publics m1) (PublicsIndex m1) (keySub (AggregatePublic m1) (Object key)))
   else Some m1).

Definition SetBit (m : Mask) (i : Z) (enable : bool) : result maskError Mask :=
  if Z.of_nat (length (Publics m)) <=? i then Err errIndexOutOfRange
  else lift_panic (applyBit m i enable).

Fixpoint SetMask_loop (mask : bytes) (idxs : list nat) (m : Mask) : option Mask :=
  match idxs with
  | [] => Some m
  | i :: idxs' =>
      want ← readBit mask (Z.of_nat i);
      m' ← applyBit m (Z.of_nat i) want;
      SetMask_loop mask idxs' m'
  end.

Definition SetMask (m : Mask) (mask : bytes) : result maskError Mask :=
  if negb (Len (Publics m) =? length mask)%nat
  then Err (errMismatchingBitmap (Len (Publics m)) (length mask))
  else lift_panic (SetMask_loop mask (seq 0 (length (Publics m))) m).

Definition emptyMask (publics : list PublicKeyWrapper) : Mask :=
  mkMask (replicate (Len publics) 0) publics (indexFrom 0 publics ∅) keyZero.

(** [NewMask]: the error of [SetBit] is dropped, as in the source. *)
Definition NewMask (publics : list PublicKeyWrapper) (myKey : option PublicKeyWrapper)
    : result maskError Mask :=
  let m := emptyMask publics in
  match myKey with
  | None => Ok m
  | Some k =>
      match PublicsIndex m !! Bytes k with
      | Some i =>
          match SetBit m i true with
          | Ok m' => Ok m'
          | Err _ => Ok m
          | Panic => Panic
          end
      | None => Err errKeyNotFound
      end
  end.

Definition Clear (m : Mask) : Mask :=
  mkMask (replicate (Len (Publics m)) 0) (Publics m) (PublicsIndex m) keyZero.

Definition MaskBytes (m : Mask) : bytes := Bitmap m.

Fixpoint GetPubKeyFromMask_loop (bm : bytes) (flag : bool) (i : nat)
    (publics : list PublicKeyWrapper) : option (list G) :=
  match publics with
  | [] => Some []
  | key :: rest =>
      cur ← readBit bm (Z.of_nat i);
      pubKeys ← GetPubKeyFromMask_loop bm flag (S i) rest;
      Some (if (if flag then cur else negb cur) then Object key :: pubKeys else pubKeys)
  end.
Definition GetPubKeyFromMask (m : Mask) (flag : bool) : option (list G) :=
  GetPubKeyFromMask_loop (Bitmap m) flag 0 (Publics m).

Fixpoint GetSigned_loop (bm : bytes) (i : nat) (publics : list PublicKeyWrapper)
    : option (list PublicKeyWrapper) :=
  match publics with
  | [] => Some []
  | key :: rest =>
      cur ← readBit bm (Z.of_nat i);
      pubKeys ← GetSigned_loop bm (S i) rest;
      Some (if cur : bool then key :: pubKeys else pubKeys)
  end.
Definition GetSignedPubKeysFromBitmap (m : Mask) (bitmap : bytes)
    : result maskError (list PublicKeyWrapper) :=
  if negb (Len (Publics m) =? length bitmap)%nat
  then Err (errMismatchingBitmap (Len (Publics m)) (length bitmap))
  else lift_panic (GetSigned_loop bitmap 0 (Publics m)).

Definition IndexEnabled (m : Mask) (i : Z) : result maskError bool :=
  if Z.of_nat (length (Publics m)) <=? i then Err errIndexOutOfRange
  else lift_panic (readBit (Bitmap m) i).

Definition KeyEnabled (m : Mask) (public : SerializedPublicKey) : result maskError bool :=
  match PublicsIndex m !! public with
  | Some i => IndexEnabled m i
  | None => Err errKeyNotFound
  end.

Definition SetKey (m : Mask) (public : SerializedPublicKey) (enable : bool)
    : result maskError Mask :=
  match PublicsIndex m !! public with
  | Some i => SetBit m i enable
  | None => Err errKeyNotFound
  end.

(** The second loop of [SetKeysAtomic]; an error keeps the bits set so far. *)
Fixpoint SetBits_loop (m : Mask) (indexes : list Z) (enable : bool)
    : Mask * result maskError unit :=
  match indexes with
  | [] => (m, Ok tt)
  | index :: rest =>
      match SetBit m index enable with
      | Ok m' => SetBits_loop m' rest enable
      | Err e => (m, Err e)
      | Panic => (m, Panic)
      end
  end.
Definition SetKeysAtomic (m : Mask) (publics : list PublicKeyWrapper) (enable : bool)
    : Mask * result maskError unit :=
  match mapM (λ key, PublicsIndex m !! Bytes key) publics with
  | None => (m, Err errKeyNotFound)
  | Some indexes => SetBits_loop m indexes enable
  end.

Fixpoint CountEnabled_loop (bm : bytes) (idxs : list nat) (hw : Z) : option Z :=
  match idxs with
  | [] => Some hw
  | i :: idxs' =>
      cur ← readBit bm (Z.of_nat i);
      CountEnabled_loop bm idxs' (if cur : bool then hw + 1 else hw)
  end.
Definition CountEnabled (m : Mask) : option Z :=
  CountEnabled_loop (Bitmap m) (seq 0 (length (Publics m))) 0.

Definition CountTotal (m : Mask) : Z := Z.of_nat (length (Publics m)).

Definition AggregateMasks (a b : bytes) : result maskError bytes :=
  if negb (length a =? length b)%nat then Err errMismatchingLengths
  else Ok (zip_with Z.lor a b).

(** The two cosigning policies. *)
Definition CompletePolicy_Check (m : Mask) : option bool :=
  c ← CountEnabled m; Some (c =? CountTotal m).
Definition ThresholdPolicy_Check (thold : Z) (m : Mask) : option bool :=
  c ← CountEnabled m; Some (thold <=? c).

End Mask.
Arguments PublicKeyWrapper : clear implicits.
Arguments Mask : clear implicits.

(** ** Commit signatures ([SeparateSigAndMask]) *)
Definition BLSSignatureSizeInBytes : nat := 96.

Definition SeparateSigAndMask (commitSigs : bytes) : option (bytes * bytes) :=
  if (length commitSigs <? BLSSignatureSizeInBytes)%nat then None
  else Some (take BLSSignatureSizeInBytes commitSigs, drop BLSSignatureSizeInBytes commitSigs).

(** * Properties *)
#[local] Arguments Nat.div : simpl never.
#[local] Arguments Nat.modulo : simpl never.

(** ** Bits of a byte *)
Lemma land_pow2 b k : 0 ≤ k → Z.land b (2 ^ k) = if Z.testbit b k then 2 ^ k else 0.
Proof.
  intros Hk. apply Z.bits_inj'. intros j Hj.
  rewrite Z.land_spec, Z.pow2_bits_eqb by done. destruct (Z.eqb_spec k j) as [->|Hne].
  - destruct (Z.testbit b j); simpl; [by rewrite Z.pow2_bits_true|by rewrite Z.bits_0].
  - rewrite andb_false_r. destruct (Z.testbit b k); [|by rewrite Z.bits_0].
    by rewrite Z.pow2_bits_false.
Qed.

Lemma land_pow2_eqb b k : 0 ≤ k → negb (Z.land b (2 ^ k) =? 0) = Z.testbit b k.
Proof.
  intros Hk. rewrite land_pow2 by done. destruct (Z.testbit b k); [|done].
  pose proof (Z.pow_pos_nonneg 2 k). destruct (Z.eqb_spec (2 ^ k) 0); [lia|done].
Qed.

Lemma mskOf_pow2 (i : nat) : mskOf (Z.of_nat i) = 2 ^ (Z.of_nat (i mod 8)).
Proof.
  unfold mskOf. change 7 with (Z.ones 3). rewrite Z.land_ones by lia.
  change (2 ^ 3) with (Z.of_nat 8). rewrite <-Nat2Z.inj_mod, Z.shiftl_1_l. done.
Qed.

Lemma bytOf_div (i : nat) : bytOf (Z.of_nat i) = Some (i `div` 8)%nat.
Proof.
  unfold bytOf. rewrite Z.shiftr_div_pow2 by lia. change (2 ^ 3) with (Z.of_nat 8).
  rewrite <-Nat2Z.inj_div. destruct (Z.ltb_spec (Z.of_nat (i `div` 8)) 0); [lia|].
  by rewrite Nat2Z.id.
Qed.

Definition isByte (b : Z) : Prop := 0 ≤ b < 256.

Lemma isByte_testbit b k : isByte b → 8 ≤ k → Z.testbit b k = false.
Proof.
  intros Hb Hk. destruct (Z.eq_dec b 0) as [->|]; [apply Z.bits_0|].
  unfold isByte in Hb. apply Z.bits_above_log2; [lia|].
  apply Z.lt_le_trans with 8; [|done]. apply Z.log2_lt_pow2; [lia|]. simpl. lia.
Qed.

Lemma isByte_lxor b k : isByte b → 0 ≤ k < 8 → isByte (Z.lxor b (2 ^ k)).
Proof.
  intros Hb Hk.
  assert (0 ≤ Z.lxor b (2 ^ k)) as Hnn.
  { apply Z.lxor_nonneg. pose proof (Z.pow_pos_nonneg 2 k). unfold isByte in Hb. lia. }
  split; [done|]. destruct (Z.eq_dec (Z.lxor b (2 ^ k)) 0) as [->|]; [done|].
  change 256 with (2 ^ 8). apply Z.log2_lt_pow2; [lia|].
  destruct (Z.lt_ge_cases (Z.log2 (Z.lxor b (2 ^ k))) 8) as [|Hge]; [done|exfalso].
  pose proof (Z.bit_log2 (Z.lxor b (2 ^ k)) ltac:(lia)) as Ht.
  rewrite Z.lxor_spec, (isByte_testbit b), Z.pow2_bits_false in Ht by (done || lia). done.
Qed.

(** ** Reading and flipping bits of a bitmap *)
Definition bitAt (bm : bytes) (i : nat) : bool := default false (readBit bm (Z.of_nat i)).

Lemma readBit_lookup bm (i : nat) b :
  bm !! (i `div` 8)%nat = Some b →
  readBit bm (Z.of_nat i) = Some (Z.testbit b (Z.of_nat (i mod 8))).
Proof.
  intros Hb. unfold readBit. rewrite bytOf_div. simpl. rewrite Hb. simpl.
  by rewrite mskOf_pow2, land_pow2_eqb by lia.
Qed.

Lemma div8_lt (i n : nat) : (i < 8 * n)%nat → (i `div` 8 < n)%nat.
Proof. intros. apply Nat.Div0.div_lt_upper_bound. lia. Qed.

Lemma lookup_byte (bm : bytes) (i : nat) :
  (i < 8 * length bm)%nat → ∃ b, bm !! (i `div` 8)%nat = Some b.
Proof. intros Hi. apply lookup_lt_is_Some. by apply div8_lt. Qed.

Lemma readBit_Some bm (i : nat) :
  (i < 8 * length bm)%nat → readBit bm (Z.of_nat i) = Some (bitAt bm i).
Proof.
  intros Hi. unfold bitAt. destruct (lookup_byte bm i Hi) as [b Hb].
  by rewrite (readBit_lookup _ _ _ Hb).
Qed.

Lemma flipBit_spec bm (i : nat) :
  (i < 8 * length bm)%nat → Forall isByte bm →
  ∃ bm', flipBit bm (Z.of_nat i) = Some bm' ∧ length bm' = length bm ∧ Forall isByte bm' ∧
         ∀ j, (j < 8 * length bm)%nat →
              bitAt bm' j = if decide (j = i) then negb (bitAt bm i) else bitAt bm j.
Proof.
  intros Hi Hby. destruct (lookup_byte bm i Hi) as [b Hb].
  unfold flipBit. rewrite bytOf_div. simpl. rewrite Hb. simpl. eexists.
  split; [done|]. rewrite mskOf_pow2. split_and!.
  - apply length_insert.
  - apply Forall_insert; [done|]. apply isByte_lxor.
    + by eapply Forall_lookup_1.
    + pose proof (Nat.mod_upper_bound i 8). lia.
  - intros j Hj. unfold bitAt at 1.
    destruct (decide (j `div` 8 = i `div` 8)%nat) as [Heq|Hne].
    + erewrite readBit_lookup; [|rewrite Heq; apply list_lookup_insert_eq; by apply div8_lt].
      simpl. rewrite Z.lxor_spec, Z.pow2_bits_eqb by lia. unfold bitAt.
      rewrite (readBit_lookup bm i b Hb), (readBit_lookup bm j b) by (by rewrite Heq). simpl.
      case_decide as Hij.
      * subst. rewrite Z.eqb_refl. by destruct (Z.testbit _ _).
      * destruct (Z.eqb_spec (Z.of_nat (i mod 8)) (Z.of_nat (j mod 8))) as [Hm|Hm].
        -- exfalso. apply Hij. pose proof (Nat.div_mod_eq i 8). pose proof (Nat.div_mod_eq j 8). lia.
        -- by rewrite xorb_false_r.
    + destruct (lookup_byte bm j Hj) as [c Hc].
      rewrite (readBit_lookup _ j c) by (rewrite list_lookup_insert_ne; done). simpl.
      rewrite decide_False by (by intros ->). unfold bitAt.
      by rewrite (readBit_lookup bm j c Hc).
Qed.

Lemma bitAt_zeros n i : bitAt (replicate n 0) i = false.
Proof.
  unfold bitAt, readBit. rewrite bytOf_div. simpl.
  destruct (replicate n 0 !! (i `div` 8)%nat) as [b|] eqn:E; [|done].
  apply lookup_replicate in E as [-> _]. done.
Qed.

(** ** The sum of the enabled keys *)
Section laws.
Context {G : Type} `{BlsKeyLaws G}.
Implicit Types (m : Mask G) (publics : list (PublicKeyWrapper G)).

Lemma Len_bound publics i : (i < length publics → i < 8 * Len publics)%nat.
Proof.
  intros Hi. unfold Len. rewrite Z.shiftr_div_pow2 by lia. change (2 ^ 3) with 8.
  pose proof (Z.div_mod (Z.of_nat (length publics) + 7) 8 ltac:(lia)).
  pose proof (Z.mod_pos_bound (Z.of_nat (length publics) + 7) 8 ltac:(lia)). lia.
Qed.

Fixpoint keySum (f : nat → bool) (i : nat) publics : G :=
  match publics with
  | [] => keyZero
  | key :: rest =>
      if f i then keyAdd (Object key) (keySum f (S i) rest) else keySum f (S i) rest
  end.

Lemma keySum_ext f g i publics :
  (∀ j, (i ≤ j < i + length publics)%nat → f j = g j) → keySum f i publics = keySum g i publics.
Proof.
  revert i. induction publics as [|key rest IH]; intros i Hfg; [done|]. simpl in *.
  rewrite (Hfg i), (IH (S i)) by (intros; apply Hfg || lia; lia). done.
Qed.

Lemma keySum_add f g i k key publics :
  publics !! k = Some key → f (i + k)%nat = false → g (i + k)%nat = true →
  (∀ j, j ≠ (i + k)%nat → (i ≤ j < i + length publics)%nat → g j = f j) →
  keySum g i publics = keyAdd (keySum f i publics) (Object key).
Proof.
  revert i k. induction publics as [|key' rest IH]; intros i k Hk Hf Hg Hext; [done|].
  destruct k as [|k]; simpl in *.
  - injection Hk as ->. rewrite Nat.add_0_r in *. rewrite Hf, Hg.
    rewrite (keySum_ext g f) by (intros; apply Hext; lia). apply keyAdd_comm.
  - rewrite Hext by lia.
    rewrite (IH (S i) k Hk) by
      (try (replace (S i + k)%nat with (i + S k)%nat by lia; done); intros; apply Hext; lia).
    destruct (f i); [|done]. by rewrite keyAdd_assoc.
Qed.

Lemma keySum_none f i publics :
  (∀ j, f j = false) → keySum f i publics = keyZero.
Proof. intros Hf. revert i. induction publics; intros i; simpl; [done|]. by rewrite Hf. Qed.

(** ** The invariant *)

(** The bitmap has the committee's length and holds bytes, the index map points into the
    committee, and the aggregate is the sum of the enabled keys. *)
Record maskInv m : Prop := {
  inv_len : length (Bitmap m) = Len (Publics m);
  inv_bytes : Forall isByte (Bitmap m);
  inv_index : ∀ k i, PublicsIndex m !! k = Some i →
    0 ≤ i ∧ ∃ key, Publics m !! Z.to_nat i = Some key ∧ Bytes key = k;
  inv_agg : AggregatePublic m = keySum (bitAt (Bitmap m)) 0 (Publics m);
}.

(** [m'] is [m] with bit [i] set to [want]. *)
Definition bitUpdated m m' (i : nat) (want : bool) : Prop :=
  Publics m' = Publics m ∧ PublicsIndex m' = PublicsIndex m ∧
  ∀ j, (j < length (Publics m))%nat →
       bitAt (Bitmap m') j = if decide (j = i) then want else bitAt (Bitmap m) j.

Lemma bm_bound m i : maskInv m → (i < length (Publics m) → i < 8 * length (Bitmap m))%nat.
Proof. intros HI Hi. rewrite (inv_len m HI). by apply Len_bound. Qed.

Lemma flip_inv m i key (g : G) want :
  maskInv m → Publics m !! i = Some key → bitAt (Bitmap m) i = negb want →
  g = (if want then keyAdd (AggregatePublic m) (Object key)
       else keySub (AggregatePublic m) (Object key)) →
  ∃ bm, flipBit (Bitmap m) (Z.of_nat i) = Some bm ∧
        maskInv (mkMask bm (Publics m) (PublicsIndex m) g) ∧
        bitUpdated m (mkMask bm (Publics m) (PublicsIndex m) g) i want.
Proof.
  intros HI Hkey Hbit ->. assert (i < length (Publics m))%nat as Hi by (by eapply lookup_lt_Some).
  destruct (flipBit_spec (Bitmap m) i (bm_bound m i HI Hi) (inv_bytes m HI))
    as (bm & Hf & Hlen & Hby & Hbits).
  rewrite Hbit, negb_involutive in Hbits. exists bm. split; [done|]. split; cycle 1.
  { split_and!; [done|done|]. intros j Hj. simpl. apply Hbits. by apply (bm_bound m j HI). }
  split; simpl; [by rewrite Hlen, (inv_len m HI)|done|exact (inv_index m HI)|].
  rewrite (inv_agg m HI).
  assert (bitAt bm i = want) as Hw
    by (rewrite Hbits, decide_True by (done || by apply (bm_bound m i HI)); done).
  assert (∀ j, j ≠ i → (0 ≤ j < 0 + length (Publics m))%nat → bitAt bm j = bitAt (Bitmap m) j) as Ho
    by (intros j Hj Hr; rewrite Hbits, decide_False by (done || apply (bm_bound m j HI); lia); done).
  destruct want.
  - symmetry. by apply (keySum_add _ _ 0 i).
  - rewrite (keySum_add (bitAt bm) (bitAt (Bitmap m)) 0 i key); [by rewrite keySub_add|done..|].
    intros j Hj Hr. symmetry. auto.
Qed.

Lemma bitUpdated_refl m i want : bitAt (Bitmap m) i = want → bitUpdated m m i want.
Proof. intros <-. split_and!; [done..|]. intros j Hj. case_decide; by subst. Qed.

Lemma applyBit_spec m (i : nat) want :
  maskInv m → (i < length (Publics m))%nat →
  ∃ m', applyBit m (Z.of_nat i) want = Some m' ∧ maskInv m' ∧ bitUpdated m m' i want.
Proof.
  intros HI Hi. destruct (lookup_lt_is_Some_2 _ _ Hi) as [key Hkey].
  unfold applyBit. rewrite Nat2Z.id, Hkey. simpl.
  rewrite readBit_Some by (by apply bm_bound). simpl.
  destruct (bitAt (Bitmap m) i) eqn:Hb, want; simpl.
  - rewrite readBit_Some, Hb by (by apply bm_bound). simpl. eauto using bitUpdated_refl.
  - rewrite readBit_Some, Hb by (by apply bm_bound). simpl.
    destruct (flip_inv m i key _ false HI Hkey Hb eq_refl) as (bm & -> & HI' & Hu). eauto.
  - destruct (flip_inv m i key _ true HI Hkey Hb eq_refl) as (bm & -> & HI' & Hu). simpl.
    set (m1 := mkMask _ _ _ _) in *.
    rewrite readBit_Some by (by apply (bm_bound m1 i HI')).
    simpl. rewrite andb_false_r. eauto.
  - rewrite readBit_Some, Hb by (by apply bm_bound). simpl. eauto using bitUpdated_refl.
Qed.

Lemma SetBit_spec m i enable :
  maskInv m → 0 ≤ i < Z.of_nat (length (Publics m)) →
  ∃ m', SetBit m i enable = Ok m' ∧ maskInv m' ∧ bitUpdated m m' (Z.to_nat i) enable.
Proof.
  intros HI Hi. destruct (applyBit_spec m (Z.to_nat i) enable HI ltac:(lia)) as (m' & Ha & ? & ?).
  exists m'. split_and!; try done. unfold SetBit.
  destruct (Z.leb_spec (Z.of_nat (length (Publics m))) i); [lia|].
  rewrite Z2Nat.id in Ha by lia. by rewrite Ha.
Qed.

Lemma SetMask_loop_spec mask idxs m :
  maskInv m → length mask = Len (Publics m) → NoDup idxs →
  Forall (λ i, i < length (Publics m))%nat idxs →
  ∃ m', SetMask_loop mask idxs m = Some m' ∧ maskInv m' ∧
        Publics m' = Publics m ∧ PublicsIndex m' = PublicsIndex m ∧
        ∀ j, (j < length (Publics m))%nat →
             bitAt (Bitmap m') j = if decide (j ∈ idxs) then bitAt mask j else bitAt (Bitmap m) j.
Proof.
  revert m. induction idxs as [|i idxs IH]; intros m HI Hlen Hnd Hall; simpl.
  { exists m. split_and!; try done. }
  inversion Hall as [|?? Hi Hall']; subst. apply NoDup_cons in Hnd as [Hni Hnd].
  rewrite readBit_Some by (rewrite Hlen; by apply Len_bound). simpl.
  destruct (applyBit_spec m i (bitAt mask i) HI Hi) as (m1 & -> & HI1 & Hp1 & Hx1 & Hb1). simpl.
  destruct (IH m1 HI1) as (m2 & -> & HI2 & Hp2 & Hx2 & Hb2); [by rewrite Hp1|done|by rewrite Hp1|].
  exists m2. split_and!; [done|done|by rewrite Hp2|by rewrite Hx2|]. intros j Hj.
  rewrite Hb2, Hb1 by (rewrite ?Hp1; done).
  destruct (decide (j = i)) as [->|Hne]; [rewrite decide_False, decide_True by set_solver; done|].
  destruct (decide (j ∈ idxs)); [rewrite decide_True by set_solver|rewrite decide_False by set_solver]; done.
Qed.

Lemma SetMask_spec m mask :
  maskInv m → length mask = Len (Publics m) →
  ∃ m', SetMask m mask = Ok m' ∧ maskInv m' ∧ Publics m' = Publics m ∧
        PublicsIndex m' = PublicsIndex m ∧
        ∀ j, (j < length (Publics m))%nat → bitAt (Bitmap m') j = bitAt mask j.
Proof.
  intros HI Hlen. unfold SetMask. rewrite Hlen, Nat.eqb_refl. simpl.
  destruct (SetMask_loop_spec mask (seq 0 (length (Publics m))) m) as (m' & -> & ? & ? & ? & Hb);
    [done|done|apply NoDup_ListNoDup, seq_NoDup| |].
  { apply Forall_forall. intros i Hin. apply elem_of_seq in Hin. lia. }
  exists m'. split_and!; try done. intros j Hj. rewrite Hb, decide_True by (done || apply elem_of_seq; lia).
  done.
Qed.

Lemma SetMask_error m mask :
  length mask ≠ Len (Publics m) →
  SetMask m mask = Err (errMismatchingBitmap (Len (Publics m)) (length mask)).
Proof. intros Hne. unfold SetMask. by rewrite (proj2 (Nat.eqb_neq _ _)) by (by apply not_eq_sym). Qed.

Lemma indexFrom_lookup i publics index k v :
  indexFrom i publics index !! k = Some v →
  (∃ j key, v = Z.of_nat (i + j) ∧ publics !! j = Some key ∧ Bytes key = k) ∨ index !! k = Some v.
Proof.
  revert i index. induction publics as [|key rest IH]; intros i index; simpl; [by right|].
  intros [(j & key' & -> & Hl & Hk)|Hin]%IH.
  - left. exists (S j), key'. split_and!; [f_equal; lia|done|done].
  - apply lookup_insert_Some in Hin as [[<- <-]|[_ ?]]; [|by right].
    left. exists 0%nat, key. split_and!; [f_equal; lia|done|done].
Qed.

Lemma emptyMask_inv publics : maskInv (emptyMask publics).
Proof.
  split; simpl.
  - apply length_replicate.
  - by apply Forall_replicate.
  - intros k i [(j & key & -> & Hl & Hk)|?]%indexFrom_lookup; [|done].
    split; [lia|]. rewrite Nat2Z.id. eauto.
  - symmetry. apply keySum_none, bitAt_zeros.
Qed.

Lemma Clear_inv m : maskInv m → maskInv (Clear m).
Proof.
  intros HI. split; simpl.
  - apply length_replicate.
  - by apply Forall_replicate.
  - exact (inv_index m HI).
  - symmetry. apply keySum_none, bitAt_zeros.
Qed.

Lemma index_range m k i :
  maskInv m → PublicsIndex m !! k = Some i → 0 ≤ i < Z.of_nat (length (Publics m)).
Proof.
  intros HI Hk. destruct (inv_index m HI k i Hk) as (Hi & key & Hl & _).
  apply lookup_lt_Some in Hl. lia.
Qed.

Lemma NewMask_inv publics myKey m : NewMask publics myKey = Ok m → maskInv m.
Proof.
  unfold NewMask. pose proof (emptyMask_inv publics) as HI.
  destruct myKey as [k|]; [|by intros [= <-]].
  destruct (PublicsIndex (emptyMask publics) !! Bytes k) as [i|] eqn:Hk; [|done].
  destruct (SetBit_spec _ i true HI (index_range _ _ _ HI Hk)) as (m' & -> & ? & _).
  by intros [= <-].
Qed.

Lemma SetBits_loop_spec m indexes enable :
  maskInv m → Forall (λ i, 0 ≤ i < Z.of_nat (length (Publics m))) indexes →
  ∃ m', SetBits_loop m indexes enable = (m', Ok tt) ∧ maskInv m' ∧ Publics m' = Publics m ∧
        PublicsIndex m' = PublicsIndex m ∧
        ∀ j, (j < length (Publics m))%nat →
             bitAt (Bitmap m') j =
               if decide (Z.of_nat j ∈ indexes) then enable else bitAt (Bitmap m) j.
Proof.
  revert m. induction indexes as [|i indexes IH]; intros m HI Hall; simpl.
  { exists m. by split_and!. }
  inversion Hall as [|?? Hi Hall']; subst.
  destruct (SetBit_spec m i enable HI Hi) as (m1 & -> & HI1 & Hp1 & Hx1 & Hb1).
  destruct (IH m1 HI1) as (m2 & -> & HI2 & Hp2 & Hx2 & Hb2); [by rewrite Hp1|].
  exists m2. split_and!; [done|done|by rewrite Hp2|by rewrite Hx2|]. intros j Hj.
  rewrite Hb2, Hb1 by (rewrite ?Hp1; done).
  destruct (decide (Z.of_nat j ∈ indexes)); [rewrite decide_True by set_solver; done|].
  destruct (decide (j = Z.to_nat i)) as [->|].
  - rewrite decide_True by (rewrite Z2Nat.id by lia; set_solver). done.
  - rewrite decide_False; [done|]. intros [Hj'|?]%elem_of_cons; [lia|done].
Qed.

(** ** Counting *)
Lemma CountEnabled_loop_spec bm idxs hw :
  Forall (λ i, i < 8 * length bm)%nat idxs →
  CountEnabled_loop bm idxs hw = Some (hw + sumZ (λ i, Z.b2z (bitAt bm i)) idxs).
Proof.
  revert hw. induction idxs as [|i idxs IH]; intros hw Hall; simpl; [f_equal; lia|].
  inversion Hall; subst. rewrite readBit_Some by done. simpl. rewrite IH by done.
  f_equal. destruct (bitAt bm i); simpl; lia.
Qed.

Lemma CountEnabled_sum m :
  maskInv m →
  CountEnabled m = Some (sumZ (λ i, Z.b2z (bitAt (Bitmap m) i)) (seq 0 (length (Publics m)))).
Proof.
  intros HI. unfold CountEnabled. rewrite CountEnabled_loop_spec; [f_equal; lia|].
  apply Forall_forall. intros i Hin. apply elem_of_seq in Hin. apply (bm_bound m i HI). lia.
Qed.

Lemma GetPubKey_loop_spec bm flag i publics :
  (i + length publics ≤ 8 * length bm)%nat →
  ∃ ks, GetPubKeyFromMask_loop bm flag i publics = Some ks ∧
        foldr keyAdd keyZero ks = keySum (λ j, if flag then bitAt bm j else negb (bitAt bm j)) i publics ∧
        Z.of_nat (length ks) =
          sumZ (λ j, Z.b2z (if flag then bitAt bm j else negb (bitAt bm j))) (seq i (length publics)).
Proof.
  revert i. induction publics as [|key rest IH]; intros i Hi; simpl in *; [by exists []|].
  destruct (IH (S i)) as (ks & -> & Hf & Hl); [lia|].
  rewrite readBit_Some by lia. simpl. eexists; split; [done|].
  destruct flag, (bitAt bm i); simpl; rewrite <-?Hf, <-?Hl; split; done || lia.
Qed.

Lemma GetPubKeyFromMask_spec m flag :
  maskInv m →
  ∃ ks, GetPubKeyFromMask m flag = Some ks ∧
        foldr keyAdd keyZero ks =
          keySum (λ j, if flag then bitAt (Bitmap m) j else negb (bitAt (Bitmap m) j)) 0 (Publics m) ∧
        Z.of_nat (length ks) =
          sumZ (λ j, Z.b2z (if flag then bitAt (Bitmap m) j else negb (bitAt (Bitmap m) j)))
               (seq 0 (length (Publics m))).
Proof.
  intros HI. apply GetPubKey_loop_spec.
  destruct (length (Publics m)) as [|n] eqn:E; [lia|].
  pose proof (bm_bound m n HI ltac:(lia)). lia.
Qed.

(** ** Reachable masks *)
Inductive maskReachable (publics : list (PublicKeyWrapper G)) : Mask G → Prop :=
| reach_NewMask myKey m : NewMask publics myKey = Ok m → maskReachable publics m
| reach_SetBit m i enable m' :
    maskReachable publics m → 0 ≤ i → SetBit m i enable = Ok m' → maskReachable publics m'
| reach_SetMask m mask m' :
    maskReachable publics m → SetMask m mask = Ok m' → maskReachable publics m'
| reach_SetKey m public enable m' :
    maskReachable publics m → SetKey m public enable = Ok m' → maskReachable publics m'
| reach_SetKeysAtomic m keys enable m' r :
    maskReachable publics m → SetKeysAtomic m keys enable = (m', r) → maskReachable publics m'
| reach_Clear m : maskReachable publics m → maskReachable publics (Clear m).

Lemma SetBit_inv m i enable m' : maskInv m → 0 ≤ i → SetBit m i enable = Ok m' → maskInv m'.
Proof.
  intros HI Hi Hs. destruct (Z.lt_ge_cases i (Z.of_nat (length (Publics m)))) as [Hlt|Hge].
  - destruct (SetBit_spec m i enable HI ltac:(lia)) as (m1 & E & ? & _). congruence.
  - unfold SetBit in Hs. rewrite (proj2 (Z.leb_le _ _)) in Hs by done. done.
Qed.

Lemma SetKeysAtomic_found m (keys : list (PublicKeyWrapper G)) indexes :
  maskInv m → mapM (λ key, PublicsIndex m !! Bytes key) keys = Some indexes →
  Forall (λ i, 0 ≤ i < Z.of_nat (length (Publics m))) indexes.
Proof.
  intros HI Hm%mapM_Some_1. induction Hm; constructor; eauto using index_range.
Qed.

Lemma maskReachable_inv publics m : maskReachable publics m → maskInv m.
Proof.
  induction 1 as [myKey m Hn|m i e m' _ IH Hi Hs|m mask m' _ IH Hs|m k e m' _ IH Hs
                 |m keys e m' r _ IH Hs|m _ IH].
  - by eapply NewMask_inv.
  - by eapply SetBit_inv.
  - destruct (decide (length mask = Len (Publics m))) as [Hl|Hl].
    + destruct (SetMask_spec m mask IH Hl) as (m1 & E & ? & _). congruence.
    + rewrite SetMask_error in Hs by done. done.
  - unfold SetKey in Hs. destruct (PublicsIndex m !! k) as [i|] eqn:E; [|done].
    eapply SetBit_inv; [done| |done]. by apply (index_range m k i).
  - unfold SetKeysAtomic in Hs. destruct (mapM _ keys) as [indexes|] eqn:E; [|congruence].
    destruct (SetBits_loop_spec m indexes e IH) as (m1 & E1 & ? & _); [|congruence].
    by eapply SetKeysAtomic_found.
  - by apply Clear_inv.
Qed.

(** In every mask reached by any sequence of mask operations, [AggregatePublic] is the
    sum of exactly the public keys whose bit is enabled. *)
Theorem AggregatePublic_correct publics m :
  maskReachable publics m →
  ∃ ks, GetPubKeyFromMask m true = Some ks ∧ AggregatePublic m = foldr keyAdd keyZero ks.
Proof.
  intros HI%maskReachable_inv. destruct (GetPubKeyFromMask_spec m true HI) as (ks & Hk & Hs & _).
  exists ks. split; [done|]. by rewrite (inv_agg m HI), Hs.
Qed.

Lemma IndexEnabled_bitAt m (j : nat) :
  maskInv m → (j < length (Publics m))%nat →
  IndexEnabled m (Z.of_nat j) = Ok (bitAt (Bitmap m) j).
Proof.
  intros HI Hj. unfold IndexEnabled. destruct (Z.leb_spec (Z.of_nat (length (Publics m))) (Z.of_nat j)); [lia|].
  by rewrite readBit_Some by (by apply bm_bound).
Qed.

(** [SetMask] accepts a bitmap exactly when its length fits the committee; it then never
    panics, makes every member's bit equal to the given one, and keeps the aggregate the sum
    of the enabled keys. *)
Theorem SetMask_correct publics m mask :
  maskReachable publics m →
  (length mask ≠ Len (Publics m) →
   SetMask m mask = Err (errMismatchingBitmap (Len (Publics m)) (length mask))) ∧
  (length mask = Len (Publics m) →
   ∃ m', SetMask m mask = Ok m' ∧
     (∀ j, (j < length (Publics m))%nat →
           IndexEnabled m' (Z.of_nat j) = Ok (bitAt mask j)) ∧
     ∃ ks, GetPubKeyFromMask m' true = Some ks ∧ AggregatePublic m' = foldr keyAdd keyZero ks).
Proof.
  intros Hr. pose proof (maskReachable_inv _ _ Hr) as HI. split; [apply SetMask_error|].
  intros Hl. destruct (SetMask_spec m mask HI Hl) as (m' & E & HI' & Hp & _ & Hb).
  exists m'. split_and!; [done| |].
  - intros j Hj. rewrite IndexEnabled_bitAt by (rewrite ?Hp; done). by rewrite Hb.
  - destruct (GetPubKeyFromMask_spec m' true HI') as (ks & Hk & Hs & _).
    exists ks. split; [done|]. by rewrite (inv_agg m' HI'), Hs.
Qed.

(** [SetKeysAtomic] is all-or-nothing: when some key is unknown the mask is unchanged and
    the error is returned; otherwise every given key's bit is set and every other bit kept. *)
Theorem SetKeysAtomic_atomic publics m keys enable :
  maskReachable publics m →
  match mapM (λ key, PublicsIndex m !! Bytes key) keys with
  | None => SetKeysAtomic m keys enable = (m, Err errKeyNotFound)
  | Some indexes =>
      ∃ m', SetKeysAtomic m keys enable = (m', Ok tt) ∧
        ∀ j, (j < length (Publics m))%nat →
          IndexEnabled m' (Z.of_nat j) =
            if decide (Z.of_nat j ∈ indexes) then Ok enable else IndexEnabled m (Z.of_nat j)
  end.
Proof.
  intros HI%maskReachable_inv. unfold SetKeysAtomic.
  destruct (mapM _ keys) as [indexes|] eqn:E; [|done].
  destruct (SetBits_loop_spec m indexes enable HI) as (m' & E1 & HI' & Hp & _ & Hb);
    [by eapply SetKeysAtomic_found|].
  exists m'. split; [done|]. intros j Hj.
  rewrite !IndexEnabled_bitAt by (rewrite ?Hp; done). rewrite Hb by done. by case_decide.
Qed.

(** The keys of the signers and of the non-signers partition the committee. *)
Theorem GetPubKeyFromMask_partition publics m :
  maskReachable publics m →
  ∃ on off, GetPubKeyFromMask m true = Some on ∧ GetPubKeyFromMask m false = Some off ∧
    CountEnabled m = Some (Z.of_nat (length on)) ∧
    Z.of_nat (length on) + Z.of_nat (length off) = CountTotal m.
Proof.
  intros HI%maskReachable_inv.
  destruct (GetPubKeyFromMask_spec m true HI) as (on & Hon & _ & Lon).
  destruct (GetPubKeyFromMask_spec m false HI) as (off & Hoff & _ & Loff).
  exists on, off. split_and!; [done|done|by rewrite CountEnabled_sum, Lon|].
  rewrite Lon, Loff. unfold CountTotal.
  generalize (seq_length (length (Publics m)) 0). generalize (seq 0 (length (Publics m))).
  intros l <-. induction l as [|a l IH]; [done|]. simpl.
  destruct (bitAt (Bitmap m) a); simpl; lia.
Qed.

End laws.

(** ** [CountOneBits] against the mask *)
Lemma countOneBitsInByte_spec b :
  isByte b → countOneBitsInByte b = sumZ (λ k, Z.b2z (Z.testbit b (Z.of_nat k))) (seq 0 8).
Proof.
  intros Hb. rewrite <-(Z2Nat.id b) by (unfold isByte in Hb; lia).
  assert (forallb (λ n, countOneBitsInByte (Z.of_nat n) =?
    sumZ (λ k, Z.b2z (Z.testbit (Z.of_nat n) (Z.of_nat k))) (seq 0 8)) (seq 0 256) = true) as Hall
    by (vm_compute; reflexivity).
  rewrite forallb_forall in Hall. apply Z.eqb_eq, Hall.
  apply in_seq. unfold isByte in Hb. lia.
Qed.

Lemma bitAt_cons_lo b bm k : (k < 8)%nat → bitAt (b :: bm) k = Z.testbit b (Z.of_nat k).
Proof.
  intros Hk. unfold bitAt. rewrite (readBit_lookup _ _ b).
  - simpl. by rewrite Nat.mod_small.
  - by rewrite Nat.div_small.
Qed.

Lemma bitAt_cons_hi b bm k : bitAt (b :: bm) (8 + k) = bitAt bm k.
Proof.
  unfold bitAt, readBit. rewrite !bytOf_div, !mskOf_pow2.
  replace ((8 + k) `div` 8)%nat with (S (k `div` 8))
    by (replace (8 + k)%nat with (k + 1 * 8)%nat by lia; rewrite Nat.div_add by lia; lia).
  replace ((8 + k) `mod` 8)%nat with (k `mod` 8)%nat
    by (replace (8 + k)%nat with (k + 1 * 8)%nat by lia; by rewrite Nat.Div0.mod_add).
  done.
Qed.

Lemma sumZ_fmap {A B} (f : B → Z) (g : A → B) l : sumZ f (map g l) = sumZ (λ a, f (g a)) l.
Proof. induction l; simpl; lia. Qed.

Lemma CountOneBits_sum bm :
  Forall isByte bm →
  CountOneBits bm = sumZ (λ i, Z.b2z (bitAt bm i)) (seq 0 (8 * length bm)).
Proof.
  induction 1 as [|b bm Hb _ IH]; [done|]. simpl CountOneBits.
  replace (8 * length (b :: bm))%nat with (8 + 8 * length bm)%nat by (simpl; lia).
  rewrite seq_app, sumZ_app, countOneBitsInByte_spec, IH by done. f_equal.
  - apply sumZ_ext. intros k Hk%elem_of_seq. by rewrite bitAt_cons_lo by lia.
  - replace (seq (0 + 8) (8 * length bm)) with (map (Nat.add 8) (seq 0 (8 * length bm)))
      by apply (fmap_add_seq 8 0).
    rewrite sumZ_fmap. apply sumZ_ext. intros k _. by rewrite bitAt_cons_hi.
Qed.

(** The population count the quorum check takes of the raw bitmap ([CountOneBits]) is
    never below the number of enabled members, and equals it when the padding bits of the
    last byte are zero. *)
Theorem CountOneBits_CountEnabled {G} `{BlsKeyLaws G} publics (m : Mask G) :
  maskReachable publics m →
  ∃ c, CountEnabled m = Some c ∧ c ≤ CountOneBits (Bitmap m) ∧
       ((∀ i, (length (Publics m) ≤ i < 8 * length (Bitmap m))%nat → bitAt (Bitmap m) i = false) →
        CountOneBits (Bitmap m) = c).
Proof.
  intros HI%maskReachable_inv. eexists. split; [by apply CountEnabled_sum|].
  rewrite CountOneBits_sum by apply HI.
  assert (length (Publics m) ≤ 8 * length (Bitmap m))%nat as Hle.
  { destruct (length (Publics m)) as [|n] eqn:E; [lia|]. pose proof (bm_bound m n HI ltac:(lia)). lia. }
  replace (8 * length (Bitmap m))%nat
    with (length (Publics m) + (8 * length (Bitmap m) - length (Publics m)))%nat at 1 2 by lia.
  rewrite seq_app, sumZ_app. split.
  - pose proof (sumZ_nonneg (λ i, Z.b2z (bitAt (Bitmap m) i))
      (seq (0 + length (Publics m)) (8 * length (Bitmap m) - length (Publics m)))) as Hn.
    enough (0 ≤ sumZ (λ i, Z.b2z (bitAt (Bitmap m) i))
      (seq (0 + length (Publics m)) (8 * length (Bitmap m) - length (Publics m)))) by lia.
    apply Hn. intros i _. destruct (bitAt _ i); done.
  - intros Hz. rewrite (sumZ_zero _ (seq (0 + _) _)); [lia|].
    intros i Hi%elem_of_seq. rewrite Hz by lia. done.
Qed.

(** Splitting a commit payload returns the signature and the bitmap it was built from. *)
Theorem SeparateSigAndMask_roundtrip sig bitmap :
  length sig = BLSSignatureSizeInBytes → SeparateSigAndMask (sig ++ bitmap) = Some (sig, bitmap).
Proof.
  intros Hl. unfold SeparateSigAndMask. rewrite length_app, Hl.
  destruct (Nat.ltb_spec (BLSSignatureSizeInBytes + length bitmap) BLSSignatureSizeInBytes); [lia|].
  by rewrite <-Hl, take_app_length, drop_app_length.
Qed.

(** Aggregating two masks enables exactly the members enabled in either. *)
Theorem AggregateMasks_union a b :
  length a = length b →
  ∃ m, AggregateMasks a b = Ok m ∧ length m = length a ∧
       ∀ i, (i < 8 * length a)%nat → bitAt m i = bitAt a i || bitAt b i.
Proof.
  intros Hl. unfold AggregateMasks. rewrite Hl, Nat.eqb_refl. simpl. eexists. split; [done|].
  split; [rewrite length_zip_with; lia|]. intros i Hi.
  destruct (lookup_byte a i) as [x Hx]; [lia|]. destruct (lookup_byte b i) as [y Hy]; [lia|].
  unfold bitAt. rewrite (readBit_lookup a i x Hx), (readBit_lookup b i y Hy).
  rewrite (readBit_lookup _ i (Z.lor x y)); [by rewrite Z.lor_spec|].
  rewrite lookup_zip_with, Hx. simpl. by rewrite Hy.
Qed.

(** ** Concrete runs and witnesses *)
Definition exKeys : list (PublicKeyWrapper Z) :=
  [mkPublicKeyWrapper 11 100; mkPublicKeyWrapper 12 200; mkPublicKeyWrapper 13 400].

Example SetMask_ex :
  SetMask (emptyMask exKeys) [5] = Ok (mkMask [5] exKeys (indexFrom 0 exKeys ∅) 500).
Proof. vm_compute. reflexivity. Qed.

Lemma exMask_reachable : maskReachable exKeys (emptyMask exKeys).
Proof. exact (reach_NewMask exKeys None _ eq_refl). Defined.

Lemma AggregatePublic_correct_witness :
  ∃ ks, GetPubKeyFromMask (emptyMask exKeys) true = Some ks ∧
        AggregatePublic (emptyMask exKeys) = foldr keyAdd keyZero ks.
Proof. exact (AggregatePublic_correct exKeys _ exMask_reachable). Defined.

Lemma SetMask_correct_witness :
  ∃ m', SetMask (emptyMask exKeys) [5] = Ok m' ∧
    (∀ j, (j < 3)%nat → IndexEnabled m' (Z.of_nat j) = Ok (bitAt [5] j)) ∧
    ∃ ks, GetPubKeyFromMask m' true = Some ks ∧ AggregatePublic m' = foldr keyAdd keyZero ks.
Proof. exact (proj2 (SetMask_correct exKeys _ [5] exMask_reachable) eq_refl). Defined.

Lemma SetKeysAtomic_atomic_witness :
  SetKeysAtomic (emptyMask exKeys) [mkPublicKeyWrapper 11 100; mkPublicKeyWrapper 99 0] true
  = (emptyMask exKeys, Err errKeyNotFound).
Proof.
  exact (SetKeysAtomic_atomic exKeys _ [mkPublicKeyWrapper 11 100; mkPublicKeyWrapper 99 0] true
           exMask_reachable).
Defined.

Lemma CountOneBits_CountEnabled_witness :
  ∃ c, CountEnabled (emptyMask exKeys) = Some c ∧ c ≤ CountOneBits (Bitmap (emptyMask exKeys)) ∧
       ((∀ i, (3 ≤ i < 8)%nat → bitAt (Bitmap (emptyMask exKeys)) i = false) →
        CountOneBits (Bitmap (emptyMask exKeys)) = c).
Proof. exact (CountOneBits_CountEnabled exKeys _ exMask_reachable). Defined.
