(* ===== verification/ShardState.v ===== *)
(** * Shard state and range-based mapping ([shard/shard_state.go], [shard/mapping/range])

    The super committee ([State]): the committees of the shards, their slots, and the
    [RangeMap] by which an address is mapped to a shard from the first bits of the address.
    The sharding configuration of an epoch ([internal/configs/sharding/instance.go]) is here
    too.  RLP and Keccak are the interfaces [StateCodec] and [Keccak]; a shard-state text
    ([String], [MarshalJSON]) is not modelled. *)

From Stdlib Require Import ZArith Lia Ascii String Sorted.
From stdpp Require Import base gmap list option sets.
From S2P Require Import Prelude Decimal.
Local Open Scope Z_scope.

(** ** Constants ([shard/values.go]) *)
Definition BeaconChainShardID : Z := 0.

(** ** Data *)
Record Slot := mkSlot {
  EcdsaAddress : Address;
  BLSPublicKey : SerializedPublicKey;
  EffectiveStake : option Dec;
}.
Abbreviation SlotList := (list Slot) (only parsing).

Record Committee := mkCommittee { ShardID : Z; Slots : SlotList }.

Record RangeMapContent := mkRange { rangeShardID : Z; Prefix : text }.

Record State := mkState {
  Epoch : option Z;
  Shards : list Committee;
  RangeMap : list RangeMapContent;
}.

Record SlotLegacy := mkSlotLegacy { legacyAddress : Address; legacyKey : SerializedPublicKey }.
Record CommitteeLegacy := mkCommitteeLegacy { legacyShardID : Z; legacySlots : list SlotLegacy }.
Abbreviation StateLegacy := (list CommitteeLegacy) (only parsing).

Record StakedSlots := mkStakedSlots {
  CountStakedValidator : Z;
  CountStakedBLSKey : Z;
  Addrs : list Address;
  LookupSet : gset Address;
  TotalEffectiveStaked : Dec;
}.

(** ** Bytes *)

(** The big-endian bytes of an [n]-byte array, from its value. *)
Definition toBytes (n : nat) (v : Z) : bytes :=
  map (λ i, Z.land (Z.shiftr v (8 * Z.of_nat (n - 1 - i))) 255) (seq 0 n).

(** [binary.LittleEndian.PutUint32] and [PutUint64]. *)
Definition littleEndian (n : nat) (v : Z) : bytes := map (λ i, Z.land (Z.shiftr v (8 * Z.of_nat i)) 255) (seq 0 n).
Definition le32 (n : Z) : bytes := littleEndian 4 n.
Definition le64 (n : Z) : bytes := littleEndian 8 n.

(** What the commit signatures sign ([consensus/signature/signature.go]). *)
Definition ConstructCommitPayload (isStaking : bool) (blockHash : Hash) (blockNum viewID : Z) : bytes :=
  let commitPayload := le64 blockNum ++ toBytes 32 blockHash in
  if isStaking then commitPayload ++ le64 viewID else commitPayload.

Definition addressBytes (a : Address) : bytes := toBytes 20 a.

(** The digits of [fmt.Sprintf("%08b", v)] for a byte. *)
Definition bitChar (b : bool) : ascii := if b then "1"%char else "0"%char.
Definition byteBits (v : Z) : list bool := map (λ i, Z.testbit v (Z.of_nat (7 - i))) (seq 0 8).

Definition BytesToBinaryString (bs : bytes) : text := concat (map (λ v, map bitChar (byteBits v)) bs).

(** ** The range map *)

(** [s == t] on strings, and [s[:n]], which panics beyond the end. *)
Definition text_eqb (s t : text) : bool := bool_decide (s = t).
Definition sliceTo (s : text) (n : nat) : option text :=
  if (length s <? n)%nat then None else Some (take n s).

Fixpoint rangeLoop (addrBinstr : text) (rangeMap : list RangeMapContent) (shardID : Z) : option Z :=
  match rangeMap with
  | [] => Some shardID
  | item :: rest =>
      let prefixLen := length (Prefix item) in
      pre ← sliceTo addrBinstr prefixLen;
      if text_eqb pre (Prefix item) then Some (rangeShardID item)
      else rangeLoop addrBinstr rest shardID
  end.

Definition CalculateShardIDByRangeMap (addr : Address) (shardState : State) : option Z :=
  let rangeMap := RangeMap shardState in
  let addrBinstr := BytesToBinaryString (take 2 (addressBytes addr)) in
  rangeLoop addrBinstr rangeMap BeaconChainShardID.

(** [RangeMapContent.Equals], [GetShardID] and [GetPath] *)
Definition GetShardID (r : RangeMapContent) : Z := rangeShardID r.
Definition GetPath (r : RangeMapContent) : text := Prefix r.
Definition Equals (r other : RangeMapContent) : bool :=
  (rangeShardID r =? GetShardID other) && text_eqb (Prefix r) (GetPath other).

(** ** Copies *)
Definition slotListDeepCopy (l : SlotList) : SlotList := l.
Definition committeeDeepCopy (c : Committee) : Committee :=
  mkCommittee (ShardID c) (slotListDeepCopy (Slots c)).

(** [State.DeepCopy] starts from the zero [State] and fills [Epoch] and [Shards]. *)
Definition DeepCopy (ss : State) : State :=
  mkState (Epoch ss) (map committeeDeepCopy (Shards ss)) [].

(** ** Comparisons *)

(** [bytes.Compare] of two arrays of the same size. *)
Definition bytesCompare (k1 k2 : Z) : Z :=
  match k1 ?= k2 with Lt => -1 | Eq => 0 | Gt => 1 end.

Definition CompareBLSPublicKey (k1 k2 : SerializedPublicKey) : Z := bytesCompare k1 k2.

Definition CompareNodeID (id1 id2 : Slot) : Z :=
  let c := bytesCompare (EcdsaAddress id1) (EcdsaAddress id2) in
  if negb (c =? 0) then c
  else
    let c := CompareBLSPublicKey (BLSPublicKey id1) (BLSPublicKey id2) in
    if negb (c =? 0) then c else 0.

(** The loop over the common length and the comparison of the lengths. *)
Fixpoint CompareNodeIDList (l1 l2 : SlotList) : Z :=
  match l1, l2 with
  | s1 :: r1, s2 :: r2 =>
      let c := CompareNodeID s1 s2 in
      if negb (c =? 0) then c else CompareNodeIDList r1 r2
  | [], _ :: _ => -1
  | _ :: _, [] => 1
  | [], [] => 0
  end.

Definition CompareCommittee (c1 c2 : Committee) : Z :=
  if ShardID c1 <? ShardID c2 then -1
  else if ShardID c1 >? ShardID c2 then 1
  else
    let c := CompareNodeIDList (Slots c1) (Slots c2) in
    if negb (c =? 0) then c else 0.

(** ** Lookups *)
Inductive shardError :=
| ErrShardIDNotInSuperCommittee
| ErrSubCommitteeNil
| ErrValidNotInCommittee
| errBadKey.

Definition FindCommitteeByID (ss : option State) (shardID : Z) : shardError + Committee :=
  match ss with
  | None => inl ErrShardIDNotInSuperCommittee
  | Some ss =>
      match list_find (λ c, ShardID c = shardID) (Shards ss) with
      | Some (_, c) => inr c
      | None => inl ErrShardIDNotInSuperCommittee
      end
  end.

Definition AddressForBLSKey (c : option Committee) (key : SerializedPublicKey) : shardError + Address :=
  match c with
  | None => inl ErrSubCommitteeNil
  | Some c =>
      match list_find (λ slot, CompareBLSPublicKey (BLSPublicKey slot) key = 0) (Slots c) with
      | Some (_, slot) => inr (EcdsaAddress slot)
      | None => inl ErrValidNotInCommittee
      end
  end.

(** ** Staked validators *)
Definition stakedStep (acc : option StakedSlots) (slot : Slot) : option StakedSlots :=
  st ← acc;
  match EffectiveStake slot with
  | None => Some st
  | Some e =>
      total ← Add (TotalEffectiveStaked st) e;
      let addr := EcdsaAddress slot in
      if decide (addr ∈ LookupSet st) then
        Some (mkStakedSlots (CountStakedValidator st) (CountStakedBLSKey st + 1) (Addrs st) (LookupSet st) total)
      else
        Some (mkStakedSlots (CountStakedValidator st + 1) (CountStakedBLSKey st + 1)
                (Addrs st ++ [addr]) (LookupSet st ∪ {[addr]}) total)
  end.

Definition noStaked : StakedSlots := mkStakedSlots 0 0 [] ∅ ZeroDec.

Definition committeeStakedValidators (c : Committee) : option StakedSlots :=
  foldl stakedStep (Some noStaked) (Slots c).

(** The super-committee wide count: a loop over the shards around the same loop. *)
Definition stateStakedValidators (ss : State) : option StakedSlots :=
  foldl (λ acc shard, foldl stakedStep acc (Slots shard)) (Some noStaked) (Shards ss).

(** ** Hashing *)
Class Keccak := keccak256 : bytes → bytes.

Section hashing.
Context `{Keccak}.

Definition Serialize (n : Slot) : bytes := addressBytes (EcdsaAddress n) ++ toBytes 48 (BLSPublicKey n).

Definition GetHashFromNodeList (nodeList : list Slot) : bytes :=
  if decide (length nodeList = O) then [] else keccak256 (concat (map Serialize nodeList)).

(** [sort.Slice] by shard id, as an insertion sort. *)
Fixpoint insertCommittee (c : Committee) (l : list Committee) : list Committee :=
  match l with
  | [] => [c]
  | d :: rest => if ShardID d <? ShardID c then d :: insertCommittee c rest else c :: d :: rest
  end.
Definition sortCommittees (l : list Committee) : list Committee := foldr insertCommittee [] l.

Definition stateHash (ss : State) : bytes :=
  let copy := DeepCopy ss in
  keccak256 (concat (map (λ c, GetHashFromNodeList (Slots c)) (sortCommittees (Shards copy)))).
End hashing.

(** ** Encoding *)
Class StateCodec := {
  rlpEncodeState : State → option bytes;
  rlpEncodeLegacy : StateLegacy → option bytes;
  rlpDecodeState : bytes → option State;
  rlpDecodeLegacy : bytes → option StateLegacy;
}.

(** RLP: a decoder reads back what the encoder of its type wrote, and refuses the encoding
    of the other type.  A nil epoch is written as zero, so it is not read back. *)
Class StateCodecLaws `{StateCodec} := {
  rlpState_roundtrip : ∀ s b, rlpEncodeState s = Some b → Epoch s ≠ None → rlpDecodeState b = Some s;
  rlpLegacy_roundtrip : ∀ s b, rlpEncodeLegacy s = Some b → rlpDecodeLegacy b = Some s;
  rlpLegacy_not_state : ∀ s b, rlpEncodeLegacy s = Some b → rlpDecodeState b = None;
}.

Section encoding.
Context `{StateCodec}.

Definition fromLegacySlot (slot : SlotLegacy) : Slot := mkSlot (legacyAddress slot) (legacyKey slot) None.
Definition fromLegacy (oldSS : StateLegacy) : State :=
  mkState None (map (λ c, mkCommittee (legacyShardID c) (map fromLegacySlot (legacySlots c))) oldSS) [].

Definition DecodeWrapper (shardState : bytes) : option State :=
  match rlpDecodeState shardState with
  | Some newSS => Some newSS
  | None =>
      match rlpDecodeLegacy shardState with
      | Some oldSS => Some (fromLegacy oldSS)
      | None => None
      end
  end.

Definition toLegacySlot (slot : Slot) : SlotLegacy := mkSlotLegacy (EcdsaAddress slot) (BLSPublicKey slot).
Definition toLegacy (shardState : State) : StateLegacy :=
  map (λ c, mkCommitteeLegacy (ShardID c) (map toLegacySlot (Slots c))) (Shards shardState).

Definition EncodeWrapper (shardState : State) (isStaking : bool) : option bytes :=
  if isStaking then rlpEncodeState shardState else rlpEncodeLegacy (toLegacy shardState).
End encoding.

(** ** The sharding configuration of an epoch ([internal/configs/sharding/instance.go]) *)
Record DeployAccount := mkAccount {
  accIndex : text; accAddress : text; accBLSPublicKey : text; accShardID : Z;
}.

Record instance := mkInstance {
  numShards : Z;
  numNodesPerShard : Z;
  numHarmonyOperatedNodesPerShard : Z;
  harmonyVotePercent : Dec;
  externalVotePercent : Dec;
  hmyAccounts : list DeployAccount;
  fnAccounts : list DeployAccount;
  reshardingEpoch : list Z;
  blocksPerEpoch : Z;
}.

Inductive instanceError :=
| errNoShard | errNoNode | errNegativeHarmonyNodes | errTooManyHarmonyNodes | errVotePercent.

Definition NewInstance (numShards numNodesPerShard numHarmonyOperatedNodesPerShard : Z)
    (harmonyVotePercent : Dec) (hmyAccounts fnAccounts : list DeployAccount)
    (reshardingEpoch : list Z) (blocksE : Z) : result instanceError instance :=
  if numShards <? 1 then Err errNoShard
  else if numNodesPerShard <? 1 then Err errNoNode
  else if numHarmonyOperatedNodesPerShard <? 0 then Err errNegativeHarmonyNodes
  else if numHarmonyOperatedNodesPerShard >? numNodesPerShard then Err errTooManyHarmonyNodes
  else if LT harmonyVotePercent ZeroDec || GT harmonyVotePercent OneDec then Err errVotePercent
  else
    ext ← lift_panic (Sub OneDec harmonyVotePercent);
    Ok (mkInstance numShards numNodesPerShard numHarmonyOperatedNodesPerShard harmonyVotePercent ext
          hmyAccounts fnAccounts reshardingEpoch blocksE).

Definition MustNewInstance (numShards numNodesPerShard numHarmonyOperatedNodesPerShard : Z)
    (harmonyVotePercent : Dec) (hmyAccounts fnAccounts : list DeployAccount)
    (reshardingEpoch : list Z) (blocksE : Z) : option instance :=
  match NewInstance numShards numNodesPerShard numHarmonyOperatedNodesPerShard harmonyVotePercent
          hmyAccounts fnAccounts reshardingEpoch blocksE with
  | Ok sc => Some sc
  | _ => None
  end.

(** [x % y] on [uint32] panics when [y] is zero. *)
Definition mod32 (x y : Z) : option Z := if y =? 0 then None else Some (x mod y).

Definition withShardID (item : DeployAccount) (id : Z) : DeployAccount :=
  mkAccount (accIndex item) (accAddress item) (accBLSPublicKey item) id.

Fixpoint findIn (blsPubKey : text) (i : nat) (accounts : list DeployAccount) : option (nat * DeployAccount) :=
  match accounts with
  | [] => None
  | item :: rest => if text_eqb (accBLSPublicKey item) blsPubKey then Some (i, item) else findIn blsPubKey (S i) rest
  end.

Definition FindAccount (sc : instance) (blsPubKey : text) : option (bool * option DeployAccount) :=
  match findIn blsPubKey 0 (hmyAccounts sc) with
  | Some (i, item) =>
      id ← mod32 (u32 (Z.of_nat i)) (numShards sc);
      Some (u32 (Z.of_nat i) <? numShards sc, Some (withShardID item id))
  | None =>
      match findIn blsPubKey 0 (fnAccounts sc) with
      | Some (i, item) =>
          id ← mod32 (u32 (Z.of_nat i)) (numShards sc);
          Some (false, Some (withShardID item id))
      | None => Some (false, None)
      end
  end.

(** [ExternalSlotsAvailableForEpoch], of the epoch's instance. *)
Definition ExternalSlotsAvailable (sc : instance) : Z :=
  (numNodesPerShard sc - numHarmonyOperatedNodesPerShard sc) * numShards sc.

(** * Properties *)

(** ** Range-based mapping and the binary tree of shards *)

(** The tree the range map stands for: a shard splits into the addresses whose next bit is
    0 and those whose next bit is 1. *)
Inductive shardTree := ShardLeaf (shardID : Z) | ShardSplit (zero one : shardTree).

Fixpoint depth (t : shardTree) : nat :=
  match t with ShardLeaf _ => O | ShardSplit l r => S (Nat.max (depth l) (depth r)) end.

(** The walk from the root along the bits of the address. *)
Fixpoint descend (t : shardTree) (bits : list bool) : Z :=
  match t, bits with
  | ShardLeaf id, _ => id
  | ShardSplit l r, b :: rest => if b then descend r rest else descend l rest
  | ShardSplit _ _, [] => BeaconChainShardID
  end.

(** The leaves with their paths. *)
Fixpoint rangesOf (path : text) (t : shardTree) : list RangeMapContent :=
  match t with
  | ShardLeaf id => [mkRange id path]
  | ShardSplit l r => rangesOf (path ++ [bitChar false]) l ++ rangesOf (path ++ [bitChar true]) r
  end.

(** The first 16 bits of the address. *)
Definition addressBits (a : Address) : list bool := concat (map byteBits (take 2 (addressBytes a))).

Lemma BytesToBinaryString_bits bs : BytesToBinaryString bs = map bitChar (concat (map byteBits bs)).
Proof. unfold BytesToBinaryString. rewrite concat_map, map_map. done. Qed.

Lemma addressBits_length a : length (addressBits a) = 16%nat.
Proof. reflexivity. Qed.

#[local] Instance bitChar_inj : Inj (=) (=) bitChar.
Proof. by intros [] []. Qed.

Lemma sliceTo_prefix s n : (n ≤ length s)%nat → sliceTo s n = Some (take n s).
Proof. intros Hn. unfold sliceTo. destruct (Nat.ltb_spec (length s) n); [lia|done]. Qed.

(** An entry matches when its prefix is a prefix of the address's bits. *)
Lemma rangeLoop_spec s rm d :
  (∀ r, r ∈ rm → (length (Prefix r) ≤ length s)%nat) →
  rangeLoop s rm d = Some match list_find (λ r, Prefix r `prefix_of` s) rm with
                          | Some (_, r) => rangeShardID r
                          | None => d
                          end.
Proof.
  induction rm as [|r rm IH]; intros Hlen; [done|]. simpl.
  rewrite sliceTo_prefix by (apply Hlen; set_solver). simpl. unfold text_eqb.
  pose proof (prefix_length (Prefix r) s) as Hpl.
  assert (take (length (Prefix r)) s = Prefix r ↔ Prefix r `prefix_of` s) as Hiff.
  { split; [intros Heq; rewrite <-Heq; apply prefix_take|]. intros [k ->]. by rewrite take_app_length. }
  destruct (decide (Prefix r `prefix_of` s)) as [Hp|Hp].
  - rewrite bool_decide_eq_true_2 by tauto. done.
  - rewrite bool_decide_eq_false_2 by tauto. rewrite IH by set_solver.
    destruct (list_find _ rm) as [[i x]|]; done.
Qed.

Lemma rangesOf_prefix t path r : r ∈ rangesOf path t → path `prefix_of` Prefix r.
Proof.
  revert path. induction t as [id|l IHl r' IHr]; intros path; simpl.
  - intros ->%list_elem_of_singleton. done.
  - intros [H|H]%elem_of_app; [apply IHl in H|apply IHr in H]; (etransitivity; [|done]); by apply prefix_app_r.
Qed.

Lemma rangesOf_length t path r :
  r ∈ rangesOf path t → (length (Prefix r) ≤ length path + depth t)%nat.
Proof.
  revert path. induction t as [id|l IHl r' IHr]; intros path; simpl.
  - intros ->%list_elem_of_singleton. simpl. lia.
  - intros [H|H]%elem_of_app; [apply IHl in H|apply IHr in H]; rewrite length_app in H; simpl in H; lia.
Qed.

(** A leaf whose path is a prefix of the bits is the leaf the walk reaches. *)
Lemma rangesOf_descend t path bits r :
  r ∈ rangesOf path t → Prefix r `prefix_of` path ++ map bitChar bits → (depth t ≤ length bits)%nat →
  rangeShardID r = descend t bits.
Proof.
  revert path bits. induction t as [id|l IHl r' IHr]; intros path bits; simpl.
  - by intros ->%list_elem_of_singleton.
  - intros Hin Hp Hd. destruct bits as [|b bits]; simpl in *; [lia|].
    assert (∀ c, r ∈ rangesOf (path ++ [bitChar c]) (if c then r' else l) → c = b) as Hb.
    { intros c Hc%rangesOf_prefix. pose proof (transitivity Hc Hp) as [k Hk].
      rewrite <-app_assoc in Hk. apply app_inv_head in Hk. simpl in Hk. by simplify_eq. }
    rewrite (cons_middle (bitChar b) path (map bitChar bits)), app_assoc in Hp.
    apply elem_of_app in Hin as [Hin|Hin].
    + rewrite <-(Hb false Hin) in *. eapply IHl; [done|done|lia].
    + rewrite <-(Hb true Hin) in *. eapply IHr; [done|done|lia].
Qed.

(** Some leaf matches when the tree is not deeper than the bits. *)
Lemma rangesOf_total t path bits :
  (depth t ≤ length bits)%nat → ∃ r, r ∈ rangesOf path t ∧ Prefix r `prefix_of` path ++ map bitChar bits.
Proof.
  revert path bits. induction t as [id|l IHl r' IHr]; intros path bits; simpl; intros Hd.
  - exists (mkRange id path). split; [set_solver|]. by apply prefix_app_r.
  - destruct bits as [|b bits]; simpl in *; [lia|].
    destruct b; [destruct (IHr (path ++ [bitChar true]) bits) as (r & Hr & Hp)
                |destruct (IHl (path ++ [bitChar false]) bits) as (r & Hr & Hp)]; try lia;
      exists r; (split; [set_solver|]); by rewrite <-app_assoc in Hp.
Qed.

(** C35: the flat range map implements the tree of shards.  For every tree no deeper than the
    16 bits read of the address, and its leaves listed in any order, the loop does not panic
    and returns the shard that the walk along the address's bits reaches. *)
Theorem CalculateShardIDByRangeMap_tree t ss addr :
  (depth t ≤ 16)%nat → RangeMap ss ≡ₚ rangesOf [] t →
  CalculateShardIDByRangeMap addr ss = Some (descend t (addressBits addr)).
Proof.
  intros Hd Hrm. unfold CalculateShardIDByRangeMap. rewrite BytesToBinaryString_bits.
  fold (addressBits addr). rewrite rangeLoop_spec.
  2:{ intros r Hr. rewrite Hrm in Hr. apply rangesOf_length in Hr. simpl in Hr.
      rewrite length_map, addressBits_length. lia. }
  destruct (list_find _ (RangeMap ss)) as [[i r]|] eqn:E.
  - apply list_find_Some in E as (Hi & Hp & _). apply list_elem_of_lookup_2 in Hi. rewrite Hrm in Hi.
    f_equal. eapply rangesOf_descend; [done|done|]. by rewrite addressBits_length.
  - destruct (rangesOf_total t [] (addressBits addr)) as (r & Hr & Hp); [by rewrite addressBits_length|].
    exfalso. rewrite <-Hrm in Hr. apply list_find_None in E. rewrite Forall_forall in E. by apply (E r Hr).
Qed.

(** An entry with a prefix longer than the 16 bits read makes the lookup panic, unless an
    earlier entry matches. *)
Theorem CalculateShardIDByRangeMap_panics ss r addr :
  RangeMap ss = [r] → (16 < length (Prefix r))%nat → CalculateShardIDByRangeMap addr ss = None.
Proof.
  intros Hrm Hlen. unfold CalculateShardIDByRangeMap. rewrite BytesToBinaryString_bits, Hrm.
  fold (addressBits addr). assert (length (map bitChar (addressBits addr)) = 16%nat) as Hs
    by (by rewrite length_map, addressBits_length).
  revert Hs. generalize (map bitChar (addressBits addr)). intros s Hs. simpl. unfold sliceTo. rewrite Hs.
  destruct (Nat.ltb_spec 16 (length (Prefix r))); [done|lia].
Qed.

(** ** Copies *)
Lemma committeeDeepCopy_id c : committeeDeepCopy c = c.
Proof. by destruct c. Qed.

Lemma DeepCopy_shards ss : Shards (DeepCopy ss) = Shards ss.
Proof. simpl. induction (Shards ss) as [|c l IH]; simpl; [done|]. by rewrite committeeDeepCopy_id, IH. Qed.

(** [State.DeepCopy] keeps the epoch and the committees but drops the range map: in the
    copy every address is mapped to the beacon chain's shard. *)
Theorem DeepCopy_drops_RangeMap ss addr :
  Epoch (DeepCopy ss) = Epoch ss ∧ Shards (DeepCopy ss) = Shards ss ∧
  CalculateShardIDByRangeMap addr (DeepCopy ss) = Some BeaconChainShardID.
Proof. split_and!; [done|apply DeepCopy_shards|done]. Qed.

(** ** Comparisons *)
Lemma bytesCompare_spec a b :
  (a < b ∧ bytesCompare a b = -1) ∨ (a = b ∧ bytesCompare a b = 0) ∨ (b < a ∧ bytesCompare a b = 1).
Proof. unfold bytesCompare. destruct (Z.compare_spec a b); auto. Qed.

Definition nodeID (s : Slot) : Address * SerializedPublicKey := (EcdsaAddress s, BLSPublicKey s).

Lemma CompareNodeID_opp s1 s2 : CompareNodeID s2 s1 = - CompareNodeID s1 s2.
Proof.
  unfold CompareNodeID, CompareBLSPublicKey.
  destruct (bytesCompare_spec (EcdsaAddress s1) (EcdsaAddress s2)) as [[? ->]|[[? ->]|[? ->]]],
    (bytesCompare_spec (EcdsaAddress s2) (EcdsaAddress s1)) as [[? ->]|[[? ->]|[? ->]]]; try lia; simpl; try done;
  destruct (bytesCompare_spec (BLSPublicKey s1) (BLSPublicKey s2)) as [[? ->]|[[? ->]|[? ->]]],
    (bytesCompare_spec (BLSPublicKey s2) (BLSPublicKey s1)) as [[? ->]|[[? ->]|[? ->]]]; try lia; done.
Qed.

Lemma CompareNodeID_eq s1 s2 : CompareNodeID s1 s2 = 0 ↔ nodeID s1 = nodeID s2.
Proof.
  unfold CompareNodeID, CompareBLSPublicKey, nodeID.
  destruct (bytesCompare_spec (EcdsaAddress s1) (EcdsaAddress s2)) as [[? ->]|[[Ha ->]|[? ->]]]; simpl;
    [split; [done|intros [= ??]; lia]| |split; [done|intros [= ??]; lia]].
  destruct (bytesCompare_spec (BLSPublicKey s1) (BLSPublicKey s2)) as [[? ->]|[[Hb ->]|[? ->]]]; simpl;
    [split; [done|intros [= ??]; lia]|split; [congruence|done]|split; [done|intros [= ??]; lia]].
Qed.

Lemma CompareNodeIDList_opp l1 l2 : CompareNodeIDList l2 l1 = - CompareNodeIDList l1 l2.
Proof.
  revert l2. induction l1 as [|s1 l1 IH]; intros [|s2 l2]; simpl; try done.
  rewrite CompareNodeID_opp. destruct (Z.eqb_spec (CompareNodeID s1 s2) 0) as [E|E]; simpl.
  - rewrite E. simpl. apply IH.
  - destruct (Z.eqb_spec (- CompareNodeID s1 s2) 0); simpl; [lia|done].
Qed.

Lemma CompareNodeIDList_eq l1 l2 : CompareNodeIDList l1 l2 = 0 ↔ map nodeID l1 = map nodeID l2.
Proof.
  revert l2. induction l1 as [|s1 l1 IH]; intros [|s2 l2]; simpl; try done.
  destruct (Z.eqb_spec (CompareNodeID s1 s2) 0) as [E|E]; simpl.
  - rewrite IH. apply CompareNodeID_eq in E as ->. split; [congruence|by intros [= ?]].
  - split; [done|]. intros [= H1 H2 H3]. destruct E. apply CompareNodeID_eq. unfold nodeID. congruence.
Qed.

(** [CompareCommittee] is a comparison: swapping its arguments negates it, and it is zero
    exactly on committees of the same shard with the same nodes in the same order; the stakes
    of the slots do not count. *)
Theorem CompareCommittee_spec c1 c2 :
  CompareCommittee c2 c1 = - CompareCommittee c1 c2 ∧
  (CompareCommittee c1 c2 = 0 ↔ ShardID c1 = ShardID c2 ∧ map nodeID (Slots c1) = map nodeID (Slots c2)).
Proof.
  unfold CompareCommittee. rewrite CompareNodeIDList_opp, <-CompareNodeIDList_eq, !Z.gtb_ltb.
  destruct (Z.ltb_spec (ShardID c1) (ShardID c2)), (Z.ltb_spec (ShardID c2) (ShardID c1)); try lia.
  - destruct (Z.eqb_spec (CompareNodeIDList (Slots c1) (Slots c2)) 0) as [->|E]; simpl; [lia|].
    destruct (Z.eqb_spec (- CompareNodeIDList (Slots c1) (Slots c2)) 0); simpl; lia.
Qed.

(** ** Staked validators *)
Definition isStaked (s : Slot) : bool := match EffectiveStake s with Some _ => true | None => false end.
Definition stakeOf (s : Slot) : Z := default 0 (EffectiveStake s).

Lemma stakedStep_None slots : foldl stakedStep None slots = None.
Proof. by induction slots. Qed.

Definition stakedInv (done : list Slot) (st : StakedSlots) : Prop :=
  NoDup (Addrs st) ∧ LookupSet st = list_to_set (Addrs st) ∧
  CountStakedValidator st = Z.of_nat (length (Addrs st)) ∧
  CountStakedBLSKey st = sumZ (λ s, if isStaked s then 1 else 0) done ∧
  TotalEffectiveStaked st = sumZ stakeOf done ∧
  ∀ a, a ∈ Addrs st ↔ ∃ s, s ∈ done ∧ isStaked s = true ∧ EcdsaAddress s = a.

Lemma stakedStep_inv seen st s st' :
  stakedInv seen st → stakedStep (Some st) s = Some st' → stakedInv (seen ++ [s]) st'.
Proof.
  intros (Hnd & Hset & Hc & Hk & Ht & Hin) Hs. unfold stakedInv. rewrite !sumZ_app. simpl.
  unfold stakedStep in Hs. simpl in Hs. unfold isStaked, stakeOf in *.
  destruct (EffectiveStake s) as [e|] eqn:E; simpl in *.
  2:{ simplify_eq. split_and!; try done; try lia. intros a. rewrite Hin. setoid_rewrite elem_of_app.
      setoid_rewrite list_elem_of_singleton. split; [naive_solver|].
      intros (x & [?| ->] & Hx & ?); [eauto|]. by rewrite E in Hx. }
  destruct (Add (TotalEffectiveStaked st) e) as [total|] eqn:Ea; simpl in Hs; [|done].
  apply checkBits_inv in Ea as [-> _].
  assert (∀ a, (∃ x, x ∈ seen ++ [s] ∧ match EffectiveStake x with Some _ => true | None => false end = true ∧
            EcdsaAddress x = a) ↔ a ∈ Addrs st ∨ a = EcdsaAddress s) as Hin'.
  { intros a. rewrite Hin. setoid_rewrite elem_of_app. setoid_rewrite list_elem_of_singleton. split; [naive_solver|].
    intros [(x & ? & ? & ?)| ->]; [eauto|]. exists s. rewrite E. auto. }
  case_decide as Hd; simplify_eq; simpl; rewrite Ht, Hk, Hc.
  - split_and!; try done; try lia. intros a. rewrite Hin'. rewrite Hset, elem_of_list_to_set in Hd. naive_solver.
  - rewrite Hset, elem_of_list_to_set in Hd. split_and!; try lia.
    + apply NoDup_app. split_and!; [done|set_solver|apply NoDup_singleton].
    + rewrite Hset, list_to_set_app_L. set_solver.
    + rewrite length_app. simpl. lia.
    + intros a. rewrite Hin'. set_solver.
Qed.

Lemma stakedFold_inv seen slots st st' :
  stakedInv seen st → foldl stakedStep (Some st) slots = Some st' → stakedInv (seen ++ slots) st'.
Proof.
  revert seen st. induction slots as [|s slots IH]; intros seen st Hi Hf; simpl in Hf.
  { simplify_eq. by rewrite app_nil_r. }
  destruct (stakedStep (Some st) s) as [st1|] eqn:E; unfold stakedStep in E; simpl in E; simpl in Hf;
    rewrite E in Hf; [|by rewrite stakedStep_None in Hf].
  rewrite (cons_middle s seen slots), app_assoc. eapply IH; [|exact Hf]. by eapply stakedStep_inv.
Qed.

Lemma stateStaked_concat ss :
  stateStakedValidators ss = foldl stakedStep (Some noStaked) (concat (map Slots (Shards ss))).
Proof.
  unfold stateStakedValidators. generalize (Some noStaked). induction (Shards ss) as [|c l IH]; intros acc; simpl; [done|].
  by rewrite foldl_app, IH.
Qed.

(** The super-committee wide [StakedValidators] lists each address that holds a staked
    slot in some shard exactly once, counts those addresses and the staked slots, and sums
    their effective stakes. *)
Theorem StakedValidators_spec ss st :
  stateStakedValidators ss = Some st →
  let slots := concat (map Slots (Shards ss)) in
  NoDup (Addrs st) ∧ CountStakedValidator st = Z.of_nat (length (Addrs st)) ∧
  (∀ a, a ∈ Addrs st ↔ ∃ s, s ∈ slots ∧ isStaked s = true ∧ EcdsaAddress s = a) ∧
  CountStakedBLSKey st = sumZ (λ s, if isStaked s then 1 else 0) slots ∧
  TotalEffectiveStaked st = sumZ stakeOf slots.
Proof.
  rewrite stateStaked_concat. intros Hf.
  assert (stakedInv [] noStaked) as H0.
  { split_and!; try done; [constructor|]. intros a. simpl. set_solver. }
  pose proof (stakedFold_inv [] _ noStaked st H0 Hf) as (Hnd & _ & Hc & Hk & Ht & Hin). by split_and!.
Qed.

(** ** Encoding *)

(** What the pre-staking encoding keeps of a shard state. *)
Definition legacyView (ss : State) : State :=
  mkState None
    (map (λ c, mkCommittee (ShardID c) (map (λ s, mkSlot (EcdsaAddress s) (BLSPublicKey s) None) (Slots c)))
       (Shards ss)) [].

Lemma fromLegacy_toLegacy ss : fromLegacy (toLegacy ss) = legacyView ss.
Proof.
  unfold fromLegacy, toLegacy, legacyView. f_equal. rewrite map_map. apply map_ext. intros c. simpl.
  f_equal. by rewrite map_map.
Qed.

(** [DecodeWrapper] reads back what [EncodeWrapper] wrote.  With staking the whole state
    (its epoch must be set); without, the shard ids and the nodes, with the epoch nil, no
    stakes and no range map. *)
Theorem EncodeWrapper_roundtrip `{StateCodecLaws} ss isStaking b :
  EncodeWrapper ss isStaking = Some b → (isStaking = true → Epoch ss ≠ None) →
  DecodeWrapper b = Some (if isStaking then ss else legacyView ss).
Proof.
  unfold EncodeWrapper, DecodeWrapper. intros He Hep. destruct isStaking.
  - by rewrite (rlpState_roundtrip _ _ He) by auto.
  - by rewrite (rlpLegacy_not_state _ _ He), (rlpLegacy_roundtrip _ _ He), fromLegacy_toLegacy.
Qed.

(** ** Hashing *)
Definition byID (c d : Committee) : Prop := ShardID c ≤ ShardID d.

Lemma insertCommittee_perm c l : insertCommittee c l ≡ₚ c :: l.
Proof.
  induction l as [|d l IH]; simpl; [done|]. destruct (_ <? _); [|done].
  rewrite IH. apply Permutation_swap.
Qed.

Lemma sortCommittees_perm l : sortCommittees l ≡ₚ l.
Proof. induction l as [|c l IH]; simpl; [done|]. by rewrite insertCommittee_perm, IH. Qed.

Lemma insertCommittee_sorted c l : StronglySorted byID l → StronglySorted byID (insertCommittee c l).
Proof.
  induction 1 as [|d l Hs IH Hall]; simpl; [repeat constructor|].
  destruct (Z.ltb_spec (ShardID d) (ShardID c)).
  - constructor; [done|]. rewrite Forall_forall in *. intros x Hx. rewrite insertCommittee_perm in Hx.
    apply elem_of_cons in Hx as [->|Hx]; [unfold byID; lia|auto].
  - constructor; [by constructor|]. constructor; [done|]. rewrite Forall_forall in *. intros x Hx.
    specialize (Hall x Hx). unfold byID in *. lia.
Qed.

Lemma sortCommittees_sorted l : StronglySorted byID (sortCommittees l).
Proof. induction l; simpl; [constructor|]. by apply insertCommittee_sorted. Qed.

(** Two sorted permutations with distinct ids are equal. *)
Lemma sorted_unique l1 l2 :
  StronglySorted byID l1 → StronglySorted byID l2 → l1 ≡ₚ l2 → NoDup (map ShardID l1) → l1 = l2.
Proof.
  intros H1. revert l2. induction H1 as [|c l1 Hs1 IH Hall1]; intros l2 H2 Hp Hnd.
  { apply Permutation_nil_l in Hp. done. }
  destruct H2 as [|d l2 Hs2 Hall2]; [by apply Permutation_nil_r in Hp|].
  rewrite Forall_forall in Hall1, Hall2. simpl in Hnd. apply NoDup_cons in Hnd as [Hc Hnd].
  assert (c = d) as <-.
  { assert (c ∈ d :: l2) as Hcd by (rewrite <-Hp; set_solver).
    assert (d ∈ c :: l1) as Hdc by (rewrite Hp; set_solver).
    apply elem_of_cons in Hcd as [|Hcd]; [done|]. apply elem_of_cons in Hdc as [|Hdc]; [done|].
    specialize (Hall1 d Hdc). specialize (Hall2 c Hcd). unfold byID in *. destruct Hc.
    replace (ShardID c) with (ShardID d) by lia. by apply list_elem_of_fmap_2. }
  f_equal. apply IH; [done|by eapply Permutation_cons_inv|done].
Qed.

(** The hash of a shard state does not depend on the order of its committees (with
    distinct shard ids), and not on the epoch, the stakes or the range map: two states that
    map addresses to shards differently can have the same hash. *)
Theorem stateHash_invariant `{Keccak} ss ss' :
  NoDup (map ShardID (Shards ss)) →
  map (λ c, (ShardID c, map nodeID (Slots c))) (Shards ss) ≡ₚ map (λ c, (ShardID c, map nodeID (Slots c))) (Shards ss') →
  stateHash ss = stateHash ss'.
Proof.
  intros Hnd Hp. unfold stateHash. rewrite !DeepCopy_shards.
  set (strip := λ c, mkCommittee (ShardID c) (map (λ s, mkSlot (EcdsaAddress s) (BLSPublicKey s) None) (Slots c))).
  assert (∀ l, concat (map (λ c, GetHashFromNodeList (Slots c)) (sortCommittees l)) =
               concat (map (λ c, GetHashFromNodeList (Slots c)) (sortCommittees (map strip l)))) as Hstrip.
  { intros l. assert (sortCommittees (map strip l) = map strip (sortCommittees l)) as ->.
    { induction l as [|c l IH]; simpl; [done|]. rewrite IH. generalize (sortCommittees l). intros m.
      induction m as [|d m IHm]; simpl; [done|]. destruct (_ <? _); simpl; [by rewrite IHm|done]. }
    rewrite map_map. f_equal. apply map_ext. intros c. unfold GetHashFromNodeList, strip. simpl.
    rewrite length_map, map_map. done. }
  rewrite (Hstrip (Shards ss)), (Hstrip (Shards ss')). f_equal. f_equal. f_equal.
  apply sorted_unique; [apply sortCommittees_sorted..| |].
  - rewrite !sortCommittees_perm.
    set (mk := λ p : Z * list (Address * SerializedPublicKey), mkCommittee p.1 (map (λ q, mkSlot q.1 q.2 None) p.2)).
    assert (∀ l, map strip l = map mk (map (λ c, (ShardID c, map nodeID (Slots c))) l)) as Hmk.
    { intros l. rewrite map_map. apply map_ext. intros c. unfold mk, strip. simpl. by rewrite map_map. }
    rewrite !Hmk. by apply Permutation_map.
  - rewrite (Permutation_map ShardID (sortCommittees_perm (map strip (Shards ss)))), map_map. done.
Qed.

(** ** The sharding configuration *)

(** A configuration that [NewInstance] accepts splits the whole voting power between
    Harmony and external nodes, has a non-negative number of external slots, and its
    [FindAccount] does not panic and places every account in one of the shards. *)
Theorem NewInstance_valid n npr nh hp hmy fn re blocks sc key :
  NewInstance n npr nh hp hmy fn re blocks = Ok sc →
  harmonyVotePercent sc + externalVotePercent sc = OneDec ∧ 0 ≤ externalVotePercent sc ∧
  0 ≤ ExternalSlotsAvailable sc ∧
  ∃ leader acc, FindAccount sc key = Some (leader, acc) ∧
    ∀ a, acc = Some a → 0 ≤ accShardID a < numShards sc.
Proof.
  unfold NewInstance. rewrite Z.gtb_ltb.
  destruct (Z.ltb_spec n 1); [done|]. destruct (Z.ltb_spec npr 1); [done|].
  destruct (Z.ltb_spec nh 0); [done|]. destruct (Z.ltb_spec npr nh); [done|].
  destruct (LT hp ZeroDec) eqn:El; [done|]. destruct (GT hp OneDec) eqn:Eg; [done|]. simpl.
  unfold LT, GT, ZeroDec in *. destruct (Sub OneDec hp) as [ext|] eqn:Es; [|done]. simpl.
  apply checkBits_inv in Es as [-> _]. intros [= <-]. unfold ExternalSlotsAvailable. simpl.
  destruct (Z.compare_spec hp 0), (Z.compare_spec hp OneDec); try done; (split_and!; [lia|lia|nia|]);
  unfold FindAccount, mod32; simpl; (destruct (Z.eqb_spec n 0); [lia|]);
  (destruct (findIn key 0 hmy) as [[i item]|]; [|destruct (findIn key 0 fn) as [[i item]|]]);
  simpl; (eexists _, _; split; [done|]); intros a [= <-]; simpl; apply Z.mod_pos_bound; lia.
Qed.

(** ** Concrete runs *)

(** Three shards: the addresses that start with bit 0, with bits 10 and with bits 11. *)
Definition demoTree : shardTree := ShardSplit (ShardLeaf 1) (ShardSplit (ShardLeaf 2) (ShardLeaf 3)).
Definition demoSlot : Slot := mkSlot 7 9 (Some 5).
Definition demoState : State :=
  mkState (Some 4) [mkCommittee 1 [demoSlot; mkSlot 8 10 None]; mkCommittee 0 [mkSlot 7 11 (Some 6)]]
    (reverse (rangesOf [] demoTree)).

Lemma CalculateShardIDByRangeMap_tree_witness :
  CalculateShardIDByRangeMap (2 ^ 159 + 2 ^ 158) demoState = Some 3.
Proof.
  rewrite (CalculateShardIDByRangeMap_tree demoTree demoState);
    [vm_compute; reflexivity|simpl; lia|]. apply reverse_Permutation.
Defined.

Lemma CalculateShardIDByRangeMap_panics_witness :
  CalculateShardIDByRangeMap 5 (mkState None [] [mkRange 1 (replicate 17 chr0)]) = None.
Proof. apply (CalculateShardIDByRangeMap_panics _ (mkRange 1 (replicate 17 chr0))); [reflexivity|simpl; lia]. Defined.

Lemma StakedValidators_spec_witness :
  ∃ st, stateStakedValidators demoState = Some st ∧ NoDup (Addrs st) ∧ TotalEffectiveStaked st = 11.
Proof.
  eexists. split; [vm_compute; reflexivity|].
  split; [|reflexivity]. apply (StakedValidators_spec demoState). vm_compute. reflexivity.
Defined.

#[global] Instance Slot_eq_dec : EqDecision Slot.
Proof. solve_decision. Defined.
#[global] Instance Committee_eq_dec : EqDecision Committee.
Proof. solve_decision. Defined.
#[global] Instance RangeMapContent_eq_dec : EqDecision RangeMapContent.
Proof. solve_decision. Defined.
#[global] Instance State_eq_dec : EqDecision State.
Proof. solve_decision. Defined.

(** An encoding that knows one state. *)
Definition demoStateCodec : StateCodec := {|
  rlpEncodeState s := if decide (s = demoState) then Some [1] else None;
  rlpEncodeLegacy _ := None;
  rlpDecodeState b := if decide (b = [1]) then Some demoState else None;
  rlpDecodeLegacy _ := None;
|}.

Lemma demoStateCodec_laws : @StateCodecLaws demoStateCodec.
Proof.
  split; simpl; try done. intros s b. case_decide; [|done]. intros [= <-] _. by subst.
Qed.

Lemma EncodeWrapper_roundtrip_witness : @DecodeWrapper demoStateCodec [1] = Some demoState.
Proof.
  apply (@EncodeWrapper_roundtrip demoStateCodec demoStateCodec_laws demoState true [1]).
  - vm_compute. reflexivity.
  - intros _. discriminate.
Defined.

Lemma stateHash_invariant_witness :
  @stateHash (λ b, b) demoState = @stateHash (λ b, b) (mkState None (reverse (Shards demoState)) []).
Proof.
  apply (@stateHash_invariant (λ b, b)).
  - apply (bool_decide_unpack _). vm_compute. exact I.
  - apply Permutation_map. symmetry. apply reverse_Permutation.
Defined.

Lemma NewInstance_valid_witness :
  ∃ sc, NewInstance 4 250 170 680000000000000000 [] [] [] 32768 = Ok sc ∧
        harmonyVotePercent sc + externalVotePercent sc = OneDec.
Proof.
  eexists. split; [vm_compute; reflexivity|].
  apply (NewInstance_valid 4 250 170 680000000000000000 [] [] [] 32768 _ []). vm_compute. reflexivity.
Defined.
