(* ===== verification/Epochs.v ===== *)
(** * Forks and epochs (internal/params/config.go, internal/configs/sharding)

    The configuration of a network says from which epoch on a feature is active; its schedule
    divides the block numbers into epochs and gives each epoch its sharding instance.  Block and
    epoch numbers are [uint64] and [int64], with their wrap-around written out.  No epoch of the
    configurations is nil.  The tables of genesis accounts are data of internal/genesis: the
    instances name them, and what they hold is a parameter. *)

From Stdlib Require Import ZArith Lia Ascii String.
From stdpp Require Import base list option sets.
From S2P Require Import Prelude Decimal ShardState.
Local Open Scope Z_scope.

Inductive network := Mainnet | Testnet | Pangaea | Partner | Stressnet | Localnet.

(** ** The chain configuration ([ChainConfig]) *)
Record ChainConfig := mkChainConfig {
  ChainID : Z; EthCompatibleChainID : Z; EthCompatibleShard0ChainID : Z;
  EthCompatibleEpoch : Z; CrossTxEpoch : Z; CrossLinkEpoch : Z; StakingEpoch : Z; PreStakingEpoch : Z;
  QuickUnlockEpoch : Z; FiveSecondsEpoch : Z; TwoSecondsEpoch : Z; SixtyPercentEpoch : Z; RedelegationEpoch : Z;
  NoEarlyUnlockEpoch : Z; VRFEpoch : Z; MinDelegation100Epoch : Z; MinCommissionRateEpoch : Z; MinCommissionPromoPeriod : Z;
  EPoSBound35Epoch : Z; EIP155Epoch : Z; S3Epoch : Z; IstanbulEpoch : Z; ReceiptLogEpoch : Z;
}.

Definition MainnetChainID : Z := 1.
Definition TestnetChainID : Z := 2.
Definition PangaeaChainID : Z := 3.
Definition PartnerChainID : Z := 4.
Definition StressnetChainID : Z := 5.
Definition EthMainnetShard0ChainID : Z := 1666600000.
Definition EthTestnetShard0ChainID : Z := 1666700000.
Definition EthPangaeaShard0ChainID : Z := 1666800000.
Definition EthPartnerShard0ChainID : Z := 1666900000.
Definition EthStressnetShard0ChainID : Z := 1667000000.
Definition EpochTBD : Z := 10000000.

Definition MainnetChainConfig : ChainConfig :=
  mkChainConfig MainnetChainID EthMainnetShard0ChainID EthMainnetShard0ChainID
    442 28 186 186 185 191 230 366 530 290 530 EpochTBD EpochTBD EpochTBD 100 EpochTBD 28 28 314 101.
Definition TestnetChainConfig : ChainConfig :=
  mkChainConfig TestnetChainID EthTestnetShard0ChainID EthTestnetShard0ChainID
    73290 0 2 2 1 0 16500 73000 73282 36500 73580 73880 73880 73880 10 73880 0 0 43800 0.
Definition PangaeaChainConfig : ChainConfig :=
  mkChainConfig PangaeaChainID EthPangaeaShard0ChainID EthPangaeaShard0ChainID
    0 0 2 2 1 0 0 0 0 0 0 0 0 0 10 0 0 0 0 0.
Definition PartnerChainConfig : ChainConfig :=
  mkChainConfig PartnerChainID EthPartnerShard0ChainID EthPartnerShard0ChainID
    0 0 2 2 1 0 0 0 0 0 0 0 0 0 10 0 0 0 0 0.
Definition StressnetChainConfig : ChainConfig :=
  mkChainConfig StressnetChainID EthStressnetShard0ChainID EthStressnetShard0ChainID
    0 0 2 2 1 0 0 0 10 0 0 0 0 0 10 0 0 0 0 0.
Definition LocalnetChainConfig : ChainConfig :=
  mkChainConfig TestnetChainID EthTestnetShard0ChainID EthTestnetShard0ChainID
    0 (-1) 2 2 0 0 0 1 EpochTBD 0 0 0 0 0 10 0 0 0 0 0.

Definition isForked (s epoch : Z) : bool := s <=? epoch.
Definition IsEIP155 (c : ChainConfig) : Z → bool := isForked (EIP155Epoch c).
Definition AcceptsCrossTx (c : ChainConfig) : Z → bool := isForked (CrossTxEpoch c + 1).
Definition HasCrossTxFields (c : ChainConfig) : Z → bool := isForked (CrossTxEpoch c).
Definition IsEthCompatible (c : ChainConfig) : Z → bool := isForked (EthCompatibleEpoch c).
Definition IsStaking (c : ChainConfig) : Z → bool := isForked (StakingEpoch c).
Definition IsFiveSeconds (c : ChainConfig) : Z → bool := isForked (FiveSecondsEpoch c).
Definition IsTwoSeconds (c : ChainConfig) : Z → bool := isForked (TwoSecondsEpoch c).
Definition IsSixtyPercent (c : ChainConfig) : Z → bool := isForked (SixtyPercentEpoch c).
Definition IsRedelegation (c : ChainConfig) : Z → bool := isForked (RedelegationEpoch c).
Definition IsNoEarlyUnlock (c : ChainConfig) : Z → bool := isForked (NoEarlyUnlockEpoch c).
Definition IsVRF (c : ChainConfig) : Z → bool := isForked (VRFEpoch c).
Definition IsMinDelegation100 (c : ChainConfig) : Z → bool := isForked (MinDelegation100Epoch c).
Definition IsMinCommissionRate (c : ChainConfig) : Z → bool := isForked (MinCommissionRateEpoch c).
Definition IsEPoSBound35 (c : ChainConfig) : Z → bool := isForked (EPoSBound35Epoch c).
Definition IsPreStaking (c : ChainConfig) : Z → bool := isForked (PreStakingEpoch c).
Definition IsQuickUnlock (c : ChainConfig) : Z → bool := isForked (QuickUnlockEpoch c).
Definition IsCrossLink (c : ChainConfig) : Z → bool := isForked (CrossLinkEpoch c).
Definition IsS3 (c : ChainConfig) : Z → bool := isForked (S3Epoch c).
Definition IsIstanbul (c : ChainConfig) : Z → bool := isForked (IstanbulEpoch c).
Definition IsReceiptLog (c : ChainConfig) : Z → bool := isForked (ReceiptLogEpoch c).
(** The function of the package, on chain ids. *)
Definition IsEthCompatibleID (chainID : Z) : bool := EthMainnetShard0ChainID <=? chainID.

(** [UpdateEthChainIDByShard], for one of the configurations. *)
Definition UpdateEthChainIDByShard (shardID : Z) (c : ChainConfig) : ChainConfig :=
  mkChainConfig (ChainID c) (EthCompatibleChainID c + shardID) (EthCompatibleShard0ChainID c)
    (EthCompatibleEpoch c) (CrossTxEpoch c) (CrossLinkEpoch c) (StakingEpoch c) (PreStakingEpoch c)
    (QuickUnlockEpoch c) (FiveSecondsEpoch c) (TwoSecondsEpoch c) (SixtyPercentEpoch c) (RedelegationEpoch c)
    (NoEarlyUnlockEpoch c) (VRFEpoch c) (MinDelegation100Epoch c) (MinCommissionRateEpoch c) (MinCommissionPromoPeriod c)
    (EPoSBound35Epoch c) (EIP155Epoch c) (S3Epoch c) (IstanbulEpoch c) (ReceiptLogEpoch c).

Definition configOf (n : network) : ChainConfig :=
  match n with
  | Mainnet => MainnetChainConfig | Testnet => TestnetChainConfig | Pangaea => PangaeaChainConfig
  | Partner => PartnerChainConfig | Stressnet => StressnetChainConfig | Localnet => LocalnetChainConfig
  end.

(** ** Epochs of a network

    What the rest of the node uses of a [Schedule]. *)
Class EpochSchedule := {
  CalcEpochNumber : Z → Z;
  IsLastBlock : Z → bool;
  EpochLastBlock : Z → Z;
  IsSkippedEpoch : Z → Z → bool;
}.

(** *** Networks with a first epoch of its own and two block times (mainnet.go, localnet.go) *)
Record twoSpeed := mkTwoSpeed { epochBlock1 : Z; BlocksPerEpochOld : Z; BlocksPerEpoch : Z; tsConfig : ChainConfig }.

Definition twoSecondsFirstBlock (p : twoSpeed) : Z :=
  if u64 (TwoSecondsEpoch (tsConfig p)) =? 0 then 0
  else u64 (u64 (u64 (TwoSecondsEpoch (tsConfig p)) - 1) * BlocksPerEpochOld p + epochBlock1 p).

Definition twoSpeedCalcEpochNumber (p : twoSpeed) (blockNum : Z) : Z :=
  let oldEpochNumber := if epochBlock1 p <=? blockNum then i64 (i64 ((blockNum - epochBlock1 p) / BlocksPerEpochOld p) + 1) else 0 in
  let firstBlock2s := twoSecondsFirstBlock p in
  if IsTwoSeconds (tsConfig p) oldEpochNumber
  then i64 (u64 (u64 (blockNum - firstBlock2s) / BlocksPerEpoch p + u64 (TwoSecondsEpoch (tsConfig p))))
  else oldEpochNumber.

Definition twoSpeedIsLastBlock (p : twoSpeed) (blockNum : Z) : bool :=
  if blockNum <? epochBlock1 p - 1 then false
  else if blockNum =? epochBlock1 p - 1 then true
  else
    let firstBlock2s := twoSecondsFirstBlock p in
    if firstBlock2s <=? blockNum then u64 (blockNum - firstBlock2s) mod BlocksPerEpoch p =? BlocksPerEpoch p - 1
    else u64 (blockNum - epochBlock1 p) mod BlocksPerEpochOld p =? BlocksPerEpochOld p - 1.

Definition twoSpeedEpochLastBlock (p : twoSpeed) (epochNum : Z) : Z :=
  if epochNum =? 0 then epochBlock1 p - 1
  else
    let firstBlock2s := twoSecondsFirstBlock p in
    if IsTwoSeconds (tsConfig p) (i64 epochNum)
    then u64 (firstBlock2s - 1 + BlocksPerEpoch p * u64 (epochNum - u64 (TwoSecondsEpoch (tsConfig p)) + 1))
    else u64 (epochBlock1 p - 1 + BlocksPerEpochOld p * epochNum).

Definition mainnetSchedule : twoSpeed := mkTwoSpeed 344064 16384 32768 MainnetChainConfig.
Definition mainnetCalcEpochNumber : Z → Z := twoSpeedCalcEpochNumber mainnetSchedule.
Definition mainnetIsLastBlock : Z → bool := twoSpeedIsLastBlock mainnetSchedule.
Definition mainnetEpochLastBlock : Z → Z := twoSpeedEpochLastBlock mainnetSchedule.
Definition skippedEpochs (shardID : Z) : list Z :=
  if shardID =? 1 then [181; 182; 183; 184; 185] else if shardID =? 2 then [184; 185] else if shardID =? 3 then [183; 184; 185] else [].
Definition mainnetIsSkippedEpoch (shardID epoch : Z) : bool := existsb (Z.eqb epoch) (skippedEpochs shardID).

Definition localnetSchedule : twoSpeed := mkTwoSpeed 16384 16384 10 LocalnetChainConfig.
Definition localnetCalcEpochNumber : Z → Z := twoSpeedCalcEpochNumber localnetSchedule.
Definition localnetIsLastBlock : Z → bool := twoSpeedIsLastBlock localnetSchedule.
Definition localnetEpochLastBlock : Z → Z := twoSpeedEpochLastBlock localnetSchedule.

(** *** testnet.go *)
Definition testnetBlocksPerEpochOld : Z := 38.
Definition testnetBlocksPerEpoch : Z := 8192.
Definition testnetFirstBlock2s : Z := u64 (u64 (TwoSecondsEpoch TestnetChainConfig) * testnetBlocksPerEpochOld).
Definition testnetCalcEpochNumber (blockNum : Z) : Z :=
  if testnetFirstBlock2s <=? blockNum
  then i64 (u64 (u64 (blockNum - testnetFirstBlock2s) / testnetBlocksPerEpoch + u64 (TwoSecondsEpoch TestnetChainConfig)))
  else i64 (blockNum / testnetBlocksPerEpochOld).
Definition testnetIsLastBlock (blockNum : Z) : bool :=
  if testnetFirstBlock2s <=? blockNum then u64 (blockNum - testnetFirstBlock2s) mod testnetBlocksPerEpoch =? testnetBlocksPerEpoch - 1
  else u64 (blockNum + 1) mod testnetBlocksPerEpochOld =? 0.
Definition testnetEpochLastBlock (epochNum : Z) : Z :=
  if IsTwoSeconds TestnetChainConfig (i64 epochNum)
  then u64 (testnetFirstBlock2s - 1 + testnetBlocksPerEpoch * u64 (epochNum - u64 (TwoSecondsEpoch TestnetChainConfig) + 1))
  else u64 (testnetBlocksPerEpochOld * u64 (epochNum + 1) - 1).

(** *** Networks with one length of epochs (pangaea.go, partner.go, stress.go) *)
Definition fixedCalcEpochNumber (blocks blockNum : Z) : Z := i64 (blockNum / blocks).
Definition fixedIsLastBlock (blocks blockNum : Z) : bool := u64 (blockNum + 1) mod blocks =? 0.
Definition fixedEpochLastBlock (blocks epochNum : Z) : Z := u64 (blocks * u64 (epochNum + 1) - 1).
Definition pangaeaBlocksPerEpoch : Z := 450.
Definition partnerBlocksPerEpoch : Z := 75.
Definition stressnetBlocksPerEpoch : Z := 1024.

Definition noSkipped (shardID epoch : Z) : bool := false.
Definition fixedSchedule (blocks : Z) : EpochSchedule := {|
  CalcEpochNumber := fixedCalcEpochNumber blocks; IsLastBlock := fixedIsLastBlock blocks;
  EpochLastBlock := fixedEpochLastBlock blocks; IsSkippedEpoch := noSkipped |}.
Definition epochsOf (n : network) : EpochSchedule :=
  match n with
  | Mainnet => {| CalcEpochNumber := mainnetCalcEpochNumber; IsLastBlock := mainnetIsLastBlock;
                  EpochLastBlock := mainnetEpochLastBlock; IsSkippedEpoch := mainnetIsSkippedEpoch |}
  | Localnet => {| CalcEpochNumber := localnetCalcEpochNumber; IsLastBlock := localnetIsLastBlock;
                   EpochLastBlock := localnetEpochLastBlock; IsSkippedEpoch := noSkipped |}
  | Testnet => {| CalcEpochNumber := testnetCalcEpochNumber; IsLastBlock := testnetIsLastBlock;
                  EpochLastBlock := testnetEpochLastBlock; IsSkippedEpoch := noSkipped |}
  | Pangaea => fixedSchedule pangaeaBlocksPerEpoch
  | Partner => fixedSchedule partnerBlocksPerEpoch
  | Stressnet => fixedSchedule stressnetBlocksPerEpoch
  end.

(** ** The instance of an epoch *)
Inductive accountTable :=
| HarmonyAccounts | FoundationalNodeAccounts | FoundationalNodeAccountsV0_1 | FoundationalNodeAccountsV0_2 | FoundationalNodeAccountsV0_3
| FoundationalNodeAccountsV0_4 | FoundationalNodeAccountsV1 | FoundationalNodeAccountsV1_1 | FoundationalNodeAccountsV1_2
| FoundationalNodeAccountsV1_3 | FoundationalNodeAccountsV1_4 | FoundationalNodeAccountsV1_5
| TNHarmonyAccounts | TNFoundationalAccounts
| LocalHarmonyAccounts | LocalFnAccounts | LocalHarmonyAccountsV2 | LocalFnAccountsV2.

Section instances.
Context (accounts : accountTable → list DeployAccount).

(** [numeric.MustNewDecFromStr] of the percentages. *)
Definition percent (s : string) : option Dec := MustNewDecFromStr (asText s).
Definition instanceWith (numShards numNodes numHarmony : Z) (percent : option Dec) (hmy fn : accountTable) (resharding : list Z) (blocks : Z) : option instance :=
  p ← percent; MustNewInstance numShards numNodes numHarmony p (accounts hmy) (accounts fn) resharding blocks.

Definition mainnetReshardingEpoch : list Z :=
  [0; 1; 5; 8; 10; 12; 19; 25; 36; 46; 54; 185; 208; 231; TwoSecondsEpoch MainnetChainConfig; SixtyPercentEpoch MainnetChainConfig].
Definition mainnetInstance (numNodes numHarmony : Z) (percent : option Dec) (fn : accountTable) (blocks : Z) : option instance :=
  instanceWith 4 numNodes numHarmony percent HarmonyAccounts fn mainnetReshardingEpoch blocks.
Definition mainnetInstanceForEpoch (epoch : Z) : option instance :=
  let old := BlocksPerEpochOld mainnetSchedule in
  if IsSixtyPercent MainnetChainConfig epoch then mainnetInstance 250 50 (percent "0.60") FoundationalNodeAccountsV1_5 (BlocksPerEpoch mainnetSchedule)
  else if IsTwoSeconds MainnetChainConfig epoch then mainnetInstance 250 90 (percent "0.68") FoundationalNodeAccountsV1_5 (BlocksPerEpoch mainnetSchedule)
  else if 231 <=? epoch then mainnetInstance 250 90 (percent "0.68") FoundationalNodeAccountsV1_5 old
  else if 208 <=? epoch then mainnetInstance 250 130 (percent "0.68") FoundationalNodeAccountsV1_5 old
  else if 185 <=? epoch then mainnetInstance 250 170 (percent "0.68") FoundationalNodeAccountsV1_5 old
  else if 54 <=? epoch then mainnetInstance 250 170 (Some OneDec) FoundationalNodeAccountsV1_5 old
  else if 46 <=? epoch then mainnetInstance 250 170 (Some OneDec) FoundationalNodeAccountsV1_4 old
  else if 36 <=? epoch then mainnetInstance 250 170 (Some OneDec) FoundationalNodeAccountsV1_3 old
  else if 25 <=? epoch then mainnetInstance 250 170 (Some OneDec) FoundationalNodeAccountsV1_2 old
  else if 19 <=? epoch then mainnetInstance 250 170 (Some OneDec) FoundationalNodeAccountsV1_1 old
  else if 12 <=? epoch then mainnetInstance 250 170 (Some OneDec) FoundationalNodeAccountsV1 old
  else if 10 <=? epoch then mainnetInstance 216 148 (Some OneDec) FoundationalNodeAccountsV0_4 old
  else if 8 <=? epoch then mainnetInstance 210 148 (Some OneDec) FoundationalNodeAccountsV0_3 old
  else if 5 <=? epoch then mainnetInstance 200 148 (Some OneDec) FoundationalNodeAccountsV0_2 old
  else if 1 <=? epoch then mainnetInstance 152 112 (Some OneDec) FoundationalNodeAccountsV0_1 old
  else mainnetInstance 150 112 (Some OneDec) FoundationalNodeAccounts old.

Definition localnetReshardingEpoch : list Z := [0; 1; StakingEpoch LocalnetChainConfig; TwoSecondsEpoch LocalnetChainConfig].
Definition localnetV1Epoch : Z := 0.
Definition localnetInstanceForEpoch (epoch : Z) : option instance :=
  let old := BlocksPerEpochOld localnetSchedule in
  let new := BlocksPerEpoch localnetSchedule in
  if IsSixtyPercent LocalnetChainConfig epoch then instanceWith 2 9 6 (percent "0.68") LocalHarmonyAccountsV2 LocalFnAccountsV2 localnetReshardingEpoch new
  else if IsTwoSeconds LocalnetChainConfig epoch then instanceWith 2 9 6 (percent "0.68") LocalHarmonyAccountsV2 LocalFnAccountsV2 localnetReshardingEpoch new
  else if IsStaking LocalnetChainConfig epoch then instanceWith 2 9 6 (percent "0.68") LocalHarmonyAccountsV2 LocalFnAccountsV2 localnetReshardingEpoch old
  else if localnetV1Epoch <=? epoch then instanceWith 2 32 22 (Some OneDec) LocalHarmonyAccounts LocalFnAccounts localnetReshardingEpoch old
  else instanceWith 2 4 3 (Some OneDec) LocalHarmonyAccounts LocalFnAccounts localnetReshardingEpoch old.

Definition tnInstance (numShards numNodes numHarmony : Z) (percent : option Dec) (resharding : list Z) (blocks : Z) : option instance :=
  instanceWith numShards numNodes numHarmony percent TNHarmonyAccounts TNFoundationalAccounts resharding blocks.
Definition testnetReshardingEpoch : list Z := [0; StakingEpoch TestnetChainConfig; TwoSecondsEpoch TestnetChainConfig].
Definition testnetInstanceForEpoch (epoch : Z) : option instance :=
  if IsSixtyPercent TestnetChainConfig epoch then tnInstance 4 30 8 (percent "0.60") testnetReshardingEpoch testnetBlocksPerEpoch
  else if IsTwoSeconds TestnetChainConfig epoch then tnInstance 4 30 8 (percent "0.90") testnetReshardingEpoch testnetBlocksPerEpoch
  else if 6050 <=? epoch then tnInstance 4 30 8 (percent "0.90") testnetReshardingEpoch testnetBlocksPerEpochOld
  else if StakingEpoch TestnetChainConfig <=? epoch then tnInstance 4 20 15 (percent "0.90") testnetReshardingEpoch testnetBlocksPerEpochOld
  else tnInstance 4 16 15 (Some OneDec) testnetReshardingEpoch testnetBlocksPerEpochOld.

Definition pangaeaInstanceForEpoch (epoch : Z) : option instance :=
  let resharding := [0; StakingEpoch PangaeaChainConfig] in
  if StakingEpoch PangaeaChainConfig <=? epoch then tnInstance 4 110 30 (percent "0.68") resharding pangaeaBlocksPerEpoch
  else tnInstance 4 30 30 (Some OneDec) resharding pangaeaBlocksPerEpoch.
Definition partnerInstanceForEpoch (epoch : Z) : option instance :=
  let resharding := [0; StakingEpoch TestnetChainConfig] in
  if StakingEpoch PartnerChainConfig <=? epoch then tnInstance 2 30 15 (percent "0.68") resharding partnerBlocksPerEpoch
  else tnInstance 2 15 15 (Some OneDec) resharding partnerBlocksPerEpoch.
Definition stressnetInstanceForEpoch (epoch : Z) : option instance :=
  let resharding := [0; StakingEpoch StressnetChainConfig] in
  if IsSixtyPercent StressnetChainConfig epoch then tnInstance 2 30 10 (percent "0.6") resharding stressnetBlocksPerEpoch
  else if StakingEpoch StressnetChainConfig <=? epoch then tnInstance 2 30 10 (percent "0.9") resharding stressnetBlocksPerEpoch
  else tnInstance 2 10 10 (Some OneDec) resharding stressnetBlocksPerEpoch.

(** [shard.Schedule.InstanceForEpoch]; [None] is the panic of [MustNewInstance]. *)
Definition InstanceForEpoch (n : network) : Z → option instance :=
  match n with
  | Mainnet => mainnetInstanceForEpoch | Testnet => testnetInstanceForEpoch | Pangaea => pangaeaInstanceForEpoch
  | Partner => partnerInstanceForEpoch | Stressnet => stressnetInstanceForEpoch | Localnet => localnetInstanceForEpoch
  end.
End instances.

(** * Properties *)

(** ** Epochs *)

(** A schedule over the blocks and epochs that do not wrap around: an epoch is the blocks after
    the last block of the previous one up to its own last block. *)
Record epochLaws (S : EpochSchedule) : Prop := {
  el_last : ∀ e, 0 ≤ e < 2 ^ 40 → CalcEpochNumber (EpochLastBlock e) = e ∧ IsLastBlock (EpochLastBlock e) = true;
  el_is_last : ∀ b, 0 ≤ b < 2 ^ 43 → IsLastBlock b = true → b = EpochLastBlock (CalcEpochNumber b);
  el_next : ∀ b, 0 ≤ b < 2 ^ 43 → CalcEpochNumber (b + 1) = CalcEpochNumber b + (if IsLastBlock b then 1 else 0);
}.

Ltac epoch_cases :=
  repeat match goal with
  | H : context [if ?x then _ else _] |- _ => destruct x eqn:?
  | |- context [if ?x then _ else _] => destruct x eqn:?
  end;
  repeat match goal with
  | H : (_ <=? _) = true |- _ => apply Z.leb_le in H
  | H : (_ <=? _) = false |- _ => apply Z.leb_gt in H
  | H : (_ <? _) = true |- _ => apply Z.ltb_lt in H
  | H : (_ <? _) = false |- _ => apply Z.ltb_ge in H
  | H : (_ =? _) = true |- _ => apply Z.eqb_eq in H
  | H : (_ =? _) = false |- _ => apply Z.eqb_neq in H
  end.

(** Removes the wrap-around of values in range. *)
Ltac unwrap :=
  repeat match goal with
  | |- context [u64 ?x] => rewrite (u64_small x) by (unfold isU64; Z.to_euclidean_division_equations; lia)
  | |- context [i64 ?x] => rewrite (i64_small x) by (Z.to_euclidean_division_equations; lia)
  | H : context [u64 ?x] |- _ => rewrite (u64_small x) in H by (clear H; unfold isU64; Z.to_euclidean_division_equations; lia)
  | H : context [i64 ?x] |- _ => rewrite (i64_small x) in H by (clear H; Z.to_euclidean_division_equations; lia)
  end.
Ltac epoch_arith := epoch_cases; try done; unwrap; Z.to_euclidean_division_equations; lia.

Lemma fixedSchedule_laws blocks : blocks ∈ [pangaeaBlocksPerEpoch; partnerBlocksPerEpoch; stressnetBlocksPerEpoch] → epochLaws (fixedSchedule blocks).
Proof.
  intros Hb. assert (∀ P : Z → Prop, P 450 → P 75 → P 1024 → P blocks) as Hx.
  { intros P ? ? ?. repeat (apply elem_of_cons in Hb as [->|Hb]; [done|]). by apply not_elem_of_nil in Hb. }
  split; cbn; unfold fixedCalcEpochNumber, fixedIsLastBlock, fixedEpochLastBlock.
  - intros e He. rewrite Z.eqb_eq. revert e He. apply Hx; intros e He; split; epoch_arith.
  - intros b Hbb. rewrite Z.eqb_eq. revert b Hbb. apply Hx; intros b Hbb; epoch_arith.
  - revert Hb. apply Hx; intros _ b Hbb; epoch_arith.
Qed.

(** ** The two-speed schedules without wrap-around

    With the first block of the short block time. *)
Definition first2s (p : twoSpeed) : Z := (TwoSecondsEpoch (tsConfig p) - 1) * BlocksPerEpochOld p + epochBlock1 p.
Definition knownSchedule (p : twoSpeed) : Prop := p = mainnetSchedule ∨ p = localnetSchedule.
Lemma twoSecondsFirstBlock_known p : knownSchedule p → twoSecondsFirstBlock p = first2s p.
Proof. by intros [-> | ->]. Qed.

Lemma twoSpeedCalc_known p b :
  knownSchedule p → 0 ≤ b < 2 ^ 56 →
  twoSpeedCalcEpochNumber p b =
    if b <? epochBlock1 p then 0
    else if b <? first2s p then (b - epochBlock1 p) / BlocksPerEpochOld p + 1
    else (b - first2s p) / BlocksPerEpoch p + TwoSecondsEpoch (tsConfig p).
Proof.
  intros Hp Hb. unfold twoSpeedCalcEpochNumber. rewrite twoSecondsFirstBlock_known by done. unfold IsTwoSeconds, isForked, first2s.
  destruct Hp as [-> | ->]; cbn; epoch_arith.
Qed.

Lemma twoSpeedLast_known p e :
  knownSchedule p → 0 ≤ e < 2 ^ 40 →
  twoSpeedEpochLastBlock p e =
    if e <? TwoSecondsEpoch (tsConfig p) then epochBlock1 p - 1 + BlocksPerEpochOld p * e
    else first2s p - 1 + BlocksPerEpoch p * (e - TwoSecondsEpoch (tsConfig p) + 1).
Proof.
  intros Hp He. unfold twoSpeedEpochLastBlock. rewrite twoSecondsFirstBlock_known by done. unfold IsTwoSeconds, isForked, first2s.
  destruct Hp as [-> | ->]; cbn; epoch_arith.
Qed.

Lemma twoSpeedIsLast_known p b :
  knownSchedule p → 0 ≤ b < 2 ^ 56 →
  twoSpeedIsLastBlock p b =
    if b <? epochBlock1 p then b =? epochBlock1 p - 1
    else if b <? first2s p then (b - epochBlock1 p) mod BlocksPerEpochOld p =? BlocksPerEpochOld p - 1
    else (b - first2s p) mod BlocksPerEpoch p =? BlocksPerEpoch p - 1.
Proof.
  intros Hp Hb. unfold twoSpeedIsLastBlock. rewrite twoSecondsFirstBlock_known by done. unfold first2s.
  destruct Hp as [-> | ->]; cbn; epoch_arith.
Qed.

Lemma twoSpeed_laws p :
  knownSchedule p →
  epochLaws {| CalcEpochNumber := twoSpeedCalcEpochNumber p; IsLastBlock := twoSpeedIsLastBlock p;
               EpochLastBlock := twoSpeedEpochLastBlock p; IsSkippedEpoch := noSkipped |}.
Proof.
  intros Hp. split; cbn [CalcEpochNumber IsLastBlock EpochLastBlock].
  - intros e He. rewrite twoSpeedLast_known by done. set (l := if e <? _ then _ else _).
    assert (0 ≤ l < 2 ^ 56) as Hl by (unfold l, first2s; destruct Hp as [-> | ->]; cbn; epoch_arith).
    rewrite twoSpeedCalc_known, twoSpeedIsLast_known by done. unfold l, first2s. destruct Hp as [-> | ->]; cbn; split; epoch_arith.
  - intros b Hb. rewrite twoSpeedIsLast_known by (done || lia). rewrite twoSpeedCalc_known by (done || lia). set (e := if b <? _ then 0 else _).
    assert (0 ≤ e < 2 ^ 40) as He by (unfold e, first2s; destruct Hp as [-> | ->]; cbn; epoch_arith).
    rewrite twoSpeedLast_known by done. unfold e, first2s. destruct Hp as [-> | ->]; cbn; epoch_arith.
  - intros b Hb. rewrite twoSpeedIsLast_known by (done || lia). rewrite !twoSpeedCalc_known by (done || lia).
    unfold first2s. destruct Hp as [-> | ->]; cbn; epoch_arith.
Qed.

Lemma testnet_first2s : testnetFirstBlock2s = 73000 * 38.
Proof. reflexivity. Qed.
Lemma testnet_laws : epochLaws (epochsOf Testnet).
Proof.
  split; cbn [CalcEpochNumber IsLastBlock EpochLastBlock epochsOf];
    unfold testnetCalcEpochNumber, testnetIsLastBlock, testnetEpochLastBlock; rewrite testnet_first2s;
    unfold testnetBlocksPerEpoch, testnetBlocksPerEpochOld, IsTwoSeconds, isForked; cbn [TwoSecondsEpoch TestnetChainConfig].
  - intros e He. split; epoch_arith.
  - intros b Hb. epoch_arith.
  - intros b Hb. epoch_arith.
Qed.

Lemma epochsOf_laws n : epochLaws (epochsOf n).
Proof.
  destruct n; [| |apply fixedSchedule_laws; apply list_elem_of_In; cbn; tauto..|].
  - destruct (twoSpeed_laws mainnetSchedule) as [H1 H2 H3]; [by left|]. by split.
  - apply testnet_laws.
  - destruct (twoSpeed_laws localnetSchedule) as [H1 H2 H3]; [by right|]. by split.
Qed.

Section networks.
Context (n : network).

(** The epoch of a block number is in range. *)
Lemma CalcEpochNumber_range b : 0 ≤ b < 2 ^ 43 → 0 ≤ CalcEpochNumber (EpochSchedule := epochsOf n) b < 2 ^ 40.
Proof.
  intros Hb. destruct n; cbn [CalcEpochNumber epochsOf fixedSchedule].
  - unfold mainnetCalcEpochNumber. rewrite twoSpeedCalc_known by (lia || by left). unfold first2s. cbn. epoch_arith.
  - unfold testnetCalcEpochNumber. rewrite testnet_first2s. unfold testnetBlocksPerEpoch, testnetBlocksPerEpochOld. cbn [TwoSecondsEpoch TestnetChainConfig]. epoch_arith.
  - unfold fixedCalcEpochNumber, pangaeaBlocksPerEpoch. epoch_arith.
  - unfold fixedCalcEpochNumber, partnerBlocksPerEpoch. epoch_arith.
  - unfold fixedCalcEpochNumber, stressnetBlocksPerEpoch. epoch_arith.
  - unfold localnetCalcEpochNumber. rewrite twoSpeedCalc_known by (lia || by right). unfold first2s. cbn. epoch_arith.
Qed.

(** The schedule of every network is consistent: the epoch of the last block of an epoch is that
    epoch and its last block is a last block, a last block is the last one of its epoch, and the
    epoch goes up by one after it and only there. *)
Theorem epochs_consistent b e :
  0 ≤ b < 2 ^ 43 → 0 ≤ e < 2 ^ 40 →
  CalcEpochNumber (EpochSchedule := epochsOf n) (EpochLastBlock (EpochSchedule := epochsOf n) e) = e
  ∧ IsLastBlock (EpochSchedule := epochsOf n) (EpochLastBlock (EpochSchedule := epochsOf n) e) = true
  ∧ (IsLastBlock (EpochSchedule := epochsOf n) b = true
     ↔ b = EpochLastBlock (EpochSchedule := epochsOf n) (CalcEpochNumber (EpochSchedule := epochsOf n) b))
  ∧ CalcEpochNumber (EpochSchedule := epochsOf n) (b + 1)
    = CalcEpochNumber (EpochSchedule := epochsOf n) b + (if IsLastBlock (EpochSchedule := epochsOf n) b then 1 else 0).
Proof.
  intros Hb He. destruct (epochsOf_laws n) as [H1 H2 H3]. destruct (H1 e He) as [Hc Hl]. split_and!; [done|done| |by apply H3].
  split; [by apply H2|]. intros Hx. rewrite Hx. apply H1. by apply CalcEpochNumber_range.
Qed.
End networks.

(** ** Instances *)
Section configurations.
Context (accounts : accountTable → list DeployAccount).

Lemma percents_defined :
  percent "0.60" = Some 600000000000000000 ∧ percent "0.68" = Some 680000000000000000 ∧ percent "0.90" = Some 900000000000000000
  ∧ percent "0.6" = Some 600000000000000000 ∧ percent "0.9" = Some 900000000000000000.
Proof. vm_compute. done. Qed.
#[local] Opaque percent.

Lemma instanceWith_valid s nn h p hmy fn rs bl :
  1 ≤ s → 1 ≤ nn → 0 ≤ h ≤ nn → 0 ≤ p ≤ OneDec →
  instanceWith accounts s nn h (Some p) hmy fn rs bl = Some (mkInstance s nn h p (OneDec - p) (accounts hmy) (accounts fn) rs bl).
Proof.
  intros Hs Hn Hh Hp. unfold instanceWith, MustNewInstance, NewInstance, LT, GT, Sub, ZeroDec. cbn [mbind option_bind].
  rewrite !(proj2 (Z.ltb_ge _ _)), Z.gtb_ltb, (proj2 (Z.ltb_ge _ _)) by lia.
  destruct (Z.compare_spec p 0), (Z.compare_spec p OneDec); try lia; cbn [orb];
    (rewrite checkBits_Some; [reflexivity|unfold OneDec in *; rewrite precisionReuse_val in *; lia]).
Qed.

(** The shape that every instance has. *)
Definition instanceOk (blocks : Z) (o : option instance) : Prop :=
  ∃ sc, o = Some sc ∧ blocksPerEpoch sc = blocks ∧ 0 ≤ ExternalSlotsAvailable sc ∧ harmonyVotePercent sc + externalVotePercent sc = OneDec.

Lemma instanceWith_ok s nn h p hmy fn rs bl :
  (1 ≤ s ∧ 1 ≤ nn ∧ 0 ≤ h ≤ nn) → p = Some OneDec ∨ p ∈ [percent "0.60"; percent "0.68"; percent "0.90"; percent "0.6"; percent "0.9"] →
  instanceOk bl (instanceWith accounts s nn h p hmy fn rs bl).
Proof.
  intros (Hs & Hn & Hh) Hp. assert (∃ q, p = Some q ∧ 0 ≤ q ≤ OneDec) as (q & -> & Hq).
  { destruct percents_defined as (H1 & H2 & H3 & H4 & H5). rewrite H1, H2, H3, H4, H5 in Hp. unfold OneDec. rewrite precisionReuse_val.
    destruct Hp as [->|Hp]; [exists OneDec; split; [reflexivity|]; unfold OneDec; rewrite precisionReuse_val; lia|].
    repeat (apply elem_of_cons in Hp as [->|Hp]; [eexists; split; [reflexivity|lia]|]). exfalso. exact (not_elem_of_nil _ Hp). }
  rewrite (instanceWith_valid _ _ _ _ _ _ _ _ Hs Hn Hh Hq). eexists. split; [reflexivity|]. unfold ExternalSlotsAvailable. cbn. split_and!; [done|nia|lia].
Qed.

Ltac epoch_consts :=
  cbn [epochBlock1 BlocksPerEpochOld BlocksPerEpoch tsConfig mainnetSchedule localnetSchedule TwoSecondsEpoch SixtyPercentEpoch StakingEpoch
    MainnetChainConfig TestnetChainConfig PangaeaChainConfig PartnerChainConfig StressnetChainConfig LocalnetChainConfig].
Ltac instance_cases :=
  repeat match goal with |- instanceOk _ (if ?x then _ else _) => destruct x eqn:? end;
  (match goal with H : ∀ x y o, _ |- _ => eapply H end; [|apply instanceWith_ok; [lia|first [left; reflexivity|right; repeat first [apply list_elem_of_here|apply list_elem_of_further]]]]);
  epoch_arith.

(** The instance of every epoch is valid, so that no network panics when it is set up, and its
    number of blocks is the number of block numbers that the schedule gives to the epoch, the
    first epoch of the main network apart. *)
Theorem instances_match_epochs n e :
  0 ≤ e < 2 ^ 40 → (n = Mainnet → e ≠ 0) →
  instanceOk (EpochLastBlock (EpochSchedule := epochsOf n) e - (if e =? 0 then -1 else EpochLastBlock (EpochSchedule := epochsOf n) (e - 1)))
    (InstanceForEpoch accounts n e).
Proof.
  intros He Hm. assert (∀ x y o, x = y → instanceOk x o → instanceOk y o) as Hx by (by intros x y o ->).
  destruct n; cbn [InstanceForEpoch EpochLastBlock epochsOf fixedSchedule].
  - specialize (Hm eq_refl). unfold mainnetEpochLastBlock. rewrite (proj2 (Z.eqb_neq _ _)) by done. rewrite !twoSpeedLast_known by (lia || by left). unfold first2s. epoch_consts.
    unfold mainnetInstanceForEpoch, mainnetInstance, IsSixtyPercent, IsTwoSeconds, isForked. epoch_consts. instance_cases.
  - unfold testnetEpochLastBlock. rewrite testnet_first2s.
    unfold testnetInstanceForEpoch, tnInstance, IsSixtyPercent, IsTwoSeconds, isForked, testnetBlocksPerEpoch, testnetBlocksPerEpochOld. epoch_consts. instance_cases.
  - unfold fixedEpochLastBlock, pangaeaInstanceForEpoch, tnInstance, pangaeaBlocksPerEpoch. instance_cases.
  - unfold fixedEpochLastBlock, partnerInstanceForEpoch, tnInstance, partnerBlocksPerEpoch. instance_cases.
  - unfold fixedEpochLastBlock, stressnetInstanceForEpoch, tnInstance, stressnetBlocksPerEpoch, IsSixtyPercent, isForked. epoch_consts. instance_cases.
  - unfold localnetEpochLastBlock. destruct (Z.eqb_spec e 0) as [->|Hne].
    + rewrite twoSpeedLast_known by (lia || by right). unfold first2s, localnetInstanceForEpoch, localnetV1Epoch, IsSixtyPercent, IsTwoSeconds, IsStaking, isForked. epoch_consts. instance_cases.
    + rewrite !twoSpeedLast_known by (lia || by right). unfold first2s, localnetInstanceForEpoch, localnetV1Epoch, IsSixtyPercent, IsTwoSeconds, IsStaking, isForked. epoch_consts. instance_cases.
Qed.
End configurations.

#[local] Transparent percent.

(** ** Witnesses *)
Lemma epochs_consistent_witness :
  CalcEpochNumber (EpochSchedule := epochsOf Mainnet) (EpochLastBlock (EpochSchedule := epochsOf Mainnet) 366) = 366
  ∧ CalcEpochNumber (EpochSchedule := epochsOf Mainnet) (344063 + 1) = CalcEpochNumber (EpochSchedule := epochsOf Mainnet) 344063 + 1.
Proof.
  destruct (epochs_consistent Mainnet 344063 366 ltac:(lia) ltac:(lia)) as (H1 & _ & _ & H2). split; [exact H1|]. rewrite H2. vm_compute. reflexivity.
Defined.

Lemma instances_match_epochs_witness : instanceOk 10 (InstanceForEpoch (λ _, []) Localnet 7).
Proof. apply (instances_match_epochs (λ _, []) Localnet 7); [lia|discriminate]. Defined.
