(* ===== verification/Votepower.v ===== *)
(** * Voting power ([consensus/votepower/roster.go])

    The roster of a committee: each slot's share of the voting power.  [Compute] keeps
    pointers: the voters map and [lastStakedVoter] point to the [member] of a slot, and the
    final adjustment writes through [lastStakedVoter].  The model keeps the members in a
    store indexed by slot and the pointers as indexes into it, so a slot whose key was
    already in the map has a member no voter points to.  The JSON methods are left out. *)

From Stdlib Require Import ZArith Lia String.
From stdpp Require Import base gmap list option sets.
From S2P Require Import Prelude Decimal Mask ShardState.
Local Open Scope Z_scope.

(** ** Data *)
Record Ballot := mkBallot {
  SignerPubKeys : list SerializedPublicKey;
  BlockHeaderHash : Hash;
  Signature : bytes;
  Height : Z;
  ViewID : Z;
}.

(** [AccommodateHarmonyVote] with the fields of the embedded [PureStakedVote]. *)
Record AccommodateHarmonyVote := mkVote {
  EarningAccount : Address;
  Identity : SerializedPublicKey;
  GroupPercent : Dec;
  voteEffectiveStake : Dec;
  RawStake : Dec;
  IsHarmonyNode : bool;
  OverallPercent : Dec;
}.

(** [Roster] with the fields of the embedded [topLevelRegistry]. *)
Record Roster := mkRoster {
  Voters : gmap SerializedPublicKey AccommodateHarmonyVote;
  OurVotingPowerTotalPercentage : Dec;
  TheirVotingPowerTotalPercentage : Dec;
  TotalEffectiveStake : Dec;
  HMYSlotCount : Z;
  rosterShardID : Z;
}.

Record VoteOnSubcomittee := mkVoteOn { vote : AccommodateHarmonyVote; voteShardID : Z }.

Definition NewRoster (shardID : Z) : Roster := mkRoster ∅ ZeroDec ZeroDec ZeroDec 0 shardID.

(** ** [AggregateRosters] *)

(** [sort.SliceStable] by shard id, as a (stable) insertion sort. *)
Fixpoint insertRoster (r : Roster) (l : list Roster) : list Roster :=
  match l with
  | [] => [r]
  | d :: rest => if rosterShardID d <? rosterShardID r then d :: insertRoster r rest else r :: d :: rest
  end.
Definition sortRosters (l : list Roster) : list Roster := foldr insertRoster [] l.

Definition addVoteCard (shardID : Z) (res : gmap Address (list VoteOnSubcomittee))
    (voteCard : AccommodateHarmonyVote) : gmap Address (list VoteOnSubcomittee) :=
  if negb (IsHarmonyNode voteCard) then
    <[EarningAccount voteCard :=
        default [] (res !! EarningAccount voteCard) ++ [mkVoteOn voteCard shardID]]> res
  else res.

Definition AggregateRosters (rosters : list Roster) : gmap Address (list VoteOnSubcomittee) :=
  foldl (λ res roster, foldl (addVoteCard (rosterShardID roster)) res (map snd (map_to_list (Voters roster))))
    ∅ (sortRosters rosters).

(** ** [Compute] *)
Inductive rosterError := errNilEpoch | ErrVotingPowerNotEqualOne.

(** The first loop: the total stake and the number of Harmony slots. *)
Definition countStep (acc : option (Dec * Z)) (slot : Slot) : option (Dec * Z) :=
  '(total, count) ← acc;
  match EffectiveStake slot with
  | Some e => total' ← Add total e; Some (total', count)
  | None => Some (total, count + 1)
  end.
Definition countSlots (staked : SlotList) : option (Dec * Z) := foldl countStep (Some (ZeroDec, 0)) staked.

(** The [member] of a slot. *)
Definition computeMember (total asDecHMYSlotCount harmonyPercent externalPercent : Dec) (slot : Slot)
    : option AccommodateHarmonyVote :=
  match EffectiveStake slot with
  | Some e =>
      eff ← Add ZeroDec e;
      group ← Quo e total;
      overall ← Mul group externalPercent;
      Some (mkVote (EcdsaAddress slot) (BLSPublicKey slot) group eff ZeroDec false overall)
  | None =>
      overall ← Quo harmonyPercent asDecHMYSlotCount;
      group ← Quo overall harmonyPercent;
      Some (mkVote (EcdsaAddress slot) (BLSPublicKey slot) group ZeroDec ZeroDec true overall)
  end.

(** The locals of the second loop. *)
Record computeState := mkCompute {
  members : list AccommodateHarmonyVote;
  voters : gmap SerializedPublicKey nat;
  ourPercentage : Dec;
  theirPercentage : Dec;
  lastStakedVoter : option nat;
}.

Definition computeStep (member : Slot → option AccommodateHarmonyVote) (st : computeState) (slot : Slot)
    : option computeState :=
  m ← member slot;
  let i := length (members st) in
  let voters' := match voters st !! BLSPublicKey slot with
                 | None => <[BLSPublicKey slot := i]> (voters st)
                 | Some _ => voters st
                 end in
  match EffectiveStake slot with
  | Some _ =>
      their ← Add (theirPercentage st) (OverallPercent m);
      Some (mkCompute (members st ++ [m]) voters' (ourPercentage st) their (Some i))
  | None =>
      our ← Add (ourPercentage st) (OverallPercent m);
      Some (mkCompute (members st ++ [m]) voters' our (theirPercentage st) (lastStakedVoter st))
  end.

Fixpoint computeLoop (member : Slot → option AccommodateHarmonyVote) (st : computeState) (slots : SlotList)
    : option computeState :=
  match slots with
  | [] => Some st
  | slot :: rest => st' ← computeStep member st slot; computeLoop member st' rest
  end.

Definition addPercent (diff : Dec) (v : AccommodateHarmonyVote) : option AccommodateHarmonyVote :=
  overall ← Add (OverallPercent v) diff;
  Some (mkVote (EarningAccount v) (Identity v) (GroupPercent v) (voteEffectiveStake v) (RawStake v)
          (IsHarmonyNode v) overall).

(** The difference to one goes to the last staked voter, through its pointer. *)
Definition adjust (st : computeState) : option computeState :=
  sum ← Add (ourPercentage st) (theirPercentage st);
  diff ← Sub OneDec sum;
  match negb (IsZero diff), lastStakedVoter st with
  | true, Some i =>
      v ← members st !! i;
      v' ← addPercent diff v;
      their ← Add (theirPercentage st) diff;
      Some (mkCompute (<[i := v']> (members st)) (voters st) (ourPercentage st) their (lastStakedVoter st))
  | _, _ => Some st
  end.

(** [!ourPercentage.Add(theirPercentage).Equal(numeric.OneDec())] for a committee with a
    staked slot. *)
Definition notOne (st : computeState) : option bool :=
  match lastStakedVoter st with
  | None => Some false
  | Some _ => sum ← Add (ourPercentage st) (theirPercentage st); Some (negb (Equal sum OneDec))
  end.

Definition deref (st : computeState) : gmap SerializedPublicKey AccommodateHarmonyVote :=
  omap (λ i, members st !! i) (voters st).

(** The epochs of the testnet incident. *)
Definition inTestnetWindow (isTestnet : bool) (epoch : Z) : bool :=
  isTestnet && (73305 <=? epoch) && (epoch <=? 73490).

(** [numeric.MustNewDecFromStr("0.70")] and [("0.40")] *)
Definition recoveryHarmonyPercent : Dec := 700000000000000000.
Definition recoveryExternalPercent : Dec := 400000000000000000.

Section Compute.
(** [shard.Schedule.InstanceForEpoch] and whether the network type is the testnet. *)
Context (InstanceForEpoch : Z → instance) (isTestnet : bool).

Definition votePercents (epoch : Z) : Dec * Dec :=
  if inTestnetWindow isTestnet epoch then (recoveryHarmonyPercent, recoveryExternalPercent)
  else (harmonyVotePercent (InstanceForEpoch epoch), externalVotePercent (InstanceForEpoch epoch)).

Definition finishRoster (subComm : Committee) (total : Dec) (count : Z) (st : computeState) : Roster :=
  mkRoster (deref st) (ourPercentage st) (theirPercentage st) total count (ShardID subComm).

Definition Compute (subComm : Committee) (epoch : option Z) : result rosterError Roster :=
  match epoch with
  | None => Err errNilEpoch
  | Some epoch =>
      '(total, count) ← lift_panic (countSlots (Slots subComm));
      asDecHMYSlotCount ← lift_panic (NewDec count);
      let '(harmonyPercent, externalPercent) := votePercents epoch in
      st ← lift_panic (computeLoop (computeMember total asDecHMYSlotCount harmonyPercent externalPercent)
                         (mkCompute [] ∅ ZeroDec ZeroDec None) (Slots subComm));
      if inTestnetWindow isTestnet epoch then Ok (finishRoster subComm total count st)
      else
        st' ← lift_panic (adjust st);
        bad ← lift_panic (notOne st');
        if bad : bool then Err ErrVotingPowerNotEqualOne else Ok (finishRoster subComm total count st')
  end.
End Compute.

(** ** [VotePowerByMask] *)
Definition maskStep {G} (r : Roster) (mask : Mask G) (acc : option Dec) (ki : SerializedPublicKey * Z)
    : option Dec :=
  res ← acc;
  match IndexEnabled mask ki.2 with
  | Panic => None
  | Err _ | Ok false => Some res
  | Ok true =>
      match Voters r !! ki.1 with
      | None => Some res
      | Some voter => Add res (OverallPercent voter)
      end
  end.

Definition VotePowerByMask {G} (r : Roster) (mask : Mask G) : option Dec :=
  foldl (maskStep r mask) (Some ZeroDec) (map_to_list (PublicsIndex mask)).

(** * Properties *)

Lemma recoveryPercents :
  MustNewDecFromStr (asText "0.70"%string) = Some recoveryHarmonyPercent ∧
  MustNewDecFromStr (asText "0.40"%string) = Some recoveryExternalPercent.
Proof. by vm_compute. Qed.

Lemma Add_inv a b c : Add a b = Some c → c = a + b.
Proof. intros H. by apply checkBits_inv in H as [-> _]. Qed.

(** ** The loop, as a function of the members *)

(** The sum of the shares of one group. *)
Definition groupSum (harmony : bool) (ms : list AccommodateHarmonyVote) : Z :=
  sumZ (λ m, if Bool.eqb (IsHarmonyNode m) harmony then OverallPercent m else 0) ms.
Definition totalSum (ms : list AccommodateHarmonyVote) : Z := sumZ OverallPercent ms.

Lemma groupSum_total ms : groupSum true ms + groupSum false ms = totalSum ms.
Proof. unfold groupSum, totalSum. induction ms as [|m ms IH]; simpl; [done|]. destruct (IsHarmonyNode m); simpl; lia. Qed.

(** The members of the slots seen so far, the sums, and what the pointers point to. *)
Record loopInv (member : Slot → option AccommodateHarmonyVote) (slots : SlotList) (st : computeState) : Prop := {
  li_members : mapM member slots = Some (members st);
  li_our : ourPercentage st = groupSum true (members st);
  li_their : theirPercentage st = groupSum false (members st);
  li_last : ∀ i, lastStakedVoter st = Some i → ∃ m, members st !! i = Some m ∧ IsHarmonyNode m = false;
  li_none : lastStakedVoter st = None ↔ ∀ s, s ∈ slots → EffectiveStake s = None;
  li_voters : NoDup (map BLSPublicKey slots) →
    voters st = list_to_map (imap (λ i s, (BLSPublicKey s, i)) slots);
}.

(** A member is a Harmony node exactly when its slot has no stake. *)
Definition memberOk (member : Slot → option AccommodateHarmonyVote) : Prop :=
  ∀ s m, member s = Some m → IsHarmonyNode m = negb (isStaked s) ∧ Identity m = BLSPublicKey s.

Lemma computeMember_ok total count hp ep : memberOk (computeMember total count hp ep).
Proof.
  intros s m. unfold computeMember, isStaked. destruct (EffectiveStake s); intros Hm; inv_bind; done.
Qed.

Lemma mapM_snoc {A B} (f : A → option B) l x ys y :
  mapM f l = Some ys → f x = Some y → mapM f (l ++ [x]) = Some (ys ++ [y]).
Proof.
  rewrite !mapM_Some. intros Hl Hx. apply Forall2_app; [done|]. by constructor.
Qed.

Lemma imap_keys (slots : SlotList) : (imap (λ i s, (BLSPublicKey s, i)) slots).*1 = map BLSPublicKey slots.
Proof.
  change (imap (λ i s, (BLSPublicKey s, i)) slots).*1
    with (fst <$> imap (λ i s, (BLSPublicKey s, i)) slots).
  rewrite fmap_imap. rewrite <-(imap_const BLSPublicKey). done.
Qed.

Lemma computeStep_inv member slots st slot st' :
  memberOk member → loopInv member slots st → computeStep member st slot = Some st' →
  loopInv member (slots ++ [slot]) st'.
Proof.
  intros Hok [Hm Ho Ht Hl Hn Hv] Hs. unfold computeStep in Hs.
  apply bind_Some in Hs as (m & Hmem & Hs). destruct (Hok _ _ Hmem) as [Hh _]. unfold isStaked in Hh.
  pose proof (mapM_snoc _ _ _ _ _ Hm Hmem) as Hm'.
  pose proof (length_mapM _ _ _ Hm) as Hlen.
  assert (∀ v', v' = match voters st !! BLSPublicKey slot with
                     | None => <[BLSPublicKey slot := length (members st)]> (voters st)
                     | Some _ => voters st end →
          NoDup (map BLSPublicKey (slots ++ [slot])) →
          v' = list_to_map (imap (λ i s, (BLSPublicKey s, i)) (slots ++ [slot]))) as Hv'.
  { intros v' -> Hnd. rewrite map_app in Hnd. apply NoDup_app in Hnd as (Hnd & Hd & _).
    rewrite (Hv Hnd), imap_app. simpl.
    assert (list_to_map (M := gmap Z nat) (imap (λ i s, (BLSPublicKey s, i)) slots) !! BLSPublicKey slot = None) as Hnone.
    { apply not_elem_of_list_to_map_1. rewrite imap_keys. intros Hin. apply (Hd _ Hin). set_solver. }
    rewrite Hnone, list_to_map_app. simpl. rewrite <-insert_union_r by done. rewrite map_union_empty.
    by rewrite Hlen, Nat.add_0_r. }
  destruct (EffectiveStake slot) as [e|] eqn:E; simpl in Hs;
    apply bind_Some in Hs as (p & Hp%Add_inv & [= <-]); split; simpl; auto.
  - unfold groupSum in *. rewrite sumZ_app. simpl. rewrite Hh. simpl. lia.
  - unfold groupSum in *. rewrite sumZ_app. simpl. rewrite Hh. simpl. lia.
  - intros i [= <-]. exists m. split; [by apply list_lookup_middle|done].
  - split; [done|]. intros Hall. rewrite (Hall slot) in E by set_solver. done.
  - unfold groupSum in *. rewrite sumZ_app. simpl. rewrite Hh. simpl. lia.
  - unfold groupSum in *. rewrite sumZ_app. simpl. rewrite Hh. simpl. lia.
  - intros i Hi. destruct (Hl i Hi) as (m' & Hm1 & Hm2). exists m'. split; [by apply lookup_app_l_Some|done].
  - rewrite Hn. set_solver.
Qed.

Lemma computeLoop_inv member seen slots st st' :
  memberOk member → loopInv member seen st → computeLoop member st slots = Some st' →
  loopInv member (seen ++ slots) st'.
Proof.
  intros Hok. revert seen st. induction slots as [|slot slots IH]; intros seen st Hi Hl; simpl in Hl.
  { simplify_eq. by rewrite app_nil_r. }
  apply bind_Some in Hl as (st1 & Hs & Hl). rewrite (cons_middle slot seen slots), app_assoc.
  eapply IH; [|done]. by eapply computeStep_inv.
Qed.

Lemma loopInv_init member : loopInv member [] (mkCompute [] ∅ ZeroDec ZeroDec None).
Proof. split; try done. simpl. split; [intros _ s; set_solver|done]. Qed.

(** The members with the difference added to the last staked one. *)
Lemma adjust_spec member slots st st' :
  loopInv member slots st → adjust st = Some st' →
  voters st' = voters st ∧ length (members st') = length (members st) ∧
  map Identity (members st') = map Identity (members st) ∧
  ourPercentage st' = groupSum true (members st') ∧ theirPercentage st' = groupSum false (members st') ∧
  lastStakedVoter st' = lastStakedVoter st ∧
  (lastStakedVoter st ≠ None → ourPercentage st' + theirPercentage st' = OneDec).
Proof.
  intros [Hm Ho Ht Hl Hn Hv] Ha. unfold adjust in Ha.
  apply bind_Some in Ha as (sum & ->%Add_inv & Ha). apply bind_Some in Ha as (diff & Hd & Ha).
  apply checkBits_inv in Hd as [-> _]. set (diff := OneDec - (ourPercentage st + theirPercentage st)) in *.
  unfold IsZero in Ha. destruct (Z.eqb_spec (Z.sgn diff) 0) as [Hz|Hz]; simpl in Ha.
  { simplify_eq. split_and!; auto. intros _. lia. }
  destruct (lastStakedVoter st) as [i|] eqn:El; [|by simplify_eq; split_and!].
  apply bind_Some in Ha as (v & Hvi & Ha). apply bind_Some in Ha as (v' & Hv' & Ha).
  apply bind_Some in Ha as (their & ->%Add_inv & [= <-]). simpl.
  unfold addPercent in Hv'. apply bind_Some in Hv' as (ov & ->%Add_inv & [= <-]).
  destruct (Hl i eq_refl) as (v0 & Hv0 & Hh). simplify_eq.
  pose proof (take_drop_middle _ _ _ Hvi) as Hsplit.
  set (v' := mkVote _ _ _ _ _ _ _).
  assert (<[i:=v']> (members st) = take i (members st) ++ v' :: drop (S i) (members st)) as Hins.
  { apply insert_take_drop. by eapply lookup_lt_Some. }
  assert (∀ b, groupSum b (<[i:=v']> (members st)) = groupSum b (members st) + if b then 0 else diff) as Hgs.
  { intros b. rewrite Hins. rewrite <-Hsplit at 3. unfold groupSum. rewrite !sumZ_app. simpl.
    destruct b, (IsHarmonyNode v); simpl; try done; lia. }
  split_and!; [done|by rewrite length_insert| |rewrite Hgs; lia|rewrite Hgs; lia|done|lia].
  rewrite Hins. rewrite <-Hsplit at 3. rewrite !map_app. done.
Qed.

(** ** The sum over the voters *)
Lemma deref_zip slots st :
  NoDup (map BLSPublicKey slots) → length (members st) = length slots →
  voters st = list_to_map (imap (λ i s, (BLSPublicKey s, i)) slots) →
  deref st = list_to_map (zip (map BLSPublicKey slots) (members st)).
Proof.
  intros Hnd Hlen Hv. unfold deref. rewrite Hv.
  set (keys := map BLSPublicKey slots). assert (length keys = length (members st)) as Hlen' by (unfold keys; by rewrite length_map).
  apply map_eq. intros k. rewrite lookup_omap.
  destruct (list_to_map (imap (λ i s, (BLSPublicKey s, i)) slots) !! k) as [i|] eqn:E; simpl.
  - apply elem_of_list_to_map_2 in E. apply elem_of_lookup_imap in E as (j & s & [= -> ->] & Hj).
    destruct (lookup_lt_is_Some_2 (members st) j) as [m Hm]; [rewrite Hlen; by eapply lookup_lt_Some|].
    rewrite Hm. symmetry. apply elem_of_list_to_map_1; [by rewrite fst_zip by lia|].
    apply list_elem_of_lookup. exists j. rewrite lookup_zip_with. unfold keys.
    rewrite list_lookup_fmap, Hj. simpl. by rewrite Hm.
  - symmetry. apply not_elem_of_list_to_map_1. rewrite fst_zip by lia.
    apply not_elem_of_list_to_map_2 in E. by rewrite imap_keys in E.
Qed.

Lemma sumZ_zip_r {A B} (f : B → Z) (l : list A) (k : list B) :
  length l = length k → sumZ (λ p, f p.2) (zip l k) = sumZ f k.
Proof. revert k. induction l as [|a l IH]; intros [|b k] Hl; simpl in *; try done. rewrite IH; lia. Qed.

Lemma deref_sum (f : AccommodateHarmonyVote → Z) slots st :
  NoDup (map BLSPublicKey slots) → length (members st) = length slots →
  voters st = list_to_map (imap (λ i s, (BLSPublicKey s, i)) slots) →
  map_sum (λ _ v, f v) (deref st) = sumZ f (members st).
Proof.
  intros Hnd Hlen Hv. rewrite (deref_zip slots st Hnd Hlen Hv), map_sum_list_to_map.
  - rewrite (sumZ_zip_r f); [done|]. by rewrite length_map.
  - rewrite fst_zip by (rewrite length_map; lia). done.
Qed.

(** ** [Compute] *)
Section properties.
Context (InstanceForEpoch : Z → instance) (isTestnet : bool).

(** What a run of [Compute] outside the recovery window goes through. *)
Lemma Compute_inv subComm ep res :
  Compute InstanceForEpoch isTestnet subComm (Some ep) = res → inTestnetWindow isTestnet ep = false →
  res = Panic ∨
  ∃ member total count st st',
    memberOk member ∧ loopInv member (Slots subComm) st ∧ adjust st = Some st' ∧
    ∃ bad, notOne st' = Some bad ∧
      res = if bad then Err ErrVotingPowerNotEqualOne else Ok (finishRoster subComm total count st').
Proof.
  intros <- Hw. unfold Compute. destruct (countSlots (Slots subComm)) as [[total count]|]; simpl; [|by left].
  unfold votePercents. rewrite Hw.
  set (member := computeMember _ _ _ _).
  destruct (computeLoop member _ (Slots subComm)) as [st|] eqn:E; simpl; [|by left].
  destruct (adjust st) as [st'|] eqn:Ea; simpl; [|by left].
  destruct (notOne st') as [bad|] eqn:En; simpl; [|by left]. right.
  exists member, total, count, st, st'. split_and!; [apply computeMember_ok| |done|eauto].
  apply (computeLoop_inv member [] (Slots subComm) _ st (computeMember_ok _ _ _ _) (loopInv_init _) E).
Qed.

Lemma Compute_notOne member slots st st' bad :
  loopInv member slots st → adjust st = Some st' → notOne st' = Some bad → bad = false.
Proof.
  intros Hi Ha Hn. destruct (adjust_spec member slots st st' Hi Ha) as (_ & _ & _ & _ & _ & Hlast & Hone).
  unfold notOne in Hn. rewrite Hlast in Hn. destruct (lastStakedVoter st) eqn:E; [|by simplify_eq].
  apply bind_Some in Hn as (s & ->%Add_inv & [= <-]). rewrite Hone by done.
  unfold Equal. by rewrite Z.compare_refl.
Qed.

(** Outside the testnet's recovery window [Compute] never returns
    [ErrVotingPowerNotEqualOne]: the adjustment makes the two totals sum to one. *)
Theorem Compute_never_NotEqualOne subComm ep :
  inTestnetWindow isTestnet ep = false →
  Compute InstanceForEpoch isTestnet subComm (Some ep) ≠ Err ErrVotingPowerNotEqualOne.
Proof.
  intros Hw Hc. destruct (Compute_inv _ _ _ Hc Hw) as [|(mb & t & c & st & st' & Hok & Hi & Ha & bad & Hb & Hr)];
    [done|]. rewrite (Compute_notOne _ _ _ _ _ Hi Ha Hb) in Hr. done.
Qed.

(** C22: the roster of a committee with distinct BLS keys, outside the testnet's recovery window:
    the shares of the Harmony nodes sum to [OurVotingPowerTotalPercentage], those of the staked
    voters to [TheirVotingPowerTotalPercentage], and with at least one staked slot the shares of
    all voters sum to exactly one.  (Without a staked slot nothing is adjusted, and there are no
    staked voters.) *)
Theorem Compute_power_one subComm ep r :
  inTestnetWindow isTestnet ep = false → NoDup (map BLSPublicKey (Slots subComm)) →
  Compute InstanceForEpoch isTestnet subComm (Some ep) = Ok r →
  map_sum (λ _ v, if IsHarmonyNode v then OverallPercent v else 0) (Voters r) = OurVotingPowerTotalPercentage r ∧
  map_sum (λ _ v, if IsHarmonyNode v then 0 else OverallPercent v) (Voters r) = TheirVotingPowerTotalPercentage r ∧
  ((∃ s, s ∈ Slots subComm ∧ EffectiveStake s ≠ None) → map_sum (λ _ v, OverallPercent v) (Voters r) = OneDec).
Proof.
  intros Hw Hnd Hc.
  destruct (Compute_inv _ _ _ Hc Hw) as [|(mb & t & c & st & st' & Hok & Hi & Ha & bad & Hb & Hr)]; [done|].
  rewrite (Compute_notOne _ _ _ _ _ Hi Ha Hb) in Hr. injection Hr as ->. simpl.
  destruct (adjust_spec _ _ _ _ Hi Ha) as (Hv & Hlen & _ & Hour & Htheir & _ & Hone).
  destruct Hi as [Hm _ _ _ Hn Hv0]. apply length_mapM in Hm. specialize (Hv0 Hnd).
  assert (∀ f, map_sum (λ _ v, f v) (deref st') = sumZ f (members st')) as Hsum.
  { intros f. apply (deref_sum f (Slots subComm)); [done|congruence|congruence]. }
  rewrite (Hsum OverallPercent), (Hsum (λ v, if IsHarmonyNode v then OverallPercent v else 0)),
    (Hsum (λ v, if IsHarmonyNode v then 0 else OverallPercent v)).
  split_and!; [rewrite Hour|rewrite Htheir|]; [apply sumZ_ext; intros v _; by destruct (IsHarmonyNode v)..|].
  intros (s & Hs & Hse). assert (lastStakedVoter st ≠ None) as Hl by (rewrite Hn; intros Hall; by apply Hse, Hall).
  pose proof (groupSum_total (members st')) as Htot. unfold totalSum in Htot. specialize (Hone Hl). lia.
Qed.
End properties.

(** ** Shares follow the stakes *)

(** [P] as a literal for [lia]. *)
Abbreviation P18 := 1000000000000000000.

Lemma chopRound_range x n : 0 ≤ x ≤ n * precisionReuse → 0 ≤ chopPrecisionAndRound x ≤ n.
Proof.
  intros [H0 H1]. split; [by apply chopRound_nonneg|].
  rewrite <-(chopRound_exact n). by apply chopRound_mono.
Qed.

(** A quotient of non-negative decimals: it exists and is at most [n] when [d <= n d2]. *)
Lemma Quo_range d d2 n : 0 ≤ d → 0 < d2 → d * precisionReuse ≤ n * d2 → 0 ≤ n < 2 ^ 315 →
  ∃ q, Quo d d2 = Some q ∧ 0 ≤ q ≤ n.
Proof.
  intros Hd Hd2 Hn Hb. unfold Quo, bigQuo. destruct (Z.eqb_spec d2 0); [lia|]. simpl.
  pose proof precisionReuse_val as HP.
  set (x := Z.quot (d * precisionReuse * precisionReuse) d2).
  assert (0 ≤ x ≤ n * precisionReuse) as Hx.
  { unfold x. rewrite Z.quot_div_nonneg by nia. split; [apply Z.div_pos; nia|].
    apply Z.div_le_upper_bound; [lia|]. nia. }
  pose proof (chopRound_range x n Hx) as Hq. exists (chopPrecisionAndRound x). split; [|done].
  apply checkBits_Some. lia.
Qed.

Lemma Mul_range d d2 n : 0 ≤ d → 0 ≤ d2 → d * d2 ≤ n * precisionReuse → 0 ≤ n < 2 ^ 315 →
  ∃ q, Mul d d2 = Some q ∧ 0 ≤ q ≤ n ∧ 2 * Z.abs (q * precisionReuse - d * d2) ≤ precisionReuse.
Proof.
  intros Hd Hd2 Hn Hb. pose proof (chopRound_range (d * d2) n ltac:(nia)) as Hq.
  exists (chopPrecisionAndRound (d * d2)). unfold Mul. split_and!; [apply checkBits_Some; lia|lia|lia|].
  destruct (proj1 (chopRound_spec (d * d2) _) eq_refl) as [?|[? _]]; lia.
Qed.

(** How far a member's share may be from the configured one, in units of 10^-18. *)
Definition shareOk (total count hp ep : Z) (slack : Z) (s : Slot) (m : AccommodateHarmonyVote) : Prop :=
  match EffectiveStake s with
  | Some e => Z.abs (OverallPercent m * total - e * ep) ≤ (2 + slack) * total
  | None => Z.abs (OverallPercent m * count - hp) ≤ count
  end.

Lemma memberStaked_share total e ep :
  0 < e ≤ total → 0 ≤ ep ≤ OneDec →
  ∃ g o, Quo e total = Some g ∧ Mul g ep = Some o ∧ 0 ≤ o ≤ OneDec ∧
         Z.abs (o * total - e * ep) ≤ 2 * total.
Proof.
  unfold OneDec. intros He Hep. pose proof precisionReuse_val as HP.
  destruct (Quo_range e total precisionReuse) as (g & Hg & Hgr); [lia|lia|nia|rewrite HP; lia|].
  destruct (Mul_range g ep precisionReuse) as (o & Ho & Hor & Herr); [lia|lia|nia|rewrite HP; lia|].
  exists g, o. split_and!; [done|done|lia|lia|].
  pose proof (Quo_error_bound e total g Hg) as Hq. rewrite HP in *.
  rewrite (Z.abs_eq total) in Hq by lia.
  assert (2 * P18 * Z.abs ((g * total - e * P18) * ep) ≤ total * (P18 + 2) * ep) as H1
    by (rewrite Z.abs_mul, (Z.abs_eq ep) by lia; nia).
  assert (2 * Z.abs ((o * P18 - g * ep) * total) ≤ P18 * total) as H2
    by (rewrite Z.abs_mul, (Z.abs_eq total) by lia; nia).
  assert (P18 * (o * total - e * ep) = (o * P18 - g * ep) * total + (g * total - e * P18) * ep) as Heq
    by ring.
  nia.
Qed.

Lemma memberHarmony_share count hp :
  0 < count < 2 ^ 63 → 0 < hp ≤ OneDec →
  ∃ o g, Quo hp (count * precisionReuse) = Some o ∧ Quo o hp = Some g ∧ 0 ≤ o ≤ OneDec ∧
         Z.abs (o * count - hp) ≤ count.
Proof.
  unfold OneDec. intros Hc Hhp. pose proof precisionReuse_val as HP.
  destruct (Quo_range hp (count * precisionReuse) precisionReuse) as (o & Ho & Hor); [lia|lia|nia|rewrite HP; lia|].
  destruct (Quo_range o hp (precisionReuse * precisionReuse)) as (g & Hg & _); [lia|lia|nia|rewrite HP; lia|].
  exists o, g. split_and!; [done|done|lia|lia|].
  pose proof (Quo_error_bound hp _ o Ho) as Hq. rewrite HP in *.
  replace (o * (count * P18) - hp * P18) with ((o * count - hp) * P18) in Hq by ring.
  rewrite !Z.abs_mul, (Z.abs_eq count), (Z.abs_eq P18) in Hq by lia. lia.
Qed.

(** A committee whose roster is well defined: positive stakes of moderate size, and both
    groups non-empty. *)
Record goodSlots (slots : SlotList) : Prop := {
  gs_stakes : ∀ s e, s ∈ slots → EffectiveStake s = Some e → 0 < e < 2 ^ 200;
  gs_length : Z.of_nat (length slots) < 2 ^ 63;
  gs_staked : ∃ s, s ∈ slots ∧ EffectiveStake s ≠ None;
  gs_harmony : ∃ s, s ∈ slots ∧ EffectiveStake s = None;
}.

Definition hmyCount (slots : SlotList) : Z := sumZ (λ s, if isStaked s then 0 else 1) slots.
Definition stakeTotal (slots : SlotList) : Z := sumZ stakeOf slots.

Lemma sumZ_bounds {A} (f : A → Z) l b :
  (∀ x, x ∈ l → 0 ≤ f x ≤ b) → 0 ≤ sumZ f l ≤ b * Z.of_nat (length l).
Proof.
  induction l as [|x l IH]; intros Hf; simpl; [lia|].
  pose proof (Hf x ltac:(set_solver)). pose proof (IH ltac:(set_solver)). lia.
Qed.

Lemma sumZ_elem {A} (f : A → Z) l x : (∀ y, y ∈ l → 0 ≤ f y) → x ∈ l → f x ≤ sumZ f l.
Proof.
  induction l as [|y l IH]; intros Hf Hx; [set_solver|]. simpl.
  apply elem_of_cons in Hx as [->|Hx].
  - assert (0 ≤ sumZ f l) by (apply sumZ_nonneg; set_solver). lia.
  - specialize (IH ltac:(set_solver) Hx). pose proof (Hf y ltac:(set_solver)). lia.
Qed.

Lemma stakeOf_range (slots : SlotList) s : (∀ s e, s ∈ slots → EffectiveStake s = Some e → 0 < e < 2 ^ 200) →
  s ∈ slots → 0 ≤ stakeOf s ≤ 2 ^ 200.
Proof. intros H Hs. unfold stakeOf. destruct (EffectiveStake s) as [e|] eqn:E; simpl; [|lia]. pose proof (H s e Hs E). lia. Qed.

Lemma countSlots_spec slots : goodSlots slots → countSlots slots = Some (stakeTotal slots, hmyCount slots).
Proof.
  intros [Hst Hlen _ _]. unfold countSlots, ZeroDec.
  assert (∀ t c, 0 ≤ t → t + 2 ^ 200 * Z.of_nat (length slots) < 2 ^ 315 →
    foldl countStep (Some (t, c)) slots = Some (t + stakeTotal slots, c + hmyCount slots)) as Hgen.
  { clear Hlen. unfold stakeTotal, hmyCount.
    induction slots as [|s slots IH]; intros t c Ht Hb; simpl; [by rewrite !Z.add_0_r|].
    pose proof (stakeOf_range (s :: slots) s Hst ltac:(set_solver)) as Hs.
    simpl in Hb. unfold stakeOf, isStaked in *. destruct (EffectiveStake s) as [e|]; simpl in *.
    - unfold Add. rewrite checkBits_Some by lia. simpl. rewrite IH; [do 2 f_equal; lia|set_solver|lia|lia].
    - rewrite IH; [do 2 f_equal; lia|set_solver|lia|lia]. }
  rewrite Hgen by lia. done.
Qed.

Lemma computeLoop_total member slots st :
  (∀ s, s ∈ slots → ∃ m, member s = Some m ∧ 0 ≤ OverallPercent m ≤ OneDec) →
  0 ≤ ourPercentage st → 0 ≤ theirPercentage st →
  ourPercentage st + theirPercentage st + OneDec * Z.of_nat (length slots) < 2 ^ 315 →
  is_Some (computeLoop member st slots).
Proof.
  revert st. induction slots as [|s slots IH]; intros st Hm Ho Ht Hb; simpl; [done|].
  destruct (Hm s ltac:(set_solver)) as (m & Hms & Hmr). unfold computeStep. rewrite Hms. simpl. simpl in Hb.
  unfold OneDec in *. rewrite precisionReuse_val in *.
  destruct (EffectiveStake s); unfold Add; rewrite checkBits_Some by lia; simpl;
    (apply IH; [set_solver|simpl; lia|simpl; lia|simpl; lia]).
Qed.

Section shares.
Context (slots : SlotList) (hp ep : Z).
Context (Hgood : goodSlots slots) (Hhp : 0 < hp ≤ OneDec) (Hep : 0 ≤ ep) (Hone : hp + ep = OneDec).

Let total := stakeTotal slots.
Let count := hmyCount slots.
Let member := computeMember total (count * precisionReuse) hp ep.

(** What is known of each member before the adjustment. *)
Definition memberGood (s : Slot) (m : AccommodateHarmonyVote) : Prop :=
  IsHarmonyNode m = negb (isStaked s) ∧ 0 ≤ OverallPercent m ≤ OneDec ∧ shareOk total count hp ep 0 s m.

Lemma count_range : 0 < count ≤ Z.of_nat (length slots).
Proof.
  unfold count, hmyCount. split.
  - destruct (gs_harmony _ Hgood) as (s & Hs & He).
    pose proof (sumZ_elem (λ s, if isStaked s then 0 else 1) slots s) as Hle.
    unfold isStaked at 2 in Hle. rewrite He in Hle. apply Hle in Hs; [lia|]. intros y _. by destruct (isStaked y).
  - pose proof (sumZ_bounds (λ s, if isStaked s then 0 else 1) slots 1) as H.
    rewrite Z.mul_1_l in H. apply H. intros x _. by destruct (isStaked x).
Qed.

Lemma stake_le_total s e : s ∈ slots → EffectiveStake s = Some e → 0 < e ≤ total.
Proof.
  intros Hs He. split; [by eapply gs_stakes|]. unfold total, stakeTotal.
  replace e with (stakeOf s) by (unfold stakeOf; by rewrite He).
  apply sumZ_elem; [|done]. intros y Hy. by eapply stakeOf_range; [eapply gs_stakes|].
Qed.

Lemma member_good s : s ∈ slots → ∃ m, member s = Some m ∧ memberGood s m.
Proof.
  intros Hs. pose proof count_range as Hc. pose proof (gs_length _ Hgood) as Hl. unfold member, computeMember, memberGood, shareOk, isStaked.
  destruct (EffectiveStake s) as [e|] eqn:E.
  - pose proof (stake_le_total s e Hs E) as He. pose proof (gs_stakes _ Hgood s e Hs E).
    destruct (memberStaked_share total e ep He) as (g & o & Hg & Ho & Hor & Herr); [lia|].
    unfold Add, ZeroDec. rewrite checkBits_Some by lia. simpl. rewrite Hg. simpl. rewrite Ho. simpl.
    eexists. split; [done|]. simpl. split_and!; done || lia.
  - destruct (memberHarmony_share count hp) as (o & g & Ho & Hg & Hor & Herr); [lia|done|].
    rewrite Ho. simpl. rewrite Hg. simpl. eexists. split; [done|]. simpl. split_and!; done || lia.
Qed.

(** The sums of the two groups are close to the configured percentages. *)
Lemma groupSum_close ms :
  Forall2 memberGood slots ms →
  Z.abs (groupSum true ms - hp) ≤ count ∧
  Z.abs (groupSum false ms - ep) ≤ 2 * (Z.of_nat (length slots) - count).
Proof.
  intros Hms. pose proof count_range as Hc.
  assert (0 < total) as Ht.
  { destruct (gs_staked _ Hgood) as (s & Hs & He). destruct (EffectiveStake s) as [e|] eqn:E; [|done].
    pose proof (stake_le_total s e Hs E). lia. }
  assert (∀ l ms, Forall2 memberGood l ms →
    Z.abs (groupSum true ms * count - hmyCount l * hp) ≤ hmyCount l * count ∧
    Z.abs (groupSum false ms * total - stakeTotal l * ep) ≤ 2 * (Z.of_nat (length l) - hmyCount l) * total) as Hgen.
  { clear Hms ms. induction 1 as [|s m l ms (Hh & Ho & Hsh) _ [IH1 IH2]]; [done|].
    unfold groupSum, hmyCount, stakeTotal, stakeOf, shareOk in *. simpl. rewrite Hh. unfold isStaked in *.
    destruct (EffectiveStake s) as [e|]; simpl in *; split; nia. }
  destruct (Hgen slots ms Hms) as [H1 H2]. fold total in H2. fold count in H1, H2.
  replace (groupSum true ms * count - count * hp) with ((groupSum true ms - hp) * count) in H1 by ring.
  replace (groupSum false ms * total - total * ep) with ((groupSum false ms - ep) * total) in H2 by ring.
  rewrite Z.abs_mul, (Z.abs_eq count) in H1 by lia. rewrite Z.abs_mul, (Z.abs_eq total) in H2 by lia.
  split; nia.
Qed.

Lemma Forall2_mapM_good ms : mapM member slots = Some ms → Forall2 memberGood slots ms.
Proof.
  rewrite mapM_Some. intros Hms. apply Forall2_same_length_lookup. split; [by eapply Forall2_length|].
  intros i s m Hs Hm. pose proof (Forall2_lookup_lr _ _ _ _ _ _ Hms Hs Hm) as Hmem.
  destruct (member_good s) as (m' & Hm' & Hg); [by eapply list_elem_of_lookup_2|]. congruence.
Qed.

Lemma adjust_total st :
  loopInv member slots st →
  ∃ st', adjust st = Some st' ∧ notOne st' = Some false ∧
    Forall2 (shareOk total count hp ep (2 * Z.of_nat (length slots))) slots (members st').
Proof.
  intros Hi. pose proof (Forall2_mapM_good _ (li_members _ _ _ Hi)) as Hms.
  destruct (groupSum_close _ Hms) as [H1 H2]. pose proof count_range as Hc. pose proof (gs_length _ Hgood) as Hl.
  rewrite <-(li_our _ _ _ Hi) in H1. rewrite <-(li_their _ _ _ Hi) in H2.
  set (our := ourPercentage st) in *. set (their := theirPercentage st) in *.
  pose proof precisionReuse_val as HP. unfold OneDec in *.
  set (diff := precisionReuse - (our + their)).
  assert (Z.abs diff ≤ 2 * Z.of_nat (length slots)) as Hd by (unfold diff; lia).
  assert (∀ s m, memberGood s m → shareOk total count hp ep (2 * Z.of_nat (length slots)) s m) as Hweak.
  { intros s m (_ & _ & Hs). unfold shareOk in *. destruct (EffectiveStake s) as [e|]; [|done].
    pose proof (sumZ_nonneg stakeOf slots). assert (0 ≤ total); [|nia].
    apply sumZ_nonneg. intros y Hy. eapply stakeOf_range; [eapply gs_stakes; done|done]. }
  assert (∃ st', adjust st = Some st' ∧
    Forall2 (shareOk total count hp ep (2 * Z.of_nat (length slots))) slots (members st')) as (st' & Ha & Hsh).
  { unfold adjust. fold our their.
    assert (Add our their = Some (our + their)) as -> by (apply checkBits_Some; lia). simpl.
    assert (Sub OneDec (our + their) = Some diff) as -> by (apply checkBits_Some; unfold OneDec; lia). simpl.
    assert (Forall2 (shareOk total count hp ep (2 * Z.of_nat (length slots))) slots (members st)) as Hkeep
      by (eapply Forall2_impl; [exact Hms|exact Hweak]).
    destruct (negb (IsZero diff)), (lastStakedVoter st) as [i|] eqn:El;
      [|exists st; split; [reflexivity|exact Hkeep]..].
    destruct (li_last _ _ _ Hi i El) as (m & Hm & Hh). rewrite Hm. simpl.
    destruct (Forall2_lookup_r _ _ _ _ _ Hms Hm) as (s & Hs & Hmh & Hmo & Hmsh).
    unfold addPercent, Add, OneDec in *. rewrite checkBits_Some by lia. simpl. rewrite checkBits_Some by lia. simpl.
    eexists. split; [done|]. simpl. rewrite <-(list_insert_id _ _ _ Hs).
    rewrite (list_insert_id _ _ _ Hs) at 1. apply Forall2_insert; [done|].
    unfold shareOk in *. unfold isStaked in Hmh. destruct (EffectiveStake s) as [e|] eqn:Ee; [|simpl in Hmh; congruence].
    simpl. pose proof (stake_le_total s e (list_elem_of_lookup_2 _ _ _ Hs) Ee). nia. }
  exists st'. split_and!; [done| |done].
  destruct (adjust_spec _ _ _ _ Hi Ha) as (_ & _ & _ & _ & _ & Hlast & Hsum).
  unfold notOne. destruct (lastStakedVoter st') eqn:E; [|done]. rewrite <-Hlast in Hsum.
  apply bind_Some. exists OneDec. rewrite <-(Hsum ltac:(done)) at 2. split; [|by rewrite (Hsum ltac:(done))].
  unfold Add. rewrite (Hsum ltac:(done)). apply checkBits_Some. unfold OneDec. lia.
Qed.
End shares.

(** On a committee with distinct keys, positive stakes and both groups non-empty, and a
    configuration whose percentages sum to one, [Compute] does not panic or fail, and the
    voting power follows the stakes: each staked voter's share is the external percentage
    times its part of the total stake, and each Harmony node's share the Harmony percentage
    divided by the number of Harmony slots, up to rounding of at most [2 n + 2] units of
    10^-18 for [n] slots. *)
Theorem Compute_proportional (InstanceForEpoch : Z → instance) isTestnet subComm ep :
  let slots := Slots subComm in
  let sc := InstanceForEpoch ep in
  inTestnetWindow isTestnet ep = false → goodSlots slots → NoDup (map BLSPublicKey slots) →
  0 < harmonyVotePercent sc → 0 ≤ externalVotePercent sc →
  harmonyVotePercent sc + externalVotePercent sc = OneDec →
  ∃ r, Compute InstanceForEpoch isTestnet subComm (Some ep) = Ok r ∧
    ∀ s, s ∈ slots → ∃ v, Voters r !! BLSPublicKey s = Some v ∧
      shareOk (stakeTotal slots) (hmyCount slots) (harmonyVotePercent sc) (externalVotePercent sc)
        (2 * Z.of_nat (length slots)) s v.
Proof.
  intros slots sc Hw Hgood Hnd Hhp Hep Hone. unfold Compute. fold slots.
  rewrite (countSlots_spec slots Hgood). simpl. unfold votePercents. rewrite Hw. fold sc.
  change (hmyCount slots * _) with (hmyCount slots * precisionReuse).
  set (member := computeMember _ _ _ _).
  assert (0 < harmonyVotePercent sc ≤ OneDec) as Hhp' by lia.
  destruct (computeLoop_total member slots (mkCompute [] ∅ ZeroDec ZeroDec None)) as [st Hst].
  { intros s Hs. destruct (member_good slots _ _ Hgood Hhp' Hep Hone s Hs) as (m & Hm & _ & Hr & _). eauto. }
  { done. } { done. }
  { simpl. pose proof (gs_length _ Hgood). unfold OneDec, ZeroDec. rewrite precisionReuse_val. lia. }
  rewrite Hst. simpl.
  pose proof (computeLoop_inv member [] slots _ st (computeMember_ok _ _ _ _) (loopInv_init _) Hst) as Hi.
  simpl in Hi. destruct (adjust_total slots _ _ Hgood Hhp' Hep Hone st Hi) as (st' & Ha & Hn & Hsh).
  rewrite Ha. simpl. rewrite Hn. simpl. eexists. split; [done|].
  destruct (adjust_spec _ _ _ _ Hi Ha) as (Hv & Hlen & _). rewrite (li_voters _ _ _ Hi Hnd) in Hv.
  intros s Hs. simpl. rewrite (deref_zip slots st' Hnd) by (done || by rewrite (Forall2_length _ _ _ Hsh)).
  apply list_elem_of_lookup in Hs as [i Hi'].
  destruct (Forall2_lookup_l _ _ _ _ _ Hsh Hi') as (v & Hvi & Hok). exists v. split; [|done].
  apply elem_of_list_to_map_1.
  { rewrite fst_zip; [done|]. rewrite length_map. by rewrite (Forall2_length _ _ _ Hsh). }
  apply list_elem_of_lookup. exists i. by rewrite lookup_zip_with, list_lookup_fmap, Hi', Hvi.
Qed.

(** ** Power of a mask *)

(** The share of a key that the mask enables and the roster knows. *)
Definition maskShare {G} (r : Roster) (mask : Mask G) (k : SerializedPublicKey) (i : Z) : Z :=
  match IndexEnabled mask i with
  | Ok true => match Voters r !! k with Some v => OverallPercent v | None => 0 end
  | _ => 0
  end.

(** [VotePowerByMask] is the sum of the shares, whatever the order in which Go walks the map. *)
Lemma VotePowerByMask_sum {G} (r : Roster) (mask : Mask G) d :
  VotePowerByMask r mask = Some d → d = map_sum (maskShare r mask) (PublicsIndex mask).
Proof.
  unfold VotePowerByMask, map_sum, ZeroDec. rewrite <-(Z.add_0_l (sumZ _ _)). generalize 0 as acc.
  induction (map_to_list (PublicsIndex mask)) as [|[k i] l IH]; intros acc Hf.
  { simpl in Hf. simplify_eq. simpl. lia. }
  rewrite sumZ_cons. cbn [foldl] in Hf. unfold maskStep at 2 in Hf. unfold maskShare at 1. simpl in Hf. simpl (_.1).
  simpl (_.2).
  assert (∀ l, foldl (maskStep r mask) None l = None) as HN by (clear; induction l; done).
  destruct (IndexEnabled mask i) as [[]| |]; [|apply IH in Hf; lia|apply IH in Hf; lia|by rewrite HN in Hf].
  destruct (Voters r !! k) as [v|]; [|apply IH in Hf; lia].
  destruct (Add acc (OverallPercent v)) as [a|] eqn:Ea; [|by rewrite HN in Hf].
  apply Add_inv in Ea as ->. apply IH in Hf. lia.
Qed.

(** ** Concrete rosters *)
Definition demoInstance : instance :=
  mkInstance 4 250 170 680000000000000000 320000000000000000 [] [] [] 32768.
Definition demoCommittee : Committee :=
  mkCommittee 1 [mkSlot 1 11 None; mkSlot 2 12 None; mkSlot 3 13 None;
                 mkSlot 4 14 (Some 1000); mkSlot 5 15 (Some 2000)].

Lemma demoCommittee_good : goodSlots (Slots demoCommittee).
Proof.
  split; [|vm_compute; reflexivity| |].
  - intros s e Hs He. simpl in Hs. set_unfold in Hs. destruct_or! Hs; subst; simpl in He; simplify_eq; lia.
  - exists (mkSlot 4 14 (Some 1000)). split; [simpl; set_solver|done].
  - exists (mkSlot 1 11 None). split; [simpl; set_solver|done].
Qed.

Lemma demoCommittee_NoDup : NoDup (map BLSPublicKey (Slots demoCommittee)).
Proof. apply (bool_decide_unpack _). vm_compute. exact I. Qed.

Lemma Compute_never_NotEqualOne_witness :
  Compute (λ _, demoInstance) false demoCommittee (Some 5) ≠ Err ErrVotingPowerNotEqualOne.
Proof. apply (Compute_never_NotEqualOne (λ _, demoInstance) false demoCommittee 5). reflexivity. Defined.

Lemma Compute_power_one_witness :
  ∃ r, Compute (λ _, demoInstance) false demoCommittee (Some 5) = Ok r ∧
       map_sum (λ _ v, OverallPercent v) (Voters r) = OneDec.
Proof.
  destruct (Compute (λ _, demoInstance) false demoCommittee (Some 5)) as [r| |] eqn:E;
    [|vm_compute in E; discriminate..].
  exists r. split; [reflexivity|].
  apply (Compute_power_one (λ _, demoInstance) false demoCommittee 5 r);
    [reflexivity|apply demoCommittee_NoDup|exact E|apply demoCommittee_good].
Defined.

Lemma Compute_proportional_witness :
  ∃ r, Compute (λ _, demoInstance) false demoCommittee (Some 5) = Ok r ∧
       is_Some (Voters r !! 14).
Proof.
  assert (mkSlot 4 14 (Some 1000) ∈ Slots demoCommittee) as Hin by (simpl; set_solver).
  destruct (Compute_proportional (λ _, demoInstance) false demoCommittee 5) as (r & Hr & Hv);
    [reflexivity|apply demoCommittee_good|apply demoCommittee_NoDup|reflexivity|discriminate|reflexivity|].
  exists r. split; [exact Hr|].
  pose proof (Hv (mkSlot 4 14 (Some 1000)) Hin) as (v & Hk & _). exists v. exact Hk.
Defined.

(** Duplicate BLS keys.  The second slot of a key is counted in the totals but has no
    voter: here [Compute] succeeds with totals that sum to one, while the shares of the
    voters sum to less, and the adjustment went to a member no voter points to. *)
Theorem Compute_duplicate_keys :
  ∃ r, Compute (λ _, demoInstance) false
         (mkCommittee 1 [mkSlot 1 11 None; mkSlot 4 14 (Some 1000); mkSlot 5 14 (Some 2000)]) (Some 5) = Ok r ∧
       OurVotingPowerTotalPercentage r + TheirVotingPowerTotalPercentage r = OneDec ∧
       map_sum (λ _ v, OverallPercent v) (Voters r) < OneDec.
Proof.
  destruct (Compute _ _ _ _) as [r| |] eqn:E; [|vm_compute in E; discriminate..].
  exists r. split; [done|]. vm_compute in E. injection E as <-. vm_compute. done.
Qed.
