(* ===== verification/Quorum.v ===== *)
(** * Quorum ([consensus/quorum])

    The tracker of votes of one consensus instance ([cIdentities]), the two deciders built
    on it ([uniformVoteWeight], [stakedVoteWeight]) and the verifiers of [verifier.go].  BLS
    signatures are the interface [BlsSign].  The rounds are values: [cIdentities] owns its
    [Round]s and replaces them on [reset]; a ballot is written once and then only read.
    Logging and JSON are left out. *)

From Stdlib Require Import ZArith Lia.
From stdpp Require Import base gmap list option sets.
From S2P Require Import Prelude Decimal Mask ShardState Votepower.
Local Open Scope Z_scope.

(** ** Signatures *)
Class BlsSign (Sg : Type) := {
  sigZero : Sg;
  sigAdd : Sg → Sg → Sg;
  (** [common.Hex2Bytes(sig.SerializeToHexStr())] *)
  SerializeSig : Sg → bytes;
  (** [sig.DeserializeHexStr(common.Bytes2Hex(b))] on a zero signature, its error ignored. *)
  DeserializeSig : bytes → Sg;
}.

(** Signature addition is a commutative monoid, and serialization loses nothing. *)
Class BlsSignLaws (Sg : Type) `{BlsSign Sg} := {
  sigAdd_comm : ∀ a b, sigAdd a b = sigAdd b a;
  sigAdd_assoc : ∀ a b c, sigAdd a (sigAdd b c) = sigAdd (sigAdd a b) c;
  sigAdd_zero : ∀ a, sigAdd sigZero a = a;
  Deserialize_Serialize : ∀ s, DeserializeSig (SerializeSig s) = s;
}.

(** ** Phases and policies *)
Inductive Phase := Prepare | Commit | ViewChange | UnknownPhase (b : Z).
Inductive Policy := SuperMajorityVote | SuperMajorityStake | UnknownPolicy (b : Z).

#[global] Instance Phase_eq_dec : EqDecision Phase.
Proof. solve_decision. Defined.

Inductive quorumError :=
| errDuplicateKey (k : SerializedPublicKey)
| errAlreadySubmitted (k : SerializedPublicKey)
| errPhaseUnknown
| errSignerNotInCommittee (k : SerializedPublicKey)
| errMultipleAccounts (a b : Address)
| errWrongPhase
| errRoster (e : rosterError)
| errKey.

Section Quorum.
Context {G Sg : Type} `{BlsKey G} `{BlsSign Sg}.

(** ** The vote tracker *)
Record Round := mkRound { AggregatedVote : Sg; BallotBox : gmap SerializedPublicKey Ballot }.
Definition NewRound : Round := mkRound sigZero ∅.

Record cIdentities := mkIdentities {
  publicKeys : list (PublicKeyWrapper G);
  keyIndexMap : gmap SerializedPublicKey Z;
  prepare : Round;
  commit : Round;
  viewChange : Round;
}.

Definition newBallotsBackedSignatureReader : cIdentities :=
  mkIdentities [] ∅ NewRound NewRound NewRound.

(** The ballot box the [switch] of a phase selects; an unknown phase has an empty map. *)
Definition boxOf (s : cIdentities) (p : Phase) : gmap SerializedPublicKey Ballot :=
  match p with
  | Prepare => BallotBox (prepare s)
  | Commit => BallotBox (commit s)
  | ViewChange => BallotBox (viewChange s)
  | UnknownPhase _ => ∅
  end.

Definition ReadBallot (s : cIdentities) (p : Phase) (pubkey : SerializedPublicKey) : option Ballot :=
  boxOf s p !! pubkey.

Definition ReadAllBallots (s : cIdentities) (p : Phase) : list Ballot :=
  map snd (map_to_list (boxOf s p)).

Definition SignersCount (s : cIdentities) (p : Phase) : Z :=
  match p with
  | Prepare => Z.of_nat (size (BallotBox (prepare s)))
  | Commit => Z.of_nat (size (BallotBox (commit s)))
  | ViewChange => Z.of_nat (size (BallotBox (viewChange s)))
  | UnknownPhase _ => 0
  end.

Definition ParticipantsCount (s : cIdentities) : Z := Z.of_nat (length (publicKeys s)).
Definition TwoThirdsSignersCount (s : cIdentities) : Z := Z.quot (ParticipantsCount s * 2) 3 + 1.
Definition Participants (s : cIdentities) : list (PublicKeyWrapper G) := publicKeys s.

Definition IndexOf (s : cIdentities) (pubKey : SerializedPublicKey) : Z :=
  match keyIndexMap s !! pubKey with Some index => index | None => -1 end.

(** [x % y] of Go and the element access [publicKeys[idx]]: both can panic. *)
Definition keyAt (keys : list (PublicKeyWrapper G)) (idx : Z) : option (PublicKeyWrapper G) :=
  if idx <? 0 then None else keys !! Z.to_nat idx.

Definition nthKey (s : cIdentities) (numNodes : Z) (pubKey : PublicKeyWrapper G) (next : Z)
    : option (bool * PublicKeyWrapper G) :=
  let idx := IndexOf s (Bytes pubKey) in
  let found := negb (idx =? -1) in
  let len := Z.of_nat (length (publicKeys s)) in
  let numNodes := if (numNodes <=? 0) || (numNodes >? len) then len else numNodes in
  if numNodes =? 0 then None
  else
    key ← keyAt (publicKeys s) (Z.rem (idx + next) numNodes);
    Some (found, key).

Definition NthNext (s : cIdentities) (pubKey : PublicKeyWrapper G) (next : Z)
    : option (bool * PublicKeyWrapper G) := nthKey s (ParticipantsCount s) pubKey next.

Definition NthNextHmy (s : cIdentities) (sc : instance) (pubKey : PublicKeyWrapper G) (next : Z)
    : option (bool * PublicKeyWrapper G) := nthKey s (numHarmonyOperatedNodesPerShard sc) pubKey next.

Definition FirstParticipant (s : cIdentities) : option (PublicKeyWrapper G) := publicKeys s !! 0%nat.

Definition UpdateParticipants (s : cIdentities) (pubKeys : list (PublicKeyWrapper G)) : cIdentities :=
  mkIdentities pubKeys (indexFrom 0 pubKeys ∅) (prepare s) (commit s) (viewChange s).

(** The checks of [submitVote], in its order. *)
Fixpoint checkKeys (s : cIdentities) (p : Phase) (pubkeys : list SerializedPublicKey)
    (seenKeys : gset SerializedPublicKey) : option quorumError :=
  match pubkeys with
  | [] => None
  | pubKey :: rest =>
      if decide (pubKey ∈ seenKeys) then Some (errDuplicateKey pubKey)
      else match ReadBallot s p pubKey with
           | Some _ => Some (errAlreadySubmitted pubKey)
           | None => checkKeys s p rest (seenKeys ∪ {[pubKey]})
           end
  end.

Definition addBallot (r : Round) (pubKey : SerializedPublicKey) (ballot : Ballot) : Round :=
  mkRound (AggregatedVote r) (<[pubKey := ballot]> (BallotBox r)).

(** One iteration of the recording loop; an unknown phase is an error. *)
Definition recordBallot (s : cIdentities) (p : Phase) (pubKey : SerializedPublicKey) (ballot : Ballot)
    : option cIdentities :=
  match p with
  | Prepare => Some (mkIdentities (publicKeys s) (keyIndexMap s) (addBallot (prepare s) pubKey ballot) (commit s) (viewChange s))
  | Commit => Some (mkIdentities (publicKeys s) (keyIndexMap s) (prepare s) (addBallot (commit s) pubKey ballot) (viewChange s))
  | ViewChange => Some (mkIdentities (publicKeys s) (keyIndexMap s) (prepare s) (commit s) (addBallot (viewChange s) pubKey ballot))
  | UnknownPhase _ => None
  end.

Fixpoint recordAll (s : cIdentities) (p : Phase) (pubkeys : list SerializedPublicKey) (ballot : Ballot)
    : cIdentities * bool :=
  match pubkeys with
  | [] => (s, true)
  | pubKey :: rest =>
      match recordBallot s p pubKey ballot with
      | Some s' => recordAll s' p rest ballot
      | None => (s, false)
      end
  end.

Definition submitVote (s : cIdentities) (p : Phase) (pubkeys : list SerializedPublicKey) (sig : Sg)
    (headerHash : Hash) (height viewID : Z) : cIdentities * (quorumError + Ballot) :=
  match checkKeys s p pubkeys ∅ with
  | Some err => (s, inl err)
  | None =>
      let ballot := mkBallot pubkeys headerHash (SerializeSig sig) height viewID in
      match recordAll s p pubkeys ballot with
      | (s', true) => (s', inr ballot)
      | (s', false) => (s', inl errPhaseUnknown)
      end
  end.

Definition resetOne (s : cIdentities) (p : Phase) : cIdentities :=
  match p with
  | Prepare => mkIdentities (publicKeys s) (keyIndexMap s) NewRound (commit s) (viewChange s)
  | Commit => mkIdentities (publicKeys s) (keyIndexMap s) (prepare s) NewRound (viewChange s)
  | ViewChange => mkIdentities (publicKeys s) (keyIndexMap s) (prepare s) (commit s) NewRound
  | UnknownPhase _ => s
  end.

Definition reset (s : cIdentities) (ps : list Phase) : cIdentities := foldl resetOne s ps.

(** [bls_cosi.AggregateSig] *)
Definition AggregateSig (sigs : list Sg) : Sg := foldl sigAdd sigZero sigs.

(** The loop over the ballots that skips a ballot with a signer already collected. *)
Definition collectStep (acc : list Sg * gset SerializedPublicKey) (ballot : Ballot)
    : list Sg * gset SerializedPublicKey :=
  let '(sigs, collectedKeys) := acc in
  if existsb (λ key, bool_decide (key ∈ collectedKeys)) (SignerPubKeys ballot) then acc
  else (sigs ++ [DeserializeSig (Signature ballot)], collectedKeys ∪ list_to_set (SignerPubKeys ballot)).

Definition AggregateVotes (s : cIdentities) (p : Phase) : Sg :=
  AggregateSig (foldl collectStep ([], ∅) (ReadAllBallots s p)).1.

(** ** [uniformVoteWeight] *)
Definition uniformAddNewVote (s : cIdentities) (p : Phase) (pubKeys : list (PublicKeyWrapper G)) (sig : Sg)
    (headerHash : Hash) (height viewID : Z) : cIdentities * (quorumError + Ballot) :=
  submitVote s p (map Bytes pubKeys) sig headerHash height viewID.

Definition uniformIsQuorumAchieved (s : cIdentities) (p : Phase) : bool :=
  TwoThirdsSignersCount s <=? SignersCount s p.

Definition uniformIsQuorumAchievedByMask (s : cIdentities) (mask : option (Mask G)) : bool :=
  match mask with
  | None => false
  | Some mask => negb (CountOneBits (Bitmap mask) <? TwoThirdsSignersCount s)
  end.

Definition uniformQuorumThreshold (s : cIdentities) : option Dec := NewDec (TwoThirdsSignersCount s).
Definition uniformIsAllSigsCollected (s : cIdentities) : bool := SignersCount s Commit =? ParticipantsCount s.
Definition uniformResetPrepareAndCommitVotes (s : cIdentities) : cIdentities := reset s [Prepare; Commit].
Definition uniformResetViewChangeVotes (s : cIdentities) : cIdentities := reset s [ViewChange].

(** [key.Object.IsEqual]; the provider is [None] when none is set, and its error is ignored. *)
Definition uniformAmIMember (eqKey : G → G → bool) (s : cIdentities) (provider : option (list (PublicKeyWrapper G))) : bool :=
  match provider with
  | None => false
  | Some identity => existsb (λ key, existsb (λ e, eqKey (Object key) (Object e)) (Participants s)) identity
  end.

(** ** [stakedVoteWeight] *)
Record tallyAndQuorum := mkTally { tally : Dec; quorumAchieved : bool }.
Record VoteTally := mkVoteTally { tPrepare : tallyAndQuorum; tCommit : tallyAndQuorum; tViewChange : tallyAndQuorum }.
Definition zeroTally : tallyAndQuorum := mkTally 0 false.
Definition newVoteTally : VoteTally := mkVoteTally zeroTally zeroTally zeroTally.

Record TallyResult := mkTallyResult { ourPercent : Dec; theirPercent : Dec }.

Record stakedVoteWeight := mkStaked {
  reader : cIdentities;
  roster : Roster;
  voteTally : VoteTally;
}.

Definition stakedNewDecider (shardID : Z) : stakedVoteWeight :=
  mkStaked newBallotsBackedSignatureReader (NewRoster shardID) newVoteTally.

(** [numeric.NewDec(2).Quo(numeric.NewDec(3))] *)
Definition twoThird : Dec := default 0 (a ← NewDec 2; b ← NewDec 3; Quo a b).

(** The pointer the [switch] selects: [None] is the nil of an unknown phase. *)
Definition tallyOf (t : VoteTally) (p : Phase) : option tallyAndQuorum :=
  match p with
  | Prepare => Some (tPrepare t)
  | Commit => Some (tCommit t)
  | ViewChange => Some (tViewChange t)
  | UnknownPhase _ => None
  end.

Definition setTally (t : VoteTally) (p : Phase) (x : tallyAndQuorum) : VoteTally :=
  match p with
  | Prepare => mkVoteTally x (tCommit t) (tViewChange t)
  | Commit => mkVoteTally (tPrepare t) x (tViewChange t)
  | ViewChange => mkVoteTally (tPrepare t) (tCommit t) x
  | UnknownPhase _ => t
  end.

(** The membership checks: the first voter's account, and the same account for every other
    voter that is not a Harmony node. *)
Fixpoint checkSigners (r : Roster) (signerAddr : option Address) (pubKeys : list (PublicKeyWrapper G))
    : option quorumError :=
  match pubKeys with
  | [] => None
  | pubKey :: rest =>
      match Voters r !! Bytes pubKey with
      | None => Some (errSignerNotInCommittee (Bytes pubKey))
      | Some voter =>
          match signerAddr with
          | None => checkSigners r (Some (EarningAccount voter)) rest
          | Some addr =>
              if negb (addr =? EarningAccount voter) && negb (IsHarmonyNode voter)
              then Some (errMultipleAccounts addr (EarningAccount voter))
              else checkSigners r signerAddr rest
          end
      end
  end.

(** The power of the signers: a missing voter would be a nil dereference. *)
Fixpoint sumPower (r : Roster) (acc : Dec) (keys : list SerializedPublicKey) : option Dec :=
  match keys with
  | [] => Some acc
  | k :: rest => voter ← Voters r !! k; acc' ← Add acc (OverallPercent voter); sumPower r acc' rest
  end.

Definition addTally (t : tallyAndQuorum) (power : Dec) : option tallyAndQuorum :=
  total ← Add (tally t) power;
  Some (mkTally total (if quorumAchieved t then true else GT total twoThird)).

Definition stakedAddNewVote (v : stakedVoteWeight) (p : Phase) (pubKeys : list (PublicKeyWrapper G)) (sig : Sg)
    (headerHash : Hash) (height viewID : Z) : option (stakedVoteWeight * (quorumError + Ballot)) :=
  match checkSigners (roster v) None pubKeys with
  | Some err => Some (v, inl err)
  | None =>
      let pubKeysBytes := map Bytes pubKeys in
      match submitVote (reader v) p pubKeysBytes sig headerHash height viewID with
      | (s', inl err) => Some (mkStaked s' (roster v) (voteTally v), inl err)
      | (s', inr ballet) =>
          zero ← NewDec 0;
          additionalVotePower ← sumPower (roster v) zero pubKeysBytes;
          tallyQuorum ← tallyOf (voteTally v) p;
          t' ← addTally tallyQuorum additionalVotePower;
          Some (mkStaked s' (roster v) (setTally (voteTally v) p t'), inr ballet)
      end
  end.

Definition stakedIsQuorumAchieved (v : stakedVoteWeight) (p : Phase) : bool :=
  match tallyOf (voteTally v) p with Some t => quorumAchieved t | None => false end.

Definition currentTotalPower (v : stakedVoteWeight) (p : Phase) : quorumError + Dec :=
  match tallyOf (voteTally v) p with Some t => inr (tally t) | None => inl errWrongPhase end.

(** The loop over the index of the mask. *)
Definition powerStep (r : Roster) (mask : Mask G) (acc : option Dec) (ki : SerializedPublicKey * Z) : option Dec :=
  currentTotal ← acc;
  match IndexEnabled mask ki.2 with
  | Ok true =>
      match Voters r !! ki.1 with
      | Some voter => Add currentTotal (OverallPercent voter)
      | None => Some currentTotal
      end
  | Ok false | Err _ => Some currentTotal
  | Panic => None
  end.

Definition computeTotalPowerByMask (v : stakedVoteWeight) (mask : Mask G) : option Dec :=
  foldl (powerStep (roster v) mask) (Some ZeroDec) (map_to_list (PublicsIndex mask)).

Definition stakedIsQuorumAchievedByMask (v : stakedVoteWeight) (mask : option (Mask G)) : option bool :=
  match mask with
  | None => Some false
  | Some mask => power ← computeTotalPowerByMask v mask; Some (GT power twoThird)
  end.

Definition stakedIsAllSigsCollected (v : stakedVoteWeight) : option bool :=
  one ← NewDec 1; Some (Equal (tally (tCommit (voteTally v))) one).

Definition stakedResetPrepareAndCommitVotes (v : stakedVoteWeight) : stakedVoteWeight :=
  mkStaked (reset (reader v) [Prepare; Commit]) (roster v)
    (mkVoteTally zeroTally zeroTally (tViewChange (voteTally v))).

Definition stakedResetViewChangeVotes (v : stakedVoteWeight) : stakedVoteWeight :=
  mkStaked (reset (reader v) [ViewChange]) (roster v)
    (mkVoteTally (tPrepare (voteTally v)) (tCommit (voteTally v)) zeroTally).

Definition stakedSetRawStake (v : stakedVoteWeight) (key : SerializedPublicKey) (d : Dec) : stakedVoteWeight :=
  mkStaked (reader v)
    (mkRoster (alter (λ x, mkVote (EarningAccount x) (Identity x) (GroupPercent x) (voteEffectiveStake x) d
                         (IsHarmonyNode x) (OverallPercent x)) key (Voters (roster v)))
       (OurVotingPowerTotalPercentage (roster v)) (TheirVotingPowerTotalPercentage (roster v))
       (TotalEffectiveStake (roster v)) (HMYSlotCount (roster v)) (rosterShardID (roster v)))
    (voteTally v).

Definition stakedAmIMember (v : stakedVoteWeight) (provider : option (list (PublicKeyWrapper G))) : bool :=
  match provider with
  | None => false
  | Some identity => existsb (λ key, bool_decide (is_Some (Voters (roster v) !! Bytes key))) identity
  end.

(** ** Verifiers ([verifier.go]) *)
Record stakeVerifier := mkStakeVerifier { verifierRoster : Roster }.
Record uniformVerifier := mkUniformVerifier { pubKeyCnt : Z }.

Definition stakeVerifierIsQuorumAchievedByMask (sv : stakeVerifier) (mask : option (Mask G)) : option bool :=
  match mask with
  | None => Some false
  | Some mask => vp ← VotePowerByMask (verifierRoster sv) mask; Some (GT vp twoThird)
  end.

Definition thresholdKeyCount (uv : uniformVerifier) : Z := Z.quot (pubKeyCnt uv * 2) 3 + 1.

(** A nil mask is dereferenced. *)
Definition uniformVerifierIsQuorumAchievedByMask (uv : uniformVerifier) (mask : option (Mask G)) : option bool :=
  mask ← mask;
  let got := Z.of_nat (length (Publics mask)) in
  let exp := thresholdKeyCount uv in
  Some (got >? exp).

(** [SetVoters] and the verifiers compute a roster. *)
Context (InstanceForEpoch : Z → instance) (isTestnet : bool).

Definition stakedSetVoters (v : stakedVoteWeight) (subCommittee : Committee) (epoch : option Z)
    : stakedVoteWeight * result quorumError TallyResult :=
  let v1 := stakedResetViewChangeVotes (stakedResetPrepareAndCommitVotes v) in
  match Compute InstanceForEpoch isTestnet subCommittee epoch with
  | Ok r => (mkStaked (reader v1) r (voteTally v1),
             Ok (mkTallyResult (OurVotingPowerTotalPercentage r) (TheirVotingPowerTotalPercentage r)))
  | Err e => (v1, Err (errRoster e))
  | Panic => (v1, Panic)
  end.

Definition newStakeVerifier (committee : Committee) (epoch : option Z) : result quorumError stakeVerifier :=
  match Compute InstanceForEpoch isTestnet committee epoch with
  | Ok r => Ok (mkStakeVerifier r)
  | Err e => Err (errRoster e)
  | Panic => Panic
  end.

(** [committee.BLSPublicKeys()], with the key decoder of the BLS library. *)
Context (BytesToBLSPublicKey : SerializedPublicKey → option G).

Definition BLSPublicKeys (c : option Committee) : quorumError + list (PublicKeyWrapper G) :=
  match c with
  | None => inl errKey
  | Some c =>
      match mapM (λ slot, k ← BytesToBLSPublicKey (BLSPublicKey slot); Some (mkPublicKeyWrapper (BLSPublicKey slot) k)) (Slots c) with
      | Some keys => inr keys
      | None => inl errKey
      end
  end.

Definition newUniformVerifier (committee : option Committee) : quorumError + uniformVerifier :=
  match BLSPublicKeys committee with
  | inl err => inl err
  | inr keys => inr (mkUniformVerifier (Z.of_nat (length keys)))
  end.

(** [NewVerifier] *)
Definition NewVerifier (committee : Committee) (epoch : option Z) (isStaking : bool)
    : result quorumError (stakeVerifier + uniformVerifier) :=
  if isStaking then
    match newStakeVerifier committee epoch with Ok sv => Ok (inl sv) | Err e => Err e | Panic => Panic end
  else
    match newUniformVerifier (Some committee) with inr uv => Ok (inr uv) | inl e => Err e end.
End Quorum.

Arguments cIdentities : clear implicits.
Arguments stakedVoteWeight : clear implicits.

(** * Properties *)
Section tracker.
Context {G Sg : Type} `{BlsKey G} `{BlsSign Sg}.
Implicit Types (s : cIdentities G Sg) (p q : Phase) (keys : list SerializedPublicKey).

(** ** Votes *)
Definition known p : Prop := match p with UnknownPhase _ => False | _ => True end.

#[local] Instance known_dec p : Decision (known p).
Proof. destruct p; simpl; apply _. Defined.

Lemma SignersCount_box s p : SignersCount s p = Z.of_nat (size (boxOf s p)).
Proof. by destruct p. Qed.

Lemma checkKeys_spec s p keys seen :
  checkKeys s p keys seen = None ↔
  NoDup keys ∧ ∀ k, k ∈ keys → k ∉ seen ∧ ReadBallot s p k = None.
Proof.
  revert seen. induction keys as [|k keys IH]; intros seen; simpl.
  { split; [|done]. intros _. split; [constructor|set_solver]. }
  rewrite NoDup_cons. case_decide as Hk.
  - split; [done|]. intros (_ & Hall). by destruct (Hall k ltac:(set_solver)).
  - destruct (ReadBallot s p k) eqn:E.
    + split; [done|]. intros (_ & Hall). destruct (Hall k ltac:(set_solver)). congruence.
    + rewrite IH. split.
      * intros (Hnd & Hall). split_and!; [intros Hin; by destruct (Hall k Hin); set_solver|done|].
        intros k' [->|Hk']%elem_of_cons; [done|]. destruct (Hall k' Hk'). set_solver.
      * intros ((Hnk & Hnd) & Hall). split; [done|]. intros k' Hk'. destruct (Hall k' ltac:(set_solver)). set_solver.
Qed.

Lemma recordBallot_spec s p k b :
  known p → ∃ s', recordBallot s p k b = Some s' ∧ publicKeys s' = publicKeys s ∧
    ∀ q k', ReadBallot s' q k' = if decide (q = p ∧ k' = k) then Some b else ReadBallot s q k'.
Proof.
  intros Hp. unfold ReadBallot. destruct p; try done; simpl; eexists; (split_and!; [done|done|]);
    intros q k'; (case_decide as Hd;
      [destruct Hd as [-> ->]; simpl; by rewrite lookup_insert_eq
      |destruct q; simpl; try done; rewrite lookup_insert_ne by naive_solver; done]).
Qed.

Lemma recordAll_spec s p keys b :
  known p → ∃ s', recordAll s p keys b = (s', true) ∧ publicKeys s' = publicKeys s ∧
    ∀ q k, ReadBallot s' q k = if decide (q = p ∧ k ∈ keys) then Some b else ReadBallot s q k.
Proof.
  intros Hp. revert s. induction keys as [|k keys IH]; intros s; simpl.
  { exists s. split_and!; [done|done|]. intros q k. rewrite decide_False by set_solver. done. }
  destruct (recordBallot_spec s p k b Hp) as (s1 & -> & Hpk & Hr).
  destruct (IH s1) as (s' & -> & Hpk' & Hr'). exists s'. split_and!; [done|congruence|].
  intros q k'. rewrite Hr', Hr. repeat case_decide; set_solver.
Qed.

Lemma recordAll_unknown s p keys b : ¬ known p → recordAll s p keys b = (s, bool_decide (keys = [])).
Proof. intros Hp. by destruct p; try done; destruct keys. Qed.

(** The ballot box after recording: one ballot for all the keys. *)
Lemma record_size s s' p keys b :
  (∀ k, ReadBallot s' p k = if decide (k ∈ keys) then Some b else ReadBallot s p k) →
  NoDup keys → (∀ k, k ∈ keys → ReadBallot s p k = None) →
  SignersCount s' p = SignersCount s p + Z.of_nat (length keys).
Proof.
  intros Hr Hnd Hnone. rewrite !SignersCount_box. unfold ReadBallot in *.
  assert (dom (boxOf s' p) = dom (boxOf s p) ∪ list_to_set keys) as Hdom.
  { apply set_eq. intros k. rewrite elem_of_union, elem_of_list_to_set, !elem_of_dom, Hr.
    case_decide as Hk; [split; [by right|eauto]|]. split; [by left|]. by intros [?|?]. }
  rewrite <-!size_dom, Hdom, size_union, size_list_to_set by (done || (intros k Hk Hk';
    apply elem_of_list_to_set in Hk'; apply elem_of_dom in Hk as [? Hk]; rewrite Hnone in Hk; done)). lia.
Qed.

(** A vote that is accepted: the ballot, and what the tracker reads afterwards. *)
Lemma submitVote_ok s p keys sig h ht vid s' b :
  submitVote s p keys sig h ht vid = (s', inr b) →
  b = mkBallot keys h (SerializeSig sig) ht vid ∧ NoDup keys ∧ (∀ k, k ∈ keys → ReadBallot s p k = None) ∧
  publicKeys s' = publicKeys s ∧
  ∀ q k, ReadBallot s' q k = if decide (q = p ∧ k ∈ keys) then Some b else ReadBallot s q k.
Proof.
  unfold submitVote. destruct (checkKeys s p keys ∅) as [e|] eqn:E; [done|].
  apply checkKeys_spec in E as [Hnd Hall]. set (ballot := mkBallot _ _ _ _ _).
  destruct (decide (known p)) as [Hp|Hp].
  - destruct (recordAll_spec s p keys ballot Hp) as (s1 & -> & Hpk & Hr). intros [= <- <-].
    split_and!; [done|done|naive_solver|done|done].
  - rewrite recordAll_unknown by done. case_bool_decide as Hk; [|done]. intros [= <- <-]. subst keys.
    split_and!; [done|done|set_solver|done|]. intros q k. by rewrite decide_False by set_solver.
Qed.

(** A vote that is rejected changes nothing. *)
Lemma submitVote_err s p keys sig h ht vid s' e :
  submitVote s p keys sig h ht vid = (s', inl e) →
  s' = s ∧ ¬ ((known p ∨ keys = []) ∧ NoDup keys ∧ ∀ k, k ∈ keys → ReadBallot s p k = None).
Proof.
  unfold submitVote. destruct (checkKeys s p keys ∅) as [e'|] eqn:Ec; intros E.
  - injection E as <- <-. split; [done|]. intros (_ & Hnd & Hall).
    assert (checkKeys s p keys ∅ = None) by (apply checkKeys_spec; set_solver). congruence.
  - destruct (decide (known p)) as [Hp|Hp].
    + destruct (recordAll_spec s p keys (mkBallot keys h (SerializeSig sig) ht vid) Hp) as (s1 & Hr & _).
      by rewrite Hr in E.
    + rewrite recordAll_unknown in E by done. case_bool_decide; [done|]. injection E as <- _. naive_solver.
Qed.

(** [submitVote] accepts a vote exactly when the phase is known (or there is no key), its
    keys are distinct and none of them has voted in the phase; then precisely those keys read
    the new ballot in that phase, every other ballot of every phase is unchanged, and the
    number of signers grows by the number of keys.  A rejected vote changes nothing. *)
Theorem submitVote_spec s p keys sig h ht vid :
  match submitVote s p keys sig h ht vid with
  | (s', inr b) =>
      (known p ∨ keys = []) ∧ NoDup keys ∧ (∀ k, k ∈ keys → ReadBallot s p k = None) ∧
      b = mkBallot keys h (SerializeSig sig) ht vid ∧
      (∀ q k, ReadBallot s' q k = if decide (q = p ∧ k ∈ keys) then Some b else ReadBallot s q k) ∧
      SignersCount s' p = SignersCount s p + Z.of_nat (length keys)
  | (s', inl _) =>
      s' = s ∧ ¬ ((known p ∨ keys = []) ∧ NoDup keys ∧ ∀ k, k ∈ keys → ReadBallot s p k = None)
  end.
Proof.
  destruct (submitVote s p keys sig h ht vid) as [s' [e|b]] eqn:E.
  - by eapply submitVote_err.
  - destruct (submitVote_ok _ _ _ _ _ _ _ _ _ E) as (-> & Hnd & Hnone & _ & Hr).
    split_and!; try done.
    2:{ eapply (record_size s s' p keys); [|done|done]. intros k. rewrite Hr.
        destruct (decide (k ∈ keys)); [by rewrite decide_True by done|by rewrite decide_False by tauto]. }
    destruct (decide (known p)); [by left|right]. unfold submitVote in E.
    destruct (checkKeys s p keys ∅); [done|]. rewrite recordAll_unknown in E by done. by case_bool_decide.
Qed.

(** ** Quorum of equal votes *)

(** The keys that voted. *)
Definition signers s p : gset SerializedPublicKey := dom (boxOf s p).

Lemma quot_two_thirds n : 0 ≤ n → 3 * (Z.quot (n * 2) 3 + 1) > n * 2.
Proof. intros Hn. rewrite Z.quot_div_nonneg by lia. pose proof (Z.mod_pos_bound (n * 2) 3). pose proof (Z.div_mod (n * 2) 3). lia. Qed.

(** Two quorums of the one-node-one-vote policy over the same participants (two phases or
    two trackers), whose signers are participants, share more than a third of them. *)
Theorem uniform_quorum_intersection s1 s2 p1 p2 :
  publicKeys s1 = publicKeys s2 →
  signers s1 p1 ∪ signers s2 p2 ⊆ list_to_set (map Bytes (publicKeys s1)) →
  uniformIsQuorumAchieved s1 p1 = true → uniformIsQuorumAchieved s2 p2 = true →
  3 * Z.of_nat (size (signers s1 p1 ∩ signers s2 p2)) > ParticipantsCount s1.
Proof.
  unfold uniformIsQuorumAchieved, TwoThirdsSignersCount, signers, ParticipantsCount. rewrite !SignersCount_box, <-!size_dom.
  intros Hpk Hsub H1%Z.leb_le H2%Z.leb_le. rewrite <-Hpk in H2.
  set (n := length (publicKeys s1)) in *. set (A := dom (boxOf s1 p1)) in *. set (B := dom (boxOf s2 p2)) in *.
  assert (size (A ∪ B) ≤ n)%nat as Hle.
  { transitivity (size (list_to_set (C := gset Z) (map Bytes (publicKeys s1)))); [by apply subseteq_size|].
    unfold n. rewrite <-(length_map Bytes). clear. induction (map Bytes (publicKeys s1)) as [|k l IH]; simpl; [done|].
    pose proof (size_union_alt {[k]} (list_to_set (C := gset Z) l)) as Hu. rewrite Hu, size_singleton.
    assert (size (list_to_set (C := gset Z) l ∖ {[k]}) ≤ size (list_to_set (C := gset Z) l))%nat
      by (apply subseteq_size; set_solver). lia. }
  assert (size (A ∪ B) + size (A ∩ B) = size A + size B)%nat as Hsz.
  { rewrite size_union_alt. assert (size B = size (B ∖ A) + size (A ∩ B))%nat; [|lia].
    rewrite <-size_union by set_solver. f_equal. apply set_eq. intros x. destruct (decide (x ∈ A)); set_solver. }
  pose proof (quot_two_thirds (Z.of_nat n) ltac:(lia)). lia.
Qed.
End tracker.

(** ** Power of a set of keys *)
Definition shareOf (r : Roster) (k : SerializedPublicKey) : Z :=
  match Voters r !! k with Some v => OverallPercent v | None => 0 end.
Definition setPower (r : Roster) (X : gset SerializedPublicKey) : Z := sumZ (shareOf r) (elements X).
Definition nonnegRoster (r : Roster) : Prop := ∀ k, 0 ≤ shareOf r k.

Lemma setPower_empty r : setPower r ∅ = 0.
Proof. unfold setPower. by rewrite elements_empty. Qed.

Lemma setPower_union r X Y : X ## Y → setPower r (X ∪ Y) = setPower r X + setPower r Y.
Proof. intros Hd. unfold setPower. rewrite (sumZ_perm _ _ _ (elements_disj_union X Y Hd)). apply sumZ_app. Qed.

Lemma setPower_list r keys : NoDup keys → setPower r (list_to_set keys) = sumZ (shareOf r) keys.
Proof. intros Hnd. apply sumZ_perm. by apply elements_list_to_set. Qed.

Lemma setPower_nonneg r X : nonnegRoster r → 0 ≤ setPower r X.
Proof. intros Hr. apply sumZ_nonneg. auto. Qed.

Lemma setPower_diff r X Y : Y ⊆ X → setPower r X = setPower r Y + setPower r (X ∖ Y).
Proof. intros Hs. rewrite <-setPower_union by set_solver. f_equal. by apply union_difference_L. Qed.

Lemma setPower_mono r X Y : nonnegRoster r → Y ⊆ X → setPower r Y ≤ setPower r X.
Proof. intros Hr Hs. rewrite (setPower_diff r X Y Hs). pose proof (setPower_nonneg r (X ∖ Y) Hr). lia. Qed.

Lemma setPower_voters r : setPower r (dom (Voters r)) = map_sum (λ _ v, OverallPercent v) (Voters r).
Proof.
  unfold setPower. rewrite (sumZ_perm _ _ ((map_to_list (Voters r)).*1)).
  2:{ apply NoDup_Permutation; [apply NoDup_elements|apply NoDup_fst_map_to_list|].
      intros k. rewrite elem_of_elements, elem_of_dom. rewrite list_elem_of_fmap. split.
      - intros [v Hv]. exists (k, v). split; [done|]. by apply elem_of_map_to_list.
      - intros ([k' v] & -> & Hv%elem_of_map_to_list). eauto. }
  unfold map_sum. assert (∀ l, (∀ kv, kv ∈ l → Voters r !! kv.1 = Some kv.2) →
    sumZ (shareOf r) l.*1 = sumZ (λ kv, OverallPercent kv.2) l) as Hgen.
  { induction l as [|[k v] l IH]; intros Hl; [done|]. rewrite fmap_cons, !sumZ_cons.
    rewrite IH by set_solver. unfold shareOf at 1. rewrite (Hl (k, v)) by set_solver. done. }
  apply Hgen. intros [k v] Hin. by apply elem_of_map_to_list.
Qed.

Lemma sumPower_spec r acc keys d : sumPower r acc keys = Some d → d = acc + sumZ (shareOf r) keys.
Proof.
  revert acc. induction keys as [|k keys IH]; intros acc Hs; simpl in Hs; [simplify_eq; simpl; lia|].
  apply bind_Some in Hs as (v & Hv & Hs). apply bind_Some in Hs as (a & ->%Add_inv & Hs).
  apply IH in Hs. rewrite sumZ_cons. unfold shareOf at 1. rewrite Hv. lia.
Qed.

Lemma twoThird_val : twoThird = 666666666666666667.
Proof. by vm_compute. Qed.

Lemma checkSigners_members {G} `{BlsKey G} r addr (keys : list (PublicKeyWrapper G)) :
  checkSigners r addr keys = None → ∀ k, k ∈ map Bytes keys → is_Some (Voters r !! k).
Proof.
  revert addr. induction keys as [|k keys IH]; intros addr Hc; simpl in *; [set_solver|].
  destruct (Voters r !! Bytes k) as [v|] eqn:E; [|done]. intros k' [->|Hk']%elem_of_cons; [by rewrite E|].
  destruct addr as [a|]; [|eauto]. destruct (negb _ && negb _); [done|]. eauto.
Qed.

(** ** The staked decider *)
Section staked.
Context {G Sg : Type} `{BlsKey G} `{BlsSign Sg}.
Context (InstanceForEpoch : Z → instance) (isTestnet : bool).
Implicit Types (v : stakedVoteWeight G Sg) (s : cIdentities G Sg) (p q : Phase).

(** The states of a decider under its methods.  A roster in which every share is non-negative
    is the one thing asked of [SetVoters]. *)
Inductive stakedReachable : stakedVoteWeight G Sg → Prop :=
| reach_new shardID : stakedReachable (stakedNewDecider shardID)
| reach_SetVoters v c e v' res :
    stakedReachable v → stakedSetVoters InstanceForEpoch isTestnet v c e = (v', res) →
    nonnegRoster (roster v') → stakedReachable v'
| reach_AddNewVote v p keys sig h ht vid v' res :
    stakedReachable v → stakedAddNewVote v p keys sig h ht vid = Some (v', res) → stakedReachable v'
| reach_ResetPrepareAndCommit v : stakedReachable v → stakedReachable (stakedResetPrepareAndCommitVotes v)
| reach_ResetViewChange v : stakedReachable v → stakedReachable (stakedResetViewChangeVotes v)
| reach_UpdateParticipants v keys :
    stakedReachable v → stakedReachable (mkStaked (UpdateParticipants (reader v) keys) (roster v) (voteTally v))
| reach_SetRawStake v k d : stakedReachable v → stakedReachable (stakedSetRawStake v k d).

(** The tally of a phase is the power of the keys with a ballot, and the quorum flag says
    whether it exceeds two thirds. *)
Definition tallyInv v p : Prop :=
  ∀ t, tallyOf (voteTally v) p = Some t →
    tally t = setPower (roster v) (signers (reader v) p) ∧
    quorumAchieved t = GT (tally t) twoThird ∧
    signers (reader v) p ⊆ dom (Voters (roster v)).

Definition stakedInv v : Prop := nonnegRoster (roster v) ∧ ∀ p, tallyInv v p.

Lemma tallyInv_zero v p : signers (reader v) p = ∅ → tallyOf (voteTally v) p = Some zeroTally → tallyInv v p.
Proof.
  intros Hs Ht t. rewrite Ht. intros [= <-]. rewrite Hs. simpl. split_and!; [by rewrite setPower_empty|done|set_solver].
Qed.

Lemma GT_spec a b : GT a b = bool_decide (b < a).
Proof. unfold GT. destruct (Z.compare_spec a b); symmetry; [apply bool_decide_eq_false_2|apply bool_decide_eq_false_2|apply bool_decide_eq_true_2]; lia. Qed.

Lemma stakedAddNewVote_inv v p keys sig h ht vid v' res :
  stakedInv v → stakedAddNewVote v p keys sig h ht vid = Some (v', res) → stakedInv v'.
Proof.
  intros [Hnn Ht] Ha. unfold stakedAddNewVote in Ha.
  destruct (checkSigners (roster v) None keys) eqn:Ec; [by simplify_eq|].
  destruct (submitVote (reader v) p (map Bytes keys) sig h ht vid) as [s' [e|b]] eqn:Es.
  { apply submitVote_err in Es as [-> _]. injection Ha as <- _. by destruct v. }
  apply submitVote_ok in Es as (_ & Hnd & Hnone & _ & Hr). simpl in Ha.
  apply bind_Some in Ha as (power & Hp%sumPower_spec & Ha).
  apply bind_Some in Ha as (tq & Htq & Ha). apply bind_Some in Ha as (t' & Ht' & Ha). injection Ha as <- _.
  unfold addTally in Ht'. apply bind_Some in Ht' as (total & ->%Add_inv & [= <-]).
  assert (∀ q, signers s' q = if decide (q = p) then signers (reader v) p ∪ list_to_set (map Bytes keys)
                              else signers (reader v) q) as Hsig.
  { intros q. apply set_eq. intros k. unfold signers. rewrite elem_of_dom. fold (ReadBallot s' q k). rewrite Hr.
    destruct (decide (q = p)) as [->|Hq].
    - rewrite elem_of_union, elem_of_list_to_set, elem_of_dom. fold (ReadBallot (reader v) p k).
      destruct (decide (k ∈ map Bytes keys)); [rewrite decide_True by done|rewrite decide_False by tauto]; naive_solver.
    - rewrite decide_False by tauto. by rewrite elem_of_dom. }
  split; [done|]. intros q t Htq'. simpl in *. rewrite Hsig. case_decide as Hq.
  - subst q. assert (t = mkTally (tally tq + power) (if quorumAchieved tq then true else GT (tally tq + power) twoThird)) as ->
      by (destruct p; simpl in *; congruence).
    destruct (Ht p tq Htq) as (Htal & Hach & Hdom). simpl.
    assert (signers (reader v) p ## list_to_set (map Bytes keys)) as Hdisj.
    { intros k Hk Hk'%elem_of_list_to_set. unfold signers in Hk. apply elem_of_dom in Hk as [? Hk].
      specialize (Hnone k Hk'). unfold ReadBallot in Hnone. congruence. }
    rewrite setPower_union, setPower_list by done.
    assert (0 ≤ sumZ (shareOf (roster v)) (map Bytes keys)) by (apply sumZ_nonneg; auto).
    split_and!; [lia| |].
    + rewrite Hach, !GT_spec. case_bool_decide; [|done]. symmetry. apply bool_decide_eq_true_2. lia.
    + intros k [Hk|Hk%elem_of_list_to_set]%elem_of_union; [auto|]. apply elem_of_dom. by eapply checkSigners_members.
  - apply Ht. destruct p, q; simpl in *; congruence.
Qed.

Lemma shareOf_SetRawStake v k d k' : shareOf (roster (stakedSetRawStake v k d)) k' = shareOf (roster v) k'.
Proof.
  unfold shareOf. simpl. destruct (decide (k = k')) as [->|Hne].
  - rewrite lookup_alter_eq. by destruct (Voters (roster v) !! k').
  - by rewrite lookup_alter_ne.
Qed.

Lemma stakedReachable_inv v : stakedReachable v → stakedInv v.
Proof.
  induction 1 as [id|v c e v' res _ IH Hs Hnn|v p keys sig h ht vid v' res _ IH Ha|v _ [Hnn Ht]|v _ [Hnn Ht]|v keys _ [Hnn Ht]|v k d _ [Hnn Ht]].
  - split; [done|]. intros [] t; simpl; intros [= <-]; done.
  - split; [done|]. intros p t Hp.
    assert (signers (reader v') p = ∅ ∧ tallyOf (voteTally v') p = Some zeroTally) as [Hs1 Hs2].
    { unfold stakedSetVoters in Hs. assert (known p) by (destruct p; simpl in Hp; done).
      destruct (Compute _ _ c e); injection Hs as <- _; by destruct p. }
    by apply (tallyInv_zero v' p Hs1 Hs2).
  - by eapply stakedAddNewVote_inv.
  - split; [done|]. intros []; [by apply tallyInv_zero|by apply tallyInv_zero|apply (Ht ViewChange)|done].
  - split; [done|]. intros []; [apply (Ht Prepare)|apply (Ht Commit)|by apply tallyInv_zero|done].
  - split; [done|]. intros p t Hp. destruct (Ht p t Hp) as (? & ? & ?). by destruct p.
  - split; [intros k'; rewrite shareOf_SetRawStake; apply Hnn|]. intros p t Hp. destruct (Ht p t Hp) as (Hs1 & Hs2 & Hs3).
    split_and!; [|done|simpl; by rewrite dom_alter_L].
    rewrite Hs1. apply sumZ_ext. intros k' _. by rewrite shareOf_SetRawStake.
Qed.

(** C23: the staked decider.  In every state its methods can reach, the tally of a known phase
    is the sum of the shares of exactly the keys that have a ballot in it, all of them voters
    of the roster, and the decider reports a quorum exactly when that sum exceeds two
    thirds. *)
Theorem staked_tally v p :
  stakedReachable v → known p →
  currentTotalPower v p = inr (setPower (roster v) (signers (reader v) p)) ∧
  stakedIsQuorumAchieved v p = bool_decide (twoThird < setPower (roster v) (signers (reader v) p)) ∧
  signers (reader v) p ⊆ dom (Voters (roster v)).
Proof.
  intros [_ Ht]%stakedReachable_inv Hp. unfold currentTotalPower, stakedIsQuorumAchieved.
  destruct (tallyOf (voteTally v) p) as [t|] eqn:E; [|by destruct p].
  destruct (Ht p t E) as (-> & -> & ?). by rewrite GT_spec.
Qed.

Lemma quorum_power v p :
  stakedReachable v → stakedIsQuorumAchieved v p = true →
  twoThird < setPower (roster v) (signers (reader v) p) ∧ signers (reader v) p ⊆ dom (Voters (roster v)).
Proof.
  intros [_ Ht]%stakedReachable_inv Hq. unfold stakedIsQuorumAchieved in Hq.
  destruct (tallyOf (voteTally v) p) as [t|] eqn:E; [|done].
  destruct (Ht p t E) as (<- & Hach & ?). rewrite Hq, GT_spec in Hach. split; [|done].
  by symmetry in Hach; apply bool_decide_eq_true in Hach.
Qed.


(** [IsAllSigsCollected] of the staked decider, for a roster whose shares sum to one: it
    holds exactly when every voter with a positive share has a commit ballot. *)
Theorem staked_IsAllSigsCollected v :
  stakedReachable v → map_sum (λ _ x, OverallPercent x) (Voters (roster v)) = OneDec →
  stakedIsAllSigsCollected v = Some true ↔
  ∀ k, 0 < shareOf (roster v) k → k ∈ signers (reader v) Commit.
Proof.
  intros Hr Hone. destruct (stakedReachable_inv v Hr) as [Hnn Ht].
  destruct (Ht Commit _ eq_refl) as (Htal & _ & Hsub). rewrite <-setPower_voters in Hone.
  unfold stakedIsAllSigsCollected. change (NewDec 1) with (Some OneDec). simpl. rewrite Htal, <-Hone.
  rewrite (setPower_diff _ _ _ Hsub). set (rest := dom (Voters (roster v)) ∖ signers (reader v) Commit).
  unfold Equal. pose proof (setPower_nonneg (roster v) rest Hnn) as Hge.
  destruct (Z.compare_spec (setPower (roster v) (signers (reader v) Commit))
     (setPower (roster v) (signers (reader v) Commit) + setPower (roster v) rest)) as [Heq|Hlt|Hgt]; [|split; [done|]|lia].
  - split; [|done]. intros _ k Hk. destruct (decide (k ∈ signers (reader v) Commit)); [done|].
    assert (k ∈ rest) as Hin.
    { apply elem_of_difference. split; [|done]. apply elem_of_dom. unfold shareOf in Hk.
      destruct (Voters (roster v) !! k); [done|lia]. }
    assert (shareOf (roster v) k ≤ setPower (roster v) rest); [|lia].
    apply sumZ_elem; [auto|by apply elem_of_elements].
  - intros Hall. exfalso. assert (setPower (roster v) rest = 0); [|lia]. apply sumZ_zero.
    intros k [Hk Hn]%elem_of_elements%elem_of_difference.
    destruct (Z.lt_ge_cases 0 (shareOf (roster v) k)) as [Hpos|]; [by apply Hall in Hpos|]. pose proof (Hnn k). lia.
Qed.

(** ** Verifiers *)
(** The verifier of a committee and epoch gives exactly the result of a decider whose
    voters were set from the same committee and epoch, on every mask, nil included. *)
Theorem stakeVerifier_agrees v v' res sv c e (mask : option (Mask G)) :
  stakedSetVoters InstanceForEpoch isTestnet v c e = (v', Ok res) →
  newStakeVerifier InstanceForEpoch isTestnet c e = Ok sv →
  stakeVerifierIsQuorumAchievedByMask sv mask = stakedIsQuorumAchievedByMask v' mask.
Proof.
  unfold stakedSetVoters, newStakeVerifier. destruct (Compute _ _ c e) as [r| |]; [|done..].
  intros [= <- _] [= <-]. destruct mask as [mask|]; [|done]. reflexivity.
Qed.
End staked.

(** The uniform verifier does not look at the bitmap.  It accepts a mask of all keys of a
    committee of at least four in which nobody signed, which the uniform decider rejects. *)
Theorem uniformVerifier_ignores_bitmap {G Sg} `{BlsKey G} `{BlsSign Sg} (keys : list (PublicKeyWrapper G)) :
  (4 ≤ length keys)%nat →
  uniformVerifierIsQuorumAchievedByMask (mkUniformVerifier (Z.of_nat (length keys))) (Some (emptyMask keys)) = Some true ∧
  uniformIsQuorumAchievedByMask (UpdateParticipants (newBallotsBackedSignatureReader (Sg := Sg)) keys)
    (Some (emptyMask keys)) = false.
Proof.
  intros Hn. unfold uniformVerifierIsQuorumAchievedByMask, thresholdKeyCount. simpl.
  assert (∀ n, CountOneBits (replicate n 0) = 0) as ->.
  { induction n as [|n IH]; [done|]. cbn [replicate CountOneBits]. by rewrite IH. }
  unfold TwoThirdsSignersCount, ParticipantsCount. simpl. rewrite Z.quot_div_nonneg by lia. split.
  - f_equal. apply Z.gtb_lt. pose proof (Z.div_mod (Z.of_nat (length keys) * 2) 3 ltac:(done)).
    pose proof (Z.mod_pos_bound (Z.of_nat (length keys) * 2) 3). lia.
  - pose proof (Z.div_pos (Z.of_nat (length keys) * 2) 3). destruct (Z.ltb_spec 0 (Z.of_nat (length keys) * 2 / 3 + 1)); [done|lia].
Qed.

(** ** Aggregated signatures *)
Section aggregate.
Context {G Sg : Type} `{BlsKey G} `{BlsSignLaws Sg}.
Implicit Types (s : cIdentities G Sg) (p : Phase) (b : Ballot).

(** A vote message, and a sequence of them that are all accepted. *)
Record voteMsg := mkVoteMsg {
  msgPhase : Phase; msgKeys : list SerializedPublicKey; msgSig : Sg;
  msgHash : Hash; msgHeight : Z; msgView : Z;
}.

Definition ballotOf (m : voteMsg) : Ballot :=
  mkBallot (msgKeys m) (msgHash m) (SerializeSig (msgSig m)) (msgHeight m) (msgView m).

Fixpoint submitAll s (ms : list voteMsg) : option (cIdentities G Sg) :=
  match ms with
  | [] => Some s
  | m :: rest =>
      match submitVote s (msgPhase m) (msgKeys m) (msgSig m) (msgHash m) (msgHeight m) (msgView m) with
      | (s', inr _) => submitAll s' rest
      | (_, inl _) => None
      end
  end.

Definition phaseVotes p (ms : list voteMsg) : list voteMsg := filter (λ m, msgPhase m = p) ms.

(** The box of a phase holds each ballot of [B] under each of its signers, and nothing else. *)
Definition boxInv (box : gmap SerializedPublicKey Ballot) (B : list Ballot) : Prop :=
  (∀ k b, box !! k = Some b ↔ b ∈ B ∧ k ∈ SignerPubKeys b) ∧ NoDup B ∧ ∀ b, b ∈ B → SignerPubKeys b ≠ [].

Lemma submitVote_box p q s s' keys sig h n v b B :
  submitVote s q keys sig h n v = (s', inr b) → keys ≠ [] → boxInv (boxOf s p) B →
  boxInv (boxOf s' p) (if decide (q = p) then B ++ [b] else B).
Proof.
  intros (Hb & _ & Hnone & _ & Hr)%submitVote_ok Hm (Hbox & Hnd & Hnn). case_decide as Hp.
  - subst q. assert (b ∉ B) as HnB.
    { intros Hin. destruct keys as [|k ks] eqn:Ek; [done|].
      assert (boxOf s p !! k = Some b) as Hk by (apply Hbox; split; [done|subst b; set_solver]).
      specialize (Hnone k ltac:(set_solver)). unfold ReadBallot in Hnone. congruence. }
    assert (SignerPubKeys b = keys) as Hsk by (by subst b). split_and!.
    + intros k b'. fold (ReadBallot s' p k). rewrite Hr. destruct (decide (k ∈ keys)) as [Hk|Hk].
      * rewrite decide_True by done. split.
        -- intros [= <-]. split; [set_solver|by rewrite Hsk].
        -- intros [Hin Hkb]. apply elem_of_app in Hin as [Hin|Hin]; [|by apply list_elem_of_singleton in Hin as ->].
           specialize (Hnone k Hk). unfold ReadBallot in Hnone. rewrite (proj2 (Hbox k b')) in Hnone by done. done.
      * rewrite decide_False by tauto. unfold ReadBallot. rewrite Hbox. split; [set_solver|].
        intros [Hin Hkb]. apply elem_of_app in Hin as [Hin|Hin]; [done|]. apply list_elem_of_singleton in Hin as ->. by rewrite Hsk in Hkb.
    + apply NoDup_app. split_and!; [done|set_solver|apply NoDup_singleton].
    + intros b' [?|Hb']%elem_of_app; [auto|]. apply list_elem_of_singleton in Hb' as ->. by rewrite Hsk.
  - split_and!; [|done|done]. intros k b'. fold (ReadBallot s' p k). rewrite Hr.
    rewrite decide_False by (intros [? _]; congruence). apply Hbox.
Qed.

Lemma submitAll_box p ms s s' B :
  submitAll s ms = Some s' → (∀ m, m ∈ ms → msgKeys m ≠ []) →
  boxInv (boxOf s p) B → boxInv (boxOf s' p) (B ++ map ballotOf (phaseVotes p ms)).
Proof.
  revert s B. induction ms as [|m ms IH]; intros s B Hs Hne HB; simpl in Hs.
  { simplify_eq. unfold phaseVotes. simpl. by rewrite app_nil_r. }
  destruct (submitVote s _ _ _ _ _ _) as [s1 [e|b]] eqn:E; [done|].
  pose proof (submitVote_box p _ _ _ _ _ _ _ _ _ _ E (Hne m ltac:(set_solver)) HB) as HB1.
  apply submitVote_ok in E as (Hb & _). fold (ballotOf m) in Hb. subst b.
  unfold phaseVotes in *. destruct (decide (msgPhase m = p)) as [Hp|Hp].
  - rewrite filter_cons_True by done. simpl. rewrite (cons_middle (ballotOf m) B), app_assoc. apply (IH s1); [done|set_solver|done].
  - rewrite filter_cons_False by done. apply (IH s1); [done|set_solver|done].
Qed.

Lemma collect_spec box B L :
  boxInv box B → (∀ b, b ∈ L → b ∈ B) →
  ∃ D, NoDup D ∧ (∀ b, b ∈ D ↔ b ∈ L) ∧
    (foldl collectStep ([], ∅) L).1 = map (λ b, DeserializeSig (Signature b)) D ∧
    ∀ k, k ∈ (foldl collectStep ([], ∅) L).2 ↔ ∃ b, b ∈ D ∧ k ∈ SignerPubKeys b.
Proof.
  intros (Hbox & _ & Hnn). induction L as [|b L IH] using rev_ind; intros HL.
  { exists []. split_and!; [constructor|done|done|]. simpl. set_solver. }
  destruct IH as (D & Hnd & HD & Hs & Hc); [set_solver|]. rewrite foldl_app. simpl.
  destruct (foldl collectStep ([], ∅) L) as [sigs coll]. simpl in *.
  destruct (existsb (λ key, bool_decide (key ∈ coll)) (SignerPubKeys b)) eqn:E.
  - exists D. split_and!; [done| |done|done]. apply existsb_exists in E as (k & Hk & Hkc).
    apply bool_decide_eq_true in Hkc. apply list_elem_of_In in Hk. apply Hc in Hkc as (b' & Hb' & Hkb').
    assert (b' = b) as ->.
    { assert (box !! k = Some b') as Hk1 by (apply Hbox; split; [apply HL, elem_of_app; left; by apply HD|done]).
      assert (box !! k = Some b) as Hk2 by (apply Hbox; split; [apply HL; set_solver|done]). congruence. }
    intros x. rewrite HD. apply HD in Hb'. set_solver.
  - assert (b ∉ D) as HbD.
    { intros Hin. assert (SignerPubKeys b ≠ []) as Hne by (apply Hnn, HL; set_solver).
      destruct (SignerPubKeys b) as [|k ks] eqn:Ek; [done|]. simpl in E. apply orb_false_iff in E as [E _].
      apply bool_decide_eq_false in E. apply E, Hc. exists b. rewrite Ek. split; [done|set_solver]. }
    exists (D ++ [b]). simpl. split_and!.
    + apply NoDup_app. split_and!; [done|set_solver|apply NoDup_singleton].
    + intros x. rewrite !elem_of_app, HD. done.
    + by rewrite map_app, Hs.
    + intros k. rewrite elem_of_union, elem_of_list_to_set, Hc. setoid_rewrite elem_of_app.
      setoid_rewrite list_elem_of_singleton. naive_solver.
Qed.

Lemma AggregateSig_foldr sigs : AggregateSig sigs = foldr sigAdd sigZero sigs.
Proof.
  unfold AggregateSig. assert (∀ z, foldl sigAdd z sigs = sigAdd z (foldr sigAdd sigZero sigs)) as Hz.
  { induction sigs as [|x sigs IH]; intros z; simpl; [by rewrite sigAdd_comm, sigAdd_zero|].
    by rewrite IH, sigAdd_assoc. }
  by rewrite Hz, sigAdd_zero.
Qed.

Lemma AggregateSig_perm l1 l2 : l1 ≡ₚ l2 → AggregateSig l1 = AggregateSig l2.
Proof.
  rewrite !AggregateSig_foldr. induction 1 as [|x l1 l2 _ IH|x y l|l1 l2 l3 _ IH1 _ IH2]; simpl; [done| | |].
  - by rewrite IH.
  - rewrite !sigAdd_assoc. by rewrite (sigAdd_comm y x).
  - by rewrite IH1.
Qed.

Lemma AggregateVotes_box s p B :
  boxInv (boxOf s p) B → AggregateVotes s p = AggregateSig (map (λ b, DeserializeSig (Signature b)) B).
Proof.
  intros HB. assert (∀ b, b ∈ ReadAllBallots s p ↔ b ∈ B) as Hread.
  { intros b. unfold ReadAllBallots. change (map snd (map_to_list (boxOf s p))) with (map_to_list (boxOf s p)).*2.
    rewrite list_elem_of_fmap. destruct HB as (Hbox & _ & Hnn). split.
    - intros ([k b'] & -> & Hk%elem_of_map_to_list). by apply Hbox in Hk as [? _].
    - intros Hb. destruct (SignerPubKeys b) as [|k ks] eqn:Ek; [by destruct (Hnn b Hb)|].
      exists (k, b). split; [done|]. apply elem_of_map_to_list, Hbox. rewrite Ek. set_solver. }
  destruct (collect_spec _ B (ReadAllBallots s p) HB) as (Dd & Hnd & HD & Hsig & _); [intros b; apply Hread|].
  unfold AggregateVotes. rewrite Hsig.
  assert (Dd ≡ₚ B) as HDB by (apply NoDup_Permutation; [done|apply HB|intros b; by rewrite HD, Hread]).
  by rewrite (AggregateSig_perm _ _ (Permutation_map _ HDB)).
Qed.

Lemma ballots_empty : boxInv ∅ [].
Proof. split_and!; [|constructor|set_solver]. intros k b. rewrite lookup_empty. set_solver. Qed.

(** Aggregation.  After any sequence of accepted votes, in any mix of phases, on a tracker
    whose phase was empty, [AggregateVotes] of the phase is the sum of the signatures of its
    votes, each multi-key vote counted once however many keys signed it and in whatever order
    Go walks the ballot box. *)
Theorem AggregateVotes_sum s s' p ms :
  boxOf s p = ∅ → submitAll s ms = Some s' → (∀ m, m ∈ ms → msgKeys m ≠ []) →
  AggregateVotes s' p = AggregateSig (map msgSig (phaseVotes p ms)).
Proof.
  intros Hempty Hs Hne.
  pose proof (submitAll_box p ms s s' [] Hs Hne ltac:(rewrite Hempty; apply ballots_empty)) as HB.
  rewrite (AggregateVotes_box _ _ _ HB). simpl. rewrite map_map. f_equal.
  apply map_ext. intros m. simpl. apply Deserialize_Serialize.
Qed.
End aggregate.

(** ** Leader rotation *)
Section rotation.
Context {G Sg : Type} `{BlsKey G} `{BlsSign Sg}.
Implicit Types (keys : list (PublicKeyWrapper G)).

Lemma indexFrom_notin i keys index k :
  k ∉ map Bytes keys → indexFrom i keys index !! k = index !! k.
Proof.
  revert i index. induction keys as [|key keys IH]; intros i index Hk; simpl in *; [done|].
  rewrite IH by set_solver. apply lookup_insert_ne. set_solver.
Qed.

Lemma indexFrom_in i keys index j key :
  NoDup (map Bytes keys) → keys !! j = Some key → indexFrom i keys index !! Bytes key = Some (Z.of_nat (i + j)).
Proof.
  revert i index j. induction keys as [|k keys IH]; intros i index j Hnd Hj; [done|]. simpl in *.
  apply NoDup_cons in Hnd as [Hk Hnd]. destruct j as [|j]; simpl in Hj.
  - simplify_eq. rewrite indexFrom_notin, lookup_insert_eq by done. by rewrite Nat.add_0_r.
  - rewrite (IH (S i) _ j) by done. f_equal. lia.
Qed.

(** [NthNext] of the participant at index [i], over participants with distinct keys: the
    participant [next] places further, wrapping around, is returned when [i + next] is not
    negative; a negative [next] that goes below index 0 makes it panic unless it lands on a
    multiple of the number of participants. *)
Theorem NthNext_spec (s : cIdentities G Sg) keys i key next :
  NoDup (map Bytes keys) → keys !! i = Some key →
  let n := Z.of_nat (length keys) in
  let target := Z.of_nat i + next in
  (0 ≤ target → ∃ key', keys !! Z.to_nat (target mod n) = Some key' ∧
     NthNext (UpdateParticipants s keys) key next = Some (true, key')) ∧
  (target < 0 → target mod n ≠ 0 → NthNext (UpdateParticipants s keys) key next = None).
Proof.
  intros Hnd Hi n target. pose proof (lookup_lt_Some _ _ _ Hi) as Hlt.
  assert (NthNext (UpdateParticipants s keys) key next =
          x ← keyAt keys (Z.rem target n); Some (true, x)) as Hnth.
  { unfold NthNext, nthKey, IndexOf, ParticipantsCount. simpl. rewrite (indexFrom_in 0 keys ∅ i key Hnd Hi). simpl.
    fold n target. destruct (Z.leb_spec n 0); [unfold n in *; lia|]. rewrite Z.gtb_ltb, Z.ltb_irrefl. simpl.
    destruct (Z.eqb_spec n 0); [lia|]. destruct (Z.eqb_spec (Z.of_nat i) (-1)); [lia|]. done. }
  rewrite Hnth. unfold keyAt. split.
  - intros Ht. rewrite Z.rem_mod_nonneg by (unfold n; lia).
    pose proof (Z.mod_pos_bound target n ltac:(unfold n; lia)) as Hb.
    destruct (Z.ltb_spec (target mod n) 0); [lia|].
    destruct (lookup_lt_is_Some_2 keys (Z.to_nat (target mod n))) as [key' Hk]; [unfold n in *; lia|].
    exists key'. rewrite Hk. done.
  - intros Ht Hm. assert (Z.rem target n < 0) as Hr.
    { pose proof (Z.rem_nonpos target n ltac:(unfold n; lia) ltac:(lia)).
      destruct (Z.eq_dec (Z.rem target n) 0) as [Hz|]; [|lia]. destruct Hm.
      apply Z.mod_divide; [unfold n; lia|]. apply Z.rem_divide; [unfold n; lia|done]. }
    destruct (Z.ltb_spec (Z.rem target n) 0); [done|lia].
Qed.
End rotation.

(** ** Concrete runs *)
#[local] Instance Z_BlsSign : BlsSign Z := {|
  sigZero := 0; sigAdd := Z.add; SerializeSig s := [s]; DeserializeSig b := default 0 (head b);
|}.
#[local] Instance Z_BlsSignLaws : BlsSignLaws Z.
Proof. split; simpl; [lia..|done]. Qed.

Definition demoKey (k : Z) : PublicKeyWrapper Z := mkPublicKeyWrapper k k.
Definition demoKeys : list (PublicKeyWrapper Z) := map demoKey [11; 12; 13; 14; 15].
Definition demoTracker : cIdentities Z Z := UpdateParticipants newBallotsBackedSignatureReader demoKeys.

(** Four of five participants vote for a block in the prepare phase. *)
Definition demoPrepared : cIdentities Z Z :=
  (submitVote (submitVote demoTracker Prepare [11; 12] 5 7 1 1).1 Prepare [13; 14] 6 7 1 1).1.

Lemma uniform_quorum_intersection_witness :
  3 * Z.of_nat (size (signers demoPrepared Prepare ∩ signers demoPrepared Prepare)) > 5.
Proof.
  apply (uniform_quorum_intersection demoPrepared demoPrepared Prepare Prepare);
    [reflexivity| |vm_compute; reflexivity|vm_compute; reflexivity].
  apply (bool_decide_unpack _). vm_compute. exact I.
Defined.

(** A decider of the demo committee, and the three Harmony votes that make a quorum. *)
Definition demoDecider : stakedVoteWeight Z Z :=
  (stakedSetVoters (λ _, demoInstance) false (stakedNewDecider 1) demoCommittee (Some 5)).1.
Definition demoVoted : stakedVoteWeight Z Z :=
  match stakedAddNewVote demoDecider Commit (map demoKey [11; 12; 13]) 5 7 1 1 with
  | Some (v, _) => v
  | None => demoDecider
  end.

Lemma nonnegRoster_check (r : Roster) :
  bool_decide (map_Forall (λ _ v, 0 ≤ OverallPercent v) (Voters r)) = true → nonnegRoster r.
Proof.
  intros Hall%bool_decide_eq_true k. unfold shareOf. destruct (Voters r !! k) as [v|] eqn:E; [|done]. by apply (Hall k).
Qed.

Lemma demoVoted_run :
  ∃ res, stakedAddNewVote demoDecider Commit (map demoKey [11; 12; 13]) 5 7 1 1 = Some (demoVoted, res).
Proof.
  destruct (eval_Some (stakedAddNewVote demoDecider Commit (map demoKey [11; 12; 13]) 5 7 1 1) (λ _, true))
    as ([v res] & E & _); [vm_compute; reflexivity|]. exists res. unfold demoVoted. rewrite E. done.
Qed.

Lemma demoVoted_reachable : stakedReachable (λ _, demoInstance) false demoVoted.
Proof.
  destruct demoVoted_run as [res Hrun]. eapply reach_AddNewVote; [|exact Hrun].
  eapply (reach_SetVoters _ _ (stakedNewDecider 1) demoCommittee (Some 5) demoDecider);
    [apply reach_new|apply surjective_pairing|]. apply nonnegRoster_check. vm_compute. reflexivity.
Qed.

Lemma staked_tally_witness :
  stakedIsQuorumAchieved demoVoted Commit = true ∧ signers (reader demoVoted) Commit ⊆ dom (Voters (roster demoVoted)).
Proof.
  destruct (staked_tally (λ _, demoInstance) false demoVoted Commit demoVoted_reachable I) as (_ & -> & Hs).
  split; [vm_compute; reflexivity|exact Hs].
Defined.

Lemma demoVoted_one : map_sum (λ _ x, OverallPercent x) (Voters (roster demoVoted)) = OneDec.
Proof. vm_compute. reflexivity. Qed.


Lemma staked_IsAllSigsCollected_witness :
  stakedIsAllSigsCollected demoVoted = Some true ↔
  ∀ k, 0 < shareOf (roster demoVoted) k → k ∈ signers (reader demoVoted) Commit.
Proof.
  apply (staked_IsAllSigsCollected (λ _, demoInstance) false demoVoted demoVoted_reachable demoVoted_one).
Defined.

Lemma stakeVerifier_agrees_witness :
  ∃ sv, newStakeVerifier (λ _, demoInstance) false demoCommittee (Some 5) = Ok sv ∧
    stakeVerifierIsQuorumAchievedByMask sv (Some (emptyMask demoKeys)) =
    stakedIsQuorumAchievedByMask demoDecider (Some (emptyMask demoKeys)).
Proof.
  eexists. split; [vm_compute; reflexivity|].
  eapply (stakeVerifier_agrees (λ _, demoInstance) false (stakedNewDecider 1) demoDecider _ _ demoCommittee (Some 5));
    vm_compute; reflexivity.
Defined.

Lemma uniformVerifier_ignores_bitmap_witness :
  uniformVerifierIsQuorumAchievedByMask (mkUniformVerifier 5) (Some (emptyMask demoKeys)) = Some true.
Proof. apply (uniformVerifier_ignores_bitmap (Sg := Z) demoKeys). simpl. lia. Defined.

Definition demoVotes : list (voteMsg (Sg := Z)) :=
  [mkVoteMsg Prepare [11; 12] 5 7 1 1; mkVoteMsg Commit [11] 9 7 1 1; mkVoteMsg Prepare [13] 6 7 1 1].

Lemma AggregateVotes_sum_witness :
  ∃ s', submitAll demoTracker demoVotes = Some s' ∧ AggregateVotes s' Prepare = 11.
Proof.
  destruct (eval_Some (submitAll demoTracker demoVotes) (λ _, true)) as (s' & Hs & _); [vm_compute; reflexivity|].
  exists s'. split; [exact Hs|].
  rewrite (AggregateVotes_sum demoTracker s' Prepare demoVotes);
    [vm_compute; reflexivity|vm_compute; reflexivity|exact Hs|].
  intros m Hm. unfold demoVotes in Hm. set_unfold in Hm. destruct_or! Hm; subst; discriminate.
Defined.

Lemma NthNext_spec_witness : NthNext demoTracker (demoKey 11) (-1) = None.
Proof.
  apply (NthNext_spec (newBallotsBackedSignatureReader (Sg := Z)) demoKeys 0 (demoKey 11) (-1));
    [|reflexivity|reflexivity|discriminate]. apply (bool_decide_unpack _). vm_compute. exact I.
Defined.
