(* ===== verification/Effective.v ===== *)
(** * Effective proof of stake (staking/effective/calculate.go)

    The auction of an epoch: every candidate spreads its stake over its keys, the highest bids
    win the open slots, and the stake that counts for a winner is its bid clamped to a band
    around the median.  The candidates come from a Go map, whose iteration order is not
    specified: the auction is defined on a list of its entries in any order. *)

From Stdlib Require Import ZArith Lia Sorted.
From stdpp Require Import base gmap list option sorting.
From S2P Require Import Prelude Decimal.
Local Open Scope Z_scope.

(** ** [sort.SliceStable]

    The result of a stable sort is determined by the order: insertion sort, an element going
    before those that are not less than it. *)
Section stable_sort.
Context {A : Type} (less : A → A → bool).

Fixpoint insertStable (x : A) (l : list A) : list A :=
  match l with
  | [] => [x]
  | y :: l' => if less y x then y :: insertStable x l' else x :: l
  end.
Definition SliceStable (l : list A) : list A := foldr insertStable [] l.

(** The comparison is the order of a key. *)
Context (key : A → Z) (Hless : ∀ x y, less x y = (key x <? key y)).
Definition keyLe (x y : A) : Prop := key x ≤ key y.

Lemma insertStable_perm x l : insertStable x l ≡ₚ x :: l.
Proof.
  induction l as [|y l IH]; cbn; [done|]. case_match; [|done]. rewrite IH. apply Permutation_swap.
Qed.

Lemma SliceStable_perm l : SliceStable l ≡ₚ l.
Proof. unfold SliceStable. induction l as [|x l IH]; cbn; [done|]. by rewrite insertStable_perm, IH. Qed.

Lemma insertStable_sorted x l : StronglySorted keyLe l → StronglySorted keyLe (insertStable x l).
Proof.
  induction 1 as [|y l Hs IH Hf]; cbn; [repeat constructor|]. rewrite Hless.
  destruct (Z.ltb_spec (key y) (key x)) as [Hlt|Hle].
  - constructor; [done|]. rewrite insertStable_perm. constructor; [unfold keyLe; lia|done].
  - constructor; [by constructor|]. constructor; [done|]. eapply Forall_impl; [done|]. unfold keyLe. intros z ?. lia.
Qed.

Lemma SliceStable_sorted l : StronglySorted keyLe (SliceStable l).
Proof. unfold SliceStable. induction l as [|x l IH]; cbn; [constructor|]. by apply insertStable_sorted. Qed.

(** A sorted slice is not moved. *)
Lemma SliceStable_id l : StronglySorted keyLe l → SliceStable l = l.
Proof.
  unfold SliceStable. induction 1 as [|x l Hs IH Hf]; cbn; [done|]. rewrite IH. destruct l as [|y l]; cbn; [done|].
  apply Forall_cons in Hf as [Hxy _]. rewrite Hless. destruct (Z.ltb_spec (key y) (key x)); [unfold keyLe in Hxy; lia|done].
Qed.

(** With distinct keys the result does not depend on the order of the slice. *)
Lemma SliceStable_order l1 l2 : l1 ≡ₚ l2 → NoDup (key <$> l1) → SliceStable l1 = SliceStable l2.
Proof.
  intros Hp Hnd. apply (StronglySorted_unique_strong keyLe); [|apply SliceStable_sorted..|].
  - intros x y Hx Hy H1 H2. rewrite SliceStable_perm in Hx, Hy. rewrite <-Hp in Hy.
    apply list_elem_of_lookup in Hx as [i Hi]. apply list_elem_of_lookup in Hy as [j Hj].
    assert (i = j) as ->; [|by simplify_eq].
    assert (key x = key y) as Hk by (unfold keyLe in *; lia).
    eapply NoDup_lookup; [exact Hnd|rewrite list_lookup_fmap, Hi; done|rewrite list_lookup_fmap, Hj; by rewrite Hk].
  - by rewrite !SliceStable_perm.
Qed.
End stable_sort.

(** ** Data *)
Record SlotPurchase := mkSlotPurchase { spAddr : Address; spKey : SerializedPublicKey; RawStake : Dec; EPoSStake : Dec }.
Record SlotOrder := mkSlotOrder { soStake : Z; SpreadAmong : list SerializedPublicKey; Percentage : Dec }.

Definition two : Dec := default 0 (NewDecFromBigInt 2).
Definition c15 : Dec := 15 * 10 ^ 16.
Definition cV2 : Dec := 35 * 10 ^ 16.
Definition onePlusC : Dec := default 0 (Add OneDec c15).
Definition oneMinusC : Dec := default 0 (Sub OneDec c15).
Definition onePlusCV2 : Dec := default 0 (Add OneDec cV2).
Definition oneMinusCV2 : Dec := default 0 (Sub OneDec cV2).

(** ** The auction; [None] is a panic (overflow of a decimal, a negative slice bound) *)
Definition rawGT (x y : SlotPurchase) : bool := GT (RawStake x) (RawStake y).

(** [Median] sorts the slice it is given in place: the result carries the slice. *)
Definition Median (stakes : list SlotPurchase) : option (Dec * list SlotPurchase) :=
  match stakes with
  | [] => Some (ZeroDec, [])
  | _ =>
      let sorted := SliceStable rawGT stakes in
      let l := length sorted in
      if Nat.even l then
        left ← sorted !! (l / 2 - 1)%nat;
        right ← sorted !! (l / 2)%nat;
        sum ← Add (RawStake left) (RawStake right);
        q ← Quo sum two;
        Some (q, sorted)
      else
        m ← sorted !! (l / 2)%nat;
        Some (RawStake m, sorted)
  end.

Definition expand (staker : Address * SlotOrder) : option (list SlotPurchase) :=
  let '(addr, slot) := staker in
  let slotsCount := length (SpreadAmong slot) in
  if decide (slotsCount = 0%nat) then Some []
  else
    d ← NewDecFromBigInt (soStake slot);
    spread ← QuoInt64 d (Z.of_nat slotsCount);
    Some ((λ k, mkSlotPurchase addr k spread spread) <$> SpreadAmong slot).

Definition addrLess (x y : Address * SlotOrder) : bool := x.1 <? y.1.

Fixpoint expandAll (stakers : list (Address * SlotOrder)) : option (list SlotPurchase) :=
  match stakers with
  | [] => Some []
  | s :: rest => l ← expand s; l' ← expandAll rest; Some (l ++ l')
  end.

Definition eposSlots (shortHand : list (Address * SlotOrder)) : option (list SlotPurchase) :=
  slots ← expandAll (SliceStable addrLess shortHand); Some (SliceStable rawGT slots).

Definition Compute (shortHand : list (Address * SlotOrder)) (pull : Z) : option (Dec * list SlotPurchase) :=
  match shortHand with
  | [] => Some (ZeroDec, [])
  | _ =>
      eposedSlots ← eposSlots shortHand;
      let l := Z.of_nat (length eposedSlots) in
      let pull := if l <? pull then l else pull in
      if pull <? 0 then None
      else
        match take (Z.to_nat pull) eposedSlots with
        | [] => Some (ZeroDec, [])
        | picks => Median picks
        end
  end.

Definition effectiveStake (min max actual : Dec) : Dec := MaxDec (MinDec max actual) min.

(** The band around the median, as (minimum, maximum). *)
Definition bounds (median : Dec) (isExtendedBound : bool) : option (Dec * Dec) :=
  max ← Mul onePlusC median;
  min ← Mul oneMinusC median;
  if isExtendedBound then
    maxV2 ← Mul onePlusCV2 median;
    minV2 ← Mul oneMinusCV2 median;
    Some (minV2, maxV2)
  else Some (min, max).

Definition Apply (shortHand : list (Address * SlotOrder)) (pull : Z) (isExtendedBound : bool)
    : option (Dec * list SlotPurchase) :=
  match Compute shortHand pull with
  | None => None
  | Some (median, picks) =>
      match bounds median isExtendedBound with
      | None => None
      | Some (min, max) =>
          Some (median,
                (λ p, mkSlotPurchase (spAddr p) (spKey p) (RawStake p) (effectiveStake min max (RawStake p))) <$> picks)
      end
  end.

(** ** The order of the map does not matter *)
Lemma rawGT_key x y : rawGT x y = (- RawStake x <? - RawStake y).
Proof.
  unfold rawGT, GT. destruct (Z.compare_spec (RawStake x) (RawStake y)), (Z.ltb_spec (- RawStake x) (- RawStake y)); done || lia.
Qed.

Lemma eposSlots_order sh1 sh2 : sh1 ≡ₚ sh2 → NoDup sh1.*1 → eposSlots sh1 = eposSlots sh2.
Proof.
  intros Hp Hnd. unfold eposSlots. by rewrite (SliceStable_order addrLess fst (λ x y, eq_refl) sh1 sh2 Hp Hnd).
Qed.

Lemma Compute_order sh1 sh2 pull : sh1 ≡ₚ sh2 → NoDup sh1.*1 → Compute sh1 pull = Compute sh2 pull.
Proof.
  intros Hp Hnd. pose proof (eposSlots_order _ _ Hp Hnd) as He. unfold Compute.
  destruct sh1 as [|x l], sh2 as [|y l']; [done|by apply Permutation_nil_cons in Hp
    |by symmetry in Hp; apply Permutation_nil_cons in Hp|by rewrite He].
Qed.

(** C28: The auction has the same outcome for every order in which the candidates, with distinct
    addresses, are iterated: the nodes agree on the winners and their stakes. *)
Theorem Apply_order sh1 sh2 pull ext : sh1 ≡ₚ sh2 → NoDup sh1.*1 → Apply sh1 pull ext = Apply sh2 pull ext.
Proof. intros Hp Hnd. unfold Apply. by rewrite (Compute_order _ _ pull Hp Hnd). Qed.

(** ** The winners are the highest bids *)
Definition rawLe (x y : SlotPurchase) : Prop := keyLe (λ p, - RawStake p) x y.

Lemma eposSlots_sorted sh slots : eposSlots sh = Some slots → StronglySorted rawLe slots.
Proof. unfold eposSlots. intros E. inv_bind. apply (SliceStable_sorted rawGT). apply rawGT_key. Qed.

Lemma StronglySorted_app_inv {A} (R : A → A → Prop) l1 l2 :
  StronglySorted R (l1 ++ l2) → StronglySorted R l1 ∧ (∀ x y, x ∈ l1 → y ∈ l2 → R x y).
Proof.
  induction l1 as [|a l1 IH]; cbn; intros Hs; [split; [constructor|by intros ?? ?%elem_of_nil]|].
  apply StronglySorted_inv in Hs as [Hs Hf]. destruct (IH Hs) as [H1 H2]. apply Forall_app in Hf as [Hf1 Hf2]. split.
  - by constructor.
  - intros x y [->|Hx]%elem_of_cons Hy; [|by apply H2]. rewrite Forall_forall in Hf2. by apply Hf2.
Qed.

Lemma Median_slice stakes m sl : StronglySorted rawLe stakes → Median stakes = Some (m, sl) → sl = stakes.
Proof.
  intros Hs E. unfold Median in E. rewrite (SliceStable_id rawGT _ rawGT_key stakes Hs) in E.
  destruct stakes; [by simplify_eq|]. case_match; inv_bind; done.
Qed.

(** The winners are a prefix of all bids in descending order. *)
Lemma Compute_prefix sh pull m picks :
  0 ≤ pull → Compute sh pull = Some (m, picks) →
  ∃ slots, (sh ≠ [] → eposSlots sh = Some slots) ∧ (sh = [] → slots = []) ∧ picks = take (Z.to_nat pull) slots.
Proof.
  intros Hpull E. unfold Compute in E. destruct sh as [|x l]; [simplify_eq; exists []; by rewrite take_nil|].
  apply bind_Some in E as (slots & Hsl & E). exists slots. split; [done|]. split; [done|].
  pose proof (eposSlots_sorted _ _ Hsl) as Hsorted.
  set (k := Z.to_nat (if Z.of_nat (length slots) <? pull then Z.of_nat (length slots) else pull)) in E.
  assert (take k slots = take (Z.to_nat pull) slots) as Htk.
  { unfold k. destruct (Z.ltb_spec (Z.of_nat (length slots)) pull); [|done]. rewrite !take_ge by lia. done. }
  case_match; [done|]. rewrite Htk in E. destruct (take (Z.to_nat pull) slots) as [|p ps] eqn:Et; [by simplify_eq|].
  apply (Median_slice _ m); [|done]. rewrite <-Et. rewrite <-(take_drop (Z.to_nat pull) slots) in Hsorted.
  by apply StronglySorted_app_inv in Hsorted as [? _].
Qed.

(** The winners are the highest bids, in descending order, as many as the open slots and the
    bids allow: nobody who lost bid more than a winner. *)
Theorem Compute_winners sh pull m picks slots :
  0 ≤ pull → eposSlots sh = Some slots → Compute sh pull = Some (m, picks) →
  picks = take (Z.to_nat pull) slots ∧ StronglySorted rawLe picks
  ∧ (∀ p q, p ∈ picks → q ∈ drop (Z.to_nat pull) slots → RawStake q ≤ RawStake p).
Proof.
  intros Hpull Hsl E. destruct (Compute_prefix _ _ _ _ Hpull E) as (slots' & H1 & H2 & ->).
  assert (slots' = slots) as ->.
  { destruct sh; [|rewrite H1 in Hsl; [by simplify_eq|done]]. rewrite H2 by done. cbn in Hsl. by injection Hsl as <-. }
  pose proof (eposSlots_sorted _ _ Hsl) as Hs. rewrite <-(take_drop (Z.to_nat pull) slots) in Hs.
  apply StronglySorted_app_inv in Hs as [Hs Hle]. split_and!; [done|done|].
  intros p q Hp Hq. pose proof (Hle p q Hp Hq) as H. unfold rawLe, keyLe in H. lia.
Qed.

(** ** The median *)
Lemma two_val : two = 2000000000000000000.
Proof. reflexivity. Qed.

Lemma Quo_two_between a b q : b ≤ a → Add a b ≫= (λ s, Quo s two) = Some q → b ≤ q ≤ a.
Proof.
  intros Hab E. inv_bind. apply checkBits_inv in E0 as [-> _]. unfold Quo in E. inv_bind.
  apply checkBits_inv in E as [-> _]. unfold bigQuo in E0. case_match; simplify_eq.
  replace ((a + b) * precisionReuse * precisionReuse) with (((a + b) * fivePrecision) * two) by (rewrite two_val, precisionReuse_val, fivePrecision_val; lia).
  rewrite Z.quot_mul by done. split.
  - rewrite <-(chopRound_exact b) at 1. apply chopRound_mono. rewrite precisionReuse_val, fivePrecision_val. lia.
  - rewrite <-(chopRound_exact a) at 2. apply chopRound_mono. rewrite precisionReuse_val, fivePrecision_val. lia.
Qed.

(** The median of a non-empty slice of bids lies between the two middle bids of the descending
    order, which are the same bid when their number is odd. *)
Theorem Median_between stakes m sl :
  stakes ≠ [] → Median stakes = Some (m, sl) →
  sl ≡ₚ stakes ∧ StronglySorted rawLe sl
  ∧ ∃ hi lo, sl !! ((length sl - 1) / 2)%nat = Some hi ∧ sl !! (length sl / 2)%nat = Some lo ∧ RawStake lo ≤ m ≤ RawStake hi.
Proof.
  intros Hne E. unfold Median in E. destruct stakes as [|x l]; [done|]. clear Hne. remember (x :: l) as stakes eqn:Est. clear x l Est.
  pose proof (SliceStable_perm rawGT stakes) as Hp. pose proof (SliceStable_sorted rawGT _ rawGT_key stakes) as Hs.
  remember (SliceStable rawGT stakes) as sorted eqn:Eso. set (L := length sorted) in *.
  pose proof (Nat.div_mod_eq L 2) as Hdm.
  destruct (Nat.even L) eqn:Ev.
  - apply Nat.even_spec in Ev as [k Hk]. assert (L / 2 = k)%nat as Hk2 by (rewrite Hk, Nat.mul_comm; by apply Nat.div_mul).
    apply bind_Some in E as (left & Hl & E). apply bind_Some in E as (right & Hr & E).
    apply bind_Some in E as (sum & Hsum & E). apply bind_Some in E as (q & Hq & [= <- <-]).
    assert (0 < L)%nat by (apply lookup_lt_Some in Hr; lia).
    assert ((L - 1) / 2 = L / 2 - 1)%nat as Hmid.
    { rewrite Hk2. replace (L - 1)%nat with (1 + (k - 1) * 2)%nat by lia. rewrite Nat.div_add by done. done. }
    assert (L / 2 - 1 < L / 2)%nat as Hlt by (rewrite Hk2; lia).
    split; [done|split; [done|]]. exists left, right. fold L. rewrite Hmid. split; [done|split; [done|]].
    eapply Quo_two_between; [|by rewrite Hsum].
    rewrite <-(take_drop (L / 2) sorted) in Hs. apply StronglySorted_app_inv in Hs as [_ Hle].
    pose proof (Hle left right) as Hlr. unfold rawLe, keyLe in Hlr. enough (- RawStake left ≤ - RawStake right) by lia. apply Hlr.
    + eapply list_elem_of_lookup_2. rewrite lookup_take_lt; [exact Hl|exact Hlt].
    + eapply (list_elem_of_lookup_2 _ 0%nat). by rewrite lookup_drop, Nat.add_0_r.
  - apply bind_Some in E as (mid & Hmid & [= <- <-]).
    assert (Nat.odd L = true) as Ho by (by rewrite <-Nat.negb_even, Ev). apply Nat.odd_spec in Ho as [k Hk].
    split; [done|split; [done|]]. exists mid, mid. fold L.
    assert (L / 2 = k ∧ (L - 1) / 2 = k)%nat as [E1 E2].
    { rewrite Hk. split; [rewrite Nat.add_comm, Nat.mul_comm, Nat.div_add by done; done|].
      replace (2 * k + 1 - 1)%nat with (k * 2)%nat by lia. by apply Nat.div_mul. }
    rewrite E2, <-E1. done.
Qed.

(** ** The band *)
Lemma bounds_le m ext lo hi : 0 ≤ m → bounds m ext = Some (lo, hi) → 0 ≤ lo ≤ hi.
Proof.
  intros Hm E. unfold bounds in E. apply bind_Some in E as (hi0 & H1 & E). apply bind_Some in E as (lo0 & H2 & E).
  apply checkBits_inv in H1 as [H1 _]. apply checkBits_inv in H2 as [H2 _].
  assert (∀ a b, 0 ≤ a ≤ b → 0 ≤ chopPrecisionAndRound (a * m) ≤ chopPrecisionAndRound (b * m)) as Hmono.
  { intros a b Hab. split; [apply chopRound_nonneg; nia|apply chopRound_mono; nia]. }
  destruct ext.
  - apply bind_Some in E as (hi1 & H3 & E). apply bind_Some in E as (lo1 & H4 & E). injection E as <- <-.
    apply checkBits_inv in H3 as [-> _]. apply checkBits_inv in H4 as [-> _]. apply Hmono. vm_compute. split; discriminate.
  - injection E as <- <-. rewrite H1, H2. apply Hmono. vm_compute. split; discriminate.
Qed.

Lemma effectiveStake_clamp lo hi x :
  lo ≤ hi → effectiveStake lo hi x = if x <? lo then lo else if hi <? x then hi else x.
Proof.
  intros Hle. unfold effectiveStake, MaxDec, MinDec, LT. rewrite !Z.compare_lt_iff || idtac.
  destruct (Z.ltb_spec x lo), (Z.ltb_spec hi x), (Z.compare_spec hi x); try lia;
    match goal with |- context [?a ?= ?b] => destruct (Z.compare_spec a b) end; lia.
Qed.

(** A winner's effective stake is its bid, clamped to the band of fifteen (or, extended,
    thirty-five) percent around the median; the winners keep their addresses, keys and bids, and
    a higher bid never gets a lower effective stake. *)
Theorem Apply_clamps sh pull ext m picks :
  Apply sh pull ext = Some (m, picks) → 0 ≤ m →
  ∃ raw lo hi, Compute sh pull = Some (m, raw) ∧ bounds m ext = Some (lo, hi) ∧ 0 ≤ lo ≤ hi
    ∧ ((λ p, (spAddr p, spKey p, RawStake p)) <$> picks) = ((λ p, (spAddr p, spKey p, RawStake p)) <$> raw)
    ∧ (∀ p, p ∈ picks → lo ≤ EPoSStake p ≤ hi
         ∧ EPoSStake p = if RawStake p <? lo then lo else if hi <? RawStake p then hi else RawStake p)
    ∧ (∀ p q, p ∈ picks → q ∈ picks → RawStake p ≤ RawStake q → EPoSStake p ≤ EPoSStake q).
Proof.
  intros E Hm. unfold Apply in E. destruct (Compute sh pull) as [[m0 raw]|] eqn:Ec; [|done].
  destruct (bounds m0 ext) as [[lo hi]|] eqn:Eb; [|done]. injection E as -> <-.
  pose proof (bounds_le _ _ _ _ Hm Eb) as Hle. exists raw, lo, hi.
  assert (∀ p, p ∈ ((λ p, mkSlotPurchase (spAddr p) (spKey p) (RawStake p) (effectiveStake lo hi (RawStake p))) <$> raw) →
    EPoSStake p = if RawStake p <? lo then lo else if hi <? RawStake p then hi else RawStake p) as Hp.
  { intros p (x & -> & _)%list_elem_of_fmap. apply effectiveStake_clamp. lia. }
  split; [done|]. split; [done|]. split; [done|]. split; [by rewrite <-list_fmap_compose|]. split.
  - intros p Hin. rewrite (Hp p Hin). split; [|done].
    destruct (Z.ltb_spec (RawStake p) lo), (Z.ltb_spec hi (RawStake p)); lia.
  - intros p q Hin Hiq Hr. rewrite (Hp p Hin), (Hp q Hiq).
    destruct (Z.ltb_spec (RawStake p) lo), (Z.ltb_spec hi (RawStake p)), (Z.ltb_spec (RawStake q) lo), (Z.ltb_spec hi (RawStake q)); lia.
Qed.

(** ** A concrete auction: three candidates, five keys, four slots *)
Definition demoOrders : list (Address * SlotOrder) :=
  [(3, mkSlotOrder 40 [31; 32] 0); (1, mkSlotOrder 100 [11] 0); (2, mkSlotOrder 30 [21; 22] 0)].

Definition demoPicks : list SlotPurchase :=
  (λ '(a, k, r), mkSlotPurchase a k (r * OneDec) (r * OneDec)) <$> [(1, 11, 100); (3, 31, 20); (3, 32, 20); (2, 21, 15)].

Lemma demo_Compute : Compute demoOrders 4 = Some (20 * OneDec, demoPicks).
Proof. vm_compute. reflexivity. Qed.

Lemma Apply_order_witness : Apply demoOrders 4 true = Apply (reverse demoOrders) 4 true.
Proof.
  apply (Apply_order demoOrders (reverse demoOrders) 4 true); [symmetry; apply reverse_Permutation|].
  cbn. apply (bool_decide_unpack (NoDup _)). vm_compute. done.
Defined.

Lemma Compute_winners_witness :
  ∃ slots, eposSlots demoOrders = Some slots ∧ take 4 slots = demoPicks
    ∧ ∀ p q, p ∈ demoPicks → q ∈ drop 4 slots → RawStake q ≤ RawStake p.
Proof.
  destruct (eposSlots demoOrders) as [slots|] eqn:E; [|vm_compute in E; discriminate E].
  destruct (Compute_winners demoOrders 4 _ _ slots ltac:(lia) E demo_Compute) as (Hp & _ & Hle).
  exists slots. split; [done|]. split; [symmetry; exact Hp|exact Hle].
Defined.

Lemma Median_between_witness : ∃ m sl, Median demoPicks = Some (m, sl) ∧ sl ≡ₚ demoPicks ∧ m = 20 * OneDec.
Proof.
  exists (20 * OneDec), demoPicks. assert (Median demoPicks = Some (20 * OneDec, demoPicks)) as E by (vm_compute; reflexivity).
  split; [exact E|]. split; [|done]. exact (proj1 (Median_between demoPicks _ _ ltac:(done) E)).
Defined.

(** The richest bid counts for 23 only, the smallest for 17. *)
Lemma Apply_clamps_witness :
  ∃ picks, Apply demoOrders 4 false = Some (20 * OneDec, picks)
    ∧ (EPoSStake <$> picks) = (λ x, x * OneDec) <$> [23; 20; 20; 17]
    ∧ ∀ p q, p ∈ picks → q ∈ picks → RawStake p ≤ RawStake q → EPoSStake p ≤ EPoSStake q.
Proof.
  destruct (Apply demoOrders 4 false) as [[m picks]|] eqn:E; [|vm_compute in E; discriminate E].
  assert (m = 20 * OneDec ∧ (EPoSStake <$> picks) = (λ x, x * OneDec) <$> [23; 20; 20; 17]) as [-> Hs].
  { vm_compute in E. injection E as <- <-. vm_compute. split; reflexivity. }
  exists picks. split; [done|]. split; [exact Hs|].
  destruct (Apply_clamps demoOrders 4 false _ _ E ltac:(vm_compute; discriminate)) as (raw & lo & hi & _ & _ & _ & _ & _ & Hm). exact Hm.
Defined.
