(* ===== verification/Staking.v ===== *)
(** * Validators and delegations (staking/types, staking/availability)

    The staking records a validator keeps on chain: its keys, commission and bounds, the
    delegations to it and their undelegations, its signing counters.  Amounts are
    arbitrary-precision integers ([*big.Int]); a pointer that the code tests for nil is an
    [option].  The decimals of a decoded validator are never nil.  The BLS library and the hash
    are the interface [BLSLib], the sharding schedule of the network is [Schedule].  Texts
    ([String], [MarshalJSON]), hashes of delegations and the statistics records are not
    modelled. *)

From Stdlib Require Import ZArith Lia Ascii String Sorted.
From stdpp Require Import base gmap list option sets sorting.
From S2P Require Import Prelude Decimal ShardState Effective.
Local Open Scope Z_scope.

(** ** Eligibility ([staking/effective/eligible.go]): a byte, of any value once decoded *)
Definition eligNil : Z := 0.
Definition Active : Z := 1.
Definition Inactive : Z := 2.
Definition Banned : Z := 3.

Inductive Candidacy := CandUnknown | ForeverBanned | Candidate | NotCandidate | Elected.

Definition ValidatorStatus (currentlyInCommittee : bool) (status : Z) : Candidacy :=
  if status =? Banned then ForeverBanned
  else if currentlyInCommittee then Elected
  else if status =? Active then Candidate
  else NotCandidate.

(** ** Delegations ([staking/types/delegation.go]) *)
Record Undelegation := mkUndelegation { uAmount : Z; uEpoch : Z }.
Record Delegation := mkDelegation {
  DelegatorAddress : Address; dAmount : Z; dReward : Z; Undelegations : list Undelegation;
}.
Record DelegationIndex := mkDelegationIndex { diValidator : Address; diIndex : Z; diBlockNum : Z }.

Definition LockPeriodInEpoch : Z := 7.
Definition LockPeriodInEpochV2 : Z := 0.

Definition withAmount (d : Delegation) (a : Z) : Delegation :=
  mkDelegation (DelegatorAddress d) a (dReward d) (Undelegations d).
Definition withReward (d : Delegation) (r : Z) : Delegation :=
  mkDelegation (DelegatorAddress d) (dAmount d) r (Undelegations d).
Definition withUndelegations (d : Delegation) (l : list Undelegation) : Delegation :=
  mkDelegation (DelegatorAddress d) (dAmount d) (dReward d) l.

Definition NewDelegation (delegatorAddr : Address) (amount : Z) : Delegation := mkDelegation delegatorAddr amount 0 [].

Inductive delegationError := errInvalidAmount | errInsufficientBalance.

(** The search of the loop: the entry of the epoch, if any, grows. *)
Fixpoint addToEntry (epoch amt : Z) (us : list Undelegation) : option (list Undelegation) :=
  match us with
  | [] => None
  | u :: us' =>
      if uEpoch u =? epoch then Some (mkUndelegation (uAmount u + amt) (uEpoch u) :: us')
      else us'' ← addToEntry epoch amt us'; Some (u :: us'')
  end.

Definition epochLess (u v : Undelegation) : bool := uEpoch u <? uEpoch v.

Definition Undelegate (d : Delegation) (epoch amt : Z) : delegationError + Delegation :=
  if amt <=? 0 then inl errInvalidAmount
  else if dAmount d <? amt then inl errInsufficientBalance
  else
    let d1 := withAmount d (dAmount d - amt) in
    match addToEntry epoch amt (Undelegations d1) with
    | Some us => inr (withUndelegations d1 us)
    | None => inr (withUndelegations d1 (SliceStable epochLess (Undelegations d1 ++ [mkUndelegation amt epoch])))
    end.

Definition TotalInUndelegation (d : Delegation) : Z := foldl (λ total u, total + uAmount u) 0 (Undelegations d).

(** [append(s[:i], s[i+1:]...)] moves the tail of the array [s] one place down and leaves the
    last element of the array where it was. *)
Definition shiftOut {A} (i : nat) (s : list A) : list A := take i s ++ drop (S i) s ++ drop (length s - 1) s.

(** The loop of [DeleteEntry] reads the array it shifts; [hit] records that [entries] was
    assigned a slice of it. *)
Fixpoint deleteLoop (epoch : Z) (k i : nat) (arr : list Undelegation) (hit : bool) : list Undelegation * bool :=
  match k with
  | O => (arr, hit)
  | S k' =>
      match arr !! i with
      | Some e => if uEpoch e =? epoch then deleteLoop epoch k' (S i) (shiftOut i arr) true
                  else deleteLoop epoch k' (S i) arr hit
      | None => (arr, hit)
      end
  end.

(** [entries] starts as an empty slice that is not nil, so it is always stored. *)
Definition DeleteEntry (d : Delegation) (epoch : Z) : Delegation :=
  let us := Undelegations d in
  let '(arr, hit) := deleteLoop epoch (length us) 0 us false in
  withUndelegations d (if hit then take (length us - 1) arr else []).

Definition unlocked (curEpoch lastEpochInCommittee lockPeriod : Z) (noEarlyUnlock : bool) (u : Undelegation) : bool :=
  (lockPeriod <=? i64 (curEpoch - uEpoch u))
  || (negb noEarlyUnlock && (lockPeriod <=? i64 (curEpoch - lastEpochInCommittee))).

Fixpoint unlockLoop (p : Undelegation → bool) (us : list Undelegation) (totalWithdraw : Z) : Z * list Undelegation :=
  match us with
  | [] => (totalWithdraw, [])
  | u :: us' => if p u then unlockLoop p us' (totalWithdraw + uAmount u) else (totalWithdraw, us)
  end.

Definition RemoveUnlockedUndelegations (d : Delegation) (curEpoch lastEpochInCommittee lockPeriod : Z)
    (noEarlyUnlock : bool) : Z * Delegation :=
  let '(total, us) := unlockLoop (unlocked curEpoch lastEpochInCommittee lockPeriod noEarlyUnlock) (Undelegations d) 0 in
  (total, withUndelegations d us).

(** ** Validators ([staking/types/validator.go], [commission.go]) *)
Record Description := mkDescription {
  descName : text; Identity : text; Website : text; SecurityContact : text; Details : text;
}.
Record CommissionRates := mkCommissionRates { Rate : Dec; MaxRate : Dec; MaxChangeRate : Dec }.
Record Commission := mkCommission { Rates : CommissionRates; UpdateHeight : Z }.
Record Counters := mkCounters { NumBlocksToSign : Z; NumBlocksSigned : Z }.

Record Validator := mkValidator {
  vAddress : Address;
  SlotPubKeys : list SerializedPublicKey;
  LastEpochInCommittee : Z;
  MinSelfDelegation : option Z;
  MaxTotalDelegation : option Z;
  Status : Z;
  vCommission : Commission;
  vDescription : Description;
  CreationHeight : Z;
}.

Record Wrapper := mkWrapper {
  wValidator : Validator; Delegations : list Delegation; wCounters : Counters; BlockReward : Z;
}.
#[export] Instance Undelegation_eq_dec : EqDecision Undelegation. Proof. solve_decision. Defined.
#[export] Instance Delegation_eq_dec : EqDecision Delegation. Proof. solve_decision. Defined.
#[export] Instance Description_eq_dec : EqDecision Description. Proof. solve_decision. Defined.
#[export] Instance CommissionRates_eq_dec : EqDecision CommissionRates. Proof. solve_decision. Defined.
#[export] Instance Commission_eq_dec : EqDecision Commission. Proof. solve_decision. Defined.
#[export] Instance Counters_eq_dec : EqDecision Counters. Proof. solve_decision. Defined.
#[export] Instance Validator_eq_dec : EqDecision Validator. Proof. solve_decision. Defined.
#[export] Instance Wrapper_eq_dec : EqDecision Wrapper. Proof. solve_decision. Defined.
Record ValidatorSnapshot := mkSnapshot { snapValidator : Wrapper; snapEpoch : Z }.

Definition withStatus (v : Validator) (st : Z) : Validator :=
  mkValidator (vAddress v) (SlotPubKeys v) (LastEpochInCommittee v) (MinSelfDelegation v) (MaxTotalDelegation v)
    st (vCommission v) (vDescription v) (CreationHeight v).
Definition withKeys (v : Validator) (ks : list SerializedPublicKey) : Validator :=
  mkValidator (vAddress v) ks (LastEpochInCommittee v) (MinSelfDelegation v) (MaxTotalDelegation v)
    (Status v) (vCommission v) (vDescription v) (CreationHeight v).
Definition withBounds (v : Validator) (lo hi : option Z) : Validator :=
  mkValidator (vAddress v) (SlotPubKeys v) (LastEpochInCommittee v) lo hi
    (Status v) (vCommission v) (vDescription v) (CreationHeight v).
Definition withCommission (v : Validator) (c : Commission) : Validator :=
  mkValidator (vAddress v) (SlotPubKeys v) (LastEpochInCommittee v) (MinSelfDelegation v) (MaxTotalDelegation v)
    (Status v) c (vDescription v) (CreationHeight v).
Definition withDescription (v : Validator) (d : Description) : Validator :=
  mkValidator (vAddress v) (SlotPubKeys v) (LastEpochInCommittee v) (MinSelfDelegation v) (MaxTotalDelegation v)
    (Status v) (vCommission v) d (CreationHeight v).
Definition vRate (v : Validator) : Dec := Rate (Rates (vCommission v)).
Definition withRate (v : Validator) (r : Dec) : Validator :=
  let c := vCommission v in
  withCommission v (mkCommission (mkCommissionRates r (MaxRate (Rates c)) (MaxChangeRate (Rates c))) (UpdateHeight c)).
Definition withValidator (w : Wrapper) (v : Validator) : Wrapper :=
  mkWrapper v (Delegations w) (wCounters w) (BlockReward w).
Definition withDelegations (w : Wrapper) (l : list Delegation) : Wrapper :=
  mkWrapper (wValidator w) l (wCounters w) (BlockReward w).

Definition MaxNameLength : nat := 140.
Definition MaxIdentityLength : nat := 140.
Definition MaxWebsiteLength : nat := 140.
Definition MaxSecurityContactLength : nat := 140.
Definition MaxDetailsLength : nat := 280.
Definition MaxBLSPerValidator : nat := 106.
Definition oneAsBigInt : Z := 10 ^ 18.
Definition minimumStake : Z := oneAsBigInt * 10000.
Definition hundredPercent : Dec := default 0 (NewDec 1).
Definition zeroPercent : Dec := default 0 (NewDec 0).

Inductive stakingError :=
| errDescription | errNeedAtLeastOneSlotKey | ErrExcessiveBLSKeys | errNilMinSelfDelegation | errNilMaxTotalDelegation
| errMinSelfDelegationTooSmall | errInvalidMaxTotalDelegation | errInvalidCommissionRate | errCommissionRateTooLarge
| errDuplicateSlotKeys | ErrInvalidSelfDelegation | errInvalidTotalDelegation | errBLSKeysNotMatchSigs | errSignature
| errAddressNotMatch | errSlotKeyToRemoveNotFound | errSlotKeyToAddExists | errCannotChangeBannedTrait.

Definition EnsureLength (d : Description) : stakingError + Description :=
  if decide (MaxNameLength < length (descName d))%nat then inl errDescription
  else if decide (MaxIdentityLength < length (Identity d))%nat then inl errDescription
  else if decide (MaxWebsiteLength < length (Website d))%nat then inl errDescription
  else if decide (MaxSecurityContactLength < length (SecurityContact d))%nat then inl errDescription
  else if decide (MaxDetailsLength < length (Details d))%nat then inl errDescription
  else inr d.

Definition orElse (new old : text) : text := match new with [] => old | _ => new end.

Definition UpdateDescription (d1 d2 : Description) : stakingError + Description :=
  EnsureLength (mkDescription (orElse (descName d2) (descName d1)) (orElse (Identity d2) (Identity d1))
    (orElse (Website d2) (Website d1)) (orElse (SecurityContact d2) (SecurityContact d1))
    (orElse (Details d2) (Details d1))).

(** The loop over the keys with the map of those seen. *)
Fixpoint duplicateKey (allKeys : gset SerializedPublicKey) (keys : list SerializedPublicKey) : bool :=
  match keys with
  | [] => false
  | k :: keys' => if decide (k ∈ allKeys) then true else duplicateKey ({[k]} ∪ allKeys) keys'
  end.

Definition badRate (r : Dec) : bool := LT r zeroPercent || GT r hundredPercent.

(** [Validator.SanityCheck]; [None] is a nil error. *)
Definition validatorSanityCheck (v : Validator) : option stakingError :=
  match EnsureLength (vDescription v) with
  | inl e => Some e
  | inr _ =>
      let rates := Rates (vCommission v) in
      if decide (length (SlotPubKeys v) = O) then Some errNeedAtLeastOneSlotKey
      else if decide (MaxBLSPerValidator < length (SlotPubKeys v))%nat then Some ErrExcessiveBLSKeys
      else match MinSelfDelegation v, MaxTotalDelegation v with
           | None, _ => Some errNilMinSelfDelegation
           | Some _, None => Some errNilMaxTotalDelegation
           | Some lo, Some hi =>
               if lo <? minimumStake then Some errMinSelfDelegationTooSmall
               else if hi <? lo then Some errInvalidMaxTotalDelegation
               else if badRate (Rate rates) then Some errInvalidCommissionRate
               else if badRate (MaxRate rates) then Some errInvalidCommissionRate
               else if badRate (MaxChangeRate rates) then Some errInvalidCommissionRate
               else if GT (Rate rates) (MaxRate rates) then Some errCommissionRateTooLarge
               else if GT (MaxChangeRate rates) (MaxRate rates) then Some errCommissionRateTooLarge
               else if duplicateKey ∅ (SlotPubKeys v) then Some errDuplicateSlotKeys
               else None
           end
  end.

Definition TotalDelegation (w : Wrapper) : Z := foldl (λ total d, total + dAmount d) 0 (Delegations w).

(** [ValidatorWrapper.SanityCheck]; the bounds are not nil once the validator passes. *)
Definition wrapperSanityCheck (w : Wrapper) : option stakingError :=
  let v := wValidator w in
  match validatorSanityCheck v with
  | Some e => Some e
  | None =>
      match Delegations w with
      | [] => Some ErrInvalidSelfDelegation
      | self :: _ =>
          if negb (Status v =? Banned) && (dAmount self <? default 0 (MinSelfDelegation v)) && (Status v =? Active)
          then Some ErrInvalidSelfDelegation
          else if default 0 (MaxTotalDelegation v) <? TotalDelegation w then Some errInvalidTotalDelegation
          else None
      end
  end.

(** ** Keys *)
Class BLSLib := {
  BLSKey : Type;
  BLSSign : Type;
  BytesToBLSPublicKey : SerializedPublicKey → option BLSKey;
  signDeserialize : Z → option BLSSign;
  VerifyHash : BLSSign → BLSKey → bytes → bool;
  hashKeccak256 : text → bytes;
}.
Class Schedule := InstanceForEpoch : Z → instance.

Definition hexDigit (n : Z) : ascii := ascii_of_N (Z.to_N (if n <? 10 then 48 + n else 87 + n)).
Definition Hex (pk : SerializedPublicKey) : text :=
  concat (map (λ b, [hexDigit (b / 16); hexDigit (b mod 16)]) (toBytes 48 pk)).

Definition BLSVerificationStr : text := asText "harmony-one".

(** The cache is a map of this one call: the account keys. *)
Definition matchesHarmonyBLSKey (blsKey : SerializedPublicKey) (accounts : list DeployAccount) : option stakingError :=
  if existsb (λ a, text_eqb (accBLSPublicKey a) (Hex blsKey)) accounts then Some errDuplicateSlotKeys else None.

Fixpoint containsHarmonyBLSKeys (blsKeys : list SerializedPublicKey) (accounts : list DeployAccount)
    : option stakingError :=
  match blsKeys with
  | [] => None
  | k :: ks => match matchesHarmonyBLSKey k accounts with Some e => Some e | None => containsHarmonyBLSKeys ks accounts end
  end.

Section messages.
Context `{BL : BLSLib} `{SC : Schedule}.

(** The length of an array pointer is that of the array, also for a nil pointer; slicing a nil
    pointer panics. *)
Definition VerifyBLSKey (pubKey : SerializedPublicKey) (pubKeySig : option Z) : result stakingError unit :=
  match BytesToBLSPublicKey pubKey with
  | None => Err errBLSKeysNotMatchSigs
  | Some blsPubKey =>
      match pubKeySig with
      | None => Panic
      | Some sig =>
          match signDeserialize sig with
          | None => Err errSignature
          | Some msgSig =>
              if VerifyHash msgSig blsPubKey (hashKeccak256 BLSVerificationStr) then Ok () else Err errBLSKeysNotMatchSigs
          end
      end
  end.

Fixpoint verifyLoop (pubKeys : list SerializedPublicKey) (pubKeySigs : list Z) : result stakingError unit :=
  match pubKeys, pubKeySigs with
  | k :: ks, s :: ss => _ ← VerifyBLSKey k (Some s); verifyLoop ks ss
  | _, _ => Ok ()
  end.

Definition VerifyBLSKeys (pubKeys : list SerializedPublicKey) (pubKeySigs : list Z) : result stakingError unit :=
  if decide (length pubKeys = length pubKeySigs) then verifyLoop pubKeys pubKeySigs else Err errBLSKeysNotMatchSigs.

(** ** Messages ([staking/types/messages.go]) *)
Record CreateValidator := mkCreateValidator {
  cvAddress : Address; cvDescription : Description; cvRates : CommissionRates;
  cvMinSelf : option Z; cvMaxTotal : option Z; cvKeys : list SerializedPublicKey; cvSigs : list Z; cvAmount : Z;
}.
Record EditValidator := mkEditValidator {
  evAddress : Address; evDescription : Description; evRate : option Dec;
  evMinSelf : option Z; evMaxTotal : option Z;
  SlotKeyToRemove : option SerializedPublicKey; SlotKeyToAdd : option SerializedPublicKey; SlotKeyToAddSig : option Z;
  EPOSStatus : Z;
}.
Record DelegateMsg := mkDelegateMsg { dmDelegator : Address; dmValidator : Address; dmAmount : Z }.
Record UndelegateMsg := mkUndelegateMsg { umDelegator : Address; umValidator : Address; umAmount : Z }.

Definition CreateValidatorFromNewMsg (val : CreateValidator) (blockNum epoch : Z) : result stakingError Validator :=
  match EnsureLength (cvDescription val) with
  | inl e => Err e
  | inr desc =>
      match containsHarmonyBLSKeys (cvKeys val) (hmyAccounts (InstanceForEpoch epoch)) with
      | Some e => Err e
      | None =>
          _ ← VerifyBLSKeys (cvKeys val) (cvSigs val);
          Ok (mkValidator (cvAddress val) (cvKeys val) 0 (cvMinSelf val) (cvMaxTotal val) Active
                (mkCommission (cvRates val) blockNum) desc blockNum)
      end
  end.

(** A bound of the message replaces the validator's unless it is nil or zero. *)
Definition editedBound (new old : option Z) : option Z :=
  match new with Some z => if Z.sgn z =? 0 then old else new | None => old end.

Definition keyIndex (k : SerializedPublicKey) (keys : list SerializedPublicKey) : option nat :=
  fst <$> list_find (λ k', k' = k) keys.

Definition removeKey (toRemove : option SerializedPublicKey) (v : Validator) : result stakingError Validator :=
  match toRemove with
  | None => Ok v
  | Some k =>
      match keyIndex k (SlotPubKeys v) with
      | Some i => Ok (withKeys v (take i (SlotPubKeys v) ++ drop (S i) (SlotPubKeys v)))
      | None => Err errSlotKeyToRemoveNotFound
      end
  end.

Definition addKey (toAdd : option SerializedPublicKey) (sig : option Z) (epoch : Z) (v : Validator)
    : result stakingError Validator :=
  match toAdd with
  | None => Ok v
  | Some k =>
      if decide (k ∈ SlotPubKeys v) then Err errSlotKeyToAddExists
      else match matchesHarmonyBLSKey k (hmyAccounts (InstanceForEpoch epoch)) with
           | Some e => Err e
           | None => _ ← VerifyBLSKey k sig; Ok (withKeys v (SlotPubKeys v ++ [k]))
           end
  end.

Definition editStatus (st : Z) (v : Validator) : result stakingError Validator :=
  if Status v =? Banned then Err errCannotChangeBannedTrait
  else if (st =? Active) || (st =? Inactive) then Ok (withStatus v st)
  else Ok v.

(** The validator as the call leaves it when it succeeds. *)
Definition UpdateValidatorFromEditMsg (validator : Validator) (edit : EditValidator) (epoch : Z)
    : result stakingError Validator :=
  if negb (vAddress validator =? evAddress edit) then Err errAddressNotMatch
  else match UpdateDescription (vDescription validator) (evDescription edit) with
       | inl e => Err e
       | inr desc =>
           let v1 := withDescription validator desc in
           let v2 := match evRate edit with Some r => withRate v1 r | None => v1 end in
           let v3 := withBounds v2 (editedBound (evMinSelf edit) (MinSelfDelegation v2)) 
                       (editedBound (evMaxTotal edit) (MaxTotalDelegation v2)) in
           v4 ← removeKey (SlotKeyToRemove edit) v3;
           v5 ← addKey (SlotKeyToAdd edit) (SlotKeyToAddSig edit) epoch v4;
           editStatus (EPOSStatus edit) v5
       end.
End messages.

(** ** Availability ([staking/availability/measure.go]) *)
Definition measure : Dec := default 0 (a ← NewDec 2; b ← NewDec 3; Quo a b).
Definition MinCommissionRate : Dec := 5 * 10 ^ 16.

Record Computed := mkComputed {
  Signed : Z; ToSign : Z; BlocksLeftInEpoch : Z; compPercentage : Dec; IsBelowThreshold : bool;
}.

Definition IsBelowSigningThreshold (quotient : Dec) : bool := LTE quotient measure.

Definition ComputeCurrentSigning (snapshot wrapper : Wrapper) : option Computed :=
  let signed := NumBlocksSigned (wCounters wrapper) - NumBlocksSigned (wCounters snapshot) in
  let toSign := NumBlocksToSign (wCounters wrapper) - NumBlocksToSign (wCounters snapshot) in
  if toSign =? 0 then Some (mkComputed signed toSign 0 ZeroDec true)
  else
    s1 ← NewDecFromBigInt signed;
    s2 ← NewDecFromBigInt toSign;
    p ← Quo s1 s2;
    Some (mkComputed signed toSign 0 p (IsBelowSigningThreshold p)).

(** [bumpCount] on one member: the counters of its validator. *)
Definition bumpWrapper (didSign : bool) (w : Wrapper) : Wrapper :=
  let c := wCounters w in
  mkWrapper (wValidator w) (Delegations w)
    (mkCounters (NumBlocksToSign c + 1) (if didSign then NumBlocksSigned c + 1 else NumBlocksSigned c)) (BlockReward w).

(** The validators of the state, by address; [ValidatorWrapper] returns a reference into it. *)
Abbreviation Validators := (gmap Address Wrapper) (only parsing).
Inductive availError := errNoValidator (a : Address) | errNoSnapshot (a : Address).

Fixpoint bumpSubset (didSign : bool) (committee : list Slot) (stakedAddrSet : gset Address) (st : Validators)
    : availError + Validators :=
  match committee with
  | [] => inr st
  | slot :: rest =>
      let addr := EcdsaAddress slot in
      if decide (addr ∈ stakedAddrSet) then
        match st !! addr with
        | None => inl (errNoValidator addr)
        | Some w => bumpSubset didSign rest stakedAddrSet (<[addr := bumpWrapper didSign w]> st)
        end
      else bumpSubset didSign rest stakedAddrSet st
  end.

Definition IncrementValidatorSigningCounts (staked : StakedSlots) (st : Validators) (signers missing : list Slot)
    : availError + Validators :=
  match bumpSubset false missing (LookupSet staked) st with
  | inl e => inl e
  | inr st1 => bumpSubset true signers (LookupSet staked) st1
  end.

(** [None] is a panic of the decimals. *)
Definition ComputeAndMutateEPOSStatus (ReadValidatorSnapshot : Address → option ValidatorSnapshot) (st : Validators)
    (addr : Address) : option (availError + Validators) :=
  match st !! addr with
  | None => Some (inl (errNoValidator addr))
  | Some wrapper =>
      if Status (wValidator wrapper) =? Banned then Some (inr st)
      else match ReadValidatorSnapshot (vAddress (wValidator wrapper)) with
           | None => Some (inl (errNoSnapshot addr))
           | Some snapshot =>
               computed ← ComputeCurrentSigning (snapValidator snapshot) wrapper;
               Some (inr (if IsBelowThreshold computed
                          then <[addr := withValidator wrapper (withStatus (wValidator wrapper) Inactive)]> st else st))
           end
  end.

Definition UpdateMinimumCommissionFee (GetValidatorFirstElectionEpoch : Address → Z) (electionEpoch : Z)
    (st : Validators) (addr : Address) (promoPeriod : Z) : availError + Validators :=
  match st !! addr with
  | None => inl (errNoValidator addr)
  | Some wrapper =>
      let firstElectionEpoch := GetValidatorFirstElectionEpoch addr in
      if negb (u64 firstElectionEpoch =? 0) && (promoPeriod <=? i64 (electionEpoch - firstElectionEpoch))
         && LT (vRate (wValidator wrapper)) MinCommissionRate
      then inr (<[addr := withValidator wrapper (withRate (wValidator wrapper) MinCommissionRate)]> st)
      else inr st
  end.

(** * Properties *)

(** ** Undelegations *)
Definition epochLt (u v : Undelegation) : Prop := uEpoch u < uEpoch v.
Definition epochsSorted (us : list Undelegation) : Prop := StronglySorted epochLt us.
(** The tokens that were undelegated in an epoch. *)
Definition lockedAt (us : list Undelegation) (e : Z) : Z := sumZ (λ u, if uEpoch u =? e then uAmount u else 0) us.

Lemma foldl_sum {A} (f : A → Z) l acc : foldl (λ t x, t + f x) acc l = acc + sumZ f l.
Proof. revert acc. induction l as [|x l IH]; intros acc; [cbn; lia|]. cbn [foldl]. rewrite IH, sumZ_cons. lia. Qed.

Lemma TotalInUndelegation_sum d : TotalInUndelegation d = sumZ uAmount (Undelegations d).
Proof. unfold TotalInUndelegation. rewrite (foldl_sum uAmount). lia. Qed.

Lemma TotalDelegation_sum w : TotalDelegation w = sumZ dAmount (Delegations w).
Proof. unfold TotalDelegation. rewrite (foldl_sum dAmount). lia. Qed.

Lemma addToEntry_Some epoch amt us us' :
  addToEntry epoch amt us = Some us' →
  uEpoch <$> us' = uEpoch <$> us ∧ sumZ uAmount us' = sumZ uAmount us + amt
  ∧ ∀ e, lockedAt us' e = lockedAt us e + if e =? epoch then amt else 0.
Proof.
  revert us'. induction us as [|u us IH]; intros us' E; cbn in E; [done|]. destruct (Z.eqb_spec (uEpoch u) epoch) as [Hu|Hu].
  - injection E as <-. split; [done|]. split; [rewrite !sumZ_cons; cbn [uAmount]; lia|]. intros e. unfold lockedAt. rewrite !sumZ_cons. cbn [uAmount uEpoch]. subst epoch.
    rewrite (Z.eqb_sym e). destruct (uEpoch u =? e); lia.
  - apply bind_Some in E as (us'' & E & [= <-]). destruct (IH _ E) as (H1 & H2 & H3).
    split; [by rewrite !fmap_cons, H1|]. split; [rewrite !sumZ_cons; lia|]. intros e. specialize (H3 e). unfold lockedAt in *. rewrite !sumZ_cons. lia.
Qed.

Lemma addToEntry_None epoch amt us : addToEntry epoch amt us = None → epoch ∉ uEpoch <$> us.
Proof.
  induction us as [|u us IH]; cbn; [set_solver|]. destruct (Z.eqb_spec (uEpoch u) epoch); [done|].
  destruct (addToEntry epoch amt us); [done|]. specialize (IH eq_refl). set_solver.
Qed.

Lemma epochsSorted_fmap us : epochsSorted us ↔ StronglySorted Z.lt (uEpoch <$> us).
Proof.
  unfold epochsSorted. induction us as [|u us IH]; cbn; [split; constructor|].
  split; intros Hs; apply StronglySorted_inv in Hs as [Hs Hf]; (constructor; [by apply IH|]).
  - rewrite Forall_fmap. exact Hf.
  - rewrite Forall_fmap in Hf. exact Hf.
Qed.

Lemma sorted_strict us : StronglySorted (keyLe uEpoch) us → NoDup (uEpoch <$> us) → epochsSorted us.
Proof.
  induction 1 as [|u us Hs IH Hf]; intros Hnd; [constructor|]. rewrite fmap_cons, NoDup_cons in Hnd. destruct Hnd as [Hn Hnd].
  constructor; [by apply IH|]. rewrite Forall_forall in Hf |- *. intros v Hv. specialize (Hf v Hv). unfold keyLe in Hf. unfold epochLt.
  assert (uEpoch u ≠ uEpoch v) by (intros Heq; apply Hn; rewrite Heq; by apply list_elem_of_fmap_2). lia.
Qed.

Lemma epochsSorted_NoDup us : epochsSorted us → NoDup (uEpoch <$> us).
Proof.
  induction 1 as [|u us Hs IH Hf]; [constructor|]. rewrite fmap_cons, NoDup_cons. split; [|done].
  intros (v & Hv & Hin)%list_elem_of_fmap. rewrite Forall_forall in Hf. specialize (Hf v Hin). unfold epochLt in Hf. lia.
Qed.

Lemma Undelegate_amounts d epoch amt d' :
  Undelegate d epoch amt = inr d' →
  0 < amt ≤ dAmount d ∧ dAmount d' = dAmount d - amt ∧ dReward d' = dReward d ∧ DelegatorAddress d' = DelegatorAddress d
  ∧ sumZ uAmount (Undelegations d') = sumZ uAmount (Undelegations d) + amt.
Proof.
  unfold Undelegate. destruct (Z.leb_spec amt 0); [done|]. destruct (Z.ltb_spec (dAmount d) amt); [done|]. cbn [withAmount Undelegations].
  destruct (addToEntry epoch amt (Undelegations d)) as [us|] eqn:Ea; intros [= <-];
    cbn [withAmount withUndelegations dAmount dReward DelegatorAddress Undelegations]; split_and!; try done.
  - by destruct (addToEntry_Some _ _ _ _ Ea) as (_ & ? & _).
  - rewrite (sumZ_perm _ _ _ (SliceStable_perm epochLess _)), sumZ_app, sumZ_cons. cbn [uAmount]. change (sumZ _ []) with 0. lia.
Qed.

(** Undelegating moves exactly the amount out of the delegation and into the undelegations of
    the epoch, which stay ordered by epoch with one entry each; it is refused exactly for an
    amount that is not positive or not covered. *)
Theorem Undelegate_spec d epoch amt :
  epochsSorted (Undelegations d) →
  (∀ e, Undelegate d epoch amt = inl e → amt ≤ 0 ∨ dAmount d < amt)
  ∧ ∀ d', Undelegate d epoch amt = inr d' →
      0 < amt ≤ dAmount d ∧ dAmount d' = dAmount d - amt ∧ dReward d' = dReward d ∧ DelegatorAddress d' = DelegatorAddress d
      ∧ epochsSorted (Undelegations d') ∧ dAmount d' + TotalInUndelegation d' = dAmount d + TotalInUndelegation d
      ∧ ∀ e, lockedAt (Undelegations d') e = lockedAt (Undelegations d) e + if e =? epoch then amt else 0.
Proof.
  intros Hs. unfold Undelegate. split.
  - intros e E. destruct (Z.leb_spec amt 0); [by left|]. destruct (Z.ltb_spec (dAmount d) amt); [by right|].
    by destruct (addToEntry _ _ _).
  - intros d' E. rewrite !TotalInUndelegation_sum. destruct (Undelegate_amounts d epoch amt d' E) as (H1 & H2 & H3 & H4 & H5).
    split_and!; try done; try lia; revert E; (destruct (Z.leb_spec amt 0); [done|]); (destruct (Z.ltb_spec (dAmount d) amt); [done|]);
      cbn [withAmount Undelegations]; destruct (addToEntry epoch amt (Undelegations d)) as [us|] eqn:Ea; intros [= <-];
      cbn [withUndelegations Undelegations].
    + rewrite epochsSorted_fmap. destruct (addToEntry_Some _ _ _ _ Ea) as (-> & _). by rewrite <-epochsSorted_fmap.
    + apply sorted_strict; [by apply SliceStable_sorted|]. rewrite SliceStable_perm, fmap_app.
      apply NoDup_app. split; [by apply epochsSorted_NoDup|]. split; [|by apply NoDup_singleton].
      intros x Hx. apply addToEntry_None in Ea. cbn. set_solver.
    + by destruct (addToEntry_Some _ _ _ _ Ea) as (_ & _ & ?).
    + intros e. unfold lockedAt. rewrite (sumZ_perm _ _ _ (SliceStable_perm epochLess _)), sumZ_app, sumZ_cons.
      cbn [uAmount uEpoch]. change (sumZ _ []) with 0. rewrite (Z.eqb_sym e). destruct (epoch =? e); lia.
Qed.

(** In a list that is ordered by epoch, the entries a downward closed test accepts come first. *)
Lemma sorted_split (p : Undelegation → bool) us :
  (∀ u v, u ∈ us → v ∈ us → uEpoch u < uEpoch v → p v = true → p u = true) → epochsSorted us →
  ∃ out rest, us = out ++ rest ∧ (∀ u, u ∈ out → p u = true) ∧ (∀ u, u ∈ rest → p u = false).
Proof.
  induction us as [|u us IH]; intros Hp Hs; [exists [], []; set_solver|].
  apply StronglySorted_inv in Hs as [Hs Hf]. destruct (p u) eqn:Eu.
  - destruct IH as (out & rest & -> & H1 & H2); [intros x y ??; apply Hp; set_solver|done|].
    exists (u :: out), rest. split; [done|]. split; [|done]. intros v [->|Hv]%elem_of_cons; auto.
  - exists [], (u :: us). split; [done|]. split; [set_solver|]. intros v [->|Hv]%elem_of_cons; [done|].
    apply not_true_is_false. intros Hvt. rewrite Forall_forall in Hf.
    rewrite (Hp u v) in Eu; [done|set_solver|set_solver|by apply Hf|done].
Qed.

Lemma unlockLoop_split p out rest acc :
  (∀ u, u ∈ out → p u = true) → (∀ u, u ∈ rest → p u = false) →
  unlockLoop p (out ++ rest) acc = (acc + sumZ uAmount out, rest).
Proof.
  intros Hout Hrest. revert acc. induction out as [|u out IH]; intros acc; cbn [app unlockLoop].
  - destruct rest as [|v rest]; cbn [unlockLoop]; [|rewrite (Hrest v) by set_solver]; f_equal; cbn; lia.
  - rewrite (Hout u) by set_solver. rewrite IH, sumZ_cons by set_solver. f_equal. lia.
Qed.

(** The tokens that are released are exactly those of the undelegations that are at least
    [lockPeriod] epochs old (or all of them, where early unlocking is allowed and the validator
    has been out of the committee that long); every other undelegation stays. *)
Theorem RemoveUnlocked_spec d curEpoch last lockPeriod noEarly :
  epochsSorted (Undelegations d) →
  (∀ u, u ∈ Undelegations d → 0 ≤ uEpoch u < 2 ^ 63) → 0 ≤ curEpoch < 2 ^ 63 → 0 ≤ last < 2 ^ 63 →
  let released u := lockPeriod ≤ curEpoch - uEpoch u ∨ (noEarly = false ∧ lockPeriod ≤ curEpoch - last) in
  ∃ out rest, RemoveUnlockedUndelegations d curEpoch last lockPeriod noEarly = (sumZ uAmount out, withUndelegations d rest)
    ∧ Undelegations d = out ++ rest ∧ (∀ u, u ∈ out → released u) ∧ (∀ u, u ∈ rest → ¬ released u).
Proof.
  intros Hs Hr Hcur Hlast released. unfold RemoveUnlockedUndelegations.
  set (p := unlocked curEpoch last lockPeriod noEarly).
  assert (∀ u, u ∈ Undelegations d → p u = true ↔ released u) as Hp.
  { intros u Hu. pose proof (Hr u Hu). unfold p, unlocked, released. rewrite !i64_small by lia.
    rewrite orb_true_iff, andb_true_iff, negb_true_iff, !Z.leb_le. done. }
  destruct (sorted_split p (Undelegations d)) as (out & rest & Heq & Hout & Hrest); [|done|].
  { intros u v Hu Hv Hlt. rewrite (Hp u Hu), (Hp v Hv). unfold released. intros [?|?]; [left; lia|by right]. }
  exists out, rest. rewrite Heq, (unlockLoop_split p out rest 0 Hout Hrest). split_and!; [done|done|..].
  - intros u Hu. apply Hp; [rewrite Heq; set_solver|by apply Hout].
  - intros u Hu Hrel. apply Hp in Hrel; [|rewrite Heq; set_solver]. by rewrite Hrest in Hrel.
Qed.

(** ** [DeleteEntry] *)
Lemma deleteLoop_skip epoch us i k hit :
  (k + i = length us)%nat → (∀ j u, (i ≤ j)%nat → us !! j = Some u → uEpoch u ≠ epoch) → deleteLoop epoch k i us hit = (us, hit).
Proof.
  revert i. induction k as [|k IH]; intros i Hk Hn; cbn; [done|].
  destruct (us !! i) as [u|] eqn:Eu; [|done]. destruct (Z.eqb_spec (uEpoch u) epoch) as [He|He].
  - by destruct (Hn i u).
  - apply IH; [lia|]. intros j v Hj. apply Hn. lia.
Qed.

(** Deleting the entry of an epoch that has none deletes every entry: the result slice starts as
    an empty slice, which the test against nil takes for a result. *)
Theorem DeleteEntry_absent_clears d epoch :
  epoch ∉ uEpoch <$> Undelegations d → Undelegations (DeleteEntry d epoch) = [].
Proof.
  intros Hn. unfold DeleteEntry. rewrite deleteLoop_skip; [done|lia|]. intros j u _ Hj He. apply Hn. rewrite <-He.
  apply list_elem_of_fmap_2. by eapply list_elem_of_lookup_2.
Qed.

(** ** Sanity *)
Lemma duplicateKey_spec seen keys : duplicateKey seen keys = false ↔ NoDup keys ∧ ∀ k, k ∈ keys → k ∉ seen.
Proof.
  revert seen. induction keys as [|k keys IH]; intros seen; cbn.
  - split; [|done]. intros _. split; [constructor|set_solver].
  - rewrite NoDup_cons. case_decide as Hk; [split; [done|]; intros [_ H]; by destruct (H k ltac:(set_solver))|].
    rewrite IH. set_solver.
Qed.

Lemma badRate_false r : badRate r = false ↔ 0 ≤ r ≤ OneDec.
Proof.
  unfold badRate, LT, GT. change zeroPercent with 0. change hundredPercent with OneDec.
  destruct (Z.compare_spec r 0), (Z.compare_spec r OneDec); cbn; split; try done; lia.
Qed.

Lemma GT_false a b : GT a b = false ↔ a ≤ b.
Proof. unfold GT. destruct (Z.compare_spec a b); split; try done; lia. Qed.

Definition descriptionOk (d : Description) : Prop :=
  (length (descName d) ≤ MaxNameLength ∧ length (Identity d) ≤ MaxIdentityLength ∧ length (Website d) ≤ MaxWebsiteLength
   ∧ length (SecurityContact d) ≤ MaxSecurityContactLength ∧ length (Details d) ≤ MaxDetailsLength)%nat.

Lemma EnsureLength_ok d : (∃ d', EnsureLength d = inr d') ↔ descriptionOk d.
Proof.
  unfold EnsureLength, descriptionOk. repeat case_decide; split; try (intros [? ?]; done); try lia; eauto.
Qed.

Lemma EnsureLength_same d d' : EnsureLength d = inr d' → d' = d.
Proof. unfold EnsureLength. repeat case_decide; congruence. Qed.

(** A well-formed validator. *)
Definition validatorOk (v : Validator) : Prop :=
  let r := Rates (vCommission v) in
  descriptionOk (vDescription v)
  ∧ (0 < length (SlotPubKeys v) ≤ MaxBLSPerValidator)%nat ∧ NoDup (SlotPubKeys v)
  ∧ (∃ lo hi, MinSelfDelegation v = Some lo ∧ MaxTotalDelegation v = Some hi ∧ minimumStake ≤ lo ≤ hi)
  ∧ 0 ≤ Rate r ≤ MaxRate r ∧ 0 ≤ MaxChangeRate r ≤ MaxRate r ∧ MaxRate r ≤ OneDec.

Lemma validatorSanityCheck_None v : validatorSanityCheck v = None ↔ validatorOk v.
Proof.
  unfold validatorSanityCheck, validatorOk. rewrite <-EnsureLength_ok.
  destruct (EnsureLength (vDescription v)) as [e|d'] eqn:Ee; [split; [done|]; intros [[? ?] _]; done|].
  do 2 (case_decide; [split; [done|]; intros (_ & ? & _); lia|]).
  destruct (MinSelfDelegation v) as [lo|]; [|split; [done|]; intros (_ & _ & _ & (? & ? & ? & _) & _); done].
  destruct (MaxTotalDelegation v) as [hi|]; [|split; [done|]; intros (_ & _ & _ & (? & ? & _ & ? & _) & _); done].
  set (r := Rates (vCommission v)). split.
  - intros E. repeat case_match; try done.
    repeat match goal with
    | H : badRate _ = false |- _ => apply badRate_false in H
    | H : GT _ _ = false |- _ => apply GT_false in H
    | H : (_ <? _) = false |- _ => apply Z.ltb_ge in H
    | H : duplicateKey _ _ = false |- _ => apply duplicateKey_spec in H as [? _] end.
    split_and!; try done; try lia; eauto. exists lo, hi. done.
  - intros (_ & Hlen & Hnd & (lo' & hi' & [= <-] & [= <-] & Hb) & Hr1 & Hr2 & Hr3).
    rewrite (proj2 (Z.ltb_ge lo minimumStake)), (proj2 (Z.ltb_ge hi lo)) by lia.
    rewrite !(proj2 (badRate_false _)) by lia. rewrite !(proj2 (GT_false _ _)) by lia.
    rewrite (proj2 (duplicateKey_spec ∅ (SlotPubKeys v))); [done|]. split; [done|set_solver].
Qed.

(** A well-formed wrapper: a well-formed validator whose self-delegation, the first of the
    delegations, meets its minimum while it is active, and whose delegations stay in its bound. *)
Definition wrapperOk (w : Wrapper) : Prop :=
  validatorOk (wValidator w)
  ∧ (∃ self rest, Delegations w = self :: rest
       ∧ (Status (wValidator w) = Active → default 0 (MinSelfDelegation (wValidator w)) ≤ dAmount self))
  ∧ sumZ dAmount (Delegations w) ≤ default 0 (MaxTotalDelegation (wValidator w)).

(** [SanityCheck] accepts exactly the well-formed wrappers. *)
Theorem SanityCheck_spec w : wrapperSanityCheck w = None ↔ wrapperOk w.
Proof.
  unfold wrapperSanityCheck, wrapperOk. rewrite <-validatorSanityCheck_None, <-TotalDelegation_sum.
  destruct (validatorSanityCheck (wValidator w)) as [e|]; [split; [done|]; intros [? _]; done|].
  destruct (Delegations w) as [|self rest] eqn:Ed; [split; [done|]; intros (_ & (? & ? & ? & _) & _); done|].
  destruct (Z.eqb_spec (Status (wValidator w)) Active) as [Ha|Ha].
  - rewrite Ha. cbn [negb Z.eqb andb]. rewrite andb_true_r. change (negb (Active =? Banned)) with true. cbn [andb].
    destruct (Z.ltb_spec (dAmount self) (default 0 (MinSelfDelegation (wValidator w)))) as [Hlt|Hge].
    + split; [done|]. intros (_ & (? & ? & [= <- <-] & Hm) & _). specialize (Hm eq_refl). lia.
    + destruct (Z.ltb_spec (default 0 (MaxTotalDelegation (wValidator w))) (TotalDelegation w)); split; try done.
      * intros (_ & _ & ?). lia.
      * intros _. split; [done|]. split; [|lia]. exists self, rest. split; [done|]. intros; lia || done.
  - rewrite andb_false_r. destruct (Z.ltb_spec (default 0 (MaxTotalDelegation (wValidator w))) (TotalDelegation w)); split; try done.
    + intros (_ & _ & ?). lia.
    + intros _. split; [done|]. split; [|lia]. exists self, rest. split; [done|]. intros; lia || done.
Qed.

(** ** Availability *)
Lemma NewDecFromBigInt_mul i : NewDecFromBigInt i = Some (i * 10 ^ 18).
Proof. reflexivity. Qed.

Lemma LTE_true a b : LTE a b = true ↔ a ≤ b.
Proof. unfold LTE. destruct (Z.compare_spec a b); split; try done; lia. Qed.

Lemma signing_quotient signed toSign :
  0 ≤ signed ≤ 10 ^ 17 → 0 < toSign ≤ 10 ^ 17 →
  ∃ p, Quo (signed * 10 ^ 18) (toSign * 10 ^ 18) = Some p ∧ (p ≤ measure ↔ 3 * signed ≤ 2 * toSign).
Proof.
  intros Hs Ht. unfold Quo, bigQuo. rewrite (proj2 (Z.eqb_neq (toSign * 10 ^ 18) 0)) by lia. cbn [mbind option_bind].
  rewrite precisionReuse_val. change (10 ^ 18) with 1000000000000000000. change (10 ^ 17) with 100000000000000000 in *.
  replace (signed * 1000000000000000000 * 1000000000000000000 * 1000000000000000000)
    with ((signed * 1000000000000000000000000000000000000) * 1000000000000000000) by lia.
  rewrite Z.quot_mul_cancel_r by lia. set (x := Z.quot _ toSign).
  assert (toSign * x ≤ signed * 1000000000000000000000000000000000000 < toSign * x + toSign ∧ 0 ≤ x) as [Hx Hx0].
  { unfold x. rewrite Z.quot_div_nonneg by lia.
    pose proof (Z.div_mod (signed * 1000000000000000000000000000000000000) toSign ltac:(lia)).
    pose proof (Z.mod_pos_bound (signed * 1000000000000000000000000000000000000) toSign ltac:(lia)).
    pose proof (Z.div_pos (signed * 1000000000000000000000000000000000000) toSign ltac:(lia) ltac:(lia)). lia. }
  exists (chopPrecisionAndRound x). change measure with 666666666666666667.
  pose proof (chopRound_exact 666666666666666668) as He. rewrite precisionReuse_val in He.
  assert (x ≤ 100000000000000000 * 1000000000000000000000000000000000000) as Hxb by nia.
  split.
  - apply checkBits_Some. pose proof (chopRound_nonneg x Hx0).
    pose proof (chopRound_mono _ _ Hxb) as Hm. rewrite Z.abs_eq by lia. eapply Z.le_lt_trans; [exact Hm|]. vm_compute. reflexivity.
  - split.
    + intros Hle. destruct (Z.le_gt_cases (3 * signed) (2 * toSign)) as [|Hgt]; [done|exfalso].
      assert (666666666666666668 * 1000000000000000000 ≤ x) as Hbig by nia. apply chopRound_mono in Hbig. lia.
    + intros Hle. assert (x ≤ 666666666666666666666666666666666666) as Hsm by nia. apply chopRound_mono in Hsm.
      eapply Z.le_trans; [exact Hsm|]. vm_compute. discriminate.
Qed.

(** The rounded decimals of the availability test decide exactly whether a validator signed at
    most two thirds of the blocks it had to sign (none to sign counts as too few), as long as
    the counters of an epoch stay below 10^17. *)
Theorem ComputeCurrentSigning_spec snapshot wrapper :
  let signed := NumBlocksSigned (wCounters wrapper) - NumBlocksSigned (wCounters snapshot) in
  let toSign := NumBlocksToSign (wCounters wrapper) - NumBlocksToSign (wCounters snapshot) in
  0 ≤ signed ≤ toSign → toSign ≤ 10 ^ 17 →
  ∃ c, ComputeCurrentSigning snapshot wrapper = Some c ∧ Signed c = signed ∧ ToSign c = toSign
    ∧ (IsBelowThreshold c = true ↔ 3 * signed ≤ 2 * toSign).
Proof.
  intros signed toSign Hs Ht. unfold ComputeCurrentSigning. fold signed toSign.
  destruct (Z.eqb_spec toSign 0) as [H0|H0]; [eexists; split; [done|]; cbn; split_and!; try done; lia|].
  destruct (signing_quotient signed toSign ltac:(lia) ltac:(lia)) as (p & Hq & Hp).
  rewrite !NewDecFromBigInt_mul. cbn [mbind option_bind]. rewrite Hq. cbn [mbind option_bind].
  eexists. split; [done|]. cbn. split; [done|]. split; [done|]. rewrite <-Hp. apply LTE_true.
Qed.

(** The slots an address holds in a committee, and a wrapper with that many more blocks counted. *)
Definition slotsOf (a : Address) (l : list Slot) : Z := sumZ (λ s, if EcdsaAddress s =? a then 1 else 0) l.
Definition addCounts (toSign signed : Z) (w : Wrapper) : Wrapper :=
  mkWrapper (wValidator w) (Delegations w)
    (mkCounters (NumBlocksToSign (wCounters w) + toSign) (NumBlocksSigned (wCounters w) + signed)) (BlockReward w).

Lemma addCounts_addCounts t s t' s' w : addCounts t s (addCounts t' s' w) = addCounts (t' + t) (s' + s) w.
Proof. unfold addCounts. cbn. by rewrite !Z.add_assoc. Qed.
Lemma addCounts_0 w : addCounts 0 0 w = w.
Proof. destruct w as [? ? [? ?] ?]. unfold addCounts. cbn. by rewrite !Z.add_0_r. Qed.
Lemma bumpWrapper_addCounts b w : bumpWrapper b w = addCounts 1 (if b then 1 else 0) w.
Proof. unfold bumpWrapper, addCounts. destruct b; [done|]. by rewrite Z.add_0_r. Qed.

Lemma bumpSubset_spec didSign l X (st st' : gmap Address Wrapper) :
  bumpSubset didSign l X st = inr st' →
  ∀ a, st' !! a = (if decide (a ∈ X) then addCounts (slotsOf a l) (if didSign then slotsOf a l else 0) else id) <$> st !! a.
Proof.
  revert st. induction l as [|slot l IH]; intros st E a; cbn in E.
  - injection E as <-. assert (∀ x : option Wrapper, x = (λ w, addCounts 0 0 w) <$> x) as H0
      by (intros [w|]; cbn; by rewrite ?addCounts_0).
    case_decide; [destruct didSign; exact (H0 _)|by destruct (st !! a)].
  - unfold slotsOf. rewrite !sumZ_cons. fold (slotsOf a l). case_decide as Hin.
    + destruct (st !! EcdsaAddress slot) as [w|] eqn:Ew; [|done]. rewrite (IH _ E a).
      destruct (Z.eqb_spec (EcdsaAddress slot) a) as [<-|Hne].
      * rewrite lookup_insert_eq, Ew, !decide_True by done. cbn. rewrite bumpWrapper_addCounts, addCounts_addCounts.
        by destruct didSign.
      * rewrite lookup_insert_ne by done. case_decide; [|done]. by destruct didSign; rewrite !Z.add_0_l.
    + rewrite (IH _ E a). destruct (Z.eqb_spec (EcdsaAddress slot) a) as [<-|Hne]; [by rewrite !decide_False|].
      case_decide; [|done]. by destruct didSign; rewrite !Z.add_0_l.
Qed.

(** A block adds, to every staked validator, one block to sign per slot it holds in the
    committee, and one signed block per slot whose key signed; nobody else is touched. *)
Theorem IncrementValidatorSigningCounts_spec staked (st st' : gmap Address Wrapper) signers missing :
  IncrementValidatorSigningCounts staked st signers missing = inr st' →
  ∀ a, st' !! a = (if decide (a ∈ LookupSet staked)
                   then addCounts (slotsOf a missing + slotsOf a signers) (slotsOf a signers) else id) <$> st !! a.
Proof.
  unfold IncrementValidatorSigningCounts. destruct (bumpSubset false missing _ st) as [|st1] eqn:E1; [done|]. intros E2 a.
  rewrite (bumpSubset_spec _ _ _ _ _ E2 a), (bumpSubset_spec _ _ _ _ _ E1 a), <-option_fmap_compose.
  case_decide; [|done]. destruct (st !! a) as [w|]; [|done]. cbn. by rewrite addCounts_addCounts.
Qed.

(** ** Edits *)
Section edits.
Context `{BL : BLSLib} `{SC : Schedule}.
Implicit Types (v : Validator) (e : EditValidator).

Lemma result_bind_Ok {E A B} (f : A → result E B) m b : (m ≫= f) = Ok b → ∃ a, m = Ok a ∧ f a = Ok b.
Proof. destruct m; cbn; intros; [eauto|done|done]. Qed.

Lemma keyIndex_Some k keys i : keyIndex k keys = Some i → keys !! i = Some k.
Proof.
  unfold keyIndex. destruct (list_find _ _) as [[j x]|] eqn:E; cbn; [|done]. intros [= <-].
  apply list_find_Some in E as (? & -> & _). done.
Qed.

Lemma removeKey_Ok k v v' : removeKey k v = Ok v' →
  v' = withKeys v (SlotPubKeys v') ∧ ∃ gone, SlotPubKeys v ≡ₚ gone ++ SlotPubKeys v' ∧ gone = option_list k.
Proof.
  unfold removeKey. destruct k as [k|]; [|intros [= <-]; split; [by destruct v|by exists []]].
  destruct (keyIndex k (SlotPubKeys v)) as [i|] eqn:Ei; [|done]. intros [= <-]. split; [done|].
  exists [k]. split; [|done]. cbn. apply keyIndex_Some in Ei.
  rewrite <-(take_drop_middle _ _ _ Ei) at 1. by rewrite <-Permutation_middle.
Qed.

Lemma addKey_Ok k sig epoch v v' : addKey k sig epoch v = Ok v' →
  v' = withKeys v (SlotPubKeys v') ∧ SlotPubKeys v' = SlotPubKeys v ++ option_list k
  ∧ ∀ x, k = Some x → x ∉ SlotPubKeys v ∧ matchesHarmonyBLSKey x (hmyAccounts (InstanceForEpoch epoch)) = None
      ∧ VerifyBLSKey x sig = Ok ().
Proof.
  unfold addKey. destruct k as [k|]; [|intros [= <-]; split; [by destruct v|]; cbn; by rewrite app_nil_r].
  case_decide as Hk; [done|]. destruct (matchesHarmonyBLSKey _ _) eqn:Em; [done|].
  intros ([] & Hv & [= <-])%result_bind_Ok. split; [done|]. split; [done|]. intros x [= <-]. done.
Qed.

Lemma editStatus_Ok st v v' : editStatus st v = Ok v' →
  Status v ≠ Banned ∧ v' = withStatus v (Status v')
  ∧ (Status v' = Status v ∨ (Status v' = st ∧ (st = Active ∨ st = Inactive))).
Proof.
  unfold editStatus. destruct (Z.eqb_spec (Status v) Banned); [done|]. destruct (Z.eqb_spec st Active), (Z.eqb_spec st Inactive);
    cbn; intros [= <-]; split_and!; try done; cbn; auto. by destruct v.
Qed.

(** An edit never concerns a banned validator and never bans one; it keeps the address, the
    maximal rates and the heights; the only key it can add is the message's, which the validator
    did not have, is not a Harmony key and comes with a valid signature, and the only key it can
    remove is the message's. *)
Lemma Edit_frame v e epoch v' :
  UpdateValidatorFromEditMsg v e epoch = Ok v' →
  Status v ≠ Banned ∧ Status v' ≠ Banned ∧ vAddress v = evAddress e ∧ vAddress v' = vAddress v
  ∧ MaxRate (Rates (vCommission v')) = MaxRate (Rates (vCommission v))
  ∧ MaxChangeRate (Rates (vCommission v')) = MaxChangeRate (Rates (vCommission v))
  ∧ vRate v' = default (vRate v) (evRate e)
  ∧ CreationHeight v' = CreationHeight v ∧ LastEpochInCommittee v' = LastEpochInCommittee v
  ∧ option_list (SlotKeyToRemove e) ++ SlotPubKeys v' ≡ₚ SlotPubKeys v ++ option_list (SlotKeyToAdd e)
  ∧ (NoDup (SlotPubKeys v) → NoDup (SlotPubKeys v'))
  ∧ ∀ k, SlotKeyToAdd e = Some k →
      matchesHarmonyBLSKey k (hmyAccounts (InstanceForEpoch epoch)) = None ∧ VerifyBLSKey k (SlotKeyToAddSig e) = Ok ().
Proof.
  unfold UpdateValidatorFromEditMsg. destruct (Z.eqb_spec (vAddress v) (evAddress e)) as [Ha|]; [|done]. cbn [negb].
  destruct (UpdateDescription _ _) as [|desc]; [done|].
  set (v2 := match evRate e with Some r => withRate (withDescription v desc) r | None => withDescription v desc end).
  set (v3 := withBounds _ _ _). intros (v4 & (H4 & gone & Hp & Hg)%removeKey_Ok & E)%result_bind_Ok.
  apply result_bind_Ok in E as (v5 & (H5 & Hk5 & Hnew)%addKey_Ok & (Hb & H6 & Hst)%editStatus_Ok). rewrite H6, H5, H4 in *. cbn in *.
  assert (Status v2 = Status v ∧ vAddress v2 = vAddress v ∧ SlotPubKeys v2 = SlotPubKeys v ∧ CreationHeight v2 = CreationHeight v
    ∧ LastEpochInCommittee v2 = LastEpochInCommittee v ∧ vRate v2 = default (vRate v) (evRate e)
    ∧ MaxRate (Rates (vCommission v2)) = MaxRate (Rates (vCommission v))
    ∧ MaxChangeRate (Rates (vCommission v2)) = MaxChangeRate (Rates (vCommission v))) as (Hs2 & Ha2 & Hk2 & Hc2 & Hl2 & Hr2 & Hm2 & Hx2)
    by (unfold v2; by destruct (evRate e)).
  rewrite Hk2 in Hp. rewrite Hs2 in *. rewrite Hk5. split_and!; try done.
  - destruct Hst as [->|[-> [->| ->]]]; done.
  - subst gone. rewrite Hp. by rewrite app_assoc.
  - intros Hnd. rewrite Hp in Hnd. apply NoDup_app in Hnd as (_ & _ & Hnd). apply NoDup_app. split; [done|].
    destruct (SlotKeyToAdd e) as [k|]; cbn; [|split; [set_solver|constructor]].
    destruct (Hnew k eq_refl) as [Hni _]. split; [set_solver|apply NoDup_singleton].
  - intros k Hk. by destruct (Hnew k Hk).
Qed.

(** A message that adds a key without a signature crashes the node: the signature pointer may
    be absent in the encoding, and [VerifyBLSKey] slices it. *)
Theorem edit_without_signature_panics v e epoch k g :
  vAddress v = evAddress e → (∃ d, UpdateDescription (vDescription v) (evDescription e) = inr d) →
  SlotKeyToRemove e = None → SlotKeyToAdd e = Some k → SlotKeyToAddSig e = None → k ∉ SlotPubKeys v →
  matchesHarmonyBLSKey k (hmyAccounts (InstanceForEpoch epoch)) = None → BytesToBLSPublicKey k = Some g →
  UpdateValidatorFromEditMsg v e epoch = Panic.
Proof.
  intros Ha [d Hd] Hr Hk Hs Hni Hm Hg. unfold UpdateValidatorFromEditMsg. rewrite Ha, Z.eqb_refl, Hd, Hr, Hk, Hs.
  cbn [negb removeKey mbind result_mbind result_bind].
  assert (∀ w : Validator, SlotPubKeys w = SlotPubKeys v → addKey (Some k) None epoch w = Panic) as Hadd.
  { intros w Hw. unfold addKey. rewrite decide_False by (by rewrite Hw). rewrite Hm. unfold VerifyBLSKey. by rewrite Hg. }
  rewrite Hadd; [done|]. by destruct (evRate e).
Qed.
End edits.

(** ** Concrete records *)
Definition demoBLS : BLSLib := {|
  BLSKey := Z; BLSSign := Z; BytesToBLSPublicKey k := Some k; signDeserialize s := Some s;
  VerifyHash s k _ := s =? k + 1; hashKeccak256 t := [Z.of_nat (length t)]; |}.
Definition demoInstance : instance :=
  mkInstance 2 4 1 OneDec 0 [mkAccount [] [] (Hex 900) 0; mkAccount [] [] (Hex 901) 0] [] [] 10.
Definition demoSchedule : Schedule := λ _, demoInstance.

Definition demoDesc : Description := mkDescription (asText "node") (asText "id") [] [] [].
Definition demoRates : CommissionRates := mkCommissionRates (10 ^ 17) (5 * 10 ^ 17) (2 * 10 ^ 17).
Definition one : Z := oneAsBigInt.
Definition demoValidator (a : Address) (keys : list SerializedPublicKey) : Validator :=
  mkValidator a keys 0 (Some (20000 * one)) (Some (90000 * one)) Active (mkCommission demoRates 5) demoDesc 5.
Definition demoDelegation : Delegation :=
  mkDelegation 50 (3000 * one) 7 [mkUndelegation (400 * one) 3; mkUndelegation (200 * one) 9].
Definition demoWrapper (a : Address) (keys : list SerializedPublicKey) : Wrapper :=
  mkWrapper (demoValidator a keys) [mkDelegation a (25000 * one) (2 ^ 64) []; demoDelegation] (mkCounters 100 80) 12.

Lemma demoDelegation_sorted : epochsSorted (Undelegations demoDelegation).
Proof. repeat constructor. Qed.

Lemma Undelegate_spec_witness :
  ∃ d', Undelegate demoDelegation 4 (1000 * one) = inr d' ∧ epochsSorted (Undelegations d')
    ∧ uEpoch <$> Undelegations d' = [3; 4; 9] ∧ lockedAt (Undelegations d') 4 = 1000 * one.
Proof.
  eexists. split; [vm_compute; reflexivity|].
  destruct (Undelegate_spec demoDelegation 4 (1000 * one) demoDelegation_sorted) as [_ H].
  destruct (H _ ltac:(vm_compute; reflexivity)) as (_ & _ & _ & _ & Hs & _ & Hl).
  split; [exact Hs|]. split; [reflexivity|]. rewrite (Hl 4). reflexivity.
Defined.

Lemma RemoveUnlocked_spec_witness :
  ∃ out rest, RemoveUnlockedUndelegations demoDelegation 10 9 7 true = (sumZ uAmount out, withUndelegations demoDelegation rest)
    ∧ (∀ u, u ∈ out → 7 ≤ 10 - uEpoch u ∨ (true = false ∧ 7 ≤ 10 - 9))
    ∧ RemoveUnlockedUndelegations demoDelegation 10 9 7 true
      = (400 * one, mkDelegation 50 (3000 * one) 7 [mkUndelegation (200 * one) 9]).
Proof.
  destruct (RemoveUnlocked_spec demoDelegation 10 9 7 true demoDelegation_sorted) as (out & rest & E & _ & H1 & _); [|lia..|].
  - intros u. cbn. rewrite !elem_of_cons, elem_of_nil. intros [->|[->|[]]]; cbn; lia.
  - exists out, rest. split; [exact E|]. split; [exact H1|]. vm_compute. reflexivity.
Defined.

Lemma ComputeCurrentSigning_spec_witness :
  ∃ c, ComputeCurrentSigning (demoWrapper 1 [5]) (addCounts 30 20 (demoWrapper 1 [5])) = Some c ∧ IsBelowThreshold c = true.
Proof.
  destruct (ComputeCurrentSigning_spec (demoWrapper 1 [5]) (addCounts 30 20 (demoWrapper 1 [5]))) as (c & E & _ & _ & H);
    [cbn; lia|cbn; lia|].
  exists c. split; [exact E|]. apply H. cbn. lia.
Defined.

Lemma DeleteEntry_absent_clears_witness : Undelegations (DeleteEntry demoDelegation 5) = [].
Proof. apply (DeleteEntry_absent_clears demoDelegation 5). refine (bool_decide_unpack _ _). vm_compute. exact I. Defined.

Definition demoStaked : StakedSlots := mkStakedSlots 1 2 [1] {[1]} 0.
Definition demoStore : gmap Address Wrapper := {[1 := demoWrapper 1 [5; 6]]}.

Lemma IncrementValidatorSigningCounts_spec_witness :
  ∃ st', IncrementValidatorSigningCounts demoStaked demoStore
           [mkSlot 1 5 (Some 9); mkSlot 7 900 None] [mkSlot 1 6 (Some 9)] = inr st'
    ∧ st' !! 1 = Some (addCounts 2 1 (demoWrapper 1 [5; 6])).
Proof.
  eexists. split; [vm_compute; reflexivity|].
  rewrite (IncrementValidatorSigningCounts_spec demoStaked demoStore _
    [mkSlot 1 5 (Some 9); mkSlot 7 900 None] [mkSlot 1 6 (Some 9)] ltac:(vm_compute; reflexivity) 1).
  vm_compute. reflexivity.
Defined.

#[local] Existing Instances demoBLS demoSchedule.

Definition demoEdit : EditValidator := mkEditValidator 1 demoDesc None None None None (Some 8) None 0.

Lemma edit_without_signature_panics_witness :
  UpdateValidatorFromEditMsg (demoValidator 1 [5]) demoEdit 3 = Panic.
Proof.
  apply (edit_without_signature_panics (demoValidator 1 [5]) demoEdit 3 8 (8 : @BLSKey demoBLS)); try reflexivity.
  - eexists. vm_compute. reflexivity.
  - refine (bool_decide_unpack _ _). vm_compute. exact I.
Defined.
