(* ===== verification/StakingVerifier.v ===== *)
(** * Staking messages (core/staking_verifier.go)

    The five staking messages against a state: whether a message is accepted, and the validator
    records it leaves to be written.  The functions only read the state, through the interface
    [StateReader]; the chain's off-chain data (the list of validators, the snapshots of the
    epoch, the forks that are active) is the record [ChainContext].  [ValidatorWrapperCopy]
    decodes a fresh record at every call, so the records are values; the one alias of the code,
    the delegatee that is also in the list of updated records, is an index into that list. *)

From Stdlib Require Import ZArith Lia Ascii String Sorted.
From stdpp Require Import base gmap list option sets sorting.
From S2P Require Import Prelude Decimal ShardState Effective Staking.
Local Open Scope Z_scope.

(** ** Interfaces *)
Record StateReader := mkStateReader {
  IsValidator : Address → bool;
  ValidatorWrapperCopy : Address → option Wrapper;
  GetBalance : Address → Z;
  GetValidatorFirstElectionEpoch : Address → Z;
}.

Record ChainContext := mkChainContext {
  ReadValidatorList : option (list Address);
  ReadValidatorSnapshot : Address → option ValidatorSnapshot;
  IsMinCommissionRate : Z → bool;
  MinCommissionPromoPeriod : Z;
}.

Record DelegationForks := mkDelegationForks { IsMinDelegation100 : Z → bool; IsRedelegation : Z → bool }.

Definition CanTransfer (stateDB : StateReader) (addr : Address) (amount : Z) : bool := amount <=? GetBalance stateDB addr.

Inductive verifyError :=
| errStateDBIsMissing | errChainContextMissing | errEpochMissing | errBlockNumMissing
| errNegativeAmount | errValidatorExist | errValidatorNotExist | errDupIdentity | errDupBlsKey
| errInsufficientBalanceForStake | errReadList | errReadWrapper (a : Address) | errReadSnapshot (a : Address)
| errStaking (e : stakingError) | errUndelegate (e : delegationError)
| errCommissionRateChangeTooHigh | errCommissionRateChangeTooLow | errCommissionRateChangeTooFast
| errDelegationTooSmall | errDelegationTooSmallV2 | errIndexOutOfBound
| errNoDelegationToUndelegate | errNoRewardsToCollect.

(** An error of the staking package passed on. *)
Definition liftStaking {A} (m : result stakingError A) : result verifyError A :=
  match m with Ok a => Ok a | Err e => Err (errStaking e) | Panic => Panic end.
Definition sane (w : Wrapper) : result verifyError unit :=
  match wrapperSanityCheck w with Some e => Err (errStaking e) | None => Ok () end.
Definition copyOf (stateDB : StateReader) (a : Address) : result verifyError Wrapper :=
  match ValidatorWrapperCopy stateDB a with Some w => Ok w | None => Err (errReadWrapper a) end.

(** ** Duplicate fields *)
Fixpoint dupLoop (stateDB : StateReader) (validator : Address) (identity : text) (blsKeys : list SerializedPublicKey)
    (addrs : list Address) : result verifyError unit :=
  match addrs with
  | [] => Ok ()
  | addr :: rest =>
      if validator =? addr then dupLoop stateDB validator identity blsKeys rest
      else
        wrapper ← copyOf stateDB addr;
        let v := wValidator wrapper in
        if negb (text_eqb identity []) && text_eqb (Identity (vDescription v)) identity then Err errDupIdentity
        else if negb (bool_decide (length blsKeys = O)) && existsb (λ k, bool_decide (k ∈ blsKeys)) (SlotPubKeys v)
        then Err errDupBlsKey
        else dupLoop stateDB validator identity blsKeys rest
  end.

Definition checkDuplicateFields (bc : ChainContext) (stateDB : StateReader) (validator : Address) (identity : text)
    (blsKeys : list SerializedPublicKey) : result verifyError unit :=
  match ReadValidatorList bc with
  | None => Err errReadList
  | Some addrs => dupLoop stateDB validator identity blsKeys addrs
  end.

(** ** Creating and editing a validator *)
Section createEdit.
Context `{BL : BLSLib} `{SC : Schedule}.

Definition VerifyAndCreateValidatorFromMsg (stateDB : option StateReader) (chainContext : option ChainContext)
    (epoch blockNum : option Z) (msg : CreateValidator) : result verifyError Wrapper :=
  match stateDB, chainContext, epoch, blockNum with
  | None, _, _, _ => Err errStateDBIsMissing
  | _, None, _, _ => Err errChainContextMissing
  | _, _, None, _ => Err errEpochMissing
  | _, _, _, None => Err errBlockNumMissing
  | Some db, Some bc, Some epoch, Some blockNum =>
      if Z.sgn (cvAmount msg) =? -1 then Err errNegativeAmount
      else if IsValidator db (cvAddress msg) then Err errValidatorExist
      else
        _ ← checkDuplicateFields bc db (cvAddress msg) (Identity (cvDescription msg)) (cvKeys msg);
        if negb (CanTransfer db (cvAddress msg) (cvAmount msg)) then Err errInsufficientBalanceForStake
        else
          v ← liftStaking (CreateValidatorFromNewMsg msg blockNum epoch);
          let wrapper := mkWrapper v [NewDelegation (vAddress v) (cvAmount msg)] (mkCounters 0 0) 0 in
          _ ← sane wrapper;
          Ok wrapper
  end.

Definition withUpdateHeight (v : Validator) (h : Z) : Validator := withCommission v (mkCommission (Rates (vCommission v)) h).

(** The checks on the commission rate after the edit, against the snapshot of the epoch. *)
Definition checkRate (db : StateReader) (bc : ChainContext) (epoch blockNum : Z) (addr : Address) (v : Validator)
    : result verifyError Validator :=
  let newRate := vRate v in
  if GT newRate (MaxRate (Rates (vCommission v))) then Err errCommissionRateChangeTooHigh
  else if IsMinCommissionRate bc epoch && LT newRate MinCommissionRate
          && negb (u64 (GetValidatorFirstElectionEpoch db addr) =? 0)
          && (i64 (MinCommissionPromoPeriod bc) <=? i64 (epoch - GetValidatorFirstElectionEpoch db addr))
  then Err errCommissionRateChangeTooLow
  else match ReadValidatorSnapshot bc (vAddress v) with
       | None => Err (errReadSnapshot (vAddress v))
       | Some snapshot =>
           let rateAtBeginningOfEpoch := vRate (wValidator (snapValidator snapshot)) in
           let v1 := if negb (Equal rateAtBeginningOfEpoch newRate) then withUpdateHeight v blockNum else v in
           d ← lift_panic (Sub newRate rateAtBeginningOfEpoch);
           if GT (Abs d) (MaxChangeRate (Rates (vCommission v1))) then Err errCommissionRateChangeTooFast else Ok v1
       end.

Definition VerifyAndEditValidatorFromMsg (stateDB : option StateReader) (chainContext : option ChainContext)
    (epoch : Z) (blockNum : option Z) (msg : EditValidator) : result verifyError Wrapper :=
  match stateDB, chainContext, blockNum with
  | None, _, _ => Err errStateDBIsMissing
  | _, None, _ => Err errChainContextMissing
  | _, _, None => Err errBlockNumMissing
  | Some db, Some bc, Some blockNum =>
      if negb (IsValidator db (evAddress msg)) then Err errValidatorNotExist
      else
        _ ← checkDuplicateFields bc db (evAddress msg) (Identity (evDescription msg)) (option_list (SlotKeyToAdd msg));
        wrapper ← copyOf db (evAddress msg);
        v ← liftStaking (UpdateValidatorFromEditMsg (wValidator wrapper) msg epoch);
        v1 ← checkRate db bc epoch blockNum (evAddress msg) v;
        let wrapper := withValidator wrapper v1 in
        _ ← sane wrapper;
        Ok wrapper
  end.
End createEdit.

(** ** Delegating *)
Definition minimumDelegation : Z := oneAsBigInt * 1000.
Definition minimumDelegationV2 : Z := oneAsBigInt * 100.

(** The inner loop: the undelegations of earlier epochs are used up from the oldest; the balance
    that is left and the undelegations from [curIndex] on. *)
Fixpoint useLocked (epoch : Z) (us : list Undelegation) (delegateBalance : Z) : Z * list Undelegation :=
  match us with
  | [] => (delegateBalance, [])
  | u :: us' =>
      if epoch <=? uEpoch u then (delegateBalance, us)
      else if uAmount u <=? delegateBalance then useLocked epoch us' (delegateBalance - uAmount u)
      else (0, mkUndelegation (uAmount u - delegateBalance) (uEpoch u) :: us')
  end.

(** What the outer loop carries: [delegateBalance], the index of [delegateeWrapper] in
    [updatedValidatorWrappers], that list and [fromLockedTokens]. *)
Record redelegation := mkRedelegation {
  rdBalance : Z; rdDelegatee : option nat; rdUpdated : list Wrapper; rdLocked : gmap Address Z;
}.

Definition setDelegation (w : Wrapper) (i : nat) (d : Delegation) : Wrapper := withDelegations w (<[i := d]> (Delegations w)).

Definition redelegateStep (db : StateReader) (epoch : Z) (target : Address) (r : redelegation) (di : DelegationIndex)
    : result verifyError redelegation :=
  wrapper ← copyOf db (diValidator di);
  if Z.of_nat (length (Delegations wrapper)) <=? diIndex di then Err errIndexOutOfBound
  else
    match Delegations wrapper !! Z.to_nat (diIndex di) with
    | None => Panic
    | Some delegation =>
        let startBalance := rdBalance r in
        let '(delegateBalance, us) := useLocked epoch (Undelegations delegation) startBalance in
        if delegateBalance <? startBalance then
          let wrapper := setDelegation wrapper (Z.to_nat (diIndex di)) (withUndelegations delegation us) in
          _ ← sane wrapper;
          Ok (mkRedelegation delegateBalance
                (if diValidator di =? target then Some (length (rdUpdated r)) else rdDelegatee r)
                (rdUpdated r ++ [wrapper])
                (<[diValidator di := startBalance - delegateBalance]> (rdLocked r)))
        else Ok (mkRedelegation delegateBalance (rdDelegatee r) (rdUpdated r) (rdLocked r))
    end.

Fixpoint redelegateLoop (db : StateReader) (epoch : Z) (target : Address) (dis : list DelegationIndex) (r : redelegation)
    : result verifyError redelegation :=
  match dis with
  | [] => Ok r
  | di :: rest => r' ← redelegateStep db epoch target r di; redelegateLoop db epoch target rest r'
  end.

(** The loop over the delegatee's delegations: every one of the delegator grows, with a check
    of the record after each; whether there was one. *)
Fixpoint addLoop (delegator : Address) (amount : Z) (k i : nat) (w : Wrapper) (found : bool)
    : result verifyError (Wrapper * bool) :=
  match k with
  | O => Ok (w, found)
  | S k' =>
      match Delegations w !! i with
      | None => Panic
      | Some d =>
          if DelegatorAddress d =? delegator then
            let w' := setDelegation w i (withAmount d (dAmount d + amount)) in
            _ ← sane w';
            addLoop delegator amount k' (S i) w' true
          else addLoop delegator amount k' (S i) w found
      end
  end.

Definition addDelegation (delegator : Address) (amount : Z) (w : Wrapper) : result verifyError Wrapper :=
  '(w1, found) ← addLoop delegator amount (length (Delegations w)) 0 w false;
  if (found : bool) then Ok w1
  else
    let w2 := withDelegations w1 (Delegations w1 ++ [NewDelegation delegator amount]) in
    _ ← sane w2;
    Ok w2.

Definition tooSmall (forks : DelegationForks) (epoch amount : Z) : option verifyError :=
  if amount <? minimumDelegation then
    if IsMinDelegation100 forks epoch then
      if amount <? minimumDelegationV2 then Some errDelegationTooSmallV2 else None
    else Some errDelegationTooSmall
  else None.

Definition VerifyAndDelegateFromMsg (stateDB : option StateReader) (epoch : Z) (msg : DelegateMsg)
    (delegations : list DelegationIndex) (chainConfig : DelegationForks)
    : result verifyError (list Wrapper * Z * gmap Address Z) :=
  match stateDB with
  | None => Err errStateDBIsMissing
  | Some db =>
      if negb (IsValidator db (dmValidator msg)) then Err errValidatorNotExist
      else if Z.sgn (dmAmount msg) =? -1 then Err errNegativeAmount
      else match tooSmall chainConfig epoch (dmAmount msg) with
           | Some e => Err e
           | None =>
               let start := mkRedelegation (dmAmount msg) None [] ∅ in
               r ← (if IsRedelegation chainConfig epoch then redelegateLoop db epoch (dmValidator msg) delegations start else Ok start);
               '(i, updated) ← (match rdDelegatee r with
                  | Some i => Ok (i, rdUpdated r)
                  | None => w ← copyOf db (dmValidator msg); Ok (length (rdUpdated r), rdUpdated r ++ [w])
                  end);
               match updated !! i with
               | None => Panic
               | Some delegatee =>
                   delegatee' ← addDelegation (dmDelegator msg) (dmAmount msg) delegatee;
                   let updated := <[i := delegatee']> updated in
                   if rdBalance r =? 0 then Ok (updated, 0, rdLocked r)
                   else if negb (CanTransfer db (dmDelegator msg) (rdBalance r)) then Err errInsufficientBalanceForStake
                   else Ok (updated, rdBalance r, rdLocked r)
               end
           end
  end.

(** ** Undelegating and collecting rewards *)
Definition delegationOf (delegator : Address) (w : Wrapper) : option (nat * Delegation) :=
  list_find (λ d, DelegatorAddress d = delegator) (Delegations w).

Definition VerifyAndUndelegateFromMsg (stateDB : option StateReader) (epoch : option Z) (msg : UndelegateMsg)
    : result verifyError Wrapper :=
  match stateDB, epoch with
  | None, _ => Err errStateDBIsMissing
  | _, None => Err errEpochMissing
  | Some db, Some epoch =>
      if Z.sgn (umAmount msg) =? -1 then Err errNegativeAmount
      else if negb (IsValidator db (umValidator msg)) then Err errValidatorNotExist
      else
        wrapper ← copyOf db (umValidator msg);
        match delegationOf (umDelegator msg) wrapper with
        | None => Err errNoDelegationToUndelegate
        | Some (i, delegation) =>
            match Undelegate delegation epoch (umAmount msg) with
            | inl e => Err (errUndelegate e)
            | inr delegation' =>
                let wrapper := setDelegation wrapper i delegation' in
                match wrapperSanityCheck wrapper with
                | None => Ok wrapper
                | Some ErrInvalidSelfDelegation => Ok (withValidator wrapper (withStatus (wValidator wrapper) Inactive))
                | Some e => Err (errStaking e)
                end
            end
        end
  end.

Fixpoint collectLoop (db : StateReader) (delegations : list DelegationIndex) (updated : list Wrapper) (totalRewards : Z)
    : result verifyError (list Wrapper * Z) :=
  match delegations with
  | [] => Ok (updated, totalRewards)
  | di :: rest =>
      wrapper ← copyOf db (diValidator di);
      if diIndex di <? Z.of_nat (length (Delegations wrapper)) then
        match Delegations wrapper !! Z.to_nat (diIndex di) with
        | None => Panic
        | Some d =>
            if 0 <? dReward d
            then collectLoop db rest (updated ++ [setDelegation wrapper (Z.to_nat (diIndex di)) (withReward d 0)]) (totalRewards + dReward d)
            else collectLoop db rest (updated ++ [wrapper]) totalRewards
        end
      else Err errIndexOutOfBound
  end.

Definition VerifyAndCollectRewardsFromDelegation (stateDB : option StateReader) (delegations : list DelegationIndex)
    : result verifyError (list Wrapper * Z) :=
  match stateDB with
  | None => Err errStateDBIsMissing
  | Some db =>
      '(updated, totalRewards) ← collectLoop db delegations [] 0;
      if i64 totalRewards =? 0 then Err errNoRewardsToCollect else Ok (updated, totalRewards)
  end.

(** * Properties *)

(** ** Tokens *)
Definition stakeOf (d : Delegation) : Z := dAmount d + sumZ uAmount (Undelegations d).
(** The tokens a validator's record holds: delegated, or undelegated and still locked. *)
Definition wrapperStake (w : Wrapper) : Z := sumZ stakeOf (Delegations w).
Definition addrOf (w : Wrapper) : Address := vAddress (wValidator w).

(** The tokens the delegator has delegated. *)
Definition delegated (a : Address) (w : Wrapper) : Z := sumZ (λ d, if DelegatorAddress d =? a then dAmount d else 0) (Delegations w).

(** What the records of a state satisfy: they are stored under their address, a delegator
    has one delegation in each, and no locked amount is negative. *)
Definition storedOk (db : StateReader) : Prop :=
  ∀ a w, ValidatorWrapperCopy db a = Some w →
    addrOf w = a ∧ NoDup (DelegatorAddress <$> Delegations w)
    ∧ ∀ d u, d ∈ Delegations w → u ∈ Undelegations d → 0 ≤ uAmount u.

Lemma setDelegation_stake w i d d' :
  Delegations w !! i = Some d → wrapperStake (setDelegation w i d') = wrapperStake w + stakeOf d' - stakeOf d.
Proof. intros Hi. unfold wrapperStake, setDelegation. cbn [withDelegations Delegations]. by rewrite (sumZ_update _ _ _ _ _ Hi). Qed.

Lemma setDelegation_delegators w i d d' :
  Delegations w !! i = Some d → DelegatorAddress d' = DelegatorAddress d →
  DelegatorAddress <$> Delegations (setDelegation w i d') = DelegatorAddress <$> Delegations w.
Proof.
  intros Hi Hd. cbn. rewrite list_fmap_insert, Hd. apply list_insert_id. by rewrite list_lookup_fmap, Hi.
Qed.

Lemma sane_Ok w x : sane w = Ok x → wrapperSanityCheck w = None.
Proof. unfold sane. by destruct (wrapperSanityCheck w). Qed.

Lemma copyOf_Ok db a w : copyOf db a = Ok w → ValidatorWrapperCopy db a = Some w.
Proof. unfold copyOf. by destruct (ValidatorWrapperCopy db a) as [x|]; intros [= ->]. Qed.

(** ** Redelegation: locked tokens are used before the balance *)
Lemma useLocked_spec epoch us bal bal' us' :
  0 ≤ bal → (∀ u, u ∈ us → 0 ≤ uAmount u) → useLocked epoch us bal = (bal', us') →
  0 ≤ bal' ≤ bal ∧ sumZ uAmount us' = sumZ uAmount us - (bal - bal').
Proof.
  revert bal. induction us as [|u us IH]; intros bal Hb Hn E; cbn [useLocked] in E; [simplify_eq; lia|].
  destruct (Z.leb_spec epoch (uEpoch u)); [simplify_eq; lia|].
  pose proof (Hn u ltac:(set_solver)). destruct (Z.leb_spec (uAmount u) bal).
  - destruct (IH (bal - uAmount u) ltac:(lia) ltac:(set_solver) E). rewrite sumZ_cons. lia.
  - injection E as <- <-. rewrite !sumZ_cons. cbn [uAmount]. lia.
Qed.

(** The state of the redelegation loop: [olds] are the records before. *)
Record redelegated (db : StateReader) (target : Address) (amount : Z) (r : redelegation) (olds : list Wrapper) : Prop := {
  rd_old : Forall2 (λ old w, ValidatorWrapperCopy db (addrOf w) = Some old ∧ ∀ a, delegated a w = delegated a old) olds (rdUpdated r);
  rd_nodup : NoDup (addrOf <$> rdUpdated r);
  rd_stake : sumZ wrapperStake (rdUpdated r) = sumZ wrapperStake olds - (amount - rdBalance r);
  rd_locked : rdBalance r + map_sum (λ _ x, x) (rdLocked r) = amount;
  rd_dom : ∀ a, a ∈ addrOf <$> rdUpdated r ↔ is_Some (rdLocked r !! a);
  rd_range : 0 ≤ rdBalance r ≤ amount;
  rd_sane : Forall (λ w, wrapperSanityCheck w = None ∧ NoDup (DelegatorAddress <$> Delegations w)) (rdUpdated r);
  rd_target : match rdDelegatee r with
              | Some i => ∃ w, rdUpdated r !! i = Some w ∧ addrOf w = target
              | None => target ∉ addrOf <$> rdUpdated r
              end;
}.

Lemma redelegateStep_ok db epoch target amount r olds di r' :
  storedOk db → redelegated db target amount r olds → diValidator di ∉ addrOf <$> rdUpdated r →
  redelegateStep db epoch target r di = Ok r' →
  (∃ olds', redelegated db target amount r' olds')
  ∧ ∀ a, a ∈ addrOf <$> rdUpdated r' → a ∈ addrOf <$> rdUpdated r ∨ a = diValidator di.
Proof.
  intros Hdb [Hold Hnd Hst Hlk Hdom Hrg Hsane Htg] Hfresh E. unfold redelegateStep in E.
  apply result_bind_Ok in E as (w & Hw%copyOf_Ok & E). destruct (Hdb _ _ Hw) as (Ha & Hdel & Hpos).
  case_match; [done|]. destruct (Delegations w !! _) as [d|] eqn:Ed; [|done].
  destruct (useLocked epoch (Undelegations d) (rdBalance r)) as [b us] eqn:Eu.
  destruct (useLocked_spec _ _ _ _ _ (proj1 Hrg) (λ u Hu, Hpos d u (list_elem_of_lookup_2 _ _ _ Ed) Hu) Eu) as [Hb Hsum].
  destruct (Z.ltb_spec b (rdBalance r)) as [Hlt|Hge].
  - apply result_bind_Ok in E as ([] & Hs%sane_Ok & [= <-]).
    set (w' := setDelegation w (Z.to_nat (diIndex di)) (withUndelegations d us)) in *.
    assert (addrOf w' = diValidator di) as Ha' by exact Ha.
    split; [exists (olds ++ [w])|]; [split; cbn [rdUpdated rdBalance rdLocked rdDelegatee]|cbn; rewrite fmap_app; set_solver].
    + apply Forall2_app; [done|]. repeat constructor; [by rewrite Ha'|]. intros a. unfold delegated, w', setDelegation.
      cbn [withDelegations Delegations]. rewrite (sumZ_update _ _ _ _ _ Ed). cbn [withUndelegations DelegatorAddress dAmount]. lia.
    + rewrite fmap_app. apply NoDup_app. split; [done|]. split; [|apply NoDup_singleton]. cbn. rewrite Ha'. set_solver.
    + rewrite !sumZ_app, !sumZ_cons. change (sumZ _ []) with 0. unfold w'. rewrite (setDelegation_stake _ _ _ _ Ed).
      unfold stakeOf. cbn [dAmount withUndelegations Undelegations]. lia.
    + rewrite map_sum_insert; [lia|]. apply eq_None_not_Some. by rewrite <-Hdom.
    + intros a. rewrite fmap_app, elem_of_app, Hdom, lookup_insert_is_Some'. cbn. rewrite Ha'. set_solver.
    + lia.
    + apply Forall_app. split; [done|]. constructor; [|done]. split; [done|]. unfold w'.
      by rewrite (setDelegation_delegators _ _ _ _ Ed).
    + destruct (Z.eqb_spec (diValidator di) target) as [Ht|Ht].
      * exists w'. split; [by rewrite lookup_app_r, Nat.sub_diag by done|congruence].
      * destruct (rdDelegatee r) as [i|].
        -- destruct Htg as (x & Hx & ?). exists x. split; [|done]. by apply lookup_app_l_Some.
        -- rewrite fmap_app. cbn. rewrite Ha'. set_solver.
  - injection E as <-. assert (b = rdBalance r) as -> by lia. split; [|cbn; auto]. exists olds. by split.
Qed.

Lemma redelegateLoop_ok db epoch target amount dis r olds r' :
  storedOk db → redelegated db target amount r olds → NoDup (diValidator <$> dis) →
  (∀ di, di ∈ dis → diValidator di ∉ addrOf <$> rdUpdated r) →
  redelegateLoop db epoch target dis r = Ok r' → ∃ olds', redelegated db target amount r' olds'.
Proof.
  intros Hdb. revert r olds. induction dis as [|di dis IH]; intros r olds Hr Hnd Hf E; cbn [redelegateLoop] in E; [simplify_eq; eauto|].
  apply result_bind_Ok in E as (r1 & E1 & E). rewrite fmap_cons, NoDup_cons in Hnd. destruct Hnd as [Hn Hnd].
  destruct (redelegateStep_ok _ _ _ _ _ _ _ _ Hdb Hr (Hf di ltac:(set_solver)) E1) as [[olds1 Hr1] Hnew].
  apply (IH r1 olds1 Hr1 Hnd); [|done]. intros di' Hin Hbad. destruct (Hnew _ Hbad) as [Hb|Hb].
  - by apply (Hf di' ltac:(set_solver)).
  - apply Hn. rewrite <-Hb. by apply list_elem_of_fmap_2.
Qed.

Lemma redelegated_start db target amount : 0 ≤ amount → redelegated db target amount (mkRedelegation amount None [] ∅) [].
Proof.
  intros Ha. split; cbn [rdUpdated rdBalance rdLocked rdDelegatee]; [constructor|constructor|lia| | |lia|constructor|apply not_elem_of_nil].
  - rewrite map_sum_empty. lia.
  - intros a. split; [by intros ?%elem_of_nil|]. intros [? Hl]. by rewrite lookup_empty in Hl.
Qed.

(** ** Adding to the delegatee *)
Lemma addLoop_absent delegator amount k i w found :
  (∀ j d, (i ≤ j)%nat → Delegations w !! j = Some d → DelegatorAddress d ≠ delegator) →
  (k + i = length (Delegations w))%nat → addLoop delegator amount k i w found = Ok (w, found).
Proof.
  revert i. induction k as [|k IH]; intros i Hn Hk; cbn [addLoop]; [done|].
  destruct (lookup_lt_is_Some_2 (Delegations w) i ltac:(lia)) as [d Hd]. rewrite Hd.
  rewrite (proj2 (Z.eqb_neq _ _)) by (by apply (Hn i)). apply IH; [|lia]. intros j e Hj. apply Hn. lia.
Qed.

(** With one delegation per delegator, either none is the delegator's or exactly one grows. *)
Lemma addLoop_ok delegator amount k i w w' found' :
  NoDup (DelegatorAddress <$> Delegations w) → (k + i = length (Delegations w))%nat →
  addLoop delegator amount k i w false = Ok (w', found') →
  (found' = false ∧ w' = w ∧ ∀ j d, (i ≤ j)%nat → Delegations w !! j = Some d → DelegatorAddress d ≠ delegator)
  ∨ found' = true ∧ ∃ j d, Delegations w !! j = Some d ∧ DelegatorAddress d = delegator
      ∧ w' = setDelegation w j (withAmount d (dAmount d + amount)) ∧ wrapperSanityCheck w' = None.
Proof.
  intros Hnd. revert i. induction k as [|k IH]; intros i Hk E; cbn [addLoop] in E.
  - injection E as <- <-. left. split_and!; try done. intros j d Hj Hd. apply lookup_lt_Some in Hd. lia.
  - destruct (lookup_lt_is_Some_2 (Delegations w) i ltac:(lia)) as [d Hd]. rewrite Hd in E.
    destruct (Z.eqb_spec (DelegatorAddress d) delegator) as [He|He].
    + apply result_bind_Ok in E as ([] & Hs%sane_Ok & E). right.
      rewrite addLoop_absent in E; [|intros j e Hj He'|cbn; rewrite length_insert; lia].
      * injection E as <- <-. split; [done|]. by exists i, d.
      * cbn in He'. rewrite list_lookup_insert_ne in He' by lia. intros Heq.
        assert (i = j); [|lia]. eapply (NoDup_lookup _ _ _ delegator Hnd); rewrite list_lookup_fmap; [rewrite Hd|rewrite He']; cbn; congruence.
    + destruct (IH (S i) ltac:(lia) E) as [(-> & -> & Hn)|?]; [left|by right]. split_and!; try done.
      intros j e Hj Hje. destruct (decide (j = i)) as [->|]; [congruence|apply (Hn j); [lia|done]].
Qed.

Lemma addDelegation_ok delegator amount w w' :
  NoDup (DelegatorAddress <$> Delegations w) → addDelegation delegator amount w = Ok w' →
  wValidator w' = wValidator w ∧ wrapperStake w' = wrapperStake w + amount ∧ wrapperSanityCheck w' = None
  ∧ NoDup (DelegatorAddress <$> Delegations w')
  ∧ ∀ a, delegated a w' = delegated a w + if a =? delegator then amount else 0.
Proof.
  intros Hnd E. unfold addDelegation in E. apply result_bind_Ok in E as ([w1 found] & E1 & E).
  destruct (addLoop_ok _ _ _ _ _ _ _ Hnd (Nat.add_0_r _) E1) as [(-> & -> & Hn)|(-> & j & d & Hd & Ha & -> & Hs)].
  - apply result_bind_Ok in E as ([] & Hs%sane_Ok & [= <-]). split; [done|]. split; [|split; [done|split]].
    + unfold wrapperStake. cbn [withDelegations Delegations]. rewrite sumZ_app, sumZ_cons. change (stakeOf (NewDelegation delegator amount)) with (amount + 0). change (sumZ _ []) with 0. lia.
    + cbn. rewrite fmap_app. apply NoDup_app. split; [done|]. split; [|apply NoDup_singleton].
      intros x (e & -> & [j Hj]%list_elem_of_lookup)%list_elem_of_fmap Hx. cbn in Hx. apply list_elem_of_singleton in Hx.
      by apply (Hn j e ltac:(lia) Hj).
    + intros a. unfold delegated. cbn [withDelegations Delegations]. rewrite sumZ_app, sumZ_cons. cbn [NewDelegation DelegatorAddress dAmount].
      change (sumZ _ []) with 0. rewrite (Z.eqb_sym a). case_match; lia.
  - injection E as <-. split; [done|]. split; [|split; [done|split]].
    + rewrite (setDelegation_stake _ _ _ _ Hd). unfold stakeOf. cbn [withAmount dAmount Undelegations]. lia.
    + by rewrite (setDelegation_delegators _ _ _ _ Hd).
    + intros a. unfold delegated, setDelegation. cbn [withDelegations Delegations]. rewrite (sumZ_update _ _ _ _ _ Hd).
      cbn [withAmount DelegatorAddress dAmount]. rewrite Ha, (Z.eqb_sym a). case_match; lia.
Qed.

(** The record the delegation is added to: the one the loop left, or a fresh copy. *)
Lemma delegatee_ok db target amount r olds i updated :
  storedOk db → redelegated db target amount r olds →
  match rdDelegatee r with
  | Some i => Ok (i, rdUpdated r)
  | None => w ← copyOf db target; Ok (length (rdUpdated r), rdUpdated r ++ [w])
  end = Ok (i, updated) →
  ∃ olds' w old, updated !! i = Some w
    ∧ Forall2 (λ old w, ValidatorWrapperCopy db (addrOf w) = Some old ∧ ∀ a, delegated a w = delegated a old) olds' updated
    ∧ NoDup (addrOf <$> updated) ∧ NoDup (DelegatorAddress <$> Delegations w) ∧ olds' !! i = Some old ∧ addrOf w = target
    ∧ sumZ wrapperStake updated = sumZ wrapperStake olds' - (amount - rdBalance r)
    ∧ ∀ j x, updated !! j = Some x → j ≠ i → wrapperSanityCheck x = None.
Proof.
  intros Hdb [Hold Hnda Hst Hlk Hdom Hrg Hsane Htg] Hi. rewrite Forall_forall in Hsane. destruct (rdDelegatee r) as [j|].
  - injection Hi as <- <-. destruct Htg as (w & Hw & Ha). destruct (Forall2_lookup_r _ _ _ _ _ Hold Hw) as (old & Ho & _).
    exists olds, w, old. split_and!; try done; [by apply (Hsane w), (list_elem_of_lookup_2 _ j)|].
    intros k x Hx _. by apply (Hsane x), (list_elem_of_lookup_2 _ k).
  - apply result_bind_Ok in Hi as (w & Hw%copyOf_Ok & [= <- <-]). destruct (Hdb _ _ Hw) as (Ha & Hnd & _).
    pose proof (Forall2_length _ _ _ Hold) as Hlen. exists (olds ++ [w]), w, w. split_and!; try done.
    + by rewrite lookup_app_r, Nat.sub_diag by done.
    + apply Forall2_app; [done|]. repeat constructor. by rewrite Ha.
    + rewrite fmap_app. apply NoDup_app. split; [done|]. split; [|apply NoDup_singleton]. cbn. rewrite Ha. set_solver.
    + by rewrite lookup_app_r, Hlen, Nat.sub_diag by lia.
    + rewrite !sumZ_app, Hst. lia.
    + intros k x Hx Hk. apply lookup_app_Some in Hx as [Hx|[? [? _]%list_lookup_singleton_Some]]; [|lia].
      by apply (Hsane x), (list_elem_of_lookup_2 _ k).
Qed.

(** A delegation conserves tokens: what is delegated is what is taken from the balance plus
    what is taken from the undelegations of the delegator, the records together grow by exactly
    what is taken from the balance, which covers it, each record is written once and is
    well formed, and the delegation to the validator of the message, in the last or the
    aliased record, grows by the amount. *)
Lemma Delegate_conserves db epoch msg dis forks ws deduct locked :
  storedOk db → NoDup (diValidator <$> dis) →
  VerifyAndDelegateFromMsg (Some db) epoch msg dis forks = Ok (ws, deduct, locked) →
  deduct + map_sum (λ _ x, x) locked = dmAmount msg ∧ 0 ≤ deduct ≤ dmAmount msg ∧ (deduct ≤ GetBalance db (dmDelegator msg) ∨ deduct = 0)
  ∧ NoDup (addrOf <$> ws)
  ∧ (∃ olds, Forall2 (λ old w, ValidatorWrapperCopy db (addrOf w) = Some old) olds ws
       ∧ sumZ wrapperStake ws = sumZ wrapperStake olds + deduct)
  ∧ Forall (λ w, wrapperSanityCheck w = None) ws
  ∧ ∃ old w, ValidatorWrapperCopy db (dmValidator msg) = Some old ∧ w ∈ ws ∧ addrOf w = dmValidator msg
      ∧ delegated (dmDelegator msg) w = delegated (dmDelegator msg) old + dmAmount msg.
Proof.
  intros Hdb Hnd E. unfold VerifyAndDelegateFromMsg in E. case_match; [done|].
  destruct (Z.eqb_spec (Z.sgn (dmAmount msg)) (-1)) as [|Hsg]; [done|]. destruct (tooSmall _ _ _); [done|].
  apply result_bind_Ok in E as (r & Hr & E).
  assert (∃ olds, redelegated db (dmValidator msg) (dmAmount msg) r olds) as [olds Hrd].
  { pose proof (redelegated_start db (dmValidator msg) (dmAmount msg) ltac:(lia)) as Hstart.
    destruct (IsRedelegation forks epoch); [eapply redelegateLoop_ok; [done|exact Hstart|done|set_solver|exact Hr]|simplify_eq; eauto]. }
  apply result_bind_Ok in E as ([i updated] & Hi & E).
  destruct (delegatee_ok _ _ _ _ _ _ _ Hdb Hrd Hi) as (olds' & w & old & Hw & Hold & Hnda & Hdel & Hoi & Hwa & Hst & Hsa).
  rewrite Hw in E. apply result_bind_Ok in E as (w' & Ew & E).
  destruct (addDelegation_ok _ _ _ _ Hdel Ew) as (Hv & Hstk & Hs & _ & Hd).
  assert (addrOf w' = addrOf w) as Ha by (unfold addrOf; by rewrite Hv).
  assert (ws = <[i := w']> updated ∧ deduct = rdBalance r ∧ locked = rdLocked r
    ∧ (deduct ≤ GetBalance db (dmDelegator msg) ∨ deduct = 0)) as (-> & -> & -> & Hcov).
  { destruct (Z.eqb_spec (rdBalance r) 0) as [Hz|]; [injection E as <- <- <-; split_and!; auto|]. unfold CanTransfer in E.
    destruct (Z.leb_spec (rdBalance r) (GetBalance db (dmDelegator msg))); [|done]. injection E as <- <- <-; split_and!; auto. }
  destruct Hrd as [_ _ _ Hlk _ Hrg _ _]. split_and!; [done|lia|lia|done| | | |].
  - rewrite list_fmap_insert, Ha. by rewrite list_insert_id by (by rewrite list_lookup_fmap, Hw).
  - exists olds'. split; [|rewrite (sumZ_update _ _ _ _ _ Hw), Hst, Hstk; lia].
    rewrite <-(list_insert_id olds' i old) by done. apply Forall2_insert; [by eapply Forall2_impl; [exact Hold|]; intros ?? []|].
    rewrite Ha. by eapply (Forall2_lookup_lr _ _ _ _ _ _ Hold Hoi Hw).
  - apply Forall_lookup. intros j x Hx. apply list_lookup_insert_Some in Hx as [(<- & <- & _)|[? Hx]]; [done|by eapply Hsa].
  - exists old, w'. destruct (Forall2_lookup_lr _ _ _ _ _ _ Hold Hoi Hw) as [Hc Hdeq]. rewrite Hwa in Hc. split; [done|].
    split; [eapply list_elem_of_lookup_2, list_lookup_insert_eq; by eapply lookup_lt_Some|]. split; [congruence|].
    by rewrite Hd, Z.eqb_refl, Hdeq.
Qed.

(** ** Undelegating *)
Lemma delegationOf_Some delegator w i d :
  delegationOf delegator w = Some (i, d) → Delegations w !! i = Some d ∧ DelegatorAddress d = delegator.
Proof. intros E. apply list_find_Some in E as (? & ? & _). done. Qed.

Lemma validatorSanityCheck_self v : validatorSanityCheck v ≠ Some ErrInvalidSelfDelegation.
Proof.
  unfold validatorSanityCheck. destruct (EnsureLength (vDescription v)) as [e|] eqn:Ee.
  - unfold EnsureLength in Ee. repeat case_decide; congruence.
  - repeat case_match; done.
Qed.

(** Turned inactive, a record only needs its delegations to be in bounds. *)
Lemma inactive_sane w :
  wrapperSanityCheck w = Some ErrInvalidSelfDelegation → Delegations w ≠ [] →
  TotalDelegation w ≤ default 0 (MaxTotalDelegation (wValidator w)) →
  Status (wValidator w) = Active
  ∧ wrapperSanityCheck (withValidator w (withStatus (wValidator w) Inactive)) = None.
Proof.
  intros E Hne Hmax. unfold wrapperSanityCheck in *. change (validatorSanityCheck (wValidator (withValidator w (withStatus (wValidator w) Inactive))))
    with (validatorSanityCheck (wValidator w)).
  destruct (validatorSanityCheck (wValidator w)) as [e|] eqn:Ev.
  { injection E as ->. by apply validatorSanityCheck_self in Ev. }
  cbn [withValidator Delegations wValidator withStatus Status MinSelfDelegation MaxTotalDelegation] in *.
  destruct (Delegations w) as [|self rest] eqn:Ed; [done|].
  assert (TotalDelegation (withValidator w (withStatus (wValidator w) Inactive)) = TotalDelegation w) as -> by done.
  destruct (Z.ltb_spec (default 0 (MaxTotalDelegation (wValidator w))) (TotalDelegation w)); [lia|].
  change (Inactive =? Active) with false. rewrite andb_false_r. split; [|done].
  destruct (Z.eqb_spec (Status (wValidator w)) Active); [done|]. by rewrite andb_false_r in E.
Qed.

(** Undelegating conserves the tokens of the record: the amount leaves the delegation and
    becomes an undelegation of the epoch, nobody else's delegation changes; a record that was
    well formed stays so, and the only change of status is that an active validator whose
    self-delegation falls below its minimum becomes inactive. *)
Theorem Undelegate_conserves db epoch msg w w' :
  ValidatorWrapperCopy db (umValidator msg) = Some w → wrapperSanityCheck w = None →
  VerifyAndUndelegateFromMsg (Some db) (Some epoch) msg = Ok w' →
  (∃ d, d ∈ Delegations w ∧ DelegatorAddress d = umDelegator msg ∧ 0 < umAmount msg ≤ dAmount d)
  ∧ wrapperStake w' = wrapperStake w
  ∧ (∀ a, delegated a w' = delegated a w - if a =? umDelegator msg then umAmount msg else 0)
  ∧ wrapperSanityCheck w' = None
  ∧ (wValidator w' = wValidator w
     ∨ Status (wValidator w) = Active ∧ wValidator w' = withStatus (wValidator w) Inactive).
Proof.
  intros Hw Hsane E. unfold VerifyAndUndelegateFromMsg in E. case_match; [done|]. case_match; [done|].
  apply result_bind_Ok in E as (w0 & Hw0%copyOf_Ok & E). rewrite Hw in Hw0. injection Hw0 as <-.
  destruct (delegationOf _ w) as [[i d]|] eqn:Ei; [|done]. apply delegationOf_Some in Ei as [Hi Ha].
  destruct (Undelegate d epoch (umAmount msg)) as [|d'] eqn:Eu; [done|].
  destruct (Undelegate_amounts _ _ _ _ Eu) as (Hr & Hd1 & _ & Hd3 & Hd4).
  set (w1 := setDelegation w i d') in *.
  assert (∀ a, delegated a w1 = delegated a w - if a =? umDelegator msg then umAmount msg else 0) as Hdel.
  { intros a. unfold delegated, w1, setDelegation. cbn [withDelegations Delegations]. rewrite (sumZ_update _ _ _ _ _ Hi).
    rewrite Hd3, Ha, (Z.eqb_sym a). destruct (umDelegator msg =? a); lia. }
  assert (wrapperStake w1 = wrapperStake w) as Hst.
  { unfold w1. rewrite (setDelegation_stake _ _ _ _ Hi). unfold stakeOf. lia. }
  split; [exists d; split; [by eapply list_elem_of_lookup_2|done]|].
  destruct (wrapperSanityCheck w1) as [e|] eqn:Es; [|injection E as <-; split_and!; try done; by left].
  destruct e; try done. injection E as <-.
  destruct (inactive_sane w1 Es) as [Hact Hok].
  - intros Hn. apply (f_equal length) in Hn. unfold w1 in Hn. cbn in Hn. rewrite length_insert in Hn. apply lookup_lt_Some in Hi. lia.
  - apply SanityCheck_spec in Hsane as (_ & _ & Hmax). rewrite TotalDelegation_sum. unfold w1, setDelegation.
    cbn [withDelegations Delegations wValidator]. rewrite (sumZ_update _ _ _ _ _ Hi). lia.
  - split_and!; try done. right. done.
Qed.

(** ** Collecting rewards *)
Definition wrapperReward (w : Wrapper) : Z := sumZ dReward (Delegations w).

Lemma collectLoop_ok db dis ws ws' total total' :
  (∀ a w d, ValidatorWrapperCopy db a = Some w → d ∈ Delegations w → 0 ≤ dReward d) →
  collectLoop db dis ws total = Ok (ws', total') →
  ∃ new olds, ws' = ws ++ new
    ∧ Forall2 (λ di old, ValidatorWrapperCopy db (diValidator di) = Some old) dis olds
    ∧ Forall2 (λ old w, ∃ i d, Delegations old !! i = Some d ∧ w = setDelegation old i (withReward d 0)) olds new
    ∧ total' = total + (sumZ wrapperReward olds - sumZ wrapperReward new) ∧ total ≤ total'.
Proof.
  intros Hpos. revert ws total. induction dis as [|di dis IH]; intros ws total E; cbn [collectLoop] in E.
  - injection E as <- <-. exists [], []. rewrite app_nil_r. split_and!; try done; try constructor; cbn; lia.
  - apply result_bind_Ok in E as (w & Hw%copyOf_Ok & E). case_match; [|done].
    destruct (Delegations w !! Z.to_nat (diIndex di)) as [d|] eqn:Ed; [|done].
    pose proof (Hpos _ _ d Hw (list_elem_of_lookup_2 _ _ _ Ed)) as Hd.
    set (w' := setDelegation w (Z.to_nat (diIndex di)) (withReward d 0)) in *.
    assert (wrapperReward w' = wrapperReward w - dReward d) as Hrw.
    { unfold wrapperReward, w', setDelegation. cbn [withDelegations Delegations]. rewrite (sumZ_update _ _ _ _ _ Ed). cbn [withReward dReward]. lia. }
    assert (collectLoop db dis (ws ++ [w']) (total + dReward d) = Ok (ws', total')) as E'.
    { destruct (Z.ltb_spec 0 (dReward d)); [done|]. assert (dReward d = 0) as Hz by lia. rewrite Hz, Z.add_0_r.
      assert (w' = w) as ->; [|done]. unfold w', setDelegation, withReward. rewrite <-Hz.
      replace (mkDelegation _ _ _ _) with d by (by destruct d). rewrite list_insert_id by done. by destruct w. }
    destruct (IH _ _ E') as (new & olds & -> & H1 & H2 & -> & H4). exists (w' :: new), (w :: olds).
    split_and!; [by rewrite <-app_assoc|by constructor|constructor; [eauto|done]|rewrite !sumZ_cons; lia|lia].
Qed.

(** Collecting pays out exactly what the records lose: the rewards of the listed delegations
    are zeroed, nothing else of the records changes, and the total is positive; a total that is
    a multiple of 2^64 is refused as if there were nothing to collect, since only its low 64
    bits are tested. *)
Theorem Collect_conserves db dis ws total :
  (∀ a w d, ValidatorWrapperCopy db a = Some w → d ∈ Delegations w → 0 ≤ dReward d) →
  collectLoop db dis [] 0 = Ok (ws, total) →
  ∃ olds, Forall2 (λ di old, ValidatorWrapperCopy db (diValidator di) = Some old) dis olds
    ∧ Forall2 (λ old w, ∃ i d, Delegations old !! i = Some d ∧ w = setDelegation old i (withReward d 0)) olds ws
    ∧ total = sumZ wrapperReward olds - sumZ wrapperReward ws ∧ 0 ≤ total
    ∧ VerifyAndCollectRewardsFromDelegation (Some db) dis =
        (if total mod 2 ^ 64 =? 0 then Err errNoRewardsToCollect else Ok (ws, total)).
Proof.
  intros Hpos E. destruct (collectLoop_ok _ _ _ _ _ _ Hpos E) as (new & olds & Hws & H1 & H2 & Ht & Hle). cbn in Hws. subst new.
  exists olds. split_and!; try done. unfold VerifyAndCollectRewardsFromDelegation. rewrite E. cbn [mbind result_mbind result_bind].
  assert ((i64 total =? 0) = (total mod 2 ^ 64 =? 0)) as ->; [|done]. unfold i64.
  pose proof (Z.mod_pos_bound total (2 ^ 64) ltac:(lia)) as Hm. pose proof (Z.div_mod total (2 ^ 64) ltac:(lia)) as Hdm.
  pose proof (Z.mod_pos_bound (total + 2 ^ 63) (2 ^ 64) ltac:(lia)) as Hm'. pose proof (Z.div_mod (total + 2 ^ 63) (2 ^ 64) ltac:(lia)) as Hdm'.
  destruct (Z.eqb_spec ((total + 2 ^ 63) mod 2 ^ 64 - 2 ^ 63) 0), (Z.eqb_spec (total mod 2 ^ 64) 0); lia.
Qed.

(** ** Registering and editing *)
Definition keysOf (w : Wrapper) : list SerializedPublicKey := SlotPubKeys (wValidator w).
Definition identityOf (w : Wrapper) : text := Identity (vDescription (wValidator w)).

(** The state after [UpdateValidatorWrapper] of a record. *)
Definition putRecord (db : StateReader) (w : Wrapper) : StateReader :=
  mkStateReader (λ a, (a =? addrOf w) || IsValidator db a)
    (λ a, if a =? addrOf w then Some w else ValidatorWrapperCopy db a) (GetBalance db) (GetValidatorFirstElectionEpoch db).

(** No two of the listed validators share a key, and the records are well formed. *)
Record registryOk (db : StateReader) (addrs : list Address) : Prop := {
  reg_keys : ∀ a b wa wb k, a ∈ addrs → b ∈ addrs → a ≠ b →
    ValidatorWrapperCopy db a = Some wa → ValidatorWrapperCopy db b = Some wb → k ∈ keysOf wa → k ∉ keysOf wb;
  reg_sane : ∀ a w, a ∈ addrs → ValidatorWrapperCopy db a = Some w → wrapperSanityCheck w = None ∧ addrOf w = a;
}.

Lemma dupLoop_ok db validator identity keys addrs :
  dupLoop db validator identity keys addrs = Ok () →
  ∀ a w, a ∈ addrs → a ≠ validator → ValidatorWrapperCopy db a = Some w →
    (identity ≠ [] → identityOf w ≠ identity) ∧ ∀ k, k ∈ keysOf w → k ∉ keys.
Proof.
  induction addrs as [|b addrs IH]; intros E a w Hin Hne Hw; [by apply elem_of_nil in Hin|]. cbn [dupLoop] in E.
  destruct (Z.eqb_spec validator b) as [->|Hvb].
  { apply elem_of_cons in Hin as [->|Hin]; [done|]. by apply (IH E a w). }
  apply result_bind_Ok in E as (wb & Hwb%copyOf_Ok & E).
  destruct (negb (text_eqb identity []) && text_eqb (Identity (vDescription (wValidator wb))) identity) eqn:Eid; [done|].
  destruct (negb (bool_decide (length keys = O)) && existsb (λ k, bool_decide (k ∈ keys)) (SlotPubKeys (wValidator wb))) eqn:Ek; [done|].
  apply elem_of_cons in Hin as [->|Hin]; [|by apply (IH E a w)]. rewrite Hw in Hwb. injection Hwb as <-. split.
  - intros Hi Heq. unfold identityOf in Heq. unfold text_eqb in Eid. rewrite Heq, (bool_decide_eq_true_2 (identity = identity) eq_refl), (bool_decide_eq_false_2 (identity = []) Hi) in Eid. done.
  - intros k Hk Hin. apply andb_false_iff in Ek as [Ek|Ek].
    + apply negb_false_iff, bool_decide_eq_true in Ek. destruct keys; [by apply elem_of_nil in Hin|done].
    + apply not_true_iff_false in Ek. apply Ek, existsb_exists. exists k. rewrite bool_decide_eq_true. split; [|done].
      by apply list_elem_of_In.
Qed.

Lemma containsHarmony_None ks accounts :
  containsHarmonyBLSKeys ks accounts = None → ∀ k, k ∈ ks → matchesHarmonyBLSKey k accounts = None.
Proof.
  induction ks as [|k ks IH]; cbn; [set_solver|]. destruct (matchesHarmonyBLSKey k accounts) eqn:E; [done|].
  intros H x [->|Hx]%elem_of_cons; auto.
Qed.

Section registering.
Context `{BL : BLSLib} `{SC : Schedule}.

Lemma liftStaking_Ok {A} (m : result stakingError A) a : liftStaking m = Ok a → m = Ok a.
Proof. by destruct m; intros [= ->]. Qed.

(** A validator is created with a well-formed record: its own stake, covered by the balance and
    at least its minimum, as the only delegation; keys that no listed validator and no Harmony
    node has; an identity that no listed validator has. *)
Lemma Create_spec db bc epoch blockNum msg w addrs :
  ReadValidatorList bc = Some addrs →
  VerifyAndCreateValidatorFromMsg (Some db) (Some bc) (Some epoch) (Some blockNum) msg = Ok w →
  wrapperOk w ∧ Status (wValidator w) = Active ∧ addrOf w = cvAddress msg ∧ IsValidator db (cvAddress msg) = false
  ∧ Delegations w = [NewDelegation (cvAddress msg) (cvAmount msg)]
  ∧ minimumStake ≤ cvAmount msg ≤ GetBalance db (cvAddress msg)
  ∧ keysOf w = cvKeys msg ∧ (∀ k, k ∈ keysOf w → matchesHarmonyBLSKey k (hmyAccounts (InstanceForEpoch epoch)) = None)
  ∧ ∀ a w', a ∈ addrs → a ≠ cvAddress msg → ValidatorWrapperCopy db a = Some w' →
      (identityOf w ≠ [] → identityOf w' ≠ identityOf w) ∧ ∀ k, k ∈ keysOf w' → k ∉ keysOf w.
Proof.
  intros Hl E. unfold VerifyAndCreateValidatorFromMsg in E.
  destruct (Z.eqb_spec (Z.sgn (cvAmount msg)) (-1)); [done|]. destruct (IsValidator db (cvAddress msg)) eqn:Eiv; [done|].
  apply result_bind_Ok in E as ([] & Hdup & E). unfold checkDuplicateFields in Hdup. rewrite Hl in Hdup.
  destruct (CanTransfer db (cvAddress msg) (cvAmount msg)) eqn:Ec; [|done]. cbn [negb] in E.
  apply result_bind_Ok in E as (v & Hv%liftStaking_Ok & E). apply result_bind_Ok in E as ([] & Hs%sane_Ok & [= <-]).
  unfold CreateValidatorFromNewMsg in Hv. destruct (EnsureLength (cvDescription msg)) as [|desc] eqn:El; [done|].
  apply EnsureLength_same in El as ->. destruct (containsHarmonyBLSKeys _ _) eqn:Ecb; [done|].
  apply result_bind_Ok in Hv as (_ & _ & [= <-]). apply SanityCheck_spec in Hs. unfold CanTransfer in Ec. apply Z.leb_le in Ec.
  split; [done|]. cbn. split; [done|]. split; [done|]. split; [done|]. split; [done|]. split.
  - destruct Hs as ((_ & _ & _ & (lo & hi & Hlo & _ & Hb) & _) & (self & rest & [= <- _] & Hself) & _). cbn in *.
    specialize (Hself eq_refl). rewrite Hlo in Hself. cbn in Hself. lia.
  - split; [done|]. split; [by apply containsHarmony_None|]. exact (dupLoop_ok _ _ _ _ _ Hdup).
Qed.

(** An edit leaves a well-formed record whose keys are old ones or the message's. *)
Lemma Edit_facts db bc epoch blockNum msg w addrs :
  ReadValidatorList bc = Some addrs →
  VerifyAndEditValidatorFromMsg (Some db) (Some bc) epoch (Some blockNum) msg = Ok w →
  ∃ old, ValidatorWrapperCopy db (evAddress msg) = Some old ∧ addrOf w = evAddress msg ∧ wrapperSanityCheck w = None
    ∧ (∀ k, k ∈ keysOf w → k ∈ keysOf old ∨ k ∈ option_list (SlotKeyToAdd msg))
    ∧ ∀ a w', a ∈ addrs → a ≠ evAddress msg → ValidatorWrapperCopy db a = Some w' →
        ∀ k, k ∈ keysOf w' → k ∉ option_list (SlotKeyToAdd msg).
Proof.
  intros Hl E. unfold VerifyAndEditValidatorFromMsg in E. case_match; [done|].
  apply result_bind_Ok in E as ([] & Hdup & E). unfold checkDuplicateFields in Hdup. rewrite Hl in Hdup.
  apply result_bind_Ok in E as (old & Hold%copyOf_Ok & E). apply result_bind_Ok in E as (v & Hv%liftStaking_Ok & E).
  apply result_bind_Ok in E as (v1 & Hv1 & E). apply result_bind_Ok in E as ([] & Hs%sane_Ok & [= <-]).
  destruct (Edit_frame _ _ _ _ Hv) as (_ & _ & Ha & Ha' & _ & _ & _ & _ & _ & Hkeys & _).
  assert (vAddress v1 = vAddress v ∧ SlotPubKeys v1 = SlotPubKeys v) as [Hva Hvk].
  { unfold checkRate in Hv1. case_match; [done|]. case_match; [done|]. destruct (ReadValidatorSnapshot _ _); [|done].
    apply result_bind_Ok in Hv1 as (d & _ & Hv1). revert Hv1. cbn zeta. destruct (GT (Abs d) _); [done|]. intros [= <-]. split; case_match; done. }
  exists old. split; [done|]. split; [unfold addrOf; cbn [withValidator wValidator]; congruence|]. split; [done|]. split.
  - intros k. unfold keysOf. cbn [withValidator wValidator]. rewrite Hvk. intros Hk.
    assert (k ∈ option_list (SlotKeyToRemove msg) ++ SlotPubKeys v) as Hk' by set_solver. rewrite Hkeys in Hk'. by apply elem_of_app in Hk'.
  - intros a w' Hin Hne Hw'. exact (proj2 (dupLoop_ok _ _ _ _ _ Hdup a w' Hin Hne Hw')).
Qed.

Lemma registry_put db addrs addrs' w :
  registryOk db addrs → wrapperSanityCheck w = None →
  (∀ b wb k, b ∈ addrs → b ≠ addrOf w → ValidatorWrapperCopy db b = Some wb → k ∈ keysOf wb → k ∉ keysOf w) →
  (∀ a, a ∈ addrs' → a ∈ addrs ∨ a = addrOf w) → registryOk (putRecord db w) addrs'.
Proof.
  intros [Hk Hs] Hw Hnew Hsub. split.
  - intros a b wa wb k Ha Hb Hne. cbn. destruct (Z.eqb_spec a (addrOf w)) as [->|Hna], (Z.eqb_spec b (addrOf w)) as [->|Hnb]; [done|..].
    + intros [= <-] Hwb Hkw Hkb. destruct (Hsub b Hb); [|done]. by eapply (Hnew b wb).
    + intros Hwa [= <-] Hka. destruct (Hsub a Ha); [|done]. by eapply (Hnew a wa).
    + destruct (Hsub a Ha), (Hsub b Hb); try done. by apply Hk.
  - intros a x Ha. cbn. destruct (Z.eqb_spec a (addrOf w)) as [->|Hna]; [intros [= <-]; done|].
    destruct (Hsub a Ha); [|done]. by apply Hs.
Qed.

(** *** The staking transactions of a block

    The list of validators that the checks read is that of the chain: it is extended, by
    [UpdateStakingMetaData], only when the block is written.  Records are stored at once.
    [updatedList] is the list that it writes; the snapshots of the new validators that it writes
    in the same loop are not part of it. *)
Definition updatedList (addrs newValidators : list Address) : list Address := addrs ++ filter (λ addr, addr ∉ addrs) newValidators.

(** What delegations, undelegations, collections and plain transfers do to the records: their
    keys and addresses stay, and they pass their check. *)
Definition keepsRecords (db db' : StateReader) : Prop :=
  ∀ a w', ValidatorWrapperCopy db' a = Some w' → ∃ w, ValidatorWrapperCopy db a = Some w ∧ keysOf w' = keysOf w ∧ addrOf w' = addrOf w ∧ wrapperSanityCheck w' = None.

(** The transactions of a block: [brought] lists the addresses with the keys that their messages
    bring, [created] the new validators.  A frozen account drops the record of an edit.  (The
    record of a new validator is stored: without it [UpdateStakingMetaData] finds no code at the
    address, and the block is not written.) *)
Inductive blockRun (bc : ChainContext) : StateReader → list (Address * list SerializedPublicKey) → list Address → StateReader → Prop :=
| run_end db : blockRun bc db [] [] db
| run_create db epoch blockNum msg w brought created db' :
    VerifyAndCreateValidatorFromMsg (Some db) (Some bc) (Some epoch) (Some blockNum) msg = Ok w →
    blockRun bc (putRecord db w) brought created db' →
    blockRun bc db ((cvAddress msg, cvKeys msg) :: brought) (cvAddress msg :: created) db'
| run_edit db epoch blockNum msg w brought created db' :
    VerifyAndEditValidatorFromMsg (Some db) (Some bc) epoch (Some blockNum) msg = Ok w →
    blockRun bc (putRecord db w) brought created db' →
    blockRun bc db ((evAddress msg, option_list (SlotKeyToAdd msg)) :: brought) created db'
| run_dropped db epoch blockNum msg w brought created db' :
    VerifyAndEditValidatorFromMsg (Some db) (Some bc) epoch (Some blockNum) msg = Ok w →
    blockRun bc db brought created db' →
    blockRun bc db ((evAddress msg, option_list (SlotKeyToAdd msg)) :: brought) created db'
| run_other db db1 brought created db' : keepsRecords db db1 → blockRun bc db1 brought created db' → blockRun bc db brought created db'.

(** No key is brought by the messages of two validators. *)
Definition broughtOnce (brought : list (Address * list SerializedPublicKey)) : Prop :=
  ∀ a b ka kb k, (a, ka) ∈ brought → (b, kb) ∈ brought → a ≠ b → k ∈ ka → k ∉ kb.

(** The records in the middle of a block: the keys of the new validators are all brought by
    messages of the block. *)
Definition midBlock (addrs : list Address) (B : list (Address * list SerializedPublicKey)) (db : StateReader) (created : list Address) : Prop :=
  registryOk db (addrs ++ created)
  ∧ ∀ b, b ∈ created → b ∉ addrs → ∀ w k, ValidatorWrapperCopy db b = Some w → k ∈ keysOf w → ∃ kb, (b, kb) ∈ B ∧ k ∈ kb.

(** A record is stored whose keys are old ones or brought, and clash with no listed validator. *)
Lemma midBlock_put addrs B db created created' w ks :
  broughtOnce B → midBlock addrs B db created → wrapperSanityCheck w = None → (addrOf w, ks) ∈ B →
  (∀ k, k ∈ keysOf w → k ∈ ks ∨ ∃ old, (addrOf w ∈ addrs ++ created) ∧ ValidatorWrapperCopy db (addrOf w) = Some old ∧ k ∈ keysOf old) →
  (∀ b wb k, b ∈ addrs → b ≠ addrOf w → ValidatorWrapperCopy db b = Some wb → k ∈ keysOf wb → k ∉ ks) →
  (∀ a, a ∈ created' → a ∈ created ∨ a = addrOf w) → midBlock addrs B (putRecord db w) created'.
Proof.
  intros Honce [Hreg Hmid] Hsane HB Hks Hdup Hsub. split.
  - apply (registry_put _ (addrs ++ created)); [done|done| |set_solver].
    intros b wb k Hb Hne Hwb Hk Hkw. destruct (Hks k Hkw) as [Hkn|(old & Hin & Hold & Hko)]; [|by eapply (reg_keys _ _ Hreg b (addrOf w) wb old k)].
    destruct (decide (b ∈ addrs)) as [Hba|Hba]; [by eapply (Hdup b wb k)|]. apply elem_of_app in Hb as [|Hb]; [done|].
    destruct (Hmid b Hb Hba wb k Hwb Hk) as (kb & Hkb & Hin). by apply (Honce b (addrOf w) kb ks k).
  - intros b Hb Hba. cbn. destruct (Z.eqb_spec b (addrOf w)) as [->|Hne].
    + intros w' k [= <-] Hk. destruct (Hks k Hk) as [Hkn|(old & Hin & Hold & Hko)]; [eauto|].
      apply elem_of_app in Hin as [|Hin]; [done|]. by apply (Hmid _ Hin Hba old k).
    + destruct (Hsub b Hb) as [Hb'|]; [|done]. exact (Hmid b Hb' Hba).
Qed.

Lemma blockRun_mid bc addrs B db brought created db' :
  ReadValidatorList bc = Some addrs → broughtOnce B → blockRun bc db brought created db' → (∀ x, x ∈ brought → x ∈ B) →
  ∀ c0, midBlock addrs B db c0 → midBlock addrs B db' (c0 ++ created).
Proof.
  intros Hl Honce. induction 1 as [db|db epoch blockNum msg w brought created db' E _ IH|db epoch blockNum msg w brought created db' E _ IH|db epoch blockNum msg w brought created db' E _ IH
    |db db1 brought created db' Hr _ IH];
    intros HB c0 Hmid.
  - by rewrite app_nil_r.
  - replace (c0 ++ cvAddress msg :: created) with ((c0 ++ [cvAddress msg]) ++ created) by (by rewrite <-app_assoc). apply IH; [set_solver|].
    destruct (Create_spec _ _ _ _ _ _ _ Hl E) as (Hok & _ & Ha & Hnv & _ & _ & Hkeys & _ & Hnew).
    apply (midBlock_put addrs B db c0 _ w (cvKeys msg)); [done|done|by apply SanityCheck_spec|rewrite Ha; apply HB; by left| | |rewrite Ha; set_solver].
    + intros k. rewrite Hkeys. by left.
    + rewrite Ha, <-Hkeys. intros b wb k Hb Hne Hwb. by apply (Hnew b wb).
  - apply IH; [set_solver|]. destruct (Edit_facts _ _ _ _ _ _ _ Hl E) as (old & Hold & Ha & Hs & Hkeys & Hdup).
    destruct (decide (evAddress msg ∈ addrs ++ c0)) as [Hin|Hin].
    + apply (midBlock_put addrs B db c0 _ w (option_list (SlotKeyToAdd msg))); [done|done|done|rewrite Ha; apply HB; by left| | |set_solver].
      * intros k Hk. destruct (Hkeys k Hk); [right|by left]. exists old. by rewrite Ha.
      * rewrite Ha. intros b wb k Hb Hne Hwb. by apply (Hdup b wb).
    + destruct Hmid as [[Hk Hsn] Hmid]. assert (∀ a, a ∈ addrs ++ c0 → ValidatorWrapperCopy (putRecord db w) a = ValidatorWrapperCopy db a) as Heq.
      { intros a Haa. cbn. destruct (Z.eqb_spec a (addrOf w)) as [->|]; [by rewrite Ha in Haa|done]. }
      split; [split|].
      * intros a b wa wb k H1 H2. rewrite !Heq by done. by apply Hk.
      * intros a x H1. rewrite Heq by done. by apply Hsn.
      * intros b Hb Hba. rewrite Heq by set_solver. exact (Hmid b Hb Hba).
  - apply IH; [set_solver|done].
  - apply IH; [done|]. destruct Hmid as [[Hk Hsn] Hmid]. split; [split|].
    + intros a b wa wb k H1 H2 Hne (wa0 & Ha0 & -> & _)%Hr (wb0 & Hb0 & -> & _)%Hr. by apply (Hk a b wa0 wb0).
    + intros a x H1 (x0 & Hx0 & _ & -> & Hs)%Hr. split; [done|]. by apply (Hsn a x0).
    + intros b Hb Hba x k (x0 & Hx0 & -> & _)%Hr. by apply (Hmid b Hb Hba).
Qed.

(** C24: A block keeps the registry well formed, every listed record passing its check and no key
    registered by two listed validators, when no key is brought by the messages of two validators
    in that block: the block may create validators, edit old and new ones (frozen ones to no
    effect) and do anything else that keeps keys and leaves records that pass their check, and the list is extended by the new validators when it is written.  (Two
    validators that bring one key in one block are both accepted, [same_key_in_block].) *)
Theorem registry_preserved db bc addrs brought created db' :
  ReadValidatorList bc = Some addrs → registryOk db addrs → blockRun bc db brought created db' → broughtOnce brought →
  registryOk db' (updatedList addrs created).
Proof.
  intros Hl Hreg Hrun Honce.
  destruct (blockRun_mid bc addrs brought db brought created db' Hl Honce Hrun (λ x Hx, Hx) []) as [[Hk Hs] _].
  { split; [by rewrite app_nil_r|]. by intros b ?%elem_of_nil. }
  assert (∀ a, a ∈ updatedList addrs created → a ∈ addrs ++ [] ++ created) as Hsub.
  { intros a [|[_ ?]%list_elem_of_filter]%elem_of_app; set_solver. }
  split; [intros a b wa wb k Ha Hb; apply Hk; by apply Hsub|intros a w Ha; apply Hs; by apply Hsub].
Qed.
End registering.

(** ** A concrete state: two validators, one delegator with locked tokens at both *)
#[local] Existing Instances demoBLS demoSchedule.

Definition demoCopy (a : Address) : option Wrapper :=
  if a =? 1 then Some (demoWrapper 1 [5; 6]) else if a =? 2 then Some (demoWrapper 2 [7]) else None.
Definition demoReader : StateReader :=
  mkStateReader (λ a, (a =? 1) || (a =? 2)) demoCopy (λ a, if a =? 3 then 30000 * one else 5000 * one) (λ _, 0).
Definition demoForks : DelegationForks := mkDelegationForks (λ _, true) (λ _, true).
Definition demoContext : ChainContext := mkChainContext (Some [1; 2]) (λ a, w ← demoCopy a; Some (mkSnapshot w 3)) (λ _, false) 10.
Definition demoIndexes : list DelegationIndex := [mkDelegationIndex 1 1 0; mkDelegationIndex 2 1 0].

(** What holds of the two records holds of the state. *)
Lemma demoReader_all (P : Address → Wrapper → Prop) :
  P 1 (demoWrapper 1 [5; 6]) → P 2 (demoWrapper 2 [7]) → ∀ a w, ValidatorWrapperCopy demoReader a = Some w → P a w.
Proof.
  intros H1 H2 a w. cbn. unfold demoCopy. destruct (Z.eqb_spec a 1) as [->|]; [by intros [= <-]|].
  destruct (Z.eqb_spec a 2) as [->|]; [by intros [= <-]|done].
Qed.

Lemma demoReader_stored : storedOk demoReader.
Proof.
  unfold storedOk.
  apply (demoReader_all (λ a w, addrOf w = a ∧ NoDup (DelegatorAddress <$> Delegations w)
    ∧ ∀ d u, d ∈ Delegations w → u ∈ Undelegations d → 0 ≤ uAmount u));
    (split; [done|]; split; [refine (bool_decide_unpack _ _); vm_compute; exact I|]);
    intros d u; cbn; rewrite !elem_of_cons, elem_of_nil; intros [->|[->|[]]]; cbn; rewrite ?elem_of_cons, elem_of_nil;
    intros Hu; (try done); destruct Hu as [->|[->|[]]]; vm_compute; discriminate.
Qed.

(** 500 tokens at validator 2: the 400 locked at validator 1 and 100 of those locked at 2. *)
Lemma Delegate_conserves_witness :
  ∃ ws, VerifyAndDelegateFromMsg (Some demoReader) 8 (mkDelegateMsg 50 2 (500 * one)) demoIndexes demoForks
          = Ok (ws, 0, {[1 := 400 * one; 2 := 100 * one]})
    ∧ ∃ olds, sumZ wrapperStake ws = sumZ wrapperStake olds + 0.
Proof.
  eexists. split; [vm_compute; reflexivity|].
  destruct (Delegate_conserves demoReader 8 (mkDelegateMsg 50 2 (500 * one)) demoIndexes demoForks _ _ _ demoReader_stored
    ltac:(refine (bool_decide_unpack _ _); vm_compute; exact I) ltac:(vm_compute; reflexivity)) as (_ & _ & _ & _ & (olds & _ & Hs) & _).
  exists olds. exact Hs.
Defined.

Lemma Undelegate_conserves_witness :
  ∃ w', VerifyAndUndelegateFromMsg (Some demoReader) (Some 8) (mkUndelegateMsg 2 2 (6000 * one)) = Ok w'
    ∧ Status (wValidator w') = Inactive ∧ wrapperStake w' = wrapperStake (demoWrapper 2 [7]) ∧ wrapperSanityCheck w' = None.
Proof.
  eexists. split; [vm_compute; reflexivity|]. split; [reflexivity|].
  destruct (Undelegate_conserves demoReader 8 (mkUndelegateMsg 2 2 (6000 * one)) (demoWrapper 2 [7]) _
    ltac:(reflexivity) ltac:(vm_compute; reflexivity) ltac:(vm_compute; reflexivity)) as (_ & Hs & _ & Hok & _).
  split; [exact Hs|exact Hok].
Defined.

Lemma demoReader_rewards a w d : ValidatorWrapperCopy demoReader a = Some w → d ∈ Delegations w → 0 ≤ dReward d.
Proof.
  intros Hw. revert a w Hw d. apply (demoReader_all (λ a w, ∀ d, d ∈ Delegations w → 0 ≤ dReward d));
    intros d; cbn; rewrite !elem_of_cons, elem_of_nil; intros [->|[->|[]]]; vm_compute; discriminate.
Qed.

(** The reward of 2^64 at the validator's own delegation cannot be collected alone. *)
Lemma Collect_conserves_witness :
  VerifyAndCollectRewardsFromDelegation (Some demoReader) [mkDelegationIndex 1 0 0] = Err errNoRewardsToCollect
  ∧ ∃ ws, VerifyAndCollectRewardsFromDelegation (Some demoReader) demoIndexes = Ok (ws, 14).
Proof.
  split.
  - destruct (Collect_conserves demoReader [mkDelegationIndex 1 0 0] _ _ demoReader_rewards ltac:(vm_compute; reflexivity))
      as (_ & _ & _ & _ & _ & E). exact E.
  - eexists. vm_compute. reflexivity.
Defined.

Definition demoCreate : CreateValidator :=
  mkCreateValidator 3 (mkDescription (asText "new") (asText "new") [] [] []) demoRates (Some (20000 * one)) (Some (90000 * one))
    [8; 9] [9; 10] (25000 * one).
Definition demoKeyEdit : EditValidator := mkEditValidator 2 (mkDescription [] [] [] [] []) None None None (Some 7) (Some 8) (Some 9) Inactive.

Lemma demoRegistry : registryOk demoReader [1; 2].
Proof.
  split.
  - intros a b wa wb k Ha Hb Hne Hwa Hwb. revert a wa Hwa Ha Hne.
    apply (demoReader_all (λ a wa, a ∈ [1; 2] → a ≠ b → k ∈ keysOf wa → k ∉ keysOf wb)); intros _ Hne; revert b wb Hwb Hb Hne;
      (apply (demoReader_all (λ b wb, b ∈ [1; 2] → _ ≠ b → k ∈ _ → k ∉ keysOf wb)); [|]);
      intros _ Hne; try done; cbn; rewrite !elem_of_cons, elem_of_nil; lia.
  - intros a w _ Hw. revert a w Hw. apply (demoReader_all (λ a w, wrapperSanityCheck w = None ∧ addrOf w = a)); split; vm_compute; reflexivity.
Qed.

(** One block creates the validator 3 with the keys 8 and 9, and the validator 2 replaces its key 7 by 10. *)
Definition demoOtherEdit : EditValidator := mkEditValidator 2 (mkDescription [] [] [] [] []) None None None (Some 7) (Some 10) (Some 11) Inactive.
Lemma registry_preserved_witness :
  ∃ db', blockRun demoContext demoReader [(3, [8; 9]); (2, [10])] [3] db' ∧ registryOk db' [1; 2; 3].
Proof.
  assert (∃ db', blockRun demoContext demoReader [(3, [8; 9]); (2, [10])] [3] db') as [db' Hrun].
  { eexists. eapply (run_create _ _ 3 40 demoCreate); [vm_compute; reflexivity|].
    eapply (run_edit _ _ 3 40 demoOtherEdit); [vm_compute; reflexivity|]. apply run_end. }
  exists db'. split; [exact Hrun|].
  apply (registry_preserved demoReader demoContext [1; 2] [(3, [8; 9]); (2, [10])] [3] db' eq_refl demoRegistry Hrun).
  intros a b ka kb k [[= -> ->]|[[= -> ->]|[]%elem_of_nil]%elem_of_cons]%elem_of_cons [[= -> ->]|[[= -> ->]|[]%elem_of_nil]%elem_of_cons]%elem_of_cons Hne;
    try done; rewrite !elem_of_cons, !elem_of_nil; lia.
Defined.

(** The validators 3 and 4 bring the key 8 in one block: both creations pass the check for
    duplicate keys, which reads the list of the chain, and both are listed afterwards. *)
Definition demoCreateAgain : CreateValidator :=
  mkCreateValidator 4 (mkDescription (asText "four") (asText "four") [] [] []) demoRates (Some (20000 * one)) (Some (90000 * one))
    [8] [9] (25000 * one).
Definition richReader : StateReader := mkStateReader (IsValidator demoReader) (ValidatorWrapperCopy demoReader) (λ _, 30000 * one) (λ _, 0).
Theorem same_key_in_block :
  ∃ db' w3 w4, blockRun demoContext richReader [(3, [8; 9]); (4, [8])] [3; 4] db' ∧ updatedList [1; 2] [3; 4] = [1; 2; 3; 4]
    ∧ ValidatorWrapperCopy db' 3 = Some w3 ∧ ValidatorWrapperCopy db' 4 = Some w4 ∧ 8 ∈ keysOf w3 ∧ 8 ∈ keysOf w4.
Proof.
  eexists _, _, _. split.
  - eapply (run_create _ _ 3 40 demoCreate); [vm_compute; reflexivity|]. eapply (run_create _ _ 3 40 demoCreateAgain); [vm_compute; reflexivity|]. apply run_end.
  - split; [reflexivity|]. split; [reflexivity|]. split; [reflexivity|]. split; by left.
Qed.
