(* ===== verification/Committee.v ===== *)
(** * The committees of an epoch (shard/committee/assignment.go)

    The election of the super committee: before staking from the accounts of the sharding
    configuration, afterwards the Harmony nodes of every shard and the winners of the auction
    over the eligible candidates.  The chain is the interface [DataProvider]; keys and addresses
    of the configuration are texts, which the libraries of [GenesisLib] decode.  The map of
    orders is iterated in the order of [map_to_list]: the auction does not depend on it
    ([Effective.v]), the list of candidates of a round is in that order. *)

From Stdlib Require Import ZArith Lia Ascii String Sorted.
From stdpp Require Import base gmap list option sets sorting.
From S2P Require Import Prelude Decimal ShardState Effective Staking.
Local Open Scope Z_scope.

(** ** Keys and addresses of the configuration *)
Class GenesisLib := {
  PublicKey : Type;
  (** [bls_core.PublicKey.DeserializeHexStr] on a zero key: whether it succeeds, and the key. *)
  DeserializeHexStr : text → bool * PublicKey;
  SerializeKey : PublicKey → bytes;
  (** [bech32.Decode] and [bech32.ConvertBits] of btcutil. *)
  bech32Decode : text → option (text * bytes);
  ConvertBits : bytes → Z → Z → bool → option bytes;
  HexToAddress : text → Address;
}.

Definition bytesValue (bs : bytes) : Z := foldl (λ acc b, acc * 256 + b) 0 bs.

Section keys.
Context `{GL : GenesisLib}.

(** [FromLibBLSPublicKey], the key it leaves when it fails being the zero array. *)
Definition FromLibBLSPublicKey (key : PublicKey) : bool * SerializedPublicKey :=
  let bs := SerializeKey key in
  if decide (length bs = 48%nat) then (true, bytesValue bs) else (false, 0).

(** The key of an account, with an error of either step. *)
Definition accountKey (account : DeployAccount) : option SerializedPublicKey :=
  let '(ok, pub) := DeserializeHexStr (accBLSPublicKey account) in
  if ok then let '(ok', k) := FromLibBLSPublicKey pub in if ok' then Some k else None else None.
(** The key of an account where the errors are ignored. *)
Definition accountKeyUnchecked (account : DeployAccount) : SerializedPublicKey :=
  (FromLibBLSPublicKey (DeserializeHexStr (accBLSPublicKey account)).2).2.

Definition DecodeAndConvert (bech : text) : option (text * bytes) :=
  '(hrp, data) ← bech32Decode bech; converted ← ConvertBits data 5 8 false; Some (hrp, converted).

Definition Bech32AddressHRP : text := asText "one".

Definition ParseBech32Addr (b32 : text) : option (text * Address) :=
  '(h, b) ← DecodeAndConvert b32; if decide (length b = 20%nat) then Some (h, bytesValue b) else None.

Definition Bech32ToAddress (b32 : text) : option Address :=
  '(hrp, addr) ← ParseBech32Addr b32; if text_eqb hrp Bech32AddressHRP then Some addr else None.

Definition ParseAddr (s : text) : option Address :=
  match Bech32ToAddress s with
  | Some addr => Some addr
  | None => let hex := HexToAddress s in if hex =? 0 then None else Some hex
  end.
End keys.

(** ** The chain *)
Inductive stateRead := StateError | StateNil | StateFound.

Record DataProvider := mkDataProvider {
  currentBlockEpoch : Z;
  currentHeaderEpoch : Z;
  StateAtCurrentRoot : stateRead;
  ValidatorCandidates : list Address;
  ReadValidatorInformationAtState : Address → option Wrapper;
  ReadValidatorSnapshot : Address → option ValidatorSnapshot;
  (** A pointer to the chain's cached object. *)
  ReadShardState : Z → option State;
  IsStaking : Z → bool;
  IsEPoSBound35 : Z → bool;
}.

Inductive committeeError :=
| errNoState | errReadValidator (a : Address) | errReadSnapshotOf (a : Address) | errAccountKey | errParseAddr
| errReadShardState | ErrComputeForEpochInPast.

(** ** The auction of an epoch *)
Definition IsEligibleForEPoSAuction (snapshot : ValidatorSnapshot) (validator : Wrapper) : option bool :=
  let byStatus := Status (wValidator validator) =? Active in
  if LastEpochInCommittee (wValidator validator) =? snapEpoch snapshot then
    computed ← ComputeCurrentSigning (snapValidator snapshot) validator;
    Some (if IsBelowThreshold computed then false else byStatus)
  else Some byStatus.

(** The loop over a candidate's keys: the keys seen so far and whether one was seen before. *)
Definition markKeys (blsKeys : gset SerializedPublicKey) (keys : list SerializedPublicKey) : gset SerializedPublicKey * bool :=
  foldl (λ '(seen, found) key, if decide (key ∈ seen) then (seen, true) else ({[key]} ∪ seen, found)) (blsKeys, false) keys.

Record orders := mkOrders { seenKeys : gset SerializedPublicKey; essentials : gmap Address SlotOrder; totalStaked : Z }.

Definition candidateStep (reader : DataProvider) (st : orders) (candidate : Address) : result committeeError orders :=
  match ReadValidatorInformationAtState reader candidate with
  | None => Err (errReadValidator candidate)
  | Some validator =>
      match ReadValidatorSnapshot reader candidate with
      | None => Err (errReadSnapshotOf candidate)
      | Some snapshot =>
          eligible ← lift_panic (IsEligibleForEPoSAuction snapshot validator);
          if negb eligible then Ok st
          else
            let '(seen, found) := markKeys (seenKeys st) (SlotPubKeys (wValidator validator)) in
            if (found : bool) then Ok (mkOrders seen (essentials st) (totalStaked st))
            else
              let validatorStake := TotalDelegation validator in
              Ok (mkOrders seen
                    (<[vAddress (wValidator validator) := mkSlotOrder validatorStake (SlotPubKeys (wValidator validator)) ZeroDec]> (essentials st))
                    (totalStaked st + validatorStake))
      end
  end.

Fixpoint candidateLoop (reader : DataProvider) (candidates : list Address) (st : orders) : result committeeError orders :=
  match candidates with
  | [] => Ok st
  | c :: rest => st' ← candidateStep reader st c; candidateLoop reader rest st'
  end.

(** The loop that sets the percentages; a division by a zero total panics. *)
Definition withPercentage (total : Dec) (o : SlotOrder) : option SlotOrder :=
  d ← NewDecFromBigInt (soStake o); p ← Quo d total; Some (mkSlotOrder (soStake o) (SpreadAmong o) p).
Definition percentages (total : Dec) (m : gmap Address SlotOrder) : option (gmap Address SlotOrder) :=
  if decide (map_Forall (λ _ o, is_Some (withPercentage total o)) m) then Some (omap (withPercentage total) m) else None.

Section election.
Context `{GL : GenesisLib} `{SC : Schedule}.

Definition harmonyKeys (sc : instance) : gset SerializedPublicKey :=
  foldl (λ seen account, match accountKey account with Some k => {[k]} ∪ seen | None => seen end) ∅ (hmyAccounts sc).

(** A missing state without an error is wrapped into no error: the orders are then nil. *)
Definition prepareOrders (reader : DataProvider) : result committeeError (gmap Address SlotOrder) :=
  match StateAtCurrentRoot reader with
  | StateError => Err errNoState
  | StateNil => Ok ∅
  | StateFound =>
      st ← candidateLoop reader (ValidatorCandidates reader) (mkOrders (harmonyKeys (InstanceForEpoch (currentBlockEpoch reader))) ∅ 0);
      total ← lift_panic (NewDecFromBigInt (totalStaked st));
      lift_panic (percentages total (essentials st))
  end.

Record CandidateOrder := mkCandidateOrder { coOrder : SlotOrder; StakePerKey : Z; coValidator : Address }.
Record CompletedEPoSRound := mkRoundOf {
  MedianStake : Dec; MaximumExternalSlot : Z; AuctionWinners : list SlotPurchase; AuctionCandidates : list CandidateOrder;
}.

Definition candidateOrder (kv : Address * SlotOrder) : CandidateOrder :=
  let l := Z.of_nat (length (SpreadAmong kv.2)) in
  mkCandidateOrder kv.2 (if 0 <? l then soStake kv.2 / l else 0) kv.1.

Definition NewEPoSRound (epoch : Z) (reader : DataProvider) (isExtendedBound : bool)
    : result committeeError CompletedEPoSRound :=
  eligibleCandidate ← prepareOrders reader;
  let maxExternalSlots := ExternalSlotsAvailable (InstanceForEpoch epoch) in
  '(median, winners) ← lift_panic (Apply (map_to_list eligibleCandidate) maxExternalSlots isExtendedBound);
  Ok (mkRoundOf median maxExternalSlots winners (candidateOrder <$> map_to_list eligibleCandidate)).

(** ** Committees *)
Fixpoint mapR {E A B} (f : A → result E B) (l : list A) : result E (list B) :=
  match l with [] => Ok [] | x :: l' => y ← f x; ys ← mapR f l'; Ok (y :: ys) end.

(** [accounts[index]], which panics out of range. *)
Definition accountAt (accounts : list DeployAccount) (index : Z) : result committeeError DeployAccount :=
  match accounts !! Z.to_nat index with Some a => Ok a | None => Panic end.

Definition preStakingSlot (accounts : list DeployAccount) (index : Z) : result committeeError Slot :=
  account ← accountAt accounts index;
  match ParseAddr (accAddress account) with
  | None => Err errParseAddr
  | Some addr => Ok (mkSlot addr (accountKeyUnchecked account) None)
  end.

Definition range (lo hi : Z) : list Z := (λ n, lo + Z.of_nat n) <$> seq 0 (Z.to_nat (hi - lo)).

Definition preStakingEnabledCommittee (s : instance) : result committeeError State :=
  let shardNum := numShards s in
  let shardHarmonyNodes := numHarmonyOperatedNodesPerShard s in
  shards ← mapR (λ i,
    hmy ← mapR (λ j, preStakingSlot (hmyAccounts s) (i + j * shardNum)) (range 0 shardHarmonyNodes);
    fn ← mapR (λ j, preStakingSlot (fnAccounts s) (i + (j - shardHarmonyNodes) * shardNum)) (range shardHarmonyNodes (numNodesPerShard s));
    Ok (mkCommittee i (hmy ++ fn))) (range 0 shardNum);
  Ok (mkState None shards []).

Definition harmonySlot (accounts : list DeployAccount) (index : Z) : result committeeError Slot :=
  account ← accountAt accounts index;
  match accountKey account with
  | None => Err errAccountKey
  | Some pubKey =>
      match ParseAddr (accAddress account) with
      | None => Err errParseAddr
      | Some addr => Ok (mkSlot addr pubKey None)
      end
  end.

Definition harmonyCommittees (s : instance) : result committeeError (list Committee) :=
  mapR (λ i, slots ← mapR (λ j, harmonySlot (hmyAccounts s) (i + j * numShards s)) (range 0 (numHarmonyOperatedNodesPerShard s));
             Ok (mkCommittee i slots)) (range 0 (numShards s)).

(** A winner joins the shard of its key; [None] is a panic ([big.Int.Mod] by zero). *)
Definition placeWinner (shardCount : Z) (shards : list Committee) (p : SlotPurchase) : option (list Committee) :=
  if shardCount =? 0 then None
  else
    let shardID := Z.to_nat (spKey p mod shardCount) in
    c ← shards !! shardID;
    Some (<[shardID := mkCommittee (ShardID c) (Slots c ++ [mkSlot (spAddr p) (spKey p) (Some (EPoSStake p))])]> shards).

Fixpoint placeWinners (shardCount : Z) (shards : list Committee) (winners : list SlotPurchase) : option (list Committee) :=
  match winners with
  | [] => Some shards
  | p :: rest => shards' ← placeWinner shardCount shards p; placeWinners shardCount shards' rest
  end.

(** The committee and whether it is the object of the previous epoch. *)
Definition eposStakedCommittee (epoch : Z) (s : instance) (reader : DataProvider) : result committeeError (State * bool) :=
  shards ← harmonyCommittees s;
  round ← NewEPoSRound epoch reader (IsEPoSBound35 reader epoch);
  shards' ← lift_panic (placeWinners (numShards s) shards (AuctionWinners round));
  match AuctionWinners round with
  | [] => match ReadShardState reader (epoch - 1) with Some ss => Ok (ss, true) | None => Err errReadShardState end
  | _ => Ok (mkState None shards' [], false)
  end.

(** The object of an epoch, changed in place. *)
Definition storeShardState (reader : DataProvider) (epoch : Z) (ss : State) : DataProvider :=
  mkDataProvider (currentBlockEpoch reader) (currentHeaderEpoch reader) (StateAtCurrentRoot reader) (ValidatorCandidates reader)
    (ReadValidatorInformationAtState reader) (ReadValidatorSnapshot reader)
    (λ e, if e =? epoch then Some ss else ReadShardState reader e) (IsStaking reader) (IsEPoSBound35 reader).

(** The new committee, and the chain's view after the call. *)
Definition ComputeCommittee (epoch : Z) (stakerReader : option DataProvider)
    : result committeeError (State * option DataProvider) :=
  let preStaking := match stakerReader with Some r => negb (IsStaking r epoch) | None => true end in
  let sc := InstanceForEpoch epoch in
  match stakerReader with
  | Some reader =>
      if preStaking then ss ← preStakingEnabledCommittee sc; Ok (ss, stakerReader)
      else if epoch <? currentHeaderEpoch reader then Err ErrComputeForEpochInPast
      else
        '(ss, reused) ← eposStakedCommittee epoch sc reader;
        let ss' := mkState (Some epoch) (Shards ss) (RangeMap ss) in
        Ok (ss', Some (if (reused : bool) then storeShardState reader (epoch - 1) ss' else reader))
  | None => ss ← preStakingEnabledCommittee sc; Ok (ss, None)
  end.
End election.

(** * Properties *)

(** ** No key twice *)
Lemma markKeys_spec seen keys seen' found :
  markKeys seen keys = (seen', found) →
  seen' = seen ∪ list_to_set keys ∧ (found = false ↔ NoDup keys ∧ ∀ k, k ∈ keys → k ∉ seen).
Proof.
  unfold markKeys. assert (∀ f0, foldl (λ '(seen, found) key, if decide (key ∈ seen) then (seen, true) else ({[key]} ∪ seen, found)) (seen, f0) keys
    = (seen', found) → seen' = seen ∪ list_to_set keys ∧ (found = false ↔ f0 = false ∧ NoDup keys ∧ ∀ k, k ∈ keys → k ∉ seen)) as H.
  { revert seen. induction keys as [|k keys IH]; intros seen f0 E; cbn in E.
    - injection E as <- <-. split; [set_solver|]. split; [|tauto]. intros ->. split_and!; [done|constructor|set_solver].
    - rewrite NoDup_cons. case_decide as Hk.
      + destruct (IH _ _ E) as [-> Hf]. split; [set_solver|]. rewrite Hf. split; [by intros [? _]|]. intros (_ & _ & Hn).
        by destruct (Hn k ltac:(set_solver)).
      + destruct (IH _ _ E) as [-> Hf]. split; [set_solver|]. rewrite Hf. set_solver. }
  intros E. destruct (H false E) as [-> Hf]. split; [done|]. rewrite Hf. tauto.
Qed.

(** The keys at auction: one order's keys are distinct, two orders share none, and none is in
    the initial set. *)
Record ordersOk (init : gset SerializedPublicKey) (seen : gset SerializedPublicKey) (m : gmap Address SlotOrder) : Prop := {
  oo_seen : init ⊆ seen;
  oo_keys : ∀ a o, m !! a = Some o → NoDup (SpreadAmong o) ∧ ∀ k, k ∈ SpreadAmong o → k ∈ seen ∧ k ∉ init;
  oo_disj : ∀ a b oa ob k, m !! a = Some oa → m !! b = Some ob → a ≠ b → k ∈ SpreadAmong oa → k ∉ SpreadAmong ob;
}.

Lemma candidateStep_ok reader init st c st' :
  ordersOk init (seenKeys st) (essentials st) → candidateStep reader st c = Ok st' → ordersOk init (seenKeys st') (essentials st').
Proof.
  intros [Hs Hk Hd] E. unfold candidateStep in E. destruct (ReadValidatorInformationAtState reader c) as [v|]; [|done].
  destruct (ReadValidatorSnapshot reader c) as [snap|]; [|done].
  apply result_bind_Ok in E as (el & _ & E). destruct el; cbn [negb] in E; [|by injection E as <-].
  destruct (markKeys _ _) as [seen found] eqn:Em. destruct (markKeys_spec _ _ _ _ Em) as [-> Hf].
  destruct found; injection E as <-; cbn [seenKeys essentials].
  - split; [set_solver| |done]. intros a o Ho. destruct (Hk a o Ho) as [Hn0 HH]. split; [done|]. intros k Hin. destruct (HH k Hin). set_solver.
  - destruct (proj1 Hf eq_refl) as [Hnd Hnew]. split; [set_solver| |].
    + intros a o [[<- <-]|[? Ho]]%lookup_insert_Some.
      * cbn. split; [done|]. intros k Hin. specialize (Hnew k Hin). set_solver.
      * destruct (Hk a o Ho) as [Hn0 HH]. split; [done|]. intros k Hin. destruct (HH k Hin). set_solver.
    + intros a b oa ob k [[<- <-]|[? Hoa]]%lookup_insert_Some [[<- <-]|[? Hob]]%lookup_insert_Some Hne; cbn; [done|..].
      * intros Hin Hin'. apply (Hnew k Hin). by apply (Hk b ob).
      * intros Hin Hin'. apply (Hnew k Hin'). by apply (Hk a oa).
      * by apply (Hd a b).
Qed.

Lemma candidateLoop_ok reader init cs st st' :
  ordersOk init (seenKeys st) (essentials st) → candidateLoop reader cs st = Ok st' → ordersOk init (seenKeys st') (essentials st').
Proof.
  revert st. induction cs as [|c cs IH]; intros st Hst E; cbn [candidateLoop] in E; [by injection E as <-|].
  apply result_bind_Ok in E as (st1 & E1 & E). eapply IH; [|exact E]. by eapply candidateStep_ok.
Qed.

Lemma lift_panic_Ok {E A} (m : option A) (a : A) : lift_panic (E := E) m = Ok a → m = Some a.
Proof. destruct m; cbn; [by intros [= ->]|done]. Qed.

Lemma percentages_Some total m m' :
  percentages total m = Some m' → ∀ a, SpreadAmong <$> m' !! a = SpreadAmong <$> m !! a.
Proof.
  unfold percentages. case_decide as Hm; [|done]. intros [= <-] a. rewrite lookup_omap.
  destruct (m !! a) as [o|] eqn:Ho; [|done]. destruct (Hm a o Ho) as [o' Ho'].
  change (SpreadAmong <$> withPercentage total o = Some (SpreadAmong o)). rewrite Ho'. cbn.
  unfold withPercentage in Ho'. inv_bind. done.
Qed.

Section electing.
Context `{GL : GenesisLib} `{SC : Schedule}.

Lemma prepareOrders_ok reader m :
  prepareOrders reader = Ok m →
  ∃ seen, ordersOk (harmonyKeys (InstanceForEpoch (currentBlockEpoch reader))) seen m.
Proof.
  unfold prepareOrders. destruct (StateAtCurrentRoot reader); [done|intros [= <-]|intros E].
  - eexists. split; [done|..]; intros *; by rewrite lookup_empty.
  - apply result_bind_Ok in E as (st & Hst & E). apply result_bind_Ok in E as (total & _ & Hp%lift_panic_Ok).
    eapply candidateLoop_ok in Hst as [Hs Hk Hd]; [|split; [reflexivity|..]; intros *; cbn; by rewrite lookup_empty].
    assert (∀ a o, m !! a = Some o → ∃ o', essentials st !! a = Some o' ∧ SpreadAmong o' = SpreadAmong o) as Hsame.
    { intros a o Ho. pose proof (percentages_Some _ _ _ Hp a) as H. rewrite Ho in H. destruct (essentials st !! a) as [o'|]; [|done].
      injection H as H. eauto. }
    exists (seenKeys st). split; [done|..].
    + intros a o (o' & Ho' & <-)%Hsame. by apply (Hk a).
    + intros a b oa ob k (? & ? & <-)%Hsame (? & ? & <-)%Hsame. by apply Hd.
Qed.
End electing.

(** The keys of the bids are the keys of the orders. *)
Lemma expandAll_keys l slots : expandAll l = Some slots → spKey <$> slots = concat ((λ kv, SpreadAmong kv.2) <$> l).
Proof.
  revert slots. induction l as [|[a o] l IH]; intros slots E; cbn [expandAll] in E; [by injection E as <-|].
  apply bind_Some in E as (l1 & E1 & E). apply bind_Some in E as (l2 & E2 & [= <-]).
  rewrite fmap_app, (IH _ E2). cbn. f_equal. unfold expand in E1. case_decide as Hl.
  - injection E1 as <-. by destruct (SpreadAmong o).
  - inv_bind. rewrite <-list_fmap_compose. unfold compose. cbn. apply list_fmap_id.
Qed.

Lemma concat_NoDup {A} (l : list (list A)) :
  Forall NoDup l → (∀ i j x y k, l !! i = Some x → l !! j = Some y → i ≠ j → k ∈ x → k ∉ y) → NoDup (concat l).
Proof.
  induction l as [|x l IH]; intros Hf Hd; cbn; [constructor|]. apply Forall_cons in Hf as [Hx Hf]. apply NoDup_app. split; [done|]. split.
  - intros k Hk Hin. apply list_elem_of_In, in_concat in Hin as (y & Hy%list_elem_of_In & Hky%list_elem_of_In).
    apply list_elem_of_lookup in Hy as [j Hj]. by apply (Hd 0%nat (S j) x y k).
  - apply IH; [done|]. intros i j y z k Hy Hz Hij. apply (Hd (S i) (S j)); [done|done|lia].
Qed.

Lemma orders_keys_NoDup init seen m : ordersOk init seen m → NoDup (concat ((λ kv, SpreadAmong kv.2) <$> map_to_list m)).
Proof.
  intros [_ Hk Hd]. apply concat_NoDup.
  - rewrite Forall_fmap, Forall_forall. intros [a o] Hin%elem_of_map_to_list. by apply (Hk a o).
  - intros i j x y k Hx Hy Hij. rewrite list_lookup_fmap in Hx, Hy.
    destruct (map_to_list m !! i) as [[a oa]|] eqn:Ei; [|done]. destruct (map_to_list m !! j) as [[b ob]|] eqn:Ej; [|done].
    cbn in Hx, Hy. injection Hx as <-. injection Hy as <-.
    apply (Hd a b); [by apply elem_of_map_to_list; eapply list_elem_of_lookup_2|by apply elem_of_map_to_list; eapply list_elem_of_lookup_2|].
    intros ->. apply Hij. eapply (NoDup_lookup _ _ _ b (NoDup_fst_map_to_list m)); by rewrite list_lookup_fmap, ?Ei, ?Ej.
Qed.

Lemma eposSlots_keys sh slots : eposSlots sh = Some slots → spKey <$> slots ≡ₚ concat ((λ kv, SpreadAmong kv.2) <$> sh).
Proof.
  unfold eposSlots. intros (l & Hl%expandAll_keys & [= <-])%bind_Some. rewrite SliceStable_perm, Hl. by rewrite SliceStable_perm.
Qed.

(** The keys that win are distinct keys at auction, as many as there are slots at most. *)
Lemma winners_keys init seen m pull ext median winners :
  ordersOk init seen m → 0 ≤ pull → Apply (map_to_list m) pull ext = Some (median, winners) →
  NoDup (spKey <$> winners) ∧ (∀ k, k ∈ spKey <$> winners → k ∉ init) ∧ Z.of_nat (length winners) ≤ pull.
Proof.
  intros Hm Hp E. unfold Apply in E. destruct (Compute (map_to_list m) pull) as [[md raw]|] eqn:Ec; [|done].
  destruct (bounds md ext) as [[lo hi]|]; [|done]. injection E as <- <-. rewrite <-list_fmap_compose. unfold compose. cbn.
  change (λ x, spKey x) with spKey. destruct (Compute_prefix _ _ _ _ Hp Ec) as (slots & H1 & H2 & ->).
  assert (spKey <$> slots ≡ₚ concat ((λ kv, SpreadAmong kv.2) <$> map_to_list m)) as Hk.
  { destruct (map_to_list m) as [|x l]; [by rewrite H2|by apply eposSlots_keys, H1]. }
  rewrite length_fmap, length_take. split_and!; [| |lia].
  - rewrite fmap_take. eapply sublist_NoDup; [|apply sublist_take]. rewrite Hk. by eapply orders_keys_NoDup.
  - intros k Hin. assert (k ∈ spKey <$> slots) as Hs. { rewrite fmap_take in Hin. eapply elem_of_sublist; [exact Hin|apply sublist_take]. }
    rewrite Hk in Hs. apply list_elem_of_In, in_concat in Hs as (ks & Hks%list_elem_of_In & Hkk%list_elem_of_In).
    apply list_elem_of_fmap in Hks as ([a o] & -> & Ho%elem_of_map_to_list). by apply (oo_keys _ _ _ Hm a o Ho).
Qed.

(** ** Placement *)
Definition externalSlot (p : SlotPurchase) : Slot := mkSlot (spAddr p) (spKey p) (Some (EPoSStake p)).
Definition winnersOf (n i : Z) (winners : list SlotPurchase) : list Slot :=
  externalSlot <$> filter (λ p, spKey p mod n = i) winners.

Lemma placeWinners_spec n shards winners shards' :
  placeWinners n shards winners = Some shards' → length shards = Z.to_nat n →
  length shards' = length shards ∧
  ∀ i c, shards !! i = Some c → shards' !! i = Some (mkCommittee (ShardID c) (Slots c ++ winnersOf n (Z.of_nat i) winners)).
Proof.
  revert shards. induction winners as [|p winners IH]; intros shards E Hlen; cbn [placeWinners] in E.
  - injection E as <-. split; [done|]. intros i [id sl] Hi. unfold winnersOf. cbn. by rewrite app_nil_r.
  - apply bind_Some in E as (sh1 & E1 & E). unfold placeWinner in E1. destruct (Z.eqb_spec n 0) as [|Hn]; [done|].
    apply bind_Some in E1 as (c0 & Hc0 & [= <-]). destruct (IH _ E) as [Hl H]; [by rewrite length_insert|].
    rewrite length_insert in Hl. split; [done|]. intros i c Hi. unfold winnersOf in *. rewrite filter_cons.
    assert (0 < n) as Hpos by (apply lookup_lt_Some in Hc0; lia). pose proof (Z.mod_pos_bound (spKey p) n Hpos).
    destruct (decide (i = Z.to_nat (spKey p mod n))) as [->|Hne].
    + rewrite decide_True by lia. assert (c = c0) as -> by congruence.
      rewrite (H (Z.to_nat (spKey p mod n)) _ (list_lookup_insert_eq _ _ _ (lookup_lt_Some _ _ _ Hc0))). cbn. by rewrite <-app_assoc.
    + rewrite decide_False by lia. apply H. by rewrite list_lookup_insert_ne.
Qed.

Lemma mapR_Ok {E A B} (f : A → result E B) l l' : mapR f l = Ok l' → Forall2 (λ x y, f x = Ok y) l l'.
Proof.
  revert l'. induction l as [|x l IH]; intros l' Hm; cbn [mapR] in Hm; [injection Hm as <-; constructor|].
  apply result_bind_Ok in Hm as (y & Hy & Hm). apply result_bind_Ok in Hm as (ys & Hys & [= <-]). constructor; auto.
Qed.

Lemma range_lookup lo hi i : (i < Z.to_nat (hi - lo))%nat → range lo hi !! i = Some (lo + Z.of_nat i).
Proof. intros Hi. unfold range. rewrite list_lookup_fmap, lookup_seq_lt by done. done. Qed.

Lemma length_range lo hi : length (range lo hi) = Z.to_nat (hi - lo).
Proof. unfold range. by rewrite length_fmap, length_seq. Qed.

Section committees.
Context `{GL : GenesisLib} `{SC : Schedule}.

Lemma harmonyKeys_elem sc a k : a ∈ hmyAccounts sc → accountKey a = Some k → k ∈ harmonyKeys sc.
Proof.
  intros Ha Hk. unfold harmonyKeys.
  assert (∀ l (s : gset SerializedPublicKey), (k ∈ s ∨ a ∈ l) → k ∈ foldl (λ seen account, match accountKey account with Some k => {[k]} ∪ seen | None => seen end) s l) as H.
  { intros l. induction l as [|b l IH]; intros s Hs; cbn; [destruct Hs as [|?%elem_of_nil]; done|]. apply IH.
    destruct Hs as [Hs|[->|Hs]%elem_of_cons]; [left; destruct (accountKey b); set_solver|rewrite Hk; left; set_solver|by right]. }
  apply H. by right.
Qed.

(** The Harmony nodes of the shard [i]: the [j]-th of them is, without stake, the account
    [i + j * numShards] of the configuration. *)
Definition harmonySlots (sc : instance) (i : Z) (slots : list Slot) : Prop :=
  Z.of_nat (length slots) = Z.max 0 (numHarmonyOperatedNodesPerShard sc)
  ∧ ∀ j s, slots !! j = Some s → ∃ account, hmyAccounts sc !! Z.to_nat (i + Z.of_nat j * numShards sc) = Some account
      ∧ accountKey account = Some (BLSPublicKey s) ∧ ParseAddr (accAddress account) = Some (EcdsaAddress s) ∧ EffectiveStake s = None.

Lemma harmonyCommittees_ok sc shards :
  harmonyCommittees sc = Ok shards →
  length shards = Z.to_nat (numShards sc)
  ∧ ∀ i c, shards !! i = Some c → ShardID c = Z.of_nat i ∧ harmonySlots sc (Z.of_nat i) (Slots c).
Proof.
  unfold harmonyCommittees. intros H%mapR_Ok. split; [by rewrite <-(Forall2_length _ _ _ H), length_range, Z.sub_0_r|].
  intros i c Hc. destruct (Forall2_lookup_r _ _ _ _ _ H Hc) as (x & Hx & Hf).
  assert (x = Z.of_nat i) as -> by (rewrite range_lookup in Hx; [by injection Hx as <-|apply lookup_lt_Some in Hx; by rewrite length_range in Hx]).
  apply result_bind_Ok in Hf as (slots & Hs%mapR_Ok & [= <-]). split; [done|]. cbn. split.
  - rewrite <-(Forall2_length _ _ _ Hs), length_range. lia.
  - intros j s Hj. destruct (Forall2_lookup_r _ _ _ _ _ Hs Hj) as (y & Hy & Hsl). unfold harmonySlot in Hsl.
    assert (y = Z.of_nat j) as -> by (rewrite range_lookup in Hy; [by injection Hy as <-|apply lookup_lt_Some in Hy; by rewrite length_range in Hy]).
    apply result_bind_Ok in Hsl as (acc & Hacc & Hsl). unfold accountAt in Hacc.
    destruct (hmyAccounts sc !! _) as [a|] eqn:Ea; [|done]. injection Hacc as <-.
    destruct (accountKey a) as [k|] eqn:Ek; [|done]. destruct (ParseAddr _) as [ad|] eqn:Ep; [|done]. injection Hsl as <-. by exists a.
Qed.

(** C20: The committee that is computed for a staking epoch.  The winners of the auction are no
    more than the open slots, have no key twice and none that a Harmony node of the current epoch
    has, hence, where the two configurations have the same Harmony keys, none of the new
    committee's.  With winners every shard of the configuration has, in this order, its Harmony
    nodes, the accounts [i + j * numShards] of the configuration, and exactly the winners whose
    key is in the residue class of the shard, in the order of the auction.  Without winners the
    committees are those of the previous epoch. *)
Theorem eposCommittee_spec epoch reader ss reader' round :
  IsStaking reader epoch = true → 0 ≤ ExternalSlotsAvailable (InstanceForEpoch epoch) →
  NewEPoSRound epoch reader (IsEPoSBound35 reader epoch) = Ok round →
  ComputeCommittee epoch (Some reader) = Ok (ss, reader') →
  let sc := InstanceForEpoch epoch in let winners := AuctionWinners round in
  let current := harmonyKeys (InstanceForEpoch (currentBlockEpoch reader)) in
  currentHeaderEpoch reader ≤ epoch ∧ Epoch ss = Some epoch
  ∧ NoDup (spKey <$> winners) ∧ Z.of_nat (length winners) ≤ ExternalSlotsAvailable sc
  ∧ (∀ k, k ∈ spKey <$> winners → k ∉ current)
  ∧ (harmonyKeys sc ⊆ current → ∀ k, k ∈ spKey <$> winners → k ∉ harmonyKeys sc)
  ∧ (winners = [] → ∃ old, ReadShardState reader (epoch - 1) = Some old ∧ Shards ss = Shards old)
  ∧ (winners ≠ [] → reader' = Some reader ∧ length (Shards ss) = Z.to_nat (numShards sc)
       ∧ ∀ i c, Shards ss !! i = Some c → ShardID c = Z.of_nat i
           ∧ ∃ hmy, harmonySlots sc (Z.of_nat i) hmy ∧ Slots c = hmy ++ winnersOf (numShards sc) (Z.of_nat i) winners).
Proof.
  intros Hst Hext Hround E sc winners current. unfold ComputeCommittee in E. rewrite Hst in E. cbn [negb] in E.
  destruct (Z.ltb_spec epoch (currentHeaderEpoch reader)); [done|].
  apply result_bind_Ok in E as ([ss0 reused] & E0 & [= <- <-]). unfold eposStakedCommittee in E0.
  apply result_bind_Ok in E0 as (shards & Hsh%harmonyCommittees_ok & E0). rewrite Hround in E0. cbn [mbind result_mbind result_bind] in E0.
  apply result_bind_Ok in E0 as (shards' & Hpl%lift_panic_Ok & E0). fold sc in Hsh, Hpl. fold winners in Hpl, E0.
  unfold NewEPoSRound in Hround. apply result_bind_Ok in Hround as (m & [seen Hm]%prepareOrders_ok & Hround).
  apply result_bind_Ok in Hround as ([median ws] & Hap%lift_panic_Ok & [= Hr]).
  assert (ws = winners) as -> by (unfold winners; by rewrite <-Hr).
  destruct (winners_keys _ _ _ _ _ _ _ Hm Hext Hap) as (Hnd & Hcur & Hle).
  split_and!; try done; [intros Hsub k Hk Hin; apply (Hcur k Hk); unfold current in Hsub; by apply Hsub| |].
  - intros Hw. rewrite Hw in E0. destruct (ReadShardState reader (epoch - 1)) as [old|]; [|done]. injection E0 as <- <-. by exists old.
  - intros Hne. assert (ss0 = mkState None shards' [] ∧ reused = false) as [-> ->] by (destruct winners; [done|by injection E0 as <- <-]).
    destruct Hsh as [Hlen Hsh]. destruct (placeWinners_spec _ _ _ _ Hpl Hlen) as [Hlen' Hpl']. cbn [Shards]. split_and!; [done|congruence|].
    intros i c Hc. destruct (lookup_lt_is_Some_2 shards i) as [c0 Hc0]; [apply lookup_lt_Some in Hc; lia|].
    rewrite (Hpl' i c0 Hc0) in Hc. injection Hc as <-. destruct (Hsh i c0 Hc0) as [Hid Hh]. split; [done|]. by exists (Slots c0).
Qed.

(** An epoch without winners keeps the committees of the previous epoch: the object of the
    previous epoch is returned with its epoch overwritten, so that from then on the chain's
    state of the previous epoch carries the number of the new one. *)
Theorem no_winners_relabels epoch reader round shards old :
  IsStaking reader epoch = true → currentHeaderEpoch reader ≤ epoch →
  harmonyCommittees (InstanceForEpoch epoch) = Ok shards →
  NewEPoSRound epoch reader (IsEPoSBound35 reader epoch) = Ok round → AuctionWinners round = [] →
  ReadShardState reader (epoch - 1) = Some old →
  ∃ ss reader', ComputeCommittee epoch (Some reader) = Ok (ss, Some reader')
    ∧ Shards ss = Shards old ∧ Epoch ss = Some epoch
    ∧ ReadShardState reader' (epoch - 1) = Some ss ∧ (∀ e, e ≠ epoch - 1 → ReadShardState reader' e = ReadShardState reader e).
Proof.
  intros Hst Hh Hsh Hr Hw Hold. unfold ComputeCommittee, eposStakedCommittee. rewrite Hst. cbn [negb].
  rewrite (proj2 (Z.ltb_ge _ _)) by lia. rewrite Hsh. cbn [mbind result_mbind result_bind]. rewrite Hr. cbn [mbind result_mbind result_bind].
  rewrite Hw. cbn [placeWinners lift_panic mbind result_mbind result_bind]. rewrite Hold. cbn [mbind result_mbind result_bind].
  eexists _, _. split; [done|]. cbn. rewrite Z.eqb_refl. split_and!; try done. intros e He. by rewrite (proj2 (Z.eqb_neq _ _)).
Qed.
End committees.

(** ** A concrete election: two shards, two validators with three keys *)
Definition unhexDigit (c : ascii) : Z := let n := Z.of_N (N_of_ascii c) in if n <? 58 then n - 48 else n - 87.
Fixpoint unhex (t : text) : bytes :=
  match t with a :: b :: t' => unhexDigit a * 16 + unhexDigit b :: unhex t' | _ => [] end.

Definition demoGenesis : GenesisLib := {|
  PublicKey := text; DeserializeHexStr t := (bool_decide (length t = 96%nat), t); SerializeKey := unhex;
  bech32Decode _ := None; ConvertBits _ _ _ _ := None; HexToAddress t := Z.of_nat (length t); |}.
Definition demoShards : instance :=
  mkInstance 2 4 1 OneDec 0 [mkAccount [] (asText "a") (Hex 900) 0; mkAccount [] (asText "bb") (Hex 901) 0] [] [] 10.
Definition electionSchedule : Schedule := λ _, demoShards.
#[local] Existing Instances demoGenesis electionSchedule.

Definition demoInfo (a : Address) : option Wrapper :=
  if a =? 1 then Some (demoWrapper 1 [5; 6]) else if a =? 2 then Some (demoWrapper 2 [7]) else None.
Definition demoOld : State := mkState (Some 3) [mkCommittee 0 []; mkCommittee 1 []] [].
Definition demoChain (candidates : list Address) : DataProvider :=
  mkDataProvider 3 3 StateFound candidates demoInfo (λ a, w ← demoInfo a; Some (mkSnapshot w 3))
    (λ e, if e =? 3 then Some demoOld else None) (λ _, true) (λ _, true).

Lemma eposCommittee_spec_witness :
  ∃ ss, ComputeCommittee 4 (Some (demoChain [1; 2])) = Ok (ss, Some (demoChain [1; 2]))
    ∧ (map BLSPublicKey ∘ Slots <$> Shards ss) = [[900; 6]; [901; 7; 5]]
    ∧ ∃ round, NewEPoSRound 4 (demoChain [1; 2]) (IsEPoSBound35 (demoChain [1; 2]) 4) = Ok round ∧ NoDup (spKey <$> AuctionWinners round).
Proof.
  assert (is_ok (ComputeCommittee 4 (Some (demoChain [1; 2]))) = true) as Hok by (vm_compute; reflexivity).
  destruct (ComputeCommittee 4 (Some (demoChain [1; 2]))) as [[ss rd]| |] eqn:E; [|discriminate Hok|discriminate Hok].
  assert ((map BLSPublicKey ∘ Slots <$> Shards ss) = [[900; 6]; [901; 7; 5]]) as Hk.
  { vm_compute in E. injection E as <- <-. vm_compute. reflexivity. }
  assert (is_ok (NewEPoSRound 4 (demoChain [1; 2]) (IsEPoSBound35 (demoChain [1; 2]) 4)) = true) as Hok' by (vm_compute; reflexivity).
  destruct (NewEPoSRound 4 (demoChain [1; 2]) (IsEPoSBound35 (demoChain [1; 2]) 4)) as [round| |] eqn:Er; [|discriminate Hok'|discriminate Hok'].
  assert (length (AuctionWinners round) = 3%nat) as Hw by (vm_compute in Er; injection Er as <-; reflexivity).
  assert (AuctionWinners round ≠ []) as Hne by (intros Hn; rewrite Hn in Hw; discriminate Hw).
  pose proof (eposCommittee_spec 4 (demoChain [1; 2]) ss rd round) as H.
  specialize (H eq_refl ltac:(vm_compute; discriminate) Er E). cbv zeta in H.
  destruct H as (_ & _ & Hnd & _ & _ & _ & _ & H). destruct (H Hne) as [Hrd _].
  rewrite Hrd. exists ss. split; [done|]. split; [exact Hk|]. exists round. split; [done|exact Hnd].
Defined.

(** Without candidates the state of epoch 3 claims to be of epoch 4 afterwards. *)
Lemma no_winners_relabels_witness :
  ∃ ss reader', ComputeCommittee 4 (Some (demoChain [])) = Ok (ss, Some reader')
    ∧ ReadShardState reader' 3 = Some ss ∧ Epoch ss = Some 4.
Proof.
  assert (is_ok (harmonyCommittees (InstanceForEpoch 4)) = true) as Hok by (vm_compute; reflexivity).
  destruct (harmonyCommittees (InstanceForEpoch 4)) as [shards| |] eqn:Es; [|discriminate Hok|discriminate Hok].
  assert (is_ok (NewEPoSRound 4 (demoChain []) (IsEPoSBound35 (demoChain []) 4)) = true) as Hok' by (vm_compute; reflexivity).
  destruct (NewEPoSRound 4 (demoChain []) (IsEPoSBound35 (demoChain []) 4)) as [round| |] eqn:Er; [|discriminate Hok'|discriminate Hok'].
  assert (AuctionWinners round = []) as Hw by (vm_compute in Er; injection Er as <-; reflexivity).
  destruct (no_winners_relabels 4 (demoChain []) round shards demoOld eq_refl ltac:(vm_compute; discriminate) Es Er Hw eq_refl)
    as (ss & rd & E & _ & He & Hr & _).
  exists ss, rd. split; [exact E|]. split; [exact Hr|exact He].
Defined.
