(* ===== verification/FBFTLog.v ===== *)
(** * The log of consensus messages ([consensus/fbft_log.go])

    The messages and blocks a node has received, with the queries of the consensus handlers and
    of view change.  A message is stored under an identifier made of its type, view, block hash
    and sender, a block under its hash.  Go iterates a map in any order: [orderMsgs] is that
    order, a parameter with the only law that it lists the values of the map.  Blocks are the
    record [Block] of the fields that the consensus code reads; their hash is the interface
    [BlockLib].  The locks are left out: every operation runs under its lock. *)

From Stdlib Require Import ZArith Lia.
From stdpp Require Import base gmap list option.
From S2P Require Import Prelude Mask ShardState.
Local Open Scope Z_scope.

(** ** Message types ([api/proto/message]) *)
Definition ANNOUNCE : Z := 1.
Definition PREPARE : Z := 2.
Definition PREPARED : Z := 3.
Definition COMMIT : Z := 4.
Definition COMMITTED : Z := 5.
Definition VIEWCHANGE : Z := 6.
Definition NEWVIEW : Z := 7.

(** ** Blocks *)

(** The header fields that consensus reads, the commit signature that is kept beside the block,
    and everything else. *)
Record Block := mkBlock {
  bNumber : Z; bEpoch : Z; bViewID : Z; IsLastBlockInEpoch : bool; bBody : bytes; bCommitSig : bytes }.
Definition SetCurrentCommitSig (b : Block) (sig : bytes) : Block :=
  mkBlock (bNumber b) (bEpoch b) (bViewID b) (IsLastBlockInEpoch b) (bBody b) sig.

(** RLP and the hash of the header, which leaves out the signature beside the block. *)
Class BlockLib := {
  hashOf : Block → Hash;
  encodeBlock : Block → option bytes;
  decodeBlock : bytes → option Block;
}.
Class BlockLaws `{BL : BlockLib} := {
  hashOf_commitSig : ∀ b sig, hashOf (SetCurrentCommitSig b sig) = hashOf b;
  (** All but the signature beside the block is encoded. *)
  decodeBlock_encode : ∀ b e, encodeBlock b = Some e → ∃ b', decodeBlock e = Some b' ∧ SetCurrentCommitSig b' [] = SetCurrentCommitSig b [];
}.

Lemma decodeBlock_hash `{BlockLaws} b e : encodeBlock b = Some e → ∃ b', decodeBlock e = Some b' ∧ hashOf b' = hashOf b.
Proof.
  intros (b' & Hd & Hb)%decodeBlock_encode. exists b'. split; [done|]. by rewrite <-(hashOf_commitSig b' []), Hb, hashOf_commitSig.
Qed.

Inductive fbftError := errFBFTLogNotFound.

Section fbft.
Context {G Sg : Type} `{BK : BlsKey G} `{BL : BlockLib}.

(** ** Messages *)
Record FBFTMessage := mkFBFTMessage {
  MessageType : Z;
  ViewID : Z;
  BlockNum : Z;
  BlockHash : Hash;
  msgBlock : bytes;
  SenderPubkeys : list (PublicKeyWrapper G);
  SenderPubkeyBitmap : bytes;
  LeaderPubkey : option (PublicKeyWrapper G);
  Payload : bytes;
  ViewchangeSig : option Sg;
  ViewidSig : option Sg;
  M2AggSig : option Sg;
  M2Bitmap : option (Mask G);
  M3AggSig : option Sg;
  M3Bitmap : option (Mask G);
  Verified : bool;
}.

Definition setVerified (v : bool) (m : FBFTMessage) : FBFTMessage :=
  mkFBFTMessage (MessageType m) (ViewID m) (BlockNum m) (BlockHash m) (msgBlock m) (SenderPubkeys m) (SenderPubkeyBitmap m)
    (LeaderPubkey m) (Payload m) (ViewchangeSig m) (ViewidSig m) (M2AggSig m) (M2Bitmap m) (M3AggSig m) (M3Bitmap m) v.
Definition dropBlock (m : FBFTMessage) : FBFTMessage :=
  mkFBFTMessage (MessageType m) (ViewID m) (BlockNum m) (BlockHash m) [] (SenderPubkeys m) (SenderPubkeyBitmap m)
    (LeaderPubkey m) (Payload m) (ViewchangeSig m) (ViewidSig m) (M2AggSig m) (M2Bitmap m) (M3AggSig m) (M3Bitmap m) (Verified m).

Definition HasSingleSender (m : FBFTMessage) : bool := Nat.eqb (length (SenderPubkeys m)) 1.

(** [copy] into the last 48 bytes of an array of zeros. *)
Definition copyTo (n : nat) (b : bytes) : bytes := take n b ++ replicate (n - length b) 0.

Definition msgID (m : FBFTMessage) : bytes :=
  le32 (MessageType m) ++ le64 (ViewID m) ++ toBytes 32 (BlockHash m) ++
  match SenderPubkeys m with
  | [k] => toBytes 48 (Bytes k)
  | _ => copyTo 48 (SenderPubkeyBitmap m)
  end.

(** ** The log *)
Record FBFTLog := mkFBFTLog {
  blocks : gmap Hash Block;
  verifiedBlocks : gset Hash;
  messages : gmap bytes FBFTMessage;
}.

Definition NewFBFTLog : FBFTLog := mkFBFTLog ∅ ∅ ∅.

Definition AddBlock (log : FBFTLog) (b : Block) : FBFTLog :=
  mkFBFTLog (<[hashOf b := b]> (blocks log)) (verifiedBlocks log) (messages log).
Definition MarkBlockVerified (log : FBFTLog) (b : Block) : FBFTLog :=
  mkFBFTLog (blocks log) ({[hashOf b]} ∪ verifiedBlocks log) (messages log).
Definition IsBlockVerified (log : FBFTLog) (b : Block) : bool := bool_decide (hashOf b ∈ verifiedBlocks log).
Definition GetBlockByHash (log : FBFTLog) (h : Hash) : option Block := blocks log !! h.

(** A deletion during the iteration of the map. *)
Definition deleteBlocks (log : FBFTLog) (del : Block → bool) : FBFTLog :=
  mkFBFTLog (filter (λ hb, del hb.2 = false) (blocks log))
    (filter (λ h, match blocks log !! h with Some b => del b | None => false end = false) (verifiedBlocks log)) (messages log).
Definition DeleteBlocksLessThan (log : FBFTLog) (number : Z) : FBFTLog := deleteBlocks log (λ b, bNumber b <? number).
Definition DeleteBlockByNumber (log : FBFTLog) (number : Z) : FBFTLog := deleteBlocks log (λ b, bNumber b =? number).
Definition DeleteMessagesLessThan (log : FBFTLog) (number : Z) : FBFTLog :=
  mkFBFTLog (blocks log) (verifiedBlocks log) (filter (λ im, number ≤ BlockNum im.2) (messages log)).
Definition PruneCacheBeforeBlock (log : FBFTLog) (bn : Z) : FBFTLog :=
  DeleteMessagesLessThan (DeleteBlocksLessThan log (u64 (bn - 1))) (u64 (bn - 1)).

Definition addMessage (log : FBFTLog) (m : FBFTMessage) : FBFTLog :=
  mkFBFTLog (blocks log) (verifiedBlocks log) (<[msgID m := m]> (messages log)).
Definition AddVerifiedMessage (log : FBFTLog) (m : FBFTMessage) : FBFTLog := addMessage log (setVerified true m).
Definition AddNotVerifiedMessage (log : FBFTLog) (m : FBFTMessage) : FBFTLog := addMessage log (setVerified false m).

(** ** Queries *)
Context (orderMsgs : gmap bytes FBFTMessage → list FBFTMessage) (orderBlocks : gmap Hash Block → list Block).

Definition GetBlocksByNumber (log : FBFTLog) (number : Z) : list Block :=
  List.filter (λ b, bNumber b =? number) (orderBlocks (blocks log)).

Definition found (log : FBFTLog) (f : FBFTMessage → bool) : list FBFTMessage := List.filter f (orderMsgs (messages log)).

Definition GetNotVerifiedCommittedMessages (log : FBFTLog) (blockNum viewID : Z) (blockHash : Hash) : list FBFTMessage :=
  found log (λ m, (MessageType m =? COMMITTED) && (BlockNum m =? blockNum) && (ViewID m =? viewID) && (BlockHash m =? blockHash) && negb (Verified m)).
Definition GetMessagesByTypeSeqViewHash (log : FBFTLog) (typ blockNum viewID : Z) (blockHash : Hash) : list FBFTMessage :=
  found log (λ m, (MessageType m =? typ) && (BlockNum m =? blockNum) && (ViewID m =? viewID) && (BlockHash m =? blockHash) && Verified m).
Definition GetMessagesByTypeSeq (log : FBFTLog) (typ blockNum : Z) : list FBFTMessage :=
  found log (λ m, (MessageType m =? typ) && (BlockNum m =? blockNum) && Verified m).
Definition GetMessagesByTypeSeqHash (log : FBFTLog) (typ blockNum : Z) (blockHash : Hash) : list FBFTMessage :=
  found log (λ m, (MessageType m =? typ) && (BlockNum m =? blockNum) && (BlockHash m =? blockHash) && Verified m).

(** The condition is [a || b || (c && d)] in Go. *)
Definition GetMessagesByTypeSeqView (log : FBFTLog) (typ blockNum viewID : Z) : list FBFTMessage :=
  found log (λ m, negb (negb (MessageType m =? typ) || negb (BlockNum m =? blockNum) || (negb (ViewID m =? viewID) && Verified m))).

Definition nonEmpty {A} (l : list A) : bool := (1 <=? length l)%nat.
Definition HasMatchingAnnounce (log : FBFTLog) (blockNum : Z) (blockHash : Hash) : bool :=
  nonEmpty (GetMessagesByTypeSeqHash log ANNOUNCE blockNum blockHash).
Definition HasMatchingViewAnnounce (log : FBFTLog) (blockNum viewID : Z) (blockHash : Hash) : bool :=
  nonEmpty (GetMessagesByTypeSeqViewHash log ANNOUNCE blockNum viewID blockHash).
Definition HasMatchingPrepared (log : FBFTLog) (blockNum : Z) (blockHash : Hash) : bool :=
  nonEmpty (GetMessagesByTypeSeqHash log PREPARED blockNum blockHash).
Definition HasMatchingViewPrepared (log : FBFTLog) (blockNum viewID : Z) (blockHash : Hash) : bool :=
  nonEmpty (GetMessagesByTypeSeqViewHash log PREPARED blockNum viewID blockHash).

(** The loop keeps the index and the view of the best message; [None] is nil. *)
Definition maxStep (acc : option FBFTMessage * Z) (v : FBFTMessage) : option FBFTMessage * Z :=
  if acc.2 <=? ViewID v then (Some v, ViewID v) else acc.
Definition FindMessageByMaxViewID (msgs : list FBFTMessage) : option FBFTMessage := (foldl maxStep (None, 0) msgs).1.

Fixpoint firstWithBlock (log : FBFTLog) (msgs : list FBFTMessage) : fbftError + Block * FBFTMessage :=
  match msgs with
  | [] => inl errFBFTLogNotFound
  | m :: rest => match GetBlockByHash log (BlockHash m) with Some b => inr (b, m) | None => firstWithBlock log rest end
  end.
Definition GetCommittedBlockAndMsgsFromNumber (log : FBFTLog) (bn : Z) : fbftError + Block * FBFTMessage :=
  firstWithBlock log (GetMessagesByTypeSeq log COMMITTED bn).

(** [getLastMileBlocksAndMsg]: [None] when the fuel is out. *)
Fixpoint getLastMileBlocksAndMsg (fuel : nat) (log : FBFTLog) (blockNum : Z) : option (list (Block * FBFTMessage)) :=
  match fuel with
  | O => None
  | S fuel =>
      match GetCommittedBlockAndMsgsFromNumber log blockNum with
      | inl errFBFTLogNotFound => Some []
      | inr bm => rest ← getLastMileBlocksAndMsg fuel log (u64 (blockNum + 1)); Some (bm :: rest)
      end
  end.
End fbft.

Arguments FBFTMessage : clear implicits.
Arguments FBFTLog : clear implicits.

(** * Properties *)

(** ** Identifiers *)

(** A number below 2^(8n) is determined by its [n] bytes. *)
Lemma bytes_determine (n : nat) v w :
  (∀ i, (i < n)%nat → Z.land (Z.shiftr v (8 * Z.of_nat i)) 255 = Z.land (Z.shiftr w (8 * Z.of_nat i)) 255) →
  0 ≤ v < 2 ^ (8 * Z.of_nat n) → 0 ≤ w < 2 ^ (8 * Z.of_nat n) → v = w.
Proof.
  intros H Hv Hw. apply Z.bits_inj'. intros k Hk.
  assert (∀ x, 0 ≤ x < 2 ^ (8 * Z.of_nat n) → 8 * Z.of_nat n ≤ k → Z.testbit x k = false) as Habove.
  { intros x Hx Hkn. destruct (decide (x = 0)) as [->|]; [apply Z.bits_0|]. apply Z.bits_above_log2; [lia|].
    assert (Z.log2 x < 8 * Z.of_nat n) by (apply Z.log2_lt_pow2; lia). lia. }
  destruct (Z_lt_le_dec k (8 * Z.of_nat n)) as [Hlt|]; [|rewrite !Habove by lia; done].
  pose proof (Z.div_mod k 8 ltac:(lia)) as Hdm. pose proof (Z.mod_pos_bound k 8 ltac:(lia)).
  assert (0 ≤ k / 8 < Z.of_nat n) as Hq by (split; [apply Z.div_pos; lia|apply Z.div_lt_upper_bound; lia]).
  specialize (H (Z.to_nat (k / 8)) ltac:(lia)). rewrite Z2Nat.id in H by lia.
  assert (∀ x, Z.testbit x k = Z.testbit (Z.land (Z.shiftr x (8 * (k / 8))) 255) (k mod 8)) as Hbit; [|by rewrite (Hbit v), (Hbit w), H].
  intros x. rewrite Z.land_spec, Z.shiftr_spec by lia. change 255 with (Z.ones 8). rewrite Z.ones_spec_low by lia.
  rewrite andb_true_r. f_equal. lia.
Qed.

Lemma littleEndian_inj n v w :
  0 ≤ v < 2 ^ (8 * Z.of_nat n) → 0 ≤ w < 2 ^ (8 * Z.of_nat n) → littleEndian n v = littleEndian n w → v = w.
Proof.
  intros Hv Hw E. apply (bytes_determine n); [|done|done]. intros i Hi. unfold littleEndian in E.
  apply (f_equal (λ l, l !! i)) in E. rewrite !list_lookup_fmap, lookup_seq_lt in E by done. by injection E.
Qed.

Lemma toBytes_inj n v w :
  0 ≤ v < 2 ^ (8 * Z.of_nat n) → 0 ≤ w < 2 ^ (8 * Z.of_nat n) → toBytes n v = toBytes n w → v = w.
Proof.
  intros Hv Hw E. apply (bytes_determine n); [|done|done]. intros i Hi. unfold toBytes in E.
  apply (f_equal (λ l, l !! (n - 1 - i)%nat)) in E. rewrite !list_lookup_fmap, lookup_seq_lt in E by lia. injection E as E.
  assert ((n - 1 - (0 + (n - 1 - i)))%nat = i) as Hn by lia. cbn [Nat.add] in Hn. by rewrite Hn in E.
Qed.

Lemma littleEndian_length n v : length (littleEndian n v) = n.
Proof. unfold littleEndian. by rewrite length_map, length_seq. Qed.
Lemma toBytes_length n v : length (toBytes n v) = n.
Proof. unfold toBytes. by rewrite length_map, length_seq. Qed.

Section log.
Context {G Sg : Type} `{BK : BlsKey G} `{BL : BlockLib}.
Notation Msg := (FBFTMessage G Sg).
Notation Log := (FBFTLog G Sg).
Implicit Types (m : Msg) (log : Log) (b : Block).

(** The fields at their widths. *)
Definition msgOk m : Prop :=
  0 ≤ MessageType m < 2 ^ 32 ∧ isU64 (ViewID m) ∧ isU64 (BlockNum m) ∧ 0 ≤ BlockHash m < 2 ^ 256
  ∧ ∀ k, k ∈ SenderPubkeys m → 0 ≤ Bytes k < 2 ^ 384.

(** The identifier of a message with one sender is exactly its type, view, block hash and
    sender: messages that agree on these replace each other in the log, whatever their block
    number and payload, and others never do. *)
Theorem msgID_identifies m1 m2 k1 k2 :
  msgOk m1 → msgOk m2 → SenderPubkeys m1 = [k1] → SenderPubkeys m2 = [k2] →
  msgID m1 = msgID m2 ↔
  MessageType m1 = MessageType m2 ∧ ViewID m1 = ViewID m2 ∧ BlockHash m1 = BlockHash m2 ∧ Bytes k1 = Bytes k2.
Proof.
  intros (Ht1 & Hv1 & _ & Hh1 & Hk1) (Ht2 & Hv2 & _ & Hh2 & Hk2) E1 E2. unfold msgID. rewrite E1, E2.
  split; [|by intros (-> & -> & -> & ->)]. intros E.
  apply app_inj_1 in E as [Et E]; [|by unfold le32, le64; rewrite !littleEndian_length]. apply app_inj_1 in E as [Ev E]; [|by unfold le32, le64; rewrite !littleEndian_length].
  apply app_inj_1 in E as [Eh Ek]; [|by rewrite !toBytes_length].
  split_and!; [by apply (littleEndian_inj 4)|by apply (littleEndian_inj 8)|by apply (toBytes_inj 32)|].
  apply (toBytes_inj 48); [apply Hk1; rewrite E1; set_solver|apply Hk2; rewrite E2; set_solver|done].
Qed.

(** ** The log as it grows and is pruned *)
Inductive logOp :=
| OpAddBlock b | OpMark b | OpDeleteLess (n : Z) | OpDeleteNumber (n : Z) | OpDeleteMessages (n : Z) | OpPrune (n : Z)
| OpAddVerified m | OpAddNotVerified m.

Definition logStep log (op : logOp) : Log :=
  match op with
  | OpAddBlock b => AddBlock log b
  | OpMark b => MarkBlockVerified log b
  | OpDeleteLess n => DeleteBlocksLessThan log n
  | OpDeleteNumber n => DeleteBlockByNumber log n
  | OpDeleteMessages n => DeleteMessagesLessThan log n
  | OpPrune n => PruneCacheBeforeBlock log n
  | OpAddVerified m => AddVerifiedMessage log m
  | OpAddNotVerified m => AddNotVerifiedMessage log m
  end.

Record logInv log : Prop := {
  li_messages : ∀ i m, messages log !! i = Some m → i = msgID m;
  li_blocks : ∀ h b, blocks log !! h = Some b → h = hashOf b;
}.

Lemma NewFBFTLog_inv : logInv (NewFBFTLog : Log).
Proof. by split. Qed.

Lemma deleteBlocks_inv log del : logInv log → logInv (deleteBlocks log del).
Proof. intros [Hm Hb]. split; [done|]. intros h b [Hl _]%map_lookup_filter_Some. by apply Hb. Qed.

Lemma deleteMessages_inv log n : logInv log → logInv (DeleteMessagesLessThan log n).
Proof. intros [Hm Hb]. split; [|done]. intros i m [Hl _]%map_lookup_filter_Some. by apply Hm. Qed.

Lemma addMessage_inv log m : logInv log → logInv (addMessage log m).
Proof. intros [Hm Hb]. split; [|done]. intros i m' Hl. cbn in Hl. apply lookup_insert_Some in Hl as [[<- <-]|[_ Hl]]; [done|by apply Hm]. Qed.

Lemma logStep_inv log op : logInv log → logInv (logStep log op).
Proof.
  intros Hi. destruct op; simpl; try (by apply deleteBlocks_inv); try (by apply addMessage_inv); [|by destruct Hi| |].
  - destruct Hi as [Hm Hb]. split; [done|]. intros h b' Hl. cbn in Hl. apply lookup_insert_Some in Hl as [[<- <-]|[_ Hl]]; [done|by apply Hb].
  - by apply deleteMessages_inv.
  - by apply deleteMessages_inv, deleteBlocks_inv.
Qed.

Lemma logRun_inv log ops : logInv log → logInv (foldl logStep log ops).
Proof. revert log. induction ops as [|op ops IH]; intros log Hi; simpl; [done|]. by apply IH, logStep_inv. Qed.

(** Pruning keeps the messages and blocks from the block before [bn] on; at block 0 the
    subtraction wraps around and next to nothing is kept. *)
Theorem Prune_spec log bn i m h b :
  isU64 bn → messages log !! i = Some m → blocks log !! h = Some b →
  let from := if bn =? 0 then 2 ^ 64 - 1 else bn - 1 in
  messages (PruneCacheBeforeBlock log bn) !! i = (if from <=? BlockNum m then Some m else None)
  ∧ blocks (PruneCacheBeforeBlock log bn) !! h = (if from <=? bNumber b then Some b else None).
Proof.
  intros Hbn Hm Hb from. assert (u64 (bn - 1) = from) as Hf.
  { unfold from. destruct (Z.eqb_spec bn 0) as [->|]; [done|]. apply u64_small. unfold isU64 in *. lia. }
  unfold PruneCacheBeforeBlock. rewrite Hf. cbn. rewrite !map_lookup_filter, Hm, Hb. cbn. split.
  - destruct (Z.leb_spec from (BlockNum m)); [by rewrite option_guard_True|by rewrite option_guard_False by lia].
  - destruct (Z.leb_spec from (bNumber b)), (Z.ltb_spec (bNumber b) from); try lia; [by rewrite option_guard_True|by rewrite option_guard_False].
Qed.
End log.

(** ** Queries, for every order in which Go iterates the map *)
Section queries.
Context {G Sg : Type} `{BK : BlsKey G} `{BL : BlockLib}.
Notation Msg := (FBFTMessage G Sg).
Notation Log := (FBFTLog G Sg).
Implicit Types (m : Msg) (log : Log) (b : Block).
Context (orderMsgs : gmap bytes Msg → list Msg).
Hypothesis order_values : ∀ ms, orderMsgs ms ≡ₚ (map_to_list ms).*2.

Definition inLog log m : Prop := ∃ i, messages log !! i = Some m.

Lemma order_elem ms m : m ∈ orderMsgs ms ↔ ∃ i, ms !! i = Some m.
Proof.
  rewrite (order_values ms), list_elem_of_fmap. split.
  - intros ([i m'] & -> & Hi%elem_of_map_to_list). eauto.
  - intros [i Hi%elem_of_map_to_list]. by exists (i, m).
Qed.

Lemma found_elem log f m : m ∈ found orderMsgs log f ↔ inLog log m ∧ f m = true.
Proof. unfold found. rewrite list_elem_of_In, filter_In, <-list_elem_of_In. by rewrite order_elem. Qed.

Lemma found_length log f : (length (found orderMsgs log f) ≤ size (messages log))%nat.
Proof.
  unfold found. pose proof (filter_length_le f (orderMsgs (messages log))) as H.
  rewrite (Permutation_length (order_values (messages log))), length_fmap, length_map_to_list in H. exact H.
Qed.

(** The messages that are returned for a type, number and view: the unverified ones of every
    other view are among them. *)
Theorem GetMessagesByTypeSeqView_spec log typ n v m :
  m ∈ GetMessagesByTypeSeqView orderMsgs log typ n v ↔
  inLog log m ∧ MessageType m = typ ∧ BlockNum m = n ∧ (ViewID m = v ∨ Verified m = false).
Proof.
  unfold GetMessagesByTypeSeqView. rewrite found_elem.
  destruct (Z.eqb_spec (MessageType m) typ), (Z.eqb_spec (BlockNum m) n), (Z.eqb_spec (ViewID m) v), (Verified m); cbn; naive_solver.
Qed.

Lemma GetMessagesByTypeSeq_spec log typ n m :
  m ∈ GetMessagesByTypeSeq orderMsgs log typ n ↔ inLog log m ∧ MessageType m = typ ∧ BlockNum m = n ∧ Verified m = true.
Proof.
  unfold GetMessagesByTypeSeq. rewrite found_elem.
  destruct (Z.eqb_spec (MessageType m) typ), (Z.eqb_spec (BlockNum m) n), (Verified m); cbn; naive_solver.
Qed.

Lemma GetMessagesByTypeSeqViewHash_spec log typ n v h m :
  m ∈ GetMessagesByTypeSeqViewHash orderMsgs log typ n v h ↔
  inLog log m ∧ MessageType m = typ ∧ BlockNum m = n ∧ ViewID m = v ∧ BlockHash m = h ∧ Verified m = true.
Proof.
  unfold GetMessagesByTypeSeqViewHash. rewrite found_elem.
  destruct (Z.eqb_spec (MessageType m) typ), (Z.eqb_spec (BlockNum m) n), (Z.eqb_spec (ViewID m) v), (Z.eqb_spec (BlockHash m) h), (Verified m); cbn; naive_solver.
Qed.

(** A message of maximal view is found whenever there is one. *)
Lemma maxStep_spec (msgs : list Msg) acc :
  (∀ m, acc.1 = Some m → acc.2 = ViewID m) → (acc.1 = None → acc.2 = 0) → (∀ m, m ∈ msgs → 0 ≤ ViewID m) →
  let r := foldl maxStep acc msgs in
  (r.1 = None → acc.1 = None ∧ msgs = []) ∧
  ∀ m, r.1 = Some m → r.2 = ViewID m ∧ acc.2 ≤ ViewID m ∧ (acc.1 = Some m ∨ m ∈ msgs) ∧ ∀ m', m' ∈ msgs → ViewID m' ≤ ViewID m.
Proof.
  revert acc. induction msgs as [|x msgs IH]; intros acc Hs Hn Hpos; simpl.
  { split; [done|]. intros m Hm. rewrite (Hs m Hm). split_and!; [done|lia|auto|]. by intros ? ?%not_elem_of_nil. }
  pose proof (Hpos x ltac:(set_solver)) as Hx.
  destruct (IH (maxStep acc x)) as [H1 H2].
  - unfold maxStep. case_match; simpl; [by intros m [= <-]|done].
  - unfold maxStep. case_match; simpl; [done|done].
  - set_solver.
  - unfold maxStep in *. destruct (Z.leb_spec acc.2 (ViewID x)); simpl in *.
    + split; [intros Hr; by destruct (H1 Hr)|]. intros m Hm. destruct (H2 m Hm) as (-> & Hle & Hin & Hmax).
      split_and!; [done|lia|right; destruct Hin as [[= ->]|]; set_solver|]. intros m' [->|]%elem_of_cons; [done|by apply Hmax].
    + split.
      * intros Hr. destruct (H1 Hr) as [Ha ->]. pose proof (Hn Ha). lia.
      * intros m Hm. destruct (H2 m Hm) as (-> & Hle & Hin & Hmax). split_and!; [done|lia|destruct Hin; [auto|right; set_solver]|].
        intros m' [->|]%elem_of_cons; [lia|by apply Hmax].
Qed.

Lemma FindMessageByMaxViewID_spec (msgs : list Msg) :
  (∀ m, m ∈ msgs → 0 ≤ ViewID m) →
  match FindMessageByMaxViewID msgs with
  | None => msgs = []
  | Some m => m ∈ msgs ∧ ∀ m', m' ∈ msgs → ViewID m' ≤ ViewID m
  end.
Proof.
  intros Hpos. destruct (maxStep_spec msgs (None, 0) ltac:(done) ltac:(done) Hpos) as [H1 H2]. unfold FindMessageByMaxViewID.
  destruct (foldl maxStep (None, 0) msgs).1 as [m|] eqn:E; [|by apply H1]. destruct (H2 m eq_refl) as (_ & _ & [|Hin] & Hmax); done.
Qed.

(** ** The last mile *)
Definition committed log (n : Z) b m : Prop :=
  inLog log m ∧ MessageType m = COMMITTED ∧ BlockNum m = n ∧ Verified m = true ∧ blocks log !! BlockHash m = Some b.

Lemma GetCommitted_spec log n :
  match GetCommittedBlockAndMsgsFromNumber orderMsgs log n with
  | inr (b, m) => committed log n b m
  | inl errFBFTLogNotFound => ∀ b m, ¬ committed log n b m
  end.
Proof.
  unfold GetCommittedBlockAndMsgsFromNumber.
  assert (∀ m, m ∈ GetMessagesByTypeSeq orderMsgs log COMMITTED n ↔ inLog log m ∧ MessageType m = COMMITTED ∧ BlockNum m = n ∧ Verified m = true) as Hq
    by (intros; apply GetMessagesByTypeSeq_spec).
  assert (∀ l, (∀ m, m ∈ l → inLog log m ∧ MessageType m = COMMITTED ∧ BlockNum m = n ∧ Verified m = true) →
    match firstWithBlock log l with
    | inr (b, m) => committed log n b m
    | inl errFBFTLogNotFound => ∀ m, m ∈ l → blocks log !! BlockHash m = None
    end) as Hl.
  { induction l as [|m l IH]; intros Hin; simpl; [by intros ? ?%not_elem_of_nil|]. unfold GetBlockByHash.
    destruct (blocks log !! BlockHash m) as [b|] eqn:Eb.
    - destruct (Hin m ltac:(set_solver)) as (?&?&?&?). by split_and!.
    - specialize (IH ltac:(set_solver)). destruct (firstWithBlock log l) as [[]|[b' m']]; [|done].
      intros m' [->|]%elem_of_cons; auto. }
  specialize (Hl (GetMessagesByTypeSeq orderMsgs log COMMITTED n) ltac:(intros m; by apply Hq)).
  destruct (firstWithBlock _ _) as [[]|[b m]]; [|done]. intros b m (H1 & H2 & H3 & H4 & H5). rewrite Hl in H5; [done|]. by apply Hq.
Qed.

(** When the fuel is out, one message of the log was read for each unit. *)
Lemma lastMile_None fuel log n :
  isU64 n → getLastMileBlocksAndMsg orderMsgs fuel log n = None →
  ∃ ms, length ms = fuel ∧ ∀ i m, ms !! i = Some m → inLog log m ∧ BlockNum m = u64 (n + Z.of_nat i).
Proof.
  revert n. induction fuel as [|fuel IH]; intros n Hn E; simpl in E.
  { exists []. by split. }
  pose proof (GetCommitted_spec log n) as Hc. destruct (GetCommittedBlockAndMsgsFromNumber orderMsgs log n) as [[]|[b m]]; [done|].
  destruct (getLastMileBlocksAndMsg orderMsgs fuel log (u64 (n + 1))) as [rest|] eqn:Er; [done|].
  destruct (IH _ (u64_range _) Er) as (ms & Hlen & Hms). destruct Hc as (Hin & _ & Hnum & _).
  exists (m :: ms). split; [simpl; by rewrite Hlen|]. intros [|i] m' Hi; simpl in Hi.
  - injection Hi as <-. split; [done|]. change (Z.of_nat 0) with 0. by rewrite Z.add_0_r, u64_small.
  - destruct (Hms i m' Hi) as [? ->]. split; [done|]. unfold u64. rewrite Zplus_mod_idemp_l. f_equal. lia.
Qed.

(** The search for committed blocks ends: it makes at most one step for each message of the
    log.  It returns the verified committed messages of consecutive blocks from the given
    number on with their blocks, and stops at the first number that has none. *)
Theorem getLastMile_terminates log n :
  isU64 n → Z.of_nat (size (messages log)) < 2 ^ 64 →
  ∃ l, getLastMileBlocksAndMsg orderMsgs (S (size (messages log))) log n = Some l
    ∧ (∀ i b m, l !! i = Some (b, m) → committed log (u64 (n + Z.of_nat i)) b m)
    ∧ ∀ b m, ¬ committed log (u64 (n + Z.of_nat (length l))) b m.
Proof.
  intros Hn Hsz. destruct (getLastMileBlocksAndMsg orderMsgs (S (size (messages log))) log n) as [l|] eqn:E.
  - exists l. split; [done|]. clear Hsz. revert n l Hn E. generalize (S (size (messages log))) as fuel.
    induction fuel as [|fuel IH]; intros n l Hn E; simpl in E; [done|].
    pose proof (GetCommitted_spec log n) as Hc. destruct (GetCommittedBlockAndMsgsFromNumber orderMsgs log n) as [[]|[b m]].
    { injection E as <-. split; [done|]. change (Z.of_nat (length [])) with 0. by rewrite Z.add_0_r, u64_small. }
    apply bind_Some in E as (rest & Er & [= <-]). destruct (IH _ _ (u64_range _) Er) as [H1 H2].
    assert (∀ i, u64 (n + Z.of_nat (S i)) = u64 (u64 (n + 1) + Z.of_nat i)) as Hu.
    { intros i. unfold u64. rewrite Zplus_mod_idemp_l. f_equal. lia. }
    split; [|simpl length; by rewrite Hu]. intros [|i] b' m' Hi; simpl in Hi.
    + injection Hi as <- <-. change (Z.of_nat 0) with 0. by rewrite Z.add_0_r, u64_small.
    + rewrite Hu. by apply H1.
  - exfalso. destruct (lastMile_None _ _ _ Hn E) as (ms & Hlen & Hms).
    assert (NoDup ms) as Hnd.
    { apply NoDup_alt. intros i j m Hi Hj. destruct (Hms _ _ Hi) as [_ Hbi], (Hms _ _ Hj) as [_ Hbj].
      apply lookup_lt_Some in Hi, Hj. rewrite Hbi in Hbj. unfold u64, isU64 in *.
      pose proof (Z.div_mod (n + Z.of_nat i) (2 ^ 64) ltac:(lia)). pose proof (Z.div_mod (n + Z.of_nat j) (2 ^ 64) ltac:(lia)). nia. }
    assert (ms ⊆+ orderMsgs (messages log)) as Hsub.
    { apply NoDup_submseteq; [done|]. intros m [i Hi]%list_elem_of_lookup_1. apply order_elem. by destruct (Hms _ _ Hi). }
    apply submseteq_length in Hsub. rewrite (Permutation_length (order_values (messages log))), length_fmap, length_map_to_list in Hsub. lia.
Qed.
End queries.

(** ** A concrete log *)
Definition demoLib : BlockLib := {|
  hashOf b := 1000 * bNumber b + bViewID b;
  encodeBlock b := Some ([bNumber b; bEpoch b; bViewID b; if IsLastBlockInEpoch b then 1 else 0] ++ bBody b);
  decodeBlock bs := match bs with n :: e :: v :: l :: body => Some (mkBlock n e v (l =? 1) body []) | _ => None end;
|}.
#[local] Existing Instance demoLib.
Lemma demoLib_laws : BlockLaws.
Proof. split; [done|]. intros [n e v l body sig] ? [= <-]. eexists. split; [reflexivity|]. by destruct l. Qed.
Definition demoBlock (n : Z) : Block := mkBlock n 0 7 false [] [].
Definition demoMsg (typ view n h : Z) (k : Z) : FBFTMessage Z Z :=
  mkFBFTMessage typ view n h [] [mkPublicKeyWrapper k k] [] None [1] None None None None None None false.
Definition demoOrder (ms : gmap bytes (FBFTMessage Z Z)) : list (FBFTMessage Z Z) := (map_to_list ms).*2.
Definition demoLog : FBFTLog Z Z :=
  foldl logStep NewFBFTLog
    [OpAddBlock (demoBlock 5); OpAddBlock (demoBlock 6); OpAddBlock (demoBlock 8);
     OpAddVerified (demoMsg COMMITTED 7 5 5007 11); OpAddVerified (demoMsg COMMITTED 7 6 6007 11);
     OpAddVerified (demoMsg COMMITTED 7 8 8007 11); OpAddNotVerified (demoMsg COMMITTED 7 7 7007 11)].

Lemma msgID_identifies_witness :
  msgID (demoMsg COMMITTED 7 5 5007 11) ≠ msgID (demoMsg COMMITTED 8 5 5007 11)
  ∧ msgID (demoMsg COMMITTED 7 5 5007 11) = msgID (demoMsg COMMITTED 7 6 5007 11).
Proof.
  assert (∀ t v n h, 0 ≤ t < 2 ^ 32 → isU64 v → isU64 n → 0 ≤ h < 2 ^ 256 → msgOk (demoMsg t v n h 11)) as Hok.
  { intros t v n h Ht Hv Hn Hh. split_and!; cbn; try apply Ht; try apply Hv; try apply Hn; try apply Hh.
    intros k ->%list_elem_of_singleton. cbn. lia. }
  pose proof (Hok COMMITTED 7 5 5007 ltac:(split; [discriminate|reflexivity]) ltac:(split; [discriminate|reflexivity]) ltac:(split; [discriminate|reflexivity]) ltac:(split; [discriminate|reflexivity])) as H1.
  pose proof (Hok COMMITTED 8 5 5007 ltac:(split; [discriminate|reflexivity]) ltac:(split; [discriminate|reflexivity]) ltac:(split; [discriminate|reflexivity]) ltac:(split; [discriminate|reflexivity])) as H2.
  pose proof (Hok COMMITTED 7 6 5007 ltac:(split; [discriminate|reflexivity]) ltac:(split; [discriminate|reflexivity]) ltac:(split; [discriminate|reflexivity]) ltac:(split; [discriminate|reflexivity])) as H3.
  split.
  - intros E. apply (msgID_identifies _ _ _ _ H1 H2 eq_refl eq_refl) in E as (_ & Hv & _). discriminate Hv.
  - apply (msgID_identifies _ _ _ _ H1 H3 eq_refl eq_refl). split_and!; reflexivity.
Defined.

Lemma demoMile :
  match getLastMileBlocksAndMsg demoOrder (S (size (messages demoLog))) demoLog 5 with
  | Some l => Some (map (λ bm, bNumber bm.1) l) | None => None end = Some [5; 6].
Proof. vm_compute. reflexivity. Qed.

Lemma getLastMile_terminates_witness :
  ∃ l, getLastMileBlocksAndMsg demoOrder (S (size (messages demoLog))) demoLog 5 = Some l ∧ map (λ bm, bNumber bm.1) l = [5; 6].
Proof.
  destruct (getLastMile_terminates demoOrder ltac:(intros; reflexivity) demoLog 5 ltac:(split; [discriminate|reflexivity])
    ltac:(vm_compute; reflexivity)) as (l & E & _). exists l. split; [exact E|].
  pose proof demoMile as Hv. rewrite E in Hv. injection Hv as Hv. exact Hv.
Defined.
