(* ===== verification/ViewChange.v ===== *)
(** * The votes of a view change ([consensus/view_change_construct.go])

    For each view a node collects three kinds of signatures with a mask of their signers: on the
    view (M3), and on the block it has prepared (M1) or on the nil message (M2).  A box holds the
    map of signatures and the map of masks of one kind.  The signature scheme is the interface
    [BlsCrypto]; [Panic] is the use of a nil pointer or a slice out of range.  A parsed message
    has its signatures and its leader key; a message without them is a [Panic] here. *)

From Stdlib Require Import ZArith Lia.
From stdpp Require Import base gmap list option sets.
From S2P Require Import Prelude Mask ShardState Votepower Quorum FBFTLog.
Local Open Scope Z_scope.

Class BlsCrypto (G Sg : Type) := {
  SecretKey : Type;
  VerifyHash : Sg → G → bytes → bool;
  SignHash : SecretKey → bytes → Sg;
  (** [Sign.Deserialize] and [Sign.Serialize]. *)
  sigOfBytes : bytes → option Sg;
  sigToBytes : Sg → bytes;
}.

(** Signatures on one message add up to a signature under the sum of the keys, and
    serialization loses nothing. *)
Class BlsCryptoLaws (G Sg : Type) `{BK : BlsKey G, BS : BlsSign Sg, BC : !BlsCrypto G Sg} := {
  verify_zero : ∀ h, VerifyHash sigZero keyZero h = true;
  verify_add : ∀ s1 s2 k1 k2 h, VerifyHash s1 k1 h = true → VerifyHash s2 k2 h = true →
    VerifyHash (sigAdd s1 s2) (keyAdd k1 k2) h = true;
  sigOf_sigTo : ∀ s, sigOfBytes (sigToBytes s) = Some s;
  sigToBytes_length : ∀ s, length (sigToBytes s) = BLSSignatureSizeInBytes;
}.

(** [NIL] of [consensus/config.go]. *)
Definition NIL : bytes := [1].
(** 32 + [BLSSignatureSizeInBytes]. *)
Definition ValidPayloadLength : nat := 32 + BLSSignatureSizeInBytes.
(** [copy] of 32 bytes into a hash. *)
Definition bytesToHash (b : bytes) : Hash := foldl (λ acc x, acc * 256 + x) 0 b.

(** What the votes are counted with. *)
Record Decider (G : Type) := mkDecider {
  dParticipants : list (PublicKeyWrapper G);
  dQuorumByMask : option (Mask G) → bool;
}.
Arguments mkDecider {G}.
Arguments dParticipants {G}.
Arguments dQuorumByMask {G}.

Inductive vcError :=
| errDupM1 | errDupM2 | errDupM3 | errVerifyM1 | errVerifyM2 | errM1Payload | errNoQuorum | errIncorrectSender
| errDecodeBlock | errVerifyBlock | errPayload | errM3Nil | errM3Sig | errM2Sig | errBlockHash.

Section viewchange.
Context {G Sg : Type} `{BK : BlsKey G, BS : BlsSign Sg, BC : !BlsCrypto G Sg, BL : BlockLib}.
Notation Msg := (FBFTMessage G Sg).
Notation Log := (FBFTLog G Sg).

Record PrivateKeyWrapper := mkPrivateKeyWrapper { Pri : SecretKey; Pub : PublicKeyWrapper G }.

Record box := mkBox { bxSigs : gmap Z (gmap SerializedPublicKey Sg); bxBitmap : gmap Z (Mask G) }.
Record viewChange := mkVC {
  bhp : box;
  nilBox : box;
  viewIDs : box;
  newViewMsg : gmap Z (gmap SerializedPublicKey Z);
  m1Payload : bytes;
}.

Definition emptyBox : box := mkBox ∅ ∅.
Definition ResetVC : viewChange := mkVC emptyBox emptyBox emptyBox ∅ [].
Definition withBhp (vc : viewChange) b : viewChange := mkVC b (nilBox vc) (viewIDs vc) (newViewMsg vc) (m1Payload vc).
Definition withNil (vc : viewChange) b : viewChange := mkVC (bhp vc) b (viewIDs vc) (newViewMsg vc) (m1Payload vc).
Definition withViewIDs (vc : viewChange) b : viewChange := mkVC (bhp vc) (nilBox vc) b (newViewMsg vc) (m1Payload vc).
Definition withM1 (vc : viewChange) p : viewChange := mkVC (bhp vc) (nilBox vc) (viewIDs vc) (newViewMsg vc) p.
Definition withNewView (vc : viewChange) n : viewChange := mkVC (bhp vc) (nilBox vc) (viewIDs vc) n (m1Payload vc).

Definition sigsOf (b : box) (v : Z) : gmap SerializedPublicKey Sg := default ∅ (bxSigs b !! v).
(** [NewMask(members, nil)] has no error. *)
Definition newMask (members : list (PublicKeyWrapper G)) : Mask G := emptyMask members.

(** The map and the mask of the view, made if missing. *)
Definition addKeyIfNotExist (members : list (PublicKeyWrapper G)) (v : Z) (b : box) : box :=
  mkBox (<[v := sigsOf b v]> (bxSigs b)) (<[v := default (newMask members) (bxBitmap b !! v)]> (bxBitmap b)).
Definition AddViewIDKeyIfNotExist (vc : viewChange) (v : Z) (members : list (PublicKeyWrapper G)) : viewChange :=
  mkVC (addKeyIfNotExist members v (bhp vc)) (addKeyIfNotExist members v (nilBox vc)) (addKeyIfNotExist members v (viewIDs vc))
    (newViewMsg vc) (m1Payload vc).

(** A signature is stored and the bit of its key set; the error of [SetKey] is dropped. *)
Definition addSig (members : list (PublicKeyWrapper G)) (v : Z) (k : SerializedPublicKey) (sig : Sg) (b : box) : box :=
  let mask := default (newMask members) (bxBitmap b !! v) in
  let mask' := match SetKey mask k true with Ok m => m | _ => mask end in
  mkBox (<[v := <[k := sig]> (sigsOf b v)]> (bxSigs b)) (<[v := mask']> (bxBitmap b)).

(** A key of the node: no signature is stored for a key outside the committee. *)
Definition addOwn (members : list (PublicKeyWrapper G)) (v : Z) (h : bytes) (b : box) (key : PrivateKeyWrapper) : box :=
  let mask := default (newMask members) (bxBitmap b !! v) in
  match SetKey mask (Bytes (Pub key)) true with
  | Ok mask' => mkBox (<[v := <[Bytes (Pub key) := SignHash (Pri key) h]> (sigsOf b v)]> (bxSigs b)) (<[v := mask']> (bxBitmap b))
  | _ => mkBox (bxSigs b) (<[v := mask]> (bxBitmap b))
  end.

Definition isM1PayloadEmpty (vc : viewChange) : bool := match m1Payload vc with [] => true | _ => false end.
Definition GetViewIDBitmap (vc : viewChange) (v : Z) : option (Mask G) := bxBitmap (viewIDs vc) !! v.

Definition GetPreparedBlock (vc : viewChange) (log : Log) : option (bytes * bytes) :=
  if isM1PayloadEmpty vc then None
  else
    block ← GetBlockByHash log (bytesToHash (take 32 (m1Payload vc)));
    match encodeBlock block with None | Some [] => None | Some enc => Some (m1Payload vc, enc) end.

(** The aggregate of the signatures of a view with its mask; [None] is nil. *)
Definition getBitmap (b : box) (v : Z) : option (Sg * bytes) :=
  match (map_to_list (sigsOf b v)).*2 with
  | [] => None
  | sigs => mask ← bxBitmap b !! v; Some (AggregateSig sigs, Bitmap mask)
  end.
Definition GetM2Bitmap (vc : viewChange) (v : Z) : option (Sg * bytes) := getBitmap (nilBox vc) v.
Definition GetM3Bitmap (vc : viewChange) (v : Z) : option (Sg * bytes) := getBitmap (viewIDs vc) v.

(** ** Signatures with a bitmap ([internal/chain/sig.go]) *)
Definition DecodeSigBitmap (sigBytes bitmap : bytes) (pubKeys : list (PublicKeyWrapper G)) : option (Sg * Mask G) :=
  aggSig ← sigOfBytes sigBytes;
  Some (aggSig, match SetMask (newMask pubKeys) bitmap with Ok m => m | _ => newMask pubKeys end).
Definition ParseCommitSigAndBitmap (payload : bytes) : option (bytes * bytes) :=
  if (length payload <? BLSSignatureSizeInBytes)%nat then None
  else Some (take BLSSignatureSizeInBytes payload, drop BLSSignatureSizeInBytes payload).
Definition ReadSignatureBitmapByPublicKeys (payload : bytes) (pubKeys : list (PublicKeyWrapper G)) : option (Sg * Mask G) :=
  '(sig, bitmap) ← ParseCommitSigAndBitmap payload; DecodeSigBitmap sig bitmap pubKeys.

(** ** Verified blocks ([consensus.VerifyBlock]) *)
Context (BlockVerifier : Block → bool).

Definition VerifyBlock (log : Log) (b : Block) : option Log :=
  if IsBlockVerified log b then Some log
  else if BlockVerifier b then Some (MarkBlockVerified log b) else None.

(** ** Processing a view-change message *)

(** [PREPARED] as the new leader writes it to its log. *)
Definition preparedFrom (viewID blockNum : Z) (payload : bytes) (senders : list (PublicKeyWrapper G)) : Msg :=
  mkFBFTMessage PREPARED viewID blockNum (bytesToHash (take 32 payload)) [] senders [] None (drop 32 payload)
    None None None None None None false.

Definition outcome := result vcError unit.

Definition isM1 (m : Msg) : bool := (ValidPayloadLength <=? length (Payload m))%nat && negb (match msgBlock m with [] => true | _ => false end).

(** The M1 branch, from the verified block on. *)
Definition processM1 (vc : viewChange) (log : Log) (d : Decider G) (m : Msg) (sender : PublicKeyWrapper G) (viewidSig : Sg) (preparedBlock : Block)
    : outcome * viewChange * Log :=
  match sigsOf (bhp vc) (ViewID m) !! Bytes sender with
  | Some _ => (Err errDupM1, vc, log)
  | None =>
      match ViewchangeSig m with
      | None => (Panic, vc, log)
      | Some vcSig =>
          if negb (VerifyHash vcSig (Object sender) (Payload m)) then (Err errVerifyM1, vc, log)
          else match ReadSignatureBitmapByPublicKeys (drop 32 (Payload m)) (dParticipants d) with
               | None => (Err errPayload, vc, log)
               | Some (aggSig, mask) =>
                   if negb (dQuorumByMask d (Some mask)) then (Err errNoQuorum, vc, log)
                   else if negb (VerifyHash aggSig (AggregatePublic mask) (take 32 (Payload m))) then (Err errM1Payload, vc, log)
                   else
                     let vc1 := withBhp vc (addSig (dParticipants d) (ViewID m) (Bytes sender) vcSig (bhp vc)) in
                     let vc2 := withViewIDs vc1 (addSig (dParticipants d) (ViewID m) (Bytes sender) viewidSig (viewIDs vc1)) in
                     if isM1PayloadEmpty vc2 then
                       let prepared := preparedFrom (ViewID m) (BlockNum m) (Payload m) (match LeaderPubkey m with Some k => [k] | None => [] end) in
                       (Ok tt, withM1 vc2 (Payload m), AddBlock (AddVerifiedMessage log prepared) preparedBlock)
                     else (Ok tt, vc2, log)
               end
      end
  end.

Definition processM2 (vc : viewChange) (log : Log) (d : Decider G) (m : Msg) (sender : PublicKeyWrapper G) (viewidSig : Sg)
    : outcome * viewChange * Log :=
  match sigsOf (nilBox vc) (ViewID m) !! Bytes sender with
  | Some _ => (Err errDupM2, vc, log)
  | None =>
      match ViewchangeSig m with
      | None => (Panic, vc, log)
      | Some vcSig =>
          if negb (VerifyHash vcSig (Object sender) NIL) then (Err errVerifyM2, vc, log)
          else
            let vc1 := withNil vc (addSig (dParticipants d) (ViewID m) (Bytes sender) vcSig (nilBox vc)) in
            (Ok tt, withViewIDs vc1 (addSig (dParticipants d) (ViewID m) (Bytes sender) viewidSig (viewIDs vc1)), log)
      end
  end.

Definition ProcessViewChangeMsg (vc : viewChange) (log : Log) (d : Decider G) (m : Msg) : outcome * viewChange * Log :=
  match SenderPubkeys m with
  | [sender] =>
      match sigsOf (viewIDs vc) (ViewID m) !! Bytes sender with
      | Some _ => (Err errDupM3, vc, log)
      | None =>
          match ViewidSig m with
          | None => (Panic, vc, log)
          | Some viewidSig =>
              if isM1 m then
                match decodeBlock (msgBlock m) with
                | None => (Err errDecodeBlock, vc, log)
                | Some preparedBlock =>
                    match VerifyBlock log preparedBlock with
                    | None => (Err errVerifyBlock, vc, log)
                    | Some log1 => processM1 vc log1 d m sender viewidSig preparedBlock
                    end
                end
              else processM2 vc log d m sender viewidSig
          end
      end
  | _ => (Err errIncorrectSender, vc, log)
  end.

(** ** The node's own signatures *)
Context (orderMsgs : gmap bytes Msg → list Msg).

(** The prepared message of the highest view with its verified block. *)
Definition ownPrepared (log : Log) (blockNum : Z) : option Msg * Log :=
  match FindMessageByMaxViewID (GetMessagesByTypeSeq orderMsgs log PREPARED blockNum) with
  | None => (None, log)
  | Some prepared =>
      match GetBlockByHash log (BlockHash prepared) with
      | None => (None, log)
      | Some b => match VerifyBlock log b with Some log1 => (Some prepared, log1) | None => (None, log) end
      end
  end.

Definition someSigned (privKeys : list (PrivateKeyWrapper)) (sigs : gmap SerializedPublicKey Sg) : bool :=
  existsb (λ key, bool_decide (is_Some (sigs !! Bytes (Pub key)))) privKeys.

Definition InitPayload (vc : viewChange) (log : Log) (viewID blockNum : Z) (privKeys : list PrivateKeyWrapper)
    (members : list (PublicKeyWrapper G)) : viewChange * Log :=
  let '(vc1, log1) :=
    if someSigned privKeys (sigsOf (bhp vc) viewID) || someSigned privKeys (sigsOf (nilBox vc) viewID) then (vc, log)
    else match ownPrepared log blockNum with
         | (Some prepared, log1) =>
             let msgToSign := toBytes 32 (BlockHash prepared) ++ Payload prepared in
             let vc1 := withBhp vc (foldl (addOwn members viewID msgToSign) (bhp vc) privKeys) in
             (if isM1PayloadEmpty vc1 then withM1 vc1 msgToSign else vc1, log1)
         | (None, log1) => (withNil vc (foldl (addOwn members viewID NIL) (nilBox vc) privKeys), log1)
         end in
  (if someSigned privKeys (sigsOf (viewIDs vc1) viewID) then vc1
   else withViewIDs vc1 (foldl (addOwn members viewID (le64 viewID)) (viewIDs vc1) privKeys), log1).

(** ** A new-view message *)

(** The prepared block of the message when it has one. *)
Definition VerifyNewViewMsg (vc : viewChange) (log : Log) (m : Msg) : result vcError (option Block) * viewChange * Log :=
  match M3AggSig m, M3Bitmap m with
  | Some m3Sig, Some m3Mask =>
      match SenderPubkeys m with
      | [] => (Panic, vc, log)
      | sender :: _ =>
          let vc1 := withNewView vc (<[ViewID m := <[Bytes sender := BlockNum m]> (default ∅ (newViewMsg vc !! ViewID m))]> (newViewMsg vc)) in
          if negb (VerifyHash m3Sig (AggregatePublic m3Mask) (le64 (ViewID m))) then (Err errM3Sig, vc1, log)
          else
            let m2 := match M2AggSig m, M2Bitmap m with
                      | None, _ => Ok tt
                      | Some m2Sig, Some m2Mask => if VerifyHash m2Sig (AggregatePublic m2Mask) NIL then Ok tt else Err errM2Sig
                      | Some _, None => Panic
                      end in
            match m2 with
            | Err e => (Err e, vc1, log)
            | Panic => (Panic, vc1, log)
            | Ok _ =>
                if isM1 m then
                  match decodeBlock (msgBlock m) with
                  | None => (Err errDecodeBlock, vc1, log)
                  | Some preparedBlock =>
                      if negb (bool_decide (toBytes 32 (hashOf preparedBlock) = take 32 (Payload m))) then (Err errBlockHash, vc1, log)
                      else match VerifyBlock log preparedBlock with
                           | None => (Err errVerifyBlock, vc1, log)
                           | Some log1 => (Ok (Some preparedBlock), vc1, log1)
                           end
                  end
                else (Ok None, vc1, log)
            end
      end
  | _, _ => (Err errM3Nil, vc, log)
  end.

(** ** Messages on the wire ([consensus/view_change_msg.go]) *)
Record ViewChangeRequest := mkRequest {
  vrViewId : Z; vrBlockNum : Z; vrSenderPubkey : SerializedPublicKey; vrPayload : bytes; vrPreparedBlock : bytes;
  vrM2 : option (bytes * bytes); vrM3 : option (bytes * bytes);
}.

(** [constructNewViewMessage]; [None] is nil. *)
Definition constructNewViewMessage (vc : viewChange) (log : Log) (viewID blockNum : Z) (leader : PrivateKeyWrapper) : option ViewChangeRequest :=
  let '(payload, preparedBlock) := default ([], []) (GetPreparedBlock vc log) in
  let wire (sb : Sg * bytes) := (sigToBytes sb.1, sb.2) in
  m3 ← GetM3Bitmap vc viewID;
  Some (mkRequest viewID blockNum (Bytes (Pub leader)) payload preparedBlock (wire <$> GetM2Bitmap vc viewID) (Some (wire m3))).

(** [BytesToBLSPublicKey]. *)
Context (keyOf : SerializedPublicKey → option G).

(** A signature with its mask; the error of [SetMask] is dropped. *)
Definition parseAggregate (members : list (PublicKeyWrapper G)) (sb : option (bytes * bytes)) : option (option (Sg * Mask G)) :=
  match sb with
  | None => Some None
  | Some (sig, bitmap) => r ← DecodeSigBitmap sig bitmap members; Some (Some r)
  end.
Definition ParseNewViewMessage (r : ViewChangeRequest) (members : list (PublicKeyWrapper G)) : option Msg :=
  pubKey ← keyOf (vrSenderPubkey r);
  m3 ← parseAggregate members (vrM3 r);
  m2 ← parseAggregate members (vrM2 r);
  Some (mkFBFTMessage NEWVIEW (vrViewId r) (vrBlockNum r) 0 (vrPreparedBlock r) [mkPublicKeyWrapper (vrSenderPubkey r) pubKey] [] None (vrPayload r)
    None None (fst <$> m2) (snd <$> m2) (fst <$> m3) (snd <$> m3) false).
End viewchange.

Arguments PrivateKeyWrapper G Sg {BC}.
Arguments viewChange : clear implicits.
Arguments box : clear implicits.

(** * Properties *)

(** ** Masks and boxes *)
Section boxes.
Context {G Sg : Type} `{BK : BlsKey G, BS : BlsSign Sg, BC : !BlsCrypto G Sg, KL : !BlsKeyLaws G, SL : !BlsSignLaws Sg, CL : !BlsCryptoLaws G Sg}.
Context (members : list (PublicKeyWrapper G)).
Hypothesis members_distinct : NoDup (Bytes <$> members).
Implicit Types (m : Mask G) (b : box G Sg) (D : gset SerializedPublicKey).

(** A mask of the committee that marks exactly the keys of [D]. *)
Definition marks m D : Prop :=
  maskInv m ∧ Publics m = members ∧ PublicsIndex m = indexFrom 0 members ∅
  ∧ ∀ j key, members !! j = Some key → bitAt (Bitmap m) j = bool_decide (Bytes key ∈ D).

Lemma marks_new : marks (newMask members) ∅.
Proof.
  split_and!; [apply emptyMask_inv|done|done|]. intros j key _. rewrite bool_decide_false by set_solver. apply bitAt_zeros.
Qed.

Lemma indexFrom_absent i publics (index : gmap SerializedPublicKey Z) k :
  k ∉ Bytes <$> publics → indexFrom (G:=G) i publics index !! k = index !! k.
Proof.
  revert i index. induction publics as [|key rest IH]; intros i index Hk; simpl; [done|]. rewrite fmap_cons, not_elem_of_cons in Hk.
  rewrite IH by tauto. apply lookup_insert_ne. naive_solver.
Qed.

Lemma indexFrom_member i publics (index : gmap SerializedPublicKey Z) j key :
  NoDup (Bytes <$> publics) → publics !! j = Some key → indexFrom (G:=G) i publics index !! Bytes key = Some (Z.of_nat (i + j)).
Proof.
  revert i index j. induction publics as [|key' rest IH]; intros i index j Hnd Hj; [done|]. rewrite fmap_cons, NoDup_cons in Hnd.
  destruct Hnd as [Hk Hnd]. destruct j as [|j]; simpl in *.
  - injection Hj as ->. by rewrite indexFrom_absent, lookup_insert_eq, Nat.add_0_r by done.
  - rewrite (IH (S i) _ j) by done. do 2 f_equal. lia.
Qed.

Lemma SetKey_marks m D k :
  marks m D → k ∈ Bytes <$> members → ∃ m', SetKey m k true = Ok m' ∧ marks m' ({[k]} ∪ D).
Proof.
  intros (HI & Hp & Hx & Hb) (key & -> & [j Hj]%list_elem_of_lookup_1)%list_elem_of_fmap_1. unfold SetKey.
  rewrite Hx, (indexFrom_member 0 _ _ j) by done. apply lookup_lt_Some in Hj as Hlt.
  destruct (SetBit_spec m (Z.of_nat (0 + j)) true HI) as (m' & E & HI' & Hp' & Hx' & Hb'); [rewrite Hp; lia|].
  exists m'. split; [done|]. split_and!; [done|congruence|congruence|]. intros i key' Hi. apply lookup_lt_Some in Hi as Hlt'.
  rewrite Hb' by (by rewrite Hp). rewrite Nat2Z.id. change (0 + j)%nat with j. case_decide as Hij.
  - subst i. rewrite Hj in Hi. injection Hi as ->. rewrite bool_decide_true by set_solver. done.
  - rewrite (Hb i key' Hi). apply bool_decide_ext. assert (Bytes key' ≠ Bytes key); [|set_solver]. intros Heq. apply Hij.
    eapply (NoDup_lookup (Bytes <$> members) _ _ (Bytes key)); [done| |]; rewrite list_lookup_fmap; [rewrite Hi; simpl; by rewrite Heq|by rewrite Hj].
Qed.

Lemma SetKey_foreign m D k : marks m D → k ∉ Bytes <$> members → SetKey m k true = Err errKeyNotFound.
Proof. intros (_ & _ & Hx & _) Hk. unfold SetKey. by rewrite Hx, indexFrom_absent. Qed.

(** A box whose signatures are of committee members and satisfy [P], with masks that mark
    exactly their keys. *)
Definition boxInv (P : Z → SerializedPublicKey → Sg → Prop) b : Prop :=
  ∀ v, match bxBitmap b !! v with Some m => marks m (dom (sigsOf b v)) | None => sigsOf b v = ∅ end
  ∧ ∀ k sig, sigsOf b v !! k = Some sig → k ∈ Bytes <$> members ∧ P v k sig.

Lemma boxInv_mask P b v : boxInv P b → marks (default (newMask members) (bxBitmap b !! v)) (dom (sigsOf b v)).
Proof.
  intros Hb. destruct (Hb v) as [Hm _]. destruct (bxBitmap b !! v); simpl; [done|]. rewrite Hm, dom_empty_L. apply marks_new.
Qed.

Lemma boxInv_empty P : boxInv P emptyBox.
Proof. intros v. split; [done|]. intros k sig. unfold sigsOf. simpl. by rewrite lookup_empty. Qed.

Lemma boxInv_put P b v sigs m :
  boxInv P b → marks m (dom sigs) → (∀ k sig, sigs !! k = Some sig → k ∈ Bytes <$> members ∧ P v k sig) →
  boxInv P (mkBox (<[v := sigs]> (bxSigs b)) (<[v := m]> (bxBitmap b))).
Proof.
  intros Hb Hm Hs v'. unfold sigsOf. simpl. destruct (decide (v = v')) as [<-|]; [by rewrite !lookup_insert_eq|].
  rewrite !lookup_insert_ne by done. apply Hb.
Qed.

Lemma addKey_inv P b v : boxInv P b → boxInv P (addKeyIfNotExist members v b).
Proof. intros Hb. apply boxInv_put; [done|by eapply boxInv_mask|]. intros k sig Hk. by apply Hb. Qed.

Lemma addSig_inv P b v k sig : boxInv P b → k ∈ Bytes <$> members → P v k sig → boxInv P (addSig members v k sig b).
Proof.
  intros Hb Hk HP. unfold addSig. destruct (SetKey_marks _ _ k (boxInv_mask _ _ v Hb) Hk) as (m' & -> & Hm').
  apply boxInv_put; [done|by rewrite dom_insert_L|]. intros k' sig' [[<- <-]|[_ Hs]]%lookup_insert_Some; [done|by apply Hb].
Qed.

Lemma sigsOf_addSig b v k sig v' : sigsOf (addSig members v k sig b) v' = if decide (v = v') then <[k := sig]> (sigsOf b v) else sigsOf b v'.
Proof. unfold addSig, sigsOf. simpl. case_decide; subst; [by rewrite lookup_insert_eq|by rewrite lookup_insert_ne]. Qed.

Lemma addOwn_inv P b v h key :
  boxInv P b → (Bytes (Pub key) ∈ Bytes <$> members → P v (Bytes (Pub key)) (SignHash (Pri key) h)) → boxInv P (addOwn members v h b key).
Proof.
  intros Hb HP. unfold addOwn. pose proof (boxInv_mask _ _ v Hb) as Hm.
  destruct (decide (Bytes (Pub key) ∈ Bytes <$> members)) as [Hk|Hk].
  - destruct (SetKey_marks _ _ _ Hm Hk) as (m' & -> & Hm'). apply boxInv_put; [done|by rewrite dom_insert_L|].
    intros k' sig' [[<- <-]|[_ Hs]]%lookup_insert_Some; [by auto|by apply Hb].
  - rewrite (SetKey_foreign _ _ _ Hm Hk). intros v'. unfold sigsOf. simpl. destruct (decide (v = v')) as [<-|].
    + rewrite lookup_insert_eq. split; [done|]. intros k sig Hs. by apply Hb.
    + rewrite lookup_insert_ne by done. apply Hb.
Qed.

Lemma sigsOf_addOwn P b v h key v' :
  boxInv P b → dom (sigsOf (addOwn members v h b key) v') =
    if decide (v = v' ∧ Bytes (Pub key) ∈ Bytes <$> members) then {[Bytes (Pub key)]} ∪ dom (sigsOf b v') else dom (sigsOf b v').
Proof.
  intros Hb. unfold addOwn. pose proof (boxInv_mask _ _ v Hb) as Hm. destruct (decide (Bytes (Pub key) ∈ Bytes <$> members)) as [Hk|Hk].
  - destruct (SetKey_marks _ _ _ Hm Hk) as (m' & -> & _). unfold sigsOf. simpl. destruct (decide (v = v')) as [<-|].
    + rewrite decide_True by done. by rewrite lookup_insert_eq; simpl; rewrite dom_insert_L.
    + rewrite decide_False by tauto. by rewrite lookup_insert_ne.
  - rewrite (SetKey_foreign _ _ _ Hm Hk), decide_False by tauto. done.
Qed.

Lemma addOwns_inv P b v h keys :
  boxInv P b → (∀ key, key ∈ keys → Bytes (Pub key) ∈ Bytes <$> members → P v (Bytes (Pub key)) (SignHash (Pri key) h)) →
  boxInv P (foldl (addOwn members v h) b keys) ∧
  ∀ v' k, k ∈ dom (sigsOf (foldl (addOwn members v h) b keys) v') ↔
    k ∈ dom (sigsOf b v') ∨ (v = v' ∧ k ∈ Bytes <$> members ∧ ∃ key, key ∈ keys ∧ Bytes (Pub key) = k).
Proof.
  revert b. induction keys as [|key keys IH]; intros b Hb HP; simpl.
  { split; [done|]. intros v' k. split; [auto|]. intros [|(_ & _ & key & ?%not_elem_of_nil & _)]; done. }
  destruct (IH (addOwn members v h b key)) as [H1 H2]; [apply addOwn_inv; [done|apply HP; set_solver]|set_solver|].
  split; [done|]. intros v' k. rewrite H2, (sigsOf_addOwn P) by done. case_decide as Hd; set_solver.
Qed.

(** ** Aggregates *)

(** The signature verifies under the member with the key. *)
Definition signedBy (h : Z → bytes) (v : Z) (k : SerializedPublicKey) (sig : Sg) : Prop :=
  ∃ key, key ∈ members ∧ Bytes key = k ∧ VerifyHash sig (Object key) (h v) = true.

Lemma member_unique key key' : key ∈ members → key' ∈ members → Bytes key = Bytes key' → key = key'.
Proof.
  intros [i Hi]%list_elem_of_lookup_1 [j Hj]%list_elem_of_lookup_1 He.
  assert (i = j) as <-; [|congruence].
  eapply (NoDup_lookup (Bytes <$> members) _ _ (Bytes key)); [done| |]; rewrite list_lookup_fmap; [by rewrite Hi|rewrite Hj; simpl; by rewrite He].
Qed.

(** The signatures in the order of the committee. *)
Lemma sigs_in_order (sigs : gmap SerializedPublicKey Sg) :
  (∀ k sig, sigs !! k = Some sig → k ∈ Bytes <$> members) →
  (map_to_list sigs).*2 ≡ₚ omap (λ key, sigs !! Bytes key) members.
Proof.
  intros Hdom.
  assert (map_to_list sigs ≡ₚ omap (λ key, pair (Bytes key) <$> sigs !! Bytes key) members) as Hp.
  { apply NoDup_Permutation; [apply NoDup_map_to_list| |].
    - clear Hdom. revert members_distinct. induction members as [|key ms IH]; simpl; [constructor|]. intros [Hk Hnd]%NoDup_cons.
      destruct (sigs !! Bytes key) as [sig|]; simpl; [|by apply IH]. constructor; [|by apply IH].
      intros (key' & Hin & Hs)%list_elem_of_omap. apply fmap_Some in Hs as (? & _ & [= He _]). apply Hk. rewrite He. by apply list_elem_of_fmap_2.
    - intros [k sig]. rewrite elem_of_map_to_list, list_elem_of_omap. split.
      + intros Hs. destruct (list_elem_of_fmap_1 _ _ _ (Hdom _ _ Hs)) as (key & -> & Hin). exists key. by rewrite Hs.
      + intros (key & _ & (? & Hs & [= -> ->])%fmap_Some). done. }
  apply (fmap_Permutation snd) in Hp. rewrite Hp. clear. induction members as [|key ms IH]; simpl; [done|].
  destruct (sigs !! Bytes key); simpl; by rewrite IH.
Qed.

Lemma keySum_verifies (sigs : gmap SerializedPublicKey Sg) (ms : list (PublicKeyWrapper G)) f i h :
  (∀ j key, ms !! j = Some key → f (i + j)%nat = bool_decide (Bytes key ∈ dom sigs)) →
  (∀ key sig, key ∈ ms → sigs !! Bytes key = Some sig → VerifyHash sig (Object key) h = true) →
  VerifyHash (foldr sigAdd sigZero (omap (λ key, sigs !! Bytes key) ms)) (keySum f i ms) h = true.
Proof.
  revert i. induction ms as [|key ms IH]; intros i Hf Hv; simpl; [apply verify_zero|].
  pose proof (Hf 0%nat key eq_refl) as Hk. rewrite Nat.add_0_r in Hk.
  assert (VerifyHash (foldr sigAdd sigZero (omap (λ key, sigs !! Bytes key) ms)) (keySum f (S i) ms) h = true) as Hrest.
  { apply IH; [|intros; apply Hv; set_solver]. intros j key' Hj. rewrite <-(Hf (S j) key' Hj). f_equal. lia. }
  destruct (sigs !! Bytes key) as [sig|] eqn:Es; simpl.
  - rewrite Hk, bool_decide_true by (by apply elem_of_dom_2 in Es). apply verify_add; [apply Hv; set_solver|done].
  - rewrite Hk, bool_decide_false; [done|]. by apply not_elem_of_dom.
Qed.

(** The aggregate of a box verifies under the mask that is read from its bitmap. *)
Lemma getBitmap_verifies h b v agg bm :
  boxInv (signedBy h) b → getBitmap b v = Some (agg, bm) →
  ∃ m, SetMask (newMask members) bm = Ok m ∧ marks m (dom (sigsOf b v)) ∧ VerifyHash agg (AggregatePublic m) (h v) = true.
Proof.
  intros Hb E. unfold getBitmap in E. assert (∃ mask, bxBitmap b !! v = Some mask ∧ agg = AggregateSig (map_to_list (sigsOf b v)).*2 ∧ bm = Bitmap mask)
    as (mask & Hm & -> & ->).
  { destruct (map_to_list (sigsOf b v)).*2 as [|s0 ss]; [done|]. apply bind_Some in E as (mask & Hm & [= <- <-]). eauto. }
  destruct (Hb v) as [Hmk Hs]. rewrite Hm in Hmk. destruct Hmk as (HI & Hp & Hx & Hbits).
  destruct (SetMask_spec (newMask members) (Bitmap mask)) as (m & Em & HIm & Hpm & Hxm & Hbm);
    [apply emptyMask_inv|by rewrite (inv_len _ HI), Hp|].
  assert (∀ j key, members !! j = Some key → bitAt (Bitmap m) j = bool_decide (Bytes key ∈ dom (sigsOf b v))) as Hbits'.
  { intros j key Hj. rewrite Hbm by (by eapply lookup_lt_Some). by apply Hbits. }
  exists m. split; [done|]. split; [by split_and!|].
  rewrite (inv_agg m HIm), Hpm. cbn [newMask emptyMask Publics].
  rewrite (AggregateSig_perm _ _ (sigs_in_order (sigsOf b v) (λ k sig Hk, proj1 (Hs k sig Hk)))), AggregateSig_foldr.
  apply keySum_verifies; [done|]. intros key sig Hin Hk. destruct (Hs _ _ Hk) as (_ & key' & Hin' & He & Hv).
  by rewrite (member_unique key key').
Qed.
End boxes.

(** ** Hashes as bytes *)
Lemma toBytes_S n v : toBytes (S n) v = toBytes n (Z.shiftr v 8) ++ [Z.land v 255].
Proof.
  unfold toBytes. rewrite seq_S, map_app. f_equal.
  - apply map_ext_in. intros i Hi%in_seq. rewrite Z.shiftr_shiftr by lia.
    f_equal. f_equal. lia.
  - cbn [map]. replace (S n - 1 - (0 + n))%nat with 0%nat by lia. change (8 * Z.of_nat 0) with 0. by rewrite Z.shiftr_0_r.
Qed.

Lemma toBytes_bytesToHash l : Forall isByte l → toBytes (length l) (bytesToHash l) = l.
Proof.
  unfold bytesToHash. induction l as [|x l IH] using rev_ind; intros Hl; [done|].
  apply Forall_app in Hl as [Hl Hx]. apply Forall_cons in Hx as [Hx _]. rewrite length_app, Nat.add_1_r, foldl_app, toBytes_S. simpl.
  set (a := foldl _ 0 l) in *. unfold isByte in Hx. f_equal.
  - rewrite Z.shiftr_div_pow2 by lia. change (2 ^ 8) with 256. rewrite Z.div_add_l by lia. rewrite (Z.div_small x 256) by exact Hx. by rewrite Z.add_0_r, IH.
  - change 255 with (Z.ones 8). rewrite Z.land_ones by lia. change (2 ^ 8) with 256. f_equal.
    rewrite Z.add_comm, Z.mod_add by lia. by apply (Z.mod_small x 256).
Qed.

(** ** The votes of reachable states *)
Section votes.
Context {G Sg : Type} `{BK : BlsKey G, BS : BlsSign Sg, BC : !BlsCrypto G Sg, KL : !BlsKeyLaws G, SL : !BlsSignLaws Sg, CL : !BlsCryptoLaws G Sg}.
Context `{BL : BlockLib} (BlockVerifier : Block → bool) (orderMsgs : gmap bytes (FBFTMessage G Sg) → list (FBFTMessage G Sg)).
Hypothesis order_values : ∀ ms, orderMsgs ms ≡ₚ (map_to_list ms).*2.
Context (d : Decider G) (privKeys : list (PrivateKeyWrapper G Sg)).
Notation members := (dParticipants d).
Hypothesis members_distinct : NoDup (Bytes <$> members).
(** The keys of the node: a key of the committee is the committee's, and they sign. *)
Hypothesis own_members : ∀ key, key ∈ privKeys → Bytes (Pub key) ∈ Bytes <$> members → Pub key ∈ members.
Hypothesis own_signs : ∀ key h, key ∈ privKeys → VerifyHash (SignHash (Pri key) h) (Object (Pub key)) h = true.
Notation Msg := (FBFTMessage G Sg).
Notation Log := (FBFTLog G Sg).
Implicit Types (vc : viewChange G Sg) (log : Log) (m : Msg).

(** A prepared payload: a block hash with an aggregate signature on it whose signers have the
    quorum. *)
Definition certified (p : bytes) : Prop :=
  Forall isByte (take 32 p) ∧ ∃ aggSig mask, ReadSignatureBitmapByPublicKeys (drop 32 p) members = Some (aggSig, mask)
    ∧ dQuorumByMask d (Some mask) = true ∧ VerifyHash aggSig (AggregatePublic mask) (take 32 p) = true.

(** The prepared messages that the node's other handlers put into the log satisfy [Logged]:
    [onPrepared] logs them with a certificate, [onNewView] without a quorum test. *)
Context (Logged : Msg → Prop).
Definition payloadOf m : bytes := toBytes 32 (BlockHash m) ++ Payload m.
Definition prepared (p : bytes) : Prop := certified p ∨ ∃ m, Logged m ∧ MessageType m = PREPARED ∧ p = payloadOf m.
Definition logPrepared log : Prop :=
  ∀ m, inLog log m → MessageType m = PREPARED → Verified m = true → prepared (payloadOf m).

Record vcInv vc : Prop := {
  vi_bhp : boxInv members (λ _ _ _, True) (bhp vc);
  vi_nil : boxInv members (signedBy members (λ _, NIL)) (nilBox vc);
  vi_ids : boxInv members (signedBy members le64) (viewIDs vc);
  vi_union : ∀ v, dom (sigsOf (viewIDs vc) v) = dom (sigsOf (bhp vc) v) ∪ dom (sigsOf (nilBox vc) v);
  vi_disjoint : ∀ v, dom (sigsOf (bhp vc) v) ## dom (sigsOf (nilBox vc) v);
  vi_m1 : m1Payload vc ≠ [] → prepared (m1Payload vc);
}.

Lemma Reset_inv : vcInv ResetVC.
Proof. split; try apply boxInv_empty; done. Qed.

Lemma sigsOf_addKey v (b : box G Sg) v' : sigsOf (addKeyIfNotExist members v b) v' = sigsOf b v'.
Proof. unfold addKeyIfNotExist, sigsOf. simpl. destruct (decide (v = v')) as [<-|]; [by rewrite lookup_insert_eq|by rewrite lookup_insert_ne]. Qed.

Lemma AddViewIDKey_inv vc v : vcInv vc → vcInv (AddViewIDKeyIfNotExist vc v members).
Proof.
  intros [Hb Hn Hi Hu Hd Hm]. split; simpl; try (by apply addKey_inv); [|intros v'|done].
  - intros v'. by rewrite !sigsOf_addKey.
  - by rewrite !sigsOf_addKey.
Qed.

(** A message of a member whose view signature has been verified. *)
Definition checkedMsg m : Prop :=
  Forall isByte (take 32 (Payload m)) ∧ ∀ sender sig, SenderPubkeys m = [sender] → ViewidSig m = Some sig →
    sender ∈ members ∧ VerifyHash sig (Object sender) (le64 (ViewID m)) = true.

Lemma inLog_mark log b : logPrepared log → logPrepared (MarkBlockVerified log b).
Proof. done. Qed.

Lemma logPrepared_add log m :
  logPrepared log → (MessageType m = PREPARED → prepared (payloadOf m)) → logPrepared (AddVerifiedMessage log m).
Proof.
  intros Hl Hm m' [i Hi] Ht Hv. cbn in Hi. apply lookup_insert_Some in Hi as [[_ <-]|[_ Hi]]; [by apply Hm|]. apply Hl; [by exists i|done|done].
Qed.

Lemma VerifyBlock_logPrepared log b log' : logPrepared log → VerifyBlock BlockVerifier log b = Some log' → logPrepared log'.
Proof. unfold VerifyBlock. intros Hl. repeat case_match; intros [= <-]; done. Qed.

Lemma addVotes_inv vc v k :
  vcInv vc → k ∈ Bytes <$> members → sigsOf (viewIDs vc) v !! k = None →
  ∀ vcSig vidSig, signedBy members le64 v k vidSig →
  vcInv (withViewIDs (withBhp vc (addSig members v k vcSig (bhp vc))) (addSig members v k vidSig (viewIDs vc))) ∧
  (signedBy members (λ _, NIL) v k vcSig →
   vcInv (withViewIDs (withNil vc (addSig members v k vcSig (nilBox vc))) (addSig members v k vidSig (viewIDs vc)))).
Proof.
  intros [Hb Hn Hi Hu Hd Hm] Hk Hnone vcSig vidSig Hs. apply not_elem_of_dom in Hnone. rewrite Hu in Hnone.
  split; [|intros Hsn]; split; simpl; try done; try (by apply addSig_inv); intros v'; rewrite !sigsOf_addSig; specialize (Hu v'); specialize (Hd v');
    case_decide; subst; rewrite ?dom_insert_L, ?Hu; set_solver.
Qed.

Lemma ProcessViewChangeMsg_inv vc log m :
  vcInv vc → logPrepared log → checkedMsg m →
  let r := ProcessViewChangeMsg BlockVerifier vc log d m in vcInv r.1.2 ∧ logPrepared r.2.
Proof.
  intros Hvc Hlog [Hbytes Hm]. unfold ProcessViewChangeMsg. destruct (SenderPubkeys m) as [|sender [|? ?]] eqn:Es; [done| |done].
  destruct (sigsOf (viewIDs vc) (ViewID m) !! Bytes sender) eqn:Ev; [done|]. destruct (ViewidSig m) as [vid|] eqn:Evid; [|done].
  destruct (Hm sender vid eq_refl eq_refl) as [Hin Hsig].
  assert (Bytes sender ∈ Bytes <$> members) as Hk by (by apply list_elem_of_fmap_2).
  assert (signedBy members le64 (ViewID m) (Bytes sender) vid) as Hsv by (by exists sender).
  destruct (isM1 m) eqn:E1.
  - destruct (decodeBlock (msgBlock m)) as [b|]; [|done]. destruct (VerifyBlock BlockVerifier log b) as [log1|] eqn:Evb; [|done].
    pose proof (VerifyBlock_logPrepared _ _ _ Hlog Evb) as Hlog1. unfold processM1.
    destruct (sigsOf (bhp vc) (ViewID m) !! Bytes sender); [done|]. destruct (ViewchangeSig m) as [vcs|]; [|done].
    destruct (negb (VerifyHash vcs _ _)); [done|].
    destruct (ReadSignatureBitmapByPublicKeys (drop 32 (Payload m)) members) as [[agg mask]|] eqn:Er; [|done].
    destruct (dQuorumByMask d (Some mask)) eqn:Eq; [|done]. destruct (VerifyHash agg (AggregatePublic mask) (take 32 (Payload m))) eqn:Eh; [|done].
    assert (certified (Payload m)) as Hc by (split; [done|by exists agg, mask]).
    destruct (addVotes_inv vc (ViewID m) (Bytes sender) Hvc Hk Ev vcs vid Hsv) as [Hvc1 _]. cbn [negb].
    destruct (isM1PayloadEmpty _); cbn [fst snd]; [|done]. split.
    + destruct Hvc1 as [? ? ? ? ? _]. split; try done. intros _. by left.
    + assert (logPrepared (AddVerifiedMessage log1 (preparedFrom (ViewID m) (BlockNum m) (Payload m) (match LeaderPubkey m with Some k => [k] | None => [] end)))) as Hl; [|exact Hl].
      apply logPrepared_add; [done|]. intros _. left. change (certified (toBytes 32 (bytesToHash (take 32 (Payload m))) ++ drop 32 (Payload m))).
      assert (length (take 32 (Payload m)) = 32%nat) as Hlen.
      { apply length_take_le. unfold isM1, ValidPayloadLength in E1. apply andb_true_iff in E1 as [E1%Nat.leb_le _]. lia. }
      pose proof (toBytes_bytesToHash (take 32 (Payload m)) Hbytes) as Ht. rewrite Hlen in Ht. rewrite Ht.
      by rewrite take_drop.
  - unfold processM2. destruct (sigsOf (nilBox vc) (ViewID m) !! Bytes sender); [done|]. destruct (ViewchangeSig m) as [vcs|]; [|done].
    destruct (VerifyHash vcs (Object sender) NIL) eqn:Eh; [|done]. cbn [negb fst snd].
    destruct (addVotes_inv vc (ViewID m) (Bytes sender) Hvc Hk Ev vcs vid Hsv) as [_ Hvc2]. split; [|done]. apply Hvc2. by exists sender.
Qed.

Lemma someSigned_spec sigs : someSigned privKeys sigs = true ↔ ∃ key, key ∈ privKeys ∧ Bytes (Pub key) ∈ dom sigs.
Proof.
  unfold someSigned. rewrite existsb_exists. split; intros (key & Hin & Hk); exists key.
  - split; [by apply list_elem_of_In|]. apply elem_of_dom. by apply bool_decide_eq_true in Hk.
  - split; [by apply list_elem_of_In|]. apply bool_decide_eq_true. by apply elem_of_dom.
Qed.

Lemma ownPrepared_prepared log n r log1 :
  logPrepared log → ownPrepared BlockVerifier orderMsgs log n = (r, log1) →
  logPrepared log1 ∧ ∀ p, r = Some p → prepared (payloadOf p).
Proof.
  intros Hl. unfold ownPrepared. assert (∀ p, FindMessageByMaxViewID (GetMessagesByTypeSeq orderMsgs log PREPARED n) = Some p →
    prepared (payloadOf p)) as Hp.
  { intros p Hf. assert (p ∈ GetMessagesByTypeSeq orderMsgs log PREPARED n) as Hin.
    { revert Hf. unfold FindMessageByMaxViewID. generalize (GetMessagesByTypeSeq orderMsgs log PREPARED n) as l.
      assert (∀ l acc, (foldl maxStep acc l).1 = Some p → acc.1 = Some p ∨ p ∈ l) as Hgen; [|intros l Hl'; by destruct (Hgen l _ Hl')].
      induction l as [|x l IH]; intros acc; simpl; [auto|]. intros [He|]%IH; [|set_solver]. unfold maxStep in He.
      case_match; simpl in He; [injection He as ->; set_solver|auto]. }
    apply GetMessagesByTypeSeq_spec in Hin as (Hin & Ht & _ & Hv); [|done]. by apply Hl. }
  destruct (FindMessageByMaxViewID _) as [p|]; [|by intros [= <- <-]].
  destruct (GetBlockByHash log (BlockHash p)) as [b|]; [|by intros [= <- <-]].
  destruct (VerifyBlock BlockVerifier log b) as [l1|] eqn:Ev; intros [= <- <-]; [|done].
  split; [by eapply VerifyBlock_logPrepared|]. intros ? [= <-]. by apply Hp.
Qed.

(** The own keys added to a box that none of them has signed in. *)
Definition ownKeys : gset SerializedPublicKey :=
  list_to_set (filter (λ k, k ∈ Bytes <$> members) ((λ key, Bytes (Pub key)) <$> privKeys)).

Lemma addOwns_dom P (b : box G Sg) v h v' :
  boxInv members P b → (∀ key, key ∈ privKeys → Pub key ∈ members → P v (Bytes (Pub key)) (SignHash (Pri key) h)) →
  boxInv members P (foldl (addOwn members v h) b privKeys) ∧
  dom (sigsOf (foldl (addOwn members v h) b privKeys) v') = dom (sigsOf b v') ∪ (if decide (v = v') then ownKeys else ∅).
Proof.
  intros Hb HP. destruct (addOwns_inv members members_distinct P b v h privKeys Hb) as [H1 H2].
  { intros key Hin Hk. apply HP; [done|by apply own_members]. }
  split; [done|]. apply set_eq. intros k. rewrite H2, elem_of_union. unfold ownKeys. case_decide; subst.
  - rewrite elem_of_list_to_set, list_elem_of_filter. split.
    + intros [Hx|(_ & Hk & key & Hin & <-)]; [by left|]. right. split; [done|]. by apply (list_elem_of_fmap_2 (λ key, Bytes (Pub key))).
    + intros [Hx|(Hk & (key & -> & Hin)%list_elem_of_fmap_1)]; [by left|]. right. split_and!; [done|done|by exists key].
  - set_solver.
Qed.

Lemma unsigned vc v :
  (∀ v, dom (sigsOf (viewIDs vc) v) = dom (sigsOf (bhp vc) v) ∪ dom (sigsOf (nilBox vc) v)) →
  someSigned privKeys (sigsOf (bhp vc) v) = false → someSigned privKeys (sigsOf (nilBox vc) v) = false →
  someSigned privKeys (sigsOf (viewIDs vc) v) = false.
Proof.
  intros Hu E1 E2. apply not_true_iff_false in E1, E2. apply not_true_iff_false. intros (key & Hin & Hk)%someSigned_spec.
  rewrite Hu, elem_of_union in Hk. destruct Hk; [apply E1|apply E2]; apply someSigned_spec; eauto.
Qed.

Lemma InitPayload_inv vc log v n :
  vcInv vc → logPrepared log → let r := InitPayload BlockVerifier orderMsgs vc log v n privKeys members in vcInv r.1 ∧ logPrepared r.2.
Proof.
  intros Hvc Hlog. unfold InitPayload. destruct Hvc as [Hb Hn Hi Hu Hd Hm].
  assert (∀ h key, key ∈ privKeys → Pub key ∈ members → signedBy members h v (Bytes (Pub key)) (SignHash (Pri key) (h v))) as Hown.
  { intros h key Hin Hmem. exists (Pub key). split_and!; [done|done|by apply own_signs]. }
  destruct (addOwns_dom _ (viewIDs vc) v (le64 v) v Hi (Hown le64)) as [Hi1 _].
  destruct (someSigned privKeys (sigsOf (bhp vc) v) || someSigned privKeys (sigsOf (nilBox vc) v)) eqn:Es.
  - assert (someSigned privKeys (sigsOf (viewIDs vc) v) = true) as ->; [|done]. apply someSigned_spec.
    apply orb_true_iff in Es as [(key & ? & ?)%someSigned_spec|(key & ? & ?)%someSigned_spec]; exists key; rewrite Hu; set_solver.
  - apply orb_false_iff in Es as [Es1 Es2].
    assert (∀ k, k ∈ ownKeys → k ∉ dom (sigsOf (bhp vc) v) ∧ k ∉ dom (sigsOf (nilBox vc) v)) as Hfresh.
    { intros k Hk. unfold ownKeys in Hk. apply elem_of_list_to_set, list_elem_of_filter in Hk as [_ (key & -> & Hin)%list_elem_of_fmap_1].
      split; intros Hx; [apply not_true_iff_false in Es1; apply Es1|apply not_true_iff_false in Es2; apply Es2]; apply someSigned_spec; eauto. }
    destruct (ownPrepared BlockVerifier orderMsgs log n) as [[p|] log1] eqn:Ep; destruct (ownPrepared_prepared _ _ _ _ Hlog Ep) as [Hl1 Hp].
    + set (h := toBytes 32 (BlockHash p) ++ Payload p) in *. specialize (Hp p eq_refl). fold h in Hp.
      set (vc1 := if isM1PayloadEmpty _ then _ else _).
      assert (viewIDs vc1 = viewIDs vc ∧ bhp vc1 = foldl (addOwn members v h) (bhp vc) privKeys ∧ nilBox vc1 = nilBox vc) as (E1 & E2 & E3)
        by (unfold vc1; by destruct (isM1PayloadEmpty _)).
      rewrite E1. assert (someSigned privKeys (sigsOf (viewIDs vc) v) = false)  as -> by (by apply (unsigned vc)).
      cbn [fst snd]. split; [|done]. split; cbn [withViewIDs bhp nilBox viewIDs m1Payload]; rewrite ?E2, ?E3; [|done|done| | |].
      * by eapply (addOwns_dom (λ _ _ _, True) (bhp vc) v h v).
      * intros v'. rewrite (proj2 (addOwns_dom _ (viewIDs vc) v (le64 v) v' Hi (Hown le64))).
        rewrite (proj2 (addOwns_dom (λ _ _ _, True) (bhp vc) v h v' Hb ltac:(done))), Hu. set_solver.
      * intros v'. rewrite (proj2 (addOwns_dom (λ _ _ _, True) (bhp vc) v h v' Hb ltac:(done))). specialize (Hd v'). case_decide; subst; set_solver.
      * unfold vc1. destruct (isM1PayloadEmpty _); [by intros _|exact Hm].
    + cbn [withNil viewIDs]. assert (someSigned privKeys (sigsOf (viewIDs vc) v) = false)  as -> by (by apply (unsigned vc)).
      cbn [fst snd]. split; [|done]. split; cbn [withViewIDs withNil bhp nilBox viewIDs m1Payload]; [done| |done| | |done].
      * by eapply (addOwns_dom _ (nilBox vc) v NIL v); [|intros; apply (Hown (λ _, NIL))].
      * intros v'. rewrite (proj2 (addOwns_dom _ (viewIDs vc) v (le64 v) v' Hi (Hown le64))).
        rewrite (proj2 (addOwns_dom _ (nilBox vc) v NIL v' Hn (Hown (λ _, NIL)))), Hu. set_solver.
      * intros v'. rewrite (proj2 (addOwns_dom _ (nilBox vc) v NIL v' Hn (Hown (λ _, NIL)))). specialize (Hd v'). case_decide; subst; set_solver.
Qed.

Lemma VerifyNewViewMsg_inv vc log m :
  vcInv vc → logPrepared log → let r := VerifyNewViewMsg BlockVerifier vc log m in vcInv r.1.2 ∧ logPrepared r.2.
Proof.
  intros Hvc Hl. assert (∀ n, vcInv (withNewView vc n)) as Hn by (intros n; destruct Hvc; by split). unfold VerifyNewViewMsg.
  destruct (M3AggSig m) as [m3|]; [|done]. destruct (M3Bitmap m) as [k3|]; [|done]. destruct (SenderPubkeys m) as [|sender ?]; [done|].
  set (vc1 := withNewView vc _). specialize (Hn (newViewMsg vc1)). change (withNewView vc (newViewMsg vc1)) with vc1 in Hn. clearbody vc1.
  destruct (negb (VerifyHash m3 _ _)); [done|]. destruct (match M2AggSig m with Some _ => _ | None => _ end); [|done|done].
  destruct (isM1 m); [|done]. destruct (decodeBlock (msgBlock m)) as [b|]; [|done]. destruct (negb (bool_decide _)); [done|].
  destruct (VerifyBlock BlockVerifier log b) as [log1|] eqn:Ev; [|done]. split; [done|by eapply VerifyBlock_logPrepared].
Qed.

(** The states of a node's view change, with its log: between the steps the log may become any
    log whose prepared messages are certified or [Logged]. *)
Inductive vcReach : viewChange G Sg → Log → Prop :=
| reach_reset log : logPrepared log → vcReach ResetVC log
| reach_key vc log v : vcReach vc log → vcReach (AddViewIDKeyIfNotExist vc v members) log
| reach_init vc log v n : vcReach vc log →
    vcReach (InitPayload BlockVerifier orderMsgs vc log v n privKeys members).1 (InitPayload BlockVerifier orderMsgs vc log v n privKeys members).2
| reach_msg vc log m : vcReach vc log → checkedMsg m →
    vcReach (ProcessViewChangeMsg BlockVerifier vc log d m).1.2 (ProcessViewChangeMsg BlockVerifier vc log d m).2
| reach_newview vc log m : vcReach vc log →
    vcReach (VerifyNewViewMsg BlockVerifier vc log m).1.2 (VerifyNewViewMsg BlockVerifier vc log m).2
| reach_log vc log log' : vcReach vc log → logPrepared log' → vcReach vc log'.

Lemma vcReach_inv vc log : vcReach vc log → vcInv vc ∧ logPrepared log.
Proof.
  induction 1 as [log Hl|vc log v _ [IH ?]|vc log v n _ [IH ?]|vc log m _ [IH ?] Hm|vc log m _ [IH ?]|vc log log' _ [IH ?] Hl].
  - split; [apply Reset_inv|done].
  - split; [by apply AddViewIDKey_inv|done].
  - by apply InitPayload_inv.
  - by apply ProcessViewChangeMsg_inv.
  - by apply VerifyNewViewMsg_inv.
  - by split.
Qed.

(** The mask of a view, read at the position of a member. *)
Lemma boxInv_bit P (b : box G Sg) v mask j key :
  boxInv members P b → bxBitmap b !! v = Some mask → members !! j = Some key →
  IndexEnabled mask (Z.of_nat j) = Ok (bool_decide (is_Some (sigsOf b v !! Bytes key))).
Proof.
  intros Hb Hg Hj. destruct (Hb v) as [Hmk _]. rewrite Hg in Hmk. destruct Hmk as (HI & Hp & _ & Hbit).
  rewrite IndexEnabled_bitAt by (rewrite ?Hp; eauto using lookup_lt_Some). rewrite (Hbit j key Hj). f_equal.
  apply bool_decide_ext. by rewrite elem_of_dom.
Qed.

(** C18: In every reachable state of a view change, whatever prepared messages come into the log, a
    key that voted for a view voted once: for a prepared block or for nil, never both; each of
    the three masks of the view marks exactly the members whose signatures are kept in its map;
    and a prepared payload that the new leader will send carries a quorum certificate, unless it
    is that of a prepared message that another handler had put into the log. *)
Theorem viewchange_votes vc log v :
  vcReach vc log →
  (∀ k, is_Some (sigsOf (viewIDs vc) v !! k) ↔ is_Some (sigsOf (bhp vc) v !! k) ∨ is_Some (sigsOf (nilBox vc) v !! k))
  ∧ (∀ k, ¬ (is_Some (sigsOf (bhp vc) v !! k) ∧ is_Some (sigsOf (nilBox vc) v !! k)))
  ∧ (∀ b mask j key, b = bhp vc ∨ b = nilBox vc ∨ b = viewIDs vc → bxBitmap b !! v = Some mask → members !! j = Some key →
       IndexEnabled mask (Z.of_nat j) = Ok (bool_decide (is_Some (sigsOf b v !! Bytes key))))
  ∧ (m1Payload vc ≠ [] → certified (m1Payload vc) ∨ ∃ m, Logged m ∧ MessageType m = PREPARED ∧ m1Payload vc = toBytes 32 (BlockHash m) ++ Payload m).
Proof.
  intros [[Hb Hn Hi Hu Hd Hm] _]%vcReach_inv. split_and!; [| | |done].
  - intros k. rewrite <-!elem_of_dom, Hu. set_solver.
  - intros k. rewrite <-!elem_of_dom. specialize (Hd v). set_solver.
  - intros b mask j key [->|[->| ->]]; by eapply boxInv_bit.
Qed.

(** The payload and block that a leader sends. *)
Lemma prepared_on_wire `{!BlockLaws} vc log payload enc :
  logInv log → (m1Payload vc ≠ [] → certified (m1Payload vc)) → default ([], []) (GetPreparedBlock vc log) = (payload, enc) →
  ((ValidPayloadLength <=? length payload)%nat && negb (match enc with [] => true | _ => false end) = false ∧ GetPreparedBlock vc log = None) ∨
  ((ValidPayloadLength <=? length payload)%nat && negb (match enc with [] => true | _ => false end) = true ∧
   ∃ b, decodeBlock enc = Some b ∧ toBytes 32 (hashOf b) = take 32 payload ∧ payload = m1Payload vc).
Proof.
  intros Hlog Hm Egp. destruct (GetPreparedBlock vc log) as [[p e]|] eqn:Eg; cbn in Egp; injection Egp as <- <-; [|by left]. right.
  unfold GetPreparedBlock in Eg. destruct (isM1PayloadEmpty vc) eqn:Ee; [done|]. apply bind_Some in Eg as (b & Eb & Ex).
  assert (m1Payload vc ≠ []) as Hne by (intros Hnil; unfold isM1PayloadEmpty in Ee; by rewrite Hnil in Ee).
  destruct (encodeBlock b) as [[|x e']|] eqn:Een; [done| |done]. injection Ex as <- <-.
  destruct (decodeBlock_hash b _ Een) as (b' & Edec & Eh). destruct (Hm Hne) as (Hbytes & agg & mask & Er & _ & _).
  assert (128 ≤ length (m1Payload vc))%nat as Hlen.
  { apply bind_Some in Er as (sb & Ep & _). unfold ParseCommitSigAndBitmap in Ep.
    destruct (Nat.ltb_spec (length (drop 32 (m1Payload vc))) BLSSignatureSizeInBytes) as [|Hge]; [done|]. rewrite length_drop in Hge. unfold BLSSignatureSizeInBytes in Hge. lia. }
  assert ((ValidPayloadLength <=? length (m1Payload vc))%nat = true) as -> by (apply Nat.leb_le; exact Hlen). split; [done|]. exists b'. split_and!; [done| |done].
  rewrite Eh, <-(li_blocks _ Hlog _ _ Eb). pose proof (toBytes_bytesToHash (take 32 (m1Payload vc)) Hbytes) as Ht.
  rewrite length_take_le in Ht by lia. exact Ht.
Qed.

(** The masks that are read from a bitmap of the box. *)
Lemma parsed_aggregate h (b : box G Sg) v r :
  boxInv members (signedBy members h) b → parseAggregate members ((λ sb : Sg * bytes, (sigToBytes sb.1, sb.2)) <$> getBitmap b v) = Some r →
  match r with
  | None => dom (sigsOf b v) = ∅
  | Some (s, mask) => is_Some (getBitmap b v) ∧ (∃ bm, SetMask (newMask members) bm = Ok mask) ∧ marks members mask (dom (sigsOf b v)) ∧ VerifyHash s (AggregatePublic mask) (h v) = true
  end.
Proof.
  intros Hb E. destruct (getBitmap b v) as [[agg bm]|] eqn:Eg; cbn in E.
  - destruct (getBitmap_verifies _ members_distinct _ _ _ _ _ Hb Eg) as (mask & Em & Hm & Hv). unfold DecodeSigBitmap in E. rewrite sigOf_sigTo, Em in E.
    injection E as <-. split_and!; eauto.
  - injection E as <-. unfold getBitmap in Eg. destruct (Hb v) as [Hmk _]. destruct (map_to_list (sigsOf b v)) as [|x l] eqn:El; [by rewrite (proj1 (map_to_list_empty_iff _) El), dom_empty_L|].
    destruct (bxBitmap b !! v); [done|]. rewrite Hmk. apply dom_empty_L.
Qed.

(** What a validator reads in the new-view message of a leader. *)
Lemma newView_message `{!BlockLaws} keyOf vc log v n leader r m :
  vcReach vc log → logInv log → (m1Payload vc ≠ [] → certified (m1Payload vc)) →
  constructNewViewMessage vc log v n leader = Some r → ParseNewViewMessage keyOf r members = Some m →
  (ViewID m = v ∧ BlockNum m = n ∧ ∃ pk, keyOf (Bytes (Pub leader)) = Some pk ∧ SenderPubkeys m = [mkPublicKeyWrapper (Bytes (Pub leader)) pk])
  ∧ (∃ s3 mask3, M3AggSig m = Some s3 ∧ M3Bitmap m = Some mask3 ∧ (∃ bm, SetMask (newMask members) bm = Ok mask3)
       ∧ marks members mask3 (dom (sigsOf (viewIDs vc) v)) ∧ VerifyHash s3 (AggregatePublic mask3) (le64 v) = true)
  ∧ ((M2AggSig m = None ∧ M2Bitmap m = None ∧ dom (sigsOf (nilBox vc) v) = ∅)
     ∨ ∃ s2 mask2, M2AggSig m = Some s2 ∧ M2Bitmap m = Some mask2 ∧ (∃ bm, SetMask (newMask members) bm = Ok mask2)
         ∧ marks members mask2 (dom (sigsOf (nilBox vc) v)) ∧ VerifyHash s2 (AggregatePublic mask2) NIL = true)
  ∧ match GetPreparedBlock vc log with
    | None => isM1 m = false
    | Some _ => isM1 m = true ∧ Payload m = m1Payload vc ∧ ∃ b, decodeBlock (msgBlock m) = Some b ∧ toBytes 32 (hashOf b) = take 32 (m1Payload vc)
    end.
Proof.
  intros [Hvc _]%vcReach_inv Hlog Hm1 Hc Hp. destruct Hvc as [Hb Hn Hi Hu Hd _].
  unfold constructNewViewMessage in Hc. destruct (default ([], []) (GetPreparedBlock vc log)) as [payload enc] eqn:Egp.
  apply bind_Some in Hc as (sb3 & E3 & [= <-]). unfold ParseNewViewMessage in Hp. cbn [vrSenderPubkey vrM3 vrM2 vrPayload vrPreparedBlock vrViewId vrBlockNum] in Hp.
  apply bind_Some in Hp as (pk & Hpk & Hp). apply bind_Some in Hp as (r3 & Er3 & Hp). apply bind_Some in Hp as (r2 & Er2 & [= <-]).
  assert (parseAggregate members ((λ sb : Sg * bytes, (sigToBytes sb.1, sb.2)) <$> getBitmap (viewIDs vc) v) = Some r3) as Er3' by (unfold GetM3Bitmap in E3; rewrite E3; exact Er3).
  apply (parsed_aggregate le64) in Er3'; [|done]. apply (parsed_aggregate (λ _, NIL)) in Er2; [|done].
  assert (∃ x, r3 = Some x) as [[s3 mask3] ->].
  { unfold parseAggregate in Er3. cbn in Er3. apply bind_Some in Er3 as (x & _ & [= <-]). eauto. }
  destruct Er3' as (_ & Hbm3 & Hmk3 & Hv3).
  cbn [ViewID BlockNum SenderPubkeys M3AggSig M3Bitmap M2AggSig M2Bitmap msgBlock Payload fmap option_fmap option_map fst snd]. split_and!; try done.
  - by exists pk.
  - exists s3, mask3. by split_and!.
  - destruct r2 as [[s2 mask2]|]; [right|by left]. destruct Er2 as (_ & ? & ? & ?). exists s2, mask2. by split_and!.
  - destruct (prepared_on_wire vc log payload enc Hlog Hm1 Egp) as [[He Hnone]|(He & b & Hdec & Hh & ->)]; [by rewrite Hnone|].
    destruct (GetPreparedBlock vc log) as [[p e]|]; [|cbn in Egp; injection Egp as Hp1 <-; rewrite <-Hp1 in He; discriminate He]. split; [exact He|]. split; [done|]. by exists b.
Qed.
End votes.

(** ** A concrete committee

    Four members over a toy group of two elements: a signature is the key itself. *)
Definition boolKey : BlsKey bool := {| keyZero := false; keyAdd := xorb; keySub := xorb |}.
Definition boolSign : BlsSign bool := {|
  sigZero := false; sigAdd := xorb;
  SerializeSig s := [if s then 1 else 0]; DeserializeSig b := match b with [1] => true | _ => false end; |}.
Definition boolCrypto : BlsCrypto bool bool := {|
  SecretKey := bool; VerifyHash s k _ := Bool.eqb s k; SignHash k _ := k;
  sigOfBytes b := match drop 95 b with [1] => Some true | [0] => Some false | _ => None end;
  sigToBytes s := replicate 95 0 ++ [if s then 1 else 0]; |}.
#[local] Existing Instances boolKey boolSign boolCrypto demoLib.
Lemma boolKey_laws : BlsKeyLaws bool.
Proof. split; [intros [] []|intros [] [] []|intros []|intros [] []]; reflexivity. Qed.
Lemma boolSign_laws : BlsSignLaws bool.
Proof. split; [intros [] []|intros [] [] []|intros []|intros []]; reflexivity. Qed.
Lemma boolCrypto_laws : BlsCryptoLaws bool bool.
Proof. split; [reflexivity|intros [] [] [] [] h; try discriminate; reflexivity|intros []; reflexivity|intros []; reflexivity]. Qed.
#[local] Existing Instances boolKey_laws boolSign_laws boolCrypto_laws.

Definition demoMember (k : Z) : PublicKeyWrapper bool := mkPublicKeyWrapper k true.
Definition demoDecider : Decider bool :=
  mkDecider (demoMember <$> [11; 12; 13; 14])
    (λ m, match m with Some m => match CountEnabled m with Some n => 3 <=? n | None => false end | None => false end).
Definition demoOwn : list (PrivateKeyWrapper bool bool) := [mkPrivateKeyWrapper true (demoMember 11)].
Definition demoOrderB (ms : gmap bytes (FBFTMessage bool bool)) : list (FBFTMessage bool bool) := (map_to_list ms).*2.
(** The certificate of a hash: three signatures. *)
Definition demoCert (h : Z) : bytes := toBytes 32 h ++ (replicate 95 0 ++ [1]) ++ [7].
Definition demoVote (view k : Z) (payload blk : bytes) : FBFTMessage bool bool :=
  mkFBFTMessage VIEWCHANGE view 5 0 blk [demoMember k] [] (Some (demoMember 11)) payload (Some true) (Some true) None None None None false.
Definition demoPrepLog : FBFTLog bool bool :=
  AddVerifiedMessage (AddBlock NewFBFTLog (demoBlock 5)) (preparedFrom 7 5 (demoCert 5007) [demoMember 11]).

Definition afterInit := InitPayload (λ _, true) demoOrderB (AddViewIDKeyIfNotExist ResetVC 9 (dParticipants demoDecider)) demoPrepLog 9 5 demoOwn (dParticipants demoDecider).
Definition afterVote := ProcessViewChangeMsg (λ _, true) afterInit.1 afterInit.2 demoDecider (demoVote 9 12 [] []).
Definition afterVotes := ProcessViewChangeMsg (λ _, true) afterVote.1.2 afterVote.2 demoDecider (demoVote 9 13 (demoCert 5007) [5; 0; 7; 0]).

Lemma demoCert_certified : certified demoDecider (demoCert 5007).
Proof.
  split; [refine (bool_decide_unpack _ _); vm_compute; exact I|].
  eexists true, _. split; [vm_compute; reflexivity|split; vm_compute; reflexivity].
Qed.

Lemma demoPrepLog_prepared : logPrepared demoDecider (λ _, False) demoPrepLog.
Proof.
  apply logPrepared_add; [|intros _; left; exact demoCert_certified].
  intros m [i Hi]. cbn in Hi. rewrite lookup_empty in Hi. discriminate Hi.
Qed.

Lemma demoDecider_distinct : NoDup (Bytes <$> dParticipants demoDecider).
Proof. refine (bool_decide_unpack _ _). vm_compute. exact I. Qed.
Lemma demoOwn_members key : key ∈ demoOwn → Bytes (Pub key) ∈ Bytes <$> dParticipants demoDecider → Pub key ∈ dParticipants demoDecider.
Proof. intros ->%list_elem_of_singleton _. by left. Qed.
Lemma demoOwn_signs key h : key ∈ demoOwn → VerifyHash (SignHash (Pri key) h) (Object (Pub key)) h = true.
Proof. intros ->%list_elem_of_singleton. reflexivity. Qed.

Lemma demoVotes_reached : vcReach (λ _, true) demoOrderB demoDecider demoOwn (λ _, False) afterVotes.1.2 afterVotes.2.
Proof.
  assert (∀ k p blk, k ∈ [11; 12; 13; 14] → Forall isByte p → checkedMsg demoDecider (demoVote 9 k p blk)) as Hc.
  { intros k p blk Hk Hp. split; [by apply Forall_take|]. intros sender sig Hs Hv. injection Hs as <-. injection Hv as <-.
    split; [|reflexivity]. apply (list_elem_of_fmap_2 demoMember). exact Hk. }
  apply reach_msg; [apply reach_msg; [apply reach_init, reach_key, reach_reset, demoPrepLog_prepared|]|].
  - apply Hc; [right; by left|constructor].
  - apply Hc; [do 2 right; by left|]. refine (bool_decide_unpack _ _). vm_compute. exact I.
Qed.

Lemma viewchange_votes_witness :
  is_Some (sigsOf (viewIDs afterVotes.1.2) 9 !! 12) ∧ certified demoDecider (m1Payload afterVotes.1.2).
Proof.
  destruct (viewchange_votes (λ _, true) demoOrderB ltac:(intros; reflexivity) demoDecider demoOwn demoDecider_distinct demoOwn_members demoOwn_signs
    (λ _, False) _ _ 9 demoVotes_reached) as (_ & _ & _ & Hm).
  split; [vm_compute; eexists; reflexivity|]. destruct Hm as [Hc|(m & [] & _)]; [vm_compute; discriminate|exact Hc].
Defined.

(** ** Signatures over the integers

    A signature is the secret key times a hash of the message. *)
Definition hashZ (h : bytes) : Z := 1 + bytesToHash h.
Definition zCrypto : BlsCrypto Z Z := {|
  SecretKey := Z; VerifyHash s k h := s =? k * hashZ h; SignHash k h := k * hashZ h;
  sigOfBytes b := head b; sigToBytes s := s :: replicate 95 0; |}.
Lemma zCrypto_laws : @BlsCryptoLaws Z Z Z_BlsKey Z_BlsSign zCrypto.
Proof.
  split; [intros h; reflexivity| |reflexivity|reflexivity]. cbn. intros s1 s2 k1 k2 h ->%Z.eqb_eq ->%Z.eqb_eq. apply Z.eqb_eq. lia.
Qed.
