(* ===== verification/Engine.v ===== *)
(** * The engine: headers, epoch contexts and aggregate signatures (internal/chain/engine.go)

    A block is final when the next header carries an aggregate signature of a quorum of its
    committee on its commit payload.  The engine checks it for headers of its own chain, for
    headers received from other shards and for cross links, the summaries that the beacon chain
    keeps of the other shards (core/types/crosslink.go, node/node_cross_link.go).  It keeps the
    committee of an epoch and the signatures it has verified in two bounded caches.

    The cache of golang-lru is the interface [Cache], with an instance that evicts the least
    recently used entry.  The chain is [ChainReader]; the committee of another shard is computed
    as in [Committee.v].  Hashes of headers and the proofs of the verifiable random function are
    those of libraries. *)

From Stdlib Require Import ZArith Lia.
From stdpp Require Import base gmap list option sets.
From S2P Require Import Prelude Decimal Mask ShardState Votepower Quorum Effective Staking Committee FBFTLog ViewChange.
Local Open Scope Z_scope.

(** ** Caches ([lru.Cache]) *)
Class Cache (C K V : Type) := {
  (** The value, and the cache with the entry moved to the front. *)
  cacheGet : C → K → option V * C;
  cacheAdd : C → K → V → C;
}.

(** What the engine relies on: an entry is one that was added, and an entry just added is there. *)
Class CacheLaws (C K V : Type) `{CA : Cache C K V} := {
  cacheHas : C → K → V → Prop;
  cacheGet_has c k v : (cacheGet c k).1 = Some v → cacheHas c k v;
  cacheHas_get c k : (∃ v, cacheHas c k v) → is_Some (cacheGet c k).1;
  cacheGet_keeps c k k' v' : cacheHas (cacheGet c k).2 k' v' ↔ cacheHas c k' v';
  cacheAdd_has c k v : cacheHas (cacheAdd c k v) k v;
  cacheAdd_only c k v k' v' : cacheHas (cacheAdd c k v) k' v' → (k' = k ∧ v' = v) ∨ cacheHas c k' v';
}.

(** ** Headers and cross links *)
Record Header := mkHeader {
  hdParentHash : Hash; hdNumber : Z; hdEpoch : Z; hdViewID : Z; hdShardID : Z; hdCoinbase : Address;
  (** The aggregate signature on the parent and the bitmap of its signers. *)
  hdLastCommitSignature : bytes; hdLastCommitBitmap : bytes;
  hdShardState : bytes; hdVrf : bytes; hdCrossLinks : bytes;
  (** The roots of the cross-shard receipts that leave and enter with the block. *)
  hdOutgoingReceiptHash : Hash; hdIncomingReceiptHash : Hash;
}.
Definition hdIsLastBlockInEpoch (h : Header) : bool := match hdShardState h with [] => false | _ => true end.

Record CrossLink := mkCrossLink {
  HashF : Hash; BlockNumberF : Z; ViewIDF : Z; SignatureF : bytes; BitmapF : bytes; ShardIDF : Z; EpochF : Z;
}.
Definition clBlockNum (cl : CrossLink) : Z := u64 (BlockNumberF cl).

Definition NewCrossLink (header : Header) (parentHeader : option Header) : CrossLink :=
  mkCrossLink (hdParentHash header)
    (match parentHeader with Some p => hdNumber p | None => 0 end) (match parentHeader with Some p => hdViewID p | None => 0 end)
    (hdLastCommitSignature header) (hdLastCommitBitmap header) (hdShardID header)
    (match parentHeader with Some p => hdEpoch p | None => 0 end).

#[global] Instance CrossLink_eq_dec : EqDecision CrossLink.
Proof. solve_decision. Defined.

(** The order of cross links.  Its third case compares pointers to big integers, which differ for
    two elements of a slice. *)
Definition crossLinkLess (a b : CrossLink) : bool :=
  (ShardIDF a <? ShardIDF b) || ((ShardIDF a =? ShardIDF b) && (BlockNumberF a <? BlockNumberF b)).
(** [sort.SliceIsSorted]: no element is less than its predecessor. *)
Fixpoint IsSorted (cls : list CrossLink) : bool :=
  match cls with
  | a :: (b :: _) as rest => negb (crossLinkLess b a) && IsSorted rest
  | _ => true
  end.

(** ** What a signature is checked against *)
Record payloadArgs := mkPayloadArgs { paBlockHash : Hash; paShardID : Z; paEpoch : Z; paNumber : Z; paViewID : Z }.
Record sigArgs := mkSigArgs { saSig : bytes; saBitmap : bytes }.
Record epochCtxKey := mkEpochCtxKey { ekShardID : Z; ekEpoch : Z }.
Record epochCtx (G : Type) := mkEpochCtx { qrVerifier : stakeVerifier + uniformVerifier; pubKeys : list (PublicKeyWrapper G) }.
Arguments mkEpochCtx {G}.
Arguments qrVerifier {G}.
Arguments pubKeys {G}.

Definition bitmapKeyBytes : nat := 64.
Record verifiedSigKey := mkVerifiedSigKey { vkBlockHash : Hash; vkSignature : bytes; vkBitmap : bytes }.
#[global] Instance epochCtxKey_eq_dec : EqDecision epochCtxKey.
Proof. solve_decision. Defined.
#[global] Instance verifiedSigKey_eq_dec : EqDecision verifiedSigKey.
Proof. solve_decision. Defined.

Definition newVerifiedSigKey (blockHash : Hash) (sig bitmap : bytes) : verifiedSigKey :=
  mkVerifiedSigKey blockHash sig (copyTo bitmapKeyBytes bitmap).

Definition payloadArgsFromCrossLink (cl : CrossLink) : payloadArgs :=
  mkPayloadArgs (HashF cl) (ShardIDF cl) (EpochF cl) (u64 (BlockNumberF cl)) (u64 (ViewIDF cl)).

Inductive engineError :=
| ErrUnknownAncestor | errNilHeader | errNoParent | errComputeShardState (e : committeeError) | errReadState | errFindCommittee
| errPublicKeys | errVerifier (e : quorumError) | errDeserializeSig | errNotEnough | errAggregate | errCrossLinkNumber | errNotCrossLinkEpoch
| errShardID | errSuperCommittee | errEncodeState | errStateMismatch | errVrfFormat | errVrfEarly | errLeaderKey | errVrfProof | errVrfHash
| errDecodeCrossLinks | errUnsorted | errAlreadyExist | errNotBeacon.

(** ** The chain *)
Class HeaderLib := { headerHash : Header → Hash }.

Record ChainReader := mkChainReader {
  crShardID : Z;
  (** [CurrentHeader()] *)
  crCurrent : Header;
  crProvider : DataProvider;
  crIsCrossLink : Z → bool;
  crIsVRF : Z → bool;
  GetHeader : Hash → Z → option Header;
  GetHeaderByNumber : Z → option Header;
  (** [shard.Schedule.IsLastBlock] *)
  crIsLastBlock : Z → bool;
}.

Section engine.
Context {G Sg C1 C2 : Type} `{BK : BlsKey G, BS : BlsSign Sg, BC : !BlsCrypto G Sg, GL : GenesisLib, SC : Schedule, HL : HeaderLib}.
Context `{CE : !Cache C1 epochCtxKey (epochCtx G), CV : !Cache C2 verifiedSigKey unit}.
Context (isTestnet : bool) (BytesToBLSPublicKey : SerializedPublicKey → option G).

Record engineImpl := mkEngine { epochCtxCache : C1; verifiedSigCache : C2 }.

Definition payloadArgsFromHeader (h : Header) : payloadArgs :=
  mkPayloadArgs (headerHash h) (hdShardID h) (hdEpoch h) (u64 (hdNumber h)) (u64 (hdViewID h)).
Definition constructPayload (chain : ChainReader) (args : payloadArgs) : bytes :=
  ConstructCommitPayload (IsStaking (crProvider chain) (paEpoch args)) (paBlockHash args) (paNumber args) (paViewID args).

(** ** The committee of an epoch *)
Definition needRecalculateStateShard (chain : ChainReader) (epoch targetShardID : Z) : bool :=
  if IsStaking (crProvider chain) epoch then false else negb (targetShardID =? crShardID chain).

(** The committee is computed only before staking, where [Compute] does not write to the chain. *)
Definition readShardState (chain : ChainReader) (epoch targetShardID : Z) : result engineError State :=
  if needRecalculateStateShard chain epoch targetShardID then
    match ComputeCommittee epoch (Some (crProvider chain)) with
    | Ok (ss, _) => Ok ss
    | Err e => Err (errComputeShardState e)
    | Panic => Panic
    end
  else match ReadShardState (crProvider chain) epoch with Some ss => Ok ss | None => Err errReadState end.

Definition readEpochCtxFromChain (chain : ChainReader) (key : epochCtxKey) : result engineError (epochCtx G) :=
  ss ← readShardState chain (ekEpoch key) (ekShardID key);
  match FindCommitteeByID (Some ss) (ekShardID key) with
  | inl _ => Err errFindCommittee
  | inr shardComm =>
      match BLSPublicKeys BytesToBLSPublicKey (Some shardComm) with
      | inl _ => Err errPublicKeys
      | inr keys =>
          match NewVerifier InstanceForEpoch isTestnet BytesToBLSPublicKey shardComm (Some (ekEpoch key)) (IsStaking (crProvider chain) (ekEpoch key)) with
          | Ok v => Ok (mkEpochCtx v keys)
          | Err e => Err (errVerifier e)
          | Panic => Panic
          end
      end
  end.

Definition getEpochCtxCached (chain : ChainReader) (e : engineImpl) (shardID epoch : Z) : result engineError (epochCtx G) * engineImpl :=
  let ecKey := mkEpochCtxKey shardID epoch in
  let '(cached, c1) := cacheGet (epochCtxCache e) ecKey in
  match cached with
  | Some ec => (Ok ec, mkEngine c1 (verifiedSigCache e))
  | None =>
      match readEpochCtxFromChain chain ecKey with
      | Ok ec => (Ok ec, mkEngine (cacheAdd c1 ecKey ec) (verifiedSigCache e))
      | Err er => (Err er, mkEngine c1 (verifiedSigCache e))
      | Panic => (Panic, mkEngine c1 (verifiedSigCache e))
      end
  end.

(** ** Verification *)
Definition verifierQuorum (v : stakeVerifier + uniformVerifier) (mask : Mask G) : option bool :=
  match v with
  | inl sv => stakeVerifierIsQuorumAchievedByMask sv (Some mask)
  | inr uv => uniformVerifierIsQuorumAchievedByMask uv (Some mask)
  end.

(** The part of [verifySignature] after the context was read. *)
Definition verifyWith (chain : ChainReader) (ec : epochCtx G) (pas : payloadArgs) (sas : sigArgs) : result engineError unit :=
  match DecodeSigBitmap (saSig sas) (saBitmap sas) (pubKeys ec) with
  | None => Err errDeserializeSig
  | Some (aggSig, mask) =>
      match verifierQuorum (qrVerifier ec) mask with
      | None => Panic
      | Some q =>
          if negb q then Err errNotEnough
          else if VerifyHash aggSig (AggregatePublic mask) (constructPayload chain pas) then Ok tt else Err errAggregate
      end
  end.
Definition verifySignature (chain : ChainReader) (e : engineImpl) (pas : payloadArgs) (sas : sigArgs) : result engineError unit * engineImpl :=
  match getEpochCtxCached chain e (paShardID pas) (u64 (paEpoch pas)) with
  | (Ok ec, e1) => (verifyWith chain ec pas sas, e1)
  | (Err er, e1) => (Err er, e1)
  | (Panic, e1) => (Panic, e1)
  end.

Definition verifySignatureCached (chain : ChainReader) (e : engineImpl) (pas : payloadArgs) (sas : sigArgs) : result engineError unit * engineImpl :=
  let verifiedKey := newVerifiedSigKey (paBlockHash pas) (saSig sas) (saBitmap sas) in
  let '(cached, c2) := cacheGet (verifiedSigCache e) verifiedKey in
  let e0 := mkEngine (epochCtxCache e) c2 in
  match cached with
  | Some _ => (Ok tt, e0)
  | None =>
      match verifySignature chain e0 pas sas with
      | (Ok _, e1) => (Ok tt, mkEngine (epochCtxCache e1) (cacheAdd (verifiedSigCache e1) verifiedKey tt))
      | r => r
      end
  end.

Definition VerifyHeaderSignature (chain : ChainReader) (e : engineImpl) (header : Header) (commitSig commitBitmap : bytes)
    : result engineError unit * engineImpl :=
  if u64 (hdNumber (crCurrent chain)) <=? 1 then (Ok tt, e)
  else verifySignatureCached chain e (payloadArgsFromHeader header) (mkSigArgs commitSig commitBitmap).

Definition VerifyCrossLink (chain : ChainReader) (e : engineImpl) (cl : CrossLink) : result engineError unit * engineImpl :=
  if clBlockNum cl <=? 1 then (Err errCrossLinkNumber, e)
  else if negb (crIsCrossLink chain (EpochF cl)) then (Err errNotCrossLinkEpoch, e)
  else verifySignatureCached chain e (payloadArgsFromCrossLink cl) (mkSigArgs (SignatureF cl) (BitmapF cl)).

Definition VerifySeal (chain : ChainReader) (e : engineImpl) (header : option Header) : result engineError unit * engineImpl :=
  if u64 (hdNumber (crCurrent chain)) <=? 1 then (Ok tt, e)
  else match header with
       | None => (Err errNilHeader, e)
       | Some h =>
           match GetHeader chain (hdParentHash h) (u64 (u64 (hdNumber h) - 1)) with
           | None => (Err errNoParent, e)
           | Some parentHeader =>
               verifySignatureCached chain e (payloadArgsFromHeader parentHeader) (mkSigArgs (hdLastCommitSignature h) (hdLastCommitBitmap h))
           end
       end.

Definition VerifyHeader (chain : ChainReader) (e : engineImpl) (header : Header) (seal : bool) : result engineError unit * engineImpl :=
  match GetHeader chain (hdParentHash header) (u64 (u64 (hdNumber header) - 1)) with
  | None => (Err ErrUnknownAncestor, e)
  | Some _ => if seal then VerifySeal chain e (Some header) else (Ok tt, e)
  end.

(** ** The leader of a header and the randomness it proposes *)
Context (keyAddress : G → Address).

(** [utils.GetAddressFromBLSPubKeyBytes] *)
Definition GetAddressFromBLSPubKeyBytes (key : SerializedPublicKey) : Address :=
  match BytesToBLSPublicKey key with Some k => keyAddress k | None => 0 end.

Fixpoint leaderLoop (isStaking : bool) (coinbase : Address) (slots : list Slot) : result engineError (PublicKeyWrapper G) :=
  match slots with
  | [] => Err errLeaderKey
  | member :: rest =>
      if (if isStaking then GetAddressFromBLSPubKeyBytes (BLSPublicKey member) else EcdsaAddress member) =? coinbase then
        match BytesToBLSPublicKey (BLSPublicKey member) with
        | Some committerKey => Ok (mkPublicKeyWrapper (BLSPublicKey member) committerKey)
        | None => Err errLeaderKey
        end
      else leaderLoop isStaking coinbase rest
  end.
Definition GetLeaderPubKeyFromCoinbase (chain : ChainReader) (h : Header) : result engineError (PublicKeyWrapper G) :=
  match ReadShardState (crProvider chain) (hdEpoch h) with
  | None => Err errReadState
  | Some shardState =>
      match FindCommitteeByID (Some shardState) (hdShardID h) with
      | inl _ => Err errFindCommittee
      | inr committee => leaderLoop (IsStaking (crProvider chain) (hdEpoch h)) (hdCoinbase h) (Slots committee)
      end
  end.

Definition vrfBeta : nat := 32.
Definition vrfProof : nat := 96.
(** [ProofToHash] of the verifiable random function. *)
Context (ProofToHash : G → bytes → bytes → option bytes).

Definition VerifyVRF (bc : ChainReader) (header : Header) : result engineError unit :=
  if negb (crShardID bc =? hdShardID header) then Err errShardID
  else if crIsVRF bc (hdEpoch header) && negb (length (hdVrf header) =? vrfBeta + vrfProof)%nat then Err errVrfFormat
  else if negb (crIsVRF bc (hdEpoch header)) then
    match hdVrf header with [] => Ok tt | _ => Err errVrfEarly end
  else
    leaderPubKey ← GetLeaderPubKeyFromCoinbase bc header;
    match GetHeaderByNumber bc (u64 (u64 (hdNumber header) - 1)) with
    | None => Err errNoParent
    | Some previousHeader =>
        match ProofToHash (Object leaderPubKey) (toBytes 32 (headerHash previousHeader)) (drop vrfBeta (hdVrf header)) with
        | None => Err errVrfProof
        | Some hash => if bool_decide (hash = take vrfBeta (hdVrf header)) then Ok tt else Err errVrfHash
        end
    end.

(** ** The shard state of the next epoch (core/blockchain.go, [SuperCommitteeForNextEpoch]) *)
Context `{SCo : StateCodec}.
Definition GetShardState (h : Header) : option State := DecodeWrapper (hdShardState h).
Definition noState : State := mkState None [] [].

(** [Compute] on a chain: the state, and the beacon chain whose cached object it may change. *)
Definition computeOn (epoch : Z) (provider : DataProvider) : result engineError (State * DataProvider) :=
  match ComputeCommittee epoch (Some provider) with
  | Ok (ss, p) => Ok (ss, default provider p)
  | Err er => Err (errComputeShardState er)
  | Panic => Panic
  end.
Definition readFromDB (epoch : Z) (provider : DataProvider) : result engineError (State * DataProvider) :=
  match ReadShardState provider epoch with Some ss => Ok (ss, provider) | None => Err errReadState end.

Definition SuperCommitteeForNextEpoch (bc beacon : ChainReader) (header : Header) (isVerify : bool) : result engineError (State * DataProvider) :=
  let unchanged := Ok (noState, crProvider beacon) in
  let nextEpoch := hdEpoch header + 1 in
  if hdShardID header =? BeaconChainShardID then
    if crIsLastBlock bc (u64 (hdNumber header)) then computeOn nextEpoch (crProvider beacon) else unchanged
  else
    match (if isVerify then match GetShardState header with Some ss => Some (default nextEpoch (Epoch ss)) | None => None end
           else Some (hdEpoch (crCurrent beacon))) with
    | None => Err errSuperCommittee
    | Some beaconEpoch =>
        if IsStaking (crProvider bc) nextEpoch then
          if hdEpoch header <? beaconEpoch then readFromDB beaconEpoch (crProvider beacon) else unchanged
        else if IsStaking (crProvider bc) beaconEpoch then readFromDB beaconEpoch (crProvider beacon)
        else if crIsLastBlock bc (u64 (hdNumber header)) then
          '(ss, _) ← computeOn nextEpoch (crProvider bc); Ok (ss, crProvider beacon)
        else unchanged
    end.

(** The error, and the provider of the beacon chain. *)
Definition VerifyShardState (bc beacon : ChainReader) (header : Header) : result engineError DataProvider :=
  if negb (crShardID bc =? hdShardID header) then Err errShardID
  else match hdShardState header with
       | [] => Ok (crProvider beacon)
       | headerShardStateBytes =>
           '(shardState, p) ← SuperCommitteeForNextEpoch bc beacon header true;
           let isStaking := match Epoch shardState with Some ep => IsStaking (crProvider bc) ep | None => false end in
           match EncodeWrapper shardState isStaking with
           | None => Err errEncodeState
           | Some shardStateBytes => if bool_decide (shardStateBytes = headerShardStateBytes) then Ok p else Err errStateMismatch
           end
       end.
End engine.

(** ** Cross links of the beacon chain (core/blockchain.go, node/node_cross_link.go) *)

(** RLP of cross links; [Serialize] ignores its error. *)
Class CrossLinkCodec := {
  Serialize : CrossLink → bytes;
  DeserializeCrossLink : bytes → option CrossLink;
  encodeCrossLinks : list CrossLink → option bytes;
  decodeCrossLinks : bytes → option (list CrossLink);
}.

(** The keys of the database, and the one entry of the cache of pending links.  A stored value
    is missing when it was never written or was deleted. *)
Record clStore := mkClStore {
  clShardBlock : gmap (Z * Z) bytes;
  clShardLast : gmap Z bytes;
  pendingCache : option (list CrossLink);
  pendingDB : bytes;
}.
Definition clKey (cl : CrossLink) : Z * Z := (ShardIDF cl, clBlockNum cl).

Section crosslinks.
Context `{CC : CrossLinkCodec}.
(** The iteration order of the map of pending links. *)
Context (orderLinks : gmap (Z * Z) CrossLink → list CrossLink).

Definition WriteCrossLinks (s : clStore) (cls : list CrossLink) : clStore :=
  mkClStore (foldl (λ m cl, <[clKey cl := Serialize cl]> m) (clShardBlock s) cls) (clShardLast s) (pendingCache s) (pendingDB s).
Definition DeleteCrossLinks (s : clStore) (cls : list CrossLink) : clStore :=
  mkClStore (foldl (λ m cl, delete (clKey cl) m) (clShardBlock s) cls) (clShardLast s) (pendingCache s) (pendingDB s).
Definition ReadCrossLink (s : clStore) (shardID blockNum : Z) : option CrossLink :=
  b ← clShardBlock s !! (shardID, blockNum); DeserializeCrossLink b.
Definition ReadShardLastCrossLink (s : clStore) (shardID : Z) : option CrossLink :=
  b ← clShardLast s !! shardID; DeserializeCrossLink b.

(** The loop of [LastContinuousCrossLink]; [None] is out of fuel. *)
Fixpoint continuousLoop (fuel : nat) (s : clStore) (shardID i : Z) (newLink : CrossLink) : option CrossLink :=
  match fuel with
  | O => None
  | S fuel' =>
      match ReadCrossLink s shardID i with
      | Some tmp => if clBlockNum tmp =? i then continuousLoop fuel' s shardID (u64 (i + 1)) tmp else Some newLink
      | None => Some newLink
      end
  end.
Definition LastContinuousCrossLink (fuel : nat) (s : clStore) (shardID : Z) : option clStore :=
  match ReadShardLastCrossLink s shardID with
  | None => Some s
  | Some oldLink =>
      newLink ← continuousLoop fuel s shardID (u64 (clBlockNum oldLink + 1)) oldLink;
      Some (if clBlockNum oldLink <? clBlockNum newLink
            then mkClStore (clShardBlock s) (<[shardID := Serialize newLink]> (clShardLast s)) (pendingCache s) (pendingDB s) else s)
  end.

Definition setPending (s : clStore) (c : option (list CrossLink)) : clStore := mkClStore (clShardBlock s) (clShardLast s) c (pendingDB s).

(** [None] is an error; no links without an error are [Some []].  A missing key, for which the
    code returns nil and the error of the database, is also [Some []]: every caller treats
    the error like no links. *)
Definition ReadPendingCrossLinks (s : clStore) : option (list CrossLink) * clStore :=
  match pendingCache s with
  | Some cls => (Some cls, s)
  | None =>
      match pendingDB s with
      | [] => (Some [], s)
      | by_ => match decodeCrossLinks by_ with Some cls => (Some cls, setPending s (Some cls)) | None => (None, s) end
      end
  end.

(** The map keeps the last link of a shard and number. *)
Definition dedup (crossLinks : list CrossLink) : gmap (Z * Z) CrossLink := foldl (λ m cl, <[clKey cl := cl]> m) ∅ crossLinks.
Definition CachePendingCrossLinks (s : clStore) (crossLinks : list CrossLink) : clStore := setPending s (Some (orderLinks (dedup crossLinks))).

(** Whether the error is nil. *)
Definition SavePendingCrossLinks (s : clStore) : bool * clStore :=
  match pendingCache s with
  | None => (true, s)
  | Some cls =>
      match encodeCrossLinks cls with
      | None => (false, s)
      | Some b => (true, mkClStore (clShardBlock s) (clShardLast s) (pendingCache s) b)
      end
  end.

Definition AddPendingCrossLinks (s : clStore) (pendingCLs : list CrossLink) : Z * clStore :=
  match ReadPendingCrossLinks s with
  | (Some (cl :: cls), s1) => (Z.of_nat (length ((cl :: cls) ++ pendingCLs)), CachePendingCrossLinks s1 ((cl :: cls) ++ pendingCLs))
  | (_, s1) => (Z.of_nat (length pendingCLs), CachePendingCrossLinks s1 pendingCLs)
  end.

Definition DeleteFromPendingCrossLinks (s : clStore) (crossLinks : list CrossLink) : Z * clStore :=
  match ReadPendingCrossLinks s with
  | (Some (cl :: cls), s1) =>
      let m : gset (Z * Z) := list_to_set (clKey <$> crossLinks) in
      let pendingCLs := List.filter (λ cl, bool_decide (clKey cl ∉ m)) (cl :: cls) in
      (Z.of_nat (length pendingCLs), CachePendingCrossLinks s1 pendingCLs)
  | (_, s1) => (0, s1)
  end.
End crosslinks.

(** *** The node *)
Definition maxPendingCrossLinkSize : Z := 1000.
Definition crossLinkBatchSize : Z := 3.

Section node.
Context {G Sg C1 C2 : Type} `{BK : BlsKey G, BS : BlsSign Sg, BC : !BlsCrypto G Sg, GL : GenesisLib, SC : Schedule}.
Context `{CE : !Cache C1 epochCtxKey (epochCtx G), CV : !Cache C2 verifiedSigKey unit, CC : CrossLinkCodec}.
Context (isTestnet : bool) (BytesToBLSPublicKey : SerializedPublicKey → option G).
Context (orderLinks : gmap (Z * Z) CrossLink → list CrossLink).
Notation engine := (engineImpl (C1 := C1) (C2 := C2)).

(** [Node.VerifyCrossLink] *)
Definition nodeVerifyCrossLink (chain : ChainReader) (e : engine) (cl : CrossLink) : result engineError unit * engine :=
  if negb (crShardID chain =? BeaconChainShardID) then (Err errNotBeacon, e)
  else VerifyCrossLink isTestnet BytesToBLSPublicKey chain e cl.

Fixpoint verifyLinks (chain : ChainReader) (s : clStore) (e : engine) (cls : list CrossLink) : result engineError unit * engine :=
  match cls with
  | [] => (Ok tt, e)
  | cl :: rest =>
      match ReadCrossLink s (ShardIDF cl) (clBlockNum cl) with
      | Some _ => (Err errAlreadyExist, e)
      | None =>
          match nodeVerifyCrossLink chain e cl with
          | (Ok _, e1) => verifyLinks chain s e1 rest
          | r => r
          end
      end
  end.
Definition VerifyBlockCrossLinks (chain : ChainReader) (s : clStore) (e : engine) (header : Header) : result engineError unit * engine :=
  match hdCrossLinks header with
  | [] => (Ok tt, e)
  | data =>
      match decodeCrossLinks data with
      | None => (Err errDecodeCrossLinks, e)
      | Some crossLinks => if negb (IsSorted crossLinks) then (Err errUnsorted, e) else verifyLinks chain s e crossLinks
      end
  end.

(** The loop over the links of a message, with the index that ends it; [None] is a panic. *)
Fixpoint candidateLinks (chain : ChainReader) (s : clStore) (existing : gset Hash) (i : Z) (cls : list CrossLink) (e : engine)
    : option (list CrossLink * engine) :=
  match cls with
  | [] => Some ([], e)
  | cl :: rest =>
      if crossLinkBatchSize * 2 <? i then Some ([], e)
      else if bool_decide (HashF cl ∈ existing) then candidateLinks chain s existing (i + 1) rest e
      else match ReadCrossLink s (ShardIDF cl) (clBlockNum cl) with
           | Some _ => candidateLinks chain s existing (i + 1) rest e
           | None =>
               match nodeVerifyCrossLink chain e cl with
               | (Panic, _) => None
               | (Err _, e1) => candidateLinks chain s existing (i + 1) rest e1
               | (Ok _, e1) => '(cands, e2) ← candidateLinks chain s existing (i + 1) rest e1; Some (cl :: cands, e2)
               end
           end
  end.
Definition ProcessCrossLinkMessage (chain : ChainReader) (s : clStore) (e : engine) (msgPayload : bytes) : option (clStore * engine) :=
  if negb (crShardID chain =? BeaconChainShardID) then Some (s, e)
  else
    let '(pending, s1) := ReadPendingCrossLinks s in
    if match pending with Some p => maxPendingCrossLinkSize <=? Z.of_nat (length p) | None => false end then Some (s1, e)
    else
      let existing : gset Hash := list_to_set (HashF <$> default [] pending) in
      match decodeCrossLinks msgPayload with
      | None => Some (s1, e)
      | Some crosslinks =>
          '(cands, e1) ← candidateLinks chain s1 existing 0 crosslinks e;
          Some ((AddPendingCrossLinks orderLinks s1 cands).2, e1)
      end.
End node.

(** * Properties *)

(** ** An LRU cache *)
Section lru.
Context {K V : Type} `{EqK : EqDecision K}.

(** The entries, the last used first, and the capacity less one. *)
Record lruCache := mkLru { lruCap : nat; lruEntries : list (K * V) }.
Fixpoint lruFind (l : list (K * V)) (k : K) : option V :=
  match l with [] => None | (k', v) :: rest => if decide (k' = k) then Some v else lruFind rest k end.
Definition lruRemove (l : list (K * V)) (k : K) : list (K * V) := List.filter (λ p, bool_decide (p.1 ≠ k)) l.
#[global] Instance lruOps : Cache lruCache K V := {|
  cacheGet c k := match lruFind (lruEntries c) k with
                  | Some v => (Some v, mkLru (lruCap c) ((k, v) :: lruRemove (lruEntries c) k))
                  | None => (None, c)
                  end;
  cacheAdd c k v := mkLru (lruCap c) ((k, v) :: take (lruCap c) (lruRemove (lruEntries c) k)) |}.

Lemma lruFind_remove l k k' : lruFind (lruRemove l k) k' = if decide (k' = k) then None else lruFind l k'.
Proof.
  induction l as [|[k0 v0] l IH]; cbn; [by destruct (decide (k' = k))|]. case_bool_decide as H; cbn.
  - destruct (decide (k0 = k')) as [->|]; [by rewrite decide_False by done|apply IH].
  - subst k0. etrans; [apply IH|]. destruct (decide (k' = k)) as [->|]; [done|]. by rewrite decide_False by done.
Qed.

Lemma lruFind_take n l k v : lruFind (take n l) k = Some v → lruFind l k = Some v.
Proof. revert n. induction l as [|[k0 v0] l IH]; intros [|n]; cbn; try done. destruct (decide (k0 = k)); [done|apply IH]. Qed.

#[global] Instance lruLaws : CacheLaws lruCache K V.
Proof.
  refine {| cacheHas c k v := lruFind (lruEntries c) k = Some v |}.
  - intros c k v. cbn. by destruct (lruFind (lruEntries c) k) eqn:E.
  - intros c k [v Hv]. cbn. rewrite Hv. by eexists.
  - intros c k k' v'. cbn. destruct (lruFind (lruEntries c) k) as [v|] eqn:E; [|done]. cbn. rewrite lruFind_remove.
    destruct (decide (k = k')) as [->|]; [by rewrite E|]. by rewrite decide_False by done.
  - intros c k v. cbn. by rewrite decide_True by done.
  - intros c k v k' v'. cbn. destruct (decide (k = k')) as [->|]; [intros [= ->]; by left|]. intros H%lruFind_take.
    rewrite lruFind_remove, decide_False in H by done. by right.
Defined.
End lru.
Arguments lruCache K V : clear implicits.

(** [NewEngine] *)
Definition newCache (K V : Type) (size : nat) : lruCache K V := mkLru (size - 1) [].

(** ** What an accepted signature stands for *)
Section sound.
Context {G Sg C1 C2 : Type} `{BK : BlsKey G, BS : BlsSign Sg, BC : !BlsCrypto G Sg, GL : GenesisLib, SC : Schedule, HL : HeaderLib}.
Context `{CE : !Cache C1 epochCtxKey (epochCtx G), CV : !Cache C2 verifiedSigKey unit}.
Context `{CEL : !CacheLaws C1 epochCtxKey (epochCtx G), CVL : !CacheLaws C2 verifiedSigKey unit}.
Context (isTestnet : bool) (keyOf : SerializedPublicKey → option G).
Notation engine := (engineImpl (C1 := C1) (C2 := C2)).
Implicit Types (chain : ChainReader) (e : engine) (pas : payloadArgs) (sas : sigArgs).

(** A signature with a bitmap that was checked on [chain]: the committee of the shard and epoch
    of the payload has the quorum among the members of the bitmap, and the signature is theirs. *)
Definition checked chain pas sas : Prop :=
  ∃ ec aggSig mask, readEpochCtxFromChain isTestnet keyOf chain (mkEpochCtxKey (paShardID pas) (u64 (paEpoch pas))) = Ok ec
    ∧ DecodeSigBitmap (saSig sas) (saBitmap sas) (pubKeys ec) = Some (aggSig, mask)
    ∧ verifierQuorum (qrVerifier ec) mask = Some true
    ∧ VerifyHash aggSig (AggregatePublic mask) (constructPayload chain pas) = true.

(** What is known of an epoch does not change when the chain grows. *)
Definition chainGrows chain chain' : Prop :=
  (∀ key ec, readEpochCtxFromChain isTestnet keyOf chain key = Ok ec → readEpochCtxFromChain isTestnet keyOf chain' key = Ok ec)
  ∧ (∀ epoch, IsStaking (crProvider chain') epoch = IsStaking (crProvider chain) epoch).

Lemma checked_grows chain chain' pas sas : chainGrows chain chain' → checked chain pas sas → checked chain' pas sas.
Proof.
  intros [Hc Hs] (ec & agg & mask & H1 & H2 & H3 & H4). exists ec, agg, mask. split_and!; [by apply Hc|done|done|].
  unfold constructPayload in *. by rewrite Hs.
Qed.

Record engineInv chain e : Prop := {
  ei_ctx : ∀ key ec, cacheHas (epochCtxCache e) key ec → readEpochCtxFromChain isTestnet keyOf chain key = Ok ec;
  ei_sig : ∀ key u, cacheHas (verifiedSigCache e) key u →
    ∃ pas sas, key = newVerifiedSigKey (paBlockHash pas) (saSig sas) (saBitmap sas) ∧ checked chain pas sas;
}.

Lemma engineInv_grows chain chain' e : chainGrows chain chain' → engineInv chain e → engineInv chain' e.
Proof.
  intros Hg [H1 H2]. split; [intros key ec H; by apply Hg, H1|]. intros key u (pas & sas & Hk & Hc)%H2. exists pas, sas. split; [done|]. by eapply checked_grows.
Qed.

Lemma verifyWith_checked chain ec pas sas :
  readEpochCtxFromChain isTestnet keyOf chain (mkEpochCtxKey (paShardID pas) (u64 (paEpoch pas))) = Ok ec →
  verifyWith chain ec pas sas = Ok tt → checked chain pas sas.
Proof.
  intros Hec E. unfold verifyWith in E. destruct (DecodeSigBitmap _ _ _) as [[agg mask]|] eqn:Ed; [|done].
  destruct (verifierQuorum _ mask) as [[]|] eqn:Eq; [|done|done]. cbn [negb] in E. destruct (VerifyHash agg _ _) eqn:Ev; [|done].
  by exists ec, agg, mask.
Qed.

Lemma getEpochCtxCached_inv chain e shardID epoch r e' :
  engineInv chain e → getEpochCtxCached isTestnet keyOf chain e shardID epoch = (r, e') →
  engineInv chain e' ∧ verifiedSigCache e' = verifiedSigCache e ∧ ∀ ec, r = Ok ec → readEpochCtxFromChain isTestnet keyOf chain (mkEpochCtxKey shardID epoch) = Ok ec.
Proof.
  intros [H1 H2] E. unfold getEpochCtxCached in E. set (key := mkEpochCtxKey shardID epoch) in *.
  pose proof (cacheGet_has (epochCtxCache e) key) as Hg. pose proof (cacheGet_keeps (epochCtxCache e) key) as Hk.
  destruct (cacheGet (epochCtxCache e) key) as [cached c1]. cbn [fst snd] in Hg, Hk.
  assert (engineInv chain (mkEngine c1 (verifiedSigCache e))) as HI by (split; [intros k ec Hh; apply H1; by apply Hk|exact H2]).
  destruct cached as [ec|].
  - injection E as <- <-. split; [done|]. split; [done|]. intros ec' [= <-]. apply H1, Hg. done.
  - destruct (readEpochCtxFromChain _ _ chain key) as [ec| |] eqn:Er; injection E as <- <-; [|done|done].
    split; [|split; [done|by intros ? [= <-]]]. split; [|exact H2]. cbn [epochCtxCache].
    intros k ec' [[-> ->]|Hh]%cacheAdd_only; [done|]. apply H1. by apply Hk.
Qed.

Lemma verifySignatureCached_inv chain e pas sas r e' :
  engineInv chain e → verifySignatureCached isTestnet keyOf chain e pas sas = (r, e') →
  engineInv chain e' ∧ (r = Ok tt → cacheHas (verifiedSigCache e') (newVerifiedSigKey (paBlockHash pas) (saSig sas) (saBitmap sas)) tt).
Proof.
  intros [H1 H2] E. unfold verifySignatureCached in E. set (key := newVerifiedSigKey _ _ _) in *.
  pose proof (cacheGet_has (verifiedSigCache e) key) as Hg. pose proof (cacheGet_keeps (verifiedSigCache e) key) as Hk.
  destruct (cacheGet (verifiedSigCache e) key) as [cached c2]. cbn [fst snd] in Hg, Hk.
  set (e0 := mkEngine (epochCtxCache e) c2) in *.
  assert (engineInv chain e0) as HI by (split; [exact H1|intros k u Hh; apply (H2 k u); by apply Hk]).
  destruct cached as [[]|]; [injection E as <- <-; split; [done|]; intros _; apply Hk; by apply Hg|].
  unfold verifySignature in E. destruct (getEpochCtxCached _ _ chain e0 _ _) as [r1 e1] eqn:Ec.
  destruct (getEpochCtxCached_inv _ _ _ _ _ _ HI Ec) as (HI1 & _ & Hr1). destruct r1 as [ec| |]; [|injection E as <- <-; done..].
  destruct (verifyWith chain ec pas sas) as [[]| |] eqn:Ev; injection E as <- <-; [|done..]. split; [|intros _; apply cacheAdd_has].
  destruct HI1 as [H3 H4]. split; [exact H3|]. cbn [verifiedSigCache]. intros k u [[-> _]|Hh]%cacheAdd_only; [|by eapply H4].
  exists pas, sas. split; [done|]. eapply verifyWith_checked; [by apply Hr1|done].
Qed.

(** The states of an engine: the caches start empty, the chain grows, and anything is verified. *)
Inductive engineReach : ChainReader → engine → Prop :=
| er_new chain e : (∀ k v, ¬ cacheHas (epochCtxCache e) k v) → (∀ k v, ¬ cacheHas (verifiedSigCache e) k v) → engineReach chain e
| er_grow chain chain' e : engineReach chain e → chainGrows chain chain' → engineReach chain' e
| er_header chain e h sig bm : engineReach chain e → engineReach chain (VerifyHeaderSignature isTestnet keyOf chain e h sig bm).2
| er_crossLink chain e cl : engineReach chain e → engineReach chain (VerifyCrossLink isTestnet keyOf chain e cl).2
| er_seal chain e h : engineReach chain e → engineReach chain (VerifySeal isTestnet keyOf chain e h).2.

Lemma verify_step chain e pas sas : engineInv chain e → engineInv chain (verifySignatureCached isTestnet keyOf chain e pas sas).2.
Proof. intros HI. destruct (verifySignatureCached _ _ chain e pas sas) as [r e'] eqn:E. by destruct (verifySignatureCached_inv _ _ _ _ _ _ HI E). Qed.

Lemma engineReach_inv chain e : engineReach chain e → engineInv chain e.
Proof.
  induction 1 as [chain e H1 H2|chain chain' e _ IH Hg|chain e h sig bm _ IH|chain e cl _ IH|chain e h _ IH].
  - split; [intros k ec Hh; by destruct (H1 k ec)|intros k u Hh; by destruct (H2 k u)].
  - by eapply engineInv_grows.
  - unfold VerifyHeaderSignature. destruct (_ <=? _); [done|by apply verify_step].
  - unfold VerifyCrossLink. destruct (_ <=? _); [done|]. destruct (crIsCrossLink _ _); [by apply verify_step|done].
  - unfold VerifySeal. destruct (_ <=? _); [done|]. destruct h as [h|]; [|done]. destruct (GetHeader _ _ _); [by apply verify_step|done].
Qed.

(** A signature on [hash] that the committee of some shard and epoch made: a quorum of it, with
    more than two thirds of the voting power in a staking epoch, signed a commit payload of
    [hash].  The bitmap is the given one up to trailing zeros and bytes after the first 64. *)
Definition backed chain (hash : Hash) (sig bitmap : bytes) : Prop :=
  ∃ pas bm ec aggSig mask, paBlockHash pas = hash ∧ copyTo bitmapKeyBytes bm = copyTo bitmapKeyBytes bitmap
    ∧ readEpochCtxFromChain isTestnet keyOf chain (mkEpochCtxKey (paShardID pas) (u64 (paEpoch pas))) = Ok ec
    ∧ DecodeSigBitmap sig bm (pubKeys ec) = Some (aggSig, mask)
    ∧ VerifyHash aggSig (AggregatePublic mask) (constructPayload chain pas) = true
    ∧ verifierQuorum (qrVerifier ec) mask = Some true
    ∧ (∀ sv, qrVerifier ec = inl sv → twoThird < map_sum (maskShare (verifierRoster sv) mask) (PublicsIndex mask)).

Lemma verified_backed chain e pas sas e' :
  engineInv chain e → verifySignatureCached isTestnet keyOf chain e pas sas = (Ok tt, e') → backed chain (paBlockHash pas) (saSig sas) (saBitmap sas).
Proof.
  intros HI E. destruct (verifySignatureCached_inv _ _ _ _ _ _ HI E) as [HI' Hh]. destruct (ei_sig _ _ HI' _ _ (Hh eq_refl)) as (pas' & [sig' bm'] & Hk & Hc).
  cbn [saSig saBitmap] in Hk. injection Hk as Hh1 Hh2 Hh3. destruct Hc as (ec & agg & mask & H1 & H2 & H3 & H4). cbn [saSig saBitmap] in H2. exists pas', bm', ec, agg, mask. rewrite Hh2.
  split_and!; try done. intros sv Hsv. rewrite Hsv in H3. cbn [verifierQuorum stakeVerifierIsQuorumAchievedByMask] in H3.
  apply bind_Some in H3 as (vp & Hvp & [= Hgt]). apply VotePowerByMask_sum in Hvp as <-. rewrite GT_spec in Hgt. by apply bool_decide_eq_true in Hgt.
Qed.


Lemma cached_accepted chain e pas sas u :
  cacheHas (verifiedSigCache e) (newVerifiedSigKey (paBlockHash pas) (saSig sas) (saBitmap sas)) u →
  ∃ e', verifySignatureCached isTestnet keyOf chain e pas sas = (Ok tt, e').
Proof.
  intros Hh. unfold verifySignatureCached. destruct (cacheHas_get _ _ (ex_intro _ u Hh)) as [u' Hu].
  destruct (cacheGet (verifiedSigCache e) _) as [cached c2]. cbn [fst] in Hu. rewrite Hu. by eexists.
Qed.

(** C39: The key under which a verified signature is remembered has the hash of the block and nothing
    else of the cross link: after a cross link was accepted, so is one with the same hash,
    signature and bitmap and any other shard, block number, view and cross-link epoch. *)
Theorem VerifyCrossLink_forged chain e e' cl cl' :
  engineReach chain e → VerifyCrossLink isTestnet keyOf chain e cl = (Ok tt, e') →
  HashF cl' = HashF cl → SignatureF cl' = SignatureF cl → BitmapF cl' = BitmapF cl →
  1 < clBlockNum cl' → crIsCrossLink chain (EpochF cl') = true →
  ∃ e'', VerifyCrossLink isTestnet keyOf chain e' cl' = (Ok tt, e'').
Proof.
  intros HI%engineReach_inv E Hh Hs Hb Hn Hc. unfold VerifyCrossLink in *. destruct (clBlockNum cl <=? 1); [done|].
  destruct (crIsCrossLink chain (EpochF cl)); [|done]. cbn [negb] in E. rewrite (proj2 (Z.leb_gt _ _)), Hc by lia. cbn [negb].
  destruct (verifySignatureCached_inv _ _ _ _ _ _ HI E) as [_ Hk]. apply (cached_accepted _ _ _ _ tt). cbn [paBlockHash payloadArgsFromCrossLink saSig saBitmap].
  rewrite Hh, Hs, Hb. by apply Hk.
Qed.

Lemma copyTo_padded n (b : bytes) k : (length b + k ≤ n)%nat → copyTo n (b ++ replicate k 0) = copyTo n b.
Proof.
  intros Hl. unfold copyTo. rewrite length_app, length_replicate, !take_ge by (rewrite ?length_app, ?length_replicate; lia).
  rewrite <-app_assoc, <-replicate_add. f_equal. f_equal. lia.
Qed.
End sound.

Section divergence.
Context {G Sg C1 C2 : Type} `{BK : BlsKey G, KL : !BlsKeyLaws G, BS : BlsSign Sg, BC : !BlsCrypto G Sg, GL : GenesisLib, SC : Schedule, HL : HeaderLib}.
Context `{CE : !Cache C1 epochCtxKey (epochCtx G), CV : !Cache C2 verifiedSigKey unit}.
Context `{CEL : !CacheLaws C1 epochCtxKey (epochCtx G), CVL : !CacheLaws C2 verifiedSigKey unit}.
Context (isTestnet : bool) (keyOf : SerializedPublicKey → option G).
Notation engine := (engineImpl (C1 := C1) (C2 := C2)).

Lemma emptyMask_power (r : Roster) (keys : list (PublicKeyWrapper G)) d : VotePowerByMask r (newMask keys) = Some d → d = 0.
Proof.
  intros ->%VotePowerByMask_sum. apply map_sum_zero. intros k i Hi. unfold maskShare.
  destruct (inv_index _ (emptyMask_inv keys) k i Hi) as [Hr (key & Hkey & _)].
  rewrite <-(Z2Nat.id i) by lia. rewrite IndexEnabled_bitAt; [|apply emptyMask_inv|by eapply lookup_lt_Some].
  cbn [newMask emptyMask Bitmap]. by rewrite bitAt_zeros.
Qed.

(** A bitmap of the wrong length counts for nobody. *)
Lemma wrong_length_rejected chain (ec : epochCtx G) pas sig bm sv :
  qrVerifier ec = inl sv → length bm ≠ Len (pubKeys ec) → verifyWith (Sg := Sg) chain ec pas (mkSigArgs sig bm) ≠ Ok tt.
Proof.
  intros Hv Hl. unfold verifyWith, DecodeSigBitmap. cbn [saSig saBitmap]. destruct (sigOfBytes sig) as [agg|]; [|done]. cbn [mbind option_bind].
  assert (∃ er, SetMask (newMask (pubKeys ec)) bm = Err er) as [er ->].
  { unfold SetMask. cbn [newMask emptyMask Publics]. destruct (Nat.eqb_spec (Len (pubKeys ec)) (length bm)); [congruence|]. by eexists. }
  rewrite Hv. cbn [verifierQuorum stakeVerifierIsQuorumAchievedByMask].
  destruct (VotePowerByMask (verifierRoster sv) (newMask (pubKeys ec))) as [d|] eqn:Ed; [|done]. apply emptyMask_power in Ed as ->. cbn [mbind option_bind].
  rewrite GT_spec, bool_decide_false; [done|]. rewrite twoThird_val. lia.
Qed.

(** Two nodes with the same chain can disagree on a header: after a signature was accepted, a
    node accepts it with zeros appended to the bitmap, which a node that has not seen the
    signature rejects. *)
Theorem padded_bitmap_diverges chain (e e' fresh : engine) h sig bm k ec sv :
  engineReach isTestnet keyOf chain e → 1 < u64 (hdNumber (crCurrent chain)) →
  VerifyHeaderSignature isTestnet keyOf chain e h sig bm = (Ok tt, e') →
  (0 < k)%nat → (length bm + k ≤ bitmapKeyBytes)%nat →
  readEpochCtxFromChain isTestnet keyOf chain (mkEpochCtxKey (hdShardID h) (u64 (hdEpoch h))) = Ok ec → qrVerifier ec = inl sv → length bm = Len (pubKeys ec) →
  engineReach isTestnet keyOf chain fresh → (∀ key u, ¬ cacheHas (verifiedSigCache fresh) key u) →
  (∃ e'', VerifyHeaderSignature isTestnet keyOf chain e' h sig (bm ++ replicate k 0) = (Ok tt, e''))
  ∧ (VerifyHeaderSignature isTestnet keyOf chain fresh h sig (bm ++ replicate k 0)).1 ≠ Ok tt.
Proof.
  intros HI%engineReach_inv Hn E Hk Hlen Hec Hsv Hbm HF%engineReach_inv Hf. unfold VerifyHeaderSignature in *. rewrite (proj2 (Z.leb_gt _ _)) in * by lia. split.
  - destruct (verifySignatureCached_inv _ _ _ _ _ _ _ _ HI E) as [_ Hh]. apply (cached_accepted _ _ _ _ _ _ tt).
    cbn [saSig saBitmap] in *. unfold newVerifiedSigKey. rewrite copyTo_padded by done. by apply Hh.
  - unfold verifySignatureCached. set (key := newVerifiedSigKey _ _ _). pose proof (cacheGet_has (verifiedSigCache fresh) key tt) as Hg.
    pose proof (cacheGet_keeps (verifiedSigCache fresh) key) as Hkp.
    destruct (cacheGet (verifiedSigCache fresh) key) as [cached c2]. cbn [fst snd] in Hg, Hkp.
    destruct cached as [[]|]; [exfalso; by apply (Hf key tt), Hg|]. unfold verifySignature. destruct (getEpochCtxCached _ _ _ _ _ _) as [r e1] eqn:Ec.
    eapply getEpochCtxCached_inv in Ec as (_ & _ & Hr); [|split; [apply HF|intros key' u Hh; exfalso; by apply (Hf key' u), Hkp]].
    destruct r as [ec'| |]; [|done|done]. specialize (Hr ec' eq_refl). cbn [payloadArgsFromHeader paShardID paEpoch] in Hr. rewrite Hec in Hr. injection Hr as <-.
    assert (verifyWith (Sg := Sg) chain ec (payloadArgsFromHeader h) (mkSigArgs sig (bm ++ replicate k 0)) ≠ Ok tt) as Hw.
    { eapply wrong_length_rejected; [done|]. rewrite length_app, length_replicate. lia. }
    by destruct (verifyWith chain ec _ _) as [[]| |].
Qed.
End divergence.

(** ** Pending cross links *)
Class CrossLinkCodecLaws `{CC : CrossLinkCodec} := {
  Serialize_read cl : 0 ≤ BlockNumberF cl → 0 ≤ ViewIDF cl → 0 ≤ EpochF cl → DeserializeCrossLink (Serialize cl) = Some cl;
  (** An encoding, which is never empty, exists for numbers that are not negative. *)
  encodeCrossLinks_ok cls : Forall (λ cl, 0 ≤ BlockNumberF cl ∧ 0 ≤ ViewIDF cl ∧ 0 ≤ EpochF cl) cls →
    ∃ b, encodeCrossLinks cls = Some b ∧ b ≠ [] ∧ decodeCrossLinks b = Some cls;
}.

Definition clOk (cl : CrossLink) : Prop := 0 ≤ BlockNumberF cl ∧ 0 ≤ ViewIDF cl ∧ 0 ≤ EpochF cl.
Definition keyed (m : gmap (Z * Z) CrossLink) : Prop := ∀ k cl, m !! k = Some cl → clKey cl = k ∧ clOk cl.
Definition valuesOf (m : gmap (Z * Z) CrossLink) : list CrossLink := (map_to_list m).*2.

Lemma dedup_from acc cls : foldl (λ m cl, <[clKey cl := cl]> m) acc cls = dedup cls ∪ acc.
Proof.
  unfold dedup. induction cls as [|cl cls IH] using rev_ind; [cbn; by rewrite (left_id_L ∅ (∪))|]. rewrite !foldl_app, IH. cbn. by rewrite insert_union_l.
Qed.
Lemma dedup_app l1 l2 : dedup (l1 ++ l2) = dedup l2 ∪ dedup l1.
Proof. unfold dedup at 1. rewrite foldl_app. apply dedup_from. Qed.

Lemma dedup_keyed cls : Forall clOk cls → keyed (dedup cls).
Proof.
  unfold dedup. induction cls as [|cl cls IH] using rev_ind; [intros _ k cl'; cbn; by rewrite lookup_empty|].
  intros [Hc Hcl]%Forall_app k cl'. apply Forall_cons in Hcl as [Hcl _]. rewrite foldl_app. cbn.
  intros [[<- <-]|[_ H]]%lookup_insert_Some; [done|]. by apply (IH Hc).
Qed.

Lemma keyed_pairs m : keyed m → (λ cl, (clKey cl, cl)) <$> valuesOf m = map_to_list m.
Proof.
  intros Hm. unfold valuesOf. rewrite <-list_fmap_compose. rewrite <-(list_fmap_id (map_to_list m)) at 2. apply list_fmap_ext.
  intros i [k cl] Hi. cbn. destruct (Hm k cl) as [-> _]; [|done]. apply elem_of_map_to_list. by eapply list_elem_of_lookup_2.
Qed.

Lemma dedup_nodup cls : NoDup (clKey <$> cls) → dedup cls = list_to_map ((λ cl, (clKey cl, cl)) <$> cls).
Proof.
  induction cls as [|cl cls IH]; [done|]. intros [Hn Hnd]%NoDup_cons. change (cl :: cls) with ([cl] ++ cls). rewrite dedup_app, IH by done. cbn.
  unfold dedup. cbn. symmetry. rewrite insert_union_singleton_r; [done|]. apply not_elem_of_list_to_map_1. rewrite <-list_fmap_compose. exact Hn.
Qed.

Lemma dedup_values m cls : keyed m → cls ≡ₚ valuesOf m → dedup cls = m.
Proof.
  intros Hm Hp. assert ((λ cl, (clKey cl, cl)) <$> cls ≡ₚ map_to_list m) as Hpairs by (by rewrite Hp, keyed_pairs).
  assert (NoDup (clKey <$> cls)) as Hnd.
  { assert (clKey <$> cls = ((λ cl, (clKey cl, cl)) <$> cls).*1) as -> by (by rewrite <-list_fmap_compose). rewrite Hpairs. apply NoDup_fst_map_to_list. }
  rewrite dedup_nodup by done. rewrite (list_to_map_proper _ (map_to_list m)); [apply list_to_map_to_list| |done].
  by rewrite <-list_fmap_compose.
Qed.

Lemma filter_Perm {A} (P : A → bool) l l' : l ≡ₚ l' → List.filter P l ≡ₚ List.filter P l'.
Proof. induction 1; cbn; repeat case_match; try constructor; try done. by etrans. Qed.

Section pending.
Context `{CC : CrossLinkCodec, CL : !CrossLinkCodecLaws}.
Context (orderLinks : gmap (Z * Z) CrossLink → list CrossLink) (order_values : ∀ m, orderLinks m ≡ₚ valuesOf m).

(** The pending links of a store are those of the map. *)
Definition pendingIs (s : clStore) (m : gmap (Z * Z) CrossLink) : Prop :=
  keyed m ∧ ∃ cls, (ReadPendingCrossLinks s).1 = Some cls ∧ cls ≡ₚ valuesOf m.

Inductive pendingOp := PAdd (cls : list CrossLink) | PDelete (cls : list CrossLink) | PRestart.

(** The operations on the store; a restart saves the links and empties the cache. *)
Definition pendingStep (s : clStore) (op : pendingOp) : clStore :=
  match op with
  | PAdd cls => (AddPendingCrossLinks orderLinks s cls).2
  | PDelete cls => (DeleteFromPendingCrossLinks orderLinks s cls).2
  | PRestart => setPending (SavePendingCrossLinks s).2 None
  end.
(** The same on a map from shard and number to the link. *)
Definition pendingSpec (m : gmap (Z * Z) CrossLink) (op : pendingOp) : gmap (Z * Z) CrossLink :=
  match op with
  | PAdd cls => dedup cls ∪ m
  | PDelete cls => filter (λ p, p.1 ∉ (list_to_set (clKey <$> cls) : gset (Z * Z))) m
  | PRestart => m
  end.
Definition opOk (op : pendingOp) : Prop := match op with PAdd cls => Forall clOk cls | _ => True end.

Lemma cached_is s cls m : keyed m → dedup cls = m → pendingIs (CachePendingCrossLinks orderLinks s cls) m.
Proof. intros Hm <-. split; [done|]. exists (orderLinks (dedup cls)). split; [done|apply order_values]. Qed.

Lemma add_is s m cls : Forall clOk cls → pendingIs s m → pendingIs (AddPendingCrossLinks orderLinks s cls).2 (dedup cls ∪ m).
Proof.
  intros Hok [Hm (old & Hr & Hp)]. unfold AddPendingCrossLinks. destruct (ReadPendingCrossLinks s) as [r s1]. cbn [fst] in Hr. subst r.
  pose proof (dedup_values _ _ Hm Hp) as Hd.
  assert (keyed (dedup cls ∪ m)) as Hk.
  { intros k cl [H|[_ H]]%lookup_union_Some_raw; [by apply (dedup_keyed cls Hok)|by apply Hm]. }
  destruct old as [|o old]; apply cached_is; try done.
  - cbn in Hd. rewrite <-Hd. by rewrite (right_id_L ∅ (∪)).
  - by rewrite dedup_app, Hd.
Qed.

Lemma delete_is s m cls : pendingIs s m → pendingIs (DeleteFromPendingCrossLinks orderLinks s cls).2 (pendingSpec m (PDelete cls)).
Proof.
  intros [Hm (old & Hr & Hp)]. unfold DeleteFromPendingCrossLinks, pendingSpec. set (X := list_to_set _ : gset (Z * Z)).
  assert (keyed (filter (λ p, p.1 ∉ X) m)) as Hk by (intros k cl [H _]%map_lookup_filter_Some; by apply Hm).
  destruct (ReadPendingCrossLinks s) as [r s1] eqn:Er. cbn [fst] in Hr. subst r. destruct old as [|o old].
  - assert (m = ∅) as ->.
    { apply map_to_list_empty_iff. symmetry in Hp. apply Permutation_nil_r in Hp. unfold valuesOf in Hp. by apply fmap_nil_inv in Hp. }
    rewrite map_filter_empty. split; [done|]. exists []. split; [|done]. cbn [snd]. unfold ReadPendingCrossLinks in Er |- *.
    destruct (pendingCache s) as [c|] eqn:Ec; [injection Er as <- <-; by rewrite Ec|]. destruct (pendingDB s) as [|x b] eqn:Eb; [injection Er as <-; by rewrite Ec, Eb|].
    destruct (decodeCrossLinks (x :: b)); [injection Er as -> <-; done|done].
  - apply cached_is; [done|]. apply dedup_values; [done|]. generalize dependent (o :: old). clear o old. intros old Er Hp.
    assert (∀ (l : list (Z * Z * CrossLink)), (∀ p, p ∈ l → clKey p.2 = p.1) →
      List.filter (λ cl, bool_decide (clKey cl ∉ X)) l.*2 = (filter (λ p, p.1 ∉ X) l).*2) as Hf.
    { induction l as [|[k cl] l IH]; intros Hl; [done|]. rewrite fmap_cons, filter_cons. cbn. pose proof (Hl (k, cl) ltac:(by left)) as Hkc. cbn in Hkc. rewrite Hkc.
      rewrite IH by (intros p Hin; apply Hl; by right). destruct (decide (k ∉ X)); [by rewrite bool_decide_true by done|by rewrite bool_decide_false by done]. }
    transitivity (List.filter (λ cl, bool_decide (clKey cl ∉ X)) (valuesOf m)); [by apply filter_Perm|].
    unfold valuesOf. rewrite Hf, map_filter_alt.
    + rewrite map_to_list_to_map; [done|]. eapply sublist_NoDup; [apply (NoDup_fst_map_to_list m)|]. apply fmap_sublist, sublist_filter.
    + intros [k cl] Hin%elem_of_map_to_list. by apply Hm.
Qed.

Lemma restart_is s m : pendingIs s m → pendingIs (pendingStep s PRestart) m.
Proof.
  intros [Hm (cls & Hr & Hp)]. split; [done|]. exists cls. split; [|done].
  assert (Forall clOk cls) as Hok.
  { rewrite Hp. apply Forall_forall. intros cl ([k cl'] & -> & Hin%elem_of_map_to_list)%list_elem_of_fmap. by destruct (Hm k cl'). }
  unfold pendingStep, SavePendingCrossLinks. unfold ReadPendingCrossLinks in Hr. destruct (pendingCache s) as [c|] eqn:Ec.
  - injection Hr as ->. destruct (encodeCrossLinks_ok cls Hok) as (b & -> & Hb & Hd). unfold ReadPendingCrossLinks. cbn. destruct b as [|x b]; [done|]. by rewrite Hd.
  - unfold ReadPendingCrossLinks. cbn. destruct (pendingDB s); [done|]. by destruct (decodeCrossLinks _).
Qed.

(** C40: The pending links of the beacon chain implement a map from shard and block number to the
    last link that was added for them: for every sequence of additions, deletions of committed
    links and restarts of the node, whatever the order in which Go walks the map that removes
    duplicates. *)
Theorem pending_refines s m ops :
  pendingIs s m → Forall opOk ops → pendingIs (foldl pendingStep s ops) (foldl pendingSpec m ops).
Proof.
  revert s m. induction ops as [|op ops IH]; intros s m Hs Hok; [done|]. apply Forall_cons in Hok as [Hop Hok]. cbn. apply IH; [|done].
  destruct op as [cls|cls|]; [by apply add_is|by apply delete_is|by apply restart_is].
Qed.

(** ** The last link without a gap before it *)

(** The link of a number, when it is stored under it. *)
Definition linkAt (s : clStore) (shardID i : Z) : option CrossLink :=
  match ReadCrossLink s shardID i with Some tmp => if clBlockNum tmp =? i then Some tmp else None | None => None end.

Lemma continuousLoop_step fuel s shardID i link :
  continuousLoop (S fuel) s shardID i link
  = match linkAt s shardID i with Some tmp => continuousLoop fuel s shardID (u64 (i + 1)) tmp | None => Some link end.
Proof. cbn. unfold linkAt. destruct (ReadCrossLink s shardID i) as [tmp|]; [|done]. by destruct (_ =? _). Qed.

Lemma u64_add_u64 i j : u64 (u64 (i + 1) + Z.of_nat j) = u64 (i + Z.of_nat (S j)).
Proof. unfold u64. rewrite Zplus_mod_idemp_l. f_equal. lia. Qed.

Lemma u64_at i : isU64 i → u64 (i + Z.of_nat 0) = i.
Proof. intros Hi. by rewrite Z.add_0_r, u64_small. Qed.

Lemma continuousLoop_out s shardID fuel : ∀ i link,
  isU64 i → continuousLoop fuel s shardID i link = None → ∀ j, (j < fuel)%nat → (shardID, u64 (i + Z.of_nat j)) ∈ dom (clShardBlock s).
Proof.
  induction fuel as [|fuel IH]; intros i link Hi E j Hj; [lia|]. rewrite continuousLoop_step in E. destruct (linkAt s shardID i) as [tmp|] eqn:El; [|done].
  destruct j as [|j]; [|rewrite <-u64_add_u64; apply (IH _ _ (u64_range _) E); lia].
  rewrite u64_at by done. unfold linkAt, ReadCrossLink in El. destruct (clShardBlock s !! (shardID, i)) as [b|] eqn:Eb; [|done]. by apply elem_of_dom.
Qed.

Lemma continuousLoop_spec s shardID fuel : ∀ i link last,
  isU64 i → continuousLoop fuel s shardID i link = Some last →
  ∃ k, (∀ j, (j < k)%nat → is_Some (linkAt s shardID (u64 (i + Z.of_nat j)))) ∧ linkAt s shardID (u64 (i + Z.of_nat k)) = None
    ∧ Some last = match k with O => Some link | S k' => linkAt s shardID (u64 (i + Z.of_nat k')) end.
Proof.
  induction fuel as [|fuel IH]; intros i link last Hi E; [done|]. rewrite continuousLoop_step in E. destruct (linkAt s shardID i) as [tmp|] eqn:El.
  - destruct (IH _ _ _ (u64_range _) E) as (k & Hk & Hn & Hl). exists (S k). rewrite <-u64_add_u64. split; [|split; [done|]].
    + intros [|j] Hj; [rewrite u64_at by done; by eexists|]. rewrite <-u64_add_u64. apply Hk. lia.
    + destruct k as [|k]; [by rewrite u64_at, El, Hl|]. by rewrite <-u64_add_u64.
  - injection E as <-. exists 0%nat. rewrite u64_at by done. split; [intros; lia|done].
Qed.

(** The loop over the stored links ends, with one round more than there are links, at the first
    number that has none; the link it returns is the one before it. *)
Theorem LastContinuousCrossLink_terminates s shardID old :
  ReadShardLastCrossLink s shardID = Some old → Z.of_nat (size (clShardBlock s)) < 2 ^ 64 →
  ∃ s' last k, LastContinuousCrossLink (S (size (clShardBlock s))) s shardID = Some s'
    ∧ (∀ j, (j < k)%nat → is_Some (linkAt s shardID (u64 (u64 (clBlockNum old + 1) + Z.of_nat j))))
    ∧ linkAt s shardID (u64 (u64 (clBlockNum old + 1) + Z.of_nat k)) = None
    ∧ Some last = match k with O => Some old | S k' => linkAt s shardID (u64 (u64 (clBlockNum old + 1) + Z.of_nat k')) end
    ∧ s' = if clBlockNum old <? clBlockNum last
           then mkClStore (clShardBlock s) (<[shardID := Serialize last]> (clShardLast s)) (pendingCache s) (pendingDB s) else s.
Proof.
  intros Hold Hsz. unfold LastContinuousCrossLink. rewrite Hold. set (i := u64 (clBlockNum old + 1)).
  destruct (continuousLoop (S (size (clShardBlock s))) s shardID i old) as [last|] eqn:E.
  - destruct (continuousLoop_spec _ _ _ _ _ _ (u64_range _) E) as (k & Hk & Hn & Hl). cbn [mbind option_bind]. by eexists _, last, k.
  - exfalso. pose proof (continuousLoop_out _ _ _ _ _ (u64_range _) E) as Ho.
    set (visited := list_to_set ((λ j, (shardID, u64 (i + Z.of_nat j))) <$> seq 0 (S (size (clShardBlock s)))) : gset (Z * Z)).
    assert (visited ⊆ dom (clShardBlock s)) as Hsub.
    { intros x (j & -> & [_ Hj]%elem_of_seq)%elem_of_list_to_set%list_elem_of_fmap. apply Ho. lia. }
    apply subseteq_size in Hsub. rewrite size_dom in Hsub. unfold visited in Hsub. rewrite size_list_to_set, length_fmap, length_seq in Hsub; [lia|].
    apply NoDup_fmap_2_strong; [|apply NoDup_seq]. intros a b [_ Ha]%elem_of_seq [_ Hb]%elem_of_seq [= Hab].
    pose proof (u64_range (clBlockNum old + 1)) as Hi. fold i in Hi. unfold isU64, u64 in *. Z.to_euclidean_division_equations. nia.
Qed.
End pending.

(** ** The shard state of the next epoch *)
Section shardstate.
Context `{GL : GenesisLib, SC : Schedule, SCo : StateCodec, SCL : !StateCodecLaws}.

(** On the last block of an epoch of the beacon chain, a header whose shard state is accepted
    carries the elected committee: it decodes to the state that [Compute] returns for the next
    epoch, without the stakes and the range map before staking. *)
Theorem VerifyShardState_elected bc beacon header p :
  hdShardID header = BeaconChainShardID → crIsLastBlock bc (u64 (hdNumber header)) = true → hdIsLastBlockInEpoch header = true →
  VerifyShardState bc beacon header = Ok p →
  ∃ ss q, ComputeCommittee (hdEpoch header + 1) (Some (crProvider beacon)) = Ok (ss, q)
    ∧ GetShardState header = Some (if match Epoch ss with Some ep => IsStaking (crProvider bc) ep | None => false end then ss else legacyView ss).
Proof.
  intros Hs Hl Hne E. unfold VerifyShardState in E. destruct (crShardID bc =? hdShardID header); [|done]. cbn [negb] in E.
  unfold hdIsLastBlockInEpoch in Hne. unfold GetShardState. destruct (hdShardState header) as [|x bs]; [done|].
  unfold SuperCommitteeForNextEpoch in E. rewrite Hs, Z.eqb_refl, Hl in E. unfold computeOn in E.
  destruct (ComputeCommittee _ _) as [[ss q]| |] eqn:Ec; [|done|done]. exists ss, q. split; [done|].
  cbn [mbind result_mbind result_bind] in E. set (isStaking := match Epoch ss with Some ep => _ | None => _ end) in *.
  destruct (EncodeWrapper ss isStaking) as [b|] eqn:Eb; [|done]. case_bool_decide as Hb; [|done]. subst b.
  apply EncodeWrapper_roundtrip; [done|]. unfold isStaking. by destruct (Epoch ss).
Qed.

(** Between the epochs the state that is expected is the empty one, and its encoding is not
    empty: a header of the beacon chain that carries it is accepted on any block that is not
    the last of an epoch, and counts as the last block of its epoch. *)
Theorem empty_state_accepted bc beacon header b :
  hdShardID header = BeaconChainShardID → crShardID bc = BeaconChainShardID → crIsLastBlock bc (u64 (hdNumber header)) = false →
  EncodeWrapper noState false = Some b → b ≠ [] → hdShardState header = b →
  VerifyShardState bc beacon header = Ok (crProvider beacon) ∧ hdIsLastBlockInEpoch header = true.
Proof.
  intros Hs Hc Hl Eb Hb Hh. unfold VerifyShardState, hdIsLastBlockInEpoch, SuperCommitteeForNextEpoch. rewrite Hs, Hc, Hh, Z.eqb_refl, Hl. cbn [negb].
  destruct b as [|x b]; [done|]. split; [|done]. cbn [mbind result_mbind result_bind Epoch noState]. fold noState. rewrite Eb. rewrite bool_decide_true by reflexivity. reflexivity.
Qed.
End shardstate.

(** ** A concrete engine *)
Definition engineSchedule : Schedule := λ _, Votepower.demoInstance.
Definition demoHashes : HeaderLib := {| headerHash h := 1000 * hdNumber h + hdViewID h |}.
#[local] Existing Instances Z_BlsSign zCrypto demoGenesis engineSchedule demoHashes.

Definition plainHeader (n view : Z) : Header := mkHeader 0 n 5 view 1 0 [] [] [] [] [] 0 0.
Definition engineProvider : DataProvider :=
  mkDataProvider 5 5 StateFound [] (λ _, None) (λ _, None) (λ e, if e =? 5 then Some (mkState (Some 5) [demoCommittee] []) else None) (λ _, true) (λ _, true).
Definition engineChain : ChainReader :=
  mkChainReader 0 (plainHeader 9 9) engineProvider (λ _, true) (λ _, false) (λ _ _, Some (plainHeader 8 8)) (λ _, None) (λ n, n mod 10 =? 9).
Definition keyOfInt (k : SerializedPublicKey) : option Z := Some k.
Notation demoEngine := (engineImpl (C1 := lruCache epochCtxKey (epochCtx Z)) (C2 := lruCache verifiedSigKey unit)).
Definition engine0 : demoEngine := mkEngine (newCache epochCtxKey (epochCtx Z) 20) (newCache verifiedSigKey unit 100).
(** The signature of the keys 11, 12 and 13 on a payload. *)
Definition signed123 (h n view : Z) : bytes := sigToBytes (BlsCrypto := zCrypto) (36 * hashZ (ConstructCommitPayload true h n view)).
Definition link8 : CrossLink := mkCrossLink 8008 8 8 (signed123 8008 8 8) [7] 1 5.
Definition forged8 : CrossLink := mkCrossLink 8008 4000 12 (signed123 8008 8 8) [7] 3 5.

Lemma engine0_reach : engineReach false keyOfInt engineChain engine0.
Proof. apply er_new; by intros k v. Qed.

Definition acceptsLink (e : demoEngine) (cl : CrossLink) : bool :=
  match (VerifyCrossLink false keyOfInt engineChain e cl).1 with Ok _ => true | _ => false end.
Lemma link8_accepted : VerifyCrossLink false keyOfInt engineChain engine0 link8 = (Ok tt, (VerifyCrossLink false keyOfInt engineChain engine0 link8).2).
Proof.
  assert (acceptsLink engine0 link8 = true) as H by (vm_compute; reflexivity). unfold acceptsLink in H.
  destruct (VerifyCrossLink false keyOfInt engineChain engine0 link8) as [[[]| |] e]; [reflexivity|discriminate H|discriminate H].
Qed.


Lemma VerifyCrossLink_forged_witness :
  acceptsLink engine0 forged8 = false
  ∧ ∃ e, VerifyCrossLink false keyOfInt engineChain (VerifyCrossLink false keyOfInt engineChain engine0 link8).2 forged8 = (Ok tt, e).
Proof.
  split; [vm_compute; reflexivity|].
  apply (VerifyCrossLink_forged false keyOfInt engineChain engine0 _ link8 forged8 engine0_reach link8_accepted); reflexivity.
Defined.

Definition header8 : Header := plainHeader 8 8.
Definition acceptsHeader (r : result engineError unit * demoEngine) : bool := match r.1 with Ok _ => true | _ => false end.
Lemma padded_bitmap_diverges_witness :
  ∃ e', VerifyHeaderSignature false keyOfInt engineChain engine0 header8 (signed123 8008 8 8) [7] = (Ok tt, e')
    ∧ (∃ e'', VerifyHeaderSignature false keyOfInt engineChain e' header8 (signed123 8008 8 8) [7; 0] = (Ok tt, e''))
    ∧ (VerifyHeaderSignature false keyOfInt engineChain engine0 header8 (signed123 8008 8 8) [7; 0]).1 ≠ Ok tt.
Proof.
  assert (acceptsHeader (VerifyHeaderSignature false keyOfInt engineChain engine0 header8 (signed123 8008 8 8) [7]) = true) as H by (vm_compute; reflexivity).
  unfold acceptsHeader in H. destruct (VerifyHeaderSignature false keyOfInt engineChain engine0 header8 (signed123 8008 8 8) [7]) as [[[]| |] e'] eqn:E; [|discriminate H|discriminate H].
  exists e'. split; [reflexivity|].
  assert (match readEpochCtxFromChain (G := Z) false keyOfInt engineChain (mkEpochCtxKey 1 5) with Ok ec => match qrVerifier ec with inl _ => (1 =? Len (pubKeys ec))%nat | _ => false end | _ => false end = true)
    as Hc by (vm_compute; reflexivity).
  destruct (readEpochCtxFromChain (G := Z) false keyOfInt engineChain (mkEpochCtxKey 1 5)) as [ec| |] eqn:Ec; [|discriminate Hc|discriminate Hc].
  destruct (qrVerifier ec) as [sv|] eqn:Ev; [|discriminate Hc].
  apply (padded_bitmap_diverges false keyOfInt engineChain engine0 e' engine0 header8 (signed123 8008 8 8) [7] 1 ec sv engine0_reach); try exact engine0_reach.
  - reflexivity.
  - exact E.
  - lia.
  - unfold bitmapKeyBytes. cbn [length]. lia.
  - exact Ec.
  - exact Ev.
  - by apply Nat.eqb_eq.
  - by intros k u.
Defined.

(** *** Pending links *)
Definition writeLink (cl : CrossLink) : bytes :=
  [Z.of_nat (length (SignatureF cl)); Z.of_nat (length (BitmapF cl)); HashF cl; BlockNumberF cl; ViewIDF cl; ShardIDF cl; EpochF cl] ++ SignatureF cl ++ BitmapF cl.
Definition readLink (b : bytes) : option (CrossLink * bytes) :=
  match b with
  | l :: k :: h :: n :: v :: s :: e :: rest =>
      let rest' := drop (Z.to_nat l) rest in
      Some (mkCrossLink h n v (take (Z.to_nat l) rest) (take (Z.to_nat k) rest') s e, drop (Z.to_nat k) rest')
  | _ => None
  end.
Fixpoint readLinks (fuel : nat) (b : bytes) : list CrossLink :=
  match fuel with O => [] | S fuel => match readLink b with Some (cl, rest) => cl :: readLinks fuel rest | None => [] end end.
Definition demoLinks : CrossLinkCodec := {|
  Serialize := writeLink; DeserializeCrossLink b := fst <$> readLink b;
  encodeCrossLinks cls := Some (Z.of_nat (length cls) :: concat (writeLink <$> cls));
  decodeCrossLinks b := match b with n :: b => Some (readLinks (Z.to_nat n) b) | [] => None end; |}.
#[local] Existing Instance demoLinks.

Lemma readLink_write cl rest : readLink (writeLink cl ++ rest) = Some (cl, rest).
Proof. destruct cl as [h n v sg bm sh e]. cbn. by rewrite !Nat2Z.id, <-app_assoc, take_app_length, drop_app_length, take_app_length, drop_app_length. Qed.

#[local] Instance demoLinks_laws : CrossLinkCodecLaws.
Proof.
  split.
  - intros cl _ _ _. cbn [DeserializeCrossLink Serialize demoLinks]. rewrite <-(app_nil_r (writeLink cl)). by rewrite readLink_write.
  - intros cls _. eexists. split; [reflexivity|]. split; [done|]. cbn [decodeCrossLinks demoLinks]. rewrite Nat2Z.id. f_equal.
    induction cls as [|cl cls IH]; [done|]. rewrite fmap_cons. cbn [length concat readLinks]. by rewrite readLink_write, IH.
Qed.

Definition emptyStore : clStore := mkClStore ∅ ∅ None [].
Lemma pending_refines_witness :
  pendingIs (foldl (pendingStep valuesOf) emptyStore [PAdd [link8; forged8]; PRestart; PDelete [link8]]) {[clKey forged8 := forged8]}.
Proof.
  refine (eq_ind _ (pendingIs _) (pending_refines valuesOf (λ m, reflexivity _) emptyStore ∅ [PAdd [link8; forged8]; PRestart; PDelete [link8]] _ _) _ _).
  - split; [intros k cl; by rewrite lookup_empty|]. exists []. split; reflexivity.
  - repeat constructor; cbn; lia.
  - apply (bool_decide_unpack _). vm_compute. exact I.
Defined.

Lemma LastContinuousCrossLink_terminates_witness :
  ∃ s' last, LastContinuousCrossLink 2 (mkClStore {[(1, 9) := Serialize (mkCrossLink 9009 9 9 [] [] 1 5)]} {[1 := Serialize link8]} None []) 1 = Some s'
    ∧ clBlockNum last = 9.
Proof.
  destruct (LastContinuousCrossLink_terminates (mkClStore {[(1, 9) := Serialize (mkCrossLink 9009 9 9 [] [] 1 5)]} {[1 := Serialize link8]} None []) 1 link8)
    as (s' & last & k & E & Hk & Hn & Hl & _); [vm_compute; reflexivity|vm_compute; reflexivity|].
  exists s', last. split; [exact E|]. destruct k as [|[|k]].
  - vm_compute in Hn. discriminate Hn.
  - vm_compute in Hl. injection Hl as ->. reflexivity.
  - destruct (Hk 1%nat ltac:(lia)) as [x Hx]. vm_compute in Hx. discriminate Hx.
Defined.

(** *** Shard states *)
#[local] Existing Instance electionSchedule.
Definition beaconOf (last : bool) : ChainReader :=
  mkChainReader 0 (plainHeader 9 9) (Committee.demoChain [1; 2]) (λ _, true) (λ _, false) (λ _ _, None) (λ _, None) (λ _, last).
Definition epochHeader (ss : bytes) : Header := mkHeader 0 9 3 9 0 0 [] [] ss [] [] 0 0.
Definition electedState : State := match ComputeCommittee 4 (Some (Committee.demoChain [1; 2])) with Ok (ss, _) => ss | _ => noState end.

(** An encoding that knows the elected state and the empty one. *)
Definition electedCodec : StateCodec := {|
  rlpEncodeState s := if decide (s = electedState) then Some [1] else None;
  rlpEncodeLegacy s := match s with [] => Some [192] | _ => None end;
  rlpDecodeState b := if decide (b = [1]) then Some electedState else None;
  rlpDecodeLegacy b := if decide (b = [192]) then Some [] else None;
|}.
#[local] Existing Instance electedCodec.
#[local] Instance electedCodec_laws : StateCodecLaws.
Proof.
  split; cbn [rlpEncodeState rlpEncodeLegacy rlpDecodeState rlpDecodeLegacy electedCodec].
  - intros s b. case_decide; [|done]. intros [= <-] _. subst s. reflexivity.
  - intros [|] b; [|done]. intros [= <-]. reflexivity.
  - intros [|] b; [|done]. intros [= <-]. reflexivity.
Qed.

Lemma VerifyShardState_elected_witness :
  ∃ ss q, ComputeCommittee 4 (Some (Committee.demoChain [1; 2])) = Ok (ss, q) ∧ GetShardState (epochHeader [1]) = Some ss ∧ Epoch ss = Some 4.
Proof.
  assert (match VerifyShardState (beaconOf true) (beaconOf true) (epochHeader [1]) with Ok _ => true | _ => false end = true) as H by (vm_compute; reflexivity).
  destruct (VerifyShardState (beaconOf true) (beaconOf true) (epochHeader [1])) as [p| |] eqn:E; [|discriminate H|discriminate H].
  destruct (VerifyShardState_elected (beaconOf true) (beaconOf true) (epochHeader [1]) p) as (ss & q & Hc & Hg); [reflexivity|reflexivity|reflexivity|exact E|].
  assert (Epoch ss = Some 4) as He.
  { change (hdEpoch (epochHeader [1]) + 1) with 4 in Hc. change (crProvider (beaconOf true)) with (Committee.demoChain [1; 2]) in Hc. vm_compute in Hc. injection Hc as <- _. reflexivity. }
  exists ss, q. split; [exact Hc|]. split; [|exact He]. rewrite Hg, He. reflexivity.
Defined.

Lemma empty_state_accepted_witness :
  VerifyShardState (beaconOf false) (beaconOf false) (epochHeader [192]) = Ok (Committee.demoChain [1; 2]) ∧ hdIsLastBlockInEpoch (epochHeader [192]) = true.
Proof. apply (empty_state_accepted (beaconOf false) (beaconOf false) (epochHeader [192]) [192]); try reflexivity. discriminate. Defined.
