(* ===== verification/CrossShard.v ===== *)
(** * Cross-shard receipts (core/types/cx_receipt.go, core/block_validator.go, node/node_cross_shard.go)

    A transaction to another shard leaves a receipt in its block.  The block's header has a root
    over the receipts of every destination shard; after the block is committed its node sends
    each destination the receipts with a proof: the roots of all destinations, the header and its
    commit signature.  The destination keeps proofs that validate, proposes them in a block,
    checks the proposals of others, credits the receipts ([ApplyIncomingReceipt], in
    [StateTransfer.v]) and marks them as spent.

    The roots of lists are a parameter ([DeriveSha] is the root of a trie of the encoded
    elements), as are Keccak and RLP.  Header signatures are checked by the engine, of which this
    file uses the interface [HeaderVerifier]; [Engine.v] implements it. *)

From Stdlib Require Import ZArith Lia.
From stdpp Require Import base gmap list option sets.
From S2P Require Import Prelude Decimal Mask ShardState Epochs Votepower Quorum Effective Staking Committee FBFTLog ViewChange Engine.
Local Open Scope Z_scope.

(** ** Data *)
Record CXReceipt := mkCXReceipt {
  cxTxHash : Hash; cxFrom : Address; cxTo : option Address; cxShardID : Z; cxToShardID : Z; cxAmount : Z;
}.

Record CXMerkleProof := mkCXMerkleProof {
  mpBlockNum : Z; mpBlockHash : Hash; mpShardID : Z; mpCXReceiptHash : Hash;
  (** The destination shards and the roots of their receipts. *)
  mpShardIDs : list Z; mpCXShardHashes : list Hash;
}.

(** The pointers and the slice may be nil. *)
Record CXReceiptsProof := mkCXReceiptsProof {
  cxpReceipts : option (list CXReceipt); cxpMerkleProof : option CXMerkleProof; cxpHeader : option Header;
  cxpCommitSig : bytes; cxpCommitBitmap : bytes;
}.
Definition receiptsOf (cxp : CXReceiptsProof) : list CXReceipt := default [] (cxpReceipts cxp).

(** ** Hashes and encodings *)
Class ReceiptLib := {
  rlpCXReceipt : CXReceipt → bytes;
  rlpCXReceiptsProof : CXReceiptsProof → bytes;
  (** The root of the trie that maps the encoded indices to the elements. *)
  trieRoot : list bytes → Hash;
  Keccak256Hash : bytes → Hash;
  encodeCXReceipts : list CXReceipt → option bytes;
  decodeCXReceipts : bytes → option (list CXReceipt);
  decodeCXReceiptsProof : bytes → option CXReceiptsProof;
}.

Inductive cxError :=
| errBeforeFork | errNoReceipts | errDistinctShards | errNoMatchingShard | errTrieRoot | errOutgoingRoot | errBlockHash
| errHeaderSig (e : engineError) | errDoubleSpent | errWrongShard (got expected : Z) | errIncomingRoot | errStore.

Section receipts.
Context `{RL : ReceiptLib}.

Definition DeriveSha (cs : list CXReceipt) : Hash := trieRoot (rlpCXReceipt <$> cs).
Definition EmptyRootHash : Hash := trieRoot [].

Definition MaxToShardID (cs : list CXReceipt) : Z := foldl (λ m c, if m <? cxToShardID c then cxToShardID c else m) 0 cs.
Definition GetToShardReceipts (cs : list CXReceipt) (shardID : Z) : list CXReceipt := List.filter (λ c, cxToShardID c =? shardID) cs.

(** One destination in the buffer that is hashed: the shard in four bytes and its root. *)
Definition rootEntry (shardID : Z) (root : Hash) : bytes := toBytes 4 shardID ++ toBytes 32 root.

Definition ComputeMerkleRoot (cs : list CXReceipt) : Hash :=
  let byteBuffer := foldl (λ buf i, let shardReceipts := GetToShardReceipts cs (Z.of_nat i) in
                             match shardReceipts with [] => buf | _ => buf ++ rootEntry (Z.of_nat i) (DeriveSha shardReceipts) end)
                      [] (seq 0 (Z.to_nat (MaxToShardID cs) + 1)) in
  match byteBuffer with [] => EmptyRootHash | _ => Keccak256Hash byteBuffer end.

Fixpoint sameShard (shardID : Z) (cs : list CXReceipt) : bool :=
  match cs with [] => true | c :: rest => if shardID =? cxToShardID c then sameShard shardID rest else false end.
Definition GetToShardID (cxp : CXReceiptsProof) : cxError + Z :=
  match receiptsOf cxp with
  | [] => inl errNoReceipts
  | c :: rest => if sameShard (cxToShardID c) rest then inr (cxToShardID c) else inl errDistinctShards
  end.

Definition ContainsEmptyField (cxp : CXReceiptsProof) : bool :=
  let anyNil := match cxpReceipts cxp, cxpMerkleProof cxp, cxpHeader cxp with Some _, Some _, Some _ => false | _, _, _ => true end in
  let anyZero := (length (cxpCommitSig cxp) + length (cxpCommitBitmap cxp) =? 0)%nat in
  anyNil || anyZero.
End receipts.

(** ** Validation of a proof *)

(** The interface of the engine: the signature of a header, checked in a state of the engine. *)
Class HeaderVerifier (E : Type) := { verifyHeaderSig : E → Header → bytes → bytes → result engineError unit * E }.

Section validate.
Context {E : Type} `{RL : ReceiptLib, HL : HeaderLib, HV : !HeaderVerifier E}.
Context (config : ChainConfig).

(** The loop over the destinations: the buffer, the root of the shard and whether it was found;
    [None] is the index out of range when there are fewer roots than shards. *)
Fixpoint proofLoop (toShardID : Z) (shardIDs : list Z) (hashes : list Hash) (byteBuffer : bytes) (shardRoot : Hash) (found : bool)
    : option (bytes * Hash * bool) :=
  match shardIDs with
  | [] => Some (byteBuffer, shardRoot, found)
  | id :: ids =>
      match hashes with
      | [] => None
      | h :: hs =>
          let byteBuffer := byteBuffer ++ rootEntry id h in
          if id =? toShardID then proofLoop toShardID ids hs byteBuffer h true else proofLoop toShardID ids hs byteBuffer shardRoot found
      end
  end.

(** The checks before the signature. *)
Definition validateProof (cxp : CXReceiptsProof) : result cxError Header :=
  header ← lift_panic (cxpHeader cxp);
  if negb (AcceptsCrossTx config (hdEpoch header)) then Err errBeforeFork
  else match GetToShardID cxp with
       | inl e => Err e
       | inr toShardID =>
           merkleProof ← lift_panic (cxpMerkleProof cxp);
           '(byteBuffer, shardRoot, foundMatchingShardID) ←
             lift_panic (proofLoop toShardID (mpShardIDs merkleProof) (mpCXShardHashes merkleProof) [] 0 false);
           if negb foundMatchingShardID then Err errNoMatchingShard
           else if negb (DeriveSha (receiptsOf cxp) =? shardRoot) then Err errTrieRoot
           else
             let outgoing := match byteBuffer with [] => EmptyRootHash | _ => Keccak256Hash byteBuffer end in
             if negb (outgoing =? mpCXReceiptHash merkleProof) then Err errOutgoingRoot
             else if negb (headerHash header =? mpBlockHash merkleProof) || negb (hdOutgoingReceiptHash header =? mpCXReceiptHash merkleProof)
             then Err errBlockHash
             else Ok header
       end.

Definition ValidateCXReceiptsProof (e : E) (cxp : CXReceiptsProof) : result cxError unit * E :=
  match validateProof cxp with
  | Ok header =>
      match verifyHeaderSig e header (copyTo 96 (cxpCommitSig cxp)) (cxpCommitBitmap cxp) with
      | (Ok _, e') => (Ok tt, e')
      | (Err er, e') => (Err (errHeaderSig er), e')
      | (Panic, e') => (Panic, e')
      end
  | Err er => (Err er, e)
  | Panic => (Panic, e)
  end.

(** ** The database (core/rawdb/accessors_offchain.go) *)
Definition SpentByte : Z := 0.
Record cxDB := mkCxDB { dbReceipts : gmap (Z * Z * Hash) bytes; dbSpent : gmap (Z * Z) Z }.

(** The key of a proof, [None] being the dereference of a nil proof. *)
Definition spentKey (cxp : CXReceiptsProof) : option (Z * Z) := mp ← cxpMerkleProof cxp; Some (mpShardID mp, u64 (mpBlockNum mp)).
Definition IsSpent (d : cxDB) (cxp : CXReceiptsProof) : option bool :=
  key ← spentKey cxp; Some (match dbSpent d !! key with Some by_ => by_ =? SpentByte | None => false end).

Fixpoint WriteCXReceiptsProofSpent (d : cxDB) (cxps : list CXReceiptsProof) : option cxDB :=
  match cxps with
  | [] => Some d
  | cxp :: rest => key ← spentKey cxp; WriteCXReceiptsProofSpent (mkCxDB (dbReceipts d) (<[key := SpentByte]> (dbSpent d))) rest
  end.

Definition ReadCXReceipts (d : cxDB) (shardID blockNum : Z) (blockHash : Hash) : option (list CXReceipt) :=
  match dbReceipts d !! (shardID, blockNum, blockHash) with
  | Some (b :: bs) => decodeCXReceipts (b :: bs)
  | _ => None
  end.

(** The receipts of a committed block, by destination, and its spent proofs
    ([CommitOffChainData]); an encoding that fails is reported. *)
Fixpoint writeReceipts (d : cxDB) (header : Header) (cxReceipts : list CXReceipt) (shards : list nat) : result cxError cxDB :=
  match shards with
  | [] => Ok d
  | i :: rest =>
      if Z.of_nat i =? hdShardID header then writeReceipts d header cxReceipts rest
      else match encodeCXReceipts (GetToShardReceipts cxReceipts (Z.of_nat i)) with
           | None => Err errStore
           | Some b => writeReceipts (mkCxDB (<[(Z.of_nat i, u64 (hdNumber header), headerHash header) := b]> (dbReceipts d)) (dbSpent d)) header cxReceipts rest
           end
  end.

Context `{SC : Schedule}.

Definition commitCX (d : cxDB) (header : Header) (cxReceipts : list CXReceipt) (incoming : list CXReceiptsProof) : result cxError cxDB :=
  if HasCrossTxFields config (hdEpoch header) then
    d' ← writeReceipts d header cxReceipts (seq 0 (Z.to_nat (numShards (InstanceForEpoch (hdEpoch header)))));
    lift_panic (WriteCXReceiptsProofSpent d' incoming)
  else Ok d.

(** ** Sending proofs *)

(** [BlockChain.CXMerkleProof]; the loop collects the shards that have receipts. *)
Definition shardRoots (d : cxDB) (header : Header) : list (Z * Hash) :=
  omap (λ i, match ReadCXReceipts d (Z.of_nat i) (u64 (hdNumber header)) (headerHash header) with
             | Some (c :: cs) => Some (Z.of_nat i, DeriveSha (c :: cs))
             | _ => None
             end) (seq 0 (Z.to_nat (numShards (InstanceForEpoch (hdEpoch header))))).
(** [None] is the nil proof of a block without receipts. *)
Definition makeCXMerkleProof (d : cxDB) (header : Header) : option CXMerkleProof :=
  match shardRoots d header with
  | [] => None
  | roots => Some (mkCXMerkleProof (hdNumber header) (headerHash header) (hdShardID header) (hdOutgoingReceiptHash header) roots.*1 roots.*2)
  end.

Definition BroadcastCXReceiptsWithShardID (d : cxDB) (header : Header) (commitSig commitBitmap : bytes) (toShardID : Z) : option CXReceiptsProof :=
  match ReadCXReceipts d toShardID (u64 (hdNumber header)) (headerHash header) with
  | Some (c :: cs) => Some (mkCXReceiptsProof (Some (c :: cs)) (makeCXMerkleProof d header) (Some header) commitSig commitBitmap)
  | _ => None
  end.

(** What is sent, with the destinations; the payload of the commit signature has its bitmap
    after 96 bytes. *)
Definition BroadcastCXReceipts (d : cxDB) (header : Header) (commitSigAndBitmap : bytes) (myShardID : Z) : list (Z * CXReceiptsProof) :=
  if (length commitSigAndBitmap <=? 96)%nat then []
  else
    let commitSig := take 96 commitSigAndBitmap in let commitBitmap := drop 96 commitSigAndBitmap in
    omap (λ i, if Z.of_nat i =? myShardID then None
               else (λ cxp, (Z.of_nat i, cxp)) <$> BroadcastCXReceiptsWithShardID d header commitSig commitBitmap (Z.of_nat i))
      (seq 0 (Z.to_nat (numShards (InstanceForEpoch (hdEpoch header))))).

(** ** Receiving, proposing and checking proofs (node/node.go, node/node_newblock.go) *)

(** [strings.Contains(err.Error(), MsgNoShardStateFromDB)]: the shard state could not be read. *)
Definition noShardState (e : cxError) : bool := match e with errHeaderSig errReadState => true | _ => false end.

(** The proofs that wait, under the shard and number of their header: the keys are these two
    numbers in a text. *)
Definition maxCrossTxnSize : Z := 4096.
Definition headerKey (h : Header) : Z * Z := (hdShardID h, u64 (hdNumber h)).

(** [AddPendingReceipts] after the validation. *)
Definition addChecked (myShardID : Z) (pending : gmap (Z * Z) CXReceiptsProof) (receipts : CXReceiptsProof) (header : Header)
    : gmap (Z * Z) CXReceiptsProof :=
  if myShardID =? hdShardID header then pending
  else if (u64 (hdNumber header) =? 0) || negb (AcceptsCrossTx config (hdEpoch header)) then pending
  else if maxCrossTxnSize <=? Z.of_nat (size pending) then pending
  else match pending !! headerKey header with
       | Some _ => pending
       | None => <[headerKey header := receipts]> pending
       end.

(** [None] is a panic. *)
Definition AddPendingReceipts (myShardID : Z) (e : E) (pending : gmap (Z * Z) CXReceiptsProof) (receipts : CXReceiptsProof)
    : option (gmap (Z * Z) CXReceiptsProof * E) :=
  if ContainsEmptyField receipts then Some (pending, e)
  else
    header ← cxpHeader receipts;
    match ValidateCXReceiptsProof e receipts with
    | (Panic, _) => None
    | (Err er, e') => Some (if noShardState er then addChecked myShardID pending receipts header else pending, e')
    | (Ok _, e') => Some (addChecked myShardID pending receipts header, e')
    end.

Definition ProcessReceiptMessage (myShardID : Z) (e : E) (pending : gmap (Z * Z) CXReceiptsProof) (msgPayload : bytes)
    : option (gmap (Z * Z) CXReceiptsProof * E) :=
  match decodeCXReceiptsProof msgPayload with
  | None => Some (pending, e)
  | Some cxp => AddPendingReceipts myShardID e pending cxp
  end.

Definition IncomingReceiptsLimit : Z := 6000.

(** The loop of [proposeReceiptsProof]: the number of proposed receipts, the hashes seen, the
    proposed proofs and those that stay pending. *)
Fixpoint proposeLoop (d : cxDB) (shardID : Z) (e : E) (cxps : list CXReceiptsProof) (numProposed : Z) (m : gset Hash)
    (validReceiptsList pendingReceiptsList : list CXReceiptsProof) : option (list CXReceiptsProof * list CXReceiptsProof * E) :=
  match cxps with
  | [] => Some (validReceiptsList, pendingReceiptsList, e)
  | cxp :: rest =>
      if IncomingReceiptsLimit <? numProposed
      then proposeLoop d shardID e rest numProposed m validReceiptsList (pendingReceiptsList ++ [cxp])
      else
        spent ← IsSpent d cxp;
        if spent : bool then proposeLoop d shardID e rest numProposed m validReceiptsList pendingReceiptsList
        else
          mp ← cxpMerkleProof cxp;
          if decide (mpBlockHash mp ∈ m) then proposeLoop d shardID e rest numProposed m validReceiptsList pendingReceiptsList
          else
            let m' := {[mpBlockHash mp]} ∪ m in
            if negb (sameShard shardID (receiptsOf cxp)) then proposeLoop d shardID e rest numProposed m' validReceiptsList pendingReceiptsList
            else match ValidateCXReceiptsProof e cxp with
                 | (Panic, _) => None
                 | (Err er, e') =>
                     proposeLoop d shardID e' rest numProposed m' validReceiptsList
                       (if noShardState er then pendingReceiptsList ++ [cxp] else pendingReceiptsList)
                 | (Ok _, e') =>
                     proposeLoop d shardID e' rest (numProposed + Z.of_nat (length (receiptsOf cxp))) m' (validReceiptsList ++ [cxp]) pendingReceiptsList
                 end
  end.

Fixpoint rebuildPending (cxps : list CXReceiptsProof) (pending : gmap (Z * Z) CXReceiptsProof) : option (gmap (Z * Z) CXReceiptsProof) :=
  match cxps with
  | [] => Some pending
  | v :: rest => header ← cxpHeader v; rebuildPending rest (<[headerKey header := v]> pending)
  end.

(** The map is iterated, not the sorted slice that the function also makes: the order is an
    argument. *)
Definition proposeReceiptsProof (order : gmap (Z * Z) CXReceiptsProof → list CXReceiptsProof) (d : cxDB) (shardID currentEpoch : Z) (e : E)
    (pending : gmap (Z * Z) CXReceiptsProof) : option (list CXReceiptsProof * gmap (Z * Z) CXReceiptsProof * E) :=
  if negb (HasCrossTxFields config currentEpoch) then Some ([], pending, e)
  else
    '(valid, left_, e') ← proposeLoop d shardID e (order pending) 0 ∅ [] [];
    pending' ← rebuildPending left_ ∅;
    Some (valid, pending', e').

(** The first receipt for another shard. *)
Fixpoint wrongShard (s : Z) (cs : list CXReceipt) : option Z :=
  match cs with [] => None | c :: rest => if negb (cxToShardID c =? s) then Some (cxToShardID c) else wrongShard s rest end.

Fixpoint verifyLoop (d : cxDB) (shardID : Z) (e : E) (cxps : list CXReceiptsProof) (m : gset Hash) : result cxError unit * E :=
  match cxps with
  | [] => (Ok tt, e)
  | cxp :: rest =>
      match IsSpent d cxp, cxpMerkleProof cxp with
      | Some spent, Some mp =>
          if spent : bool then (Err errDoubleSpent, e)
          else if decide (mpBlockHash mp ∈ m) then (Err errDoubleSpent, e)
          else match wrongShard shardID (receiptsOf cxp) with
               | Some got => (Err (errWrongShard got shardID), e)
               | None =>
                   match ValidateCXReceiptsProof e cxp with
                   | (Ok _, e') => verifyLoop d shardID e' rest ({[mpBlockHash mp]} ∪ m)
                   | (Err er, e') => (Err er, e')
                   | (Panic, e') => (Panic, e')
                   end
               end
      | _, _ => (Panic, e)
      end
  end.

(** The root of the proofs of a block. *)
Definition incomingRoot (cxps : list CXReceiptsProof) : Hash :=
  match cxps with [] => EmptyRootHash | _ => trieRoot (rlpCXReceiptsProof <$> cxps) end.

Definition verifyIncomingReceipts (d : cxDB) (shardID : Z) (e : E) (header : Header) (cxps : list CXReceiptsProof) : result cxError unit * E :=
  match verifyLoop d shardID e cxps ∅ with
  | (Ok _, e') => (if negb (incomingRoot cxps =? hdIncomingReceiptHash header) then Err errIncomingRoot else Ok tt, e')
  | r => r
  end.
End validate.

(** [Engine.v] is such a verifier, for the chain as it stands. *)
Section engine.
Context {G Sg C1 C2 : Type} `{BK : BlsKey G, BS : BlsSign Sg, BC : !BlsCrypto G Sg, GL : GenesisLib, SC : Schedule, HL : HeaderLib}.
Context `{CE : !Cache C1 epochCtxKey (epochCtx G), CV : !Cache C2 verifiedSigKey unit}.
Context (isTestnet : bool) (keyOf : SerializedPublicKey → option G) (chain : ChainReader).

Definition engineVerifier : HeaderVerifier (engineImpl (C1 := C1) (C2 := C2)) :=
  {| verifyHeaderSig e h sig bm := VerifyHeaderSignature isTestnet keyOf chain e h sig bm |}.
End engine.

(** * Properties *)

(** What the checks rely on of the engine: in its states, a signature that was accepted is accepted
    again, whatever else was verified in between by the same call. *)
Class HeaderVerifierLaws (E : Type) `{HV : HeaderVerifier E} := {
  verifierOk : E → Prop;
  verifier_step e h sig bm : verifierOk e → verifierOk (verifyHeaderSig e h sig bm).2;
  verifier_again e h sig bm e' : verifierOk e → verifyHeaderSig e h sig bm = (Ok tt, e') → ∃ e'', verifyHeaderSig e' h sig bm = (Ok tt, e'');
}.

Section engine_laws.
Context {G Sg C1 C2 : Type} `{BK : BlsKey G, BS : BlsSign Sg, BC : !BlsCrypto G Sg, GL : GenesisLib, SC : Schedule, HL : HeaderLib}.
Context `{CE : !Cache C1 epochCtxKey (epochCtx G), CV : !Cache C2 verifiedSigKey unit}.
Context `{CEL : !CacheLaws C1 epochCtxKey (epochCtx G), CVL : !CacheLaws C2 verifiedSigKey unit}.
Context (isTestnet : bool) (keyOf : SerializedPublicKey → option G) (chain : ChainReader).
#[local] Existing Instance engineVerifier.

Lemma engineVerifier_laws : HeaderVerifierLaws (HV := engineVerifier isTestnet keyOf chain) (engineImpl (C1 := C1) (C2 := C2)).
Proof.
  refine {| verifierOk e := engineInv isTestnet keyOf chain e |}.
  - intros e h sig bm HI. cbn [verifyHeaderSig engineVerifier]. unfold VerifyHeaderSignature. destruct (_ <=? _); [done|by apply verify_step].
  - intros e h sig bm e' HI. cbn [verifyHeaderSig engineVerifier]. unfold VerifyHeaderSignature. destruct (_ <=? _).
    { intros [= <-]. by eexists. }
    intros E. destruct (verifySignatureCached_inv _ _ _ _ _ _ _ _ HI E) as [_ Hk]. apply (cached_accepted _ _ _ _ _ _ tt). by apply Hk.
Defined.
End engine_laws.

(** ** Replay and double spending *)
Section spending.
Context {E : Type} `{RL : ReceiptLib, HL : HeaderLib, HV : !HeaderVerifier E}.
Context (config : ChainConfig).
Implicit Types (d : cxDB) (e : E) (cxp : CXReceiptsProof).

(** The proof with another shard and block number in it. *)
Definition rekey (shardID blockNum : Z) cxp : CXReceiptsProof :=
  mkCXReceiptsProof (cxpReceipts cxp)
    ((λ mp, mkCXMerkleProof blockNum (mpBlockHash mp) shardID (mpCXReceiptHash mp) (mpShardIDs mp) (mpCXShardHashes mp)) <$> cxpMerkleProof cxp)
    (cxpHeader cxp) (cxpCommitSig cxp) (cxpCommitBitmap cxp).

(** The validation does not read them. *)
Lemma validate_rekey sh n e cxp : ValidateCXReceiptsProof config e (rekey sh n cxp) = ValidateCXReceiptsProof config e cxp.
Proof.
  unfold ValidateCXReceiptsProof. assert (validateProof config (rekey sh n cxp) = validateProof config cxp) as ->; [|done].
  unfold validateProof, GetToShardID, receiptsOf, rekey. cbn [cxpHeader cxpReceipts cxpMerkleProof].
  destruct (cxpHeader cxp) as [h|]; [|done]. cbn [lift_panic mbind result_mbind result_bind]. destruct (negb _); [done|].
  destruct (default [] (cxpReceipts cxp)) as [|c cs]; [done|]. destruct (sameShard _ _); [|done].
  destruct (cxpMerkleProof cxp) as [mp|]; [|done]. done.
Qed.

Lemma validate_again `{HVL : !HeaderVerifierLaws E} e cxp e' :
  verifierOk e → ValidateCXReceiptsProof config e cxp = (Ok tt, e') →
  ∃ e'', ValidateCXReceiptsProof config e' cxp = (Ok tt, e'').
Proof.
  intros Hok. unfold ValidateCXReceiptsProof. destruct (validateProof config cxp) as [h| |]; [|done|done].
  destruct (verifyHeaderSig e h _ _) as [[[]| |] e1] eqn:Ev; [|done|done]. intros [= <-].
  destruct (verifier_again _ _ _ _ _ Hok Ev) as [e'' ->]. by exists e''.
Qed.

Lemma verify_single d shardID e header cxp e' :
  verifyIncomingReceipts config d shardID e header [cxp] = (Ok tt, e') →
  ∃ mp, cxpMerkleProof cxp = Some mp ∧ IsSpent d cxp = Some false ∧ wrongShard shardID (receiptsOf cxp) = None
    ∧ ValidateCXReceiptsProof config e cxp = (Ok tt, e') ∧ hdIncomingReceiptHash header = incomingRoot [cxp].
Proof.
  unfold verifyIncomingReceipts. cbn [verifyLoop]. destruct (IsSpent d cxp) as [[]|]; [by destruct (cxpMerkleProof cxp)| |done].
  destruct (cxpMerkleProof cxp) as [mp|]; [|done]. rewrite decide_False by set_solver. destruct (wrongShard _ _); [done|].
  destruct (ValidateCXReceiptsProof _ _ _) as [[[]| |] e1]; [|done|done]. destruct (Z.eqb_spec (incomingRoot [cxp]) (hdIncomingReceiptHash header)) as [He|]; [|done].
  intros [= <-]. by exists mp.
Qed.

(** C8: Receipts can be credited again and again: the number and the shard of the source block in
    the proof, under which it is marked as spent, are not compared with the header.  After a
    block with a proof was accepted and the proof is spent, a block with the same proof and any
    other shard or number that is not marked is accepted, with the same receipts. *)
Theorem receipts_replayed `{HVL : !HeaderVerifierLaws E} d d' shardID e e' header header' cxp sh n :
  verifierOk e → verifyIncomingReceipts config d shardID e header [cxp] = (Ok tt, e') →
  WriteCXReceiptsProofSpent d [cxp] = Some d' → dbSpent d' !! (sh, u64 n) = None →
  hdIncomingReceiptHash header' = incomingRoot [rekey sh n cxp] →
  IsSpent d' cxp = Some true ∧ receiptsOf (rekey sh n cxp) = receiptsOf cxp
  ∧ ∃ e'', verifyIncomingReceipts config d' shardID e' header' [rekey sh n cxp] = (Ok tt, e'').
Proof.
  intros Hok (mp & Hmp & Hns & Hw & Hv & Hr)%verify_single Hd Hfree Hroot. cbn [WriteCXReceiptsProofSpent] in Hd.
  unfold spentKey in Hd. rewrite Hmp in Hd. cbn [mbind option_bind] in Hd. injection Hd as <-. split_and!.
  - unfold IsSpent, spentKey. rewrite Hmp. cbn [mbind option_bind dbSpent]. by rewrite lookup_insert_eq.
  - done.
  - destruct (validate_again _ _ _ Hok Hv) as [e'' Hv2]. exists e''. unfold verifyIncomingReceipts. cbn [verifyLoop].
    assert (IsSpent (mkCxDB (dbReceipts d) (<[(mpShardID mp, u64 (mpBlockNum mp)) := SpentByte]> (dbSpent d))) (rekey sh n cxp) = Some false) as ->.
    { unfold IsSpent, spentKey, rekey. rewrite Hmp. cbn [cxpMerkleProof fmap option_fmap option_map mbind option_bind mpShardID mpBlockNum].
      cbn [dbSpent] in Hfree |- *. by rewrite Hfree. }
    assert (cxpMerkleProof (rekey sh n cxp)
      = Some (mkCXMerkleProof n (mpBlockHash mp) sh (mpCXReceiptHash mp) (mpShardIDs mp) (mpCXShardHashes mp))) as -> by (unfold rekey; by rewrite Hmp).
    rewrite decide_False by set_solver. change (receiptsOf (rekey sh n cxp)) with (receiptsOf cxp). rewrite Hw, validate_rekey, Hv2, Hroot, Z.eqb_refl. done.
Qed.

(** What an accepted list of proofs is. *)
Definition creditable d shardID cxp : Prop :=
  ∃ mp h, cxpMerkleProof cxp = Some mp ∧ cxpHeader cxp = Some h ∧ mpBlockHash mp = headerHash h
    ∧ dbSpent d !! (mpShardID mp, u64 (mpBlockNum mp)) ≠ Some SpentByte ∧ Forall (λ c, cxToShardID c = shardID) (receiptsOf cxp).

Lemma validateProof_header cxp h : validateProof config cxp = Ok h →
  cxpHeader cxp = Some h ∧ ∃ mp, cxpMerkleProof cxp = Some mp ∧ mpBlockHash mp = headerHash h.
Proof.
  unfold validateProof. destruct (cxpHeader cxp) as [h'|]; [|done]. cbn [lift_panic mbind result_mbind result_bind]. destruct (negb _); [done|].
  destruct (GetToShardID cxp); [done|]. destruct (cxpMerkleProof cxp) as [mp|]; [|done]. cbn [lift_panic mbind result_mbind result_bind].
  destruct (proofLoop _ _ _ _ _ _) as [[[b r] f]|]; [|done]. cbn [lift_panic mbind result_mbind result_bind].
  destruct (negb f); [done|]. destruct (negb _); [done|]. destruct (negb (_ =? mpCXReceiptHash mp)); [done|].
  destruct (Z.eqb_spec (headerHash h') (mpBlockHash mp)) as [He|]; [|done]. cbn [negb orb]. destruct (negb _); [done|]. intros [= <-]. by split; [|exists mp].
Qed.

Lemma wrongShard_None s cs : wrongShard s cs = None → Forall (λ c, cxToShardID c = s) cs.
Proof. induction cs as [|c cs IH]; [constructor|]. cbn. destruct (Z.eqb_spec (cxToShardID c) s); [|done]. cbn. constructor; auto. Qed.

Lemma verifyLoop_creditable d shardID e cxps m e' :
  verifyLoop config d shardID e cxps m = (Ok tt, e') →
  Forall (creditable d shardID) cxps ∧ NoDup (cxpHeader <$> cxps) ∧ Forall (λ cxp, ∀ h, cxpHeader cxp = Some h → headerHash h ∉ m) cxps.
Proof.
  revert e m. induction cxps as [|cxp cxps IH]; intros e m; cbn [verifyLoop]; [by repeat constructor|].
  destruct (IsSpent d cxp) as [spent|] eqn:Hs; [|done]. destruct (cxpMerkleProof cxp) as [mp|] eqn:Hmp; [|done]. destruct spent; [done|].
  destruct (decide (mpBlockHash mp ∈ m)) as [|Hm]; [done|]. destruct (wrongShard shardID (receiptsOf cxp)) eqn:Hw; [done|].
  destruct (ValidateCXReceiptsProof config e cxp) as [[[]| |] e1] eqn:Hv; [|done|done]. intros (Hf & Hnd & Hm')%IH.
  unfold ValidateCXReceiptsProof in Hv. destruct (validateProof config cxp) as [h| |] eqn:Hp; [|done|done].
  apply validateProof_header in Hp as (Hh & mp' & Hmp' & Hbh). rewrite Hmp in Hmp'. injection Hmp' as <-.
  assert (dbSpent d !! (mpShardID mp, u64 (mpBlockNum mp)) ≠ Some SpentByte) as Hns.
  { unfold IsSpent, spentKey in Hs. rewrite Hmp in Hs. cbn [mbind option_bind] in Hs. intros Heq. by rewrite Heq in Hs. }
  split_and!.
  - constructor; [|done]. exists mp, h. split_and!; try done. by apply wrongShard_None.
  - rewrite fmap_cons. constructor; [|done]. rewrite Hh. intros (cxp' & Hc' & Hin)%list_elem_of_fmap. rewrite Forall_forall in Hm'.
    apply (Hm' cxp' Hin h); [done|]. rewrite <-Hbh. set_solver.
  - constructor; [intros h' Hh'; rewrite Hh in Hh'; injection Hh' as <-; by rewrite <-Hbh|].
    eapply Forall_impl; [exact Hm'|]. cbn. intros cxp' Hc h' Hh'. specialize (Hc h' Hh'). set_solver.
Qed.

(** The blocks of a chain: each is checked in some state of the engine, and its proofs are marked. *)
Inductive creditRun (shardID : Z) : cxDB → list (list CXReceiptsProof) → cxDB → Prop :=
| run_nil d : creditRun shardID d [] d
| run_block d cxps header e e' d1 rest d2 :
    verifyIncomingReceipts config d shardID e header cxps = (Ok tt, e') → WriteCXReceiptsProofSpent d cxps = Some d1 →
    creditRun shardID d1 rest d2 → creditRun shardID d (cxps :: rest) d2.

(** A proof whose key is that of its header. *)
Definition bound cxp : Prop := ∀ mp h, cxpMerkleProof cxp = Some mp → cxpHeader cxp = Some h → mpShardID mp = hdShardID h ∧ mpBlockNum mp = hdNumber h.

Lemma WriteSpent_marks d cxps d' key :
  WriteCXReceiptsProofSpent d cxps = Some d' →
  dbSpent d !! key = Some SpentByte ∨ (∃ cxp, cxp ∈ cxps ∧ spentKey cxp = Some key) → dbSpent d' !! key = Some SpentByte.
Proof.
  revert d. induction cxps as [|cxp cxps IH]; intros d Hw; cbn [WriteCXReceiptsProofSpent] in Hw.
  { injection Hw as <-. intros [?|(c & Hc & _)]; [done|]. by apply elem_of_nil in Hc. }
  apply bind_Some in Hw as (k & Hk & Hw). intros H. apply (IH _ Hw). cbn [dbSpent]. destruct (decide (k = key)) as [->|Hne].
  { left. by rewrite lookup_insert_eq. }
  destruct H as [H|(c & [->|Hc]%elem_of_cons & Hc')]; [left; by rewrite lookup_insert_ne|congruence|right; eauto].
Qed.

Lemma run_unspent shardID d blocks d' :
  creditRun shardID d blocks d' → Forall bound (concat blocks) →
  NoDup (cxpHeader <$> concat blocks)
  ∧ Forall (λ cxp, (∃ h, cxpHeader cxp = Some h ∧ dbSpent d !! headerKey h ≠ Some SpentByte) ∧ Forall (λ c, cxToShardID c = shardID) (receiptsOf cxp)) (concat blocks).
Proof.
  induction 1 as [d|d cxps header e e' d1 rest d2 Hv Hw _ IH]; cbn [concat]; [by repeat constructor|].
  intros [Hb1 Hb2]%Forall_app. destruct (IH Hb2) as [Hnd Hf]. unfold verifyIncomingReceipts in Hv.
  destruct (verifyLoop config d shardID e cxps ∅) as [[[]| |] e1] eqn:Hl; [|done|done]. destruct (verifyLoop_creditable _ _ _ _ _ _ Hl) as (Hc & Hnd1 & _).
  rewrite Forall_forall in Hc, Hb1, Hf. rewrite fmap_app. split.
  - apply NoDup_app. split_and!; [done| |done]. intros x (c1 & -> & Hc1)%list_elem_of_fmap (c2 & Heq & Hc2)%list_elem_of_fmap.
    destruct (Hc c1 Hc1) as (mp & h & Hmp & Hh & _). destruct (Hb1 c1 Hc1 mp h Hmp Hh) as [Hk1 Hk2].
    destruct (Hf c2 Hc2) as [(h2 & Hh2 & Hns) _]. rewrite <-Heq, Hh in Hh2. injection Hh2 as <-. apply Hns. apply (WriteSpent_marks _ _ _ _ Hw).
    right. exists c1. split; [done|]. unfold spentKey, headerKey. rewrite Hmp. cbn [mbind option_bind]. by rewrite Hk1, Hk2.
  - apply Forall_forall. intros c [Hin|Hin]%elem_of_app.
    + destruct (Hc c Hin) as (mp & h & Hmp & Hh & _ & Hns & Hs). destruct (Hb1 c Hin mp h Hmp Hh) as [Hk1 Hk2]. split; [|done].
      exists h. split; [done|]. unfold headerKey. by rewrite <-Hk1, <-Hk2.
    + destruct (Hf c Hin) as [(h & Hh & Hns) Hs]. split; [|done]. exists h. split; [done|]. intros Hsp. apply Hns. apply (WriteSpent_marks _ _ _ _ Hw). by left.
Qed.

(** C7: For proofs that carry the shard and the number of their header, the check is sound over any
    number of blocks: no header's receipts are credited twice, none that were spent before, and
    all of them are for this shard. *)
Theorem receipts_credited_once shardID d blocks d' :
  creditRun shardID d blocks d' → Forall bound (concat blocks) →
  NoDup (cxpHeader <$> concat blocks)
  ∧ ∀ cxp, cxp ∈ concat blocks →
      (∃ h, cxpHeader cxp = Some h ∧ dbSpent d !! headerKey h ≠ Some SpentByte) ∧ Forall (λ c, cxToShardID c = shardID) (receiptsOf cxp).
Proof. intros Hr Hb. destruct (run_unspent _ _ _ _ Hr Hb) as [Hnd Hf]. split; [done|]. by rewrite Forall_forall in Hf. Qed.

Lemma proofLoop_short to ids hs buf root found : (length hs < length ids)%nat → proofLoop to ids hs buf root found = None.
Proof.
  revert hs buf root found. induction ids as [|i ids IH]; intros [|h hs] buf root found Hl; cbn in Hl; try lia; [done|].
  cbn [proofLoop]. destruct (i =? to); apply IH; lia.
Qed.

(** A receipt message with fewer roots than shards in its proof crashes the node that receives it:
    nothing is checked before the roots are indexed but the epoch and the destination. *)
Theorem short_proof_panics myShardID e pending msg cxp cs mp h to :
  decodeCXReceiptsProof msg = Some cxp → cxpReceipts cxp = Some cs → cxpMerkleProof cxp = Some mp → cxpHeader cxp = Some h →
  AcceptsCrossTx config (hdEpoch h) = true → GetToShardID cxp = inr to → (0 < length (cxpCommitSig cxp))%nat →
  (length (mpCXShardHashes mp) < length (mpShardIDs mp))%nat →
  ProcessReceiptMessage config myShardID e pending msg = None.
Proof.
  intros Hd Hcs Hmp Hh Hacc Hto Hsig Hlen. unfold ProcessReceiptMessage, AddPendingReceipts, ContainsEmptyField. rewrite Hd, Hcs, Hmp, Hh.
  rewrite (proj2 (Nat.eqb_neq _ _)) by lia. cbn [orb mbind option_bind]. unfold ValidateCXReceiptsProof, validateProof.
  rewrite Hh, Hto, Hmp. cbn [lift_panic mbind result_mbind result_bind]. rewrite Hacc. cbn [negb]. rewrite proofLoop_short by done. done.
Qed.
End spending.

(** ** Roots and proofs *)
Section roots.
Context `{RL : ReceiptLib}.
Implicit Types (cs : list CXReceipt) (ps : list (Z * Hash)).

(** The destinations of a list of receipts among the given shards, with their roots. *)
Definition rootsOf cs (shards : list nat) : list (Z * Hash) :=
  omap (λ i, match GetToShardReceipts cs (Z.of_nat i) with [] => None | l => Some (Z.of_nat i, DeriveSha l) end) shards.
Definition bufferOf ps : bytes := concat ((λ p, rootEntry p.1 p.2) <$> ps).
Definition rootOf ps : Hash := match ps with [] => EmptyRootHash | _ => Keccak256Hash (bufferOf ps) end.
Definition destinations cs : list (Z * Hash) := rootsOf cs (seq 0 (Z.to_nat (MaxToShardID cs) + 1)).

Lemma rootEntry_length i h : length (rootEntry i h) = 36%nat.
Proof. unfold rootEntry. by rewrite length_app, !toBytes_length. Qed.

Lemma bufferOf_nil ps : bufferOf ps = [] → ps = [].
Proof.
  destruct ps as [|[i h] ps]; [done|]. unfold bufferOf. rewrite fmap_cons. cbn [concat fst snd]. intros Hb.
  apply (f_equal length) in Hb. rewrite length_app, rootEntry_length in Hb. cbn in Hb. lia.
Qed.

Lemma match_buffer ps : match bufferOf ps with [] => EmptyRootHash | _ => Keccak256Hash (bufferOf ps) end = rootOf ps.
Proof. destruct ps as [|p ps]; [done|]. cbn [rootOf]. destruct (bufferOf (p :: ps)) eqn:Eb; [by apply bufferOf_nil in Eb|done]. Qed.

Lemma ComputeMerkleRoot_destinations cs : ComputeMerkleRoot cs = rootOf (destinations cs).
Proof.
  unfold ComputeMerkleRoot. rewrite <-match_buffer. unfold destinations. generalize (seq 0 (Z.to_nat (MaxToShardID cs) + 1)). intros shards.
  assert (∀ buf, foldl (λ buf i, let shardReceipts := GetToShardReceipts cs (Z.of_nat i) in
      match shardReceipts with [] => buf | _ => buf ++ rootEntry (Z.of_nat i) (DeriveSha shardReceipts) end) buf shards
    = buf ++ bufferOf (rootsOf cs shards)) as Hf.
  { induction shards as [|i shards IH]; intros buf; cbn [foldl]; [by rewrite app_nil_r|]. rewrite IH. unfold rootsOf. cbn [omap list_omap].
    destruct (GetToShardReceipts cs (Z.of_nat i)) as [|c l]; [done|]. rewrite <-app_assoc. done. }
  rewrite Hf. done.
Qed.

Lemma proofLoop_spec to ids hs buf root found buf' root' found' :
  proofLoop to ids hs buf root found = Some (buf', root', found') →
  buf' = buf ++ bufferOf (zip ids hs) ∧ ((found' = found ∧ root' = root) ∨ (found' = true ∧ (to, root') ∈ zip ids hs)).
Proof.
  revert hs buf root found. induction ids as [|i ids IH]; intros hs buf root found; cbn [proofLoop].
  { intros [= <- <- <-]. rewrite app_nil_r. auto. }
  destruct hs as [|h hs]; [done|]. destruct (Z.eqb_spec i to) as [->|Hne]; intros (-> & H)%IH.
  - split; [by rewrite <-app_assoc|]. right. destruct H as [[-> ->]|[-> Hin]]; (split; [done|]); cbn [zip zip_with]; [by left|by right].
  - split; [by rewrite <-app_assoc|]. destruct H as [H|[-> Hin]]; [by left|]. right. split; [done|]. by right.
Qed.

Definition inRange (p : Z * Hash) : Prop := 0 ≤ p.1 < 2 ^ 32 ∧ 0 ≤ p.2 < 2 ^ 256.

Lemma bufferOf_inj ps qs : Forall inRange ps → Forall inRange qs → bufferOf ps = bufferOf qs → ps = qs.
Proof.
  intros Hp. revert qs. induction Hp as [|[i h] ps [Hi Hh] _ IH]; intros qs Hq Heq.
  { symmetry in Heq. by apply bufferOf_nil in Heq. }
  destruct Hq as [|[j k] qs [Hj Hk] Hq]; [by apply bufferOf_nil in Heq|]. unfold bufferOf in Heq. rewrite !fmap_cons in Heq. cbn [concat fst snd] in *.
  apply app_inj_1 in Heq as [He Heq]; [|by rewrite !rootEntry_length]. unfold rootEntry in He.
  apply app_inj_1 in He as [H1 H2]; [|by rewrite !toBytes_length]. apply toBytes_inj in H1; [|done|done]. apply toBytes_inj in H2; [|done|done].
  subst. f_equal. by apply IH.
Qed.

Lemma rootsOf_elem cs shards i h : (i, h) ∈ rootsOf cs shards → h = DeriveSha (GetToShardReceipts cs i) ∧ ∃ n, n ∈ shards ∧ i = Z.of_nat n.
Proof.
  unfold rootsOf. rewrite list_elem_of_omap. intros (n & Hn & He). destruct (GetToShardReceipts cs (Z.of_nat n)) as [|c l] eqn:El; [done|].
  injection He as <- <-. rewrite El. eauto.
Qed.

Lemma foldMax_ge cs m : m ≤ foldl (λ m c, if m <? cxToShardID c then cxToShardID c else m) m cs.
Proof.
  revert m. induction cs as [|c cs IH]; intros m; cbn [foldl]; [lia|]. destruct (Z.ltb_spec m (cxToShardID c)) as [Hlt|]; [|apply IH].
  etrans; [|apply IH]. lia.
Qed.

Lemma MaxToShardID_ge cs c : c ∈ cs → cxToShardID c ≤ MaxToShardID cs.
Proof.
  unfold MaxToShardID. generalize 0. induction cs as [|c' cs IH]; intros m; [by intros ?%elem_of_nil|].
  intros [->|Hc]%elem_of_cons; cbn [foldl]; [|by apply IH]. destruct (Z.ltb_spec m (cxToShardID c')); etrans; [|apply foldMax_ge| |apply foldMax_ge]; lia.
Qed.

Lemma MaxToShardID_range cs b : 0 < b → Forall (λ c, 0 ≤ cxToShardID c < b) cs → 0 ≤ MaxToShardID cs < b.
Proof.
  intros Hb H. assert (∀ m, 0 ≤ m < b → 0 ≤ foldl (λ m c, if m <? cxToShardID c then cxToShardID c else m) m cs < b) as Hm; [|apply Hm; lia].
  induction H as [|c cs Hc _ IH]; intros m Hm; [done|]. cbn [foldl]. apply IH. destruct (Z.ltb_spec m (cxToShardID c)); lia.
Qed.

Lemma GetToShard_elem cs i c : c ∈ GetToShardReceipts cs i ↔ c ∈ cs ∧ cxToShardID c = i.
Proof.
  unfold GetToShardReceipts. induction cs as [|c' cs IH]; [set_solver|]. cbn [List.filter].
  destruct (Z.eqb_spec (cxToShardID c') i) as [He|He]; rewrite !elem_of_cons, ?IH; [|]; naive_solver.
Qed.
End roots.

Section proofs.
Context {E : Type} `{RL : ReceiptLib, HL : HeaderLib, HV : !HeaderVerifier E}.
Context (config : ChainConfig).
Implicit Types (cs : list CXReceipt) (cxp : CXReceiptsProof).

(** Collision resistance of the two hashes, on the values that a validation compares: the buffers of
    the proof and of the block, and the receipts of the proof and those of the block. *)
Record collisionFree cxp cs : Prop := {
  cf_keccak mp : cxpMerkleProof cxp = Some mp →
    let b := bufferOf (zip (mpShardIDs mp) (mpCXShardHashes mp)) in
    Keccak256Hash b ≠ EmptyRootHash ∧ (Keccak256Hash b = Keccak256Hash (bufferOf (destinations cs)) → b = bufferOf (destinations cs));
  cf_trie to : DeriveSha (receiptsOf cxp) = DeriveSha (GetToShardReceipts cs to) → receiptsOf cxp = GetToShardReceipts cs to;
}.

(** The fields of a decoded proof are of their sizes, as are the roots. *)
Definition sized cxp cs : Prop :=
  (∀ mp, cxpMerkleProof cxp = Some mp → Forall (λ i, 0 ≤ i < 2 ^ 32) (mpShardIDs mp) ∧ Forall (λ h, 0 ≤ h < 2 ^ 256) (mpCXShardHashes mp))
  ∧ Forall (λ c, 0 ≤ cxToShardID c < 2 ^ 32) cs ∧ ∀ l, 0 ≤ trieRoot l < 2 ^ 256.

Lemma zip_inRange ids hs : Forall (λ i, 0 ≤ i < 2 ^ 32) ids → Forall (λ h, 0 ≤ h < 2 ^ 256) hs → Forall inRange (zip ids hs).
Proof.
  intros Hi. revert hs. induction Hi as [|i ids Hi _ IH]; intros [|h hs]; cbn [zip zip_with]; [by constructor..|].
  intros [Hh Hs]%Forall_cons. constructor; [by split|by apply IH].
Qed.

Lemma destinations_inRange cs : Forall (λ c, 0 ≤ cxToShardID c < 2 ^ 32) cs → (∀ l, 0 ≤ trieRoot l < 2 ^ 256) → Forall inRange (destinations cs).
Proof.
  intros Hc Ht. apply Forall_forall. intros [i h] Hin. apply rootsOf_elem in Hin as (-> & n & Hn & ->). split; [|apply Ht]. cbn [fst].
  apply elem_of_seq in Hn. pose proof (MaxToShardID_range cs (2 ^ 32) ltac:(lia) Hc). lia.
Qed.

(** C9: A proof that validates against the header of a block carries exactly the receipts of that block for
    its destination: no receipt is forged, left out or reordered. *)
Theorem receipts_authentic e cxp e' h cs :
  ValidateCXReceiptsProof config e cxp = (Ok tt, e') → cxpHeader cxp = Some h → hdOutgoingReceiptHash h = ComputeMerkleRoot cs →
  collisionFree cxp cs → sized cxp cs →
  ∃ to, GetToShardID cxp = inr to ∧ receiptsOf cxp = GetToShardReceipts cs to ∧ receiptsOf cxp ≠ [].
Proof.
  intros Hv Hh Hroot [Hk Ht] (Hs1 & Hs2 & Hs3). unfold ValidateCXReceiptsProof, validateProof in Hv. rewrite Hh in Hv.
  cbn [lift_panic mbind result_mbind result_bind] in Hv. destruct (negb (AcceptsCrossTx _ _)); [done|].
  destruct (GetToShardID cxp) as [|to] eqn:Hto; [done|]. exists to. split; [done|]. destruct (cxpMerkleProof cxp) as [mp|] eqn:Hmp; [|done].
  cbn [lift_panic mbind result_mbind result_bind] in Hv. destruct (proofLoop _ _ _ _ _ _) as [[[b r] f]|] eqn:Hl; [|done].
  cbn [lift_panic mbind result_mbind result_bind] in Hv. destruct (proofLoop_spec _ _ _ _ _ _ _ _ _ Hl) as (-> & Hf). cbn [app] in Hv.
  destruct f; [|done]. destruct Hf as [[? _]|[_ Hin]]; [done|]. cbn [negb] in Hv. destruct (Z.eqb_spec (DeriveSha (receiptsOf cxp)) r) as [Hr|]; [|done].
  cbn [negb] in Hv. rewrite match_buffer in Hv. set (ps := zip (mpShardIDs mp) (mpCXShardHashes mp)) in *.
  destruct (Z.eqb_spec (rootOf ps) (mpCXReceiptHash mp)) as [Hr1|]; [|done]. cbn [negb] in Hv.
  destruct (negb (headerHash h =? _)); [done|]. cbn [orb] in Hv. destruct (Z.eqb_spec (hdOutgoingReceiptHash h) (mpCXReceiptHash mp)) as [Hr2|]; [|done].
  assert (rootOf ps = rootOf (destinations cs)) as Hrr by (rewrite <-ComputeMerkleRoot_destinations; congruence).
  destruct (Hk mp eq_refl) as [Hne Hinj]. fold ps in Hne, Hinj. destruct (Hs1 mp eq_refl) as [Hi Hhs].
  assert (ps = destinations cs) as Hps.
  { destruct ps as [|p ps'] eqn:Eps; [by apply elem_of_nil in Hin|]. cbn [rootOf] in Hrr. destruct (destinations cs) as [|q qs] eqn:Ed; [done|].
    apply bufferOf_inj; [rewrite <-Eps; by apply zip_inRange|rewrite <-Ed; by apply destinations_inRange|]. apply Hinj. exact Hrr. }
  rewrite Hps in Hin. apply rootsOf_elem in Hin as [-> _]. split; [by apply Ht|].
  unfold GetToShardID in Hto. by destruct (receiptsOf cxp).
Qed.

End proofs.

(** ** Proofs that are sent *)

(** The encoding of lists of receipts. *)
Class ReceiptCodecLaws `{RL : ReceiptLib} := {
  codec_roundtrip cs : ∃ b bs, encodeCXReceipts cs = Some (b :: bs) ∧ decodeCXReceipts (b :: bs) = Some cs;
}.

Section sent.
Context `{RL : ReceiptLib, HL : HeaderLib, SC : Schedule, RC : !ReceiptCodecLaws}.
Context (config : ChainConfig).
Implicit Types (cs : list CXReceipt) (header : Header) (d : cxDB).

Notation reads d header i := (ReadCXReceipts d i (u64 (hdNumber header)) (headerHash header)) (only parsing).

Lemma writeReceipts_spec d header cs shards :
  ∃ d', writeReceipts d header cs shards = Ok d' ∧
    ∀ i, reads d' header i = if decide (i ∈ Z.of_nat <$> shards ∧ i ≠ hdShardID header) then Some (GetToShardReceipts cs i) else reads d header i.
Proof.
  revert d. induction shards as [|n shards IH]; intros d; cbn [writeReceipts].
  { exists d. split; [done|]. intros i. rewrite decide_False; [done|]. intros [Hn _]. by apply elem_of_nil in Hn. }
  destruct (Z.eqb_spec (Z.of_nat n) (hdShardID header)) as [He|Hne].
  { destruct (IH d) as (d' & Hd & Hr). exists d'. split; [done|]. intros i. rewrite Hr, fmap_cons.
    destruct (decide (i ∈ Z.of_nat <$> shards ∧ i ≠ hdShardID header)); [rewrite decide_True by set_solver|rewrite decide_False by set_solver]; done. }
  destruct (codec_roundtrip (GetToShardReceipts cs (Z.of_nat n))) as (b & bs & -> & Hdec). set (d1 := mkCxDB _ _).
  destruct (IH d1) as (d' & Hd & Hr). exists d'. split; [done|]. intros i. rewrite Hr, fmap_cons.
  destruct (decide (i ∈ Z.of_nat <$> shards ∧ i ≠ hdShardID header)) as [|Hn]; [rewrite decide_True by set_solver; done|].
  unfold ReadCXReceipts, d1. cbn [dbReceipts]. destruct (decide (Z.of_nat n = i)) as [<-|Hni].
  - rewrite lookup_insert_eq, decide_True by set_solver. done.
  - rewrite lookup_insert_ne by congruence. rewrite decide_False by set_solver. done.
Qed.

Lemma omap_none {A B} (f : A → option B) (l : list A) : (∀ x, x ∈ l → f x = None) → omap f l = [].
Proof. induction l as [|x l IH]; intros H; [done|]. cbn [omap list_omap]. rewrite (H x) by (by left). apply IH. intros y Hy. apply H. by right. Qed.
Lemma omap_ext_elem {A B} (f g : A → option B) (l : list A) : (∀ x, x ∈ l → f x = g x) → omap f l = omap g l.
Proof.
  induction l as [|x l IH]; intros H; [done|]. cbn [omap list_omap]. rewrite (H x) by (by left). rewrite IH; [done|]. intros y Hy. apply H. by right.
Qed.

(** Beyond the largest destination there are no receipts. *)
Lemma rootsOf_beyond cs n : (Z.to_nat (MaxToShardID cs) < n)%nat → rootsOf cs (seq 0 n) = destinations cs.
Proof.
  intros Hn. unfold destinations, rootsOf. replace n with (Z.to_nat (MaxToShardID cs) + 1 + (n - (Z.to_nat (MaxToShardID cs) + 1)))%nat by lia.
  rewrite seq_app, omap_app, (omap_none _ (seq (0 + _) _)), app_nil_r; [done|]. intros i Hi%elem_of_seq.
  destruct (GetToShardReceipts cs (Z.of_nat i)) as [|c l] eqn:Eg; [done|]. exfalso.
  assert (c ∈ GetToShardReceipts cs (Z.of_nat i)) as Hc by (rewrite Eg; by left). apply GetToShard_elem in Hc as [Hc He].
  pose proof (MaxToShardID_ge cs c Hc). lia.
Qed.

Lemma proofLoop_complete to ids hs buf root found :
  length ids = length hs → NoDup ids → ∀ h, (to, h) ∈ zip ids hs →
  proofLoop to ids hs buf root found = Some (buf ++ bufferOf (zip ids hs), h, true).
Proof.
  intros Hl Hnd h. revert hs Hl buf root found. induction Hnd as [|i ids Hi Hnd IH]; intros hs Hl buf root found; [by intros ?%elem_of_nil|].
  destruct hs as [|h' hs]; [done|]. cbn [zip zip_with]. intros Hin. cbn [proofLoop]. injection Hl as Hl.
  assert (buf ++ bufferOf ((i, h') :: zip ids hs) = (buf ++ rootEntry i h') ++ bufferOf (zip ids hs)) as -> by (by rewrite <-app_assoc).
  apply elem_of_cons in Hin as [[= -> ->]|Hin].
  - rewrite Z.eqb_refl. assert (∀ b, proofLoop i ids hs b h' true = Some (b ++ bufferOf (zip ids hs), h', true)) as ->; [|done].
    clear IH. revert hs Hl. induction ids as [|j ids IH]; intros [|k hs] Hl b; try done; [by rewrite app_nil_r|]. cbn [proofLoop zip zip_with].
    rewrite (proj2 (Z.eqb_neq _ _)) by set_solver. rewrite IH; [by rewrite <-app_assoc| set_solver|by apply NoDup_cons in Hnd as [_ ?]|by injection Hl].
  - destruct (Z.eqb_spec i to) as [->|]; [|by apply IH]. exfalso. apply Hi. apply list_elem_of_lookup in Hin as (k & Hk).
    apply lookup_zip_with_Some in Hk as (x & y & [= <- <-] & Hx & _). by eapply list_elem_of_lookup_2.
Qed.

Lemma rootsOf_NoDup cs shards : NoDup shards → NoDup (rootsOf cs shards).*1.
Proof.
  induction 1 as [|n shards Hn _ IH]; [constructor|]. unfold rootsOf. cbn [omap list_omap].
  destruct (GetToShardReceipts cs (Z.of_nat n)) as [|c l]; [exact IH|]. rewrite fmap_cons. constructor; [|exact IH]. cbn [fst].
  intros ([i h] & Hi & Hin)%list_elem_of_fmap. apply rootsOf_elem in Hin as (_ & m & Hm & ->). cbn [fst] in Hi. apply Nat2Z.inj in Hi. congruence.
Qed.

Lemma WriteSpent_receipts d cxps d' : WriteCXReceiptsProofSpent d cxps = Some d' → dbReceipts d' = dbReceipts d.
Proof.
  revert d. induction cxps as [|cxp cxps IH]; intros d; cbn [WriteCXReceiptsProofSpent]; [by intros [= <-]|].
  intros (k & _ & H)%bind_Some. by rewrite (IH _ H).
Qed.

Section committed.
Context (d d' : cxDB) (header : Header) (cs : list CXReceipt) (incoming : list CXReceiptsProof).
Context (Hacc : AcceptsCrossTx config (hdEpoch header) = true) (Hcommit : commitCX config d header cs incoming = Ok d').
Context (Hroot : hdOutgoingReceiptHash header = ComputeMerkleRoot cs).
Context (Hshards : ∀ c, c ∈ cs → 0 ≤ cxToShardID c < numShards (InstanceForEpoch (hdEpoch header)) ∧ cxToShardID c ≠ hdShardID header).
Context (Hnew : ReadCXReceipts d (hdShardID header) (u64 (hdNumber header)) (headerHash header) = None).
Notation N := (numShards (InstanceForEpoch (hdEpoch header))).

Lemma committed_reads i : (i < Z.to_nat N)%nat →
  reads d' header (Z.of_nat i) = if decide (Z.of_nat i = hdShardID header) then None else Some (GetToShardReceipts cs (Z.of_nat i)).
Proof.
  intros Hi. unfold commitCX in Hcommit. assert (HasCrossTxFields config (hdEpoch header) = true) as Hf.
  { unfold AcceptsCrossTx, HasCrossTxFields, isForked in *. apply Z.leb_le. apply Z.leb_le in Hacc. lia. }
  rewrite Hf in Hcommit. destruct (writeReceipts_spec d header cs (seq 0 (Z.to_nat N))) as (d1 & Hw & Hr). rewrite Hw in Hcommit.
  cbn [mbind result_mbind result_bind] in Hcommit. destruct (WriteCXReceiptsProofSpent d1 incoming) as [d2|] eqn:Hs; [|done].
  injection Hcommit as <-. unfold ReadCXReceipts. rewrite (WriteSpent_receipts _ _ _ Hs). etrans; [apply Hr|].
  destruct (decide (Z.of_nat i = hdShardID header)) as [He|Hne].
  - rewrite decide_False by (intros [_ ?]; congruence). by rewrite He.
  - rewrite decide_True; [done|]. split; [|done]. apply list_elem_of_fmap. exists i. split; [done|]. apply elem_of_seq. lia.
Qed.

Lemma own_empty : GetToShardReceipts cs (hdShardID header) = [].
Proof.
  destruct (GetToShardReceipts cs (hdShardID header)) as [|c l] eqn:E; [done|]. exfalso.
  assert (c ∈ GetToShardReceipts cs (hdShardID header)) as Hc by (rewrite E; by left). apply GetToShard_elem in Hc as [Hc He]. by destruct (Hshards c Hc).
Qed.

Lemma committed_roots c : c ∈ cs → shardRoots d' header = destinations cs.
Proof.
  intros Hc. rewrite <-(rootsOf_beyond cs (Z.to_nat N)).
  - unfold shardRoots, rootsOf. apply omap_ext_elem. intros i Hi%elem_of_seq. rewrite committed_reads by lia.
    destruct (decide (Z.of_nat i = hdShardID header)) as [->|]; [by rewrite own_empty|]. by destruct (GetToShardReceipts cs (Z.of_nat i)).
  - destruct (Hshards c Hc) as [Hr _]. assert (0 < N) as HN by lia.
    assert (Forall (λ c, 0 ≤ cxToShardID c < N) cs) as Hall by (apply Forall_forall; intros x Hx; by destruct (Hshards x Hx)).
    pose proof (MaxToShardID_range cs N HN Hall). lia.
Qed.

Lemma sent_validates sig bm to :
  GetToShardReceipts cs to ≠ [] →
  ∃ cxp, BroadcastCXReceiptsWithShardID d' header sig bm to = Some cxp ∧ receiptsOf cxp = GetToShardReceipts cs to
    ∧ validateProof config cxp = Ok header ∧ bound cxp ∧ cxpCommitSig cxp = sig ∧ cxpCommitBitmap cxp = bm ∧ (0 ≤ to < N ∧ to ≠ hdShardID header).
Proof.
  intros Hne. destruct (GetToShardReceipts cs to) as [|c l] eqn:Eg; [done|].
  assert (∀ x, x ∈ c :: l → x ∈ cs ∧ cxToShardID x = to) as Hx by (intros x; rewrite <-Eg; apply GetToShard_elem).
  destruct (Hx c ltac:(by left)) as [Hc Hcto]. destruct (Hshards c Hc) as [Hrange Hown]. rewrite Hcto in Hrange, Hown.
  assert (reads d' header to = Some (c :: l)) as Hread.
  { pose proof (committed_reads (Z.to_nat to) ltac:(lia)) as H. rewrite Z2Nat.id, decide_False, Eg in H by (done || lia). exact H. }
  assert ((to, DeriveSha (c :: l)) ∈ destinations cs) as Hin.
  { unfold destinations, rootsOf. apply list_elem_of_omap. exists (Z.to_nat to). pose proof (MaxToShardID_ge cs c Hc). rewrite Z2Nat.id, Eg by lia.
    split; [apply elem_of_seq; lia|done]. }
  pose proof (committed_roots c Hc) as Hroots. unfold BroadcastCXReceiptsWithShardID, makeCXMerkleProof. rewrite Hread, Hroots.
  pose proof (rootsOf_NoDup cs _ (NoDup_seq 0 (Z.to_nat (MaxToShardID cs) + 1))) as Hnd. fold (destinations cs) in Hnd.
  rewrite ComputeMerkleRoot_destinations in Hroot. destruct (destinations cs) as [|q qs] eqn:Ed; [by apply elem_of_nil in Hin|]. rewrite <-Ed in *. clear Ed q qs.
  eexists. split; [done|]. split; [done|]. split; [|split; [by intros ? ? [= <-] [= <-]|done]].
  unfold validateProof. cbn [cxpHeader cxpMerkleProof lift_panic mbind result_mbind result_bind mpShardIDs mpCXShardHashes mpCXReceiptHash mpBlockHash]. rewrite Hacc. cbn [negb].
  assert (sameShard (cxToShardID c) l = true) as Hsame.
  { assert (∀ x, x ∈ l → cxToShardID x = cxToShardID c) as Hl by (intros x Hxl; destruct (Hx x ltac:(by right)); congruence). clear -Hl.
    induction l as [|x l IH]; [done|]. cbn [sameShard]. rewrite (Hl x) by (by left). rewrite Z.eqb_refl. apply IH. intros y Hy. apply Hl. by right. }
  unfold GetToShardID, receiptsOf. cbn [cxpReceipts from_option id]. rewrite Hsame, Hcto.
  rewrite (proofLoop_complete to (destinations cs).*1 (destinations cs).*2 [] 0 false ltac:(by rewrite !length_fmap) Hnd (DeriveSha (c :: l)) ltac:(by rewrite zip_fst_snd)).
  cbn [lift_panic mbind result_mbind result_bind app negb]. rewrite Z.eqb_refl, zip_fst_snd, match_buffer. cbn [negb]. rewrite <-Hroot, !Z.eqb_refl. done.
Qed.
End committed.

(** C38: A committed block's receipts reach their shards: for every destination the node of the source shard
    sends a proof with exactly the receipts for it, which passes all checks of the destination
    up to the commit signature on the header, and which is spent under the key of its header. *)
Theorem broadcast_validates d d' header cs incoming payload to :
  AcceptsCrossTx config (hdEpoch header) = true → commitCX config d header cs incoming = Ok d' →
  hdOutgoingReceiptHash header = ComputeMerkleRoot cs →
  (∀ c, c ∈ cs → 0 ≤ cxToShardID c < numShards (InstanceForEpoch (hdEpoch header)) ∧ cxToShardID c ≠ hdShardID header) →
  ReadCXReceipts d (hdShardID header) (u64 (hdNumber header)) (headerHash header) = None →
  GetToShardReceipts cs to ≠ [] → (96 < length payload)%nat →
  ∃ cxp, (to, cxp) ∈ BroadcastCXReceipts d' header payload (hdShardID header) ∧ receiptsOf cxp = GetToShardReceipts cs to ∧ bound cxp
    ∧ ∀ E (HV : HeaderVerifier E) e e', verifyHeaderSig e header (take 96 payload) (drop 96 payload) = (Ok tt, e') →
        ValidateCXReceiptsProof config e cxp = (Ok tt, e').
Proof.
  intros Hacc Hcommit Hroot Hshards Hnew Hne Hlen.
  destruct (sent_validates d d' header cs incoming Hacc Hcommit Hroot Hshards Hnew (take 96 payload) (drop 96 payload) to Hne)
    as (cxp & Hb & Hr & Hv & Hbound & Hsig & Hbm & Hto & Hown).
  exists cxp. split_and!; [|done|done|].
  - unfold BroadcastCXReceipts. rewrite (proj2 (Nat.leb_gt _ _)) by done. apply list_elem_of_omap. exists (Z.to_nat to).
    split; [apply elem_of_seq; lia|]. rewrite Z2Nat.id, (proj2 (Z.eqb_neq _ _)), Hb by (done || lia). done.
  - intros E HV e e' He. unfold ValidateCXReceiptsProof. rewrite Hv, Hsig, Hbm. unfold copyTo.
    rewrite take_take, length_take, (Nat.min_l 96 (length payload)) by lia. cbn [replicate Nat.min Nat.sub]. rewrite app_nil_r.
    change (Nat.min 96 96) with 96%nat. rewrite He. done.
Qed.
End sent.

(** ** Concrete receipts *)
#[local] Existing Instances Z_BlsSign zCrypto demoGenesis engineSchedule demoHashes.

(** Stand-ins for the hashes, and encodings of numbers as they are. *)
Definition mix (seed : Z) (b : bytes) : Hash := foldl (λ a x, (a * 1000003 + x + 1) mod 2 ^ 256) seed b mod 2 ^ 256.
Definition writeReceipt (c : CXReceipt) : bytes :=
  [cxTxHash c; cxFrom c; match cxTo c with Some _ => 1 | None => 0 end; default 0 (cxTo c); cxShardID c; cxToShardID c; cxAmount c].
Fixpoint readReceipts (n : nat) (b : bytes) : list CXReceipt :=
  match n, b with
  | S n, h :: f :: k :: t :: s :: s' :: a :: rest => mkCXReceipt h f (if k =? 1 then Some t else None) s s' a :: readReceipts n rest
  | _, _ => []
  end.

Definition demoReceipts : list CXReceipt := [mkCXReceipt 500 1 (Some 2) 1 0 70; mkCXReceipt 501 3 (Some 4) 1 2 30; mkCXReceipt 502 1 (Some 5) 1 0 9].
Definition cxHeader (n : Z) (root : Hash) : Header := mkHeader 0 n 5 n 1 0 [] [] [] [] [] root 0.
(** A proof with a shard and no root. *)
Definition shortProof : CXReceiptsProof :=
  mkCXReceiptsProof (Some (take 1 demoReceipts)) (Some (mkCXMerkleProof 8 0 1 0 [0] [])) (Some (cxHeader 8 0)) [1] [].

Definition demoReceiptLib : ReceiptLib := {|
  rlpCXReceipt := writeReceipt;
  rlpCXReceiptsProof cxp := concat (writeReceipt <$> receiptsOf cxp) ++ match cxpMerkleProof cxp with Some mp => [mpShardID mp; mpBlockNum mp] | None => [] end;
  trieRoot l := mix 11 (concat ((λ b, Z.of_nat (length b) :: b) <$> l));
  Keccak256Hash := mix 13;
  encodeCXReceipts cs := Some (Z.of_nat (length cs) :: concat (writeReceipt <$> cs));
  decodeCXReceipts b := match b with n :: b => Some (readReceipts (Z.to_nat n) b) | [] => None end;
  decodeCXReceiptsProof b := if decide (b = [1]) then Some shortProof else None;
|}.
#[local] Existing Instance demoReceiptLib.

#[local] Instance demoReceiptCodec : ReceiptCodecLaws.
Proof.
  split. intros cs. exists (Z.of_nat (length cs)), (concat (writeReceipt <$> cs)). split; [reflexivity|].
  cbn [decodeCXReceipts demoReceiptLib]. rewrite Nat2Z.id. f_equal. induction cs as [|c cs IH]; [reflexivity|].
  rewrite fmap_cons. cbn [length concat]. destruct c as [h f [t|] s s' a]; cbn [writeReceipt app readReceipts cxTo Z.eqb cxTxHash cxFrom cxShardID cxToShardID cxAmount]; rewrite IH; reflexivity.
Qed.

Definition cxConfig : ChainConfig := LocalnetChainConfig.
Definition cxVerifier : HeaderVerifier demoEngine := engineVerifier false keyOfInt engineChain.
#[local] Existing Instance cxVerifier.
#[local] Instance cxVerifier_laws : HeaderVerifierLaws demoEngine := engineVerifier_laws false keyOfInt engineChain.
Definition cxRoot : Hash := ComputeMerkleRoot demoReceipts.
Definition cxPayload (n : Z) : bytes := signed123 (1000 * n + n) n n ++ [7].
(** The proof that the source shard sends to shard 0 for its block [n]. *)
Definition cxSource (n : Z) : cxDB := match commitCX cxConfig (mkCxDB ∅ ∅) (cxHeader n cxRoot) demoReceipts [] with Ok d => d | _ => mkCxDB ∅ ∅ end.
Definition sentProof (n : Z) : CXReceiptsProof :=
  default shortProof (BroadcastCXReceiptsWithShardID (cxSource n) (cxHeader n cxRoot) (take 96 (cxPayload n)) (drop 96 (cxPayload n)) 0).
Definition inHeader (cxps : list CXReceiptsProof) : Header := mkHeader 0 20 5 20 0 0 [] [] [] [] [] 0 (incomingRoot cxps).
Definition cxEmpty : cxDB := mkCxDB ∅ ∅.
Definition cxMarked (cxps : list CXReceiptsProof) : cxDB := default cxEmpty (WriteCXReceiptsProofSpent cxEmpty cxps).

Lemma engine0_ok : verifierOk engine0.
Proof. exact (engineReach_inv _ _ _ _ engine0_reach). Qed.

Definition accepted (r : result cxError unit * demoEngine) : bool := match r.1 with Ok _ => true | _ => false end.
Lemma accepted_Ok r : accepted r = true → r = (Ok tt, r.2).
Proof. destruct r as [[[]| |] e]; done. Qed.

Lemma receipts_replayed_witness :
  ∃ e1 e2, verifyIncomingReceipts cxConfig cxEmpty 0 engine0 (inHeader [sentProof 8]) [sentProof 8] = (Ok tt, e1)
    ∧ IsSpent (cxMarked [sentProof 8]) (sentProof 8) = Some true
    ∧ verifyIncomingReceipts cxConfig (cxMarked [sentProof 8]) 0 e1 (inHeader [rekey 1 999 (sentProof 8)]) [rekey 1 999 (sentProof 8)] = (Ok tt, e2).
Proof.
  assert (accepted (verifyIncomingReceipts cxConfig cxEmpty 0 engine0 (inHeader [sentProof 8]) [sentProof 8]) = true) as H by (vm_compute; reflexivity).
  apply accepted_Ok in H.
  destruct (receipts_replayed cxConfig cxEmpty (cxMarked [sentProof 8]) 0 engine0 _ (inHeader [sentProof 8]) (inHeader [rekey 1 999 (sentProof 8)]) (sentProof 8) 1 999
    engine0_ok H) as (H1 & _ & e2 & H2); [vm_compute; reflexivity|vm_compute; reflexivity|reflexivity|].
  exists (verifyIncomingReceipts cxConfig cxEmpty 0 engine0 (inHeader [sentProof 8]) [sentProof 8]).2, e2. split; [exact H|]. split; [exact H1|exact H2].
Defined.

Lemma receipts_credited_once_witness :
  NoDup (cxpHeader <$> [sentProof 8; sentProof 9])
  ∧ creditRun (E := demoEngine) cxConfig 0 cxEmpty [[sentProof 8]; [sentProof 9]] (default cxEmpty (WriteCXReceiptsProofSpent (cxMarked [sentProof 8]) [sentProof 9])).
Proof.
  assert (creditRun (E := demoEngine) cxConfig 0 cxEmpty [[sentProof 8]; [sentProof 9]] (default cxEmpty (WriteCXReceiptsProofSpent (cxMarked [sentProof 8]) [sentProof 9]))) as Hrun.
  { assert (accepted (verifyIncomingReceipts cxConfig cxEmpty 0 engine0 (inHeader [sentProof 8]) [sentProof 8]) = true) as H8%accepted_Ok by (vm_compute; reflexivity).
    assert (accepted (verifyIncomingReceipts cxConfig (cxMarked [sentProof 8]) 0 engine0 (inHeader [sentProof 9]) [sentProof 9]) = true) as H9%accepted_Ok by (vm_compute; reflexivity).
    eapply run_block; [exact H8|vm_compute; reflexivity|]. eapply run_block; [exact H9|vm_compute; reflexivity|apply run_nil]. }
  split; [|exact Hrun]. destruct (receipts_credited_once (E := demoEngine) cxConfig 0 _ _ _ Hrun) as [Hnd _]; [|exact Hnd].
  cbn [concat app]. apply Forall_cons; split; [|apply Forall_cons; split; [|apply Forall_nil; exact I]];
    intros mp h Hmp Hh; vm_compute in Hmp, Hh; injection Hmp as <-; injection Hh as <-; split; reflexivity.
Defined.

Lemma short_proof_panics_witness : ProcessReceiptMessage (E := demoEngine) cxConfig 0 engine0 ∅ [1] = None.
Proof.
  apply (short_proof_panics cxConfig 0 engine0 ∅ [1] shortProof (take 1 demoReceipts) (mkCXMerkleProof 8 0 1 0 [0] []) (cxHeader 8 0) 0); try reflexivity; cbn; lia.
Defined.

Lemma receipts_authentic_witness :
  receiptsOf (sentProof 8) = [mkCXReceipt 500 1 (Some 2) 1 0 70; mkCXReceipt 502 1 (Some 5) 1 0 9]
  ∧ ∃ to, GetToShardID (sentProof 8) = inr to ∧ receiptsOf (sentProof 8) = GetToShardReceipts demoReceipts to.
Proof.
  split; [vm_compute; reflexivity|].
  assert (accepted (ValidateCXReceiptsProof cxConfig engine0 (sentProof 8)) = true) as H by (vm_compute; reflexivity). apply accepted_Ok in H.
  destruct (receipts_authentic cxConfig engine0 (sentProof 8) _ (cxHeader 8 cxRoot) demoReceipts H) as (to & H1 & H2 & _).
  - vm_compute. reflexivity.
  - reflexivity.
  - split.
    + intros mp Hmp. vm_compute in Hmp. injection Hmp as <-. split; [vm_compute; discriminate|]. intros _. vm_compute. reflexivity.
    + intros to. unfold GetToShardReceipts, demoReceipts. cbn [List.filter cxToShardID].
      destruct (Z.eqb_spec 0 to) as [<-|]; [intros _; vm_compute; reflexivity|]. destruct (Z.eqb_spec 2 to) as [<-|]; intros Hd; vm_compute in Hd; discriminate Hd.
  - split_and!.
    + intros mp Hmp. vm_compute in Hmp. injection Hmp as <-. split; repeat constructor; cbn; lia.
    + repeat constructor; cbn; lia.
    + intros l. apply Z.mod_pos_bound. lia.
  - exists to. split; [exact H1|exact H2].
Defined.

Lemma broadcast_validates_witness :
  ∃ cxp, (2, cxp) ∈ BroadcastCXReceipts (cxSource 8) (cxHeader 8 cxRoot) (cxPayload 8) 1 ∧ receiptsOf cxp = [mkCXReceipt 501 3 (Some 4) 1 2 30].
Proof.
  destruct (broadcast_validates cxConfig cxEmpty (cxSource 8) (cxHeader 8 cxRoot) demoReceipts [] (cxPayload 8) 2) as (cxp & H1 & H2 & _).
  - reflexivity.
  - vm_compute. reflexivity.
  - reflexivity.
  - intros c Hc. unfold demoReceipts in Hc. rewrite !elem_of_cons, elem_of_nil in Hc. destruct Hc as [->|[->|[->|[]]]]; cbn; lia.
  - reflexivity.
  - discriminate.
  - vm_compute. lia.
  - exists cxp. split; [exact H1|exact H2].
Defined.
