(* ===== verification/Decider.v ===== *)
(** * The decider interface ([quorum.Decider])

    The consensus code works with a [quorum.Decider], which is the uniform or the staked vote
    weight.  [DeciderOps] is the part of the interface that the handlers call, [DeciderLaws] what
    it promises: votes go into one vote tracker, and a phase with a quorum has a mask with a
    quorum.  Both vote weights are instances.  The quorum test of a mask of the staked weight
    cannot panic on a mask that marks the signers of a phase with a quorum; elsewhere a panic
    reads as no quorum. *)

From Stdlib Require Import ZArith Lia.
From stdpp Require Import base gmap list option sets.
From S2P Require Import Prelude Decimal Mask ShardState Votepower Quorum FBFTLog ViewChange.
Local Open Scope Z_scope.

Class DeciderOps (D G Sg : Type) `{BK : BlsKey G, BS : BlsSign Sg} := {
  (** The vote tracker inside the decider. *)
  tracker : D → cIdentities G Sg;
  (** [None] is a panic. *)
  AddNewVote : D → Phase → list (PublicKeyWrapper G) → Sg → Hash → Z → Z → option (D * (quorumError + Ballot));
  IsQuorumAchieved : D → Phase → bool;
  IsQuorumAchievedByMask : D → option (Mask G) → bool;
  IsAllSigsCollected : D → bool;
  ResetPrepareAndCommitVotes : D → D;
  ResetViewChangeVotes : D → D;
}.

(** What the votes of a view change are counted with. *)
Definition deciderOf {D G Sg : Type} `{DeciderOps D G Sg} (d : D) : Decider G :=
  mkDecider (Participants (tracker d)) (IsQuorumAchievedByMask d).

Class DeciderLaws (D G Sg : Type) `{DO : DeciderOps D G Sg} := {
  deciderOk : D → Prop;
  (** An accepted vote is submitted to the tracker, a rejected one changes nothing there. *)
  AddNewVote_law : ∀ d p keys sig h n v d' r,
    deciderOk d → AddNewVote d p keys sig h n v = Some (d', r) →
    deciderOk d' ∧ (∀ mask, IsQuorumAchievedByMask d' mask = IsQuorumAchievedByMask d mask) ∧
    match r with
    | inr b => submitVote (tracker d) p (map Bytes keys) sig h n v = (tracker d', inr b)
    | inl _ => d' = d
    end;
  Reset_law : ∀ d, deciderOk d →
    deciderOk (ResetPrepareAndCommitVotes d)
    ∧ tracker (ResetPrepareAndCommitVotes d) = reset (tracker d) [Prepare; Commit]
    ∧ ∀ mask, IsQuorumAchievedByMask (ResetPrepareAndCommitVotes d) mask = IsQuorumAchievedByMask d mask;
  ResetViewChange_law : ∀ d, Participants (tracker (ResetViewChangeVotes d)) = Participants (tracker d);
  (** A mask of the signers of a phase with a quorum has a quorum. *)
  quorum_mask : ∀ d p mask,
    deciderOk d → IsQuorumAchieved d p = true →
    NoDup (Bytes <$> Participants (tracker d)) → signers (tracker d) p ⊆ list_to_set (Bytes <$> Participants (tracker d)) →
    marks (Participants (tracker d)) mask (signers (tracker d) p) → IsQuorumAchievedByMask d (Some mask) = true;
}.

(** ** One node, one vote *)
#[export] Instance uniformDecider {G Sg} `{BK : BlsKey G, BS : BlsSign Sg} : DeciderOps (cIdentities G Sg) G Sg := {|
  tracker s := s;
  AddNewVote s p keys sig h n v := Some (uniformAddNewVote s p keys sig h n v);
  IsQuorumAchieved := uniformIsQuorumAchieved;
  IsQuorumAchievedByMask := uniformIsQuorumAchievedByMask;
  IsAllSigsCollected := uniformIsAllSigsCollected;
  ResetPrepareAndCommitVotes := uniformResetPrepareAndCommitVotes;
  ResetViewChangeVotes := uniformResetViewChangeVotes;
|}.

(** ** One node, staked vote *)
#[export] Instance stakedDecider {G Sg} `{BK : BlsKey G, BS : BlsSign Sg} : DeciderOps (stakedVoteWeight G Sg) G Sg := {|
  tracker := reader;
  AddNewVote := stakedAddNewVote;
  IsQuorumAchieved := stakedIsQuorumAchieved;
  IsQuorumAchievedByMask v mask := default false (stakedIsQuorumAchievedByMask v mask);
  IsAllSigsCollected v := default false (stakedIsAllSigsCollected v);
  ResetPrepareAndCommitVotes := stakedResetPrepareAndCommitVotes;
  ResetViewChangeVotes := stakedResetViewChangeVotes;
|}.

(** * The instances keep the laws *)
Section marked.
Context {G Sg : Type} `{BK : BlsKey G, KL : !BlsKeyLaws G}.
Implicit Types (m : Mask G) (members : list (PublicKeyWrapper G)) (X : gset SerializedPublicKey).

Lemma count_marked members X f i :
  NoDup (Bytes <$> members) → (∀ j key, members !! j = Some key → f (i + j)%nat = bool_decide (Bytes key ∈ X)) →
  sumZ (λ j, Z.b2z (f j)) (seq i (length members)) = Z.of_nat (length (filter (λ k, k ∈ X) (Bytes <$> members))).
Proof.
  revert i. induction members as [|key ms IH]; intros i Hnd Hf; [done|]. rewrite fmap_cons, NoDup_cons in Hnd. destruct Hnd as [_ Hnd].
  cbn [seq length]. rewrite sumZ_cons, fmap_cons, filter_cons. rewrite (IH (S i) Hnd).
  2:{ intros j k Hj. rewrite <-(Hf (S j) k Hj). f_equal. lia. }
  pose proof (Hf 0%nat key eq_refl) as Hk. rewrite Nat.add_0_r in Hk. rewrite Hk.
  destruct (decide (Bytes key ∈ X)) as [Hin|Hin]; [rewrite bool_decide_true by done|rewrite bool_decide_false by done]; cbn [Z.b2z length]; lia.
Qed.

Lemma marks_size members m X :
  NoDup (Bytes <$> members) → X ⊆ list_to_set (Bytes <$> members) → marks members m X → Z.of_nat (size X) ≤ CountOneBits (Bitmap m).
Proof.
  intros Hnd Hsub (HI & Hp & _ & Hb). rewrite CountOneBits_sum by apply HI.
  assert (length members ≤ 8 * length (Bitmap m))%nat as Hle.
  { rewrite <-Hp. destruct (length (Publics m)) as [|n] eqn:E; [lia|]. pose proof (bm_bound m n HI ltac:(lia)). lia. }
  replace (8 * length (Bitmap m))%nat with (length members + (8 * length (Bitmap m) - length members))%nat by lia.
  rewrite seq_app, sumZ_app, (count_marked members X) by done.
  assert (0 ≤ sumZ (λ i, Z.b2z (bitAt (Bitmap m) i)) (seq (0 + length members) (8 * length (Bitmap m) - length members)))
    by (apply sumZ_nonneg; intros i _; by destruct (bitAt _ i)).
  enough (size X = length (filter (λ k, k ∈ X) (Bytes <$> members))) by lia.
  replace X with (list_to_set (C := gset SerializedPublicKey) (filter (λ k, k ∈ X) (Bytes <$> members))) at 1;
    [by apply size_list_to_set, NoDup_filter|].
  apply set_eq. intros k. rewrite elem_of_list_to_set, list_elem_of_filter. set_solver.
Qed.
End marked.

Section uniform.
Context {G Sg : Type} `{BK : BlsKey G, BS : BlsSign Sg, KL : !BlsKeyLaws G}.

#[export] Instance uniformDecider_laws : DeciderLaws (cIdentities G Sg) G Sg.
Proof.
  refine {| deciderOk _ := True |}.
  - intros d p keys sig h n v d' r _ E. injection E as E. split; [done|]. unfold uniformAddNewVote in E.
    destruct r as [e|b].
    + apply submitVote_err in E as [-> _]. done.
    + split; [|done]. apply submitVote_ok in E as (_ & _ & _ & Hpk & _). intros [mask|]; [|done].
      cbn. unfold TwoThirdsSignersCount, ParticipantsCount. by rewrite Hpk.
  - done.
  - done.
  - intros d p mask _ Hq Hnd Hsub Hm. cbn in *. pose proof (marks_size _ _ _ Hnd Hsub Hm) as Hs.
    unfold uniformIsQuorumAchieved in Hq. apply Z.leb_le in Hq. rewrite SignersCount_box, <-size_dom in Hq. fold (signers d p) in Hq.
    destruct (Z.ltb_spec (CountOneBits (Bitmap mask)) (TwoThirdsSignersCount d)); [lia|done].
Defined.
End uniform.

Section staked.
Context {G Sg : Type} `{BK : BlsKey G, BS : BlsSign Sg, KL : !BlsKeyLaws G}.
Implicit Types (v : stakedVoteWeight G Sg) (m : Mask G) (X : gset SerializedPublicKey).

(** The tallies are sums that the decimals can hold. *)
Definition tallyFits v : Prop := ∀ p t, tallyOf (voteTally v) p = Some t → Z.abs (tally t) < 2 ^ 315.

Lemma tallyOf_set t p x y : tallyOf t p = Some y → tallyOf (setTally t p x) p = Some x.
Proof. by destruct p. Qed.
Lemma tallyOf_set_ne t p q x : q ≠ p → tallyOf (setTally t p x) q = tallyOf t q.
Proof. by destruct p, q. Qed.

Lemma stakedAddNewVote_fits v p keys sig h n view v' r :
  tallyFits v → stakedAddNewVote v p keys sig h n view = Some (v', r) → tallyFits v'.
Proof.
  intros Hf Ha. unfold stakedAddNewVote in Ha. destruct (checkSigners (roster v) None keys); [by simplify_eq|].
  destruct (submitVote (reader v) p (map Bytes keys) sig h n view) as [s' [e|b]]; [by injection Ha as <- _|].
  apply bind_Some in Ha as (z & _ & Ha). apply bind_Some in Ha as (power & _ & Ha).
  apply bind_Some in Ha as (tq & Htq & Ha). apply bind_Some in Ha as (t' & Ht' & Ha). injection Ha as <- _.
  unfold addTally in Ht'. apply bind_Some in Ht' as (total & Hadd & [= <-]). apply checkBits_inv in Hadd as [-> Hb].
  intros q t Hq. cbn [voteTally] in Hq. destruct (decide (q = p)) as [->|Hne]; [|refine (Hf q t _); by rewrite (tallyOf_set_ne _ p q _ Hne) in Hq].
  rewrite (tallyOf_set _ _ _ _ Htq) in Hq. injection Hq as <-. exact Hb.
Qed.

Lemma powerStep_sum r m X l acc :
  nonnegRoster r → (∀ k i, (k, i) ∈ l → IndexEnabled m i = Ok (bool_decide (k ∈ X))) →
  0 ≤ acc → acc + sumZ (shareOf r) (filter (λ k, k ∈ X) l.*1) < 2 ^ 315 →
  foldl (powerStep r m) (Some acc) l = Some (acc + sumZ (shareOf r) (filter (λ k, k ∈ X) l.*1)).
Proof.
  intros Hr. revert acc. induction l as [|[k i] l IH]; intros acc Hl Hacc Hb; [cbn; f_equal; lia|].
  rewrite fmap_cons, filter_cons in Hb |- *. cbn [fst] in Hb |- *. cbn [foldl]. unfold powerStep at 2. cbn [mbind option_bind fst snd].
  rewrite (Hl k i) by (by left). assert (∀ k i, (k, i) ∈ l → IndexEnabled m i = Ok (bool_decide (k ∈ X))) as Hl' by (intros; apply Hl; by right).
  destruct (decide (k ∈ X)) as [Hk|Hk]; [rewrite bool_decide_true by done|rewrite bool_decide_false by done; by apply IH].
  rewrite sumZ_cons in Hb |- *. pose proof (Hr k) as Hk0. pose proof (sumZ_nonneg (shareOf r) (filter (λ k, k ∈ X) l.*1) (λ k _, Hr k)) as Hs0.
  unfold shareOf at 1. unfold shareOf at 1 in Hb. unfold shareOf in Hk0. destruct (Voters r !! k) as [voter|].
  - unfold Add. rewrite checkBits_Some by lia. rewrite IH by (done || lia). f_equal. lia.
  - by rewrite IH by (done || lia).
Qed.

Lemma powerStep_inv r m X l acc d :
  (∀ k i, (k, i) ∈ l → IndexEnabled m i = Ok (bool_decide (k ∈ X))) →
  foldl (powerStep r m) (Some acc) l = Some d → d = acc + sumZ (shareOf r) (filter (λ k, k ∈ X) l.*1).
Proof.
  revert acc. induction l as [|[k i] l IH]; intros acc Hl E; [cbn in E; injection E as <-; cbn; lia|].
  rewrite fmap_cons, filter_cons. cbn [fst]. cbn [foldl] in E. unfold powerStep at 2 in E. cbn [mbind option_bind fst snd] in E.
  rewrite (Hl k i) in E by (by left). assert (∀ k i, (k, i) ∈ l → IndexEnabled m i = Ok (bool_decide (k ∈ X))) as Hl' by (intros; apply Hl; by right).
  assert (∀ l, foldl (powerStep r m) None l = None) as HN by (clear; induction l; done).
  destruct (decide (k ∈ X)) as [Hk|Hk]; [rewrite bool_decide_true in E by done|rewrite bool_decide_false in E by done; by apply IH].
  rewrite sumZ_cons. unfold shareOf at 1. destruct (Voters r !! k) as [voter|]; [|apply IH in E; [lia|done]].
  destruct (Add acc (OverallPercent voter)) as [a|] eqn:Ea; [|by rewrite HN in E]. apply Add_inv in Ea as ->. apply IH in E; [lia|done].
Qed.

Lemma marks_index members m X :
  NoDup (Bytes <$> members) → X ⊆ list_to_set (Bytes <$> members) → marks members m X →
  filter (λ k, k ∈ X) (map_to_list (PublicsIndex m)).*1 ≡ₚ elements X
  ∧ ∀ k i, (k, i) ∈ map_to_list (PublicsIndex m) → IndexEnabled m i = Ok (bool_decide (k ∈ X)).
Proof.
  intros Hnd Hsub (HI & Hp & Hx & Hb). split.
  - apply NoDup_Permutation; [apply NoDup_filter, NoDup_fst_map_to_list|apply NoDup_elements|]. intros k.
    rewrite list_elem_of_filter, elem_of_elements, list_elem_of_fmap. split; [by intros [? _]|]. intros Hk. split; [done|].
    apply Hsub, elem_of_list_to_set, list_elem_of_fmap in Hk as (key & -> & [j Hj]%list_elem_of_lookup_1).
    exists (Bytes key, Z.of_nat (0 + j)). split; [done|]. apply elem_of_map_to_list. rewrite Hx. by apply indexFrom_member.
  - intros k i Hki%elem_of_map_to_list. destruct (inv_index m HI _ _ Hki) as (Hi & key & Hkey & <-). rewrite Hp in Hkey.
    rewrite <-(Z2Nat.id i) by done. rewrite IndexEnabled_bitAt by (rewrite ?Hp; eauto using lookup_lt_Some). by rewrite (Hb _ _ Hkey).
Qed.

Lemma computeTotalPowerByMask_marks v members m X :
  nonnegRoster (roster v) → NoDup (Bytes <$> members) → X ⊆ list_to_set (Bytes <$> members) → marks members m X →
  setPower (roster v) X < 2 ^ 315 → computeTotalPowerByMask v m = Some (setPower (roster v) X).
Proof.
  intros Hr Hnd Hsub Hm Hfit. destruct (marks_index _ _ _ Hnd Hsub Hm) as [Hperm Hen].
  unfold computeTotalPowerByMask, setPower. unfold setPower in Hfit. rewrite <-(sumZ_perm _ _ _ Hperm) in Hfit |- *.
  rewrite (powerStep_sum _ _ X) by (done || (unfold ZeroDec; rewrite ?Z.add_0_l; exact Hfit)). done.
Qed.

Lemma computeTotalPowerByMask_inv v members m X d :
  NoDup (Bytes <$> members) → X ⊆ list_to_set (Bytes <$> members) → marks members m X →
  computeTotalPowerByMask v m = Some d → d = setPower (roster v) X.
Proof.
  intros Hnd Hsub Hm Hd. destruct (marks_index _ _ _ Hnd Hsub Hm) as [Hperm Hen].
  unfold computeTotalPowerByMask in Hd. apply (powerStep_inv _ _ X) in Hd; [|done]. unfold setPower. rewrite <-(sumZ_perm _ _ _ Hperm), Hd. done.
Qed.

#[export] Instance stakedDecider_laws : DeciderLaws (stakedVoteWeight G Sg) G Sg.
Proof.
  refine {| deciderOk v := stakedInv v ∧ tallyFits v |}.
  - intros v p keys sig h n view v' r [Hi Hf] Ha. split; [split; [eapply (stakedAddNewVote_inv (λ _, demoInstance)); [exact Hi|exact Ha]|eapply stakedAddNewVote_fits; [exact Hf|exact Ha]]|].
    cbn [AddNewVote stakedDecider tracker IsQuorumAchievedByMask] in *. unfold stakedAddNewVote in Ha. destruct (checkSigners (roster v) None keys); [by injection Ha as <- <-|].
    destruct (submitVote (reader v) p (map Bytes keys) sig h n view) as [s' [e|b]] eqn:Es.
    { injection Ha as <- <-. apply submitVote_err in Es as [-> _]. by destruct v. }
    apply bind_Some in Ha as (z & _ & Ha). apply bind_Some in Ha as (power & _ & Ha).
    apply bind_Some in Ha as (tq & _ & Ha). apply bind_Some in Ha as (t' & _ & Ha). by injection Ha as <- <-.
  - intros v [[Hn Ht] Hf]. split; [|done]. split; [split; [done|]|].
    + intros []; [by apply tallyInv_zero|by apply tallyInv_zero|apply (Ht ViewChange)|done].
    + intros [] t E; cbn in E; try discriminate; [injection E as <-; reflexivity|injection E as <-; reflexivity|by apply (Hf ViewChange)].
  - done.
  - intros v p mask [[Hn Ht] Hf] Hq Hnd Hsub Hm. cbn [tracker stakedDecider IsQuorumAchieved IsQuorumAchievedByMask] in *. unfold stakedIsQuorumAchieved in Hq. unfold stakedIsQuorumAchievedByMask.
    destruct (tallyOf (voteTally v) p) as [t|] eqn:E; [|done]. destruct (Ht p t E) as (Hs & Ha & _).
    pose proof (Hf p t E) as Hfit. rewrite Hs in Hfit.
    rewrite (computeTotalPowerByMask_marks v (publicKeys (reader v)) mask (signers (reader v) p)) by (done || lia). cbn [mbind option_bind default]. rewrite <-Hs, <-Ha. exact Hq.
Defined.
End staked.
