(* ===== verification/Consensus.v ===== *)
(** * The consensus node ([consensus/consensus.go], [consensus_service.go], [construct.go],
      [checks.go], [view_change.go])

    The state of a node in the FBFT protocol with the operations that the message handlers share:
    making and parsing messages, resetting, checking the view, the next view and its leader.  The
    chain is the interface [ChainOps], the decider the interface [DeciderOps].  Timers are kept
    as running or stopped; what a node sends or starts in the background is a list of outputs.
    [None] is a panic.  A handler is one step: it holds the node's mutex ([onNewView] gives it
    back at once).  The logger, the metrics and the randomness channels are left out; a parsed
    view-change message has both its signatures, and the type of a request goes with its kind. *)

From Stdlib Require Import ZArith Lia.
From stdpp Require Import base gmap list option sets.
From S2P Require Import Prelude Mask ShardState Votepower Quorum FBFTLog ViewChange Decider.
Local Open Scope Z_scope.

(** ** Modes and phases ([consensus/enums.go]) *)
Inductive Mode := Normal | ViewChanging | Syncing | Listening.
Inductive FBFTPhase := FBFTAnnounce | FBFTPrepare | FBFTCommit.
#[export] Instance Mode_eq_dec : EqDecision Mode.
Proof. solve_decision. Defined.
#[export] Instance FBFTPhase_eq_dec : EqDecision FBFTPhase.
Proof. solve_decision. Defined.

(** [consensus/config.go], in nanoseconds and seconds. *)
Definition viewChangeDuration : Z := 27 * 1000000000.
Definition viewChangeSlot : Z := 45.
Definition MaxBlockNumDiff : Z := 100.
Definition MaxViewIDDiff : Z := 249.

(** ** The chain *)
Record chainHeader := mkChainHeader {
  hNumber : Z; hEpoch : Z; hViewID : Z; hTime : Z; hShardID : Z; hIsLastBlockInEpoch : bool;
  (** [GetShardState] of the header; [None] is an error. *)
  hShardState : option State;
}.

Class ChainOps (C G : Type) := {
  (** [CurrentBlock().NumberU64()] *)
  currentNumber : C → Z;
  (** [CurrentHeader()] *)
  currentHeader : C → option chainHeader;
  (** [InsertChain] of one block, with its flag to verify headers; [None] is an error. *)
  insertBlock : C → Block → bool → option C;
  readCommitSig : C → Z → option bytes;
  writeCommitSig : C → Z → bytes → C;
  hasBlock : C → Hash → bool;
  (** [Engine().VerifyHeaderSignature] *)
  verifyHeaderSignature : C → Block → bytes → bytes → bool;
  isStakingEpoch : C → Z → bool;
  (** [committee.WithStakingEnabled.ReadFromDB] *)
  readShardState : C → Z → option State;
  (** [GetLeaderPubKeyFromCoinbase] of the current header *)
  leaderFromCoinbase : C → option (PublicKeyWrapper G);
}.

(** The operations with which a node changes its decider. *)
Class DeciderAdmin (D G : Type) := {
  setParticipants : D → list (PublicKeyWrapper G) → D;
  (** [SetVoters]; the flag is whether there was no error. *)
  setVoters : D → Committee → Z → D * bool;
  (** [NewDecider(SuperMajorityStake, shardID)] *)
  newStakeDecider : Z → D;
  isStakePolicy : D → bool;
}.

(** What the environment decides during a call: the clock, whether state sync is accepted, and
    whether the network takes a message. *)
Record Env := mkEnv { now : Z; syncAccepts : bool; sendOk : bool }.

Section consensus.
Context {G Sg D C : Type} `{EqG : EqDecision G, BK : BlsKey G, BS : BlsSign Sg, BC : !BlsCrypto G Sg, BL : BlockLib}.
Context `{DO : !DeciderOps D G Sg, DA : !DeciderAdmin D G, CO : !ChainOps C G}.
Context (BlockVerifier : Block → bool) (orderMsgs : gmap bytes (FBFTMessage G Sg) → list (FBFTMessage G Sg)).
Context (keyOf : SerializedPublicKey → option G) (InstanceForEpoch : Z → instance) (aggregateSig : bool).
Notation Msg := (FBFTMessage G Sg).
Notation Log := (FBFTLog G Sg).
Notation Key := (PublicKeyWrapper G).
Notation PriKey := (PrivateKeyWrapper G Sg).

Record Timers := mkTimers { timeoutConsensus : bool; timeoutViewChange : bool; timeoutBootstrap : bool }.

(** ** The state ([Consensus]) *)
Record Consensus := mkConsensus {
  decider : D;
  fbftLog : Log;
  phase : FBFTPhase;
  mode : Mode;
  blockViewID : Z;
  viewChangingID : Z;
  timers : Timers;
  aggregatedPrepareSig : option Sg;
  aggregatedCommitSig : option Sg;
  prepareBitmap : Mask G;
  commitBitmap : Mask G;
  multiSigBitmap : Mask G;
  chain : C;
  priKey : list PriKey;
  LeaderPubKey : Key;
  blockNum : Z;
  blockHash : Hash;
  block : bytes;
  shardID : Z;
  IgnoreViewIDCheck : bool;
  vc : viewChange G Sg;
  (** [BlockVerifier] is set. *)
  initialised : bool;
  disableViewChange : bool;
}.

Definition setDecider (c : Consensus) x : Consensus := mkConsensus x (fbftLog c) (phase c) (mode c) (blockViewID c) (viewChangingID c) (timers c) (aggregatedPrepareSig c) (aggregatedCommitSig c) (prepareBitmap c) (commitBitmap c) (multiSigBitmap c) (chain c) (priKey c) (LeaderPubKey c) (blockNum c) (blockHash c) (block c) (shardID c) (IgnoreViewIDCheck c) (vc c) (initialised c) (disableViewChange c).
Definition setLog (c : Consensus) x : Consensus := mkConsensus (decider c) x (phase c) (mode c) (blockViewID c) (viewChangingID c) (timers c) (aggregatedPrepareSig c) (aggregatedCommitSig c) (prepareBitmap c) (commitBitmap c) (multiSigBitmap c) (chain c) (priKey c) (LeaderPubKey c) (blockNum c) (blockHash c) (block c) (shardID c) (IgnoreViewIDCheck c) (vc c) (initialised c) (disableViewChange c).
Definition switchPhase (c : Consensus) x : Consensus := mkConsensus (decider c) (fbftLog c) x (mode c) (blockViewID c) (viewChangingID c) (timers c) (aggregatedPrepareSig c) (aggregatedCommitSig c) (prepareBitmap c) (commitBitmap c) (multiSigBitmap c) (chain c) (priKey c) (LeaderPubKey c) (blockNum c) (blockHash c) (block c) (shardID c) (IgnoreViewIDCheck c) (vc c) (initialised c) (disableViewChange c).
Definition SetMode (c : Consensus) x : Consensus := mkConsensus (decider c) (fbftLog c) (phase c) x (blockViewID c) (viewChangingID c) (timers c) (aggregatedPrepareSig c) (aggregatedCommitSig c) (prepareBitmap c) (commitBitmap c) (multiSigBitmap c) (chain c) (priKey c) (LeaderPubKey c) (blockNum c) (blockHash c) (block c) (shardID c) (IgnoreViewIDCheck c) (vc c) (initialised c) (disableViewChange c).
Definition SetCurBlockViewID (c : Consensus) x : Consensus := mkConsensus (decider c) (fbftLog c) (phase c) (mode c) x (viewChangingID c) (timers c) (aggregatedPrepareSig c) (aggregatedCommitSig c) (prepareBitmap c) (commitBitmap c) (multiSigBitmap c) (chain c) (priKey c) (LeaderPubKey c) (blockNum c) (blockHash c) (block c) (shardID c) (IgnoreViewIDCheck c) (vc c) (initialised c) (disableViewChange c).
Definition SetViewChangingID (c : Consensus) x : Consensus := mkConsensus (decider c) (fbftLog c) (phase c) (mode c) (blockViewID c) x (timers c) (aggregatedPrepareSig c) (aggregatedCommitSig c) (prepareBitmap c) (commitBitmap c) (multiSigBitmap c) (chain c) (priKey c) (LeaderPubKey c) (blockNum c) (blockHash c) (block c) (shardID c) (IgnoreViewIDCheck c) (vc c) (initialised c) (disableViewChange c).
Definition setTimers (c : Consensus) x : Consensus := mkConsensus (decider c) (fbftLog c) (phase c) (mode c) (blockViewID c) (viewChangingID c) x (aggregatedPrepareSig c) (aggregatedCommitSig c) (prepareBitmap c) (commitBitmap c) (multiSigBitmap c) (chain c) (priKey c) (LeaderPubKey c) (blockNum c) (blockHash c) (block c) (shardID c) (IgnoreViewIDCheck c) (vc c) (initialised c) (disableViewChange c).
Definition setPrepare (c : Consensus) sig x : Consensus := mkConsensus (decider c) (fbftLog c) (phase c) (mode c) (blockViewID c) (viewChangingID c) (timers c) sig (aggregatedCommitSig c) x (commitBitmap c) (multiSigBitmap c) (chain c) (priKey c) (LeaderPubKey c) (blockNum c) (blockHash c) (block c) (shardID c) (IgnoreViewIDCheck c) (vc c) (initialised c) (disableViewChange c).
Definition setCommit (c : Consensus) sig x : Consensus := mkConsensus (decider c) (fbftLog c) (phase c) (mode c) (blockViewID c) (viewChangingID c) (timers c) (aggregatedPrepareSig c) sig (prepareBitmap c) x (multiSigBitmap c) (chain c) (priKey c) (LeaderPubKey c) (blockNum c) (blockHash c) (block c) (shardID c) (IgnoreViewIDCheck c) (vc c) (initialised c) (disableViewChange c).
Definition setMultiSig (c : Consensus) x : Consensus := mkConsensus (decider c) (fbftLog c) (phase c) (mode c) (blockViewID c) (viewChangingID c) (timers c) (aggregatedPrepareSig c) (aggregatedCommitSig c) (prepareBitmap c) (commitBitmap c) x (chain c) (priKey c) (LeaderPubKey c) (blockNum c) (blockHash c) (block c) (shardID c) (IgnoreViewIDCheck c) (vc c) (initialised c) (disableViewChange c).
Definition setChain (c : Consensus) x : Consensus := mkConsensus (decider c) (fbftLog c) (phase c) (mode c) (blockViewID c) (viewChangingID c) (timers c) (aggregatedPrepareSig c) (aggregatedCommitSig c) (prepareBitmap c) (commitBitmap c) (multiSigBitmap c) x (priKey c) (LeaderPubKey c) (blockNum c) (blockHash c) (block c) (shardID c) (IgnoreViewIDCheck c) (vc c) (initialised c) (disableViewChange c).
Definition setLeader (c : Consensus) x : Consensus := mkConsensus (decider c) (fbftLog c) (phase c) (mode c) (blockViewID c) (viewChangingID c) (timers c) (aggregatedPrepareSig c) (aggregatedCommitSig c) (prepareBitmap c) (commitBitmap c) (multiSigBitmap c) (chain c) (priKey c) x (blockNum c) (blockHash c) (block c) (shardID c) (IgnoreViewIDCheck c) (vc c) (initialised c) (disableViewChange c).
Definition SetBlockNum (c : Consensus) x : Consensus := mkConsensus (decider c) (fbftLog c) (phase c) (mode c) (blockViewID c) (viewChangingID c) (timers c) (aggregatedPrepareSig c) (aggregatedCommitSig c) (prepareBitmap c) (commitBitmap c) (multiSigBitmap c) (chain c) (priKey c) (LeaderPubKey c) x (blockHash c) (block c) (shardID c) (IgnoreViewIDCheck c) (vc c) (initialised c) (disableViewChange c).
Definition setBlock (c : Consensus) h x : Consensus := mkConsensus (decider c) (fbftLog c) (phase c) (mode c) (blockViewID c) (viewChangingID c) (timers c) (aggregatedPrepareSig c) (aggregatedCommitSig c) (prepareBitmap c) (commitBitmap c) (multiSigBitmap c) (chain c) (priKey c) (LeaderPubKey c) (blockNum c) h x (shardID c) (IgnoreViewIDCheck c) (vc c) (initialised c) (disableViewChange c).
Definition setIgnore (c : Consensus) x : Consensus := mkConsensus (decider c) (fbftLog c) (phase c) (mode c) (blockViewID c) (viewChangingID c) (timers c) (aggregatedPrepareSig c) (aggregatedCommitSig c) (prepareBitmap c) (commitBitmap c) (multiSigBitmap c) (chain c) (priKey c) (LeaderPubKey c) (blockNum c) (blockHash c) (block c) (shardID c) x (vc c) (initialised c) (disableViewChange c).
Definition setVC (c : Consensus) x : Consensus := mkConsensus (decider c) (fbftLog c) (phase c) (mode c) (blockViewID c) (viewChangingID c) (timers c) (aggregatedPrepareSig c) (aggregatedCommitSig c) (prepareBitmap c) (commitBitmap c) (multiSigBitmap c) (chain c) (priKey c) (LeaderPubKey c) (blockNum c) (blockHash c) (block c) (shardID c) (IgnoreViewIDCheck c) x (initialised c) (disableViewChange c).

Definition runConsensusTimer (c : Consensus) (on : bool) := setTimers c (mkTimers on (timeoutViewChange (timers c)) (timeoutBootstrap (timers c))).
Definition runViewChangeTimer (c : Consensus) (on : bool) := setTimers c (mkTimers (timeoutConsensus (timers c)) on (timeoutBootstrap (timers c))).
Definition runBootstrapTimer (c : Consensus) (on : bool) := setTimers c (mkTimers (timeoutConsensus (timers c)) (timeoutViewChange (timers c)) on).

Definition IsViewChangingMode (c : Consensus) : bool := bool_decide (mode c = ViewChanging).
Definition SetViewIDs (c : Consensus) (height : Z) : Consensus := SetViewChangingID (SetCurBlockViewID c height) height.
Definition members (c : Consensus) : list Key := Participants (tracker (decider c)).

(** [IsEqual] of public keys. *)
Definition keyEqb (a b : G) : bool := bool_decide (a = b).
Definition IsLeader (c : Consensus) : bool := existsb (λ key, keyEqb (Object (Pub key)) (Object (LeaderPubKey c))) (priKey c).
Definition GetLeaderPrivateKey (c : Consensus) (leaderKey : G) : option PriKey :=
  List.find (λ key, keyEqb (Object (Pub key)) leaderKey) (priKey c).
Definition GetConsensusLeaderPrivateKey (c : Consensus) : option PriKey := GetLeaderPrivateKey c (Object (LeaderPubKey c)).
Definition IsValidatorInCommittee (c : Consensus) (pubKey : SerializedPublicKey) : bool :=
  negb (IndexOf (tracker (decider c)) pubKey =? -1).
Definition getPriKeysInCommittee (c : Consensus) : list PriKey := List.filter (λ key, IsValidatorInCommittee c (Bytes (Pub key))) (priKey c).

(** ** Resetting *)
Definition UpdateBitmaps (c : Consensus) : Consensus :=
  let mask := newMask (members c) in
  setMultiSig (setCommit (setPrepare c (aggregatedPrepareSig c) mask) (aggregatedCommitSig c) mask) mask.
Definition ResetState (c : Consensus) : Consensus :=
  let c1 := setBlock (switchPhase c FBFTAnnounce) 0 [] in
  let c2 := setDecider c1 (ResetPrepareAndCommitVotes (decider c1)) in
  setCommit (setPrepare c2 None (Clear (prepareBitmap c2))) None (Clear (commitBitmap c2)).
Definition ResetViewChangeState (c : Consensus) : Consensus :=
  let c1 := setVC (SetMode c Normal) ResetVC in setDecider c1 (ResetViewChangeVotes (decider c1)).
Definition UpdatePublicKeys (c : Consensus) (pubKeys : list Key) : Consensus :=
  let c1 := setDecider c (setParticipants (decider c) pubKeys) in
  let c2 := match members c1 with k :: _ => setLeader c1 k | [] => c1 end in
  let c3 := ResetState (UpdateBitmaps c2) in
  if IsViewChangingMode c3 then c3 else ResetViewChangeState c3.

(** [spinUpStateSync], with or without a downloader. *)
Definition spinUpStateSync (env : Env) (c : Consensus) : Consensus :=
  if syncAccepts env then setTimers (SetMode c Syncing) (mkTimers false false false) else c.

(** [checkViewID]: whether the error is nil. *)
Definition checkViewID (c : Consensus) (m : Msg) : bool * Consensus :=
  if IgnoreViewIDCheck c then
    let c1 := SetViewIDs (SetMode c Normal) (ViewID m) in
    match SenderPubkeys m with
    | [key] => (true, runConsensusTimer (setIgnore (setLeader c1 key) false) true)
    | _ => (false, c1)
    end
  else (ViewID m =? blockViewID c, c).

(** ** Messages of the three phases ([construct.go], [fbft_log.go]) *)
Record ConsensusRequest := mkConsensusRequest {
  rViewId : Z; rBlockNum : Z; rBlockHash : bytes; rBlock : bytes; rPayload : bytes;
  (** [None] is empty. *)
  rSenderPubkey : option SerializedPublicKey; rSenderPubkeyBitmap : bytes;
}.

(** [None] is an error. *)
Definition ParseFBFTMessage (c : Consensus) (typ : Z) (r : ConsensusRequest) : option Msg :=
  senders ← match rSenderPubkey r with
            | Some key => pubKey ← keyOf key; Some [mkPublicKeyWrapper key pubKey]
            | None => match GetSignedPubKeysFromBitmap (multiSigBitmap c) (rSenderPubkeyBitmap r) with Ok keys => Some keys | _ => None end
            end;
  Some (mkFBFTMessage typ (rViewId r) (rBlockNum r) (bytesToHash (copyTo 32 (rBlockHash r))) (rBlock r) senders (rSenderPubkeyBitmap r)
    None (rPayload r) None None None None None None false).

(** A message with its parsed form.  The aggregate signature that goes with it is never set. *)
Record NetworkMessage := mkNetworkMessage { netType : Z; netRequest : ConsensusRequest; netMsg : Msg; netAggSig : option Sg }.

Definition constructQuorumSigAndBitmap (c : Consensus) (p : Phase) : bytes :=
  let aggSig := AggregateVotes (tracker (decider c)) p in
  match p with
  | Prepare => sigToBytes aggSig ++ Bitmap (prepareBitmap c)
  | Commit => sigToBytes aggSig ++ Bitmap (commitBitmap c)
  | _ => []
  end.

Inductive constructError := errNoKeys.

(** The sum of the signatures of the keys. *)
Definition signAll (keys : list PriKey) (h : bytes) : Sg := foldl (λ sig key, sigAdd sig (SignHash (Pri key) h)) sigZero keys.

(** The senders of a message: one key, or a bitmap; the errors of [SetKey] are dropped. *)
Definition sendersBitmap (c : Consensus) (keys : list PriKey) : bytes :=
  Bitmap (foldl (λ mask key, match SetKey mask (Bytes (Pub key)) true with Ok mask' => mask' | _ => mask end) (newMask (members c)) keys).

(** [construct]; when its message cannot be parsed again it returns nil with a nil error, and the
    callers use the nil message: a panic. *)
Definition construct (c : Consensus) (p : Z) (payloadForSign : bytes) (keys : list PriKey) : result constructError NetworkMessage :=
  match keys with
  | [] => Err errNoKeys
  | _ =>
      let '(sender, bitmap) := match keys with [key] => (Some (Bytes (Pub key)), []) | _ => (None, sendersBitmap c keys) end in
      let h := toBytes 32 (blockHash c) in
      let '(blk, payload) :=
        if p =? ANNOUNCE then ([], h)
        else if p =? PREPARE then ([], sigToBytes (signAll keys h))
        else if p =? COMMIT then ([], sigToBytes (signAll keys payloadForSign))
        else if p =? PREPARED then (block c, constructQuorumSigAndBitmap c Prepare)
        else if p =? COMMITTED then ([], constructQuorumSigAndBitmap c Commit)
        else ([], []) in
      let r := mkConsensusRequest (blockViewID c) (blockNum c) h blk payload sender bitmap in
      match ParseFBFTMessage c p r with
      | Some m => Ok (mkNetworkMessage p r m None)
      | None => Panic
      end
  end.

(** ** Outputs *)
Record ViewChangeVote := mkVote {
  wViewId : Z; wBlockNum : Z; wSenderPubkey : SerializedPublicKey; wLeaderPubkey : SerializedPublicKey;
  wPayload : bytes; wPreparedBlock : bytes; wViewchangeSig : bytes; wViewidSig : bytes;
}.

Inductive output :=
| Sent (m : NetworkMessage)
| SentVote (v : ViewChangeVote)
| SentNewView (r : ViewChangeRequest)
(** [DelayedSendWithRetry] *)
| Queued (m : NetworkMessage)
(** [ReadySignal <- SyncProposal] or [AsyncProposal] *)
| Propose (sync : bool)
(** [CommitSigChannel <- commitSigAndBitmap] *)
| CommitSigs (payload : bytes)
(** [VerifiedNewBlock <- blk] *)
| NewBlock (b : Block)
(** [PostConsensusJob(blk)] *)
| PostConsensusJob (b : Block)
(** The goroutine of [onPrepared] that takes up committed messages of the block. *)
| ReprocessCommitted (number viewID : Z) (hash : Hash)
(** The goroutine of [preCommitAndPropose]. *)
| PreCommit (b : Block) (payload : bytes) (m : NetworkMessage)
(** The grace period of [onCommit]. *)
| GracePeriod (viewID : Z).

Definition step := option (Consensus * list output).
Definition ret (c : Consensus) : step := Some (c, []).

(** [constructP2pMessages]: one message for all keys, or one for each. *)
Fixpoint constructEach (c : Consensus) (msgType : Z) (payloadForSign : bytes) (keys : list PriKey) : option (list NetworkMessage) :=
  match keys with
  | [] => Some []
  | key :: rest =>
      match construct c msgType payloadForSign [key] with
      | Panic => None
      | Err _ => constructEach c msgType payloadForSign rest
      | Ok m => ms ← constructEach c msgType payloadForSign rest; Some (m :: ms)
      end
  end.
Definition constructP2pMessages (c : Consensus) (msgType : Z) (payloadForSign : bytes) (keys : list PriKey) : option (list NetworkMessage) :=
  if aggregateSig then
    match construct c msgType payloadForSign keys with Ok m => Some [m] | Err _ => Some [] | Panic => None end
  else constructEach c msgType payloadForSign keys.

(** [broadcastConsensusP2pMessages]: nothing in listening mode; the first failure ends it. *)
Definition broadcast (env : Env) (c : Consensus) (ms : list NetworkMessage) : list output :=
  if bool_decide (mode c = Listening) then [] else if sendOk env then map Sent ms else [].

(** The commit payload of a block. *)
Definition commitPayloadOf (c : Consensus) (b : Block) : bytes :=
  ConstructCommitPayload (isStakingEpoch (G := G) (chain c) (bEpoch b)) (hashOf b) (bNumber b) (bViewID b).

Definition sendCommitMessages (env : Env) (c : Consensus) (b : Block) : option (list output) :=
  ms ← constructP2pMessages c COMMIT (commitPayloadOf c b) (getPriKeysInCommittee c); Some (broadcast env c ms).

(** [prepare] *)
Definition prepare (env : Env) (c : Consensus) : step :=
  ms ← constructP2pMessages c PREPARE [] (getPriKeysInCommittee c);
  Some (switchPhase c FBFTPrepare, broadcast env c ms).

Definition ReadSignatureBitmapPayload (c : Consensus) (recvPayload : bytes) (offset : nat) : option (Sg * Mask G) :=
  if (length recvPayload <? offset + BLSSignatureSizeInBytes)%nat then None
  else ReadSignatureBitmapByPublicKeys (drop offset recvPayload) (members c).

(** ** Votes of the node's own keys

    The mask and the decider are changed for each key of the committee; an error of [AddNewVote]
    ends the loop or is passed over. *)
Fixpoint voteOwn (stop : bool) (p : Phase) (h : bytes) (b : Block) (hash : Hash) (keys : list PriKey) (mask : Mask G) (d : D)
    : option (bool * Mask G * D) :=
  match keys with
  | [] => Some (true, mask, d)
  | key :: rest =>
      match SetKey mask (Bytes (Pub key)) true with
      | Panic => None
      | Err _ => voteOwn stop p h b hash rest mask d
      | Ok mask' =>
          '(d', r) ← AddNewVote d p [Pub key] (SignHash (Pri key) h) hash (bNumber b) (bViewID b);
          match r with
          | inl _ => if stop then Some (false, mask', d') else voteOwn stop p h b hash rest mask' d'
          | inr _ => voteOwn stop p h b hash rest mask' d'
          end
      end
  end.

(** ** A new epoch ([UpdateConsensusInformation]) *)

(** [committeeToSet.BLSPublicKeys()], its error ignored: no keys. *)
Definition committeeKeys (cm : Committee) : list Key :=
  default [] (mapM (λ slot, k ← keyOf (BLSPublicKey slot); Some (mkPublicKeyWrapper (BLSPublicKey slot) k)) (Slots cm)).

(** The committee to set with its epoch; [None] is an error. *)
Definition committeeToSet (c : Consensus) (h : chainHeader) (nextEpoch : Z) : option (Committee * Z) :=
  curShardState ← readShardState (G := G) (chain c) (hEpoch h);
  if hIsLastBlockInEpoch h && (0 <? hNumber h) then
    nextShardState ← readShardState (G := G) (chain c) nextEpoch;
    match FindCommitteeByID (Some nextShardState) (hShardID h) with inr cm => Some (cm, nextEpoch) | inl _ => None end
  else match FindCommitteeByID (Some curShardState) (hShardID h) with inr cm => Some (cm, hEpoch h) | inl _ => None end.

(** The leader of the epoch that runs, and whether there was an error. *)
Definition leaderOfChain (c : Consensus) (h : chainHeader) (hasError : bool) : bool * Consensus :=
  if negb (hIsLastBlockInEpoch h) && negb (hNumber h =? 0) then
    match leaderFromCoinbase (chain c) with
    | Some leader => (hasError, setLeader c leader)
    | None => (true, setIgnore c true)
    end
  else (hasError, c).

(** The mode, the state and the proposal signal of a new leader. *)
Definition UpdateConsensusInformation (c : Consensus) : option (Mode * Consensus * list output) :=
  h ← currentHeader (G := G) (chain c);
  let isStaking := isStakingEpoch (G := G) (chain c) in
  match (if hIsLastBlockInEpoch h then s ← hShardState h; Some (default (hEpoch h + 1) (Epoch s)) else Some (hEpoch h + 1)) with
  | None => Some (Syncing, c, [])
  | Some nextEpoch =>
      let isFirstTimeStaking := isStaking nextEpoch && hIsLastBlockInEpoch h && negb (isStaking (hEpoch h)) in
      let haventUpdatedDecider := isStaking (hEpoch h) && negb (isStakePolicy (G := G) (decider c)) in
      let c1 := if isFirstTimeStaking || haventUpdatedDecider then setDecider c (newStakeDecider (G := G) (shardID c)) else c in
      match committeeToSet c1 h nextEpoch with
      | None => Some (Syncing, c1, [])
      | Some (cm, epochToSet) =>
          let hasError := match Slots cm with [] => true | _ => false end in
          let oldLeader := LeaderPubKey c1 in
          let pubKeys := committeeKeys cm in
          let c2 := UpdatePublicKeys c1 pubKeys in
          let '(d', ok) := setVoters (G := G) (decider c2) cm epochToSet in
          let c3 := setDecider c2 d' in
          if negb ok then Some (Syncing, c3, [])
          else
            let '(hasError, c4) := leaderOfChain c3 h hasError in
            if existsb (λ key, existsb (λ my, keyEqb (Object (Pub my)) (Object key)) (priKey c4)) pubKeys then
              if hasError then Some (Syncing, c4, [])
              else Some (Normal, c4, if negb (keyEqb (Object (LeaderPubKey c4)) (Object oldLeader)) && IsLeader c4 then [Propose true] else [])
            else Some (Listening, c4, [])
      end
  end.

(** ** Committing a block ([consensus_v2.go]) *)
Definition SetupForNewConsensus (c : Consensus) (blk : Block) (committedMsg : Msg) : step :=
  leader ← head (SenderPubkeys committedMsg);
  let c1 := setLeader (SetCurBlockViewID (SetBlockNum c (u64 (bNumber blk + 1))) (u64 (ViewID committedMsg + 1))) leader in
  '(c2, outs) ← (if IsLastBlockInEpoch blk
                 then '(m, c', outs) ← UpdateConsensusInformation c1; Some (SetMode c' m, outs)
                 else Some (c1, []));
  Some (ResetState (setLog c2 (PruneCacheBeforeBlock (fbftLog c2) (bNumber blk))), outs).

(** [commitBlock]: whether the error is nil. *)
Definition commitBlock (c : Consensus) (blk : Block) (committedMsg : Msg) : option (bool * Consensus * list output) :=
  let inserted :=
    if currentNumber (G := G) (chain c) <? bNumber blk
    then insertBlock (G := G) (chain c) blk (negb (IsBlockVerified (fbftLog c) blk)) else Some (chain c) in
  match inserted with
  | None => Some (false, c, [])
  | Some ch =>
      let c1 := setChain c ch in
      if negb (HasSingleSender committedMsg) then Some (false, c1, [])
      else '(c2, outs) ← SetupForNewConsensus c1 blk committedMsg; Some (true, c2, PostConsensusJob blk :: outs)
  end.

(** [SetCurrentCommitSig] of a block that the log holds. *)
Definition signInLog (log : Log) (b : Block) (sig : bytes) : Log :=
  mkFBFTLog (alter (λ b', SetCurrentCommitSig b' sig) (hashOf b) (blocks log)) (verifiedBlocks log) (messages log).

(** The loop of [tryCatchup] over the committed blocks of the log. *)
Fixpoint catchupLoop (c : Consensus) (l : list (Block * Msg)) : step :=
  match l with
  | [] => ret c
  | (blk, msg) :: rest =>
      let c1 := setLog c (signInLog (fbftLog c) blk (Payload msg)) in
      let blk1 := SetCurrentCommitSig blk (Payload msg) in
      match VerifyBlock BlockVerifier (fbftLog c1) blk1 with
      | None => ret c1
      | Some log =>
          '(ok, c2, outs) ← commitBlock (setLog c1 log) blk1 msg;
          if (ok : bool) then '(c3, outs') ← catchupLoop c2 rest; Some (c3, outs ++ [NewBlock blk1] ++ outs') else Some (c2, outs)
      end
  end.
Definition postCatchup (c : Consensus) (initBN : Z) : Consensus :=
  let c1 := if initBN <? blockNum c then switchPhase c FBFTAnnounce else c in
  if (initBN <? blockNum c1) && IsViewChangingMode c1 then runViewChangeTimer (SetMode c1 Normal) false else c1.
Definition tryCatchup (c : Consensus) : step :=
  if negb (initialised c) then ret c
  else
    l ← getLastMileBlocksAndMsg orderMsgs (S (size (messages (fbftLog c)))) (fbftLog c) (blockNum c);
    '(c1, outs) ← catchupLoop c l;
    Some (postCatchup c1 (blockNum c), outs).

(** [verifyLastCommitSig]: whether the error is nil. *)
Definition verifyLastCommitSig (c : Consensus) (lastCommitSig : bytes) (blk : Block) : bool :=
  if (length lastCommitSig <? BLSSignatureSizeInBytes)%nat then false
  else match sigOfBytes (take BLSSignatureSizeInBytes lastCommitSig) with
       | None => false
       | Some aggSig => VerifyHash aggSig (AggregatePublic (commitBitmap c)) (commitPayloadOf c blk)
       end.

Definition finalCommit (env : Env) (c : Consensus) : step :=
  match GetConsensusLeaderPrivateKey c with
  | None => ret c
  | Some leaderPriKey =>
      match construct c COMMITTED [] [leaderPriKey] with
      | Panic => None
      | Err _ => ret c
      | Ok network =>
          let commitSigAndBitmap := Payload (netMsg network) in
          let c1 := setLog c (AddVerifiedMessage (fbftLog c) (netMsg network)) in
          match GetBlockByHash (fbftLog c1) (blockHash c) with
          | None => ret c1
          | Some blk =>
              if negb (verifyLastCommitSig c1 commitSigAndBitmap blk) then ret c1
              else
                let blk1 := SetCurrentCommitSig blk commitSigAndBitmap in
                let c2 := setChain c1 (writeCommitSig (G := G) (chain c1) (bNumber blk) commitSigAndBitmap) in
                let c3 := setLog c2 (signInLog (fbftLog c2) blk commitSigAndBitmap) in
                '(_, c4, outs) ← commitBlock c3 blk1 (netMsg network);
                let '(c5, outs1) :=
                  if negb (IsLeader c4) || IsLastBlockInEpoch blk1
                  then (runConsensusTimer c4 true, if sendOk env then [Sent network] else [])
                  else (c4, [Queued network]) in
                let outs2 := if IsLeader c5 then if IsLastBlockInEpoch blk1 then [Propose true] else [CommitSigs commitSigAndBitmap] else [] in
                Some (runBootstrapTimer c5 false, outs ++ outs1 ++ outs2)
          end
      end
  end.

(** [preCommitAndPropose] up to its goroutine; its error is ignored. *)
Definition preCommitAndPropose (c : Consensus) (blk : Block) : step :=
  match GetConsensusLeaderPrivateKey c with
  | None => ret c
  | Some leaderPriKey =>
      match construct c COMMITTED [] [leaderPriKey] with
      | Panic => None
      | Err _ => ret c
      | Ok network =>
          let bareMinimumCommit := Payload (netMsg network) in
          let c1 := setLog c (AddVerifiedMessage (fbftLog c) (netMsg network)) in
          if negb (verifyLastCommitSig c1 bareMinimumCommit blk) then ret c1
          else Some (c1, [PreCommit blk bareMinimumCommit network])
      end
  end.
(** The goroutine. *)
Definition preCommitInsert (env : Env) (c : Consensus) (blk : Block) (payload : bytes) (network : NetworkMessage) : step :=
  let c1 := setLog c (signInLog (fbftLog c) blk payload) in
  match insertBlock (G := G) (chain c1) (SetCurrentCommitSig blk payload) (negb (IsBlockVerified (fbftLog c1) blk)) with
  | None => ret c1
  | Some ch => Some (runConsensusTimer (setChain c1 ch) true, (if sendOk env then [Sent network] else []) ++ [Propose false])
  end.

(** ** The next view and its leader ([view_change.go]) *)
Definition GetViewChangeDuraion (c : Consensus) : Z :=
  let diff := i64 (viewChangingID c - blockViewID c) in i64 (diff * diff * viewChangeDuration).
Definition fallbackNextViewID (c : Consensus) : Z * Z :=
  let diff := i64 (viewChangingID c + 1 - blockViewID c) in
  let diff := if diff <=? 0 then 1 else diff in
  (u64 (viewChangingID c + 1), i64 (diff * diff * viewChangeDuration)).
Definition getNextViewID (env : Env) (c : Consensus) : Z * Z :=
  match currentHeader (G := G) (chain c) with
  | None => fallbackNextViewID c
  | Some h =>
      if now env <=? hTime h then fallbackNextViewID c
      else (u64 (u64 (Z.quot (i64 (now env - hTime h)) viewChangeSlot + 1) + u64 (hViewID h + 1)), viewChangeDuration)
  end.
(** [None] is a panic. *)
Definition getNextLeaderKey (c : Consensus) (viewID : Z) : option Key :=
  '(lastLeader, gap, epoch) ←
    match currentHeader (G := G) (chain c) with
    | None => Some (LeaderPubKey c, if blockViewID c <? viewID then i64 (viewID - blockViewID c) else 1, 0)
    | Some h =>
        let stuckBlockViewID := u64 (hViewID h + 1) in
        last ← (if hIsLastBlockInEpoch h then FirstParticipant (tracker (decider c))
                else Some (default (LeaderPubKey c) (leaderFromCoinbase (chain c))));
        Some (last, i64 (viewID - stuckBlockViewID), hEpoch h)
    end;
  '(_, next) ← NthNextHmy (tracker (decider c)) (InstanceForEpoch epoch) lastLeader gap;
  Some next.

(** ** View-change votes on the wire ([view_change_msg.go]) *)

(** The prepared message that a vote carries with its encoded block; [None] for a nil vote. *)
Definition voteBlock (log : Log) (num : Z) : option (Msg * bytes) * Log :=
  match ownPrepared BlockVerifier orderMsgs log num with
  | (Some prepared, log1) =>
      (blk ← GetBlockByHash log1 (BlockHash prepared);
       match encodeBlock blk with None | Some [] => None | Some enc => Some (prepared, enc) end, log1)
  | (None, log1) => (None, log1)
  end.
Definition constructViewChangeMessage (c : Consensus) (key : PriKey) : ViewChangeVote * Consensus :=
  let '(vb, log) := voteBlock (fbftLog c) (blockNum c) in
  let '(msgToSign, payload, enc) :=
    match vb with
    | None => (NIL, [], [])
    | Some (prepared, enc) => let p := toBytes 32 (BlockHash prepared) ++ Payload prepared in (p, p, enc)
    end in
  (mkVote (viewChangingID c) (blockNum c) (Bytes (Pub key)) (Bytes (LeaderPubKey c)) payload enc
     (sigToBytes (SignHash (Pri key) msgToSign)) (sigToBytes (SignHash (Pri key) (le64 (viewChangingID c)))), setLog c log).
Definition ParseViewChangeMessage (w : ViewChangeVote) : option Msg :=
  pubKey ← keyOf (wSenderPubkey w);
  leaderKey ← keyOf (wLeaderPubkey w);
  vcSig ← sigOfBytes (wViewchangeSig w);
  vcSig1 ← sigOfBytes (wViewidSig w);
  Some (mkFBFTMessage VIEWCHANGE (wViewId w) (wBlockNum w) 0 (wPreparedBlock w) [mkPublicKeyWrapper (wSenderPubkey w) pubKey] []
    (Some (mkPublicKeyWrapper (wLeaderPubkey w) leaderKey)) (wPayload w) (Some vcSig) (Some vcSig1) None None None None false).

(** ** Starting a view change *)
Fixpoint sendVotes (env : Env) (c : Consensus) (keys : list PriKey) : Consensus * list output :=
  match keys with
  | [] => (c, [])
  | key :: rest =>
      if negb (IsValidatorInCommittee c (Bytes (Pub key))) then sendVotes env c rest
      else
        let '(w, c1) := constructViewChangeMessage c key in
        let '(c2, outs) := sendVotes env c1 rest in
        (c2, (if sendOk env then [SentVote w] else []) ++ outs)
  end.
Definition startViewChange (env : Env) (c : Consensus) : step :=
  if disableViewChange c then ret c
  else
    let c1 := SetMode (runBootstrapTimer (runConsensusTimer c false) false) ViewChanging in
    let '(nextViewID, _) := getNextViewID env c1 in
    let c2 := SetViewChangingID c1 nextViewID in
    leader ← getNextLeaderKey c2 nextViewID;
    let c3 := setLeader c2 leader in
    let '(vc1, log1) := InitPayload BlockVerifier orderMsgs (AddViewIDKeyIfNotExist (vc c3) nextViewID (members c3)) (fbftLog c3)
                          nextViewID (blockNum c3) (priKey c3) (members c3) in
    let '(c4, outs) := sendVotes env (setLog (setVC c3 vc1) log1) (priKey c3) in
    Some (runViewChangeTimer c4 true, outs).

(** ** Ending a view change *)

(** [selfCommit]: whether the error is nil.  The payload has at least 32 bytes or the call panics. *)
Definition selfCommit (c : Consensus) (payload : bytes) : option (bool * Consensus) :=
  if (length payload <? 32)%nat then None
  else
    let hash := bytesToHash (take 32 payload) in
    match GetBlockByHash (fbftLog c) hash with
    | None => Some (false, c)
    | Some blk =>
        match ReadSignatureBitmapPayload c payload 32 with
        | None => Some (false, c)
        | Some (aggSig, mask) =>
            let c1 := ResetState c in
            let c2 := setPrepare (switchPhase (setBlock c1 hash (block c1)) FBFTCommit) (Some aggSig) mask in
            '(_, cmask, d) ← voteOwn false Commit (commitPayloadOf c2 blk) blk hash (priKey c2) (commitBitmap c2) (decider c2);
            Some (true, setDecider (setCommit c2 (aggregatedCommitSig c2) cmask) d)
        end
    end.

(** [startNewView]: whether the error is nil. *)
Definition startNewView (env : Env) (c : Consensus) (viewID : Z) (newLeader : PriKey) (reset : bool) : bool * Consensus * list output :=
  if negb (IsViewChangingMode c) then (false, c, [])
  else match constructNewViewMessage (vc c) (fbftLog c) viewID (blockNum c) newLeader with
       | None => (false, c, [])
       | Some r =>
           if negb (sendOk env) then (false, c, [])
           else
             let c1 := runViewChangeTimer (SetMode c Normal) false in
             let c2 := runConsensusTimer (ResetViewChangeState (SetViewIDs c1 viewID)) true in
             let c3 := if reset then ResetState c2 else c2 in
             (true, setLeader c3 (Pub newLeader), [SentNewView r])
       end.

Definition onViewChangeSanityCheck (c : Consensus) (m : Msg) : bool :=
  negb (BlockNum m <? blockNum c) && negb (blockNum c <? BlockNum m)
  && negb (IsViewChangingMode c && (ViewID m <? blockViewID c))
  && negb ((viewChangingID c <? ViewID m) && (MaxViewIDDiff <? u64 (ViewID m - viewChangingID c)))
  && match SenderPubkeys m, ViewidSig m with
     | [sender], Some sig => VerifyHash sig (Object sender) (le64 (ViewID m))
     | _, _ => false
     end.
Definition onNewViewSanityCheck (c : Consensus) (m : Msg) : bool := negb (ViewID m <? blockViewID c).

(** The new leader has the votes of a quorum. *)
Definition enterNewView (env : Env) (c : Consensus) (viewID : Z) (newLeader : PriKey) : step :=
  if isM1PayloadEmpty (vc c) then
    let '(ok, c1, outs) := startNewView env c viewID newLeader true in Some (c1, outs ++ if ok then [Propose true] else [])
  else
    '(ok, c1) ← selfCommit c (m1Payload (vc c));
    if negb ok then ret c1 else let '(_, c2, outs) := startNewView env c1 viewID newLeader false in Some (c2, outs).

Definition onViewChange (env : Env) (c : Consensus) (m : Msg) : step :=
  newLeaderKey ← LeaderPubkey m;
  match GetLeaderPrivateKey c (Object newLeaderKey) with
  | None => ret c
  | Some newLeader =>
      if IsQuorumAchievedByMask (decider c) (GetViewIDBitmap (vc c) (ViewID m)) then ret c
      else if negb (onViewChangeSanityCheck c m) then ret c
      else
        let '(vc1, log1) := InitPayload BlockVerifier orderMsgs (AddViewIDKeyIfNotExist (vc c) (ViewID m) (members c)) (fbftLog c)
                              (ViewID m) (BlockNum m) (priKey c) (members c) in
        match ProcessViewChangeMsg BlockVerifier vc1 log1 (deciderOf (decider c)) m with
        | (Panic, _, _) => None
        | (Err _, vc2, log2) => ret (setLog (setVC c vc2) log2)
        | (Ok _, vc2, log2) =>
            let c1 := setLog (setVC c vc2) log2 in
            if IsQuorumAchievedByMask (decider c1) (GetViewIDBitmap (vc c1) (ViewID m)) && IsViewChangingMode c1
            then enterNewView env c1 (ViewID m) newLeader else ret c1
        end
  end.

(** The prepared certificate of a new-view message: taken over when not all votes were nil.  The
    first [None] is a panic, the second an error. *)
Definition newViewM1 (c : Consensus) (m : Msg) (sender : Key) (preparedBlock : option Block) : option (option Consensus) :=
  match M3Bitmap m with
  | None => None
  | Some m3Mask =>
      if match M2Bitmap m with None => true | Some m2Mask => CountOneBits (Bitmap m2Mask) <? CountOneBits (Bitmap m3Mask) end then
        if (length (Payload m) <? 32)%nat then None
        else match ReadSignatureBitmapPayload c (Payload m) 32 with
             | None => Some None
             | Some (aggSig, mask) =>
                 if negb (VerifyHash aggSig (AggregatePublic mask) (take 32 (Payload m))) then Some None
                 else
                   let c1 := setPrepare (setBlock c (bytesToHash (take 32 (Payload m))) (block c)) (Some aggSig) mask in
                   let log1 := AddVerifiedMessage (fbftLog c1) (preparedFrom (ViewID m) (BlockNum m) (Payload m) [sender]) in
                   Some (Some (setLog c1 (match preparedBlock with Some b => AddBlock log1 b | None => log1 end)))
             end
      else Some (Some c)
  end.

Definition onNewView (env : Env) (c : Consensus) (m : Msg) : step :=
  if negb (blockNum c =? BlockNum m) then ret c
  else match SenderPubkeys m with
       | [sender] =>
           if negb (onNewViewSanityCheck c m) then ret c
           else match VerifyNewViewMsg BlockVerifier (vc c) (fbftLog c) m with
                | (Panic, _, _) => None
                | (Err _, vc1, log1) => ret (setLog (setVC c vc1) log1)
                | (Ok preparedBlock, vc1, log1) =>
                    let c1 := setLog (setVC c vc1) log1 in
                    if negb (IsQuorumAchievedByMask (decider c1) (M3Bitmap m)) then ret c1
                    else
                      r ← newViewM1 c1 m sender preparedBlock;
                      match r with
                      | None => ret c1
                      | Some c2 =>
                          if negb (IsViewChangingMode c2) then ret c2
                          else
                            let c3 := ResetViewChangeState (setLeader (SetViewIDs (runViewChangeTimer c2 false) (ViewID m)) sender) in
                            match preparedBlock with
                            | Some b => outs ← sendCommitMessages env c3 b; Some (runConsensusTimer (switchPhase c3 FBFTCommit) true, outs)
                            | None => ret (runConsensusTimer (ResetState c3) true)
                            end
                      end
                end
       | _ => ret c
       end.

(** ** A validator's handlers ([validator.go]) *)
Definition isRightBlockNumCheck (c : Consensus) (m : Msg) : bool :=
  negb (BlockNum m <? blockNum c) && negb (MaxBlockNumDiff <? u64 (BlockNum m - blockNum c)).

(** [onAnnounceSanityChecks]; a second block announced by one leader for a view starts a view
    change. *)
Definition onAnnounceSanityChecks (env : Env) (c : Consensus) (m : Msg) : option (bool * Consensus * list output) :=
  match GetMessagesByTypeSeqView orderMsgs (fbftLog c) ANNOUNCE (BlockNum m) (ViewID m) with
  | [] => Some (isRightBlockNumCheck c m, c, [])
  | logMsg :: _ =>
      match SenderPubkeys logMsg, SenderPubkeys m with
      | [k1], [k2] =>
          if negb (BlockHash logMsg =? BlockHash m) && (Bytes k1 =? Bytes k2) && negb (IsViewChangingMode c) then
            '(c1, outs) ← startViewChange env c; Some (isRightBlockNumCheck c1 m, c1, outs)
          else Some (isRightBlockNumCheck c m, c, [])
      | _, _ => Some (false, c, [])
      end
  end.

Definition onAnnounce (env : Env) (c : Consensus) (m : Msg) : step :=
  '(ok, c1, outs) ← onAnnounceSanityChecks env c m;
  if negb ok then Some (c1, outs)
  else
    let c2 := setBlock (setLog c1 (AddVerifiedMessage (fbftLog c1) m)) (BlockHash m) (block c1) in
    if IsViewChangingMode c2 then Some (c2, outs)
    else
      let '(ok, c3) := checkViewID c2 m in
      if negb ok then Some (c3, outs) else '(c4, outs') ← prepare env c3; Some (c4, outs ++ outs').

Definition onPreparedSanityChecks (c : Consensus) (b : Block) (m : Msg) : bool :=
  (bNumber b =? BlockNum m) && negb (BlockNum m <? blockNum c) && (hashOf b =? BlockHash m).

(** The part of [onPrepared] after the message and its block were logged. *)
Definition acceptPrepared (env : Env) (c : Consensus) (m : Msg) (aggSig : Sg) (mask : Mask G) (b : Block) : step :=
  match VerifyBlock BlockVerifier (fbftLog c) b with
  | None => ret c
  | Some log =>
      let '(ok, c1) := checkViewID (setLog c log) m in
      if negb ok || (blockNum c1 <? BlockNum m) then ret c1
      else
        let c2 := setBlock (setPrepare c1 (Some aggSig) mask) (BlockHash m) (block c1) in
        '(c3, outs) ← (if bool_decide (mode c2 = Normal)
                       then outs ← sendCommitMessages env c2 b; Some (switchPhase c2 FBFTCommit, outs) else ret c2);
        Some (c3, outs ++ [ReprocessCommitted (bNumber b) (bViewID b) (hashOf b)])
  end.

Definition onPrepared (env : Env) (c0 : Consensus) (m : Msg) : step :=
  if BlockNum m <? blockNum c0 then ret c0
  else
    let c := if blockNum c0 <? BlockNum m then spinUpStateSync env c0 else c0 in
    match ReadSignatureBitmapPayload c (Payload m) 0 with
    | None => ret c
    | Some (aggSig, mask) =>
        if negb (IsQuorumAchievedByMask (decider c) (Some mask)) then ret c
        else if negb (VerifyHash aggSig (AggregatePublic mask) (toBytes 32 (BlockHash m))) then ret c
        else match decodeBlock (msgBlock m) with
             | None => ret c
             | Some b =>
                 if negb (onPreparedSanityChecks c b m) then ret c
                 else
                   let c1 := setBlock (setLog c (AddVerifiedMessage (AddBlock (fbftLog c) b) (dropBlock m))) (blockHash c) (msgBlock m) in
                   if negb (initialised c1) then ret c1 else acceptPrepared env c1 m aggSig mask b
             end
    end.

(** A commit signature that is on the chain already is replaced when the new one has more
    signers.  The mask read from the chain is written into the mask that [commitBitmap] points
    to. *)
Definition overrideCommitSig (c : Consensus) (b : Block) (m : Msg) (mask : Mask G) : option Consensus :=
  match readCommitSig (G := G) (chain c) (bNumber b) with
  | Some stored =>
      if (length stored =? length (Payload m))%nat && hasBlock (G := G) (chain c) (hashOf b) then
        new ← CountEnabled mask;
        let mask' := match SetMask mask (drop BLSSignatureSizeInBytes stored) with Ok x => x | _ => mask end in
        cur ← CountEnabled mask';
        let c1 := setCommit c (aggregatedCommitSig c) mask' in
        Some (if cur <? new then setChain c1 (writeCommitSig (G := G) (chain c1) (bNumber b) (Payload m)) else c1)
      else Some c
  | None => Some c
  end.

(** The part of [onCommitted] after the signature was verified. *)
Definition acceptCommitted (c : Consensus) (m : Msg) (b : Block) (aggSig : Sg) (mask : Mask G) : step :=
  c1 ← overrideCommitSig (setCommit (setLog c (AddVerifiedMessage (fbftLog c) m)) (Some aggSig) mask) b m mask;
  '(c2, outs) ← tryCatchup c1;
  Some (if blockNum c2 <? BlockNum m then c2
        else if IsViewChangingMode c2 then c2
        else
          let c3 := runBootstrapTimer c2 false in
          if blockNum c1 <? blockNum c3 then runConsensusTimer c3 true else c3, outs).

Definition onCommitted (env : Env) (c0 : Consensus) (m : Msg) : step :=
  if BlockNum m <? u64 (blockNum c0 - 1) then ret c0
  else
    let c := if blockNum c0 <? BlockNum m then spinUpStateSync env c0 else c0 in
    let c1 := setLog c (AddNotVerifiedMessage (fbftLog c) m) in
    match GetBlockByHash (fbftLog c1) (BlockHash m) with
    | None => ret c1
    | Some b =>
        match ParseCommitSigAndBitmap (Payload m) with
        | None => ret c1
        | Some (sigBytes, bitmap) =>
            if negb (verifyHeaderSignature (G := G) (chain c1) b sigBytes bitmap) then ret c1
            else match DecodeSigBitmap sigBytes bitmap (members c1) with
                 | None => ret c1
                 | Some (aggSig, mask) => acceptCommitted c1 m b aggSig mask
                 end
        end
    end.

(** ** The leader's handlers ([leader.go], [threshold.go]) *)
Definition announce (env : Env) (c : Consensus) (b : Block) : step :=
  match encodeBlock b with
  | None => ret c
  | Some encodedBlock =>
      let c1 := setBlock c (hashOf b) encodedBlock in
      match GetConsensusLeaderPrivateKey c1 with
      | None => ret c1
      | Some key =>
          match construct c1 ANNOUNCE [] [key] with
          | Panic => None
          | Err _ => ret c1
          | Ok network =>
              let c2 := setLog c1 (AddBlock (AddVerifiedMessage (fbftLog c1) (netMsg network)) b) in
              '(ok, mask, d) ← voteOwn true Prepare (toBytes 32 (blockHash c2)) b (hashOf b) (priKey c2) (prepareBitmap c2) (decider c2);
              let c3 := setDecider (setPrepare c2 (aggregatedPrepareSig c2) mask) d in
              if negb ok then ret c3
              else Some (switchPhase c3 FBFTPrepare, if sendOk env then [Sent network] else [])
          end
      end
  end.

(** [didReachPrepareQuorum]: whether the error is nil. *)
Definition didReachPrepareQuorum (env : Env) (c : Consensus) : option (bool * Consensus * list output) :=
  match GetConsensusLeaderPrivateKey c with
  | None => Some (false, c, [])
  | Some key =>
      match construct c PREPARED [] [key] with
      | Panic => None
      | Err _ => Some (false, c, [])
      | Ok network =>
          let c1 := setLog (setPrepare c (netAggSig network) (prepareBitmap c)) (AddVerifiedMessage (fbftLog c) (netMsg network)) in
          match decodeBlock (block c1) with
          | None => Some (false, c1, [])
          | Some b =>
              '(ok, mask, d) ← voteOwn true Commit (commitPayloadOf c1 b) b (hashOf b) (priKey c1) (commitBitmap c1) (decider c1);
              let c2 := setDecider (setCommit c1 (aggregatedCommitSig c1) mask) d in
              if negb ok then Some (false, c2, []) else Some (true, c2, if sendOk env then [Sent network] else [])
          end
      end
  end.

Definition isRightBlockNumAndViewID (c : Consensus) (m : Msg) : bool := (ViewID m =? blockViewID c) && (BlockNum m =? blockNum c).
Definition hasVoted (c : Consensus) (p : Phase) (m : Msg) : bool :=
  existsb (λ k, bool_decide (is_Some (ReadBallot (tracker (decider c)) p (Bytes k)))) (SenderPubkeys m).
(** The key under which a message of several senders is signed. *)
Definition signerPubKey (m : Msg) : G :=
  match SenderPubkeys m with [k] => Object k | keys => foldl (λ g k, keyAdd g (Object k)) keyZero keys end.

(** The vote of a message whose signature was verified; [None] is a panic, and the flag says
    whether both the vote and its bits were taken. *)
Definition takeVote (c : Consensus) (p : Phase) (m : Msg) (sign : Sg) (mask : Mask G) : option (bool * Mask G * D) :=
  '(d, r) ← AddNewVote (decider c) p (SenderPubkeys m) sign (BlockHash m) (BlockNum m) (ViewID m);
  match r with
  | inl _ => Some (false, mask, d)
  | inr _ => match SetKeysAtomic mask (SenderPubkeys m) true with
             | (mask', Ok _) => Some (true, mask', d)
             | (mask', Err _) => Some (false, mask', d)
             | (_, Panic) => None
             end
  end.

Definition onPrepare (env : Env) (c : Consensus) (m : Msg) : step :=
  if negb (isRightBlockNumAndViewID c m) then ret c
  else if hasVoted c Prepare m then ret c
  else if IsQuorumAchieved (decider c) Prepare then ret c
  else match sigOfBytes (Payload m) with
       | None => ret c
       | Some sign =>
           if negb (VerifyHash sign (signerPubKey m) (toBytes 32 (blockHash c))) then ret c
           else
             '(ok, mask, d) ← takeVote c Prepare m sign (prepareBitmap c);
             let c1 := setDecider (setPrepare c (aggregatedPrepareSig c) mask) d in
             if ok && IsQuorumAchieved d Prepare then
               '(ok', c2, outs) ← didReachPrepareQuorum env c1;
               Some (if (ok' : bool) then switchPhase c2 FBFTCommit else c2, outs)
             else ret c1
       end.

Definition onCommit (env : Env) (c : Consensus) (m : Msg) : step :=
  if negb (isRightBlockNumAndViewID c m) then ret c
  else if hasVoted c Commit m then ret c
  else
    let quorumWasMet := IsQuorumAchieved (decider c) Commit in
    match sigOfBytes (Payload m) with
    | None => ret c
    | Some sign =>
        match GetBlockByHash (fbftLog c) (BlockHash m) with
        | None => ret c
        | Some b =>
            if negb (VerifyHash sign (signerPubKey m) (commitPayloadOf c b)) then ret c
            else
              '(ok, mask, d) ← takeVote c Commit m sign (commitBitmap c);
              let c1 := setDecider (setCommit c (aggregatedCommitSig c) mask) d in
              if negb ok then ret c1
              else if IsAllSigsCollected d then finalCommit env c1
              else if negb quorumWasMet && IsQuorumAchieved d Commit then
                let c2 := setLog c1 (MarkBlockVerified (fbftLog c1) b) in
                '(c3, outs) ← (if negb (IsLastBlockInEpoch b) then preCommitAndPropose c2 b else ret c2);
                Some (c3, outs ++ [GracePeriod (blockViewID c1)])
              else ret c1
        end
    end.
(** The end of the grace period. *)
Definition graceEnds (env : Env) (c : Consensus) (viewID : Z) : step :=
  if viewID =? blockViewID c then finalCommit env c else ret c.

(** ** Dispatch ([HandleMessageUpdate]) *)
Inductive request :=
| RConsensus (typ : Z) (r : ConsensusRequest)
| RViewChange (w : ViewChangeVote)
| RNewView (r : ViewChangeRequest).
Definition typeOf (r : request) : Z := match r with RConsensus t _ => t | RViewChange _ => VIEWCHANGE | RNewView _ => NEWVIEW end.

(** [senderKeySanityChecks]: the signature of the whole message. *)
Context (messageSigOk : request → SerializedPublicKey → bool).

Inductive handleError := errSenderPubKeyNotLeader | errVerifyMessageSignature | errUnparseable.

Definition parseRequest (c : Consensus) (r : request) : option Msg :=
  match r with
  | RConsensus t r => ParseFBFTMessage c t r
  | RViewChange w => ParseViewChangeMessage w
  | RNewView r => ParseNewViewMessage keyOf r (members c)
  end.
Definition dispatch (env : Env) (c : Consensus) (t : Z) (m : Msg) : step :=
  if (t =? ANNOUNCE) && negb (IsLeader c) then onAnnounce env c m
  else if (t =? PREPARED) && negb (IsLeader c) then onPrepared env c m
  else if (t =? COMMITTED) && negb (IsLeader c) then onCommitted env c m
  else if (t =? PREPARE) && IsLeader c then onPrepare env c m
  else if (t =? COMMIT) && IsLeader c then onCommit env c m
  else if t =? VIEWCHANGE then onViewChange env c m
  else if t =? NEWVIEW then onNewView env c m
  else ret c.
Definition HandleMessageUpdate (env : Env) (c : Consensus) (r : request) (senderKey : SerializedPublicKey)
    : result handleError (Consensus * list output) :=
  let t := typeOf r in
  if IsViewChangingMode c && ((t =? PREPARE) || (t =? COMMIT)) then Ok (c, [])
  else if ((t =? ANNOUNCE) || (t =? PREPARED) || (t =? COMMITTED))
          && negb (senderKey =? Bytes (LeaderPubKey c)) && bool_decide (mode c = Normal) && negb (IgnoreViewIDCheck c)
  then Err errSenderPubKeyNotLeader
  else if negb (t =? PREPARE) && negb (t =? COMMIT) && negb (messageSigOk r senderKey) then Err errVerifyMessageSignature
  else match parseRequest c r with
       | None => Err errUnparseable
       | Some m => lift_panic (dispatch env c t m)
       end.
End consensus.

Arguments Consensus G Sg D C {BC}.
Arguments NetworkMessage : clear implicits.
Arguments output : clear implicits.
