(* ===== verification/Fbft.v ===== *)
(** * Safety and progress of the FBFT handlers

    Properties of the handlers of [Consensus.v]: what a validator checks before it signs a
    commit, that the messages of an honest leader pass those checks, and where a new-view
    message passes with less. *)

From Stdlib Require Import ZArith Lia.
From stdpp Require Import base gmap list option sets.
From S2P Require Import Prelude Decimal Mask ShardState Votepower Quorum FBFTLog ViewChange Decider Consensus.
Local Open Scope Z_scope.

(** ** What a validator signs *)
Section validator.
Context {G Sg D C : Type} `{EqG : EqDecision G, BK : BlsKey G, BS : BlsSign Sg, BC : !BlsCrypto G Sg, BL : BlockLib}.
Context `{DO : !DeciderOps D G Sg, DA : !DeciderAdmin D G, CO : !ChainOps C G}.
Context (BlockVerifier : Block → bool) (orderMsgs : gmap bytes (FBFTMessage G Sg) → list (FBFTMessage G Sg)).
Context (keyOf : SerializedPublicKey → option G) (InstanceForEpoch : Z → instance) (aggregateSig : bool).
Implicit Types (c : Consensus G Sg D C) (m : FBFTMessage G Sg) (b : Block).

(** A prepared message with a certificate: a block of the hash of the message with an aggregate
    signature on it, whose signers have a quorum of the committee of [c]. *)
Definition preparedCertified c m b : Prop :=
  decodeBlock (msgBlock m) = Some b ∧ hashOf b = BlockHash m ∧ bNumber b = BlockNum m ∧
  ∃ aggSig mask, ReadSignatureBitmapPayload c (Payload m) 0 = Some (aggSig, mask)
    ∧ IsQuorumAchievedByMask (decider c) (Some mask) = true
    ∧ VerifyHash aggSig (AggregatePublic mask) (toBytes 32 (BlockHash m)) = true.

Definition isCommit (o : output G Sg) : bool := match o with Sent n => netType n =? COMMIT | _ => false end.

Lemma construct_type c p h keys n : construct keyOf c p h keys = Ok n → netType n = p.
Proof. unfold construct. intros E. repeat case_match; try discriminate; by injection E as <-. Qed.

Lemma checkViewID_spec c m ok c' :
  checkViewID c m = (ok, c') →
  decider c' = decider c ∧ blockNum c' = blockNum c ∧ fbftLog c' = fbftLog c ∧ priKey c' = priKey c ∧ chain c' = chain c
  ∧ multiSigBitmap c' = multiSigBitmap c
  ∧ (ok = true → blockViewID c' = ViewID m ∧ (IgnoreViewIDCheck c = false → c' = c)).
Proof.
  unfold checkViewID. destruct (IgnoreViewIDCheck c).
  - destruct (SenderPubkeys m) as [|k [|k' l]]; intros [= <- <-]; done.
  - intros [= <- <-]. split_and!; try done. intros ->%Z.eqb_eq. done.
Qed.

Lemma commits_signed env c b outs n :
  sendCommitMessages keyOf aggregateSig env c b = Some outs → Sent n ∈ outs →
  mode c ≠ Listening ∧ ∃ keys, (∀ key, key ∈ keys → key ∈ getPriKeysInCommittee c) ∧ construct keyOf c COMMIT (commitPayloadOf c b) keys = Ok n.
Proof.
  unfold sendCommitMessages. intros (ms & Hms & [= <-])%bind_Some Hn. unfold broadcast in Hn.
  destruct (bool_decide (mode c = Listening)) eqn:Em; [by apply not_elem_of_nil in Hn|]. apply bool_decide_eq_false in Em. split; [done|].
  destruct (sendOk env); [|by apply not_elem_of_nil in Hn].
  assert (n ∈ ms) as Hin by (by apply list_elem_of_In, in_map_iff in Hn as (? & [= ->] & ?%list_elem_of_In)).
  unfold constructP2pMessages in Hms. destruct aggregateSig.
  - destruct (construct keyOf c COMMIT _ (getPriKeysInCommittee c)) as [n'| |] eqn:E; [|injection Hms as <-; by apply not_elem_of_nil in Hin|done].
    injection Hms as <-. apply list_elem_of_singleton in Hin as ->. eauto.
  - clear Hn. revert ms Hms Hin. induction (getPriKeysInCommittee c) as [|key keys IH]; intros ms Hms Hin; cbn [constructEach] in Hms.
    { injection Hms as <-. by apply not_elem_of_nil in Hin. }
    destruct (construct keyOf c COMMIT _ [key]) as [n'| |] eqn:E; [| |done].
    + apply bind_Some in Hms as (ms' & Hms & [= <-]). apply elem_of_cons in Hin as [->|Hin].
      * exists [key]. split; [|done]. intros k ->%list_elem_of_singleton. by left.
      * destruct (IH ms' Hms Hin) as (ks & Hks & Hc). exists ks. split; [|done]. intros k Hk. right. by apply Hks.
    + destruct (IH ms Hms Hin) as (ks & Hks & Hc). exists ks. split; [|done]. intros k Hk. right. by apply Hks.
Qed.

Lemma construct_commit c h keys n :
  construct keyOf c COMMIT h keys = Ok n →
  netType n = COMMIT ∧ rBlockHash (netRequest n) = toBytes 32 (blockHash c) ∧ rPayload (netRequest n) = sigToBytes (signAll keys h).
Proof.
  unfold construct. intros E. destruct keys as [|key [|key' keys]]; [done| |]; change (COMMIT =? ANNOUNCE) with false in E; change (COMMIT =? PREPARE) with false in E;
    change (COMMIT =? COMMIT) with true in E; cbv beta iota zeta in E; (case_match; [|done]); by injection E as <-.
Qed.

Lemma VerifyBlock_Some (log : FBFTLog G Sg) b log' : VerifyBlock BlockVerifier log b = Some log' → IsBlockVerified log b = true ∨ BlockVerifier b = true.
Proof. unfold VerifyBlock. destruct (IsBlockVerified log b); [by left|]. destruct (BlockVerifier b); [by right|done]. Qed.

Lemma onPrepared_sent env c m c' outs n :
  onPrepared BlockVerifier keyOf aggregateSig env c m = Some (c', outs) → Sent n ∈ outs →
  ∃ b keys, preparedCertified c m b ∧ (IsBlockVerified (fbftLog c) b = true ∨ BlockVerifier b = true)
    ∧ BlockNum m = blockNum c ∧ blockViewID c' = ViewID m ∧ mode c' = Normal ∧ phase c' = FBFTCommit ∧ blockHash c' = hashOf b
    ∧ (∀ key, key ∈ keys → key ∈ getPriKeysInCommittee c) ∧ netType n = COMMIT ∧ rBlockHash (netRequest n) = toBytes 32 (hashOf b)
    ∧ rPayload (netRequest n) = sigToBytes (signAll keys (commitPayloadOf c b)).
Proof.
  unfold onPrepared. intros E Hn. assert (∀ x, ret x = Some (c', outs) → False) as Hret.
  { intros x [= _ <-]. by apply not_elem_of_nil in Hn. }
  destruct (Z.ltb_spec (BlockNum m) (blockNum c)) as [|Hge]; [by apply Hret in E|]. set (c0 := if blockNum c <? BlockNum m then _ else c) in E.
  assert (decider c0 = decider c ∧ blockNum c0 = blockNum c ∧ fbftLog c0 = fbftLog c ∧ priKey c0 = priKey c ∧ chain c0 = chain c) as (Hd & Hbn & Hl & Hk & Hch).
  { unfold c0, spinUpStateSync. destruct (blockNum c <? BlockNum m), (syncAccepts env); done. }
  destruct (ReadSignatureBitmapPayload c0 (Payload m) 0) as [[aggSig mask]|] eqn:Er; [|by apply Hret in E].
  destruct (IsQuorumAchievedByMask (decider c0) (Some mask)) eqn:Eq; [|by apply Hret in E]. cbn [negb] in E.
  destruct (VerifyHash aggSig (AggregatePublic mask) _) eqn:Ev; [|by apply Hret in E]. cbn [negb] in E.
  destruct (decodeBlock (msgBlock m)) as [b|] eqn:Eb; [|by apply Hret in E].
  destruct (onPreparedSanityChecks c0 b m) eqn:Es; [|by apply Hret in E]. cbn [negb] in E.
  unfold onPreparedSanityChecks in Es. apply andb_true_iff in Es as [[Hnum _]%andb_true_iff Hhash]. apply Z.eqb_eq in Hnum, Hhash.
  match type of E with context [initialised ?x] => set (c1 := x) in E end.
  destruct (initialised c1); [|by apply Hret in E]. cbn [negb] in E. unfold acceptPrepared in E.
  destruct (VerifyBlock BlockVerifier (fbftLog c1) b) as [log|] eqn:Evb; [|by apply Hret in E].
  destruct (checkViewID (setLog c1 log) m) as [ok c2] eqn:Ec. apply checkViewID_spec in Ec as (Hd2 & Hb2 & _ & Hk2 & Hch2 & _ & Hok).
  destruct ok; [|by apply Hret in E]. destruct (Hok eq_refl) as [Hview _]. cbn [negb orb] in E.
  destruct (Z.ltb_spec (blockNum c2) (BlockNum m)) as [|Hle]; [by apply Hret in E|].
  match type of E with context [bool_decide (mode ?x = Normal)] => set (c3 := x) in E end.
  apply bind_Some in E as ([c4 outs1] & E4 & [= <- <-]). apply elem_of_app in Hn as [Hn|Hn]; [|by apply list_elem_of_singleton in Hn].
  case_bool_decide as Hmode; [|injection E4 as <- <-; by apply not_elem_of_nil in Hn].
  apply bind_Some in E4 as (outs2 & Hs & [= <- <-]). destruct (commits_signed _ _ _ _ _ Hs Hn) as (_ & keys & Hkeys & Hc).
  apply construct_commit in Hc as (Hty & Hbh & Hpay). unfold getPriKeysInCommittee, IsValidatorInCommittee, commitPayloadOf in *. cbn in *.
  rewrite Hd2, Hk2 in Hkeys. rewrite Hch2 in Hpay. cbn in Hkeys, Hpay. rewrite Hd, Hk in Hkeys. rewrite Hch in Hpay.
  exists b, keys. split_and!; try done; try congruence.
  - split_and!; try done. exists aggSig, mask. unfold ReadSignatureBitmapPayload, members in *. rewrite Hd in Er, Eq. done.
  - rewrite <-Hl. by destruct (VerifyBlock_Some _ _ _ Evb) as [Hv|Hv]; [left|right].
  - rewrite Hb2 in Hle. cbn in Hle. lia.
Qed.

End validator.

(** ** Certificates and masks *)
Section certificates.
Context {G Sg : Type} `{BK : BlsKey G, BS : BlsSign Sg, BC : !BlsCrypto G Sg, KL : !BlsKeyLaws G}.
Implicit Types (mask : Mask G) (ms : list (PublicKeyWrapper G)).

(** The members whose bit is set. *)
Definition enabledKeys mask : gset SerializedPublicKey :=
  list_to_set (List.filter (λ k, match KeyEnabled mask k with Ok true => true | _ => false end) (Bytes <$> Publics mask)).

(** A mask over the committee. *)
Definition maskOf ms mask : Prop := maskInv mask ∧ Publics mask = ms ∧ PublicsIndex mask = indexFrom 0 ms ∅.

Lemma maskOf_new ms : maskOf ms (newMask ms).
Proof. split; [apply emptyMask_inv|done]. Qed.

Lemma marks_maskOf ms mask X : marks ms mask X → maskOf ms mask.
Proof. by intros (? & ? & ? & _). Qed.

Lemma enabledKeys_marks ms mask :
  NoDup (Bytes <$> ms) → maskOf ms mask → marks ms mask (enabledKeys mask) ∧ enabledKeys mask ⊆ list_to_set (Bytes <$> ms).
Proof.
  intros Hnd (HI & Hp & Hx). assert (∀ j key, ms !! j = Some key → KeyEnabled mask (Bytes key) = Ok (bitAt (Bitmap mask) j)) as Hen.
  { intros j key Hj. unfold KeyEnabled. rewrite Hx, (indexFrom_member 0 ms ∅ j) by done. rewrite Nat.add_0_l.
    apply IndexEnabled_bitAt; [done|]. rewrite Hp. by eapply lookup_lt_Some. }
  assert (∀ k, k ∈ enabledKeys mask ↔ k ∈ Bytes <$> ms ∧ KeyEnabled mask k = Ok true) as Hk.
  { intros k. unfold enabledKeys. rewrite elem_of_list_to_set, list_elem_of_In, filter_In, <-list_elem_of_In, Hp.
    destruct (KeyEnabled mask k) as [[]| |]; naive_solver. }
  split; [|intros k [? _]%Hk; by apply elem_of_list_to_set]. split_and!; [done|done|done|]. intros j key Hj.
  destruct (bitAt (Bitmap mask) j) eqn:Eb; symmetry.
  - apply bool_decide_eq_true, Hk. split; [apply list_elem_of_fmap_2; by eapply list_elem_of_lookup_2|]. by rewrite (Hen j key Hj), Eb.
  - apply bool_decide_eq_false. intros [_ E]%Hk. rewrite (Hen j key Hj), Eb in E. done.
Qed.

Lemma DecodeSigBitmap_mask sig bm ms agg mask : DecodeSigBitmap sig bm ms = Some (agg, mask) → maskOf ms mask.
Proof.
  unfold DecodeSigBitmap. intros (s & _ & [= _ <-])%bind_Some. destruct (SetMask (newMask ms) bm) as [m'| |] eqn:E; [|apply maskOf_new|apply maskOf_new].
  assert (length bm = Len ms) as Hlen.
  { unfold SetMask in E. cbn in E. destruct (Nat.eqb_spec (Len ms) (length bm)); [done|discriminate E]. }
  destruct (SetMask_spec (newMask ms) bm) as (m'' & E' & HI & Hp & Hx & _); [apply emptyMask_inv|done|]. rewrite E in E'. injection E' as <-. done.
Qed.
End certificates.

(** ** Conflicting commits *)
Lemma setPower_voters_only r X : setPower r X = setPower r (X ∩ dom (Voters r)).
Proof.
  rewrite (setPower_diff r X (X ∩ dom (Voters r))) by set_solver. enough (setPower r (X ∖ (X ∩ dom (Voters r))) = 0) by lia.
  apply sumZ_zero. intros k [Hk Hn]%elem_of_elements%elem_of_difference. unfold shareOf.
  assert (Voters r !! k = None) as -> by (apply not_elem_of_dom; set_solver). done.
Qed.

Lemma power_intersection r X Y :
  nonnegRoster r → map_sum (λ _ v, OverallPercent v) (Voters r) = OneDec → twoThird < setPower r X → twoThird < setPower r Y →
  OneDec < 3 * setPower r (X ∩ Y).
Proof.
  intros Hnn Hone H1 H2. rewrite <-setPower_voters in Hone.
  assert (setPower r (X ∪ Y) ≤ setPower r (dom (Voters r))) as Hle by (rewrite setPower_voters_only; apply setPower_mono; [done|set_solver]).
  rewrite (setPower_diff r (X ∪ Y) X) in Hle by set_solver. rewrite (setPower_diff r Y (X ∩ Y)) in H2 by set_solver.
  replace ((X ∪ Y) ∖ X) with (Y ∖ (X ∩ Y)) in Hle by set_solver.
  rewrite twoThird_val in *. unfold OneDec in *. rewrite precisionReuse_val in *. lia.
Qed.

Section conflict.
Context {G Sg C : Type} `{EqG : EqDecision G, BK : BlsKey G, BS : BlsSign Sg, BC : !BlsCrypto G Sg, KL : !BlsKeyLaws G, BL : BlockLib}.
Notation D := (stakedVoteWeight G Sg).
Context `{DA : !DeciderAdmin D G, CO : !ChainOps C G}.
Context (BlockVerifier : Block → bool) (keyOf : SerializedPublicKey → option G) (aggregateSig : bool).
Implicit Types (c : Consensus G Sg D C) (m : FBFTMessage G Sg).

(** The voters that a prepared message names. *)
Definition preparedSigners c m : gset SerializedPublicKey :=
  match ReadSignatureBitmapPayload c (Payload m) 0 with Some (_, mask) => enabledKeys mask | None => ∅ end.

Lemma certified_power c m b :
  NoDup (Bytes <$> members c) → preparedCertified c m b → twoThird < setPower (roster (decider c)) (preparedSigners c m).
Proof.
  intros Hnd (_ & _ & _ & agg & mask & Er & Hq & _). unfold preparedSigners. rewrite Er. unfold ReadSignatureBitmapPayload in Er.
  destruct (length (Payload m) <? _)%nat; [done|]. apply bind_Some in Er as ([sig bm] & _ & Hd). apply DecodeSigBitmap_mask in Hd.
  destruct (enabledKeys_marks _ _ Hnd Hd) as [Hm Hsub]. cbn [IsQuorumAchievedByMask stakedDecider] in Hq. unfold stakedIsQuorumAchievedByMask in Hq.
  destruct (computeTotalPowerByMask (decider c) mask) as [d|] eqn:Ed; [|done]. cbn [mbind option_bind default] in Hq.
  apply (computeTotalPowerByMask_inv _ (members c) _ (enabledKeys mask)) in Ed; [|done|done|done].
  rewrite GT_spec in Hq. apply bool_decide_eq_true in Hq. by rewrite <-Ed.
Qed.

End conflict.

(** ** New-view messages *)
Section newview.
Context {G Sg D C : Type} `{EqG : EqDecision G, BK : BlsKey G, BS : BlsSign Sg, BC : !BlsCrypto G Sg, BL : BlockLib}.
Context `{DO : !DeciderOps D G Sg, DA : !DeciderAdmin D G, CO : !ChainOps C G}.
Context (BlockVerifier : Block → bool) (keyOf : SerializedPublicKey → option G) (aggregateSig : bool).
Implicit Types (c : Consensus G Sg D C) (m : FBFTMessage G Sg) (b : Block) (key : PrivateKeyWrapper G Sg).

(** The library reads the keys of the node back. *)
Definition ownKeysParse c : Prop := ∀ key, key ∈ priKey c → keyOf (Bytes (Pub key)) = Some (Object (Pub key)).

Lemma construct_single c p h key :
  keyOf (Bytes (Pub key)) = Some (Object (Pub key)) →
  ∃ n, construct keyOf c p h [key] = Ok n ∧ netType n = p ∧ SenderPubkeys (netMsg n) = [Pub key] ∧ Payload (netMsg n) = rPayload (netRequest n).
Proof.
  intros Hk. unfold construct. match goal with |- context [let '(blk, payload) := ?x in _] => destruct x as [blk payload] end.
  unfold ParseFBFTMessage. cbn [rSenderPubkey]. rewrite Hk. cbn [mbind option_bind]. eexists. split; [reflexivity|]. cbn. split_and!; [done| |done].
  by destruct (Pub key).
Qed.

Lemma constructEach_all c p h keys :
  (∀ key, key ∈ keys → keyOf (Bytes (Pub key)) = Some (Object (Pub key))) →
  ∃ ms, constructEach keyOf c p h keys = Some ms ∧ ∀ key, key ∈ keys → ∃ n, n ∈ ms ∧ construct keyOf c p h [key] = Ok n.
Proof.
  induction keys as [|key keys IH]; intros Hk; cbn [constructEach]; [exists []; split; [done|]; by intros ? ?%not_elem_of_nil|].
  destruct (construct_single c p h key (Hk key ltac:(by left))) as (n & E & _). rewrite E.
  destruct IH as (ms & -> & Hms); [intros k ?; apply Hk; by right|]. cbn [mbind option_bind]. exists (n :: ms). split; [done|].
  intros k [->|Hin]%elem_of_cons; [exists n; split; [by left|exact E]|]. destruct (Hms k Hin) as (n' & ? & Hc). exists n'. split; [by right|exact Hc].
Qed.

(** With one message per key, every key of the committee sends its commit. *)
Lemma sendCommit_each env c b :
  aggregateSig = false → ownKeysParse c → mode c ≠ Listening → sendOk env = true →
  ∃ outs, sendCommitMessages keyOf aggregateSig env c b = Some outs
    ∧ ∀ key, key ∈ getPriKeysInCommittee c → ∃ n, Sent n ∈ outs ∧ netType n = COMMIT
        ∧ rPayload (netRequest n) = sigToBytes (signAll [key] (commitPayloadOf c b)).
Proof.
  intros -> Hown Hmode Hsend. unfold sendCommitMessages, constructP2pMessages.
  destruct (constructEach_all c COMMIT (commitPayloadOf c b) (getPriKeysInCommittee c)) as (ms & -> & Hms).
  { intros key Hkey. apply Hown. unfold getPriKeysInCommittee in Hkey. by apply list_elem_of_In, filter_In in Hkey as [?%list_elem_of_In _]. }
  cbn [mbind option_bind]. eexists. split; [reflexivity|]. intros key (n & Hn & Hc)%Hms. exists n.
  unfold broadcast. rewrite bool_decide_false, Hsend by done. apply construct_commit in Hc as (? & _ & ?). split_and!; [|done|done].
  by apply list_elem_of_In, in_map, list_elem_of_In.
Qed.

(** C37: In a view change a validator takes over the block of a new-view message without a quorum
    certificate: it sends commits for that block with all its keys when every vote that the new
    leader shows is nil, whatever certificate the message carries, or when the certificate is a
    valid aggregate of signers that have no quorum. *)
Theorem newView_commits_uncertified env c m sender b vc1 log1 (m2 m3 : Mask G) :
  aggregateSig = false → ownKeysParse c → sendOk env = true → mode c = ViewChanging →
  blockNum c = BlockNum m → SenderPubkeys m = [sender] → blockViewID c ≤ ViewID m →
  VerifyNewViewMsg BlockVerifier (vc c) (fbftLog c) m = (Ok (Some b), vc1, log1) →
  M3Bitmap m = Some m3 → IsQuorumAchievedByMask (decider c) (Some m3) = true →
  M2Bitmap m = Some m2 →
  (CountOneBits (Bitmap m2) = CountOneBits (Bitmap m3)
   ∨ ∃ agg mask, ReadSignatureBitmapPayload c (Payload m) 32 = Some (agg, mask)
       ∧ IsQuorumAchievedByMask (decider c) (Some mask) = false ∧ VerifyHash agg (AggregatePublic mask) (take 32 (Payload m)) = true) →
  ∃ c' outs, onNewView BlockVerifier keyOf aggregateSig env c m = Some (c', outs) ∧ phase c' = FBFTCommit ∧ mode c' = Normal
    ∧ ∀ key, key ∈ getPriKeysInCommittee c → IsValidatorInCommittee c' (Bytes (Pub key)) = true →
        ∃ n, Sent n ∈ outs ∧ netType n = COMMIT ∧ rPayload (netRequest n) = sigToBytes (signAll [key] (commitPayloadOf c b)).
Proof.
  intros Hagg Hown Hsend Hmode Hnum Hsender Hview Hvn Hm3 Hq Hm2 Hcert. unfold onNewView.
  assert (negb (blockNum c =? BlockNum m) = false) as -> by (rewrite Hnum, Z.eqb_refl; reflexivity). rewrite Hsender.
  assert (negb (onNewViewSanityCheck c m) = false) as -> by (unfold onNewViewSanityCheck; destruct (Z.ltb_spec (ViewID m) (blockViewID c)); [lia|reflexivity]).
  rewrite Hvn. set (c1 := setLog (setVC c vc1) log1). rewrite Hm3. change (decider c1) with (decider c). rewrite Hq. cbn [negb].
  assert (∃ c2, newViewM1 c1 m sender (Some b) = Some (Some c2) ∧ mode c2 = ViewChanging ∧ priKey c2 = priKey c ∧ chain c2 = chain c
    ∧ decider c2 = decider c) as (c2 & Hc2 & Hmode2 & Hpri2 & Hch2 & Hd2).
  { unfold newViewM1. rewrite Hm3, Hm2. destruct (Z.ltb_spec (CountOneBits (Bitmap m2)) (CountOneBits (Bitmap m3))) as [Hlt|_]; [|by exists c1].
    destruct Hcert as [Heq|(agg & mask & Hr & _ & Hv)]; [lia|].
    assert ((length (Payload m) <? 32)%nat = false) as ->.
    { unfold ReadSignatureBitmapPayload in Hr. destruct (Nat.ltb_spec (length (Payload m)) (32 + BLSSignatureSizeInBytes)); [discriminate Hr|].
      apply Nat.ltb_ge. lia. }
    change (ReadSignatureBitmapPayload c1 (Payload m) 32) with (ReadSignatureBitmapPayload c (Payload m) 32). rewrite Hr, Hv. cbn [negb]. by eexists. }
  rewrite Hc2. cbn [mbind option_bind]. unfold IsViewChangingMode. rewrite Hmode2, bool_decide_true by reflexivity. cbn [negb].
  set (c3 := ResetViewChangeState _). destruct (sendCommit_each env c3 b Hagg) as (outs & Ho & Hn).
  { intros key Hkey. apply Hown. change (priKey c3) with (priKey c2) in Hkey. by rewrite Hpri2 in Hkey. }
  { discriminate. }
  { exact Hsend. }
  rewrite Ho. cbn [mbind option_bind]. eexists _, outs. split; [reflexivity|]. split; [reflexivity|]. split; [reflexivity|].
  intros key Hkey Hin. destruct (Hn key) as (n & Hs & Ht & Hp).
  - unfold getPriKeysInCommittee in Hkey |- *. apply list_elem_of_In, filter_In in Hkey as [Hk _]. apply list_elem_of_In, filter_In.
    split; [change (priKey c3) with (priKey c2); by rewrite Hpri2|exact Hin].
  - exists n. split; [exact Hs|]. split; [exact Ht|]. rewrite Hp. unfold commitPayloadOf. change (chain c3) with (chain c2). by rewrite Hch2.
Qed.

(** A new-view message without nil votes and with a payload of less than 32 bytes, whose view
    signatures are those of a quorum, makes every validator that handles it panic: the payload is
    sliced before its length is looked at. *)
Theorem newView_short_payload_panics env c m sender (m3 : Mask G) (sig3 : Sg) :
  blockNum c = BlockNum m → SenderPubkeys m = [sender] → blockViewID c ≤ ViewID m →
  M3AggSig m = Some sig3 → M3Bitmap m = Some m3 → VerifyHash sig3 (AggregatePublic m3) (le64 (ViewID m)) = true →
  IsQuorumAchievedByMask (decider c) (Some m3) = true →
  M2AggSig m = None → M2Bitmap m = None → (length (Payload m) < 32)%nat →
  onNewView BlockVerifier keyOf aggregateSig env c m = None.
Proof.
  intros Hnum Hsender Hview Hs3 Hm3 Hv3 Hq Hs2 Hm2 Hlen. unfold onNewView.
  assert (negb (blockNum c =? BlockNum m) = false) as -> by (rewrite Hnum, Z.eqb_refl; reflexivity). rewrite Hsender.
  assert (negb (onNewViewSanityCheck c m) = false) as -> by (unfold onNewViewSanityCheck; destruct (Z.ltb_spec (ViewID m) (blockViewID c)); [lia|reflexivity]).
  assert (isM1 m = false) as Hm1.
  { unfold isM1. destruct (Nat.leb_spec ValidPayloadLength (length (Payload m))) as [Hle|]; [|reflexivity]. unfold ValidPayloadLength in Hle. lia. }
  unfold VerifyNewViewMsg. rewrite Hs3, Hm3, Hsender, Hv3, Hs2, Hm1. cbn [negb]. set (c1 := setLog _ _). change (decider c1) with (decider c). rewrite Hq. cbn [negb].
  unfold newViewM1. rewrite Hm3, Hm2. assert ((length (Payload m) <? 32)%nat = true) as -> by (by apply Nat.ltb_lt). reflexivity.
Qed.
End newview.

(** ** What a validator sends *)
Section sends.
Context {G Sg D C : Type} `{EqG : EqDecision G, BK : BlsKey G, BS : BlsSign Sg, BC : !BlsCrypto G Sg, BL : BlockLib, KL : !BlsKeyLaws G}.
Context `{DO : !DeciderOps D G Sg, DA : !DeciderAdmin D G, CO : !ChainOps C G}.
Context (BlockVerifier : Block → bool) (keyOf : SerializedPublicKey → option G) (aggregateSig : bool).
Implicit Types (c : Consensus G Sg D C) (m : FBFTMessage G Sg) (b : Block) (keys : list (PrivateKeyWrapper G Sg)).

(** The commits for a payload: with [aggregateSig] one message with the sum of the signatures of
    all keys, without it one message per key. *)
Definition commitsSent keys (payload : bytes) (outs : list (output G Sg)) : Prop :=
  if aggregateSig then keys ≠ [] → ∃ n, Sent n ∈ outs ∧ netType n = COMMIT ∧ rPayload (netRequest n) = sigToBytes (signAll keys payload)
  else ∀ key, key ∈ keys → ∃ n, Sent n ∈ outs ∧ netType n = COMMIT ∧ rPayload (netRequest n) = sigToBytes (signAll [key] payload).

Lemma commitsSent_app keys payload outs outs' : commitsSent keys payload outs → commitsSent keys payload (outs ++ outs').
Proof.
  unfold commitsSent. destruct aggregateSig; intros H; [intros Hne; destruct (H Hne) as (n & ? & ?)|intros key Hk; destruct (H key Hk) as (n & ? & ?)];
    exists n; (split; [apply elem_of_app; by left|done]).
Qed.

Lemma senders_length (ms : list (PublicKeyWrapper G)) keys :
  length (Bitmap (foldl (λ mask key, match SetKey mask (Bytes (Pub key)) true with Ok mask' => mask' | _ => mask end) (newMask ms) keys)) = Len ms.
Proof.
  assert (∀ mask, maskInv mask → Publics mask = ms →
    length (Bitmap (foldl (λ mask key, match SetKey mask (Bytes (Pub key)) true with Ok mask' => mask' | _ => mask end) mask keys)) = Len ms) as H;
    [|apply H; [apply emptyMask_inv|done]].
  induction keys as [|key keys IH]; intros mask HI Hp; cbn [foldl]; [by rewrite (inv_len _ HI), Hp|].
  destruct (SetKey mask (Bytes (Pub key)) true) as [mask'| |] eqn:E; [|by apply IH..]. unfold SetKey in E. destruct (PublicsIndex mask !! _) as [i|] eqn:Ei; [|done].
  destruct (inv_index _ HI _ _ Ei) as (Hi & k & Hk & _). apply lookup_lt_Some in Hk.
  destruct (SetBit_spec mask i true HI ltac:(lia)) as (mask'' & E' & HI' & Hp' & _). rewrite E in E'. injection E' as <-. apply IH; [done|congruence].
Qed.

Lemma GetSigned_total bm ms i : (i + length ms ≤ 8 * length bm)%nat → is_Some (GetSigned_loop (G:=G) bm i ms).
Proof.
  revert i. induction ms as [|k ms IH]; intros i Hi; cbn [GetSigned_loop]; [done|]. cbn in Hi. rewrite readBit_Some by lia. cbn [mbind option_bind].
  destruct (IH (S i)) as [l ->]; [lia|]. cbn [mbind option_bind]. by eexists.
Qed.

(** The message of several keys is read back. *)
Lemma construct_many c h keys :
  Publics (multiSigBitmap c) = members c → (∀ key, key ∈ keys → keyOf (Bytes (Pub key)) = Some (Object (Pub key))) → keys ≠ [] →
  ∃ n, construct keyOf c COMMIT h keys = Ok n.
Proof.
  intros Hp Hk Hne. destruct keys as [|key [|key' keys]]; [done|destruct (construct_single keyOf c COMMIT h key (Hk key ltac:(by left))) as (n & ? & _); eauto|].
  unfold construct. match goal with |- context [let '(blk, payload) := ?x in _] => destruct x as [blk payload] end.
  unfold ParseFBFTMessage. cbn [rSenderPubkey rSenderPubkeyBitmap]. unfold GetSignedPubKeysFromBitmap, sendersBitmap. rewrite senders_length, Hp, Nat.eqb_refl. cbn [negb].
  match goal with |- context [GetSigned_loop ?bm 0 ?ms] => destruct (GetSigned_total bm ms 0) as [l ->] end; [rewrite senders_length; pose proof (Len_bound (members c)); cbn; destruct (members c) as [|x l]; [cbn; lia|]; specialize (H (length l)); cbn in H |- *; lia|].
  cbn [lift_panic mbind option_bind]. by eexists.
Qed.

Lemma sendCommit_all env c b :
  ownKeysParse keyOf c → Publics (multiSigBitmap c) = members c → mode c ≠ Listening → sendOk env = true →
  ∃ outs, sendCommitMessages keyOf aggregateSig env c b = Some outs ∧ commitsSent (getPriKeysInCommittee c) (commitPayloadOf c b) outs.
Proof.
  intros Hown Hp Hmode Hsend. unfold commitsSent. destruct aggregateSig eqn:Ea; [|by apply sendCommit_each].
  unfold sendCommitMessages, constructP2pMessages. destruct (getPriKeysInCommittee c) as [|key keys] eqn:Ek.
  - cbn. eexists. split; [reflexivity|done].
  - destruct (construct_many c (commitPayloadOf c b) (key :: keys) Hp) as [n En]; [|done|].
    { intros k Hk. apply Hown. rewrite <-Ek in Hk. unfold getPriKeysInCommittee in Hk. by apply list_elem_of_In, filter_In in Hk as [?%list_elem_of_In _]. }
    rewrite En. cbn [mbind option_bind]. eexists. split; [reflexivity|]. intros _. exists n. unfold broadcast. rewrite bool_decide_false, Hsend by done.
    apply construct_commit in En as (? & _ & ?). split_and!; [by left|done|done].
Qed.

(** A prepared message with a certificate for a block that verifies is answered with commits. *)
Lemma onPrepared_accepts env c m b :
  preparedCertified c m b → BlockNum m = blockNum c → ViewID m = blockViewID c → mode c = Normal → IgnoreViewIDCheck c = false →
  initialised c = true → BlockVerifier b = true → ownKeysParse keyOf c → Publics (multiSigBitmap c) = members c → sendOk env = true →
  ∃ c' outs, onPrepared BlockVerifier keyOf aggregateSig env c m = Some (c', outs) ∧ phase c' = FBFTCommit ∧ blockHash c' = hashOf b
    ∧ commitsSent (getPriKeysInCommittee c) (commitPayloadOf c b) outs.
Proof.
  intros (Hdec & Hhash & Hnum & agg & mask & Hr & Hq & Hv) Hbn Hview Hmode Hign Hinit Hver Hkeys Hpub Hsend. unfold onPrepared.
  rewrite Hbn, Z.ltb_irrefl, Hr, Hq, Hv, Hdec. cbn [negb].
  assert (negb (onPreparedSanityChecks c b m) = false) as ->.
  { unfold onPreparedSanityChecks. rewrite Hnum, Hhash, Hbn, Z.ltb_irrefl, !Z.eqb_refl. reflexivity. }
  set (c1 := setBlock _ _ _). change (initialised c1) with (initialised c). rewrite Hinit. cbn [negb]. unfold acceptPrepared.
  assert (∃ log, VerifyBlock BlockVerifier (fbftLog c1) b = Some log) as [log ->].
  { unfold VerifyBlock. rewrite Hver. destruct (IsBlockVerified (fbftLog c1) b); by eexists. }
  assert (checkViewID (setLog c1 log) m = (true, setLog c1 log)) as ->.
  { unfold checkViewID. change (IgnoreViewIDCheck (setLog c1 log)) with (IgnoreViewIDCheck c). rewrite Hign, Hview. cbn. by rewrite Z.eqb_refl. }
  cbn [negb orb]. change (blockNum (setLog c1 log)) with (blockNum c). rewrite Hbn, Z.ltb_irrefl.
  set (c2 := setBlock (setPrepare _ _ _) _ _). change (mode c2) with (mode c). rewrite Hmode, bool_decide_true by reflexivity.
  destruct (sendCommit_all env c2 b Hkeys Hpub) as (outs & Ho & Hn); [change (mode c2) with (mode c); by rewrite Hmode|exact Hsend|].
  rewrite Ho. cbn [mbind option_bind]. eexists _, _. split; [reflexivity|]. split; [reflexivity|]. split; [exact (eq_sym Hhash)|].
  apply commitsSent_app. exact Hn.
Qed.
End sends.

(** ** The leader's votes *)
Section leader.
Context {G Sg D C : Type} `{EqG : EqDecision G, BK : BlsKey G, BS : BlsSign Sg, BC : !BlsCrypto G Sg, BL : BlockLib}.
Context `{DO : !DeciderOps D G Sg, DA : !DeciderAdmin D G, CO : !ChainOps C G}.
Context `{KL : !BlsKeyLaws G, SL : !BlsSignLaws Sg, CL : !BlsCryptoLaws G Sg, DL : !DeciderLaws D G Sg, LL : !BlockLaws}.
Context (BlockVerifier : Block → bool) (keyOf : SerializedPublicKey → option G) (aggregateSig : bool).
Implicit Types (c : Consensus G Sg D C) (m : FBFTMessage G Sg) (b : Block) (key : PrivateKeyWrapper G Sg) (mask : Mask G) (d : D).
Implicit Types (ms keys : list (PublicKeyWrapper G)) (X : gset SerializedPublicKey).

Lemma SetKey_add ms mask X (k : PublicKeyWrapper G) :
  NoDup (Bytes <$> ms) → marks ms mask X → k ∈ ms → Bytes k ∉ X →
  ∃ mask', SetKey mask (Bytes k) true = Ok mask' ∧ marks ms mask' ({[Bytes k]} ∪ X)
    ∧ AggregatePublic mask' = keyAdd (AggregatePublic mask) (Object k).
Proof.
  intros Hnd Hm Hk HX. destruct (SetKey_marks ms Hnd mask X (Bytes k) Hm) as (mask' & E & Hm'); [by apply list_elem_of_fmap_2|].
  exists mask'. split; [done|]. split; [done|]. destruct Hm as (HI & Hp & Hx & Hb). apply list_elem_of_lookup_1 in Hk as [j Hj].
  unfold SetKey in E. rewrite Hx, (indexFrom_member 0 ms ∅ j k Hnd Hj) in E. rewrite Nat.add_0_l in E. unfold SetBit in E.
  destruct (Z.of_nat (length (Publics mask)) <=? Z.of_nat j); [discriminate E|].
  destruct (applyBit mask (Z.of_nat j) true) as [m'|] eqn:Ea; [|discriminate E]. injection E as <-.
  unfold applyBit in Ea. rewrite Nat2Z.id, Hp, Hj in Ea. cbn [mbind option_bind] in Ea.
  rewrite readBit_Some in Ea by (apply (bm_bound _ _ HI); rewrite Hp; by eapply lookup_lt_Some).
  rewrite (Hb j k Hj), bool_decide_false in Ea by done. cbn [mbind option_bind negb andb] in Ea.
  destruct (flipBit (Bitmap mask) (Z.of_nat j)) as [bm|]; [|discriminate Ea]. cbn [mbind option_bind Bitmap] in Ea.
  destruct (readBit bm (Z.of_nat j)) as [cur|]; [|discriminate Ea]. cbn [mbind option_bind] in Ea. rewrite andb_false_r in Ea. by injection Ea as <-.
Qed.

(** The sum of the keys of a vote, from a given point. *)
Definition addKeys (g : G) keys : G := foldl (λ g k, keyAdd g (Object k)) g keys.

Lemma addKeys_split g keys : addKeys g keys = keyAdd g (addKeys keyZero keys).
Proof.
  unfold addKeys. assert (∀ g, foldl (λ g k, keyAdd g (Object k)) g keys = keyAdd g (foldr (λ k g, keyAdd (Object k) g) keyZero keys)) as Hf.
  { clear g. induction keys as [|k keys IH]; intros g; simpl; [by rewrite keyAdd_comm, keyAdd_zero|]. by rewrite IH, keyAdd_assoc. }
  by rewrite (Hf g), (Hf keyZero), keyAdd_zero.
Qed.

Lemma SetKeysAtomic_add ms mask X keys :
  NoDup (Bytes <$> ms) → marks ms mask X → (∀ k, k ∈ keys → k ∈ ms ∧ Bytes k ∉ X) → NoDup (Bytes <$> keys) →
  ∃ mask', SetKeysAtomic mask keys true = (mask', Ok tt) ∧ marks ms mask' (list_to_set (Bytes <$> keys) ∪ X)
    ∧ AggregatePublic mask' = addKeys (AggregatePublic mask) keys.
Proof.
  intros Hnd Hm Hk Hkd. unfold SetKeysAtomic.
  assert (∃ idxs, mapM (λ k, PublicsIndex mask !! Bytes k) keys = Some idxs ∧
    Forall2 (λ i k, indexFrom 0 ms ∅ !! Bytes k = Some i) idxs keys) as (idxs & -> & Hidx).
  { destruct Hm as (_ & _ & Hx & _). rewrite Hx. clear Hkd. induction keys as [|k keys IH]; [by exists []|].
    destruct IH as (idxs & E & HF); [intros; apply Hk; by right|]. destruct (Hk k ltac:(by left)) as [[j Hj]%list_elem_of_lookup_1 _].
    exists (Z.of_nat (0 + j) :: idxs). pose proof (indexFrom_member 0 ms ∅ j k Hnd Hj) as Hi. cbn [mapM]. rewrite Hi, E. by repeat constructor. }
  revert idxs mask X Hidx Hm Hk. induction keys as [|k keys IH]; intros idxs mask X Hidx Hm Hk.
  { apply Forall2_nil_inv_r in Hidx as ->. exists mask. split; [done|]. split; [|done]. by rewrite fmap_nil, list_to_set_nil, union_empty_l_L. }
  apply Forall2_cons_inv_r in Hidx as (i & idxs' & Hi & Hidx & ->). rewrite fmap_cons, NoDup_cons in Hkd. destruct Hkd as [Hkn Hkd].
  destruct (Hk k ltac:(by left)) as [Hkm HkX]. destruct (SetKey_add ms mask X k Hnd Hm Hkm HkX) as (mask1 & E1 & Hm1 & Ha1).
  unfold SetKey in E1. destruct Hm as (_ & _ & Hx & _). rewrite Hx, Hi in E1. cbn [SetBits_loop]. rewrite E1.
  destruct (IH Hkd idxs' mask1 ({[Bytes k]} ∪ X) Hidx Hm1) as (mask' & E & Hm' & Ha).
  { intros k' Hk'. destruct (Hk k' ltac:(by right)) as [? ?]. split; [done|]. intros [Heq%elem_of_singleton|?]%elem_of_union; [|done].
    apply Hkn. rewrite <-Heq. by apply list_elem_of_fmap_2. }
  exists mask'. split; [done|]. split; [|by rewrite Ha, Ha1]. replace (list_to_set (Bytes <$> k :: keys) ∪ X) with (list_to_set (C := gset SerializedPublicKey) (Bytes <$> keys) ∪ ({[Bytes k]} ∪ X))
    by (rewrite fmap_cons, list_to_set_cons; set_solver). done.
Qed.

(** The votes of a phase: the mask marks exactly the signers, all of them members, and the sum
    of the ballots' signatures verifies on [h] under the key that the mask aggregates. *)
Record votesOk d mask (p : Phase) (h : bytes) : Prop := {
  vo_box : ∃ B, Quorum.boxInv (boxOf (tracker d) p) B
    ∧ VerifyHash (AggregateSig (map (λ bl, DeserializeSig (Signature bl)) B)) (AggregatePublic mask) h = true;
  vo_marks : marks (Participants (tracker d)) mask (signers (tracker d) p);
  vo_members : signers (tracker d) p ⊆ list_to_set (Bytes <$> Participants (tracker d));
}.

Lemma votesOk_aggregate d mask p h : votesOk d mask p h → VerifyHash (AggregateVotes (tracker d) p) (AggregatePublic mask) h = true.
Proof. intros [(B & HB & Hv) _ _]. by rewrite (AggregateVotes_box _ _ _ HB). Qed.

Lemma AggregateSig_snoc (sigs : list Sg) s : AggregateSig (sigs ++ [s]) = sigAdd (AggregateSig sigs) s.
Proof. unfold AggregateSig. by rewrite foldl_app. Qed.

Lemma submitVote_signers (s : cIdentities G Sg) p ks sig h n v s' bl q :
  submitVote s p ks sig h n v = (s', inr bl) → signers s' q = if decide (q = p) then list_to_set ks ∪ signers s q else signers s q.
Proof.
  intros (_ & _ & _ & _ & Hr)%submitVote_ok. apply set_eq. intros k. unfold signers. rewrite elem_of_dom. fold (ReadBallot s' q k). rewrite Hr.
  destruct (decide (q = p)) as [->|Hne].
  - rewrite elem_of_union, elem_of_list_to_set, elem_of_dom. fold (ReadBallot s p k).
    destruct (decide (k ∈ ks)); [rewrite decide_True by done|rewrite decide_False by tauto]; naive_solver.
  - rewrite decide_False by tauto. by rewrite elem_of_dom.
Qed.

(** A vote of another phase. *)
Lemma votesOk_other d d' mask p q h keys sig hash n v bl :
  submitVote (tracker d) p (map Bytes keys) sig hash n v = (tracker d', inr bl) → q ≠ p → votesOk d mask q h → votesOk d' mask q h.
Proof.
  intros Hs Hne [(B & HB & Hv) Hm Hin]. pose proof (submitVote_signers _ _ _ _ _ _ _ _ _ q Hs) as Hsig. rewrite decide_False in Hsig by done.
  destruct (submitVote_ok _ _ _ _ _ _ _ _ _ Hs) as (_ & _ & _ & Hpk & Hr).
  assert (boxOf (tracker d') q = boxOf (tracker d) q) as Hbox.
  { apply map_eq. intros k. fold (ReadBallot (tracker d') q k). rewrite Hr, decide_False by tauto. done. }
  split; [by rewrite Hbox; eauto|rewrite Hsig; unfold Participants; rewrite Hpk; exact Hm|rewrite Hsig; unfold Participants; rewrite Hpk; exact Hin].
Qed.

(** An accepted vote with a valid signature keeps the votes of its phase. *)
Lemma votesOk_add d d' mask p h keys sig hash n v bl :
  NoDup (Bytes <$> Participants (tracker d)) → votesOk d mask p h → (∀ k, k ∈ keys → k ∈ Participants (tracker d)) →
  submitVote (tracker d) p (map Bytes keys) sig hash n v = (tracker d', inr bl) →
  VerifyHash sig (addKeys keyZero keys) h = true →
  ∃ mask', SetKeysAtomic mask keys true = (mask', Ok tt) ∧ votesOk d' mask' p h.
Proof.
  intros Hnd [(B & HB & Hv) Hm Hin] Hk Hs Hsig. pose proof (submitVote_signers _ _ _ _ _ _ _ _ _ p Hs) as Hsg. rewrite decide_True in Hsg by done.
  destruct (submitVote_ok _ _ _ _ _ _ _ _ _ Hs) as (Hb & Hkd & Hnone & Hpk & Hr).
  destruct (SetKeysAtomic_add _ mask _ keys Hnd Hm) as (mask' & E & Hm' & Ha).
  { intros k Hkk. split; [by apply Hk|]. unfold signers. intros [bl' Hbl]%elem_of_dom. unfold ReadBallot in Hnone.
    rewrite Hnone in Hbl; [done|]. apply list_elem_of_In, in_map. by apply list_elem_of_In. }
  { exact Hkd. }
  exists mask'. split; [done|]. split.
  - destruct keys as [|k keys].
    + exists B. cbn in Ha. rewrite Ha. split; [|done].
      assert (boxOf (tracker d') p = boxOf (tracker d) p) as ->; [|done].
      apply map_eq. intros k. fold (ReadBallot (tracker d') p k). rewrite Hr, decide_False; [done|]. intros [_ Hx]. by apply not_elem_of_nil in Hx.
    + exists (B ++ [bl]). split.
      * pose proof (submitVote_box p p _ _ _ _ _ _ _ _ B Hs ltac:(done) HB) as HB'. by rewrite decide_True in HB'.
      * rewrite map_app. cbn [map]. rewrite AggregateSig_snoc, Ha, addKeys_split. apply verify_add; [done|].
        rewrite Hb. cbn [Signature]. by rewrite Deserialize_Serialize.
  - rewrite Hsg. unfold Participants. rewrite Hpk. exact Hm'.
  - rewrite Hsg. unfold Participants. rewrite Hpk. intros k [Hx|Hx]%elem_of_union; [|by apply Hin]. apply elem_of_list_to_set in Hx. apply elem_of_list_to_set.
    apply list_elem_of_In, in_map_iff in Hx as (k' & <- & Hk'%list_elem_of_In). apply list_elem_of_fmap_2. by apply Hk.
Qed.

(** The keys of the node: a key of the committee is the committee's, and they sign. *)
Definition ownKeysOk (own : list (PrivateKeyWrapper G Sg)) ms : Prop :=
  ∀ key, key ∈ own → (Bytes (Pub key) ∈ Bytes <$> ms → Pub key ∈ ms) ∧ ∀ h, VerifyHash (SignHash (Pri key) h) (Object (Pub key)) h = true.

(** What an operation on the decider keeps. *)
Definition sameDecider d d' : Prop :=
  deciderOk d' ∧ publicKeys (tracker d') = publicKeys (tracker d) ∧ ∀ mk, IsQuorumAchievedByMask d' mk = IsQuorumAchievedByMask d mk.

Lemma sameDecider_refl d : deciderOk d → sameDecider d d.
Proof. done. Qed.
Lemma sameDecider_trans d1 d2 d3 : sameDecider d1 d2 → sameDecider d2 d3 → sameDecider d1 d3.
Proof. intros (_ & H1 & H2) (H3 & H4 & H5). split_and!; [done|congruence|]. intros mk. by rewrite H5. Qed.

Lemma AddNewVote_same d p keys sig hash n v d' r : deciderOk d → AddNewVote d p keys sig hash n v = Some (d', r) → sameDecider d d'.
Proof.
  intros Hok E. destruct (AddNewVote_law _ _ _ _ _ _ _ _ _ Hok E) as (Hok' & Hq & Hr). split_and!; [done| |done].
  destruct r as [e|bl]; [by rewrite Hr|]. by apply submitVote_ok in Hr as (_ & _ & _ & Hpk & _).
Qed.

Lemma SetKeysAtomic_single mask (k : PublicKeyWrapper G) mask' : SetKey mask (Bytes k) true = Ok mask' → SetKeysAtomic mask [k] true = (mask', Ok tt).
Proof. unfold SetKey, SetKeysAtomic. cbn [mapM]. destruct (PublicsIndex mask !! Bytes k) as [i|]; [|done]. cbn. by intros ->. Qed.

Lemma voteOwn_ok stop p h b hash own mask d ok mask' d' :
  deciderOk d → NoDup (Bytes <$> Participants (tracker d)) → ownKeysOk own (Participants (tracker d)) →
  voteOwn stop p h b hash own mask d = Some (ok, mask', d') →
  sameDecider d d' ∧ (∀ q mask2 h2, q ≠ p → votesOk d mask2 q h2 → votesOk d' mask2 q h2)
  ∧ (stop = true → ok = true → votesOk d mask p h → votesOk d' mask' p h).
Proof.
  revert mask d. induction own as [|key own IH]; intros mask d Hok Hnd Hown E; cbn [voteOwn] in E.
  { injection E as <- <- <-. split; [by apply sameDecider_refl|by split]. }
  assert (ownKeysOk own (Participants (tracker d))) as Hown' by (intros k ?; apply Hown; by right).
  destruct (SetKey mask (Bytes (Pub key)) true) as [mask1| |] eqn:Ek; [|by apply IH|done].
  apply bind_Some in E as ([d1 r] & Ea & E). pose proof (AddNewVote_same _ _ _ _ _ _ _ _ _ Hok Ea) as Hsame.
  destruct (AddNewVote_law _ _ _ _ _ _ _ _ _ Hok Ea) as (Hok1 & _ & Hr).
  assert (NoDup (Bytes <$> Participants (tracker d1)) ∧ ownKeysOk own (Participants (tracker d1))) as [Hnd1 Hown1].
  { destruct Hsame as (_ & Hpk & _). unfold Participants in *. by rewrite Hpk. }
  destruct r as [e|bl].
  - subst d1. destruct stop; [injection E as <- <- <-; split; [by apply sameDecider_refl|by split]|]. destruct (IH _ _ Hok Hnd Hown' E) as (H1 & H2 & _). by split_and!.
  - destruct (IH _ _ Hok1 Hnd1 Hown1 E) as (H1 & H2 & H3). split_and!; [by eapply sameDecider_trans| |].
    + intros q mask2 h2 Hne Hv. apply H2; [done|]. by eapply votesOk_other.
    + intros Hst Ht Hv. apply H3; [done|done|]. destruct (Hown key ltac:(by left)) as [Hmem Hsign].
      assert (Pub key ∈ Participants (tracker d)) as Hin.
      { apply Hmem. destruct (decide (Bytes (Pub key) ∈ Bytes <$> Participants (tracker d))) as [|Hn]; [done|].
        by rewrite (SetKey_foreign _ _ _ _ (vo_marks _ _ _ _ Hv) Hn) in Ek. }
      edestruct (votesOk_add d d1 mask p h [Pub key]) as (mask'' & E'' & Hv'');
        [exact Hnd|exact Hv|intros k ->%list_elem_of_singleton; exact Hin|exact Hr|cbn; rewrite keyAdd_zero; apply Hsign|].
      rewrite (SetKeysAtomic_single _ _ _ Ek) in E''. injection E'' as <-. exact Hv''.
Qed.

(** ** A round of the prepare phase *)

(** A node before it announces a block: what [ResetState] leaves. *)
Record fresh c : Prop := {
  fr_ok : deciderOk (decider c);
  fr_nodup : NoDup (Bytes <$> members c);
  fr_own : ownKeysOk (priKey c) (members c);
  fr_prepare : boxOf (tracker (decider c)) Prepare = ∅ ∧ marks (members c) (prepareBitmap c) ∅ ∧ AggregatePublic (prepareBitmap c) = keyZero;
  fr_commit : boxOf (tracker (decider c)) Commit = ∅ ∧ marks (members c) (commitBitmap c) ∅ ∧ AggregatePublic (commitBitmap c) = keyZero;
  fr_phase : phase c = FBFTAnnounce;
}.

Lemma Clear_marks ms mask : NoDup (Bytes <$> ms) → maskOf ms mask → marks ms (Clear mask) ∅.
Proof.
  intros Hnd (HI & Hp & Hx). assert (Clear mask = newMask ms) as ->; [|exact (marks_new (Sg := Sg) ms Hnd)]. unfold Clear, newMask, emptyMask. by rewrite Hp, Hx.
Qed.

Lemma ResetState_fresh c :
  deciderOk (decider c) → NoDup (Bytes <$> members c) → ownKeysOk (priKey c) (members c) →
  maskOf (members c) (prepareBitmap c) → maskOf (members c) (commitBitmap c) → fresh (ResetState c).
Proof.
  intros Hok Hnd Hown Hp Hc. destruct (Reset_law _ Hok) as (Hok' & Ht & _). cbn in Ht.
  assert (members (ResetState c) = members c) as Hm by (unfold members, Participants; cbn; by rewrite Ht).
  split; [done|by rewrite Hm|by rewrite Hm| | |done]; rewrite Hm; (split_and!; [cbn; by rewrite Ht|by apply Clear_marks|done]).
Qed.

Lemma votesOk_empty d mask p h :
  boxOf (tracker d) p = ∅ → marks (Participants (tracker d)) mask ∅ → AggregatePublic mask = keyZero → votesOk d mask p h.
Proof.
  intros He Hm Ha. assert (signers (tracker d) p = ∅) as Hs by (unfold signers; rewrite He; apply dom_empty_L). split.
  - exists []. rewrite He, Ha. split; [apply ballots_empty|apply verify_zero].
  - by rewrite Hs.
  - rewrite Hs. set_solver.
Qed.

Record roundInv b c : Prop := {
  ri_ok : deciderOk (decider c);
  ri_nodup : NoDup (Bytes <$> members c);
  ri_own : ownKeysOk (priKey c) (members c);
  ri_votes : votesOk (decider c) (prepareBitmap c) Prepare (toBytes 32 (blockHash c));
  ri_hash : blockHash c = hashOf b;
  ri_block : encodeBlock b = Some (block c);
}.

(** What the handlers of a round leave as it is. *)
Definition sameNode c c' : Prop :=
  sameDecider (decider c) (decider c') ∧ priKey c' = priKey c ∧ blockNum c' = blockNum c ∧ blockViewID c' = blockViewID c ∧ chain c' = chain c.

Lemma sameNode_members c c' : sameNode c c' → members c' = members c.
Proof. intros [(_ & H & _) _]. unfold members, Participants. exact H. Qed.

Lemma announce_inv env c b c' outs :
  fresh c → announce keyOf env c b = Some (c', outs) → phase c' = FBFTPrepare → roundInv b c' ∧ sameNode c c'.
Proof.
  intros [Hok Hnd Hown (He & Hm & Ha) _ Hph] E Hph'. unfold announce in E.
  assert (∀ x, phase x = phase c → ret x = Some (c', outs) → False) as Hret by (intros x Hx [= -> _]; congruence).
  destruct (encodeBlock b) as [enc|] eqn:Ee; [|by apply Hret in E].
  destruct (GetConsensusLeaderPrivateKey _) as [key|]; [|by apply Hret in E].
  destruct (construct keyOf _ ANNOUNCE [] [key]) as [net| |]; [|by apply Hret in E|done].
  apply bind_Some in E as ([[ok mask] d] & Ev & E). cbn [priKey prepareBitmap decider setLog setBlock blockHash] in Ev.
  destruct ok; [|by apply Hret in E]. injection E as <- _.
  destruct (voteOwn_ok _ _ _ _ _ _ _ _ _ _ _ Hok Hnd Hown Ev) as (Hsame & _ & Hv).
  assert (sameNode c (switchPhase (setDecider (setPrepare (setLog (setBlock c (hashOf b) enc)
    (AddBlock (AddVerifiedMessage (fbftLog c) (netMsg net)) b)) (aggregatedPrepareSig c) mask) d) FBFTPrepare)) as Hs by done.
  split; [|exact Hs]. split; cbn [decider priKey prepareBitmap blockHash block switchPhase setDecider setPrepare setLog setBlock]; try done.
  - apply Hsame.
  - by rewrite (sameNode_members _ _ Hs).
  - by rewrite (sameNode_members _ _ Hs).
  - apply Hv; [done|done|]. by apply votesOk_empty.
Qed.

Lemma roundInv_vote b c p hash sig n v keys bl d mask :
  roundInv b c → submitVote (tracker (decider c)) p (map Bytes keys) sig hash n v = (tracker d, inr bl) → sameDecider (decider c) d →
  (∀ k, k ∈ keys → k ∈ members c) → (p = Prepare → VerifyHash sig (addKeys keyZero keys) (toBytes 32 (blockHash c)) = true) →
  (p = Prepare → SetKeysAtomic (prepareBitmap c) keys true = (mask, Ok tt)) → (p ≠ Prepare → mask = prepareBitmap c) →
  roundInv b (setDecider (setPrepare c (aggregatedPrepareSig c) mask) d).
Proof.
  intros [Hok Hnd Hown Hv Hh Hb] Hs Hsame Hk Hsig Hp Hnp.
  assert (members (setDecider (setPrepare c (aggregatedPrepareSig c) mask) d) = members c) as Hm by (apply sameNode_members; done).
  split; [apply Hsame|by rewrite Hm|by rewrite Hm| |done|done]. cbn [decider prepareBitmap blockHash setDecider setPrepare].
  destruct (decide (p = Prepare)) as [->|Hne].
  - destruct (votesOk_add _ _ _ _ _ _ _ _ _ _ _ Hnd Hv Hk Hs (Hsig eq_refl)) as (mask' & E & Hv'). rewrite (Hp eq_refl) in E. by injection E as <-.
  - rewrite (Hnp Hne). by eapply votesOk_other.
Qed.

Lemma signerPubKey_sum m : SenderPubkeys m ≠ [] → signerPubKey m = addKeys keyZero (SenderPubkeys m).
Proof. unfold signerPubKey. destruct (SenderPubkeys m) as [|k [|k' ks]]; [done| |done]. intros _. cbn. by rewrite keyAdd_zero. Qed.

Lemma didReachPrepareQuorum_inv env b c ok c' outs :
  roundInv b c → didReachPrepareQuorum keyOf env c = Some (ok, c', outs) →
  roundInv b c' ∧ sameNode c c' ∧ ∀ n, Sent n ∈ outs → ∃ key, key ∈ priKey c ∧ construct keyOf c PREPARED [] [key] = Ok n.
Proof.
  intros [Hok Hnd Hown Hv Hh Hb] E. unfold didReachPrepareQuorum in E.
  assert (sameNode c c) as Hrefl by (split; [by apply sameDecider_refl|done]).
  assert (roundInv b c) as HI by done.
  destruct (GetConsensusLeaderPrivateKey c) as [key|] eqn:Ek.
  2:{ injection E as <- <- <-. split_and!; [done|done|]. by intros n ?%not_elem_of_nil. }
  assert (key ∈ priKey c) as Hkey by (unfold GetConsensusLeaderPrivateKey, GetLeaderPrivateKey in Ek; apply find_some in Ek as [? _]; by apply list_elem_of_In).
  destruct (construct keyOf c PREPARED [] [key]) as [net| |] eqn:Ec; [| |done].
  2:{ injection E as <- <- <-. split_and!; [done|done|]. by intros n ?%not_elem_of_nil. }
  match type of E with context [decodeBlock (block ?x)] => set (c1 := x) in E end.
  assert (roundInv b c1 ∧ sameNode c c1) as [HI1 Hs1] by (split; [by split|done]).
  destruct (decodeBlock (block c1)) as [b'|].
  2:{ injection E as <- <- <-. split_and!; [done|done|]. by intros n ?%not_elem_of_nil. }
  apply bind_Some in E as ([[ok' mask] d] & Evo & E).
  destruct (voteOwn_ok _ _ _ _ _ _ _ _ _ _ _ Hok Hnd Hown Evo) as (Hsame & Hother & _).
  set (c2 := setDecider (setCommit c1 (aggregatedCommitSig c1) mask) d) in E.
  assert (sameNode c c2) as Hs2 by done. assert (members c2 = members c) as Hm2 by (by apply sameNode_members).
  assert (roundInv b c2) as HI2.
  { split; [apply Hsame|by rewrite Hm2|by rewrite Hm2| |done|done]. by apply Hother. }
  destruct ok'; injection E as <- <- <-; (split_and!; [done|done|]); [|by intros n ?%not_elem_of_nil].
  intros n Hn. destruct (sendOk env); [|by apply not_elem_of_nil in Hn]. apply list_elem_of_singleton in Hn as [= ->]. by exists key.
Qed.

(** A prepare message of members of the committee keeps the round; the prepared message that it
    may lead to is made in a state of the round with a quorum. *)
Lemma onPrepare_inv env b c m c' outs :
  roundInv b c → (∀ k, k ∈ SenderPubkeys m → k ∈ members c) → SenderPubkeys m ≠ [] → onPrepare keyOf env c m = Some (c', outs) →
  roundInv b c' ∧ sameNode c c' ∧ ∀ n, Sent n ∈ outs →
    ∃ c1 key, roundInv b c1 ∧ sameNode c c1 ∧ IsQuorumAchieved (decider c1) Prepare = true ∧ key ∈ priKey c1 ∧ construct keyOf c1 PREPARED [] [key] = Ok n.
Proof.
  intros HI Hk Hne E. unfold onPrepare in E.
  assert (sameNode c c) as Hrefl by (split; [apply sameDecider_refl, HI|done]).
  assert (∀ x, roundInv b x → sameNode c x → ret x = Some (c', outs) → roundInv b c' ∧ sameNode c c' ∧ ∀ n, Sent n ∈ outs → ∃ c1 key, roundInv b c1 ∧ sameNode c c1
    ∧ IsQuorumAchieved (decider c1) Prepare = true ∧ key ∈ priKey c1 ∧ construct keyOf c1 PREPARED [] [key] = Ok n) as Hret.
  { intros x Hx Hsx [= -> <-]. split_and!; [done|done|]. by intros n ?%not_elem_of_nil. }
  destruct (isRightBlockNumAndViewID c m); [|by apply (Hret c)]. cbn [negb] in E. destruct (hasVoted c Prepare m); [by apply (Hret c)|].
  destruct (IsQuorumAchieved (decider c) Prepare); [by apply (Hret c)|]. destruct (sigOfBytes (Payload m)) as [sign|]; [|by apply (Hret c)].
  destruct (VerifyHash sign (signerPubKey m) _) eqn:Ev; [|by apply (Hret c)]. cbn [negb] in E. rewrite signerPubKey_sum in Ev by done.
  apply bind_Some in E as ([[ok mask] d] & Et & E). unfold takeVote in Et. apply bind_Some in Et as ([d' r] & Ea & Et).
  pose proof (AddNewVote_same _ _ _ _ _ _ _ _ _ (ri_ok _ _ HI) Ea) as Hsame. destruct (AddNewVote_law _ _ _ _ _ _ _ _ _ (ri_ok _ _ HI) Ea) as (_ & _ & Hr).
  assert (roundInv b (setDecider (setPrepare c (aggregatedPrepareSig c) mask) d) ∧ sameNode c (setDecider (setPrepare c (aggregatedPrepareSig c) mask) d)) as [HI1 Hs1].
  { destruct r as [e|bl].
    - injection Et as <- <- <-. subst d'. destruct HI as [? ? ? ? ? ?]. split; [by split|done].
    - destruct (votesOk_add _ _ _ _ _ _ _ _ _ _ _ (ri_nodup _ _ HI) (ri_votes _ _ HI) Hk Hr Ev) as (mask' & Es & _). rewrite Es in Et. injection Et as <- <- <-.
      split; [|done]. eapply roundInv_vote; [exact HI|exact Hr|exact Hsame|exact Hk|done|done|done]. }
  destruct (ok && IsQuorumAchieved d Prepare) eqn:Eq; [|by eapply Hret]. apply andb_true_iff in Eq as [_ Eq].
  apply bind_Some in E as ([[ok' c2] outs'] & Ed & E). destruct (didReachPrepareQuorum_inv _ _ _ _ _ _ HI1 Ed) as (HI2 & Hs2 & Hn).
  injection E as <- <-. assert (sameNode c c2) as Hs3.
  { destruct Hs1 as (Ha1 & Hb1 & Hc1 & Hd1 & He1), Hs2 as (Ha2 & Hb2 & Hc2 & Hd2 & He2). split_and!; [by eapply sameDecider_trans|congruence..]. }
  split; [destruct ok'; [by destruct HI2 as [? ? ? ? ? ?]; split|done]|]. split; [by destruct ok'|].
  intros n Hnn. destruct (Hn n Hnn) as (key & Hkey & Hc). exists (setDecider (setPrepare c (aggregatedPrepareSig c) mask) d), key. by split_and!.
Qed.

(** A mask is read back from its bitmap. *)
Lemma DecodeSigBitmap_marks ms mask X (s : Sg) :
  marks ms mask X → ∃ mask', DecodeSigBitmap (sigToBytes s) (Bitmap mask) ms = Some (s, mask') ∧ marks ms mask' X ∧ AggregatePublic mask' = AggregatePublic mask.
Proof.
  intros (HI & Hp & Hx & Hb). destruct (SetMask_spec (newMask ms) (Bitmap mask)) as (mask' & E & HI' & Hp' & Hx' & Hb');
    [apply emptyMask_inv|by rewrite (inv_len _ HI), Hp|].
  exists mask'. unfold DecodeSigBitmap. rewrite sigOf_sigTo, E. cbn [mbind option_bind]. split; [done|]. cbn [newMask emptyMask Publics PublicsIndex] in Hp', Hx', Hb'. split.
  - split_and!; [done|done|done|]. intros j key Hj. rewrite Hb' by (by eapply lookup_lt_Some). by apply Hb.
  - rewrite (inv_agg _ HI'), (inv_agg _ HI), Hp, Hp'. apply keySum_ext. intros j Hj. apply Hb'. lia.
Qed.

Lemma bytesToHash_range l : Forall isByte l → 0 ≤ bytesToHash l < 2 ^ (8 * Z.of_nat (length l)).
Proof.
  unfold bytesToHash. induction l as [|x l IH] using rev_ind; intros Hl; [done|]. apply Forall_app in Hl as [Hl Hx]. apply Forall_cons in Hx as [Hx _].
  rewrite foldl_app, length_app. cbn [foldl length]. unfold isByte in Hx. specialize (IH Hl). set (a := foldl _ 0 l) in *.
  replace (8 * Z.of_nat (length l + 1)) with (8 * Z.of_nat (length l) + 8) by lia. rewrite Z.pow_add_r by lia. change (2 ^ 8) with 256. nia.
Qed.

Lemma toBytes_isByte n v : Forall isByte (toBytes n v).
Proof.
  unfold toBytes. apply Forall_forall. intros x (i & <- & _)%list_elem_of_In%in_map_iff. unfold isByte. change 255 with (Z.ones 8).
  rewrite Z.land_ones by lia. by apply Z.mod_pos_bound.
Qed.

Lemma bytesToHash_toBytes h : 0 ≤ h < 2 ^ 256 → bytesToHash (copyTo 32 (toBytes 32 h)) = h.
Proof.
  intros Hh. unfold copyTo. rewrite toBytes_length, Nat.sub_diag, app_nil_r, firstn_all2 by (by rewrite toBytes_length).
  apply (toBytes_inj 32).
  - pose proof (bytesToHash_range _ (toBytes_isByte 32 h)) as Hr. by rewrite toBytes_length in Hr.
  - exact Hh.
  - pose proof (toBytes_bytesToHash _ (toBytes_isByte 32 h)) as Hr. by rewrite toBytes_length in Hr.
Qed.

Lemma construct_prepared c key n :
  construct keyOf c PREPARED [] [key] = Ok n →
  netRequest n = mkConsensusRequest (blockViewID c) (blockNum c) (toBytes 32 (blockHash c)) (block c)
    (sigToBytes (AggregateVotes (tracker (decider c)) Prepare) ++ Bitmap (prepareBitmap c)) (Some (Bytes (Pub key))) [].
Proof.
  unfold construct. intros E. change (PREPARED =? ANNOUNCE) with false in E. change (PREPARED =? PREPARE) with false in E.
  change (PREPARED =? COMMIT) with false in E. change (PREPARED =? PREPARED) with true in E. cbv beta iota zeta in E. case_match; [|done]. by injection E as <-.
Qed.

(** The prepare phase of a leader, from its announcement on. *)
Inductive leaderRound b : Consensus G Sg D C → Prop :=
| lr_announce env c0 c outs : fresh c0 → announce keyOf env c0 b = Some (c, outs) → phase c = FBFTPrepare → leaderRound b c
| lr_prepare env c m c' outs : leaderRound b c → (∀ k, k ∈ SenderPubkeys m → k ∈ members c) → SenderPubkeys m ≠ [] →
    onPrepare keyOf env c m = Some (c', outs) → leaderRound b c'.

Lemma leaderRound_inv b c : leaderRound b c → roundInv b c.
Proof. induction 1 as [env c0 c outs Hf E Hp|env c m c' outs _ IH Hk Hne E]; [by eapply announce_inv|by eapply onPrepare_inv]. Qed.

(** A validator of the leader's committee at its height and view that accepts the block. *)
Record readyValidator b c (v : Consensus G Sg D C) : Prop := {
  rv_members : members v = members c;
  rv_quorum : ∀ mk, IsQuorumAchievedByMask (decider v) mk = IsQuorumAchievedByMask (decider c) mk;
  rv_blockNum : blockNum v = blockNum c;
  rv_viewID : blockViewID v = blockViewID c;
  rv_number : bNumber b = blockNum c;
  rv_mode : mode v = Normal;
  rv_check : IgnoreViewIDCheck v = false;
  rv_init : initialised v = true;
  rv_verifies : ∀ b', hashOf b' = hashOf b → BlockVerifier b' = true;
  rv_keys : ownKeysParse keyOf v;
  rv_multi : Publics (multiSigBitmap v) = members v;
}.

(** C36: The prepared message of a leader makes a ready validator commit: in every state of the
    leader's round, when a prepare message completes the quorum and the leader sends the prepared
    message, then a validator of the committee at that height and view, in normal mode and with
    the view check on, whose verifier accepts the blocks of that hash and whose keys and sender
    mask are those of the committee, parses it, finds its aggregate signature valid under its
    bitmap with the quorum, and, when its network sends, sends the signatures of its committee
    keys on the commit payload of the block: one message with their sum when signatures are
    aggregated, one message per key when they are not. *)
Theorem prepared_accepted env b c m c' outs n env' v :
  leaderRound b c → (∀ k, k ∈ SenderPubkeys m → k ∈ members c) → SenderPubkeys m ≠ [] →
  onPrepare keyOf env c m = Some (c', outs) → Sent n ∈ outs →
  readyValidator b c v → 0 ≤ hashOf b < 2 ^ 256 → ownKeysParse keyOf c → sendOk env' = true →
  ∃ r v' outs', ParseFBFTMessage keyOf v PREPARED (netRequest n) = Some r
    ∧ onPrepared BlockVerifier keyOf aggregateSig env' v r = Some (v', outs')
    ∧ phase v' = FBFTCommit ∧ blockHash v' = hashOf b
    ∧ commitsSent aggregateSig (getPriKeysInCommittee v) (commitPayloadOf v b) outs'.
Proof.
  intros Hr Hk Hne E Hn Hv Hh Hkeys Hsend. apply leaderRound_inv in Hr.
  destruct (onPrepare_inv _ _ _ _ _ _ Hr Hk Hne E) as (_ & _ & Hs). destruct (Hs n Hn) as (c1 & key & HI1 & Hs1 & Hq & Hkey & Hc).
  apply construct_prepared in Hc. destruct Hs1 as ((_ & Hpk & Hbm) & Hpri & Hnum1 & Hview1 & _).
  destruct HI1 as [Hok Hnd Hown Hvotes Hhash Hblock]. destruct Hv as [Hvm Hvq Hvn Hvv Hnum Hmode Hcheck Hinit Hver Hvkeys Hmulti].
  assert (members v = members c1) as Hvm1 by (rewrite Hvm; unfold members, Participants; by rewrite Hpk).
  destruct (decodeBlock_encode b _ Hblock) as (b' & Hdec & Hb').
  assert (hashOf b' = hashOf b ∧ bNumber b' = bNumber b ∧ commitPayloadOf v b' = commitPayloadOf v b) as (Hh' & Hn' & Hp').
  { assert (hashOf b' = hashOf b) as Hx by (by rewrite <-(hashOf_commitSig b' []), Hb', hashOf_commitSig).
    destruct b', b. injection Hb' as -> -> -> -> ->. unfold commitPayloadOf. rewrite Hx. done. }
  (* the parsed message *)
  rewrite Hc. unfold ParseFBFTMessage. cbn [rSenderPubkey rViewId rBlockNum rBlockHash rBlock rSenderPubkeyBitmap rPayload].
  rewrite (Hkeys key) by (by rewrite <-Hpri). cbn [mbind option_bind]. rewrite Hhash, bytesToHash_toBytes by exact Hh.
  set (r := mkFBFTMessage _ _ _ _ _ _ _ _ _ _ _ _ _ _ _ _). eexists r.
  (* its certificate *)
  destruct (DecodeSigBitmap_marks _ _ _ (AggregateVotes (tracker (decider c1)) Prepare) (vo_marks _ _ _ _ Hvotes)) as (mask & Hd & Hm & Ha).
  fold (members c1) in Hd, Hm. pose proof (quorum_mask _ _ _ Hok Hq Hnd (vo_members _ _ _ _ Hvotes) Hm) as Hqm. rewrite Hbm, <-Hvq in Hqm.
  pose proof (votesOk_aggregate _ _ _ _ Hvotes) as Hagv. rewrite <-Ha, Hhash in Hagv.
  assert (ReadSignatureBitmapPayload v (Payload r) 0 = Some (AggregateVotes (tracker (decider c1)) Prepare, mask)) as Hread.
  { unfold ReadSignatureBitmapPayload. cbn [Payload r]. rewrite length_app, sigToBytes_length. cbn [Nat.add].
    destruct (Nat.ltb_spec (BLSSignatureSizeInBytes + length (Bitmap (prepareBitmap c1))) BLSSignatureSizeInBytes) as [Hlt|_]; [lia|].
    unfold ReadSignatureBitmapByPublicKeys, ParseCommitSigAndBitmap. rewrite drop_0, length_app, sigToBytes_length.
    destruct (Nat.ltb_spec (BLSSignatureSizeInBytes + length (Bitmap (prepareBitmap c1))) BLSSignatureSizeInBytes) as [Hlt|_]; [lia|].
    cbn [mbind option_bind]. rewrite take_app_length', drop_app_length' by (by rewrite sigToBytes_length). by rewrite Hvm1. }
  destruct (onPrepared_accepts BlockVerifier keyOf aggregateSig env' v r b') as (v' & outs' & Ho & Hph & Hbh & Hn''); try done.
  - split_and!; [exact Hdec|by rewrite Hh'|by rewrite Hn', Hnum, <-Hnum1|]. exists (AggregateVotes (tracker (decider c1)) Prepare), mask. split_and!; [done|done|exact Hagv].
  - cbn. by rewrite Hvn.
  - cbn. by rewrite Hvv.
  - by apply Hver.
  - exists v', outs'. split; [reflexivity|]. split; [exact Ho|]. split; [exact Hph|]. split; [by rewrite Hbh|]. by rewrite <-Hp'.
Qed.
End leader.

(** ** The new-view message of a leader *)

(** Bits beyond the committee stay as they were. *)
Section padding.
Context {G : Type} `{BK : BlsKey G, KL : !BlsKeyLaws G}.
Implicit Types (mask : Mask G).

Lemma applyBit_padding mask (i : nat) want mask' j :
  maskInv mask → (i < length (Publics mask))%nat → applyBit mask (Z.of_nat i) want = Some mask' →
  (length (Publics mask) ≤ j < 8 * length (Bitmap mask))%nat →
  bitAt (Bitmap mask') j = bitAt (Bitmap mask) j ∧ length (Bitmap mask') = length (Bitmap mask).
Proof.
  intros HI Hi E Hj. destruct (flipBit_spec (Bitmap mask) i (bm_bound mask i HI Hi) (inv_bytes mask HI)) as (bm & Hf & Hlen & _ & Hbits).
  destruct (lookup_lt_is_Some_2 _ _ Hi) as [key Hkey].
  unfold applyBit in E. rewrite Nat2Z.id, Hkey in E. cbn [mbind option_bind] in E.
  assert (bitAt bm j = bitAt (Bitmap mask) j) as Hb by (rewrite Hbits by lia; rewrite decide_False by lia; done).
  destruct (readBit (Bitmap mask) (Z.of_nat i)) as [cur|] eqn:Er; [|done]. cbn [mbind option_bind] in E. destruct want.
  - destruct cur; cbn [negb andb mbind option_bind] in E; [|rewrite Hf in E; cbn [mbind option_bind Bitmap] in E].
    + rewrite Er in E. cbn in E. by injection E as <-.
    + destruct (readBit bm (Z.of_nat i)) as [cur1|]; [|done]. cbn [mbind option_bind negb] in E. rewrite andb_false_r in E. by injection E as <-.
  - rewrite andb_false_r in E. cbn [mbind option_bind] in E. rewrite Er in E. cbn [mbind option_bind negb] in E. rewrite andb_true_r in E.
    destruct cur; [rewrite Hf in E; cbn in E; by injection E as <-|by injection E as <-].
Qed.

Lemma SetMask_loop_padding bm idxs : ∀ mask mask' j,
  maskInv mask → length bm = Len (Publics mask) → Forall (λ i, (i < length (Publics mask))%nat) idxs → SetMask_loop bm idxs mask = Some mask' →
  (length (Publics mask) ≤ j < 8 * length (Bitmap mask))%nat → bitAt (Bitmap mask') j = bitAt (Bitmap mask) j.
Proof.
  induction idxs as [|i idxs IH]; intros mask mask' j HI Hl Hall E Hj; cbn [SetMask_loop] in E; [by injection E as <-|].
  apply Forall_cons in Hall as [Hi Hall]. destruct (readBit bm (Z.of_nat i)) as [want|]; [|done]. cbn [mbind option_bind] in E.
  destruct (applyBit_spec mask i want HI Hi) as (m1 & E1 & HI1 & Hp1 & _). rewrite E1 in E. cbn [mbind option_bind] in E.
  destruct (applyBit_padding mask i want m1 j HI Hi E1 Hj) as [Hb Hlen]. rewrite <-Hb. apply (IH m1 mask' j); rewrite ?Hp1, ?Hlen; done.
Qed.

(** Two masks that were read from bitmaps and mark the same members have the same count. *)
Lemma SetMask_count (ms : list (PublicKeyWrapper G)) bm1 bm2 m1 m2 X :
  SetMask (newMask ms) bm1 = Ok m1 → SetMask (newMask ms) bm2 = Ok m2 → marks ms m1 X → marks ms m2 X → CountOneBits (Bitmap m1) = CountOneBits (Bitmap m2).
Proof.
  assert (∀ bm m j, SetMask (newMask ms) bm = Ok m → marks ms m X → (length ms ≤ j < 8 * Len ms)%nat → bitAt (Bitmap m) j = false) as Hpad.
  { intros bm m j E (HI & Hp & _) Hj. unfold SetMask in E. cbn [newMask emptyMask Publics] in E. destruct (Nat.eqb_spec (Len ms) (length bm)) as [Hl|]; [|done]. cbn [negb] in E.
    destruct (SetMask_loop bm (seq 0 (length ms)) (newMask ms)) as [m'|] eqn:El; [|done]. injection E as ->.
    pose proof (emptyMask_inv (G:=G) ms) as HI0. rewrite (SetMask_loop_padding bm (seq 0 (length ms)) (newMask ms) m j HI0); [apply bitAt_zeros|done| |done|].
    - apply Forall_forall. intros i Hi%elem_of_seq. cbn. lia.
    - unfold newMask. rewrite (inv_len _ HI0). cbn [emptyMask Publics]. lia. }
  intros E1 E2 M1 M2. pose proof M1 as (HI1 & Hp1 & _ & Hb1). pose proof M2 as (HI2 & Hp2 & _ & Hb2).
  rewrite !CountOneBits_sum by (by apply inv_bytes). rewrite (inv_len _ HI1), (inv_len _ HI2), Hp1, Hp2.
  apply sumZ_ext. intros j Hj%elem_of_seq. destruct (lt_dec j (length ms)) as [Hlt|Hge].
  - destruct (lookup_lt_is_Some_2 ms j Hlt) as [key Hk]. by rewrite (Hb1 j key Hk), (Hb2 j key Hk).
  - rewrite (Hpad bm1 m1 j), (Hpad bm2 m2 j) by (done || lia). done.
Qed.
End padding.

Section newViewAccepted.
Context {G Sg D C : Type} `{EqG : EqDecision G, BK : BlsKey G, BS : BlsSign Sg, BC : !BlsCrypto G Sg, BL : BlockLib}.
Context `{DO : !DeciderOps D G Sg, DA : !DeciderAdmin D G, CO : !ChainOps C G}.
Context `{KL : !BlsKeyLaws G, SL : !BlsSignLaws Sg, CL : !BlsCryptoLaws G Sg, DL : !DeciderLaws D G Sg, LL : !BlockLaws}.
Context (BlockVerifier : Block → bool) (orderMsgs : gmap bytes (FBFTMessage G Sg) → list (FBFTMessage G Sg)).
Context (keyOf : SerializedPublicKey → option G) (aggregateSig : bool).
(** The new leader: what it counts votes with, its keys, and the prepared messages in its log. *)
Context (d : Decider G) (privKeys : list (PrivateKeyWrapper G Sg)) (Logged : FBFTMessage G Sg → Prop).
Hypothesis order_values : ∀ ms, orderMsgs ms ≡ₚ (map_to_list ms).*2.
Hypothesis members_distinct : NoDup (Bytes <$> dParticipants d).
Hypothesis own_members : ∀ key, key ∈ privKeys → Bytes (Pub key) ∈ Bytes <$> dParticipants d → Pub key ∈ dParticipants d.
Hypothesis own_signs : ∀ key h, key ∈ privKeys → VerifyHash (SignHash (Pri key) h) (Object (Pub key)) h = true.
Implicit Types (c : Consensus G Sg D C) (m : FBFTMessage G Sg) (b : Block) (vc : viewChange G Sg) (log : FBFTLog G Sg).

(** A new leader that can start the view [v]: its payload, if it has one, is certified; when some
    vote for the view is for a prepared block it has that block; and the voters have a quorum. *)
Record readyLeader vc log (v : Z) : Prop := {
  rl_certified : m1Payload vc ≠ [] → certified d (m1Payload vc);
  rl_block : dom (sigsOf (bhp vc) v) ≠ ∅ → is_Some (GetPreparedBlock vc log);
  rl_quorum : ∀ mask, marks (dParticipants d) mask (dom (sigsOf (viewIDs vc) v)) → dQuorumByMask d (Some mask) = true;
}.

(** A validator of the committee that is changing the view. *)
Record changingValidator vc (v n : Z) c : Prop := {
  cv_members : members c = dParticipants d;
  cv_quorum : ∀ mask, IsQuorumAchievedByMask (decider c) mask = dQuorumByMask d mask;
  cv_blockNum : blockNum c = n;
  cv_viewID : blockViewID c ≤ v;
  cv_mode : mode c = ViewChanging;
  cv_verifies : ∀ b, toBytes 32 (hashOf b) = take 32 (m1Payload vc) → BlockVerifier b = true;
  cv_keys : ownKeysParse keyOf c;
  cv_multi : Publics (multiSigBitmap c) = members c;
}.

(** The certificate of the message, when the votes are not all nil. *)
Lemma newViewM1_passes vc log v c m sender pb :
  (∀ v, dom (sigsOf (viewIDs vc) v) = dom (sigsOf (bhp vc) v) ∪ dom (sigsOf (nilBox vc) v)) →
  readyLeader vc log v → members c = dParticipants d →
  (∃ s3 mask3, M3AggSig m = Some s3 ∧ M3Bitmap m = Some mask3 ∧ (∃ bm, SetMask (newMask (dParticipants d)) bm = Ok mask3)
     ∧ marks (dParticipants d) mask3 (dom (sigsOf (viewIDs vc) v)) ∧ VerifyHash s3 (AggregatePublic mask3) (le64 v) = true) →
  (M2AggSig m = None ∧ M2Bitmap m = None ∧ dom (sigsOf (nilBox vc) v) = ∅)
    ∨ (∃ s2 mask2, M2AggSig m = Some s2 ∧ M2Bitmap m = Some mask2 ∧ (∃ bm, SetMask (newMask (dParticipants d)) bm = Ok mask2)
         ∧ marks (dParticipants d) mask2 (dom (sigsOf (nilBox vc) v)) ∧ VerifyHash s2 (AggregatePublic mask2) NIL = true) →
  dom (sigsOf (viewIDs vc) v) ≠ ∅ →
  (is_Some (GetPreparedBlock vc log) → Payload m = m1Payload vc ∧ m1Payload vc ≠ []) →
  ∃ c2, newViewM1 c m sender pb = Some (Some c2) ∧ mode c2 = mode c ∧ priKey c2 = priKey c ∧ chain c2 = chain c ∧ decider c2 = decider c
    ∧ multiSigBitmap c2 = multiSigBitmap c.
Proof.
  intros Hu [Hcert Hblock _] Hmem (s3 & mask3 & _ & E3 & [bm3 Hbm3] & Hm3 & _) H2 Hne Hpay. unfold newViewM1. rewrite E3.
  set (g := match M2Bitmap m with None => true | Some m2Mask => CountOneBits (Bitmap m2Mask) <? CountOneBits (Bitmap mask3) end).
  destruct g eqn:Eg; [|by exists c].
  assert (is_Some (GetPreparedBlock vc log)) as Hp.
  { apply Hblock. intros Hb. specialize (Hu v). rewrite Hb, left_id_L in Hu by apply _. destruct H2 as [(_ & _ & Hn)|(s2 & mask2 & _ & E2 & [bm2 Hbm2] & Hm2 & _)]; [by rewrite Hn in Hu|].
    unfold g in Eg. rewrite E2, Z.ltb_lt in Eg. rewrite <-Hu in Hm2. rewrite (SetMask_count _ _ _ _ _ _ Hbm2 Hbm3 Hm2 Hm3) in Eg. lia. }
  destruct (Hpay Hp) as [Hpm Hpne]. destruct (Hcert Hpne) as (_ & agg & mask & Hr & _ & Hv). rewrite Hpm.
  assert (32 + BLSSignatureSizeInBytes ≤ length (m1Payload vc))%nat as Hlen.
  { apply bind_Some in Hr as (sb & Ep & _). unfold ParseCommitSigAndBitmap in Ep.
    destruct (Nat.ltb_spec (length (drop 32 (m1Payload vc))) BLSSignatureSizeInBytes) as [|Hge]; [done|]. rewrite length_drop in Hge. unfold BLSSignatureSizeInBytes in *. lia. }
  assert ((length (m1Payload vc) <? 32)%nat = false) as -> by (apply Nat.ltb_ge; lia).
  assert (ReadSignatureBitmapPayload c (m1Payload vc) 32 = Some (agg, mask)) as ->.
  { unfold ReadSignatureBitmapPayload. rewrite (proj2 (Nat.ltb_ge _ _)) by exact Hlen. by rewrite Hmem. }
  rewrite Hv. cbn [negb]. eexists. split; [reflexivity|]. destruct pb; by split_and!.
Qed.

(** C19: The new-view message of a leader makes a validator change to the new view.  When the leader's
    collected votes are those of a quorum, its prepared payload, if it has one, carries a quorum
    certificate, and it has the block of that payload whenever one of the votes is for a prepared
    block, then a validator of the committee that is changing the view at that height, and whose
    verifier accepts the blocks of the payload's hash, takes the message through all its checks:
    the signatures on the view and on nil, the block and its hash, the quorum, and the prepare
    certificate.  It is in normal mode in the new view with the sender as its leader; with a
    block it sends its commits for a block of the payload's hash and is in the commit phase,
    without one it waits for an announcement. *)
Theorem newView_accepted vc log v n leader r m c env :
  vcReach BlockVerifier orderMsgs d privKeys Logged vc log → logInv log → readyLeader vc log v →
  constructNewViewMessage vc log v n leader = Some r → ParseNewViewMessage keyOf r (members c) = Some m →
  changingValidator vc v n c → sendOk env = true →
  ∃ c' outs, onNewView BlockVerifier keyOf aggregateSig env c m = Some (c', outs)
    ∧ mode c' = Normal ∧ blockViewID c' = v ∧ Bytes (LeaderPubKey c') = Bytes (Pub leader)
    ∧ match GetPreparedBlock vc log with
      | None => phase c' = FBFTAnnounce ∧ outs = []
      | Some _ => phase c' = FBFTCommit ∧ members c' = members c ∧ ∃ b, toBytes 32 (hashOf b) = take 32 (m1Payload vc)
          ∧ commitsSent aggregateSig (getPriKeysInCommittee c') (commitPayloadOf c' b) outs
      end.
Proof.
  intros Hreach Hlog Hl Hc Hp [Hmem Hq Hbn Hview Hmode Hver Hkeys Hmulti] Hsend. rewrite Hmem in Hp.
  destruct (newView_message BlockVerifier orderMsgs order_values d privKeys members_distinct own_members own_signs Logged keyOf vc log v n leader r m Hreach Hlog (rl_certified _ _ _ Hl) Hc Hp)
    as ((Hv & Hn & pk & Hpk & Hsender) & H3 & H2 & Hpb).
  apply (vcReach_inv BlockVerifier orderMsgs order_values d privKeys members_distinct own_members own_signs) in Hreach as [[_ _ _ Hu _ _] _].
  assert (dom (sigsOf (viewIDs vc) v) ≠ ∅) as Hne.
  { intros He. unfold constructNewViewMessage in Hc. destruct (default ([], []) (GetPreparedBlock vc log)). apply bind_Some in Hc as (x & E3 & _). unfold GetM3Bitmap, getBitmap in E3.
    apply dom_empty_iff_L in He. by rewrite He, map_to_list_empty in E3. }
  assert (is_Some (GetPreparedBlock vc log) → Payload m = m1Payload vc ∧ m1Payload vc ≠ []) as Hpay.
  { intros Hs. split; [destruct Hs as [x Hs]; rewrite Hs in Hpb; apply Hpb|]. intros He. destruct Hs as [x Hs]. unfold GetPreparedBlock, isM1PayloadEmpty in Hs. by rewrite He in Hs. }
  pose proof (newViewM1_passes vc log v) as Hpass. pose proof H3 as (s3 & mask3 & E3s & E3 & _ & Hm3 & Hv3).
  unfold onNewView. rewrite Hbn, Hn, Z.eqb_refl, Hsender. cbn [negb]. set (sender := mkPublicKeyWrapper (Bytes (Pub leader)) pk).
  assert (negb (onNewViewSanityCheck c m) = false) as -> by (unfold onNewViewSanityCheck; rewrite Hv; destruct (Z.ltb_spec v (blockViewID c)); [lia|reflexivity]).
  assert (∃ pb vc1 log1, VerifyNewViewMsg BlockVerifier (Consensus.vc c) (fbftLog c) m = (Ok pb, vc1, log1)
    ∧ match GetPreparedBlock vc log with None => pb = None | Some _ => ∃ b, pb = Some b ∧ toBytes 32 (hashOf b) = take 32 (m1Payload vc) end) as (pb & vc1 & log1 & Evn & Hpb').
  { unfold VerifyNewViewMsg. rewrite E3s, E3, Hsender, Hv, Hv3. cbn [negb].
    destruct H2 as [(-> & _ & _)|(s2 & mask2 & -> & -> & _ & _ & Hv2)]; rewrite ?Hv2;
      (destruct (GetPreparedBlock vc log) as [x|]; [|rewrite Hpb; by eexists _, _, _]); destruct Hpb as (-> & Hpm & b & Hdec & Hh);
      rewrite Hdec, Hpm, bool_decide_true by exact Hh; cbn [negb]; unfold VerifyBlock; rewrite (Hver b Hh);
      (destruct (IsBlockVerified (fbftLog c) b); eexists (Some b), _, _; split; [reflexivity|by exists b|reflexivity|by exists b]). }
  rewrite Evn. set (c1 := setLog _ _). change (decider c1) with (decider c). rewrite E3, Hq, (rl_quorum _ _ _ Hl _ Hm3). cbn [negb].
  destruct (Hpass c1 m sender pb Hu Hl Hmem H3 H2 Hne Hpay) as (c2 & -> & Hmode2 & Hpri2 & Hch2 & Hd2 & Hms2). cbn [mbind option_bind].
  unfold IsViewChangingMode. rewrite Hmode2. change (mode c1) with (mode c). rewrite Hmode, bool_decide_true by reflexivity. cbn [negb].
  set (c3 := ResetViewChangeState _).
  assert (members c3 = members c) as Hm3'.
  { unfold members. change (decider c3) with (ResetViewChangeVotes (decider c2)). by rewrite ResetViewChange_law, Hd2. }
  destruct (GetPreparedBlock vc log) as [x|].
  - destruct Hpb' as (b & -> & Hh). destruct (sendCommit_all keyOf aggregateSig env c3 b) as (outs & Ho & Hs).
    + intros key Hkey. apply Hkeys. change (priKey c3) with (priKey c2) in Hkey. by rewrite Hpri2 in Hkey.
    + change (multiSigBitmap c3) with (multiSigBitmap c2). rewrite Hm3', Hms2. exact Hmulti.
    + discriminate.
    + exact Hsend.
    + rewrite Ho. cbn [mbind option_bind]. eexists _, outs. split; [reflexivity|]. split; [reflexivity|]. split; [exact Hv|]. split; [reflexivity|].
      split; [reflexivity|]. split; [exact Hm3'|]. by exists b.
  - subst pb. eexists _, []. split; [reflexivity|]. split; [reflexivity|]. split; [exact Hv|]. split; [reflexivity|]. done.
Qed.
End newViewAccepted.

(** ** A concrete committee, with the signatures [zCrypto] *)
#[local] Existing Instances Z_BlsSign Z_BlsSignLaws zCrypto demoLib demoLib_laws zCrypto_laws.

(** A chain that takes every block. *)
Record demoChain := mkDemoChain { dcHead : Z; dcSigs : gmap Z bytes }.
#[local] Instance demoChainOps : ChainOps demoChain Z := {|
  currentNumber := dcHead; currentHeader _ := None;
  insertBlock ch b _ := Some (mkDemoChain (bNumber b) (dcSigs ch));
  readCommitSig ch n := dcSigs ch !! n; writeCommitSig ch n s := mkDemoChain (dcHead ch) (<[n := s]> (dcSigs ch));
  hasBlock _ _ := true; verifyHeaderSignature _ _ _ _ := true; isStakingEpoch _ _ := true;
  readShardState _ _ := None; leaderFromCoinbase _ := None |}.

Definition demoPri (k : Z) : PrivateKeyWrapper Z Z := mkPrivateKeyWrapper k (demoKey k).
Definition demoNode {D} (d : D) (own : list Z) (md : Mode) : Consensus Z Z D demoChain :=
  mkConsensus d NewFBFTLog FBFTAnnounce md 7 7 (mkTimers true false false) None None (newMask demoKeys) (newMask demoKeys) (newMask demoKeys)
    (mkDemoChain 4 ∅) (demoPri <$> own) (demoKey 11) 5 0 [] 0 false ResetVC true false.
Definition demoEnv : Env := mkEnv 0 true true.
Definition keyOfZ (k : SerializedPublicKey) : option Z := Some k.
Notation uniform := (cIdentities Z Z).
Notation staked := (stakedVoteWeight Z Z).
Definition prepareFrom (k h : Z) : FBFTMessage Z Z :=
  mkFBFTMessage PREPARE 7 5 h [] [demoKey k] [] None (sigToBytes (SignHash (BlsCrypto := zCrypto) k (toBytes 32 h))) None None None None None None false.

(** *** The prepare phase *)
Definition stateOf {D} (c : Consensus Z Z D demoChain) (r : option (Consensus Z Z D demoChain * list (output Z Z))) : Consensus Z Z D demoChain :=
  match r with Some (c', _) => c' | None => c end.
Definition outputsOf {D} (r : option (Consensus Z Z D demoChain * list (output Z Z))) : list (output Z Z) := match r with Some (_, o) => o | None => [] end.
Lemma run_eq {D} c (r : option (Consensus Z Z D demoChain * list (output Z Z))) :
  match r with Some _ => true | None => false end = true → r = Some (stateOf c r, outputsOf r).
Proof. by destruct r as [[]|]. Qed.

Definition leader0 : Consensus Z Z uniform demoChain := demoNode demoTracker [11] Normal.
Definition leader1 := stateOf leader0 (announce keyOfZ demoEnv leader0 (demoBlock 5)).
Definition leader2 := stateOf leader1 (onPrepare keyOfZ demoEnv leader1 (prepareFrom 12 5007)).
Definition leader3 := stateOf leader2 (onPrepare keyOfZ demoEnv leader2 (prepareFrom 13 5007)).
Definition lastPrepare := onPrepare keyOfZ demoEnv leader3 (prepareFrom 14 5007).

Lemma demoKeys_distinct : NoDup (Bytes <$> demoKeys).
Proof. refine (bool_decide_unpack _ _). vm_compute. exact I. Qed.

Lemma demoOwnKeys k : k ∈ [11; 12; 13; 14; 15] → ownKeysOk (demoPri <$> [k]) demoKeys.
Proof.
  intros Hk key ->%list_elem_of_singleton. split; [|intros h; apply Z.eqb_refl]. intros _. apply (list_elem_of_fmap_2 demoKey). exact Hk.
Qed.

Lemma leader0_fresh : fresh leader0.
Proof.
  pose proof (marks_new (Sg := Z) demoKeys demoKeys_distinct) as Hm.
  split; [exact I|exact demoKeys_distinct|apply demoOwnKeys; by left| | |reflexivity]; (split; [reflexivity|split; [exact Hm|reflexivity]]).
Qed.

Lemma leader3_round : leaderRound keyOfZ (demoBlock 5) leader3.
Proof.
  assert (∀ k, k ∈ [11; 12; 13; 14; 15] → ∀ k', k' ∈ SenderPubkeys (prepareFrom k 5007) → k' ∈ demoKeys) as Hs.
  { intros k Hk k' ->%list_elem_of_singleton. by apply (list_elem_of_fmap_2 demoKey). }
  eapply (lr_prepare _ _ demoEnv leader2 (prepareFrom 13 5007)); [eapply (lr_prepare _ _ demoEnv leader1 (prepareFrom 12 5007));
    [eapply (lr_announce _ _ demoEnv leader0); [exact leader0_fresh|apply run_eq; vm_compute; reflexivity|vm_compute; reflexivity]| | |]| | |].
  - replace (members leader1) with demoKeys by (vm_compute; reflexivity). apply Hs. right. by left.
  - discriminate.
  - apply run_eq. vm_compute. reflexivity.
  - replace (members leader2) with demoKeys by (vm_compute; reflexivity). apply Hs. do 2 right. by left.
  - discriminate.
  - apply run_eq. vm_compute. reflexivity.
Qed.

(** The first message sent. *)
Fixpoint firstSent (outs : list (output Z Z)) : option (NetworkMessage Z Z) :=
  match outs with [] => None | Sent n :: _ => Some n | _ :: outs => firstSent outs end.
Lemma firstSent_in outs n : firstSent outs = Some n → Sent n ∈ outs.
Proof. induction outs as [|o outs IH]; [done|]. destruct o; cbn; try (intros E; right; by apply IH). intros [= ->]. by left. Qed.
Lemma run_sent {D} c (r : option (Consensus Z Z D demoChain * list (output Z Z))) :
  match r with Some (_, outs) => match firstSent outs with Some _ => true | None => false end | None => false end = true →
  r = Some (stateOf c r, outputsOf r) ∧ ∃ n, Sent n ∈ outputsOf r.
Proof.
  destruct r as [[c' outs]|]; [|done]. cbn [stateOf outputsOf]. intros E. split; [reflexivity|].
  destruct (firstSent outs) as [n|] eqn:En; [|done]. exists n. by apply firstSent_in.
Qed.

Definition validator0 : Consensus Z Z uniform demoChain := demoNode demoTracker [12] Normal.
Lemma prepared_accepted_witness :
  ∃ n r v' outs', Sent n ∈ outputsOf lastPrepare ∧ ParseFBFTMessage keyOfZ validator0 PREPARED (netRequest n) = Some r
    ∧ onPrepared (λ _, true) keyOfZ true demoEnv validator0 r = Some (v', outs') ∧ phase v' = FBFTCommit ∧ blockHash v' = 5007
    ∧ ∃ n', Sent n' ∈ outs'.
Proof.
  destruct (run_sent leader3 lastPrepare) as (E & n & Hn); [vm_compute; reflexivity|].
  destruct (prepared_accepted (λ _, true) keyOfZ true demoEnv (demoBlock 5) leader3 (prepareFrom 14 5007) (stateOf leader3 lastPrepare) (outputsOf lastPrepare) n demoEnv validator0)
    as (r & v' & outs' & Hp & Ho & Hph & Hh & Hc).
  - exact leader3_round.
  - replace (members leader3) with demoKeys by (vm_compute; reflexivity). intros k ->%list_elem_of_singleton.
    apply (list_elem_of_fmap_2 demoKey). do 3 right. by left.
  - discriminate.
  - exact E.
  - exact Hn.
  - split; try (vm_compute; reflexivity). intros key ->%list_elem_of_singleton. reflexivity.
  - vm_compute. by split.
  - intros key Hk. replace (priKey leader3) with (demoPri <$> [11]) in Hk by (vm_compute; reflexivity). apply list_elem_of_singleton in Hk as ->. reflexivity.
  - reflexivity.
  - exists n, r, v', outs'. split; [exact Hn|]. split; [exact Hp|]. split; [exact Ho|]. split; [exact Hph|]. split; [exact Hh|].
    destruct Hc as (n' & Hn' & _); [vm_compute; discriminate|]. by exists n'.
Defined.

(** *** Commits of validators *)
Definition stakedNode (own : list Z) (md : Mode) : Consensus Z Z staked demoChain :=
  demoNode (mkStaked (UpdateParticipants (reader Quorum.demoDecider) demoKeys) (roster Quorum.demoDecider) (voteTally Quorum.demoDecider)) own md.
(** A prepared message signed by the keys 11, 12 and 13. *)
Definition preparedFor (b : Block) : FBFTMessage Z Z :=
  mkFBFTMessage PREPARED 7 5 (hashOf b) (default [] (encodeBlock b)) [demoKey 11] []
    None (sigToBytes (BlsCrypto := zCrypto) (36 * hashZ (toBytes 32 (hashOf b))) ++ [7]) None None None None None None false.
Definition blockA : Block := mkBlock 5 0 7 false [] [].
Definition blockB : Block := mkBlock 5 0 8 false [] [].



(** *** New-view messages *)
Definition changing : Consensus Z Z uniform demoChain := demoNode demoTracker [12] ViewChanging.
Definition viewMask : Mask Z := match SetMask (newMask demoKeys) [15] with Ok mk => mk | _ => newMask demoKeys end.
(** A new-view message of the key 12 with the view signatures of the keys 11 to 14; with [nils],
    all of them voted nil too. *)
Definition newViewFor (payload : bytes) (nils : bool) : FBFTMessage Z Z :=
  mkFBFTMessage NEWVIEW 8 5 0 (default [] (encodeBlock (demoBlock 5))) [demoKey 12] [] None payload None None
    (if nils then Some (50 * hashZ NIL) else None) (if nils then Some viewMask else None)
    (Some (50 * hashZ (le64 8))) (Some viewMask) false.
(** The signature is no signature of anybody. *)
Definition forged : bytes := toBytes 32 5007 ++ replicate 97 0.

Lemma newView_commits_uncertified_witness :
  ∃ c' outs (n : NetworkMessage Z Z), onNewView (λ _, true) keyOfZ false demoEnv changing (newViewFor forged true) = Some (c', outs)
    ∧ Sent n ∈ outs ∧ rPayload (netRequest n) = sigToBytes (signAll [demoPri 12] (commitPayloadOf changing (demoBlock 5))).
Proof.
  assert (∃ vc1 log1, VerifyNewViewMsg (λ _, true) (vc changing) (fbftLog changing) (newViewFor forged true) = (Ok (Some (demoBlock 5)), vc1, log1)) as (vc1 & log1 & Hv).
  { eexists _, _. vm_compute. reflexivity. }
  destruct (newView_commits_uncertified (λ _, true) keyOfZ false demoEnv changing (newViewFor forged true) (demoKey 12) (demoBlock 5) vc1 log1 viewMask viewMask)
    as (c' & outs & E & _ & Hm & Hn); try reflexivity.
  - intros key ->%list_elem_of_singleton. reflexivity.
  - discriminate.
  - exact Hv.
  - by left.
  - destruct (Hn (demoPri 12)) as (n & Hs & _ & Hp).
    + apply list_elem_of_In. vm_compute. by left.
    + clear Hv Hn Hm. assert (match onNewView (λ _, true) keyOfZ false demoEnv changing (newViewFor forged true) with
        Some (c', _) => IsValidatorInCommittee c' 12 | None => false end = true) as Hx by (vm_compute; reflexivity).
      rewrite E in Hx. exact Hx.
    + exists c', outs, n. split; [exact E|]. split; [exact Hs|exact Hp].
Defined.

Lemma newView_short_payload_panics_witness :
  onNewView (λ _, true) keyOfZ false demoEnv changing (newViewFor [1; 2; 3] false) = None.
Proof.
  apply (newView_short_payload_panics (λ _, true) keyOfZ false demoEnv changing (newViewFor [1; 2; 3] false) (demoKey 12) viewMask (50 * hashZ (le64 8)));
    try reflexivity; [discriminate|cbn; lia].
Defined.

(** The new leader of the view 8 has prepared the block 5 with the keys 11 to 14; the keys 12 and 13
    vote nil, the key 14 for the block. *)
Definition viewCert : bytes := toBytes 32 5007 ++ sigToBytes (BlsCrypto := zCrypto) (50 * hashZ (toBytes 32 5007)) ++ [15].
Definition voteFrom (k : Z) (payload blk : bytes) : FBFTMessage Z Z :=
  mkFBFTMessage VIEWCHANGE 8 5 0 blk [demoKey k] [] (Some (demoKey 11)) payload
    (Some (k * hashZ (match payload with [] => NIL | _ => payload end))) (Some (k * hashZ (le64 8))) None None None None false.
Definition orderZ (ms : gmap bytes (FBFTMessage Z Z)) : list (FBFTMessage Z Z) := (map_to_list ms).*2.
Definition viewLog : FBFTLog Z Z := AddVerifiedMessage (AddBlock NewFBFTLog (demoBlock 5)) (preparedFrom 7 5 viewCert [demoKey 11]).
Definition viewDecider : Decider Z := deciderOf (demoTracker : uniform).
Definition view0 := InitPayload (λ _, true) orderZ (AddViewIDKeyIfNotExist ResetVC 8 demoKeys) viewLog 8 5 [demoPri 11] demoKeys.
Definition view1 := ProcessViewChangeMsg (λ _, true) view0.1 view0.2 viewDecider (voteFrom 12 [] []).
Definition view2 := ProcessViewChangeMsg (λ _, true) view1.1.2 view1.2 viewDecider (voteFrom 13 [] []).
Definition view3 := ProcessViewChangeMsg (λ _, true) view2.1.2 view2.2 viewDecider (voteFrom 14 viewCert [5; 0; 7; 0]).

Lemma viewCert_certified : certified viewDecider viewCert.
Proof. split; [refine (bool_decide_unpack _ _); vm_compute; exact I|]. eexists _, _. split; [vm_compute; reflexivity|split; vm_compute; reflexivity]. Qed.

Lemma view3_reached : vcReach (λ _, true) orderZ viewDecider [demoPri 11] (λ _, False) view3.1.2 view3.2.
Proof.
  assert (∀ k p blk, k ∈ [11; 12; 13; 14; 15] → Forall isByte (take 32 p) → checkedMsg viewDecider (voteFrom k p blk)) as Hc.
  { intros k p blk Hk Hp. split; [exact Hp|]. intros sender sig Hs Hv. injection Hs as <-. injection Hv as <-.
    split; [by apply (list_elem_of_fmap_2 demoKey)|apply Z.eqb_refl]. }
  assert (logPrepared viewDecider (λ _, False) viewLog) as Hl.
  { apply logPrepared_add; [|intros _; left; exact viewCert_certified]. intros m [i Hi]. cbn in Hi. by rewrite lookup_empty in Hi. }
  apply reach_msg; [apply reach_msg; [apply reach_msg; [exact (reach_init _ _ _ _ _ _ _ 8 5 (reach_key _ _ _ _ _ _ _ 8 (reach_reset _ _ _ _ _ _ Hl)))|]|]|].
  - apply Hc; [right; by left|constructor].
  - apply Hc; [do 2 right; by left|constructor].
  - apply Hc; [do 3 right; by left|]. apply viewCert_certified.
Qed.

Lemma view3_logInv : logInv view3.2.
Proof.
  assert (view3.2 = foldl logStep NewFBFTLog
    [OpAddBlock (demoBlock 5); OpAddVerified (preparedFrom 7 5 viewCert [demoKey 11]); OpMark (demoBlock 5)]) as -> by (vm_compute; reflexivity).
  apply logRun_inv, NewFBFTLog_inv.
Qed.

Lemma view3_ready : readyLeader viewDecider view3.1.2 view3.2 8.
Proof.
  split.
  - intros _. assert (m1Payload view3.1.2 = viewCert) as -> by (vm_compute; reflexivity). exact viewCert_certified.
  - intros _. vm_compute. by eexists.
  - intros mask Hm. assert (dom (sigsOf (viewIDs view3.1.2) 8) = list_to_set [11; 12; 13; 14]) as HX by (vm_compute; reflexivity). rewrite HX in Hm.
    assert ((list_to_set [11; 12; 13; 14] : gset SerializedPublicKey) ⊆ list_to_set (Bytes <$> demoKeys)) as Hsub by (refine (bool_decide_unpack _ _); vm_compute; exact I).
    pose proof (marks_size demoKeys mask _ demoKeys_distinct Hsub Hm) as Hs.
    assert (size (list_to_set [11; 12; 13; 14] : gset SerializedPublicKey) = 4%nat) as E by (vm_compute; reflexivity). rewrite E in Hs.
    cbn. assert (TwoThirdsSignersCount demoTracker = 4) as -> by (vm_compute; reflexivity). destruct (Z.ltb_spec (CountOneBits (Bitmap mask)) 4); [lia|done].
Qed.

(** The validator with the key 12 sends its commit for the block. *)
Lemma newView_accepted_witness :
  ∃ r m c' outs, constructNewViewMessage view3.1.2 view3.2 8 5 (demoPri 11) = Some r ∧ ParseNewViewMessage keyOfZ r (members changing) = Some m
    ∧ onNewView (λ _, true) keyOfZ true demoEnv changing m = Some (c', outs) ∧ mode c' = Normal ∧ blockViewID c' = 8 ∧ phase c' = FBFTCommit.
Proof.
  destruct (constructNewViewMessage view3.1.2 view3.2 8 5 (demoPri 11)) as [r|] eqn:Er; [|vm_compute in Er; discriminate Er].
  assert (match ParseNewViewMessage keyOfZ r (members changing) with Some _ => true | None => false end = true) as Hm.
  { assert (match (r ← constructNewViewMessage view3.1.2 view3.2 8 5 (demoPri 11); ParseNewViewMessage keyOfZ r (members changing)) with Some _ => true | None => false end = true) as H
      by (vm_compute; reflexivity). by rewrite Er in H. }
  destruct (ParseNewViewMessage keyOfZ r (members changing)) as [m|] eqn:Em; [|discriminate Hm].
  destruct (newView_accepted (D := cIdentities Z Z) (λ _, true) orderZ keyOfZ true viewDecider [demoPri 11] (λ _, False) ltac:(intros; reflexivity) demoKeys_distinct
    ltac:(intros key ->%list_elem_of_singleton _; by left) ltac:(intros key h ->%list_elem_of_singleton; apply Z.eqb_refl)
    view3.1.2 view3.2 8 5 (demoPri 11) r m changing demoEnv view3_reached view3_logInv view3_ready Er Em) as (c' & outs & E & H1 & H2 & _ & H3).
  - split; try reflexivity; [discriminate|]. intros key ->%list_elem_of_singleton. reflexivity.
  - reflexivity.
  - exists r, m, c', outs. split; [reflexivity|]. split; [exact Em|]. split; [exact E|]. split; [exact H1|]. split; [exact H2|].
    destruct (GetPreparedBlock view3.1.2 view3.2) as [x|] eqn:Ep; [apply H3|vm_compute in Ep; discriminate Ep].
Defined.
