(* ===== verification/Slash.v ===== *)
(** * Slashing double signers (staking/slash/double-sign.go, applySlashes of internal/chain/engine.go)

    A record accuses a validator of signing two blocks at one moment; once verified, every
    delegation to the validator, as of the epoch of the evidence, owes a share of it, which is
    paid from what the delegator has left there; the reporter gets half of what is paid and the
    validator is banned.  [current] is a reference into the validators of the state, so the
    records are the values of a map that is passed on; calls of [AddBalance] are listed in
    order.  What an account receives of them is the matter of [BlockPayout]: a frozen account
    drops the call, so a frozen reporter gets nothing of its reward.  Logging is left out. *)

From Stdlib Require Import ZArith Lia Ascii String Sorted.
From stdpp Require Import base gmap list option sets sorting.
From S2P Require Import Prelude Decimal ShardState Votepower Effective Staking.
Local Open Scope Z_scope.

(** ** Data *)
Record Moment := mkMoment { mEpoch : Z; mShardID : Z; Height : Z; ViewID : Z }.
Record Vote := mkBallotVote { SignerPubKeys : list SerializedPublicKey; BlockHeaderHash : Hash; Signature : bytes }.
Record Evidence := mkEvidence { evMoment : Moment; FirstVote : Vote; SecondVote : Vote; Offender : Address }.
Record Record_ := mkRecord { rEvidence : Evidence; Reporter : Address }.
Record Application := mkApplication { TotalSlashed : Z; TotalSnitchReward : Z }.

(** The validators of the state and the payments made. *)
Record slashState := mkSlashState { validators : gmap Address Wrapper; credits : list (Address * Z) }.

(** ** Paying a debt; [None] is [errSlashDebtCannotBeNegative] *)
Definition applySlashRate (amount : Z) (rate : Dec) : option Z :=
  d ← NewDecFromBigInt amount; m ← Mul d rate; Some (TruncateInt m).

(** The debt that is left and the total slashed. *)
Definition payDebt (slashDebt payment totalSlashed : Z) : option (Z * Z) :=
  let slashDebt := slashDebt - payment in if slashDebt <? 0 then None else Some (slashDebt, totalSlashed + payment).

(** The debt, the amount and the total slashed after the payment. *)
Definition payDownAsMuchAsCan (slashDebt nowAmt totalSlashed : Z) : option (Z * Z * Z) :=
  if (0 <? nowAmt) && (0 <? slashDebt) then
    if slashDebt <=? nowAmt
    then '(debt, total) ← payDebt slashDebt slashDebt totalSlashed; Some (debt, nowAmt - slashDebt, total)
    else '(debt, total) ← payDebt slashDebt nowAmt totalSlashed; Some (debt, nowAmt - nowAmt, total)
  else Some (slashDebt, nowAmt, totalSlashed).

(** The loop over the undelegations: those of the epoch of the evidence and later ones pay,
    until the debt is paid. *)
Fixpoint slashUndelegations (doubleSignEpoch : Z) (us : list Undelegation) (slashDebt totalSlashed : Z)
    : option (Z * list Undelegation * Z) :=
  match us with
  | [] => Some (slashDebt, [], totalSlashed)
  | u :: us' =>
      if doubleSignEpoch <=? uEpoch u then
        if slashDebt <=? 0 then Some (slashDebt, us, totalSlashed)
        else
          '(debt1, amt, total1) ← payDownAsMuchAsCan slashDebt (uAmount u) totalSlashed;
          '(debt2, us2, total2) ← slashUndelegations doubleSignEpoch us' debt1 total1;
          Some (debt2, mkUndelegation amt (uEpoch u) :: us2, total2)
      else
        '(debt2, us2, total2) ← slashUndelegations doubleSignEpoch us' slashDebt totalSlashed;
        Some (debt2, u :: us2, total2)
  end.

(** What one current delegation pays. *)
Definition slashDelegation (doubleSignEpoch : Z) (d : Delegation) (slashDebt totalSlashed : Z) : option (Z * Delegation * Z) :=
  '(debt1, amt, total1) ← payDownAsMuchAsCan slashDebt (dAmount d) totalSlashed;
  '(debt2, us, total2) ← slashUndelegations doubleSignEpoch (Undelegations d) debt1 total1;
  '(debt3, reward, total3) ← (if 0 <? debt2 then payDownAsMuchAsCan debt2 (dReward d) total2 else Some (debt2, dReward d, total2));
  Some (debt3, mkDelegation (DelegatorAddress d) amt reward us, total3).

(** What the loops carry: [slashDebt], [slashDiff], [slashTrack] and the payments. *)
Record slashing := mkSlashing { debt : Z; diff : Application; track : Application; payments : list (Address * Z) }.

Definition plusApplication (a b : Application) : Application :=
  mkApplication (TotalSlashed a + TotalSlashed b) (TotalSnitchReward a + TotalSnitchReward b).

(** The inner loop: the current delegations of one delegator of the snapshot. *)
Fixpoint slashCurrent (reporter : Address) (doubleSignEpoch : Z) (snapshotAddr : Address) (ds : list Delegation) (st : slashing)
    : option (list Delegation * slashing) :=
  match ds with
  | [] => Some ([], st)
  | d :: ds' =>
      if DelegatorAddress d =? snapshotAddr then
        '(debt', d', total) ← slashDelegation doubleSignEpoch d (debt st) (TotalSlashed (diff st));
        let halfOfSlashDebt := total / 2 in
        let diff' := mkApplication total (TotalSnitchReward (diff st) + halfOfSlashDebt) in
        '(ds2, st2) ← slashCurrent reporter doubleSignEpoch snapshotAddr ds'
          (mkSlashing debt' diff' (plusApplication (track st) diff') (payments st ++ [(reporter, halfOfSlashDebt)]));
        Some (d' :: ds2, st2)
      else
        '(ds2, st2) ← slashCurrent reporter doubleSignEpoch snapshotAddr ds' st;
        Some (d :: ds2, st2)
  end.

(** The outer loop, over the delegations of the snapshot. *)
Fixpoint delegatorSlashApply (snapshot : list Delegation) (current : list Delegation) (rate : Dec) (reporter : Address)
    (doubleSignEpoch : Z) (slashTrack : Application) (paid : list (Address * Z))
    : option (list Delegation * Application * list (Address * Z)) :=
  match snapshot with
  | [] => Some (current, slashTrack, paid)
  | ds :: rest =>
      slashDebt ← applySlashRate (dAmount ds) rate;
      '(current', st) ← slashCurrent reporter doubleSignEpoch (DelegatorAddress ds) current
                          (mkSlashing slashDebt (mkApplication 0 0) slashTrack paid);
      if debt st <? 0 then None
      else delegatorSlashApply rest current' rate reporter doubleSignEpoch (track st) (payments st)
  end.

Inductive slashError :=
| errNoSnapshot | errValidatorNotFoundDuringSlash | errSlashDebtCannotBeNegative | errSanity (e : stakingError)
| errSlashBeforeStakingEpoch | errAlreadyBannedValidator | errReporterAndOffenderSame | errSlashBlockNoConflict
| errNoMatchingDoubleSignKeys | errSlashFromFutureEpoch | errReadShardState | errShard (e : shardError)
| errMultipleSigners | errOffenderMismatch | errBallotsNotDiff | errDeserialize | errPublicKey | errFailVerifySlash.

Fixpoint slashApply (ReadValidatorSnapshotAtEpoch : Z → Address → option Wrapper) (st : slashState) (slashes : list Record_)
    (rate : Dec) (slashDiff : Application) : slashError + (Application * slashState) :=
  match slashes with
  | [] => inr (slashDiff, st)
  | slash :: rest =>
      let offender := Offender (rEvidence slash) in let epoch := mEpoch (evMoment (rEvidence slash)) in
      match ReadValidatorSnapshotAtEpoch epoch offender with
      | None => inl errNoSnapshot
      | Some snapshot =>
          match validators st !! offender with
          | None => inl errValidatorNotFoundDuringSlash
          | Some current =>
              match delegatorSlashApply (Delegations snapshot) (Delegations current) rate (Reporter slash) epoch slashDiff (credits st) with
              | None => inl errSlashDebtCannotBeNegative
              | Some (ds, slashDiff', paid) =>
                  let current' := withValidator (withDelegations current ds) (withStatus (wValidator current) Banned) in
                  match wrapperSanityCheck current' with
                  | Some e => inl (errSanity e)
                  | None =>
                      slashApply ReadValidatorSnapshotAtEpoch (mkSlashState (<[offender := current']> (validators st)) paid) rest rate slashDiff'
                  end
              end
          end
      end
  end.

(** ** Keys that signed both votes *)
Definition doubleSignKeys (first second : Vote) : list SerializedPublicKey :=
  filter (λ k1, Exists (λ k2, CompareBLSPublicKey k1 k2 = 0) (SignerPubKeys second)) (SignerPubKeys first).

(** ** The rate of a slash *)
Definition oneDoubleSignerRate : Dec := 2 * 10 ^ 16.

Fixpoint rateLoop (votingPower : Roster) (offender : Address) (keys : list SerializedPublicKey) (rate : Dec) : option Dec :=
  match keys with
  | [] => Some rate
  | key :: rest =>
      match Voters votingPower !! key with
      | Some card =>
          if EarningAccount card =? offender
          then rate' ← Add rate (GroupPercent card); rateLoop votingPower offender rest rate'
          else rateLoop votingPower offender rest rate
      | None => rateLoop votingPower offender rest rate
      end
  end.

Fixpoint rateRecords (votingPower : Roster) (records : list Record_) (rate : Dec) : option Dec :=
  match records with
  | [] => Some rate
  | r :: rest =>
      let ev := rEvidence r in
      rate' ← rateLoop votingPower (Offender ev) (doubleSignKeys (FirstVote ev) (SecondVote ev)) rate;
      rateRecords votingPower rest rate'
  end.

Definition slashRate (votingPower : Roster) (records : list Record_) : option Dec :=
  rate ← rateRecords votingPower records ZeroDec;
  Some (if LT rate oneDoubleSignerRate then oneDoubleSignerRate else rate).

(** ** Verification of a record *)
Class BallotLib `{BL : BLSLib} := {
  sigDeserialize : bytes → option BLSSign;
  zeroPublicKey : BLSKey;
  addPublicKey : BLSKey → BLSKey → BLSKey;
  (** [hash.FromRLPNew256] of a vote. *)
  hashVote : Vote → Hash;
}.

(** The addresses of the double-signing keys, in order. *)
Fixpoint keyAddresses (subCommittee : Committee) (keys : list SerializedPublicKey) : shardError + list Address :=
  match keys with
  | [] => inr []
  | k :: rest =>
      match AddressForBLSKey (Some subCommittee) k with
      | inl e => inl e
      | inr addr => match keyAddresses subCommittee rest with inl e => inl e | inr l => inr (addr :: l) end
      end
  end.

Section verify.
Context `{BA : BallotLib}.
Context (isStaking : Z → bool) (ReadShardState : Z → option State) (currentEpoch : Z).

Fixpoint sumKeys (keys : list SerializedPublicKey) (acc : BLSKey) : option BLSKey :=
  match keys with
  | [] => Some acc
  | k :: rest => g ← BytesToBLSPublicKey k; sumKeys rest (addPublicKey acc g)
  end.

Definition verifyBallot (m : Moment) (ballot : Vote) : option slashError :=
  match sigDeserialize (Signature ballot) with
  | None => Some errDeserialize
  | Some signature =>
      match sumKeys (SignerPubKeys ballot) zeroPublicKey with
      | None => Some errPublicKey
      | Some publicKey =>
          if VerifyHash signature publicKey (ConstructCommitPayload (isStaking (mEpoch m)) (BlockHeaderHash ballot) (Height m) (ViewID m))
          then None else Some errFailVerifySlash
      end
  end.

(** [None] is a nil error.  The length of a key, an array, is always right. *)
Definition Verify (st : gmap Address Wrapper) (candidate : Record_) : option slashError :=
  let ev := rEvidence candidate in let m := evMoment ev in
  match st !! Offender ev with
  | None => Some errValidatorNotFoundDuringSlash
  | Some wrapper =>
      if negb (isStaking (mEpoch m)) then Some errSlashBeforeStakingEpoch
      else if Status (wValidator wrapper) =? Banned then Some errAlreadyBannedValidator
      else if Offender ev =? Reporter candidate then Some errReporterAndOffenderSame
      else if BlockHeaderHash (FirstVote ev) =? BlockHeaderHash (SecondVote ev) then Some errSlashBlockNoConflict
      else
        let keys := doubleSignKeys (FirstVote ev) (SecondVote ev) in
        if decide (keys = []) then Some errNoMatchingDoubleSignKeys
        else if currentEpoch <? mEpoch m then Some errSlashFromFutureEpoch
        else match ReadShardState (mEpoch m) with
             | None => Some errReadShardState
             | Some superCommittee =>
                 match FindCommitteeByID (Some superCommittee) (mShardID m) with
                 | inl e => Some (errShard e)
                 | inr subCommittee =>
                     match keyAddresses subCommittee keys with
                     | inl e => Some (errShard e)
                     | inr addrs =>
                         if decide (1 < length addrs)%nat then Some errMultipleSigners
                         else if negb (existsb (Z.eqb (Offender ev)) addrs) then Some errOffenderMismatch
                         else if hashVote (FirstVote ev) =? hashVote (SecondVote ev) then Some errBallotsNotDiff
                         else match verifyBallot m (FirstVote ev) with
                              | Some e => Some e
                              | None => verifyBallot m (SecondVote ev)
                              end
                     end
                 end
             end
  end.
End verify.

(** ** The order of the groups of records ([applySlashes]) *)
Record keyStruct := mkKeyStruct { ksHeight : Z; ksViewID : Z; ksShardID : Z; ksEpoch : Z }.

Definition keyLess (a b : keyStruct) : bool :=
  if ksShardID a <? ksShardID b then true
  else if ksHeight a <? ksHeight b then true
  else if ksViewID a <? ksViewID b then true
  else false.

(** [sort.SliceStable] on at most 20 elements: insertion sort by adjacent swaps. *)
Fixpoint swapDown (less : keyStruct → keyStruct → bool) (revPrefix : list keyStruct) (x : keyStruct) : list keyStruct :=
  match revPrefix with
  | [] => [x]
  | y :: rest => if less x y then y :: swapDown less rest x else x :: revPrefix
  end.
Definition insertionSort (less : keyStruct → keyStruct → bool) (keys : list keyStruct) : list keyStruct :=
  reverse (foldl (swapDown less) [] keys).
Definition sortedKeys (keys : list keyStruct) : list keyStruct := insertionSort keyLess keys.

(** * Properties *)

(** ** What one delegation pays *)
Definition worth (d : Delegation) : Z := dAmount d + sumZ uAmount (Undelegations d) + dReward d.
Definition lateAmount (e : Z) (u : Undelegation) : Z := if e <=? uEpoch u then uAmount u else 0.
(** The tokens of a delegation that a slash of epoch [e] can take. *)
Definition slashable (e : Z) (d : Delegation) : Z := dAmount d + sumZ (lateAmount e) (Undelegations d) + dReward d.
Definition nonneg (d : Delegation) : Prop := 0 ≤ dAmount d ∧ 0 ≤ dReward d ∧ Forall (λ u, 0 ≤ uAmount u) (Undelegations d).

Lemma payDown_spec slashDebt now total :
  0 ≤ slashDebt → 0 ≤ now →
  let p := Z.min slashDebt now in payDownAsMuchAsCan slashDebt now total = Some (slashDebt - p, now - p, total + p).
Proof.
  intros Hd Hn p. unfold payDownAsMuchAsCan, payDebt. subst p.
  destruct (Z.ltb_spec 0 now), (Z.ltb_spec 0 slashDebt); cbn [andb]; [|by rewrite ?Z.min_l, ?Z.min_r by lia; repeat f_equal; lia..].
  destruct (Z.leb_spec slashDebt now).
  - rewrite (proj2 (Z.ltb_ge (slashDebt - slashDebt) 0)), Z.min_l by lia. cbn. done.
  - rewrite (proj2 (Z.ltb_ge (slashDebt - now) 0)), Z.min_r by lia. cbn. done.
Qed.

Lemma lateAmount_nonneg e us : Forall (λ u, 0 ≤ uAmount u) us → 0 ≤ sumZ (lateAmount e) us.
Proof.
  intros H. apply sumZ_nonneg. intros u Hu. rewrite Forall_forall in H. specialize (H u Hu). unfold lateAmount. case_match; lia.
Qed.

Lemma slashUndelegations_spec e us slashDebt total :
  0 ≤ slashDebt → Forall (λ u, 0 ≤ uAmount u) us →
  let p := Z.min slashDebt (sumZ (lateAmount e) us) in
  ∃ us', slashUndelegations e us slashDebt total = Some (slashDebt - p, us', total + p)
    ∧ sumZ uAmount us' = sumZ uAmount us - p ∧ Forall (λ u, 0 ≤ uAmount u) us'.
Proof.
  revert slashDebt total. induction us as [|u us IH]; intros slashDebt total Hd Hf p; cbn [slashUndelegations].
  { exists []. assert (p = 0) as -> by (unfold p; cbn; lia). rewrite Z.sub_0_r, Z.add_0_r. split; [done|]. split; [done|constructor]. }
  apply Forall_cons in Hf as [Hu Hf]. pose proof (lateAmount_nonneg e us Hf) as Hl.
  assert (p = Z.min slashDebt (lateAmount e u + sumZ (lateAmount e) us)) as Hp by (unfold p; by rewrite sumZ_cons). clearbody p.
  unfold lateAmount at 1 in Hp. destruct (Z.leb_spec e (uEpoch u)) as [He|He].
  - destruct (Z.leb_spec slashDebt 0).
    + exists (u :: us). assert (p = 0) as -> by lia. rewrite Z.sub_0_r, Z.add_0_r. split; [done|]. split; [lia|by constructor].
    + rewrite (payDown_spec slashDebt (uAmount u) total) by lia. cbn [mbind option_bind].
      set (q := Z.min slashDebt (uAmount u)) in *.
      destruct (IH (slashDebt - q) (total + q) ltac:(lia) Hf) as (us' & -> & Hs & Hf'). cbn [mbind option_bind].
      set (r := Z.min (slashDebt - q) (sumZ (lateAmount e) us)) in *. assert (p = q + r) as -> by lia.
      eexists. split; [do 2 f_equal; [f_equal; lia|lia]|]. split; [rewrite !sumZ_cons; cbn [uAmount]; lia|]. constructor; [cbn; lia|done].
  - destruct (IH slashDebt total Hd Hf) as (us' & -> & Hs & Hf'). cbn [mbind option_bind].
    rewrite Z.add_0_l in Hp. rewrite <-Hp in *. eexists. split; [done|]. split; [rewrite !sumZ_cons; lia|by constructor].
Qed.

Lemma slashDelegation_spec e d slashDebt total :
  0 ≤ slashDebt → nonneg d →
  let p := Z.min slashDebt (slashable e d) in
  ∃ d', slashDelegation e d slashDebt total = Some (slashDebt - p, d', total + p)
    ∧ DelegatorAddress d' = DelegatorAddress d ∧ worth d' = worth d - p ∧ nonneg d'.
Proof.
  intros Hd (Ha & Hr & Hf) p. unfold slashDelegation. rewrite payDown_spec by done. cbn [mbind option_bind].
  set (q := Z.min slashDebt (dAmount d)) in *.
  destruct (slashUndelegations_spec e (Undelegations d) (slashDebt - q) (total + q) ltac:(lia) Hf) as (us' & -> & Hs & Hf').
  cbn [mbind option_bind]. set (r := Z.min (slashDebt - q) (sumZ (lateAmount e) (Undelegations d))) in *.
  pose proof (lateAmount_nonneg e _ Hf) as Hl. unfold slashable in p. unfold nonneg, worth.
  destruct (Z.ltb_spec 0 (slashDebt - q - r)) as [Hpos|Hzero].
  - rewrite payDown_spec by lia. cbn [mbind option_bind]. set (t := Z.min (slashDebt - q - r) (dReward d)) in *.
    assert (p = q + r + t) as -> by (unfold p; lia). eexists. split; [do 2 f_equal; [f_equal; lia|lia]|].
    cbn [DelegatorAddress dAmount dReward Undelegations]. split_and!; try done; lia.
  - cbn [mbind option_bind]. assert (p = q + r) as -> by (unfold p; lia). eexists. split; [do 2 f_equal; [f_equal; lia|lia]|].
    cbn [DelegatorAddress dAmount dReward Undelegations]. split_and!; try done; lia.
Qed.

(** ** What a validator's delegators pay *)

(** What the delegator [a] has that can be taken, and in all. *)
Definition slashableOf (e : Z) (a : Address) (ds : list Delegation) : Z := sumZ (λ d, if DelegatorAddress d =? a then slashable e d else 0) ds.
Definition worthOf (a : Address) (ds : list Delegation) : Z := sumZ (λ d, if DelegatorAddress d =? a then worth d else 0) ds.

Lemma sumZ_absent (f : Delegation → Z) a ds :
  a ∉ DelegatorAddress <$> ds → sumZ (λ d, if DelegatorAddress d =? a then f d else 0) ds = 0.
Proof.
  intros Hn. apply sumZ_zero. intros d Hd. destruct (Z.eqb_spec (DelegatorAddress d) a) as [<-|]; [|done].
  destruct Hn. by apply list_elem_of_fmap_2.
Qed.

Lemma slashCurrent_absent reporter e a ds st : a ∉ DelegatorAddress <$> ds → slashCurrent reporter e a ds st = Some (ds, st).
Proof.
  induction ds as [|d ds IH]; intros Hn; cbn [slashCurrent]; [done|]. rewrite fmap_cons in Hn.
  rewrite (proj2 (Z.eqb_neq _ _)) by set_solver. rewrite IH by set_solver. done.
Qed.

(** The current delegations after the delegator [a] has paid [p]. *)
Record paidBy (e : Z) (a : Address) (p : Z) (ds ds' : list Delegation) : Prop := {
  pb_addr : DelegatorAddress <$> ds' = DelegatorAddress <$> ds;
  pb_nonneg : Forall nonneg ds';
  pb_worth : ∀ b, worthOf b ds' = worthOf b ds - if b =? a then p else 0;
  pb_slashable : ∀ b, b ≠ a → slashableOf e b ds' = slashableOf e b ds;
}.

Lemma slashCurrent_spec reporter e a ds slashDebt tr paid :
  0 ≤ slashDebt → Forall nonneg ds → NoDup (DelegatorAddress <$> ds) →
  let p := Z.min slashDebt (slashableOf e a ds) in
  ∃ ds' df new, slashCurrent reporter e a ds (mkSlashing slashDebt (mkApplication 0 0) tr paid)
      = Some (ds', mkSlashing (slashDebt - p) df (plusApplication tr (mkApplication p (p / 2))) (paid ++ new))
    ∧ 0 ≤ p ∧ paidBy e a p ds ds' ∧ Forall (λ x, x.1 = reporter) new ∧ sumZ snd new = p / 2.
Proof.
  intros Hd. induction ds as [|d ds IH]; intros Hf Hnd p.
  { exists [], (mkApplication 0 0), []. assert (p = 0) as -> by (unfold p; cbn; lia). rewrite app_nil_r, Z.sub_0_r. destruct tr.
    unfold plusApplication. cbn. rewrite !Z.add_0_r. split; [done|]. split; [done|]. split; [|split; [constructor|done]].
    split; try done. intros b. cbn. by case_match. }
  apply Forall_cons in Hf as [Hdn Hf]. rewrite fmap_cons, NoDup_cons in Hnd. destruct Hnd as [Hni Hnd]. cbn [slashCurrent].
  unfold slashableOf in p. destruct (Z.eqb_spec (DelegatorAddress d) a) as [Ha|Ha].
  - assert (p = Z.min slashDebt (slashable e d)) as Hp.
    { unfold p. rewrite sumZ_cons, sumZ_absent by (by rewrite <-Ha). rewrite Ha, Z.eqb_refl. lia. }
    assert (0 ≤ p) as Hp0. { destruct Hdn as (?&?&Hu). pose proof (lateAmount_nonneg e _ Hu). unfold slashable in Hp. lia. }
    destruct (slashDelegation_spec e d slashDebt 0 Hd Hdn) as (d' & E & Hda & Hw & Hn'). rewrite <-Hp in *. cbn [debt diff TotalSlashed].
    rewrite E. cbn [mbind option_bind debt diff TotalSlashed TotalSnitchReward track payments].
    rewrite slashCurrent_absent by (by rewrite <-Ha). cbn [mbind option_bind]. rewrite !Z.add_0_l.
    eexists (d' :: ds), _, [(reporter, p / 2)]. split; [done|]. split; [done|]. split; [|split; [by repeat constructor|unfold sumZ; cbn; lia]].
    split.
    + by rewrite !fmap_cons, Hda.
    + by constructor.
    + intros b. unfold worthOf. rewrite !sumZ_cons, Hda, Hw, Ha, (Z.eqb_sym b). destruct (a =? b); lia.
    + intros b Hb. unfold slashableOf. rewrite !sumZ_cons, Hda, Ha. by rewrite !(proj2 (Z.eqb_neq a b)) by congruence.
  - destruct (IH Hf Hnd) as (ds' & df & new & -> & Hp0 & [H1 H2 H3 H4] & Hnew & Hsum). cbn [mbind option_bind].
    assert (p = Z.min slashDebt (slashableOf e a ds)) as Hp.
    { unfold p. rewrite sumZ_cons, (proj2 (Z.eqb_neq _ a)) by done. done. }
    rewrite <-Hp in *. exists (d :: ds'), df, new. split; [done|]. split; [done|]. split; [|done]. split.
    + by rewrite !fmap_cons, H1.
    + by constructor.
    + intros b. specialize (H3 b). unfold worthOf in *. rewrite !sumZ_cons. lia.
    + intros b Hb. specialize (H4 b Hb). unfold slashableOf in *. rewrite !sumZ_cons. lia.
Qed.

Lemma paidBy_perm_eq e a p ds ds' : paidBy e a p ds ds' → NoDup (DelegatorAddress <$> ds) → NoDup (DelegatorAddress <$> ds').
Proof. by intros [-> _ _ _]. Qed.

(** What the delegation [s] of the snapshot owes and its delegator can pay. *)
Definition owes (rate : Dec) (s : Delegation) : Z := default 0 (applySlashRate (dAmount s) rate).
Definition pays (e : Z) (rate : Dec) (current : list Delegation) (s : Delegation) : Z :=
  Z.min (owes rate s) (slashableOf e (DelegatorAddress s) current).


(** ** Who is banned *)
Definition offenderOf (r : Record_) : Address := Offender (rEvidence r).

Lemma slashApply_keeps snap st slashes rate df df' st' a :
  slashApply snap st slashes rate df = inr (df', st') → a ∉ offenderOf <$> slashes → validators st' !! a = validators st !! a.
Proof.
  revert st df. induction slashes as [|r slashes IH]; intros st df E Ha; cbn [slashApply] in E; [by injection E as <- <-|].
  rewrite fmap_cons in Ha. destruct (snap _ _) as [sn|]; [|done]. destruct (validators st !! _) as [cur|] eqn:Ec; [|done].
  destruct (delegatorSlashApply _ _ _ _ _ _ _) as [[[ds df1] paid]|]; [|done]. destruct (wrapperSanityCheck _); [done|].
  rewrite (IH _ _ E) by set_solver. cbn. apply lookup_insert_ne. unfold offenderOf in Ha. set_solver.
Qed.

(** After the slashes of a block have been applied every offender is banned, with a record that
    is well formed, and the records of all other validators are as before. *)
Theorem slashApply_bans snap st slashes rate df df' st' :
  slashApply snap st slashes rate df = inr (df', st') →
  (∀ a, a ∈ offenderOf <$> slashes → ∃ w, validators st' !! a = Some w ∧ Status (wValidator w) = Banned ∧ wrapperOk w)
  ∧ ∀ a, a ∉ offenderOf <$> slashes → validators st' !! a = validators st !! a.
Proof.
  intros E. split; [|intros a; by eapply slashApply_keeps].
  revert st df E. induction slashes as [|r slashes IH]; intros st df E a Ha; [by apply elem_of_nil in Ha|]. cbn [slashApply] in E.
  destruct (snap _ _) as [sn|]; [|done]. destruct (validators st !! _) as [cur|] eqn:Ec; [|done].
  destruct (delegatorSlashApply _ _ _ _ _ _ _) as [[[ds df1] paid]|]; [|done].
  destruct (wrapperSanityCheck _) eqn:Es; [done|]. rewrite fmap_cons in Ha.
  destruct (decide (a ∈ offenderOf <$> slashes)) as [Hin|Hout]; [by eapply IH|].
  apply elem_of_cons in Ha as [->|]; [|done]. rewrite (slashApply_keeps _ _ _ _ _ _ _ _ E Hout). cbn [validators].
  eexists. split; [apply lookup_insert_eq|]. split; [done|]. by apply SanityCheck_spec.
Qed.

(** ** Verification *)
Lemma keyAddresses_length c keys addrs : keyAddresses c keys = inr addrs → length addrs = length keys.
Proof.
  revert addrs. induction keys as [|k keys IH]; intros addrs E; cbn [keyAddresses] in E; [by injection E as <-|].
  destruct (AddressForBLSKey _ k); [done|]. destruct (keyAddresses c keys) as [|l]; [done|]. injection E as <-. cbn. f_equal. by apply IH.
Qed.

Section verification.
Context `{BA : BallotLib}.
Context (isStaking : Z → bool) (ReadShardState : Z → option State) (currentEpoch : Z).

(** A verified record accuses a validator that is not banned, other than the reporter, of
    signing two different headers of one past or present staking epoch, with the same single key
    of the committee, and both signatures are valid for the headers. *)
Theorem Verify_sound st r :
  Verify isStaking ReadShardState currentEpoch st r = None →
  let ev := rEvidence r in let m := evMoment ev in
  ∃ w k ss c,
    st !! Offender ev = Some w ∧ Status (wValidator w) ≠ Banned ∧ Offender ev ≠ Reporter r
    ∧ isStaking (mEpoch m) = true ∧ mEpoch m ≤ currentEpoch
    ∧ BlockHeaderHash (FirstVote ev) ≠ BlockHeaderHash (SecondVote ev)
    ∧ k ∈ SignerPubKeys (FirstVote ev) ∧ k ∈ SignerPubKeys (SecondVote ev)
    ∧ ReadShardState (mEpoch m) = Some ss ∧ FindCommitteeByID (Some ss) (mShardID m) = inr c
    ∧ AddressForBLSKey (Some c) k = inr (Offender ev)
    ∧ verifyBallot isStaking m (FirstVote ev) = None ∧ verifyBallot isStaking m (SecondVote ev) = None.
Proof.
  intros E ev m. unfold Verify in E. fold ev in E. fold m in E. destruct (st !! Offender ev) as [w|] eqn:Ew; [|done].
  destruct (isStaking (mEpoch m)) eqn:Est; [|done]. cbn [negb] in E. destruct (Z.eqb_spec (Status (wValidator w)) Banned); [done|].
  destruct (Z.eqb_spec (Offender ev) (Reporter r)); [done|].
  destruct (Z.eqb_spec (BlockHeaderHash (FirstVote ev)) (BlockHeaderHash (SecondVote ev))); [done|].
  case_decide as Hk; [done|]. destruct (Z.ltb_spec currentEpoch (mEpoch m)); [done|].
  destruct (ReadShardState (mEpoch m)) as [ss|]; [|done]. destruct (FindCommitteeByID _ _) as [|c] eqn:Ec; [done|].
  destruct (keyAddresses c _) as [|addrs] eqn:Ea; [done|]. case_decide as Hlen; [done|].
  destruct (existsb (Z.eqb (Offender ev)) addrs) eqn:Ex; [|done]. cbn [negb] in E. case_match; [done|].
  destruct (verifyBallot isStaking m (FirstVote ev)) eqn:E1; [done|].
  destruct (doubleSignKeys (FirstVote ev) (SecondVote ev)) as [|k [|k' ks]] eqn:Ek; [done| |apply keyAddresses_length in Ea; cbn in Ea; lia].
  assert (k ∈ doubleSignKeys (FirstVote ev) (SecondVote ev)) as Hin by (rewrite Ek; set_solver).
  unfold doubleSignKeys in Hin. apply list_elem_of_filter in Hin as [(k2 & Hk2 & Hcmp)%Exists_exists Hk1].
  assert (k = k2) as <-.
  { unfold CompareBLSPublicKey, bytesCompare in Hcmp. destruct (Z.compare_spec k k2); done. }
  assert (AddressForBLSKey (Some c) k = inr (Offender ev)) as Haddr.
  { cbn [keyAddresses] in Ea. destruct (AddressForBLSKey (Some c) k) as [|a]; [done|]. injection Ea as <-. cbn in Ex.
    rewrite orb_false_r in Ex. apply Z.eqb_eq in Ex. by rewrite Ex. }
  exists w, k, ss, c. by split_and!.
Qed.

(** A validator that signed both headers with two of its keys cannot be slashed: the record is
    rejected for naming several signers although all of them are the offender. *)
Theorem Verify_several_keys st r w ss c addrs :
  let ev := rEvidence r in let m := evMoment ev in let keys := doubleSignKeys (FirstVote ev) (SecondVote ev) in
  st !! Offender ev = Some w → Status (wValidator w) ≠ Banned → Offender ev ≠ Reporter r →
  isStaking (mEpoch m) = true → mEpoch m ≤ currentEpoch → BlockHeaderHash (FirstVote ev) ≠ BlockHeaderHash (SecondVote ev) →
  ReadShardState (mEpoch m) = Some ss → FindCommitteeByID (Some ss) (mShardID m) = inr c →
  keyAddresses c keys = inr addrs → (1 < length keys)%nat → Forall (λ a, a = Offender ev) addrs →
  Verify isStaking ReadShardState currentEpoch st r = Some errMultipleSigners.
Proof.
  intros ev m keys Hw Hb Hne Hs He Hh Hss Hc Ha Hlen _. unfold Verify. fold ev m. rewrite Hw, Hs. cbn [negb].
  rewrite !(proj2 (Z.eqb_neq _ _)) by done. fold keys. rewrite decide_False by (intros Hn; rewrite Hn in Hlen; cbn in Hlen; lia).
  rewrite (proj2 (Z.ltb_ge _ _)) by done. rewrite Hss, Hc, Ha. apply keyAddresses_length in Ha. by rewrite decide_True by lia.
Qed.
End verification.

(** ** The order of the groups *)

(** The comparison by which the groups of records are sorted is not an order: of two groups, the
    one of the smaller shard and the one of the smaller height are each less than the other, and
    sorting swaps them, so that the order in which they are slashed depends on the iteration
    order of a Go map. *)
Theorem slash_groups_unordered a b :
  ksShardID a < ksShardID b → ksHeight b < ksHeight a →
  keyLess a b = true ∧ keyLess b a = true ∧ sortedKeys [a; b] = [b; a] ∧ sortedKeys [b; a] = [a; b].
Proof.
  intros Hs Hh.
  assert (keyLess a b = true) as Hab by (unfold keyLess; by rewrite (proj2 (Z.ltb_lt _ _))).
  assert (keyLess b a = true) as Hba.
  { unfold keyLess. destruct (ksShardID b <? ksShardID a); [done|]. by rewrite (proj2 (Z.ltb_lt _ _)). }
  split_and!; try done; unfold sortedKeys, insertionSort; cbn; by rewrite ?Hab, ?Hba.
Qed.

(** ** A concrete slash *)
Definition demoCurrent : list Delegation :=
  [mkDelegation 1 (25000 * one) (2 ^ 64) []; mkDelegation 50 (10 * one) 7 [mkUndelegation (400 * one) 3; mkUndelegation (20 * one) 9]].
Definition demoNow : Wrapper := withDelegations (demoWrapper 1 [5; 6]) demoCurrent.
Definition demoSnapshot : list Delegation := Delegations (demoWrapper 1 [5; 6]).

Lemma demoCurrent_nonneg : Forall nonneg demoCurrent.
Proof.
  unfold demoCurrent, nonneg. repeat constructor; cbn [dAmount dReward uAmount]; unfold one, oneAsBigInt; lia.
Qed.


#[local] Existing Instances demoBLS.
Definition demoBallots : BallotLib := {|
  sigDeserialize b := match b with [s] => Some (s : BLSSign) | _ => None end;
  zeroPublicKey := (0 : @BLSKey demoBLS); addPublicKey (x y : Z) := (x + y : BLSKey); hashVote v := BlockHeaderHash v; |}.
#[local] Existing Instances demoBallots.

Definition demoEvidence (keys : list SerializedPublicKey) : Evidence :=
  mkEvidence (mkMoment 8 1 100 101) (mkBallotVote keys 77 [sumZ (λ x, x) keys + 1]) (mkBallotVote keys 78 [sumZ (λ x, x) keys + 1]) 1.
Definition demoRecord (keys : list SerializedPublicKey) : Record_ := mkRecord (demoEvidence keys) 9.
Definition demoSuper : State := mkState (Some 8) [mkCommittee 1 [mkSlot 1 5 (Some 3); mkSlot 1 6 (Some 3)]] [].
Definition demoValidators : gmap Address Wrapper := {[1 := demoNow]}.
Definition verifyDemo : Record_ → option slashError :=
  Verify (λ _, true) (λ e, if e =? 8 then Some demoSuper else None) 9 demoValidators.

Lemma Verify_sound_witness :
  verifyDemo (demoRecord [5]) = None ∧ ∃ k, k ∈ [5] ∧ ∃ c, AddressForBLSKey (Some c) k = inr 1.
Proof.
  assert (verifyDemo (demoRecord [5]) = None) as E by (vm_compute; reflexivity). split; [exact E|].
  destruct (Verify_sound (λ _, true) (λ e, if e =? 8 then Some demoSuper else None) 9 demoValidators (demoRecord [5]) E)
    as (w & k & ss & c & _ & _ & _ & _ & _ & _ & Hk & _ & _ & _ & Ha & _).
  exists k. split; [exact Hk|]. exists c. exact Ha.
Defined.

Lemma Verify_several_keys_witness : verifyDemo (demoRecord [5; 6]) = Some errMultipleSigners.
Proof.
  apply (Verify_several_keys (λ _, true) (λ e, if e =? 8 then Some demoSuper else None) 9 demoValidators (demoRecord [5; 6])
    demoNow demoSuper (mkCommittee 1 [mkSlot 1 5 (Some 3); mkSlot 1 6 (Some 3)]) [1; 1]); try reflexivity; try discriminate.
  - vm_compute. lia.
  - repeat constructor.
Defined.

Definition demoSnapshots (e : Z) (a : Address) : option Wrapper := if a =? 1 then Some (demoWrapper 1 [5; 6]) else None.

Lemma slashApply_bans_witness :
  ∃ df st, slashApply demoSnapshots (mkSlashState demoValidators []) [demoRecord [5]] (2 * 10 ^ 16) (mkApplication 0 0) = inr (df, st)
    ∧ ∃ w, validators st !! 1 = Some w ∧ Status (wValidator w) = Banned.
Proof.
  assert (match slashApply demoSnapshots (mkSlashState demoValidators []) [demoRecord [5]] (2 * 10 ^ 16) (mkApplication 0 0) with
          | inr _ => true | inl _ => false end = true) as Hok by (vm_compute; reflexivity).
  destruct (slashApply _ _ _ _ _) as [|[df st]] eqn:E; [discriminate Hok|]. exists df, st. split; [done|].
  destruct (slashApply_bans _ _ _ _ _ _ _ E) as [Hb _]. clear E Hok.
  destruct (Hb 1) as (w & Hw & Hs & _); [apply list_elem_of_singleton; reflexivity|].
  exists w. split; [exact Hw|exact Hs].
Defined.

Lemma slash_groups_unordered_witness :
  sortedKeys [mkKeyStruct 9 1 0 8; mkKeyStruct 5 1 1 8] = [mkKeyStruct 5 1 1 8; mkKeyStruct 9 1 0 8].
Proof. apply (slash_groups_unordered (mkKeyStruct 9 1 0 8) (mkKeyStruct 5 1 1 8)); cbn; lia. Defined.
