(* ===== verification/Rewards.v ===== *)
(** * Rewards and payouts ([AddReward] of core/state/statedb.go, internal/chain)

    What a block pays to validators and delegators: the reward of a signed block, split between
    the commission and the delegators by their share of the stake of the snapshot, and, at the
    end of an epoch, the undelegations that are unlocked.  The validators are those of the state,
    changed in place; calls of [AddBalance] are listed in order ([Slash.v]). *)

From Stdlib Require Import ZArith Lia Sorted.
From stdpp Require Import base gmap list option sets sorting.
From S2P Require Import Prelude Decimal ShardState Effective Staking Slash.
Local Open Scope Z_scope.

(** ** Shares ([lookupDelegatorShares]); the cache holds results of the same function *)
Fixpoint sharesLoop (total : Dec) (ds : list Delegation) (result : gmap Address Dec) : option (gmap Address Dec) :=
  match ds with
  | [] => Some result
  | d :: rest =>
      a ← NewDecFromBigInt (dAmount d);
      percentage ← Quo a total;
      sharesLoop total rest (<[DelegatorAddress d := percentage]> result)
  end.

Definition lookupDelegatorShares (snapshot : Wrapper) : option (gmap Address Dec) :=
  total ← NewDecFromBigInt (TotalDelegation snapshot);
  if IsZero total then Some ∅ else sharesLoop total (Delegations snapshot) ∅.

(** ** [AddReward] *)

(** [Delegations[i].Reward.Add(...)], which panics out of range. *)
Definition creditReward (i : nat) (r : Z) (w : Wrapper) : option Wrapper :=
  d ← Delegations w !! i; Some (withDelegations w (<[i := withReward d (dReward d + r)]> (Delegations w))).

Definition withBlockReward (w : Wrapper) (r : Z) : Wrapper := mkWrapper (wValidator w) (Delegations w) (wCounters w) r.

(** The loop over the snapshot's delegations: the record, and what is left of the pool; a missing
    share ends it early ([inl]). *)
Fixpoint rewardLoop (shareLookup : gmap Address Dec) (totalRewardForDelegators : Z) (i : nat) (snapshot : list Delegation)
    (w : Wrapper) (rewardPool : Z) : option (Wrapper + Wrapper * Z) :=
  match snapshot with
  | [] => Some (inr (w, rewardPool))
  | d :: rest =>
      match shareLookup !! DelegatorAddress d with
      | None => Some (inl w)
      | Some percentage =>
          m ← MulInt percentage totalRewardForDelegators;
          let rewardInt := RoundInt m in
          w' ← creditReward i rewardInt w;
          rewardLoop shareLookup totalRewardForDelegators (S i) rest w' (rewardPool - rewardInt)
      end
  end.

(** [None] is a panic; otherwise whether the call reports an error, and the validators.  The
    error of a missing share wraps a nil error, so that it is reported as success. *)
Definition AddReward (st : gmap Address Wrapper) (snapshot : Wrapper) (reward : Z) (shareLookup : gmap Address Dec)
    : option (bool * gmap Address Wrapper) :=
  if reward =? 0 then Some (false, st)
  else
    let addr := vAddress (wValidator snapshot) in
    match st !! addr with
    | None => Some (true, st)
    | Some curValidator =>
        if Status (wValidator curValidator) =? Banned then Some (false, st)
        else
          let w0 := withBlockReward curValidator (BlockReward curValidator + reward) in
          '(w1, rewardPool) ← (if GT (vRate (wValidator snapshot)) ZeroDec then
              m ← MulInt (vRate (wValidator snapshot)) reward;
              w1 ← creditReward 0 (RoundInt m) w0;
              Some (w1, reward - RoundInt m)
            else Some (w0, reward));
          res ← rewardLoop shareLookup rewardPool 0 (Delegations snapshot) w1 rewardPool;
          match res with
          | inl w2 => Some (false, <[addr := w2]> st)
          | inr (w2, rewardPool') =>
              if 0 <? rewardPool' then w3 ← creditReward 0 rewardPool' w2; Some (false, <[addr := w3]> st)
              else Some (false, <[addr := w2]> st)
          end
    end.

(** ** Payout of undelegations at the end of an epoch *)
Definition GetLockPeriodInEpoch (isRedelegation isQuickUnlock : bool) : Z :=
  if isRedelegation then LockPeriodInEpoch else if isQuickUnlock then LockPeriodInEpochV2 else LockPeriodInEpoch.

Fixpoint payoutDelegations (epoch last lockPeriod : Z) (noEarlyUnlock : bool) (ds : list Delegation) (paid : list (Address * Z))
    : list Delegation * list (Address * Z) :=
  match ds with
  | [] => ([], paid)
  | d :: rest =>
      let '(totalWithdraw, d') := RemoveUnlockedUndelegations d epoch last lockPeriod noEarlyUnlock in
      let paid' := if Z.sgn totalWithdraw =? 0 then paid else paid ++ [(DelegatorAddress d', totalWithdraw)] in
      let '(rest', paid'') := payoutDelegations epoch last lockPeriod noEarlyUnlock rest paid' in
      (d' :: rest', paid'')
  end.

(** [None] is the error of a validator that is not in the state. *)
Fixpoint payoutLoop (epoch lockPeriod : Z) (noEarlyUnlock : bool) (addrs : list Address) (st : slashState) : option slashState :=
  match addrs with
  | [] => Some st
  | a :: rest =>
      wrapper ← validators st !! a;
      let '(ds, paid) := payoutDelegations epoch (LastEpochInCommittee (wValidator wrapper)) lockPeriod noEarlyUnlock
                           (Delegations wrapper) (credits st) in
      payoutLoop epoch lockPeriod noEarlyUnlock rest (mkSlashState (<[a := withDelegations wrapper ds]> (validators st)) paid)
  end.

Definition payoutUndelegations (ReadValidatorList : option (list Address)) (isRedelegation isQuickUnlock noEarlyUnlock : bool)
    (epoch : Z) (st : slashState) : option slashState :=
  addrs ← ReadValidatorList;
  payoutLoop epoch (GetLockPeriodInEpoch isRedelegation isQuickUnlock) noEarlyUnlock addrs st.

(** ** Newly elected validators ([setElectionEpochAndMinFee]) *)
Record electionState := mkElectionState { elValidators : gmap Address Wrapper; firstElection : gmap Address Z }.

Definition withLastEpoch (v : Validator) (e : Z) : Validator :=
  mkValidator (vAddress v) (SlotPubKeys v) e (MinSelfDelegation v) (MaxTotalDelegation v)
    (Status v) (vCommission v) (vDescription v) (CreationHeight v).

(** [SetValidatorFirstElectionEpoch]: only when it is not set. *)
Definition SetValidatorFirstElectionEpoch (m : gmap Address Z) (a : Address) (epoch : Z) : gmap Address Z :=
  if u64 (default 0 (m !! a)) =? 0 then <[a := epoch]> m else m.

Fixpoint electLoop (epoch : Z) (isMinCommissionRate : bool) (promoPeriod : Z) (addrs : list Address) (st : electionState)
    : option electionState :=
  match addrs with
  | [] => Some st
  | a :: rest =>
      wrapper ← elValidators st !! a;
      let vs := <[a := withValidator wrapper (withLastEpoch (wValidator wrapper) epoch)]> (elValidators st) in
      if isMinCommissionRate then
        let fe := SetValidatorFirstElectionEpoch (firstElection st) a epoch in
        match UpdateMinimumCommissionFee (λ x, default 0 (fe !! x)) epoch vs a (i64 promoPeriod) with
        | inl _ => None
        | inr vs' => electLoop epoch isMinCommissionRate promoPeriod rest (mkElectionState vs' fe)
        end
      else electLoop epoch isMinCommissionRate promoPeriod rest (mkElectionState vs (firstElection st))
  end.

Definition setElectionEpochAndMinFee (newShardState : option State) (IsMinCommissionRate : Z → bool) (promoPeriod : Z)
    (st : electionState) : option electionState :=
  ss ← newShardState;
  staked ← stateStakedValidators ss;
  let epoch := default 0 (Epoch ss) in
  electLoop epoch (IsMinCommissionRate epoch) promoPeriod (Addrs staked) st.

(** * Properties *)

(** ** Rewards *)
Definition rewardsOf (w : Wrapper) : Z := sumZ dReward (Delegations w).
(** The delegations up to their rewards. *)
Definition stakesOf (w : Wrapper) : list (Address * Z * list Undelegation) :=
  (λ d, (DelegatorAddress d, dAmount d, Undelegations d)) <$> Delegations w.

Lemma creditReward_ok i r w w' :
  creditReward i r w = Some w' →
  rewardsOf w' = rewardsOf w + r ∧ stakesOf w' = stakesOf w ∧ wValidator w' = wValidator w ∧ BlockReward w' = BlockReward w.
Proof.
  unfold creditReward. intros (d & Hd & [= <-])%bind_Some. unfold rewardsOf, stakesOf. cbn [withDelegations Delegations wValidator BlockReward].
  rewrite (sumZ_update _ _ _ _ _ Hd). cbn [withReward dReward]. split; [lia|]. split; [|done].
  rewrite list_fmap_insert. cbn. apply list_insert_id. by rewrite list_lookup_fmap, Hd.
Qed.

(** The rounded share of a delegation of the snapshot. *)
Definition shareOfReward (shares : gmap Address Dec) (pool : Z) (d : Delegation) : Z :=
  RoundInt (default 0 (shares !! DelegatorAddress d) * pool).

Lemma rewardLoop_ok shares total i snapshot w pool w' pool' :
  rewardLoop shares total i snapshot w pool = Some (inr (w', pool')) →
  rewardsOf w' = rewardsOf w + sumZ (shareOfReward shares total) snapshot ∧ pool' = pool - sumZ (shareOfReward shares total) snapshot
  ∧ stakesOf w' = stakesOf w ∧ wValidator w' = wValidator w ∧ BlockReward w' = BlockReward w.
Proof.
  revert i w pool. induction snapshot as [|d snapshot IH]; intros i w pool E; cbn [rewardLoop] in E.
  - injection E as <- <-. change (sumZ _ []) with 0. split_and!; try done; lia.
  - destruct (shares !! DelegatorAddress d) as [p|] eqn:Ep; [|done]. apply bind_Some in E as (m & Hm & E).
    apply checkBits_inv in Hm as [-> _]. apply bind_Some in E as (w1 & Hw1 & E).
    destruct (creditReward_ok _ _ _ _ Hw1) as (H1 & H2 & H3 & H4). destruct (IH _ _ _ E) as (H5 & H6 & H7 & H8 & H9).
    rewrite sumZ_cons. assert (shareOfReward shares total d = RoundInt (p * total)) as -> by (unfold shareOfReward; by rewrite Ep).
    split_and!; try congruence; lia.
Qed.

Lemma rewardLoop_missing shares total i snapshot w pool w' :
  rewardLoop shares total i snapshot w pool = Some (inl w') → ∃ d, d ∈ snapshot ∧ shares !! DelegatorAddress d = None.
Proof.
  revert i w pool. induction snapshot as [|d snapshot IH]; intros i w pool E; cbn [rewardLoop] in E; [done|].
  destruct (shares !! DelegatorAddress d) as [p|] eqn:Ep; [|exists d; set_solver].
  apply bind_Some in E as (m & _ & E). apply bind_Some in E as (w1 & _ & E). destruct (IH _ _ _ E) as (x & Hx & ?). exists x. set_solver.
Qed.

(** The commission of a reward. *)
Definition commissionOf (snapshot : Wrapper) (reward : Z) : Z :=
  if GT (vRate (wValidator snapshot)) ZeroDec then RoundInt (vRate (wValidator snapshot) * reward) else 0.

(** A reward is distributed in full: the rewards of the delegations grow by exactly the reward,
    and by what the rounded shares exceed the delegators' part, which nobody pays for; the stakes
    do not change, and nobody else's record does. *)
Theorem AddReward_pays st snapshot cur reward shares e st' :
  st !! vAddress (wValidator snapshot) = Some cur → reward ≠ 0 → Status (wValidator cur) ≠ Banned →
  (∀ d, d ∈ Delegations snapshot → is_Some (shares !! DelegatorAddress d)) →
  AddReward st snapshot reward shares = Some (e, st') →
  let pool := reward - commissionOf snapshot reward in
  let given := sumZ (shareOfReward shares pool) (Delegations snapshot) in
  e = false ∧ ∃ w', st' = <[vAddress (wValidator snapshot) := w']> st
    ∧ rewardsOf w' = rewardsOf cur + reward + Z.max 0 (given - pool)
    ∧ BlockReward w' = BlockReward cur + reward ∧ stakesOf w' = stakesOf cur ∧ wValidator w' = wValidator cur.
Proof.
  intros Hcur Hr Hb Hsh E pool given. unfold AddReward in E. rewrite (proj2 (Z.eqb_neq _ _)), Hcur in E by done.
  rewrite (proj2 (Z.eqb_neq (Status _) _)) in E by done. apply bind_Some in E as ([w1 pool1] & Hc & E).
  assert (pool1 = pool ∧ rewardsOf w1 = rewardsOf cur + commissionOf snapshot reward ∧ stakesOf w1 = stakesOf cur
    ∧ wValidator w1 = wValidator cur ∧ BlockReward w1 = BlockReward cur + reward) as (-> & H1 & H2 & H3 & H4).
  { unfold pool, commissionOf. destruct (GT _ ZeroDec).
    - apply bind_Some in Hc as (m & Hm & Hc). apply checkBits_inv in Hm as [-> _]. apply bind_Some in Hc as (w & Hw & [= <- <-]).
      destruct (creditReward_ok _ _ _ _ Hw) as (? & ? & ? & ?). done.
    - injection Hc as <- <-. split_and!; try done; [lia|]. unfold rewardsOf. cbn [withBlockReward Delegations]. lia. }
  apply bind_Some in E as ([wm|[w2 pool2]] & Hl & E).
  { destruct (rewardLoop_missing _ _ _ _ _ _ _ Hl) as (d & Hd & Hn). destruct (Hsh d Hd) as [? Hs]. congruence. }
  destruct (rewardLoop_ok _ _ _ _ _ _ _ _ Hl) as (H5 & H6 & H7 & H8 & H9). fold given in H5, H6.
  destruct (Z.ltb_spec 0 pool2).
  - apply bind_Some in E as (w3 & Hw3 & [= <- <-]). destruct (creditReward_ok _ _ _ _ Hw3) as (Ha & Hbb & Hcc & Hdd).
    split; [done|]. exists w3. split_and!; try congruence. lia.
  - injection E as <- <-. split; [done|]. exists w2. split_and!; try congruence. lia.
Qed.

(** When the share of the first delegation is missing, nobody is paid beyond the commission,
    but the reward is counted as paid and the call reports success. *)
Theorem AddReward_missing_share st snapshot cur reward shares d rest :
  st !! vAddress (wValidator snapshot) = Some cur → reward ≠ 0 → Status (wValidator cur) ≠ Banned →
  Delegations snapshot = d :: rest → shares !! DelegatorAddress d = None → vRate (wValidator snapshot) = 0 →
  AddReward st snapshot reward shares
    = Some (false, <[vAddress (wValidator snapshot) := withBlockReward cur (BlockReward cur + reward)]> st).
Proof.
  intros Hcur Hr Hb Hd Hs Hrate. unfold AddReward. rewrite (proj2 (Z.eqb_neq _ _)), Hcur by done.
  rewrite (proj2 (Z.eqb_neq (Status _) _)), Hrate, Hd by done. cbn [GT Z.compare ZeroDec mbind option_bind rewardLoop]. by rewrite Hs.
Qed.

(** ** Payouts *)
Definition lockedStake (d : Delegation) : Z := dAmount d + sumZ uAmount (Undelegations d).
Definition recordStake (w : Wrapper) : Z := sumZ lockedStake (Delegations w).
(** The staked tokens of all validators. *)
Definition allStake (m : gmap Address Wrapper) : Z := map_sum (λ _ w, recordStake w) m.

Lemma unlockLoop_conserves p us acc : let '(t, us') := unlockLoop p us acc in t + sumZ uAmount us' = acc + sumZ uAmount us.
Proof.
  revert acc. induction us as [|u us IH]; intros acc; cbn [unlockLoop]; [done|]. destruct (p u); [|done].
  specialize (IH (acc + uAmount u)). destruct (unlockLoop p us (acc + uAmount u)). rewrite sumZ_cons. lia.
Qed.

Lemma payoutDelegations_conserves epoch last lock early ds paid :
  let '(ds', paid') := payoutDelegations epoch last lock early ds paid in
  sumZ lockedStake ds' + sumZ snd paid' = sumZ lockedStake ds + sumZ snd paid
  ∧ (λ d, (DelegatorAddress d, dAmount d, dReward d)) <$> ds' = (λ d, (DelegatorAddress d, dAmount d, dReward d)) <$> ds.
Proof.
  revert paid. induction ds as [|d ds IH]; intros paid; cbn [payoutDelegations]; [done|]. unfold RemoveUnlockedUndelegations.
  pose proof (unlockLoop_conserves (unlocked epoch last lock early) (Undelegations d) 0) as Hc. destruct (unlockLoop _ _ _) as [t us].
  set (paid1 := if Z.sgn t =? 0 then paid else _). specialize (IH paid1).
  destruct (payoutDelegations epoch last lock early ds paid1) as [ds' paid']. destruct IH as [H1 H2].
  assert (sumZ snd paid1 = sumZ snd paid + t) as Hp.
  { unfold paid1. destruct (Z.eqb_spec (Z.sgn t) 0); [assert (t = 0) by lia; lia|]. rewrite sumZ_app, sumZ_cons. change (sumZ _ []) with 0. cbn. lia. }
  split; [|by rewrite !fmap_cons, H2]. rewrite !sumZ_cons. unfold lockedStake at 1 3. cbn [withUndelegations dAmount Undelegations]. lia.
Qed.

Lemma payoutLoop_conserves epoch lock early l st st' :
  payoutLoop epoch lock early l st = Some st' →
  allStake (validators st') + sumZ snd (credits st') = allStake (validators st) + sumZ snd (credits st)
  ∧ ∀ a, (λ w, (wValidator w, (λ d, (DelegatorAddress d, dAmount d, dReward d)) <$> Delegations w)) <$> validators st' !! a
       = (λ w, (wValidator w, (λ d, (DelegatorAddress d, dAmount d, dReward d)) <$> Delegations w)) <$> validators st !! a.
Proof.
  revert st. induction l as [|a l IH]; intros st E; cbn [payoutLoop] in E; [by injection E as <-|].
  apply bind_Some in E as (w & Hw & E).
  pose proof (payoutDelegations_conserves epoch (LastEpochInCommittee (wValidator w)) lock early (Delegations w) (credits st)) as Hc.
  destruct (payoutDelegations _ _ _ _ _ _) as [ds paid]. destruct Hc as [H1 H2]. destruct (IH _ E) as [H3 H4].
  cbn [validators credits] in *. split.
  - rewrite H3. unfold allStake. rewrite (map_sum_update _ _ _ _ _ Hw). unfold recordStake at 2 3. cbn [withDelegations Delegations]. lia.
  - intros b. rewrite H4. destruct (decide (a = b)) as [<-|Hne].
    + rewrite lookup_insert_eq, Hw. cbn. by rewrite H2.
    + by rewrite lookup_insert_ne.
Qed.

(** Paying out the unlocked undelegations conserves tokens: what the delegators receive is what
    the records lose, no delegation and no reward changes. *)
Theorem payout_conserves addrs redel quick early epoch st st' :
  payoutUndelegations addrs redel quick early epoch st = Some st' →
  allStake (validators st') + sumZ snd (credits st') = allStake (validators st) + sumZ snd (credits st)
  ∧ ∀ a, (λ w, (wValidator w, (λ d, (DelegatorAddress d, dAmount d, dReward d)) <$> Delegations w)) <$> validators st' !! a
       = (λ w, (wValidator w, (λ d, (DelegatorAddress d, dAmount d, dReward d)) <$> Delegations w)) <$> validators st !! a.
Proof. unfold payoutUndelegations. intros (l & _ & E)%bind_Some. exact (payoutLoop_conserves _ _ _ _ _ _ E). Qed.

(** ** Concrete payments *)
Definition demoThree : Wrapper :=
  mkWrapper (demoValidator 1 [5]) [NewDelegation 1 (20000 * one); NewDelegation 2 (20000 * one); NewDelegation 3 (20000 * one)]
    (mkCounters 0 0) 0.
Definition demoShares : gmap Address Dec := default ∅ (lookupDelegatorShares demoThree).
Definition demoPayState : gmap Address Wrapper := {[1 := demoThree]}.

(** A reward of 2 to three equal delegators, at a commission of 10 percent, pays 3. *)
Lemma AddReward_pays_witness :
  ∃ st' w', AddReward demoPayState demoThree 2 demoShares = Some (false, st') ∧ st' = <[1 := w']> demoPayState
    ∧ rewardsOf demoThree = 0 ∧ rewardsOf w' = 3.
Proof.
  assert (is_Some (AddReward demoPayState demoThree 2 demoShares)) as [[e st'] E] by (vm_compute; eauto).
  destruct (AddReward_pays demoPayState demoThree demoThree 2 demoShares e st' eq_refl ltac:(discriminate) ltac:(discriminate)) as (-> & w' & -> & Hr & _).
  - intros d Hd. assert (Forall (λ d, is_Some (demoShares !! DelegatorAddress d)) (Delegations demoThree)) as H.
    { repeat constructor; vm_compute; eauto. }
    rewrite Forall_forall in H. by apply H.
  - exact E.
  - exists (<[1 := w']> demoPayState), w'. split; [exact E|]. split; [reflexivity|]. split; [reflexivity|]. rewrite Hr. vm_compute. reflexivity.
Defined.

Definition demoFree : Wrapper := withValidator demoThree (withRate (wValidator demoThree) 0).

Lemma AddReward_missing_share_witness :
  AddReward demoPayState demoFree 50 ∅ = Some (false, <[1 := withBlockReward demoThree 50]> demoPayState).
Proof.
  apply (AddReward_missing_share demoPayState demoFree demoThree 50 ∅ (NewDelegation 1 (20000 * one))
    [NewDelegation 2 (20000 * one); NewDelegation 3 (20000 * one)]); try reflexivity; discriminate.
Defined.

Definition demoPayouts : slashState := mkSlashState demoStore [].

Lemma payout_conserves_witness :
  ∃ st', payoutUndelegations (Some [1]) true false true 12 demoPayouts = Some st' ∧ credits st' = [(50, 400 * one)]
    ∧ allStake (validators st') + 400 * one = allStake demoStore.
Proof.
  assert (is_Some (payoutUndelegations (Some [1]) true false true 12 demoPayouts)) as [st' E] by (vm_compute; eauto).
  assert (credits st' = [(50, 400 * one)]) as Hc by (vm_compute in E; injection E as <-; reflexivity).
  exists st'. split; [exact E|]. split; [exact Hc|].
  destruct (payout_conserves _ _ _ _ _ _ _ E) as [H _]. rewrite Hc in H. clear E. change (sumZ snd (credits demoPayouts)) with 0 in H.
  change (sumZ snd [(50, 400 * one)]) with (400 * one + 0) in H. change (validators demoPayouts) with demoStore in H.
  rewrite !Z.add_0_r in H. exact H.
Defined.
