(* ===== verification/BlockReward.v ===== *)
(** * The rewards of a block and its finalisation (internal/chain/reward.go, internal/chain/engine.go)

    What a block pays, and the order of the state changes that end it.  Before staking the
    signers of the parent share a fixed amount, credited to their accounts; in the staking era
    the beacon chain pays the signers of every cross link and of its own parent block through
    their validators, and counts who signed.  [Finalize] releases undelegations, marks the newly
    elected and the absent validators before that at the end of an epoch, and applies the slashes
    afterwards.

    The actions below work on the validators, the calls of [AddBalance], the first election epochs
    and the two caches of reward.go, and end in a result, an error or a panic; the state of a
    failed action is dropped with the block.  The calls of [AddBalance] are listed here and run
    on the accounts in [BlockPayout].  The channel [sigsReady] is what is received from
    it, [None] at the timeout; the header has its commit bitmap by then. *)

From Stdlib Require Import ZArith Lia.
From stdpp Require Import base gmap list option sets.
From S2P Require Import Prelude Decimal Mask ShardState Epochs Votepower Quorum Effective Staking Committee Engine Slash Rewards.
Local Open Scope Z_scope.

(** ** Constants (staking/reward/values.go) *)
Definition nano : Z := 10 ^ 9.
Definition PreStakedBlocks : Z := 24 * one.
Definition StakedBlocks : Dec := default 0 (NewDecFromBigInt (28 * one)).
Definition FiveSecStakedBlocks : Dec := default 0 (NewDecFromBigInt (17500000000 * nano)).
Definition TwoSecStakedBlocks : Dec := default 0 (NewDecFromBigInt (7 * nano * nano)).

(** The reward per block of an epoch and, on the testnet, of a block number. *)
Definition blockRewardOf (c : ChainConfig) (blockNum epoch : Z) : Dec :=
  if (ChainID c =? TestnetChainID) && (FiveSecondsEpoch c =? 16500) then
    let defaultReward :=
      if 634644 <? blockNum then
        if 636507 <? blockNum then
          if 639341 <? blockNum then FiveSecStakedBlocks else StakedBlocks
        else FiveSecStakedBlocks
      else StakedBlocks in
    if IsTwoSeconds c epoch then TwoSecStakedBlocks else defaultReward
  else if IsTwoSeconds c epoch then TwoSecStakedBlocks
  else if IsFiveSeconds c epoch then FiveSecStakedBlocks
  else StakedBlocks.

(** *** Tokens in circulation *)
Inductive NetworkID := MainNet | TestNet | LocalNet | OtherNet.

Definition lastPreStakingBlock (id : NetworkID) (blockNum : Z) : Z :=
  match id with
  | MainNet => mainnetEpochLastBlock (u64 (StakingEpoch MainnetChainConfig) - 1)
  | TestNet => testnetEpochLastBlock (u64 (StakingEpoch TestnetChainConfig) - 1)
  | LocalNet => localnetEpochLastBlock (u64 (StakingEpoch LocalnetChainConfig) - 1)
  | OtherNet => blockNum
  end.

Definition getPreStakingRewardsFromBlockNumber (id : NetworkID) (blockNum : Z) : Z :=
  if blockNum <? 2 then 0
  else
    let lastBlockInEpoch := lastPreStakingBlock id blockNum in
    let blockNum := if lastBlockInEpoch <? blockNum then lastBlockInEpoch else blockNum in
    PreStakedBlocks * (blockNum - 1).

Definition totalPreStakingNetworkRewardsInAtto (id : NetworkID) : list Z :=
  match id with
  | MainNet => getPreStakingRewardsFromBlockNumber MainNet <$> [3375103; 3286737; 3326153; 3313572]
  | TestNet => getPreStakingRewardsFromBlockNumber TestNet <$> [999999; 999999; 999999; 999999]
  | LocalNet => getPreStakingRewardsFromBlockNumber LocalNet <$> [999999; 999999]
  | OtherNet => []
  end.

Definition getTotalPreStakingNetworkRewards (id : NetworkID) : Z := foldl (λ total reward, reward + total) 0 (totalPreStakingNetworkRewardsInAtto id).

(** ** Who signed (staking/availability/measure.go) *)
Inductive rewardError :=
| errKeys | errMask (e : maskError) | errFailedCommitSigs | errTimeoutCommitSigs | errDecodeLinks | errNoState (epoch : Z) | errNoCommittee (e : shardError)
| errAvailability (e : availError) | errRoster (e : rosterError) | errSnapshot (a : Address) | errAddReward (a : Address) | errParent
| ErrPayoutNotEqualBlockReward (total : Z) | errUndelegations | errElection | errSlash (e : slashError) | errSlashNotAllowed.

Definition maskResult {A} (m : result maskError A) : result rewardError A :=
  match m with Ok a => Ok a | Err e => Err (errMask e) | Panic => Panic end.

Section signers.
Context {G : Type} `{BK : BlsKey G} (BytesToBLSPublicKey : SerializedPublicKey → option G).

Fixpoint signersLoop (mask : Mask G) (idx : nat) (slots payable missing : list Slot) : result rewardError (list Slot * list Slot) :=
  match slots with
  | [] => Ok (payable, missing)
  | member :: rest =>
      signed ← maskResult (IndexEnabled mask (Z.of_nat idx));
      if signed : bool then signersLoop mask (S idx) rest (payable ++ [member]) missing
      else signersLoop mask (S idx) rest payable (missing ++ [member])
  end.

Definition BlockSigners (bitmap : bytes) (parentCommittee : Committee) : result rewardError (list Slot * list Slot) :=
  match BLSPublicKeys BytesToBLSPublicKey (Some parentCommittee) with
  | inl _ => Err errKeys
  | inr committerKeys =>
      mask ← maskResult (NewMask committerKeys None);
      mask' ← maskResult (SetMask mask bitmap);
      signersLoop mask' 0 (Slots parentCommittee) [] []
  end.

(** The members, those who signed and those who did not. *)
Definition BallotResult (header : Header) (parentShardState : State) (shardID : Z) : result rewardError (list Slot * list Slot * list Slot) :=
  match FindCommitteeByID (Some parentShardState) shardID with
  | inl e => Err (errNoCommittee e)
  | inr parentCommittee =>
      '(payable, missing) ← BlockSigners (hdLastCommitBitmap header) parentCommittee;
      Ok (Slots parentCommittee, payable, missing)
  end.
End signers.

(** The key of a group of slash records is a struct of numbers. *)
#[global] Instance keyStruct_eq_dec : EqDecision keyStruct.
Proof. solve_decision. Defined.
#[global] Instance keyStruct_countable : Countable keyStruct.
Proof.
  refine (inj_countable' (λ k, (ksHeight k, ksViewID k, ksShardID k, ksEpoch k)) (λ '(h, v, s, e), mkKeyStruct h v s e) _).
  by intros [].
Defined.

(** ** Actions *)
Record rewardState (CV CS : Type) := mkRewardState {
  rsState : slashState; rsFirstElection : gmap Address Z; votingPowerCache : CV; delegateShareCache : CS;
}.
Arguments mkRewardState {CV CS}.
Arguments rsState {CV CS}.
Arguments rsFirstElection {CV CS}.
Arguments votingPowerCache {CV CS}.
Arguments delegateShareCache {CV CS}.

Definition act (CV CS A : Type) : Type := rewardState CV CS → result rewardError (A * rewardState CV CS).
Definition act_bind {CV CS A B} (f : A → act CV CS B) (m : act CV CS A) : act CV CS B :=
  λ s, match m s with Ok (a, s') => f a s' | Err e => Err e | Panic => Panic end.
Definition act_ret {CV CS A} (a : A) : act CV CS A := λ s, Ok (a, s).
#[global] Instance act_mbind {CV CS} : MBind (act CV CS) := @act_bind CV CS.
#[global] Instance act_mret {CV CS} : MRet (act CV CS) := @act_ret CV CS.
(** A computation that does not touch the state. *)
Definition lift {CV CS A} (r : result rewardError A) : act CV CS A := λ s, match r with Ok a => Ok (a, s) | Err e => Err e | Panic => Panic end.

(** What the functions read of a chain. *)
Record RewardChain := mkRewardChain {
  rcConfig : ChainConfig;
  (** [CurrentHeader()]; its epoch is also that of [CurrentBlock()]. *)
  rcCurrent : Header;
  GetHeaderByHash : Hash → option Header;
  rcReadShardState : Z → option State;
  rcReadValidatorSnapshot : Address → option ValidatorSnapshot;
  rcReadValidatorSnapshotAtEpoch : Z → Address → option Wrapper;
  rcReadValidatorList : option (list Address);
}.

(** *** The result of a block (consensus/reward, staking/network/reward.go) *)
Record Payout := mkPayout { poShardID : Z; poAddr : Address; NewlyEarned : Z; EarningKey : SerializedPublicKey }.
Inductive Reader :=
| EmptyPayout
| preStakingEra (payout : Z)
| stakingEra (total : Z) (missingSigners : list Slot) (BeaconchainAward ShardChainAward : list Payout).
Definition readTotal (r : Reader) : Z := match r with EmptyPayout => 0 | preStakingEra p => p | stakingEra t _ _ _ => t end.

Record slotPayable := mkSlotPayable { spSlot : Slot; spPayout : Z; spBucket : nat; spIndex : nat; spShardID : Z }.

(** [sort.SliceStable] by index. *)
Fixpoint insertPayable (p : slotPayable) (l : list slotPayable) : list slotPayable :=
  match l with
  | [] => [p]
  | d :: rest => if (spIndex d <? spIndex p)%nat then d :: insertPayable p rest else p :: d :: rest
  end.
Definition sortBucket (l : list slotPayable) : list slotPayable := foldr insertPayable [] l.
(** [resultsHandle]: the payables of every bucket, in order. *)
Definition resultsHandle (n : nat) (allPayables : list slotPayable) : list (list slotPayable) :=
  (λ bucket, sortBucket (List.filter (λ p, (spBucket p =? bucket)%nat) allPayables)) <$> seq 0 n.

(** *** The shares of the signers of one committee *)

(** The voters of the roster are pointers: a missing one panics when it is read. *)
Fixpoint signersShare (voters : gmap SerializedPublicKey AccommodateHarmonyVote) (signers : list Slot) (allSignersShare : Dec) : option Dec :=
  match signers with
  | [] => Some allSignersShare
  | s :: rest =>
      voter ← voters !! BLSPublicKey s;
      share' ← (if IsHarmonyNode voter then Some allSignersShare else Add allSignersShare (OverallPercent voter));
      signersShare voters rest share'
  end.

(** [defaultReward.Mul(voter.OverallPercent.Quo(allSignersShare))] *)
Definition dueOf (defaultReward allSignersShare : Dec) (voter : AccommodateHarmonyVote) : option Dec :=
  q ← Quo (OverallPercent voter) allSignersShare; Mul defaultReward q.

Fixpoint linkPayables (defaultReward allSignersShare : Dec) (voters : gmap SerializedPublicKey AccommodateHarmonyVote)
    (i : nat) (shardID : Z) (j : nat) (signers : list Slot) : option (list slotPayable) :=
  match signers with
  | [] => Some []
  | s :: rest =>
      voter ← voters !! BLSPublicKey s;
      if negb (IsHarmonyNode voter) && negb (IsZero (OverallPercent voter)) then
        due ← dueOf defaultReward allSignersShare voter;
        payables ← linkPayables defaultReward allSignersShare voters i shardID (S j) rest;
        Some (mkSlotPayable s (TruncateInt due) i j shardID :: payables)
      else linkPayables defaultReward allSignersShare voters i shardID (S j) rest
  end.

Section accumulate.
Context {G CV CS : Type} `{BK : BlsKey G, SC : Schedule, CC : CrossLinkCodec}.
Context `{CacheV : !Cache CV (Z * Z) Roster, CacheS : !Cache CS (Z * Address) (gmap Address Dec)}.
Context (isTestnet : bool) (BytesToBLSPublicKey : SerializedPublicKey → option G).
Notation M := (act CV CS).

Definition lookupVotingPower (epoch : Z) (subComm : Committee) : M Roster := λ s,
  let key := (epoch, ShardID subComm) in
  let '(b, cv) := cacheGet (votingPowerCache s) key in
  match b with
  | Some votingPower => Ok (votingPower, mkRewardState (rsState s) (rsFirstElection s) cv (delegateShareCache s))
  | None =>
      match Votepower.Compute InstanceForEpoch isTestnet subComm (Some epoch) with
      | Ok votingPower => Ok (votingPower, mkRewardState (rsState s) (rsFirstElection s) (cacheAdd cv key votingPower) (delegateShareCache s))
      | Err e => Err (errRoster e)
      | Panic => Panic
      end
  end.

(** [lookupDelegatorShares] with its cache, which is not filled when nothing is delegated. *)
Definition lookupSharesCached (snapshot : ValidatorSnapshot) : M (gmap Address Dec) := λ s,
  let key := (snapEpoch snapshot, vAddress (wValidator (snapValidator snapshot))) in
  let '(b, cs) := cacheGet (delegateShareCache s) key in
  match b with
  | Some shares => Ok (shares, mkRewardState (rsState s) (rsFirstElection s) (votingPowerCache s) cs)
  | None =>
      match lookupDelegatorShares (snapValidator snapshot) with
      | Some shares =>
          let cs' := if IsZero (default 0 (NewDecFromBigInt (TotalDelegation (snapValidator snapshot)))) then cs else cacheAdd cs key shares in
          Ok (shares, mkRewardState (rsState s) (rsFirstElection s) (votingPowerCache s) cs')
      | None => Panic
      end
  end.

Definition setValidators (s : rewardState CV CS) (vs : gmap Address Wrapper) : rewardState CV CS :=
  mkRewardState (mkSlashState vs (credits (rsState s))) (rsFirstElection s) (votingPowerCache s) (delegateShareCache s).

Definition incrementCounts (committee : Committee) (signers missing : list Slot) : M unit := λ s,
  match committeeStakedValidators committee with
  | None => Panic
  | Some staked =>
      match IncrementValidatorSigningCounts staked (validators (rsState s)) signers missing with
      | inl e => Err (errAvailability e)
      | inr vs => Ok (tt, setValidators s vs)
      end
  end.

Definition addReward (snapshot : Wrapper) (due : Z) (shares : gmap Address Dec) : M unit := λ s,
  match AddReward (validators (rsState s)) snapshot due shares with
  | None => Panic
  | Some (true, _) => Err (errAddReward (vAddress (wValidator snapshot)))
  | Some (false, vs) => Ok (tt, setValidators s vs)
  end.

Definition readSnapshot (bc : RewardChain) (a : Address) : M ValidatorSnapshot :=
  lift (match rcReadValidatorSnapshot bc a with Some snapshot => Ok snapshot | None => Err (errSnapshot a) end).

Definition waitForCommitSigs (sigsReady : option bool) : M unit :=
  lift (match sigsReady with
        | Some success => if success then Ok tt else Err errFailedCommitSigs
        | None => Err errTimeoutCommitSigs
        end).

(** The signers of one cross link: counted, and what is due to them. *)
Definition linkRewards (bc : RewardChain) (defaultReward : Dec) (i : nat) (cxLink : CrossLink) : M (list slotPayable) :=
  let epoch := EpochF cxLink in let shardID := ShardIDF cxLink in
  if negb (Epochs.IsStaking (rcConfig bc) epoch) then mret []
  else
    shardState ← lift (match rcReadShardState bc epoch with Some ss => Ok ss | None => Err (errNoState epoch) end);
    subComm ← lift (match FindCommitteeByID (Some shardState) shardID with inr c => Ok c | inl e => Err (errNoCommittee e) end);
    '(payableSigners, missing) ← lift (BlockSigners BytesToBLSPublicKey (BitmapF cxLink) subComm);
    incrementCounts subComm payableSigners missing ≫= λ _,
    votingPower ← lookupVotingPower epoch subComm;
    allSignersShare ← lift (lift_panic (signersShare (Voters votingPower) payableSigners ZeroDec));
    lift (lift_panic (linkPayables defaultReward allSignersShare (Voters votingPower) i shardID 0 payableSigners)).

Fixpoint linksLoop (bc : RewardChain) (defaultReward : Dec) (i : nat) (crossLinks : list CrossLink) : M (list slotPayable) :=
  match crossLinks with
  | [] => mret []
  | cxLink :: rest =>
      payables ← linkRewards bc defaultReward i cxLink;
      others ← linksLoop bc defaultReward (S i) rest;
      mret (payables ++ others)
  end.

Fixpoint payLoop (bc : RewardChain) (payables : list slotPayable) (newRewards : Z) (shardP : list Payout) : M (Z * list Payout) :=
  match payables with
  | [] => mret (newRewards, shardP)
  | payable :: rest =>
      snapshot ← readSnapshot bc (EcdsaAddress (spSlot payable));
      let due := spPayout payable in
      shares ← lookupSharesCached snapshot;
      addReward (snapValidator snapshot) due shares ≫= λ _,
      payLoop bc rest (newRewards + due)
        (shardP ++ [mkPayout (spShardID payable) (EcdsaAddress (spSlot payable)) due (BLSPublicKey (spSlot payable))])
  end.

(** The rewards of the shard chains. *)
Definition shardRewards (bc : RewardChain) (header : Header) (defaultReward : Dec) : M (Z * list Payout) :=
  match hdCrossLinks header with
  | [] => mret (0, [])
  | cxLinks =>
      crossLinks ← lift (match decodeCrossLinks cxLinks with Some cls => Ok cls | None => Err errDecodeLinks end);
      allPayables ← linksLoop bc defaultReward 0 crossLinks;
      payLoop bc (concat (resultsHandle (length crossLinks) allPayables)) 0 []
  end.

Definition ballotResultBeaconchain (bc : RewardChain) (header : Header) : result rewardError (Z * list Slot * list Slot * list Slot) :=
  match GetHeaderByHash bc (hdParentHash header) with
  | None => Err errParent
  | Some parentHeader =>
      match rcReadShardState bc (hdEpoch parentHeader) with
      | None => Err (errNoState (hdEpoch parentHeader))
      | Some parentShardState =>
          '(members, payable, missing) ← BallotResult BytesToBLSPublicKey header parentShardState BeaconChainShardID;
          Ok (hdEpoch parentHeader, members, payable, missing)
      end
  end.

Fixpoint beaconLoop (bc : RewardChain) (defaultReward allSignersShare : Dec) (voters : gmap SerializedPublicKey AccommodateHarmonyVote)
    (payable : list Slot) (newRewards : Z) (beaconP : list Payout) : M (Z * list Payout) :=
  match payable with
  | [] => mret (newRewards, beaconP)
  | member :: rest =>
      voter ← lift (lift_panic (voters !! BLSPublicKey member));
      if IsHarmonyNode voter then beaconLoop bc defaultReward allSignersShare voters rest newRewards beaconP
      else
        snapshot ← readSnapshot bc (EarningAccount voter);
        d ← lift (lift_panic (dueOf defaultReward allSignersShare voter));
        let due := RoundInt d in
        shares ← lookupSharesCached snapshot;
        addReward (snapValidator snapshot) due shares ≫= λ _,
        beaconLoop bc defaultReward allSignersShare voters rest (newRewards + due)
          (beaconP ++ [mkPayout BeaconChainShardID (EarningAccount voter) due (Votepower.Identity voter)])
  end.

(** The rewards of the beacon chain's own committee. *)
Definition beaconRewards (bc beaconChain : RewardChain) (header : Header) (defaultReward : Dec) (newRewards : Z)
    : M (Z * list Payout * list Slot) :=
  '(parentE, members, payable, missing) ← lift (ballotResultBeaconchain beaconChain header);
  let subComm := mkCommittee BeaconChainShardID members in
  incrementCounts subComm payable missing ≫= λ _,
  votingPower ← lookupVotingPower parentE subComm;
  allSignersShare ← lift (lift_panic (signersShare (Voters votingPower) payable ZeroDec));
  '(total, beaconP) ← beaconLoop bc defaultReward allSignersShare (Voters votingPower) payable newRewards [];
  mret (total, beaconP, missing).

(** The split before staking: signer [i] receives what makes the first [i+1] signers have
    [(i+1) / count] of the reward. *)
Fixpoint splitLoop (count : Z) (i : nat) (signers : list Slot) (last totalAmount : Z) (paid : list (Address * Z)) : Z * list (Address * Z) :=
  match signers with
  | [] => (totalAmount, paid)
  | account :: rest =>
      let cur := PreStakedBlocks * Z.of_nat (S i) / count in
      let diff := cur - last in
      splitLoop count (S i) rest cur (totalAmount + diff) (paid ++ [(EcdsaAddress account, diff)])
  end.

Definition setCredits (s : rewardState CV CS) (cs : list (Address * Z)) : rewardState CV CS :=
  mkRewardState (mkSlashState (validators (rsState s)) cs) (rsFirstElection s) (votingPowerCache s) (delegateShareCache s).

Definition splitReward (signers : list Slot) : M Reader := λ s,
  let '(totalAmount, paid) := splitLoop (Z.of_nat (length signers)) 0 signers 0 0 (credits (rsState s)) in
  if negb (totalAmount =? PreStakedBlocks) then Err (ErrPayoutNotEqualBlockReward totalAmount)
  else Ok (preStakingEra totalAmount, setCredits s paid).

Definition preStakingRewards (bc : RewardChain) (header : Header) (sigsReady : option bool) : M Reader :=
  match GetHeaderByHash bc (hdParentHash header) with
  | None => lift (Err errParent)
  | Some parentHeader =>
      if hdNumber parentHeader =? 0 then mret EmptyPayout
      else
        parentShardState ← lift (match rcReadShardState bc (hdEpoch parentHeader) with Some ss => Ok ss | None => Err (errNoState (hdEpoch parentHeader)) end);
        waitForCommitSigs sigsReady ≫= λ _,
        '(_, signers, _) ← lift (BallotResult BytesToBLSPublicKey header parentShardState (hdShardID header));
        splitReward signers
  end.

Definition AccumulateRewardsAndCountSigs (bc beaconChain : RewardChain) (header : Header) (sigsReady : option bool) : M Reader :=
  let blockNum := u64 (hdNumber header) in
  let staking := Epochs.IsStaking (rcConfig bc) (hdEpoch header) in
  let onBeacon := hdShardID (rcCurrent bc) =? BeaconChainShardID in
  if (blockNum =? 0) || (staking && negb onBeacon) then
    waitForCommitSigs sigsReady ≫= λ _, mret EmptyPayout
  else if staking && onBeacon then
    let defaultReward := blockRewardOf (rcConfig bc) blockNum (hdEpoch header) in
    if IsNegative defaultReward then mret EmptyPayout
    else
      '(newRewards, shardP) ← shardRewards bc header defaultReward;
      waitForCommitSigs sigsReady ≫= λ _,
      '(total, beaconP, missing) ← beaconRewards bc beaconChain header defaultReward newRewards;
      mret (stakingEra total missing beaconP shardP)
  else preStakingRewards bc header sigsReady.

(** ** Finalisation (engine.go) *)
Definition IsCommitteeSelectionBlock (chain : RewardChain) (header : Header) : bool :=
  (hdShardID header =? BeaconChainShardID) && hdIsLastBlockInEpoch header && IsPreStaking (rcConfig chain) (hdEpoch header).

Definition setState (s : rewardState CV CS) (st : slashState) : rewardState CV CS :=
  mkRewardState st (rsFirstElection s) (votingPowerCache s) (delegateShareCache s).

Definition payoutUndelegationsAct (chain : RewardChain) (header : Header) : M unit := λ s,
  let c := rcConfig chain in let epoch := hdEpoch header in
  match payoutUndelegations (rcReadValidatorList chain) (IsRedelegation c epoch) (IsQuickUnlock c epoch) (IsNoEarlyUnlock c epoch) epoch (rsState s) with
  | Some st => Ok (tt, setState s st)
  | None => Err errUndelegations
  end.

Context `{SCo : StateCodec}.

Definition setElectionAct (chain : RewardChain) (header : Header) : M unit := λ s,
  let c := rcConfig chain in
  match setElectionEpochAndMinFee (GetShardState header) (Epochs.IsMinCommissionRate c) (MinCommissionPromoPeriod c)
          (mkElectionState (validators (rsState s)) (rsFirstElection s)) with
  | Some es => Ok (tt, mkRewardState (mkSlashState (elValidators es) (credits (rsState s))) (firstElection es) (votingPowerCache s) (delegateShareCache s))
  | None => Err errElection
  end.

Fixpoint statusLoop (chain : RewardChain) (addrs : list Address) : M unit := λ s,
  match addrs with
  | [] => Ok (tt, s)
  | addr :: rest =>
      match ComputeAndMutateEPOSStatus (rcReadValidatorSnapshot chain) (validators (rsState s)) addr with
      | None => Panic
      | Some (inl e) => Err (errAvailability e)
      | Some (inr vs) => statusLoop chain rest (setValidators s vs)
      end
  end.

(** The work of the last block of an epoch. *)
Definition selectionWork (chain : RewardChain) (header : Header) : M unit :=
  payoutUndelegationsAct chain header ≫= λ _,
  setElectionAct chain header ≫= λ _,
  let now := hdEpoch (rcCurrent chain) in
  curShardState ← lift (match rcReadShardState chain now with Some ss => Ok ss | None => Err (errNoState now) end);
  staked ← lift (lift_panic (stateStakedValidators curShardState));
  statusLoop chain (Addrs staked).

(** *** Slashes *)
Definition keyOf (r : Record_) : keyStruct :=
  let m := evMoment (rEvidence r) in mkKeyStruct (Slash.Height m) (Slash.ViewID m) (mShardID m) (u64 (mEpoch m)).

(** [groupedRecords], and the keys in the order that [sort.SliceStable] makes of the order of
    the map: the comparison is not an order, so that this is an argument. *)
Definition groupedRecords (doubleSigners : list Record_) : gmap keyStruct (list Record_) :=
  foldl (λ m r, <[keyOf r := default [] (m !! keyOf r) ++ [r]]> m) ∅ doubleSigners.

Context (sortedKeys : gmap keyStruct (list Record_) → list keyStruct).

Definition applyAct (chain : RewardChain) (records : list Record_) (rate : Dec) : M unit := λ s,
  match slashApply (rcReadValidatorSnapshotAtEpoch chain) (rsState s) records rate (mkApplication 0 0) with
  | inl e => Err (errSlash e)
  | inr (_, st) => Ok (tt, setState s st)
  end.

Definition slashGroup (chain : RewardChain) (key : keyStruct) (records : list Record_) : M unit :=
  let epoch := i64 (ksEpoch key) in
  superCommittee ← lift (match rcReadShardState chain epoch with Some ss => Ok ss | None => Err (errNoState epoch) end);
  subComm ← lift (match FindCommitteeByID (Some superCommittee) (ksShardID key) with inr c => Ok c | inl e => Err (errNoCommittee e) end);
  votingPower ← lookupVotingPower epoch subComm;
  rate ← lift (lift_panic (slashRate votingPower records));
  applyAct chain records rate.

Fixpoint slashGroups (chain : RewardChain) (grouped : gmap keyStruct (list Record_)) (keys : list keyStruct) : M unit :=
  match keys with
  | [] => mret tt
  | key :: rest => slashGroup chain key (default [] (grouped !! key)) ≫= λ _, slashGroups chain grouped rest
  end.

Definition applySlashes (chain : RewardChain) (doubleSigners : list Record_) : M unit :=
  let grouped := groupedRecords doubleSigners in slashGroups chain grouped (sortedKeys grouped).

(** What a block does to the state after its transactions; the block itself is then put
    together from the header, the root of the state and the lists of transactions. *)
Definition Finalize (chain beaconChain : RewardChain) (header : Header) (doubleSigners : list Record_) (sigsReady : option bool) : M Reader :=
  let isBeaconChain := hdShardID header =? BeaconChainShardID in
  let inStakingEra := Epochs.IsStaking (rcConfig chain) (hdEpoch header) in
  (if IsCommitteeSelectionBlock chain header then selectionWork chain header else mret tt) ≫= λ _,
  payout ← AccumulateRewardsAndCountSigs chain beaconChain header sigsReady;
  (match doubleSigners with
   | [] => mret tt
   | _ => if isBeaconChain && inStakingEra then applySlashes chain doubleSigners else lift (Err errSlashNotAllowed)
   end) ≫= λ _,
  mret payout.
End accumulate.

(** * Properties *)

(** ** The signers of a block *)
Section partition.
Context {G : Type} `{KL : BlsKeyLaws G} (decodeKey : SerializedPublicKey → option G).

(** The slots whose bit has the given value, from index [i] on. *)
Fixpoint slotsWith (bitmap : bytes) (want : bool) (i : nat) (slots : list Slot) : list Slot :=
  match slots with
  | [] => []
  | s :: rest => if Bool.eqb (bitAt bitmap i) want then s :: slotsWith bitmap want (S i) rest else slotsWith bitmap want (S i) rest
  end.

Lemma slotsWith_partition bitmap i slots : slotsWith bitmap true i slots ++ slotsWith bitmap false i slots ≡ₚ slots.
Proof.
  revert i. induction slots as [|s slots IH]; intros i; cbn [slotsWith]; [done|]. destruct (bitAt bitmap i); cbn [Bool.eqb].
  - cbn [app]. by rewrite IH.
  - by rewrite <-Permutation_middle, IH.
Qed.

Lemma signersLoop_spec (m : Mask G) bitmap i slots payable missing :
  maskInv m → length (Publics m) = (i + length slots)%nat → (∀ j, (j < length (Publics m))%nat → bitAt (Bitmap m) j = bitAt bitmap j) →
  signersLoop m i slots payable missing = Ok (payable ++ slotsWith bitmap true i slots, missing ++ slotsWith bitmap false i slots).
Proof.
  intros Hm. revert i payable missing. induction slots as [|s slots IH]; intros i payable missing Hlen Hbits; cbn [signersLoop slotsWith].
  { by rewrite !app_nil_r. }
  cbn [length] in Hlen. rewrite (IndexEnabled_bitAt m i Hm) by lia. cbn [maskResult mbind result_mbind result_bind].
  rewrite Hbits by lia. destruct (bitAt bitmap i); cbn [Bool.eqb]; rewrite IH by (done || lia); by rewrite <-app_assoc.
Qed.

Lemma BLSPublicKeys_length c keys : BLSPublicKeys decodeKey (Some c) = inr keys → length keys = length (Slots c).
Proof.
  unfold BLSPublicKeys. destruct (mapM _ _) as [ks|] eqn:E; [|done]. intros [= <-]. symmetry. exact (length_mapM _ _ _ E).
Qed.

(** On a bitmap of the committee's size the signers are exactly the slots whose bit is set and
    the missing ones the others, both in the order of the committee, and together they are the
    committee; on a bitmap of another size the function reports the error of the mask. *)
Theorem BlockSigners_partition bitmap c keys :
  BLSPublicKeys decodeKey (Some c) = inr keys →
  (length bitmap = Len keys →
     BlockSigners decodeKey bitmap c = Ok (slotsWith bitmap true 0 (Slots c), slotsWith bitmap false 0 (Slots c))
     ∧ slotsWith bitmap true 0 (Slots c) ++ slotsWith bitmap false 0 (Slots c) ≡ₚ Slots c)
  ∧ (length bitmap ≠ Len keys → BlockSigners decodeKey bitmap c = Err (errMask (errMismatchingBitmap (Len keys) (length bitmap)))).
Proof.
  intros Hk. pose proof (BLSPublicKeys_length _ _ Hk) as Hlen. unfold BlockSigners. rewrite Hk.
  pose proof (emptyMask_inv keys) as Hinv. split; intros Hb; cbn [NewMask maskResult mbind result_mbind result_bind].
  - split; [|apply slotsWith_partition].
    destruct (SetMask_spec (emptyMask keys) bitmap Hinv) as (m' & -> & Hm' & Hpub & _ & Hbits); [done|].
    cbn [maskResult mbind result_mbind result_bind]. cbn [emptyMask Publics] in Hpub, Hbits.
    rewrite (signersLoop_spec m' bitmap 0) ; [done|done| |]; rewrite ?Hpub; [done|]. exact Hbits.
  - rewrite (SetMask_error (emptyMask keys) bitmap) by done. done.
Qed.
End partition.

(** ** The split before staking *)
Section split.
Context {CV CS : Type}.

Lemma splitLoop_spec count i signers total paid :
  0 < count →
  ∃ amounts, splitLoop count i signers (PreStakedBlocks * Z.of_nat i / count) total paid
             = (total + sumZ id amounts, paid ++ zip (EcdsaAddress <$> signers) amounts)
    ∧ length amounts = length signers
    ∧ sumZ id amounts = PreStakedBlocks * Z.of_nat (i + length signers) / count - PreStakedBlocks * Z.of_nat i / count
    ∧ Forall (λ x, x = PreStakedBlocks / count ∨ x = PreStakedBlocks / count + 1) amounts.
Proof.
  intros Hc. revert i total paid. induction signers as [|a signers IH]; intros i total paid.
  { exists []. cbn [splitLoop]. rewrite app_nil_r. change (sumZ id []) with 0. rewrite Z.add_0_r, Nat.add_0_r, Z.sub_diag. by split_and!. }
  cbn [splitLoop]. set (x := PreStakedBlocks * Z.of_nat (S i) / count - PreStakedBlocks * Z.of_nat i / count).
  destruct (IH (S i) (total + x) (paid ++ [(EcdsaAddress a, x)])) as (amounts & Hs & Hl & Hsum & Hf).
  exists (x :: amounts). rewrite sumZ_cons, Hs. change (id x) with x. split_and!.
  - f_equal; [lia|]. by rewrite <-app_assoc.
  - cbn [length]. lia.
  - rewrite Hsum. cbn [length]. replace (S i + length signers)%nat with (i + S (length signers))%nat by lia. unfold x. lia.
  - constructor; [|done]. unfold x. generalize PreStakedBlocks. intros P. rewrite Nat2Z.inj_succ, Z.mul_succ_r.
    pose proof (Z.div_mod (P * Z.of_nat i) count ltac:(lia)). pose proof (Z.mod_pos_bound (P * Z.of_nat i) count Hc).
    pose proof (Z.div_mod P count ltac:(lia)). pose proof (Z.mod_pos_bound P count Hc).
    pose proof (Z.div_mod (P * Z.of_nat i + P) count ltac:(lia)). pose proof (Z.mod_pos_bound (P * Z.of_nat i + P) count Hc).
    set (q1 := P * Z.of_nat i / count) in *. set (q2 := P / count) in *. set (q3 := (P * Z.of_nat i + P) / count) in *. nia.
Qed.

(** Before staking the block reward is split exactly: the signers receive 24 ONE in total, every
    one of them an equal part up to one atto, in the order of the committee, so that the check of
    the total never fails; without signers it does. *)
Theorem preStaking_split_exact signers (s : rewardState CV CS) :
  (signers ≠ [] → ∃ amounts,
     splitReward signers s = Ok (preStakingEra PreStakedBlocks, setCredits s (credits (rsState s) ++ zip (EcdsaAddress <$> signers) amounts))
     ∧ length amounts = length signers ∧ sumZ id amounts = PreStakedBlocks
     ∧ Forall (λ x, x = PreStakedBlocks / Z.of_nat (length signers) ∨ x = PreStakedBlocks / Z.of_nat (length signers) + 1) amounts)
  ∧ splitReward [] s = Err (ErrPayoutNotEqualBlockReward 0).
Proof.
  split; [|reflexivity]. intros Hne. assert (0 < Z.of_nat (length signers)) as Hc by (destruct signers; [done|cbn [length]; lia]).
  destruct (splitLoop_spec (Z.of_nat (length signers)) 0 signers 0 (credits (rsState s)) Hc) as (amounts & Hs & Hl & Hsum & Hf).
  rewrite Z.mul_0_r, Z.div_0_l in Hs, Hsum by lia. rewrite Nat.add_0_l, Z.div_mul, Z.sub_0_r in Hsum by lia.
  exists amounts. unfold splitReward. rewrite Hs, Hsum. by split_and!.
Qed.
End split.

(** ** The shares of a committee *)

(** The power that a signer is paid for. *)
Definition paidPower (voters : gmap SerializedPublicKey AccommodateHarmonyVote) (s : Slot) : Z :=
  match voters !! BLSPublicKey s with Some v => if IsHarmonyNode v then 0 else OverallPercent v | None => 0 end.
Definition votersOk (voters : gmap SerializedPublicKey AccommodateHarmonyVote) (signers : list Slot) : Prop :=
  Forall (λ s, ∃ v, voters !! BLSPublicKey s = Some v ∧ 0 ≤ OverallPercent v ≤ OneDec) signers.

Lemma paidPower_range voters signers s : votersOk voters signers → s ∈ signers → 0 ≤ paidPower voters s ≤ OneDec.
Proof.
  intros H Hs. unfold votersOk in H. rewrite Forall_forall in H. destruct (H s Hs) as (v & Hv & Hr). unfold paidPower. rewrite Hv. pose proof precisionReuse_val.
  destruct (IsHarmonyNode v); [|done]. unfold OneDec. lia.
Qed.

Lemma signersShare_spec voters signers acc :
  votersOk voters signers → 0 ≤ acc → acc + OneDec * Z.of_nat (length signers) < 2 ^ 315 →
  signersShare voters signers acc = Some (acc + sumZ (paidPower voters) signers).
Proof.
  revert acc. induction signers as [|s signers IH]; intros acc Hv Ha Hb; cbn [signersShare].
  { change (sumZ _ []) with 0. by rewrite Z.add_0_r. }
  pose proof (paidPower_range _ _ s Hv ltac:(by left)) as Hr. inversion Hv as [|? ? (v & Hv' & Hp) Hvs]; subst; clear Hv; rename Hv' into Hv.
  cbn [length] in Hb. rewrite Nat2Z.inj_succ in Hb. unfold paidPower in Hr. rewrite Hv in Hr |- *. cbn [mbind option_bind].
  rewrite sumZ_cons. unfold paidPower at 1. rewrite Hv. destruct (IsHarmonyNode v).
  - cbn [mbind option_bind]. rewrite IH by (done || lia). by rewrite Z.add_0_l.
  - assert (OneDec * Z.of_nat (length signers) >= 0) by nia. unfold Add. rewrite checkBits_Some by lia. cbn [mbind option_bind]. rewrite IH by (done || lia). f_equal. lia.
Qed.

(** A reward that is a whole number [r] of atto, at most the largest one. *)
Definition maxReward : Z := 28 * precisionReuse.

Lemma dueOf_spec r S v :
  0 ≤ r ≤ maxReward → 0 < S → 0 ≤ OverallPercent v ≤ S →
  ∃ q, dueOf (r * precisionReuse) S v = Some (r * q) ∧ 0 ≤ q ≤ OneDec
    ∧ 2 * precisionReuse * Z.abs (q * S - OverallPercent v * precisionReuse) ≤ S * (precisionReuse + 2).
Proof.
  intros Hr HS Hp. unfold dueOf. pose proof precisionReuse_val as HP.
  destruct (Quo_range (OverallPercent v) S OneDec ltac:(lia) HS ltac:(unfold OneDec; nia) ltac:(unfold OneDec; rewrite HP; lia)) as (q & Hq & Hr').
  exists q. rewrite Hq. cbn [mbind option_bind]. split_and!; [|lia|lia|].
  - unfold Mul. replace (r * precisionReuse * q) with (r * q * precisionReuse) by lia. rewrite chopRound_exact. apply checkBits_Some.
    unfold maxReward, OneDec in *. rewrite HP in *. nia.
  - pose proof (Quo_error_bound _ _ _ Hq). rewrite (Z.abs_eq S) in H by lia. lia.
Qed.

(** A way to make an integer of a decimal that is off by less than one. *)
Definition closeInt (f : Dec → Z) : Prop := ∀ x, 0 ≤ x → 0 ≤ f x ∧ Z.abs (f x * precisionReuse - x) ≤ precisionReuse.

Lemma TruncateInt_close : closeInt TruncateInt.
Proof.
  intros x Hx. unfold TruncateInt, chopPrecisionAndTruncate. pose proof precisionReuse_val as HP. rewrite Z.quot_div_nonneg by lia.
  pose proof (Z.div_mod x precisionReuse ltac:(lia)). pose proof (Z.mod_pos_bound x precisionReuse ltac:(lia)).
  split; [apply Z.div_pos; lia|lia].
Qed.

Lemma RoundInt_close : closeInt RoundInt.
Proof.
  intros x Hx. unfold RoundInt. pose proof precisionReuse_val as HP. split; [by apply chopRound_nonneg|].
  destruct (proj1 (chopRound_spec x _) eq_refl) as [?|[? _]]; lia.
Qed.

Section shares.
Context (f : Dec → Z) (Hf : closeInt f) (r S : Z) (Hr : 0 ≤ r ≤ maxReward) (HS : 0 < S).

(** One payment is within 16 atto of the share of the reward. *)
Lemma due_error v : 0 ≤ OverallPercent v ≤ S →
  ∃ d, dueOf (r * precisionReuse) S v = Some d ∧ 0 ≤ f d ∧ Z.abs (f d * S - r * OverallPercent v) ≤ 16 * S.
Proof.
  intros Hp. destruct (dueOf_spec r S v Hr HS Hp) as (q & Hd & Hq & He). exists (r * q). split; [done|].
  destruct (Hf (r * q) ltac:(nia)) as [H0 H1]. split; [done|]. pose proof precisionReuse_val as HP.
  set (p := OverallPercent v) in *. set (d := f (r * q)) in *. unfold maxReward in Hr. set (P := precisionReuse) in *.
  assert (Z.abs (r * (q * S - p * P)) ≤ 28 * P * Z.abs (q * S - p * P)) as H2 by (rewrite Z.abs_mul, (Z.abs_eq r) by lia; nia).
  assert (Z.abs ((d * P - r * q) * S) ≤ P * S) as H3 by (rewrite Z.abs_mul, (Z.abs_eq S) by lia; nia).
  replace (P * (d * S - r * p)) with ((d * P - r * q) * S + r * (q * S - p * P)) by lia.
  assert (2 * (P * Z.abs (d * S - r * p)) ≤ 2 * (P * S) + 28 * (S * (P + 2))) as H4.
  { replace (P * Z.abs (d * S - r * p)) with (Z.abs (P * (d * S - r * p))) by (rewrite Z.abs_mul, (Z.abs_eq P) by lia; lia).
    replace (P * (d * S - r * p)) with ((d * P - r * q) * S + r * (q * S - p * P)) by lia. lia. }
  apply (Z.mul_le_mono_pos_l _ _ P); [lia|]. assert (56 * S ≤ P * S) by nia. lia.
Qed.
End shares.

(** The payments of a link: all within 16 atto per payment of the reward. *)
Lemma linkPayables_spec voters r S i shardID j signers :
  0 ≤ r ≤ maxReward → 0 < S → Forall (λ s, paidPower voters s ≤ S) signers → votersOk voters signers →
  ∃ ps, linkPayables (r * precisionReuse) S voters i shardID j signers = Some ps
    ∧ Forall (λ p, 0 ≤ spPayout p) ps ∧ Forall (λ p, spBucket p = i) ps
    ∧ Forall (λ p, (j ≤ spIndex p)%nat) ps ∧ Sorted.StronglySorted (λ p q, (spIndex p < spIndex q)%nat) ps
    ∧ Z.abs (sumZ spPayout ps * S - r * sumZ (paidPower voters) signers) ≤ 16 * S * Z.of_nat (length ps).
Proof.
  intros Hr HS. revert j. induction signers as [|s signers IH]; intros j Hle Hv.
  { exists []. split; [done|]. repeat (split; [constructor|]). change (sumZ _ []) with 0. cbn. lia. }
  apply Forall_cons in Hle as [Hs Hle]. pose proof (paidPower_range _ _ s Hv ltac:(by left)) as Hrange.
  inversion Hv as [|? ? (v & Hl & Hp) Hvs]; subst. destruct (IH (Datatypes.S j) Hle Hvs) as (ps & Hps & H1 & H2 & H3 & H4 & H5).
  cbn [linkPayables]. rewrite Hl. cbn [mbind option_bind]. rewrite sumZ_cons. unfold paidPower in Hs, Hrange |- * at 1. rewrite Hl in *.
  assert (Forall (λ p, (j ≤ spIndex p)%nat) ps) as H3' by (eapply Forall_impl; [exact H3|]; cbn; lia).
  destruct (IsHarmonyNode v); cbn [negb andb]; [exists ps; rewrite Z.add_0_l; done|].
  unfold IsZero. destruct (Z.eqb_spec (Z.sgn (OverallPercent v)) 0) as [Hz|Hz]; cbn [negb].
  { exists ps. assert (OverallPercent v = 0) as -> by lia. rewrite Z.add_0_l. done. }
  destruct (due_error TruncateInt TruncateInt_close r S Hr HS v ltac:(lia)) as (d & Hd & Hd0 & He). rewrite Hd. cbn [mbind option_bind]. rewrite Hps.
  cbn [mbind option_bind]. eexists. split; [done|]. split; [by constructor|]. split; [by constructor|]. split; [by constructor|].
  split; [constructor; [done|]; eapply Forall_impl; [exact H3|]; cbn; lia|].
  rewrite sumZ_cons. cbn [spPayout length]. rewrite Nat2Z.inj_succ. lia.
Qed.

(** What a committee's signers are paid for a block: when the powers of the signers are known
    and some external signer has power, every share is computed, none is negative, and together
    they are the block reward up to 16 atto per payment. *)
Theorem link_payout_bounds voters r i shardID signers :
  0 ≤ r ≤ maxReward → votersOk voters signers → 0 < sumZ (paidPower voters) signers → Z.of_nat (length signers) ≤ 2 ^ 32 →
  ∃ S ps, signersShare voters signers ZeroDec = Some S ∧ linkPayables (r * precisionReuse) S voters i shardID 0 signers = Some ps
    ∧ Forall (λ p, 0 ≤ spPayout p) ps ∧ Z.abs (sumZ spPayout ps - r) ≤ 16 * Z.of_nat (length ps).
Proof.
  intros Hr Hv Hpos Hlen. set (S := sumZ (paidPower voters) signers) in *.
  assert (signersShare voters signers ZeroDec = Some S) as HS.
  { rewrite signersShare_spec; [done|done|done|]. unfold ZeroDec, OneDec. pose proof precisionReuse_val as HP. rewrite HP.
    apply (Z.le_lt_trans _ (10 ^ 18 * 2 ^ 32)); lia. }
  assert (Forall (λ s, paidPower voters s ≤ S) signers) as Hle.
  { rewrite Forall_forall. intros s Hs. unfold S. apply sumZ_elem; [|done]. intros y Hy. by destruct (paidPower_range _ _ y Hv Hy). }
  destruct (linkPayables_spec voters r S i shardID 0 signers Hr Hpos Hle Hv) as (ps & Hps & H1 & _ & _ & _ & H5).
  exists S, ps. split_and!; [done|done|done|]. fold S in H5. apply (Z.mul_le_mono_pos_l _ _ S); [done|].
  replace (S * Z.abs (sumZ spPayout ps - r)) with (Z.abs (sumZ spPayout ps * S - r * S)); [lia|].
  rewrite <-Z.mul_sub_distr_r, Z.abs_mul, (Z.abs_eq S) by lia. lia.
Qed.

(** ** The buckets *)

(** The payables of one link: of its bucket, and by ascending index. *)
Definition bucketOk (b : nat) (ps : list slotPayable) : Prop :=
  Forall (λ p, spBucket p = b) ps ∧ Sorted.StronglySorted (λ p q, (spIndex p < spIndex q)%nat) ps.

Lemma linkPayables_shape R S voters i shardID j signers ps :
  linkPayables R S voters i shardID j signers = Some ps → bucketOk i ps ∧ Forall (λ p, (j ≤ spIndex p)%nat) ps.
Proof.
  revert j ps. induction signers as [|s signers IH]; intros j ps E; cbn [linkPayables] in E.
  { injection E as <-. repeat split; constructor. }
  apply bind_Some in E as (v & _ & E).
  assert (∀ qs, Forall (λ p, (Datatypes.S j ≤ spIndex p)%nat) qs → Forall (λ p, (j ≤ spIndex p)%nat) qs) as Hw.
  { intros qs Hq. eapply Forall_impl; [exact Hq|]. cbn. lia. }
  destruct (negb (IsHarmonyNode v) && negb (IsZero (OverallPercent v))); [|destruct (IH _ _ E) as [? ?]; split; [done|by apply Hw]].
  apply bind_Some in E as (d & _ & E). apply bind_Some in E as (qs & Hqs & [= <-]).
  destruct (IH _ _ Hqs) as [[H1 H2] H3]. split; [split|].
  - by constructor.
  - constructor; [done|]. eapply Forall_impl; [exact H3|]. cbn. lia.
  - constructor; [done|]. by apply Hw.
Qed.

Lemma insertPayable_head p l : Forall (λ q, (spIndex p < spIndex q)%nat) l → insertPayable p l = p :: l.
Proof. destruct l as [|q l]; [done|]. intros [H _]%Forall_cons. cbn [insertPayable]. rewrite (proj2 (Nat.ltb_ge _ _)) by lia. done. Qed.

Lemma sortBucket_sorted ps : Sorted.StronglySorted (λ p q, (spIndex p < spIndex q)%nat) ps → sortBucket ps = ps.
Proof. induction 1 as [|p ps _ IH Hp]; [done|]. unfold sortBucket in *. cbn [foldr]. rewrite IH. by apply insertPayable_head. Qed.

Lemma filter_bucket_all b ps : Forall (λ p, spBucket p = b) ps → List.filter (λ p, (spBucket p =? b)%nat) ps = ps.
Proof. induction 1 as [|p ps Hp _ IH]; [done|]. cbn [List.filter]. rewrite Hp, Nat.eqb_refl. by rewrite IH. Qed.
Lemma filter_bucket_none b ps : Forall (λ p, spBucket p ≠ b) ps → List.filter (λ p, (spBucket p =? b)%nat) ps = [].
Proof. induction 1 as [|p ps Hp _ IH]; [done|]. cbn [List.filter]. by rewrite (proj2 (Nat.eqb_neq _ _)). Qed.

(** The list of the payables of links [k], [k+1], ... *)
Fixpoint bucketsFrom (k : nat) (pss : list (list slotPayable)) : Prop :=
  match pss with [] => True | ps :: rest => bucketOk k ps ∧ bucketsFrom (S k) rest end.

Lemma bucketsFrom_ge k pss : bucketsFrom k pss → Forall (λ p, (k ≤ spBucket p)%nat) (concat pss).
Proof.
  revert k. induction pss as [|ps pss IH]; intros k; [constructor|]. intros [[H1 _] H2]. cbn [concat]. apply Forall_app. split.
  - eapply Forall_impl; [exact H1|]. cbn. lia.
  - eapply Forall_impl; [exact (IH _ H2)|]. cbn. lia.
Qed.

Lemma buckets_concat k pss all :
  bucketsFrom k pss → (∀ b, (k ≤ b)%nat → List.filter (λ p, (spBucket p =? b)%nat) all = List.filter (λ p, (spBucket p =? b)%nat) (concat pss)) →
  concat ((λ b, sortBucket (List.filter (λ p, (spBucket p =? b)%nat) all)) <$> seq k (length pss)) = concat pss.
Proof.
  revert k. induction pss as [|ps pss IH]; intros k Hb Hall; [done|]. destruct Hb as [[H1 H2] H3].
  cbn [length seq fmap list_fmap concat]. rewrite Hall by done. cbn [concat]. rewrite List.filter_app, (filter_bucket_all _ _ H1).
  rewrite (filter_bucket_none k (concat pss)) by (eapply Forall_impl; [exact (bucketsFrom_ge _ _ H3)|]; cbn; lia).
  rewrite app_nil_r, sortBucket_sorted by done. f_equal. apply IH; [done|]. intros b Hkb. rewrite Hall by lia. cbn [concat].
  rewrite List.filter_app, (filter_bucket_none b ps); [done|]. eapply Forall_impl; [exact H1|]. cbn. lia.
Qed.

(** ** What an action leaves unchanged *)
Section effects.
Context {G CV CS : Type} `{BK : BlsKey G, SC : Schedule, CC : CrossLinkCodec}.
Context `{CacheV : !Cache CV (Z * Z) Roster, CacheS : !Cache CS (Z * Address) (gmap Address Dec)}.
Context (isTestnet : bool) (decodeKey : SerializedPublicKey → option G).
Implicit Types (s : rewardState CV CS).

Lemma act_bind_Ok {A B} (f : A → act CV CS B) (m : act CV CS A) s r :
  (m ≫= f) s = Ok r → ∃ a s', m s = Ok (a, s') ∧ f a s' = Ok r.
Proof. unfold mbind, act_mbind, act_bind. destruct (m s) as [[a s']| |]; [eauto|done|done]. Qed.
Lemma lift_Ok {A} (r : result rewardError A) s a s' : lift (CV := CV) (CS := CS) r s = Ok (a, s') → r = Ok a ∧ s' = s.
Proof. unfold lift. destruct r; [|done|done]. by intros [= -> ->]. Qed.
Lemma mret_Ok {A} (x : A) s r : (mret x : act CV CS A) s = Ok r → r = (x, s).
Proof. by intros [= <-]. Qed.

(** What the payouts of a list give to a validator. *)
Definition earned (a : Address) (ps : list Payout) : Z := sumZ (λ p, if poAddr p =? a then NewlyEarned p else 0) ps.

(** Two states that differ by the payouts [ps]: the record of every address has the same validator and the same
    stakes, and its block rewards have grown by its payouts unless it is banned; signing
    counters may have changed. *)
Definition paidTo (ps : list Payout) (a : Address) (w w' : Wrapper) : Prop :=
  wValidator w' = wValidator w ∧ stakesOf w' = stakesOf w
  ∧ BlockReward w' = BlockReward w + (if Status (wValidator w) =? Banned then 0 else earned a ps).
Definition paidState (ps : list Payout) s s' : Prop :=
  credits (rsState s') = credits (rsState s) ∧ rsFirstElection s' = rsFirstElection s
  ∧ ∀ a, option_Forall2 (paidTo ps a) (validators (rsState s) !! a) (validators (rsState s') !! a).

Lemma earned_app a ps qs : earned a (ps ++ qs) = earned a ps + earned a qs.
Proof. apply sumZ_app. Qed.

Lemma paidTo_trans ps qs a w1 w2 w3 : paidTo ps a w1 w2 → paidTo qs a w2 w3 → paidTo (ps ++ qs) a w1 w3.
Proof.
  intros (H1 & H2 & H3) (H4 & H5 & H6). unfold paidTo. rewrite earned_app. split_and!; [congruence|congruence|].
  rewrite H6, H3, H1. destruct (Status _ =? Banned); lia.
Qed.

Lemma paidState_trans ps qs s1 s2 s3 : paidState ps s1 s2 → paidState qs s2 s3 → paidState (ps ++ qs) s1 s3.
Proof.
  intros (H1 & H2 & H3) (H4 & H5 & H6). split; [congruence|]. split; [congruence|]. intros a. specialize (H3 a). specialize (H6 a).
  destruct H3 as [w1 w2 H|]; inversion H6; subst; constructor. eauto using paidTo_trans.
Qed.

Lemma paidTo_refl a w : paidTo [] a w w.
Proof. split; [done|]. split; [done|]. change (earned _ []) with 0. destruct (Status _ =? Banned); lia. Qed.

Lemma paidState_same s s' :
  credits (rsState s') = credits (rsState s) → rsFirstElection s' = rsFirstElection s → validators (rsState s') = validators (rsState s) →
  paidState [] s s'.
Proof. intros H1 H2 H3. split; [done|]. split; [done|]. intros a. rewrite H3. destruct (validators _ !! a); constructor. apply paidTo_refl. Qed.

Lemma lookupVotingPower_same epoch c s r s' : lookupVotingPower isTestnet epoch c s = Ok (r, s') → paidState [] s s'.
Proof.
  unfold lookupVotingPower. destruct (cacheGet _ _) as [[b|] cv]; [intros [= <- <-]; by apply paidState_same|].
  destruct (Votepower.Compute _ _ _ _); [|done|done]. intros [= <- <-]. by apply paidState_same.
Qed.

Lemma lookupSharesCached_same sn s r s' : lookupSharesCached sn s = Ok (r, s') → paidState [] s s'.
Proof.
  unfold lookupSharesCached. destruct (cacheGet _ _) as [[b|] cv]; [intros [= <- <-]; by apply paidState_same|].
  destruct (lookupDelegatorShares _); [|done]. intros [= <- <-]. by apply paidState_same.
Qed.

(** A record with the same validator, stakes and block rewards. *)
Definition sameRecord (w w' : Wrapper) : Prop := wValidator w' = wValidator w ∧ stakesOf w' = stakesOf w ∧ BlockReward w' = BlockReward w.

Lemma bumpSubset_same didSign c staked (st st' : gmap Address Wrapper) a :
  bumpSubset didSign c staked st = inr st' → option_Forall2 sameRecord (st !! a) (st' !! a).
Proof.
  revert st. induction c as [|slot c IH]; intros st E; cbn [bumpSubset] in E.
  { injection E as <-. destruct (st !! a); by constructor. }
  case_decide; [|by apply IH]. destruct (st !! EcdsaAddress slot) as [w|] eqn:Ew; [|done]. specialize (IH _ E).
  destruct (decide (EcdsaAddress slot = a)) as [<-|Hne]; [|by rewrite lookup_insert_ne in IH].
  rewrite lookup_insert_eq in IH. rewrite Ew. inversion IH as [? w' (H1 & H2 & H3)|]; subst. constructor. by split_and!.
Qed.

Lemma incrementCounts_same c signers missing s u s' : incrementCounts c signers missing s = Ok (u, s') → paidState [] s s'.
Proof.
  unfold incrementCounts, IncrementValidatorSigningCounts. destruct (committeeStakedValidators c) as [staked|]; [|done].
  destruct (bumpSubset false _ _ _) as [|st1] eqn:E1; [done|]. destruct (bumpSubset true _ _ _) as [|st2] eqn:E2; [done|]. intros [= <- <-].
  split; [done|]. split; [done|]. intros a. cbn [setValidators rsState validators].
  pose proof (bumpSubset_same _ _ _ _ _ a E1) as H1. pose proof (bumpSubset_same _ _ _ _ _ a E2) as H2.
  destruct H1 as [w w1 (A1 & A2 & A3)|]; inversion H2 as [? w2 (B1 & B2 & B3)|]; subst; constructor.
  split; [congruence|]. split; [congruence|]. change (earned _ []) with 0. destruct (Status _ =? Banned); lia.
Qed.

Lemma creditReward_same i r w w' : creditReward i r w = Some w' → sameRecord w w'.
Proof. intros E. destruct (creditReward_ok _ _ _ _ E) as (_ & ? & ? & ?). done. Qed.

Lemma rewardLoop_same shares total i snapshot w pool res :
  rewardLoop shares total i snapshot w pool = Some res → sameRecord w (match res with inl w' => w' | inr (w', _) => w' end).
Proof.
  revert i w pool. induction snapshot as [|d snapshot IH]; intros i w pool E; cbn [rewardLoop] in E; [by injection E as <-|].
  destruct (shares !! _) as [p|]; [|by injection E as <-]. apply bind_Some in E as (m & _ & E). apply bind_Some in E as (w1 & Hw1 & E).
  destruct (creditReward_same _ _ _ _ Hw1) as (H1 & H2 & H3). destruct (IH _ _ _ E) as (H4 & H5 & H6). unfold sameRecord. split_and!; congruence.
Qed.

(** A reported payment: the block rewards of the validator grow by it, unless it is banned. *)
Lemma AddReward_effect (st st' : gmap Address Wrapper) snapshot reward shares :
  AddReward st snapshot reward shares = Some (false, st') → reward ≠ 0 →
  ∃ cur w', st !! vAddress (wValidator snapshot) = Some cur ∧ st' = <[vAddress (wValidator snapshot) := w']> st
    ∧ wValidator w' = wValidator cur ∧ stakesOf w' = stakesOf cur
    ∧ BlockReward w' = BlockReward cur + (if Status (wValidator cur) =? Banned then 0 else reward).
Proof.
  intros E Hr. unfold AddReward in E. rewrite (proj2 (Z.eqb_neq _ _)) in E by done.
  destruct (st !! vAddress (wValidator snapshot)) as [cur|] eqn:Hcur; [|done].
  destruct (Status (wValidator cur) =? Banned) eqn:Hb.
  { injection E as <-. exists cur, cur. rewrite Hb, Z.add_0_r, insert_id by done. done. }
  apply bind_Some in E as ([w1 pool] & Hc & E).
  assert (sameRecord (withBlockReward cur (BlockReward cur + reward)) w1) as (H1 & H2 & H3).
  { destruct (GT _ _); [|by injection Hc as <- <-]. apply bind_Some in Hc as (m & _ & Hc). apply bind_Some in Hc as (w & Hw & [= <- <-]).
    by apply creditReward_same in Hw. }
  apply bind_Some in E as (res & Hl & E). apply rewardLoop_same in Hl as (H4 & H5 & H6). change (stakesOf (withBlockReward cur _)) with (stakesOf cur) in H2.
  cbn [withBlockReward wValidator BlockReward] in H1, H3. destruct res as [w2|[w2 pool']].
  { injection E as <-. exists cur, w2. rewrite Hb. split_and!; congruence. }
  destruct (0 <? pool').
  - apply bind_Some in E as (w3 & Hw3 & [= <-]). apply creditReward_same in Hw3 as (H7 & H8 & H9). exists cur, w3. rewrite Hb. split_and!; congruence.
  - injection E as <-. exists cur, w2. rewrite Hb. split_and!; congruence.
Qed.

Lemma addReward_paid snapshot due shares sh key s u s' :
  addReward snapshot due shares s = Ok (u, s') → paidState [mkPayout sh (vAddress (wValidator snapshot)) due key] s s'.
Proof.
  unfold addReward. destruct (AddReward _ _ _ _) as [[[] vs]|] eqn:E; [done| |done]. intros [= <- <-].
  split; [done|]. split; [done|]. intros a. cbn [setValidators rsState validators].
  assert (earned a [mkPayout sh (vAddress (wValidator snapshot)) due key] = if vAddress (wValidator snapshot) =? a then due else 0) as He
    by (unfold earned; rewrite sumZ_cons; apply Z.add_0_r).
  destruct (Z.eq_dec due 0) as [->|Hd].
  { unfold AddReward in E. rewrite Z.eqb_refl in E. injection E as <-. destruct (validators (rsState s) !! a) as [w|]; constructor.
    split; [done|]. split; [done|]. rewrite He. repeat case_match; lia. }
  destruct (AddReward_effect _ _ _ _ _ E Hd) as (cur & w' & Hcur & -> & H1 & H2 & H3).
  destruct (decide (vAddress (wValidator snapshot) = a)) as [<-|Hne].
  - rewrite lookup_insert_eq, Hcur. constructor. split; [done|]. split; [done|]. rewrite He, Z.eqb_refl. exact H3.
  - rewrite lookup_insert_ne by done. destruct (validators (rsState s) !! a) as [w|] eqn:Hw; constructor.
    split; [done|]. split; [done|]. rewrite He, (proj2 (Z.eqb_neq _ _) Hne). destruct (Status (wValidator w) =? Banned); lia.
Qed.

(** The snapshots of a chain are of the validators asked for. *)
Definition snapshotsOk (bc : RewardChain) : Prop :=
  ∀ a sn, rcReadValidatorSnapshot bc a = Some sn → vAddress (wValidator (snapValidator sn)) = a.

(** One payment: the snapshot, the shares and the reward. *)
Lemma paySnapshot (bc : RewardChain) a due sh key s0 sn s1 shares s2 u s3 :
  snapshotsOk bc → readSnapshot bc a s0 = Ok (sn, s1) → lookupSharesCached sn s1 = Ok (shares, s2) →
  addReward (snapValidator sn) due shares s2 = Ok (u, s3) → paidState [mkPayout sh a due key] s0 s3.
Proof.
  intros Hsn H1 H2 H3. unfold readSnapshot in H1. apply lift_Ok in H1 as [Hr ->].
  destruct (rcReadValidatorSnapshot bc a) as [sn'|] eqn:Es; [|done]. injection Hr as ->. specialize (Hsn _ _ Es).
  apply lookupSharesCached_same in H2. rewrite <-Hsn.
  exact (paidState_trans [] _ _ _ _ H2 (addReward_paid _ _ _ sh key _ _ _ H3)).
Qed.

Lemma payLoop_paid bc payables n ps s n' ps' s' :
  snapshotsOk bc → payLoop bc payables n ps s = Ok ((n', ps'), s') →
  ∃ qs, ps' = ps ++ qs ∧ n' = n + sumZ NewlyEarned qs ∧ paidState qs s s'
    ∧ (λ q, (poShardID q, poAddr q, NewlyEarned q, EarningKey q)) <$> qs
      = (λ p, (spShardID p, EcdsaAddress (spSlot p), spPayout p, BLSPublicKey (spSlot p))) <$> payables.
Proof.
  intros Hsn. revert n ps s. induction payables as [|p payables IH]; intros n ps s E; cbn [payLoop] in E.
  { injection E as <- <- <-. exists []. rewrite app_nil_r, Z.add_0_r. split_and!; try done. by apply paidState_same. }
  apply act_bind_Ok in E as (sn & s1 & H1 & E). apply act_bind_Ok in E as (shares & s2 & H2 & E). apply act_bind_Ok in E as (u & s3 & H3 & E).
  pose proof (paySnapshot _ _ _ (spShardID p) (BLSPublicKey (spSlot p)) _ _ _ _ _ _ _ Hsn H1 H2 H3) as Hp.
  destruct (IH _ _ _ E) as (qs & -> & -> & Hqs & Hm). eexists (_ :: qs). rewrite <-app_assoc. split; [done|]. rewrite sumZ_cons.
  cbn [NewlyEarned]. split; [lia|]. split; [exact (paidState_trans [_] qs _ _ _ Hp Hqs)|]. rewrite !fmap_cons. cbn [poShardID poAddr EarningKey NewlyEarned].
  by f_equal.
Qed.

Lemma beaconLoop_paid bc R S voters payable n ps s n' ps' s' :
  snapshotsOk bc → beaconLoop bc R S voters payable n ps s = Ok ((n', ps'), s') →
  ∃ qs, ps' = ps ++ qs ∧ n' = n + sumZ NewlyEarned qs ∧ paidState qs s s'.
Proof.
  intros Hsn. revert n ps s. induction payable as [|m payable IH]; intros n ps s E; cbn [beaconLoop] in E.
  { injection E as <- <- <-. exists []. rewrite app_nil_r, Z.add_0_r. split_and!; try done. by apply paidState_same. }
  apply act_bind_Ok in E as (v & s0 & [_ ->]%lift_Ok & E). destruct (IsHarmonyNode v); [by apply IH|].
  apply act_bind_Ok in E as (sn & s1 & H1 & E). apply act_bind_Ok in E as (d & s1' & [_ ->]%lift_Ok & E).
  apply act_bind_Ok in E as (shares & s2 & H2 & E). apply act_bind_Ok in E as (u & s3 & H3 & E).
  pose proof (paySnapshot _ _ _ BeaconChainShardID (Votepower.Identity v) _ _ _ _ _ _ _ Hsn H1 H2 H3) as Hp.
  destruct (IH _ _ _ E) as (qs & -> & -> & Hqs). eexists (_ :: qs). rewrite <-app_assoc. split; [done|]. rewrite sumZ_cons.
  cbn [NewlyEarned]. split; [lia|]. exact (paidState_trans [_] qs _ _ _ Hp Hqs).
Qed.

Lemma linkRewards_same bc R i cl s ps s' :
  linkRewards isTestnet decodeKey bc R i cl s = Ok (ps, s') → paidState [] s s' ∧ bucketOk i ps.
Proof.
  unfold linkRewards. destruct (negb _). { intros [= <- <-]. split; [by apply paidState_same|]. split; constructor. }
  intros E. apply act_bind_Ok in E as (ss & s0 & [_ ->]%lift_Ok & E). apply act_bind_Ok in E as (c & s0 & [_ ->]%lift_Ok & E).
  apply act_bind_Ok in E as ([payable missing] & s0 & [_ ->]%lift_Ok & E). apply act_bind_Ok in E as (u & s1 & H1%incrementCounts_same & E).
  apply act_bind_Ok in E as (r & s2 & H2%lookupVotingPower_same & E). apply act_bind_Ok in E as (S & s3 & [_ ->]%lift_Ok & E).
  apply lift_Ok in E as [E ->]. split; [exact (paidState_trans [] [] _ _ _ H1 H2)|].
  destruct (linkPayables _ _ _ _ _ _ _) as [qs|] eqn:Hq; [|done]. injection E as <-. by destruct (linkPayables_shape _ _ _ _ _ _ _ _ Hq).
Qed.

Lemma linksLoop_same bc R i cls s ps s' :
  linksLoop isTestnet decodeKey bc R i cls s = Ok (ps, s') →
  paidState [] s s' ∧ ∃ pss, ps = concat pss ∧ length pss = length cls ∧ bucketsFrom i pss.
Proof.
  revert i s ps. induction cls as [|cl cls IH]; intros i s ps E; cbn [linksLoop] in E.
  { injection E as <- <-. split; [by apply paidState_same|]. by exists []. }
  apply act_bind_Ok in E as (p1 & s1 & [H1 Hb]%linkRewards_same & E). apply act_bind_Ok in E as (p2 & s2 & H2 & E).
  apply mret_Ok in E as [= -> ->]. destruct (IH _ _ _ H2) as (H3 & pss & -> & Hl & Hf).
  split; [exact (paidState_trans [] [] _ _ _ H1 H3)|]. exists (p1 :: pss). split_and!; [done|cbn; lia|]. by split.
Qed.

(** The payables of all cross links, put into buckets and sorted, are the payables in the order
    in which they were found: by link, and in a link by the order of its signers. *)
Theorem buckets_keep_order bc R cls s ps s' :
  linksLoop isTestnet decodeKey bc R 0 cls s = Ok (ps, s') → concat (resultsHandle (length cls) ps) = ps.
Proof.
  intros (_ & pss & -> & Hl & Hf)%linksLoop_same. unfold resultsHandle. rewrite <-Hl. by apply buckets_concat.
Qed.

Lemma shardRewards_paid bc header R s n ps s' :
  snapshotsOk bc → shardRewards isTestnet decodeKey bc header R s = Ok ((n, ps), s') →
  n = sumZ NewlyEarned ps ∧ paidState ps s s'.
Proof.
  intros Hsn. unfold shardRewards. destruct (hdCrossLinks header) as [|b bs].
  { intros [= <- <- <-]. split; [done|]. by apply paidState_same. }
  intros E. apply act_bind_Ok in E as (cls & s0 & [_ ->]%lift_Ok & E). apply act_bind_Ok in E as (all & s1 & H1 & E).
  apply linksLoop_same in H1 as [H1 _]. destruct (payLoop_paid _ _ _ _ _ _ _ _ Hsn E) as (qs & -> & -> & Hq & _).
  split; [done|]. exact (paidState_trans [] qs _ _ _ H1 Hq).
Qed.

Lemma beaconRewards_paid bc beacon header R n s total ps missing s' :
  snapshotsOk bc → beaconRewards isTestnet decodeKey bc beacon header R n s = Ok ((total, ps, missing), s') →
  total = n + sumZ NewlyEarned ps ∧ paidState ps s s'.
Proof.
  intros Hsn E. unfold beaconRewards in E. apply act_bind_Ok in E as ([[[e members] payable] miss] & s0 & [_ ->]%lift_Ok & E).
  apply act_bind_Ok in E as (u & s1 & H1%incrementCounts_same & E). apply act_bind_Ok in E as (r & s2 & H2%lookupVotingPower_same & E).
  apply act_bind_Ok in E as (S & s3 & [_ ->]%lift_Ok & E). apply act_bind_Ok in E as ([t qs] & s4 & H3 & E).
  apply mret_Ok in E as [= -> -> -> ->]. pose proof (paidState_trans [] [] _ _ _ H1 H2) as H12.
  destruct (beaconLoop_paid _ _ _ _ _ _ _ _ _ _ _ Hsn H3) as (qs' & -> & -> & Hq).
  split; [done|]. exact (paidState_trans [] qs' _ _ _ H12 Hq).
Qed.

Lemma accumulate_effect bc beacon header sigs s r s' :
  snapshotsOk bc → Epochs.IsStaking (rcConfig bc) (hdEpoch header) = true →
  AccumulateRewardsAndCountSigs isTestnet decodeKey bc beacon header sigs s = Ok (r, s') →
  ∃ ps, paidState ps s s' ∧ readTotal r = sumZ NewlyEarned ps
    ∧ match r with EmptyPayout => ps = [] | stakingEra _ _ beaconP shardP => ps = shardP ++ beaconP | preStakingEra _ => False end.
Proof.
  intros Hsn Hst E. unfold AccumulateRewardsAndCountSigs in E. rewrite Hst in E. cbn [andb] in E.
  destruct ((_ =? 0) || _) eqn:H0.
  { apply act_bind_Ok in E as (u & s1 & [_ ->]%lift_Ok & E). apply mret_Ok in E as [= -> ->]. exists []. split; [by apply paidState_same|]. done. }
  apply orb_false_iff in H0 as [_ Hb]. apply negb_false_iff in Hb. rewrite Hb in E.
  destruct (IsNegative _). { apply mret_Ok in E as [= -> ->]. exists []. split; [by apply paidState_same|]. done. }
  apply act_bind_Ok in E as ([n ps] & s1 & H1 & E). apply act_bind_Ok in E as (u & s2 & [_ ->]%lift_Ok & E).
  apply act_bind_Ok in E as ([[total qs] missing] & s3 & H3 & E). apply mret_Ok in E as [= -> ->].
  destruct (shardRewards_paid _ _ _ _ _ _ _ Hsn H1) as (-> & Hp). destruct (beaconRewards_paid _ _ _ _ _ _ _ _ _ _ Hsn H3) as [-> Hq].
  exists (ps ++ qs). split; [by eapply paidState_trans|]. by rewrite sumZ_app.
Qed.

(** C14: In the staking era a successful accumulation is accounted for by its result: the total is the
    sum of the listed payouts, the block rewards of every validator grow by exactly the payouts
    listed for it, and not at all when it is banned; no validator's status or parameters, no
    stake and no account balance changes. *)
Theorem AccumulateRewards_accounts bc beacon header sigs s r s' :
  snapshotsOk bc → Epochs.IsStaking (rcConfig bc) (hdEpoch header) = true →
  AccumulateRewardsAndCountSigs isTestnet decodeKey bc beacon header sigs s = Ok (r, s') →
  match r with
  | EmptyPayout => paidState [] s s'
  | stakingEra total _ beaconP shardP => total = sumZ NewlyEarned (shardP ++ beaconP) ∧ paidState (shardP ++ beaconP) s s'
  | preStakingEra _ => False
  end.
Proof.
  intros Hsn Hst E. destruct (accumulate_effect _ _ _ _ _ _ _ Hsn Hst E) as (ps & Hp & Ht & Hr). destruct r; subst; [done|done|]. done.
Qed.

(** ** Conservation of the staked tokens *)

(** The tokens staked with validators, and those credited to accounts. *)
Definition tokens s : Z := allStake (validators (rsState s)) + sumZ snd (credits (rsState s)).

Lemma recordStake_stakes w : recordStake w = sumZ (λ x, x.1.2 + sumZ uAmount x.2) (stakesOf w).
Proof. unfold recordStake, stakesOf, lockedStake. rewrite sumZ_fmap. apply sumZ_ext. done. Qed.

Lemma allStake_same (m m' : gmap Address Wrapper) :
  (∀ a, option_Forall2 (λ w w', stakesOf w' = stakesOf w) (m !! a) (m' !! a)) → allStake m' = allStake m.
Proof.
  intros H. set (g := sumZ (λ x : Address * Z * list Undelegation, x.1.2 + sumZ uAmount x.2)).
  assert (∀ m, allStake m = map_sum (λ _ x, g x) (stakesOf <$> m)) as Hg.
  { intros m0. unfold allStake, map_sum. rewrite map_to_list_fmap, sumZ_fmap. apply sumZ_ext. intros [a w] _. apply recordStake_stakes. }
  rewrite !Hg. f_equal. apply map_eq. intros a. rewrite !lookup_fmap. destruct (H a) as [w w' Hw|]; [|done]. cbn. by rewrite Hw.
Qed.

Lemma paidState_tokens ps s s' : paidState ps s s' → tokens s' = tokens s.
Proof.
  intros (H1 & _ & H2). unfold tokens. rewrite H1. f_equal. apply allStake_same. intros a. specialize (H2 a).
  inversion H2 as [w w' (_ & Hs & _) E1 E2|E1 E2]; by constructor.
Qed.

Lemma withValidator_tokens (m : gmap Address Wrapper) a w v : m !! a = Some w → allStake (<[a := withValidator w v]> m) = allStake m.
Proof. intros H. unfold allStake. rewrite (map_sum_update _ _ _ _ _ H). unfold recordStake. cbn [withValidator Delegations]. lia. Qed.

Lemma electLoop_tokens epoch min promo addrs st st' :
  electLoop epoch min promo addrs st = Some st' → allStake (elValidators st') = allStake (elValidators st).
Proof.
  revert st. induction addrs as [|a addrs IH]; intros st E; cbn [electLoop] in E; [by injection E as <-|].
  apply bind_Some in E as (w & Hw & E). destruct min.
  - unfold UpdateMinimumCommissionFee in E. rewrite lookup_insert_eq in E. destruct (_ && _ && _).
    + rewrite (IH _ E). cbn [elValidators]. rewrite withValidator_tokens by apply lookup_insert_eq. by apply withValidator_tokens.
    + rewrite (IH _ E). by apply withValidator_tokens.
  - rewrite (IH _ E). by apply withValidator_tokens.
Qed.

Lemma statusLoop_tokens chain addrs s u s' : statusLoop chain addrs s = Ok (u, s') → tokens s' = tokens s.
Proof.
  revert s. induction addrs as [|a addrs IH]; intros s E; cbn [statusLoop] in E; [by injection E as _ <-|].
  unfold ComputeAndMutateEPOSStatus in E. destruct (validators (rsState s) !! a) as [w|] eqn:Hw; [|done].
  destruct (Status (wValidator w) =? Banned); [by rewrite (IH _ E)|]. destruct (rcReadValidatorSnapshot _ _) as [sn|]; [|done].
  destruct (ComputeCurrentSigning _ _) as [c|]; [|done]. cbn [mbind option_bind] in E. rewrite (IH _ E). unfold tokens.
  cbn [setValidators rsState credits validators]. destruct (IsBelowThreshold c); [|done]. by rewrite withValidator_tokens.
Qed.

Context `{SCo : StateCodec}.

Lemma selectionWork_tokens chain header s u s' : selectionWork chain header s = Ok (u, s') → tokens s' = tokens s.
Proof.
  intros E. unfold selectionWork in E. apply act_bind_Ok in E as (u1 & s1 & H1 & E). apply act_bind_Ok in E as (u2 & s2 & H2 & E).
  apply act_bind_Ok in E as (ss & s3 & [_ ->]%lift_Ok & E). apply act_bind_Ok in E as (staked & s3 & [_ ->]%lift_Ok & E).
  rewrite (statusLoop_tokens _ _ _ _ _ E).
  assert (tokens s2 = tokens s1) as ->.
  { unfold setElectionAct in H2. destruct (setElectionEpochAndMinFee _ _ _ _) as [es|] eqn:He; [|done]. injection H2 as _ <-.
    unfold setElectionEpochAndMinFee in He. apply bind_Some in He as (ss' & _ & He). apply bind_Some in He as (st & _ & He).
    apply electLoop_tokens in He. cbn [elValidators] in He. unfold tokens. cbn [rsState validators credits]. lia. }
  unfold payoutUndelegationsAct in H1. destruct (payoutUndelegations _ _ _ _ _ _) as [st|] eqn:Hp; [|done]. injection H1 as _ <-.
  unfold payoutUndelegations in Hp. apply bind_Some in Hp as (l & _ & Hp). by destruct (payoutLoop_conserves _ _ _ _ _ _ Hp) as [Hc _].
Qed.

Lemma sumZ_zip_snd {A} (l : list A) (xs : list Z) : length xs = length l → sumZ snd (zip l xs) = sumZ id xs.
Proof.
  revert xs. induction l as [|a l IH]; intros [|x xs]; try done. intros [= H]. cbn [zip zip_with]. rewrite !sumZ_cons, IH by done. done.
Qed.

Lemma splitReward_tokens signers s r s' :
  splitReward signers s = Ok (r, s') → r = preStakingEra PreStakedBlocks ∧ tokens s' = tokens s + PreStakedBlocks.
Proof.
  destruct signers as [|a signers]; [done|]. set (l := a :: signers). intros E. unfold splitReward in E.
  destruct (splitLoop_spec (Z.of_nat (length l)) 0 l 0 (credits (rsState s))) as (amounts & Hs & Hl & Hsum & _); [cbn [l length]; lia|].
  rewrite Z.mul_0_r, Z.div_0_l in Hs, Hsum by (cbn [l length]; lia). rewrite Nat.add_0_l, Z.div_mul, Z.sub_0_r in Hsum by (cbn [l length]; lia).
  assert (sumZ snd (zip (EcdsaAddress <$> l) amounts) = PreStakedBlocks) as Hz by (by rewrite sumZ_zip_snd by (by rewrite length_fmap)).
  set (z := zip _ _) in *. clearbody z. rewrite Hs, Hsum, Z.add_0_l, Z.eqb_refl in E. cbn [negb] in E. injection E as <- <-. split; [done|].
  unfold tokens. cbn [setCredits rsState validators credits]. rewrite sumZ_app, Hz. lia.
Qed.

Lemma preStakingRewards_tokens bc header sigs s r s' :
  preStakingRewards decodeKey bc header sigs s = Ok (r, s') →
  ∃ parent, GetHeaderByHash bc (hdParentHash header) = Some parent
    ∧ readTotal r = (if hdNumber parent =? 0 then 0 else PreStakedBlocks) ∧ tokens s' = tokens s + readTotal r.
Proof.
  intros H. unfold preStakingRewards in H. destruct (GetHeaderByHash _ _) as [parent|]; [|done]. exists parent. split; [done|]. destruct (_ =? 0).
  { injection H as <- <-. cbn. split; [done|lia]. }
  rename H into E. apply act_bind_Ok in E as (ss & s1 & [_ ->]%lift_Ok & E). apply act_bind_Ok in E as (u & s1 & [_ ->]%lift_Ok & E).
  apply act_bind_Ok in E as ([[members signers] missing] & s1 & [_ ->]%lift_Ok & E). apply splitReward_tokens in E as [-> ->]. done.
Qed.

Context (sortedKeys : gmap keyStruct (list Record_) → list keyStruct).

(** What a block adds to the balances: 24 ONE before staking, nothing in the genesis block, the
    block after it and the staking era. *)
Definition blockCreates (chain : RewardChain) (header : Header) : Z :=
  if Epochs.IsStaking (rcConfig chain) (hdEpoch header) then 0
  else if (u64 (hdNumber header) =? 0) || match GetHeaderByHash chain (hdParentHash header) with Some parent => hdNumber parent =? 0 | None => false end
  then 0 else PreStakedBlocks.

(** Finalising a block without slashes: the stakes and the amounts passed to [AddBalance].  What
    the accounts receive of these is shown in [BlockPayout]. *)
Lemma Finalize_tokens chain beacon header sigs s r s' :
  snapshotsOk chain → Finalize isTestnet decodeKey sortedKeys chain beacon header [] sigs s = Ok (r, s') →
  tokens s' = tokens s + blockCreates chain header
  ∧ (Epochs.IsStaking (rcConfig chain) (hdEpoch header) = false → readTotal r = blockCreates chain header).
Proof.
  intros Hsn E. unfold Finalize in E. apply act_bind_Ok in E as (u & s1 & H1 & E). apply act_bind_Ok in E as (r' & s2 & H2 & E).
  apply act_bind_Ok in E as (u' & s3 & H3 & E). apply mret_Ok in H3 as [= -> ->]. apply mret_Ok in E as [= -> ->].
  assert (tokens s1 = tokens s) as <-.
  { destruct (IsCommitteeSelectionBlock _ _); [by apply selectionWork_tokens in H1|by apply mret_Ok in H1 as [= -> ->]]. }
  unfold blockCreates. destruct (Epochs.IsStaking (rcConfig chain) (hdEpoch header)) eqn:Hst.
  - split; [|done]. rewrite Z.add_0_r. destruct (accumulate_effect _ _ _ _ _ _ _ Hsn Hst H2) as (ps & Hp & _). by eapply paidState_tokens.
  - unfold AccumulateRewardsAndCountSigs in H2. rewrite Hst in H2. cbn [andb orb] in H2. rewrite orb_false_r in H2. destruct (_ =? 0); cbn [orb].
    + apply act_bind_Ok in H2 as (u2 & s4 & [_ ->]%lift_Ok & H2). apply mret_Ok in H2 as [= -> ->]. cbn [readTotal]. split; [lia|done].
    + destruct (preStakingRewards_tokens _ _ _ _ _ _ H2) as (parent & -> & <- & ->). done.
Qed.
End effects.

(** ** A concrete chain *)
#[local] Existing Instances engineSchedule demoLinks demoStateCodec.

Definition beaconSlots : list Slot := [mkSlot 1 21 None; mkSlot 2 22 None; mkSlot 4 24 (Some 3000); mkSlot 5 25 (Some 1000)].
Definition rewardShards : State := mkState (Some 5) [mkCommittee 0 beaconSlots; demoCommittee] [].
Definition bannedWrapper (a : Address) : Wrapper :=
  withValidator (demoWrapper a [15]) (withStatus (demoValidator a [15]) Banned).
Definition rewardValidators : gmap Address Wrapper := {[4 := demoWrapper 4 [14]; 5 := bannedWrapper 5]}.
(** All members of shard 1 but the first signed the link, all of the beacon committee the parent. *)
Definition rewardLink : CrossLink := mkCrossLink 8008 8 8 [] [30] 1 5.
Definition rewardHeader (n epoch : Z) (links : bytes) : Header := mkHeader 7 n epoch n 0 0 [] [15] [] [] links 0 0.
Definition rewardChain (c : ChainConfig) : RewardChain :=
  mkRewardChain c (rewardHeader 9 5 []) (λ _, Some (rewardHeader 9 5 [])) (λ e, if e =? 5 then Some rewardShards else None)
    (λ a, (λ w, mkSnapshot w 5) <$> rewardValidators !! a) (λ _ a, rewardValidators !! a) (Some [4; 5]).
Definition reward0 : rewardState (lruCache (Z * Z) Roster) (lruCache (Z * Address) (gmap Address Dec)) :=
  mkRewardState (mkSlashState rewardValidators []) ∅ (newCache _ _ 16) (newCache _ _ 1024).
Definition linkBytes : bytes := default [] (encodeCrossLinks [rewardLink]).

Lemma rewardChain_snapshots c : snapshotsOk (rewardChain c).
Proof.
  intros a sn. cbn [rewardChain rcReadValidatorSnapshot]. intros H. apply fmap_Some in H as (w & Hw & ->). cbn [snapValidator].
  unfold rewardValidators in Hw. rewrite lookup_insert_Some in Hw. destruct Hw as [[<- <-]|[_ Hw]]; [reflexivity|].
  apply lookup_singleton_Some in Hw as [<- <-]. reflexivity.
Qed.

Lemma BlockSigners_partition_witness :
  BlockSigners keyOfInt [30] demoCommittee
    = Ok ([mkSlot 2 12 None; mkSlot 3 13 None; mkSlot 4 14 (Some 1000); mkSlot 5 15 (Some 2000)], [mkSlot 1 11 None])
  ∧ BlockSigners keyOfInt [30; 0] demoCommittee = Err (errMask (errMismatchingBitmap 1 2)).
Proof.
  destruct (BlockSigners_partition keyOfInt [30] demoCommittee _ eq_refl) as [H _]. destruct (H eq_refl) as [H1 _].
  destruct (BlockSigners_partition keyOfInt [30; 0] demoCommittee _ eq_refl) as [_ H2]. split; [exact H1|]. apply H2. discriminate.
Defined.

Lemma preStaking_split_exact_witness :
  ∃ amounts, splitReward (take 3 beaconSlots) reward0
    = Ok (preStakingEra PreStakedBlocks, setCredits reward0 (zip [1; 2; 4] amounts)) ∧ sumZ id amounts = 24 * one ∧ length amounts = 3%nat.
Proof.
  destruct (preStaking_split_exact (take 3 beaconSlots) reward0) as [H _]. destruct (H ltac:(discriminate)) as (amounts & E & Hl & Hs & _).
  exists amounts. split; [exact E|]. split; [exact Hs|exact Hl].
Defined.

Definition shard1Voters : gmap SerializedPublicKey AccommodateHarmonyVote :=
  match Votepower.Compute InstanceForEpoch false demoCommittee (Some 5) with Ok r => Voters r | _ => ∅ end.

Lemma link_payout_bounds_witness :
  ∃ S ps, signersShare shard1Voters (drop 1 (Slots demoCommittee)) ZeroDec = Some S
    ∧ linkPayables (7 * one * precisionReuse) S shard1Voters 0 1 0 (drop 1 (Slots demoCommittee)) = Some ps
    ∧ Z.abs (sumZ spPayout ps - 7 * one) ≤ 32.
Proof.
  assert (votersOk shard1Voters (drop 1 (Slots demoCommittee))) as Hv.
  { unfold votersOk. repeat constructor; (eexists; split; [vm_compute; reflexivity|]); cbn; vm_compute; split; discriminate. }
  destruct (link_payout_bounds shard1Voters (7 * one) 0 1 (drop 1 (Slots demoCommittee))) as (S & ps & H1 & H2 & _ & H3);
    [split; vm_compute; discriminate|exact Hv|vm_compute; reflexivity|vm_compute; discriminate|].
  exists S, ps. split; [exact H1|]. split; [exact H2|]. assert (length ps = 2%nat) as Hl; [|rewrite Hl in H3; exact H3].
  vm_compute in H1. injection H1 as <-. vm_compute in H2. injection H2 as <-. reflexivity.
Defined.

Lemma buckets_keep_order_witness :
  ∃ ps s', linksLoop false keyOfInt (rewardChain LocalnetChainConfig) TwoSecStakedBlocks 0 [rewardLink; rewardLink] reward0 = Ok (ps, s')
    ∧ length ps = 4%nat ∧ concat (resultsHandle 2 ps) = ps.
Proof.
  assert (match linksLoop false keyOfInt (rewardChain LocalnetChainConfig) TwoSecStakedBlocks 0 [rewardLink; rewardLink] reward0 with
          | Ok (ps, _) => length ps =? 4 | _ => false end%nat = true) as H by (vm_compute; reflexivity).
  destruct (linksLoop _ _ _ _ _ _ _) as [[ps s']| |] eqn:E; [|discriminate H|discriminate H].
  exists ps, s'. split; [reflexivity|]. split; [by apply Nat.eqb_eq|]. exact (buckets_keep_order _ _ _ _ _ _ _ _ E).
Defined.

(** A staking block: validator 4 is paid for the link and for the parent, validator 5 is banned;
    its part is in the total and nobody receives it. *)
Lemma AccumulateRewards_accounts_witness :
  ∃ total missing beaconP shardP s',
    AccumulateRewardsAndCountSigs false keyOfInt (rewardChain LocalnetChainConfig) (rewardChain LocalnetChainConfig)
      (rewardHeader 10 5 linkBytes) (Some true) reward0 = Ok (stakingEra total missing beaconP shardP, s')
    ∧ total = sumZ NewlyEarned (shardP ++ beaconP) ∧ poAddr <$> shardP ++ beaconP = [4; 5; 4; 5]
    ∧ validators (rsState s') !! 5 = Some (addCounts 2 2 (bannedWrapper 5)).
Proof.
  assert (match AccumulateRewardsAndCountSigs false keyOfInt (rewardChain LocalnetChainConfig) (rewardChain LocalnetChainConfig)
      (rewardHeader 10 5 linkBytes) (Some true) reward0 with
    | Ok (stakingEra _ _ b p, s') => bool_decide (poAddr <$> p ++ b = [4; 5; 4; 5] ∧ validators (rsState s') !! 5 = Some (addCounts 2 2 (bannedWrapper 5)))
    | _ => false end = true) as H by (vm_compute; reflexivity).
  destruct (AccumulateRewardsAndCountSigs _ _ _ _ _ _ _) as [[[| |total missing b p] s']| |] eqn:E; try discriminate H.
  apply bool_decide_eq_true_1 in H as [H1 H2]. exists total, missing, b, p, s'.
  destruct (AccumulateRewards_accounts false keyOfInt (rewardChain LocalnetChainConfig) _ (rewardHeader 10 5 linkBytes) _ _ _ _ (rewardChain_snapshots _) eq_refl E) as [H3 _].
  split; [reflexivity|]. split; [exact H3|]. split; [exact H1|exact H2].
Defined.
