(* ===== verification/Trie.v ===== *)
(** * The trie and database interface ([core/state/database.go])

    [state.Trie] and [state.Database] are the interfaces the two state databases are
    written against; the Merkle-Patricia trie behind them is go-ethereum's.  The class
    [TrieBackend] is the part of the interface the modelled code calls, [TrieLaws] what
    the interface's comments promise of it when no database error occurs.  A map-backed
    instance serves the concrete runs. *)

From Stdlib Require Import ZArith Lia.
From stdpp Require Import base gmap list option.
From S2P Require Import Prelude.
Local Open Scope Z_scope.

Class TrieBackend := {
  Trie : Type;
  Database : Type;
  TrieErr : Type;
  (** [OpenTrie(root)] *)
  OpenTrie : Database → Hash → TrieErr + Trie;
  (** [OpenStorageTrie(addrHash, root)]; the address hash is not used by the code's
      implementation of the interface, so only the root is an argument. *)
  OpenStorageTrie : Database → Hash → TrieErr + Trie;
  (** [OpenStorageTrie] of the zero hash: an empty trie, which needs no database. *)
  emptyTrie : Trie;
  ContractCode : Database → Hash → TrieErr + bytes;
  (** [TrieDB().InsertBlob(hash, blob)] *)
  InsertBlob : Database → Hash → bytes → Database;
  CopyTrie : Database → Trie → Trie;
  TryGet : Trie → Z → TrieErr + bytes;
  TryUpdate : Trie → Z → bytes → Trie * option TrieErr;
  TryDelete : Trie → Z → Trie * option TrieErr;
  TrieHash : Trie → Hash;
  (** [Commit(onleaf)]: the returned root or error; the trie's contents do not change. *)
  TrieCommit : Trie → TrieErr + Hash;
}.

(** What the comments of the interface say of a trie whose nodes are all present. *)
Class TrieLaws `{TrieBackend} := {
  CopyTrie_eq : ∀ db t, CopyTrie db t = t;
  TryGet_update_eq : ∀ t k v, v ≠ [] → TryGet (TryUpdate t k v).1 k = inr v;
  TryGet_update_ne : ∀ t k k' v, k ≠ k' → TryGet (TryUpdate t k v).1 k' = TryGet t k';
  TryGet_delete_eq : ∀ t k, TryGet (TryDelete t k).1 k = inr [];
  TryGet_delete_ne : ∀ t k k', k ≠ k' → TryGet (TryDelete t k).1 k' = TryGet t k';
  TryUpdate_ok : ∀ t k v, (TryUpdate t k v).2 = None;
  TryDelete_ok : ∀ t k, (TryDelete t k).2 = None;
}.

(** A trie as a finite map, its hash the number of its keys, its database a map from roots and
    a map of code blobs. *)
Definition mapTrie : TrieBackend := {|
  Trie := gmap Z bytes;
  Database := gmap Hash (gmap Z bytes) * gmap Hash bytes;
  TrieErr := unit;
  OpenTrie db root := match db.1 !! root with Some t => inr t | None => inl tt end;
  OpenStorageTrie db root := match db.1 !! root with Some t => inr t | None => inl tt end;
  emptyTrie := ∅;
  ContractCode db h := match db.2 !! h with Some c => inr c | None => inl tt end;
  InsertBlob db h c := (db.1, <[h := c]> db.2);
  CopyTrie _ t := t;
  TryGet t k := inr (default [] (t !! k));
  TryUpdate t k v := (match v with [] => delete k t | _ => <[k := v]> t end, None);
  TryDelete t k := (delete k t, None);
  TrieHash t := Z.of_nat (size t);
  TrieCommit t := inr (Z.of_nat (size t));
|}.

Lemma mapTrie_laws : @TrieLaws mapTrie.
Proof.
  split; simpl; try done.
  - intros t k v Hv. destruct v; [done|]. by rewrite lookup_insert_eq.
  - intros t k k' v Hne. destruct v; [by rewrite lookup_delete_ne|by rewrite lookup_insert_ne].
  - intros t k. by rewrite lookup_delete_eq.
  - intros t k k' Hne. by rewrite lookup_delete_ne.
Qed.
