(* ===== verification/Journal.v ===== *)
(** * The undo journal ([core/state/journal.go], [shard/mapping/load/journal.go])

    Both state databases keep the same [journal] type: a list of undo entries and a count
    of changes per address.  The two Go files hold two copies of the code; it is modelled
    once, over the type of entries, the entry's [dirtied] address and its [revert].  The
    theory shows that undoing the entries an operation appended brings back the state the
    operation started from, up to an equivalence the client chooses. *)

From Stdlib Require Import ZArith Lia.
From stdpp Require Import base gmap list option.
From S2P Require Import Prelude.
Local Open Scope Z_scope.

(** ** The journal *)
Record journal (Entry : Type) := mkJournal {
  entries : list Entry;
  dirties : gmap Address Z;
}.
Arguments mkJournal {Entry}.
Arguments entries {Entry}.
Arguments dirties {Entry}.

Definition newJournal {Entry} : journal Entry := mkJournal [] ∅.

(** [j.dirties[addr]++] *)
Definition incDirty (a : Address) (ds : gmap Address Z) : gmap Address Z :=
  <[a := default 0 (ds !! a) + 1]> ds.

(** [if j.dirties[addr]--; j.dirties[addr] == 0 { delete(j.dirties, addr) }] *)
Definition decDirty (a : Address) (ds : gmap Address Z) : gmap Address Z :=
  let n := default 0 (ds !! a) - 1 in
  if n =? 0 then delete a ds else <[a := n]> ds.

(** [dirty], the explicit mark of the RIPEMD exception. *)
Definition dirty {Entry} (j : journal Entry) (a : Address) : journal Entry :=
  mkJournal (entries j) (incDirty a (dirties j)).

(** [length] *)
Definition journal_length {Entry} (j : journal Entry) : nat := length (entries j).

(** A snapshot: its id and the length of the journal when it was taken. *)
Record revision := mkRevision { revId : Z; journalIndex : nat }.

(** What an entry type provides: the interface [journalEntry]. *)
Class JournalEntry (Entry DB : Type) := {
  dirtied : Entry → option Address;
  (** [None] is a nil dereference or a slice out of range inside [revert]. *)
  revertEntry : Entry → DB → option DB;
}.

Section journal.
Context {Entry DB : Type} `{JournalEntry Entry DB}.

Definition append (j : journal Entry) (entry : Entry) : journal Entry :=
  mkJournal (entries j ++ [entry])
    match dirtied entry with
    | Some addr => incDirty addr (dirties j)
    | None => dirties j
    end.

Definition dropDirty (entry : Entry) (ds : gmap Address Z) : gmap Address Z :=
  match dirtied entry with Some addr => decDirty addr ds | None => ds end.

(** The loop of [revert], over the entries from the newest to the oldest. *)
Fixpoint revertLoop (newestFirst : list Entry) (ds : gmap Address Z) (db : DB)
    : option (DB * gmap Address Z) :=
  match newestFirst with
  | [] => Some (db, ds)
  | entry :: rest =>
      db' ← revertEntry entry db;
      revertLoop rest (dropDirty entry ds) db'
  end.

(** [revert(db, snapshot)]: undo the entries from [snapshot] on and cut the list there.  A
    [snapshot] beyond the list is a slice out of range. *)
Definition revert (j : journal Entry) (db : DB) (snapshot : nat) : option (DB * journal Entry) :=
  if (length (entries j) <? snapshot)%nat then None
  else
    '(db', ds) ← revertLoop (reverse (drop snapshot (entries j))) (dirties j) db;
    Some (db', mkJournal (take snapshot (entries j)) ds).

(** The search of [RevertToSnapshot] in the valid revisions, and the revert to the revision
    found: [None] is the panic for an id that is not a valid revision.  The result is the
    database, the journal and the revisions that stay valid. *)
Definition searchRevision (validRevisions : list revision) (revid : Z) : nat :=
  sort_Search (length validRevisions)
    (λ i, match validRevisions !! i with Some r => revid <=? revId r | None => true end).

Definition revertTo (j : journal Entry) (validRevisions : list revision) (db : DB) (revid : Z)
    : option (DB * journal Entry * list revision) :=
  let idx := searchRevision validRevisions revid in
  match validRevisions !! idx with
  | None => None
  | Some r =>
      if negb (revId r =? revid) then None
      else
        '(db', j') ← revert j db (journalIndex r);
        Some (db', j', take idx validRevisions)
  end.

(** Only the state part of the loop. *)
Fixpoint undo (newestFirst : list Entry) (db : DB) : option DB :=
  match newestFirst with
  | [] => Some db
  | entry :: rest => db' ← revertEntry entry db; undo rest db'
  end.

Lemma revertLoop_undo es ds db :
  revertLoop es ds db =
    db' ← undo es db; Some (db', foldl (λ ds e, dropDirty e ds) ds es).
Proof.
  revert ds db. induction es as [|e es IH]; intros ds db; simpl; [done|].
  destruct (revertEntry e db); simpl; [apply IH|done].
Qed.

Lemma undo_app es1 es2 db : undo (es1 ++ es2) db = undo es1 db ≫= undo es2.
Proof.
  revert db. induction es1 as [|e es1 IH]; intros db; simpl; [done|].
  destruct (revertEntry e db); simpl; [apply IH|done].
Qed.

(** ** Counting *)

(** How many of the entries dirtied the address. *)
Definition dirtyCount (es : list Entry) (a : Address) : Z :=
  sumZ (λ e, if decide (dirtied e = Some a) then 1 else 0) es.

(** The counters agree with the entries: no zero counter, and each counter is the number of
    entries of its address plus the explicit [dirty] marks [extra] of the address. *)
Definition countersUpTo (extra : Address → Z) (j : journal Entry) : Prop :=
  ∀ a, dirties j !! a =
    (if decide (dirtyCount (entries j) a + extra a = 0) then None
     else Some (dirtyCount (entries j) a + extra a)).

Context (extra : Address → Z) (extra_nonneg : ∀ a, 0 ≤ extra a).

Lemma dirtyCount_nonneg es a : 0 ≤ dirtyCount es a.
Proof. apply sumZ_nonneg. intros e _. by case_decide. Qed.

Lemma dirtyCount_snoc es e a :
  dirtyCount (es ++ [e]) a = dirtyCount es a + (if decide (dirtied e = Some a) then 1 else 0).
Proof. unfold dirtyCount. rewrite sumZ_app. simpl. lia. Qed.

Lemma append_counters j e : countersUpTo extra j → countersUpTo extra (append j e).
Proof.
  intros Hj a. simpl. rewrite dirtyCount_snoc. pose proof (dirtyCount_nonneg (entries j) a).
  pose proof (extra_nonneg a). pose proof (Hj a) as Ha. destruct (dirtied e) as [b|];
    [|by rewrite (decide_False (P := None = Some a)), Z.add_0_r by done].
  unfold incDirty. destruct (decide (a = b)) as [->|Hne].
  - rewrite lookup_insert_eq, (decide_True (P := Some b = Some b)) by done.
    rewrite decide_False by lia. rewrite Ha. case_decide; simpl; f_equal; lia.
  - rewrite lookup_insert_ne by done. rewrite (decide_False (P := Some b = Some a)) by congruence.
    by rewrite Z.add_0_r.
Qed.

Lemma dropDirty_snoc es e ds :
  countersUpTo extra (mkJournal (es ++ [e]) ds) → countersUpTo extra (mkJournal es (dropDirty e ds)).
Proof.
  intros Hj a. simpl. specialize (Hj a). simpl in Hj. rewrite dirtyCount_snoc in Hj.
  pose proof (dirtyCount_nonneg es a). pose proof (extra_nonneg a).
  unfold dropDirty, decDirty. destruct (dirtied e) as [b|] eqn:E; simpl in *;
    [|by rewrite Z.add_0_r in Hj].
  destruct (decide (a = b)) as [->|Hne].
  - rewrite (decide_True (P := Some b = Some b)), decide_False in Hj by (done || lia).
    rewrite Hj. simpl.
    replace (dirtyCount es b + 1 + extra b - 1) with (dirtyCount es b + extra b) by lia.
    destruct (Z.eqb_spec (dirtyCount es b + extra b) 0) as [Hz|Hz].
    + rewrite lookup_delete_eq, decide_True by done. done.
    + rewrite lookup_insert_eq, decide_False by done. done.
  - rewrite (decide_False (P := Some b = Some a)), Z.add_0_r in Hj by congruence.
    destruct (_ =? 0); [rewrite lookup_delete_ne by done|rewrite lookup_insert_ne by done]; done.
Qed.

Lemma dropDirty_all es1 es2 ds :
  countersUpTo extra (mkJournal (es1 ++ es2) ds) →
  countersUpTo extra (mkJournal es1 (foldl (λ ds e, dropDirty e ds) ds (reverse es2))).
Proof.
  revert ds. induction es2 as [|e es2 IH] using rev_ind; intros ds Hj.
  - by rewrite app_nil_r in Hj.
  - rewrite reverse_snoc. simpl. apply IH, dropDirty_snoc. by rewrite <-app_assoc.
Qed.

Lemma countersOk_unique es ds1 ds2 :
  countersUpTo extra (mkJournal es ds1) → countersUpTo extra (mkJournal es ds2) → ds1 = ds2.
Proof. intros H1 H2. apply map_eq. intros a. etransitivity; [apply (H1 a)|symmetry; apply (H2 a)]. Qed.

(** A revert to a point of the journal succeeds when the undone entries can be undone, and
    leaves counters that agree with the entries kept. *)
Lemma revert_spec j db db' n es :
  countersUpTo extra j → entries j = take n (entries j) ++ es → (n ≤ length (entries j))%nat →
  undo (reverse es) db = Some db' →
  ∃ ds, revert j db n = Some (db', mkJournal (take n (entries j)) ds) ∧
        countersUpTo extra (mkJournal (take n (entries j)) ds).
Proof.
  intros Hj Hes Hn Hu.
  assert (drop n (entries j) = es) as Hd.
  { rewrite Hes at 1. rewrite drop_app_length'; [done|]. rewrite length_take. lia. }
  unfold revert. destruct (Nat.ltb_spec (length (entries j)) n); [lia|].
  rewrite Hd, revertLoop_undo, Hu. simpl. eexists. split; [done|].
  apply dropDirty_all. rewrite <-Hes. by destruct j.
Qed.

(** ** Undoing up to an equivalence *)
Context (eqv : relation DB) `{!Equivalence eqv}.
Context (revert_proper : ∀ e db1 db2 db1', eqv db1 db2 → revertEntry e db1 = Some db1' →
  ∃ db2', revertEntry e db2 = Some db2' ∧ eqv db1' db2').

(** Undoing [es] in [db'] succeeds and leads back to [db]. *)
Definition undoes (es : list Entry) (db db' : DB) : Prop :=
  ∃ db0, undo (reverse es) db' = Some db0 ∧ eqv db0 db.

Lemma undo_proper es db1 db2 db1' :
  eqv db1 db2 → undo es db1 = Some db1' → ∃ db2', undo es db2 = Some db2' ∧ eqv db1' db2'.
Proof.
  revert db1 db2. induction es as [|e es IH]; intros db1 db2 Heq Hu; simpl in *.
  { simplify_eq. eauto. }
  apply bind_Some in Hu as (d & Hd & Hu).
  destruct (revert_proper e db1 db2 d Heq Hd) as (d' & -> & Heq'). simpl. eauto.
Qed.

Lemma undoes_nil db db' : eqv db' db → undoes [] db db'.
Proof. intros. by exists db'. Qed.

Lemma undoes_app es1 es2 db db1 db2 :
  undoes es1 db db1 → undoes es2 db1 db2 → undoes (es1 ++ es2) db db2.
Proof.
  intros (d1 & Hu1 & He1) (d2 & Hu2 & He2). unfold undoes. rewrite reverse_app, undo_app, Hu2.
  simpl. destruct (undo_proper (reverse es1) db1 d2 d1) as (d & Hd & Heq); [by symmetry|done|].
  exists d. split; [done|]. by etransitivity; [symmetry|].
Qed.

Lemma undoes_one e db db' db0 :
  revertEntry e db' = Some db0 → eqv db0 db → undoes [e] db db'.
Proof. intros Hr He. exists db0. split; [|done]. simpl. by rewrite Hr. Qed.

Lemma undoes_eqv_r es db db1 db2 : eqv db1 db2 → undoes es db db1 → undoes es db db2.
Proof.
  intros Heq (d & Hu & He). destruct (undo_proper _ db1 db2 d Heq Hu) as (d' & Hu' & He').
  exists d'. split; [done|]. by etransitivity; [symmetry|].
Qed.

Lemma undoes_eqv_l es db1 db2 db : eqv db1 db2 → undoes es db1 db → undoes es db2 db.
Proof. intros Heq (d & Hu & He). exists d. split; [done|]. by etransitivity. Qed.

(** Cutting the undone suffix: what remains still undoes to the start. *)
Lemma undoes_split es1 es2 db db2 :
  undoes (es1 ++ es2) db db2 →
  ∃ db1, undo (reverse es2) db2 = Some db1 ∧ undoes es1 db db1.
Proof.
  intros (d & Hu & He). rewrite reverse_app, undo_app in Hu.
  apply bind_Some in Hu as (d1 & Hd1 & Hu). exists d1. split; [done|]. by exists d.
Qed.

(** ** Snapshots *)

(** The valid revisions have increasing ids below the next id, and nondecreasing positions
    in a journal of length [n]. *)
Record revsOk (vr : list revision) (next : Z) (n : nat) : Prop := {
  revs_bound : ∀ i r, vr !! i = Some r → revId r < next ∧ (journalIndex r ≤ n)%nat;
  revs_sorted : ∀ i k r1 r2, (i < k)%nat → vr !! i = Some r1 → vr !! k = Some r2 →
    revId r1 < revId r2 ∧ (journalIndex r1 ≤ journalIndex r2)%nat;
}.

Lemma revsOk_nil next n : revsOk [] next n.
Proof. split; intros *; by rewrite lookup_nil. Qed.

Lemma revsOk_grow vr next n next' n' :
  next ≤ next' → (n ≤ n')%nat → revsOk vr next n → revsOk vr next' n'.
Proof. intros Hn Hm [Hb Hs]. split; [|done]. intros i r Hr. destruct (Hb i r Hr). lia. Qed.

Lemma revsOk_snapshot vr next n : revsOk vr next n → revsOk (vr ++ [mkRevision next n]) (next + 1) n.
Proof.
  intros [Hb Hs]. split.
  - intros i r [Hr|[_ Hr]]%lookup_app_Some; [destruct (Hb i r Hr); lia|].
    apply list_lookup_singleton_Some in Hr as [_ <-]. simpl. lia.
  - intros i k r1 r2 Hlt H1 [H2|[Hk H2]]%lookup_app_Some.
    + rewrite lookup_app_l in H1 by (apply lookup_lt_Some in H2; lia). eauto.
    + apply list_lookup_singleton_Some in H2 as [Hk0 <-]. simpl.
      rewrite lookup_app_l in H1 by lia. by apply (Hb i r1).
Qed.

Lemma revsOk_take vr next n k r : revsOk vr next n → vr !! k = Some r →
  revsOk (take k vr) next (journalIndex r).
Proof.
  intros [Hb Hs] Hk. split.
  - intros i r' [Hr Hi]%lookup_take_Some. destruct (Hb i r' Hr). by destruct (Hs i k r' r).
  - intros i k' r1 r2 Hlt [H1 _]%lookup_take_Some [H2 _]%lookup_take_Some. eauto.
Qed.

(** The search finds a revision by its id. *)
Lemma searchRevision_spec vr next n k r :
  revsOk vr next n → vr !! k = Some r → searchRevision vr (revId r) = k.
Proof.
  intros [Hb Hs] Hk. pose proof (lookup_lt_Some _ _ _ Hk). apply sort_Search_spec; [lia|..].
  - intros h Hh. destruct (lookup_lt_is_Some_2 vr h) as [r' Hr']; [lia|]. rewrite Hr'.
    apply Z.leb_gt. by destruct (Hs h k r' r).
  - intros h Hh Hn. destruct (lookup_lt_is_Some_2 vr h Hn) as [r' Hr']. rewrite Hr'.
    apply Z.leb_le. destruct (decide (h = k)) as [->|]; [simplify_eq; lia|].
    destruct (Hs k h r r'); [lia|done|done|lia].
Qed.

(** The state seen from a snapshot [id] taken in [db0], with [es0] in the journal and the
    revisions [vr0]: the entries since then undo to [db0], and the snapshot is still valid. *)
Definition scoped (id : Z) (es0 : list Entry) (db0 : DB) (vr0 : list revision)
    (es : list Entry) (vr : list revision) (next : Z) (db : DB) : Prop :=
  ∃ es1 rs, es = es0 ++ es1 ∧ undoes es1 db0 db ∧
    vr = (vr0 ++ [mkRevision id (length es0)]) ++ rs ∧ revsOk vr next (length es).

Lemma scoped_snapshot es db vr next :
  revsOk vr next (length es) →
  scoped next es db vr es (vr ++ [mkRevision next (length es)]) (next + 1) db.
Proof.
  intros Hr. exists [], []. split_and!; [by rewrite app_nil_r|by apply undoes_nil|by rewrite app_nil_r|].
  by apply revsOk_snapshot.
Qed.

Lemma scoped_extend id es0 db0 vr0 es vr next db es' db' :
  scoped id es0 db0 vr0 es vr next db → undoes es' db db' →
  scoped id es0 db0 vr0 (es ++ es') vr next db'.
Proof.
  intros (es1 & rs & -> & Hu & -> & Hr) Hu'. exists (es1 ++ es'), rs. split_and!; [by rewrite app_assoc| |done|].
  - by eapply undoes_app.
  - eapply revsOk_grow; [| |done]; [lia|rewrite (length_app (es0 ++ es1)); lia].
Qed.

Lemma scoped_nested_snapshot id es0 db0 vr0 es vr next db :
  scoped id es0 db0 vr0 es vr next db →
  scoped id es0 db0 vr0 es (vr ++ [mkRevision next (length es)]) (next + 1) db.
Proof.
  intros (es1 & rs & -> & Hu & -> & Hr). exists es1, (rs ++ [mkRevision next (length (es0 ++ es1))]).
  split_and!; [done|done|by rewrite app_assoc|]. by apply revsOk_snapshot.
Qed.

(** A revert to a valid revision: it succeeds when the entries can be undone. *)
Lemma revertTo_found j vr next db k r es1 es2 db' :
  countersUpTo extra j → revsOk vr next (length (entries j)) → vr !! k = Some r →
  entries j = es1 ++ es2 → length es1 = journalIndex r → undo (reverse es2) db = Some db' →
  ∃ j', revertTo j vr db (revId r) = Some (db', j', take k vr) ∧ entries j' = es1 ∧ countersUpTo extra j'.
Proof.
  intros Hc Hr Hk He Hl Hu. unfold revertTo. rewrite (searchRevision_spec _ _ _ _ _ Hr Hk), Hk, Z.eqb_refl.
  simpl. rewrite <-Hl.
  assert (take (length es1) (entries j) = es1) as Ht by (by rewrite He, take_app_length).
  destruct (revert_spec j db db' (length es1) es2 Hc) as (ds & -> & Hds); [by rewrite Ht| |done|].
  { rewrite He, length_app. lia. }
  rewrite Ht in Hds |- *. simpl. eauto.
Qed.

(** Closing the scope: the revert to the snapshot itself brings back [db0]. *)
Lemma scoped_revert id es0 db0 vr0 j vr next db :
  countersUpTo extra j → scoped id es0 db0 vr0 (entries j) vr next db →
  ∃ db' j' es1, revertTo j vr db id = Some (db', j', vr0) ∧ eqv db' db0 ∧
    entries j = es0 ++ es1 ∧ undo (reverse es1) db = Some db' ∧ entries j' = es0 ∧ countersUpTo extra j'.
Proof.
  intros Hc (es1 & rs & He & (db' & Hu & Heq) & -> & Hr).
  destruct (revertTo_found j _ next db (length vr0) (mkRevision id (length es0)) es0 es1 db' Hc Hr)
    as (j' & Hrev & He' & Hc'); [|done|done|done|].
  { rewrite <-app_assoc. by apply list_lookup_middle. }
  rewrite <-app_assoc, take_app_length in Hrev. rewrite <-app_assoc. exists db', j', es1. by split_and!.
Qed.

(** A nested revert, to a later snapshot, stays in the scope. *)
Lemma scoped_nested_revert id es0 db0 vr0 j vr next db revid db' j' vr' :
  countersUpTo extra j → scoped id es0 db0 vr0 (entries j) vr next db → id < revid →
  revertTo j vr db revid = Some (db', j', vr') →
  ∃ es2, entries j = entries j' ++ es2 ∧ undo (reverse es2) db = Some db' ∧ countersUpTo extra j' ∧
         scoped id es0 db0 vr0 (entries j') vr' next db'.
Proof.
  intros Hc (es1 & rs & He & Hu & Hvr & Hr) Hid Hrev. unfold revertTo in Hrev.
  set (k := searchRevision vr revid) in *. destruct (vr !! k) as [r|] eqn:Hk; [|done].
  destruct (Z.eqb_spec (revId r) revid) as [Hrid|]; [|done]. simpl in Hrev.
  set (p := length vr0).
  assert (vr !! p = Some (mkRevision id (length es0))) as Hp
    by (rewrite Hvr, <-app_assoc; by apply list_lookup_middle).
  assert (p < k)%nat as Hpk.
  { destruct (decide (p < k)%nat); [done|]. destruct (decide (k = p)) as [Hkp|].
    - rewrite Hkp, Hp in Hk. simplify_eq. simpl in *. lia.
    - destruct (revs_sorted _ _ _ Hr k p r (mkRevision id (length es0))) as [Hlt _]; [lia|done|done|].
      simpl in Hlt. lia. }
  destruct (revs_sorted _ _ _ Hr p k _ r Hpk Hp Hk) as [_ Hji]. simpl in Hji.
  destruct (revs_bound _ _ _ Hr k r Hk) as [_ Hjb].
  set (m := (journalIndex r - length es0)%nat).
  assert (length (take m es1) = m) as Hm.
  { rewrite length_take. rewrite He, length_app in Hjb. lia. }
  assert (entries j = (es0 ++ take m es1) ++ drop m es1) as Hsplit
    by (by rewrite He, <-app_assoc, take_drop).
  rewrite <-(take_drop m es1) in Hu. apply undoes_split in Hu as (db1 & Hu1 & Hu2).
  destruct (revertTo_found j vr next db k r (es0 ++ take m es1) (drop m es1) db1 Hc Hr Hk Hsplit)
    as (j1 & Hrev' & He1 & Hc1); [rewrite length_app; lia|done|].
  unfold revertTo in Hrev'. rewrite Hrid in Hrev'. fold k in Hrev'. rewrite Hk, Hrid, Z.eqb_refl in Hrev'.
  simpl in Hrev'. rewrite Hrev' in Hrev. injection Hrev as -> -> <-.
  exists (drop m es1). rewrite He1. split_and!; [done|done|done|].
  exists (take m es1), (take (k - S p) rs). split_and!; [done|done| |].
  - rewrite Hvr, take_app_ge by (rewrite length_app; simpl; lia).
    f_equal. f_equal. rewrite length_app. simpl. lia.
  - eapply revsOk_grow; [| |by eapply revsOk_take]; [lia|]. rewrite length_app. lia.
Qed.

End journal.

(** The journals without explicit marks. *)
Abbreviation countersOk := (countersUpTo (λ _, 0)).

Lemma newJournal_counters {Entry DB : Type} `{JournalEntry Entry DB} : countersOk (newJournal (Entry := Entry)).
Proof. intros a. done. Qed.

(** An explicit mark. *)
Definition oneMore (a : Address) (extra : Address → Z) (b : Address) : Z :=
  if decide (b = a) then extra b + 1 else extra b.

Lemma dirty_counters {Entry DB : Type} `{JournalEntry Entry DB} extra (j : journal Entry) a :
  (∀ b, 0 ≤ extra b) → countersUpTo extra j → countersUpTo (oneMore a extra) (dirty j a).
Proof.
  intros Hx Hj b. simpl. unfold incDirty, oneMore. specialize (Hj b).
  pose proof (dirtyCount_nonneg (entries j) b). pose proof (Hx b).
  destruct (decide (b = a)) as [->|Hne].
  - rewrite lookup_insert_eq, decide_False by lia. rewrite Hj. case_decide; simpl; f_equal; lia.
  - by rewrite lookup_insert_ne.
Qed.

Lemma countersUpTo_ext {Entry DB : Type} `{JournalEntry Entry DB} extra extra' (j : journal Entry) :
  (∀ a, extra a = extra' a) → countersUpTo extra j → countersUpTo extra' j.
Proof. intros Hx Hj a. by rewrite (Hj a), Hx. Qed.
