(* ===== verification/LoadMap.v ===== *)
(** * The load-aware shard mapping ([shard/mapping/load])

    [LoadMapDB] maps an account address to the shard that now holds it.  It is a cache of
    [loadMapObject]s over a trie, with the undo journal of [Journal.v], snapshots, and the
    two steps [Finalise] and [Commit] that push the cache into the trie.

    The objects are Go pointers that live in the cache [loadMapObjects]; an object leaves
    the cache only when [createObject] replaces it, and is then reachable from the journal
    entry [resetObjectChange] alone, so values in the map and in the journal carry the same
    information as the pointers.  [addrHash] (only read by commented-out code) and the
    capacity hints of [make] are left out.  The RLP functions of go-ethereum applied to the
    object and to [MapAccount] are the interface [LoadMapCodec]. *)

From Stdlib Require Import ZArith Lia.
From stdpp Require Import base gmap list option sets.
From S2P Require Import Prelude Trie Journal.
Local Open Scope Z_scope.

(** [shard.IniShardID] ([shard/values.go]). *)
Definition IniShardID : Z := 5001.

(** ** Objects *)
Record MapAccount := mkMapAccount { TargetShardID : Z }.

Record loadMapObject := mkObject {
  address : Address;
  data : MapAccount;
  suicided : bool;
  deleted : bool;
}.

(** [newObject]: the account data passed in is overwritten with [IniShardID]. *)
Definition newObject (addr : Address) (data : MapAccount) : loadMapObject :=
  let data := mkMapAccount IniShardID in
  mkObject addr data false false.

Definition setTargetShardID (id : Z) (o : loadMapObject) : loadMapObject :=
  mkObject (address o) (mkMapAccount id) (suicided o) (deleted o).
Definition setSuicided (b : bool) (o : loadMapObject) : loadMapObject :=
  mkObject (address o) (data o) b (deleted o).
Definition setDeleted (b : bool) (o : loadMapObject) : loadMapObject :=
  mkObject (address o) (data o) (suicided o) b.
Definition markSuicided (o : loadMapObject) : loadMapObject := setSuicided true o.
Definition objTargetShardID (o : loadMapObject) : Z := TargetShardID (data o).
Definition empty (o : loadMapObject) : bool := TargetShardID (data o) =? IniShardID.

(** [deepCopy] goes through [newObject]. *)
Definition deepCopy (o : loadMapObject) : loadMapObject :=
  setDeleted (deleted o) (setSuicided (suicided o) (newObject (address o) (data o))).

(** ** Journal entries *)
Inductive lmEntry :=
| createObjectChange (account : Address)
| resetObjectChange (prev : loadMapObject)
| suicideChange (account : Address) (prev : bool) (previd : Z)
| targetShardIDChange (account : Address) (prev : Z)
| addLogChange (txhash : Hash).

Definition lmDirtied (ch : lmEntry) : option Address :=
  match ch with
  | createObjectChange account => Some account
  | resetObjectChange _ => None
  | suicideChange account _ _ => Some account
  | targetShardIDChange account _ => Some account
  | addLogChange _ => None
  end.

(** [types.Log] of go-ethereum: the four fields [AddLog] writes and the rest. *)
Record Log := mkLog {
  logTxHash : Hash; logBlockHash : Hash; logTxIndex : Z; logIndex : Z; logBody : bytes;
}.

(** RLP as the package calls it: [rlp.EncodeToBytes(obj)] on a [*loadMapObject] and
    [rlp.DecodeBytes(enc, data)] on a [*MapAccount].  Nothing is assumed of the two together:
    all fields of [loadMapObject] are unexported and it has no [EncodeRLP], so that go-ethereum
    encodes every object as the empty list, one byte, from which no account is decoded. *)
Class LoadMapCodec := {
  encodeObject : loadMapObject → option bytes;
  decodeAccount : bytes → option MapAccount;
}.

Section LoadMap.
Context `{TrieBackend} `{LoadMapCodec}.

(** ** The database *)
Record LoadMapDB := mkDB {
  db : Database;
  trie : Trie;
  loadMapObjects : gmap Address loadMapObject;
  loadMapObjectsPending : gset Address;
  loadMapObjectsDirty : gset Address;
  dbErr : option TrieErr;
  refund : Z;
  thash : Hash;
  bhash : Hash;
  txIndex : Z;
  logs : gmap Hash (list Log);
  logSize : Z;
  jnl : journal lmEntry;
  validRevisions : list revision;
  nextRevisionId : Z;
}.

(** Field updates. *)
Definition setTrie (l : LoadMapDB) t : LoadMapDB :=
  mkDB (db l) t (loadMapObjects l) (loadMapObjectsPending l) (loadMapObjectsDirty l) (dbErr l)
    (refund l) (thash l) (bhash l) (txIndex l) (logs l) (logSize l) (jnl l) (validRevisions l)
    (nextRevisionId l).
Definition setObjects (l : LoadMapDB) o : LoadMapDB :=
  mkDB (db l) (trie l) o (loadMapObjectsPending l) (loadMapObjectsDirty l) (dbErr l)
    (refund l) (thash l) (bhash l) (txIndex l) (logs l) (logSize l) (jnl l) (validRevisions l)
    (nextRevisionId l).
Definition setPending (l : LoadMapDB) p : LoadMapDB :=
  mkDB (db l) (trie l) (loadMapObjects l) p (loadMapObjectsDirty l) (dbErr l)
    (refund l) (thash l) (bhash l) (txIndex l) (logs l) (logSize l) (jnl l) (validRevisions l)
    (nextRevisionId l).
Definition setDirty (l : LoadMapDB) d : LoadMapDB :=
  mkDB (db l) (trie l) (loadMapObjects l) (loadMapObjectsPending l) d (dbErr l)
    (refund l) (thash l) (bhash l) (txIndex l) (logs l) (logSize l) (jnl l) (validRevisions l)
    (nextRevisionId l).
Definition setErr (l : LoadMapDB) e : LoadMapDB :=
  mkDB (db l) (trie l) (loadMapObjects l) (loadMapObjectsPending l) (loadMapObjectsDirty l) e
    (refund l) (thash l) (bhash l) (txIndex l) (logs l) (logSize l) (jnl l) (validRevisions l)
    (nextRevisionId l).
Definition setLogs (l : LoadMapDB) lg sz : LoadMapDB :=
  mkDB (db l) (trie l) (loadMapObjects l) (loadMapObjectsPending l) (loadMapObjectsDirty l) (dbErr l)
    (refund l) (thash l) (bhash l) (txIndex l) lg sz (jnl l) (validRevisions l)
    (nextRevisionId l).
Definition setJnl (l : LoadMapDB) j : LoadMapDB :=
  mkDB (db l) (trie l) (loadMapObjects l) (loadMapObjectsPending l) (loadMapObjectsDirty l) (dbErr l)
    (refund l) (thash l) (bhash l) (txIndex l) (logs l) (logSize l) j (validRevisions l)
    (nextRevisionId l).
Definition setRefund (l : LoadMapDB) r : LoadMapDB :=
  mkDB (db l) (trie l) (loadMapObjects l) (loadMapObjectsPending l) (loadMapObjectsDirty l) (dbErr l)
    r (thash l) (bhash l) (txIndex l) (logs l) (logSize l) (jnl l) (validRevisions l)
    (nextRevisionId l).
Definition setRevisions (l : LoadMapDB) rs next : LoadMapDB :=
  mkDB (db l) (trie l) (loadMapObjects l) (loadMapObjectsPending l) (loadMapObjectsDirty l) (dbErr l)
    (refund l) (thash l) (bhash l) (txIndex l) (logs l) (logSize l) (jnl l) rs next.

(** [New(root, db)] *)
Definition New (root : Hash) (d : Database) : TrieErr + LoadMapDB :=
  match OpenTrie d root with
  | inl err => inl err
  | inr tr => inr (mkDB d tr ∅ ∅ ∅ None 0 0 0 0 ∅ 0 newJournal [] 0)
  end.

(** [setError] remembers the first error. *)
Definition setError (l : LoadMapDB) (err : TrieErr) : LoadMapDB :=
  match dbErr l with None => setErr l (Some err) | Some _ => l end.

Definition setLoadMapObject (l : LoadMapDB) (object : loadMapObject) : LoadMapDB :=
  setObjects l (<[address object := object]> (loadMapObjects l)).

(** Writing through the pointer of a cached object. *)
Definition modifyObject (l : LoadMapDB) (addr : Address) (f : loadMapObject → loadMapObject)
    : LoadMapDB := setObjects l (alter f addr (loadMapObjects l)).

(** ** Reading objects *)
Definition getDeletedLoadMapObject (l : LoadMapDB) (addr : Address)
    : option loadMapObject * LoadMapDB :=
  match loadMapObjects l !! addr with
  | Some obj => (Some obj, l)
  | None =>
      match TryGet (trie l) addr with
      | inl err => (None, setError l err)
      | inr enc =>
          if decide (length enc = O) then (None, l)
          else match decodeAccount enc with
               | None => (None, l)
               | Some data =>
                   let obj := newObject addr data in
                   (Some obj, setLoadMapObject l obj)
               end
      end
  end.

Definition getLoadMapObject (l : LoadMapDB) (addr : Address) : option loadMapObject * LoadMapDB :=
  let '(obj, l1) := getDeletedLoadMapObject l addr in
  match obj with
  | Some o => if negb (deleted o) then (Some o, l1) else (None, l1)
  | None => (None, l1)
  end.

(** ** [revert] of the journal entries *)
Definition lmRevert (ch : lmEntry) (l : LoadMapDB) : option LoadMapDB :=
  match ch with
  | createObjectChange account =>
      let l := setObjects l (delete account (loadMapObjects l)) in
      Some (setDirty l (loadMapObjectsDirty l ∖ {[account]}))
  | resetObjectChange prev => Some (setLoadMapObject l prev)
  | suicideChange account prev previd =>
      let '(obj, l1) := getLoadMapObject l account in
      match obj with
      | Some _ => Some (modifyObject l1 account (λ o, setTargetShardID previd (setSuicided prev o)))
      | None => Some l1
      end
  | targetShardIDChange account prev =>
      let '(obj, l1) := getLoadMapObject l account in
      match obj with
      | Some _ => Some (modifyObject l1 account (setTargetShardID prev))
      | None => None
      end
  | addLogChange txhash =>
      let lgs := default [] (logs l !! txhash) in
      if decide (length lgs = 1%nat) then Some (setLogs l (delete txhash (logs l)) (u64 (logSize l - 1)))
      else if decide (length lgs = O) then None
      else Some (setLogs l (<[txhash := take (length lgs - 1) lgs]> (logs l)) (u64 (logSize l - 1)))
  end.

#[export] Instance lmJournalEntry : JournalEntry lmEntry LoadMapDB :=
  {| dirtied := lmDirtied; revertEntry := lmRevert |}.

Definition journalAppend (l : LoadMapDB) (ch : lmEntry) : LoadMapDB :=
  setJnl l (append (jnl l) ch).

(** ** Creating and writing objects *)
Definition createObject (l : LoadMapDB) (addr : Address)
    : loadMapObject * option loadMapObject * LoadMapDB :=
  let '(prev, l1) := getDeletedLoadMapObject l addr in
  let newobj := setTargetShardID IniShardID (newObject addr (mkMapAccount 0)) in
  let l2 := match prev with
            | None => journalAppend l1 (createObjectChange addr)
            | Some p => journalAppend l1 (resetObjectChange p)
            end in
  (newobj, prev, setLoadMapObject l2 newobj).

Definition CreateMapAccount (l : LoadMapDB) (addr : Address) : LoadMapDB :=
  let '(newObj, prev, l1) := createObject l addr in
  match prev with
  | Some p => modifyObject l1 addr (setTargetShardID (TargetShardID (data p)))
  | None => l1
  end.

Definition GetOrNewLoadMapObject (l : LoadMapDB) (addr : Address) : loadMapObject * LoadMapDB :=
  let '(obj, l1) := getLoadMapObject l addr in
  match obj with
  | Some o => (o, l1)
  | None => let '(newobj, _, l2) := createObject l1 addr in (newobj, l2)
  end.

(** [loadMapObject.SetTargetShardID] through the object's back pointer [db]. *)
Definition objSetTargetShardID (l : LoadMapDB) (obj : loadMapObject) (id : Z) : LoadMapDB :=
  let l1 := journalAppend l (targetShardIDChange (address obj) (TargetShardID (data obj))) in
  modifyObject l1 (address obj) (setTargetShardID id).

Definition SetTargetShardID (l : LoadMapDB) (addr : Address) (id : Z) : LoadMapDB :=
  let '(obj, l1) := GetOrNewLoadMapObject l addr in
  objSetTargetShardID l1 obj id.

Definition Suicide (l : LoadMapDB) (addr : Address) : bool * LoadMapDB :=
  let '(obj, l1) := getLoadMapObject l addr in
  match obj with
  | None => (false, l1)
  | Some o =>
      let l2 := journalAppend l1 (suicideChange addr (suicided o) (objTargetShardID o)) in
      (true, modifyObject l2 addr (λ o, setTargetShardID IniShardID (markSuicided o)))
  end.

Definition Exist (l : LoadMapDB) (addr : Address) : bool * LoadMapDB :=
  let '(obj, l1) := getLoadMapObject l addr in
  (match obj with Some _ => true | None => false end, l1).

Definition Empty (l : LoadMapDB) (addr : Address) : bool * LoadMapDB :=
  let '(so, l1) := getLoadMapObject l addr in
  (match so with None => true | Some o => empty o end, l1).

Definition GetTargetShardID (l : LoadMapDB) (addr : Address) : Z * LoadMapDB :=
  let '(obj, l1) := getLoadMapObject l addr in
  (match obj with Some o => objTargetShardID o | None => IniShardID end, l1).

(** ** Logs *)
Definition AddLog (l : LoadMapDB) (log : Log) : LoadMapDB :=
  let l1 := journalAppend l (addLogChange (thash l)) in
  let log := mkLog (thash l1) (bhash l1) (u64 (txIndex l1)) (logSize l1) (logBody log) in
  setLogs l1 (<[thash l1 := default [] (logs l1 !! thash l1) ++ [log]]> (logs l1))
    (u64 (logSize l1 + 1)).

Definition GetLogs (l : LoadMapDB) (hash : Hash) : list Log := default [] (logs l !! hash).

Definition Logs (l : LoadMapDB) : list Log := concat (map snd (map_to_list (logs l))).

(** ** Snapshots *)
Definition Snapshot (l : LoadMapDB) : Z * LoadMapDB :=
  let id := nextRevisionId l in
  (id, setRevisions l (validRevisions l ++ [mkRevision id (journal_length (jnl l))])
         (nextRevisionId l + 1)).

Definition RevertToSnapshot (l : LoadMapDB) (revid : Z) : option LoadMapDB :=
  '(l1, j, vr) ← revertTo (jnl l) (validRevisions l) l revid;
  Some (setRevisions (setJnl l1 j) vr (nextRevisionId l1)).

(** ** Finalising and committing *)
Definition clearJournalAndRefund (l : LoadMapDB) : LoadMapDB :=
  let l1 := if (0 <? length (entries (jnl l)))%nat then setRefund (setJnl l newJournal) 0 else l in
  setRevisions l1 [] (nextRevisionId l1).

Definition finaliseStep (deleteEmptyObjects : bool) (addr : Address) (l : LoadMapDB) : LoadMapDB :=
  match loadMapObjects l !! addr with
  | None => l
  | Some obj =>
      let l1 := if suicided obj || (deleteEmptyObjects && empty obj)
                then modifyObject l addr (setDeleted true) else l in
      setDirty (setPending l1 (loadMapObjectsPending l1 ∪ {[addr]}))
               (loadMapObjectsDirty l1 ∪ {[addr]})
  end.

(** The loop ranges over the keys of [journal.dirties]. *)
Definition Finalise (l : LoadMapDB) (deleteEmptyObjects : bool) : LoadMapDB :=
  let addrs := elements (dom (dirties (jnl l))) in
  clearJournalAndRefund (foldl (λ l addr, finaliseStep deleteEmptyObjects addr l) l addrs).

(** [updateLoadMapObject] panics when the object cannot be encoded. *)
Definition updateLoadMapObject (l : LoadMapDB) (obj : loadMapObject) : option LoadMapDB :=
  data ← encodeObject obj;
  let '(tr, err) := TryUpdate (trie l) (address obj) data in
  let l1 := setTrie l tr in
  Some (match err with Some e => setError l1 e | None => l1 end).

Definition deleteLoadMapObject (l : LoadMapDB) (obj : loadMapObject) : LoadMapDB :=
  let '(tr, err) := TryDelete (trie l) (address obj) in
  let l1 := setTrie l tr in
  match err with Some e => setError l1 e | None => l1 end.

(** One pending address: a missing object is a nil dereference. *)
Definition flushStep (addr : Address) (l : LoadMapDB) : option LoadMapDB :=
  obj ← loadMapObjects l !! addr;
  if deleted obj then Some (deleteLoadMapObject l obj) else updateLoadMapObject l obj.

Definition IntermediateRoot (l : LoadMapDB) (deleteEmptyObjects : bool) : option (Hash * LoadMapDB) :=
  let l1 := Finalise l deleteEmptyObjects in
  l2 ← foldl (λ ml addr, ml ≫= flushStep addr) (Some l1) (elements (loadMapObjectsPending l1));
  let l3 := setPending l2 ∅ in
  Some (TrieHash (trie l3), l3).

Inductive commitError :=
| errCommitAborted (e : TrieErr)
| errTrieCommit (e : TrieErr).

Definition Commit (l : LoadMapDB) (deleteEmptyObjects : bool)
    : option ((commitError + Hash) * LoadMapDB) :=
  match dbErr l with
  | Some e => Some (inl (errCommitAborted e), l)
  | None =>
      '(_, l1) ← IntermediateRoot l deleteEmptyObjects;
      let l2 := setDirty l1 ∅ in
      Some (match TrieCommit (trie l2) with
            | inr root => inr root
            | inl e => inl (errTrieCommit e)
            end, l2)
  end.

Definition ResetDB (l : LoadMapDB) (root : Hash) : TrieErr + LoadMapDB :=
  match OpenTrie (db l) root with
  | inl err => inl err
  | inr tr =>
      inr (clearJournalAndRefund
             (mkDB (db l) tr ∅ ∅ ∅ (dbErr l) (refund l) 0 0 0 ∅ 0 (jnl l) (validRevisions l)
                (nextRevisionId l)))
  end.

(** ** Copying *)

(** The three loops of [Copy], each over the keys of a map.  A pending or dirty address
    without object is a nil dereference. *)
Definition copyJournalDirty (l : LoadMapDB) (addr : Address) (c : LoadMapDB) : LoadMapDB :=
  match loadMapObjects l !! addr with
  | Some object =>
      setDirty (setPending (setObjects c (<[addr := deepCopy object]> (loadMapObjects c)))
                           (loadMapObjectsPending c ∪ {[addr]}))
               (loadMapObjectsDirty c ∪ {[addr]})
  | None => c
  end.
Definition copyPending (l : LoadMapDB) (addr : Address) (c : LoadMapDB) : option LoadMapDB :=
  match loadMapObjects c !! addr with
  | Some _ => Some c
  | None =>
      object ← loadMapObjects l !! addr;
      Some (setPending (setObjects c (<[addr := deepCopy object]> (loadMapObjects c)))
                       (loadMapObjectsPending c ∪ {[addr]}))
  end.
Definition copyDirty (l : LoadMapDB) (addr : Address) (c : LoadMapDB) : option LoadMapDB :=
  c1 ← match loadMapObjects c !! addr with
       | Some _ => Some c
       | None =>
           object ← loadMapObjects l !! addr;
           Some (setObjects c (<[addr := deepCopy object]> (loadMapObjects c)))
       end;
  Some (setDirty c1 (loadMapObjectsDirty c1 ∪ {[addr]})).

Definition Copy (l : LoadMapDB) : option LoadMapDB :=
  let c0 := mkDB (db l) (CopyTrie (db l) (trie l)) ∅ ∅ ∅ None (refund l) 0 0 0 ∅ (logSize l)
              newJournal [] 0 in
  let c1 := foldl (λ c addr, copyJournalDirty l addr c) c0 (elements (dom (dirties (jnl l)))) in
  c2 ← foldl (λ mc addr, mc ≫= copyPending l addr) (Some c1) (elements (loadMapObjectsPending l));
  c3 ← foldl (λ mc addr, mc ≫= copyDirty l addr) (Some c2) (elements (loadMapObjectsDirty l));
  Some (setLogs c3 (logs l) (logSize c3)).

End LoadMap.

(** * Properties *)
Section properties.
Context `{TB : TrieBackend} `{LC : LoadMapCodec}.
Implicit Types (l : LoadMapDB) (a addr : Address) (o : loadMapObject).

(** ** What an address denotes *)

(** The object a read of a cold address creates. *)
Definition loadObject (t : Trie) (addr : Address) : option loadMapObject :=
  match TryGet t addr with
  | inl _ => None
  | inr enc => if decide (length enc = O) then None else newObject addr <$> decodeAccount enc
  end.

(** The object [getDeletedLoadMapObject] returns. *)
Definition view l addr : option loadMapObject :=
  match loadMapObjects l !! addr with Some o => Some o | None => loadObject (trie l) addr end.

(** The object [getLoadMapObject] returns: the deleted ones are hidden. *)
Definition liveView l addr : option loadMapObject :=
  o ← view l addr; if negb (deleted o) then Some o else None.

(** Two databases that no read, journal undo or later operation can tell apart, except for
    the memoised database error, the journal and the snapshots. *)
Record lmEqv (l1 l2 : LoadMapDB) : Prop := {
  eqv_view : ∀ a, view l1 a = view l2 a;
  eqv_trie : trie l1 = trie l2;
  eqv_pending : loadMapObjectsPending l1 = loadMapObjectsPending l2;
  eqv_dirty : loadMapObjectsDirty l1 = loadMapObjectsDirty l2;
  eqv_logs : ∀ h, GetLogs l1 h = GetLogs l2 h;
  eqv_logSize : logSize l1 = logSize l2;
  eqv_refund : refund l1 = refund l2;
  eqv_tx : thash l1 = thash l2 ∧ bhash l1 = bhash l2 ∧ txIndex l1 = txIndex l2;
}.

#[export] Instance lmEqv_equiv : Equivalence lmEqv.
Proof.
  split.
  - intros l. by split.
  - intros l1 l2 [? ? ? ? ? ? ? (?&?&?)]. split; by auto.
  - intros l1 l2 l3 [? ? ? ? ? ? ? (?&?&?)] [? ? ? ? ? ? ? (?&?&?)].
    split; try congruence; try (split_and!; congruence);
      intros x; etransitivity; eauto.
Qed.

(** ** Reads *)
Lemma view_setError l e a : view (setError l e) a = view l a.
Proof. unfold setError. by destruct (dbErr l). Qed.

Lemma view_setObjects l objs a :
  view (setObjects l objs) a =
    match objs !! a with Some o => Some o | None => loadObject (trie l) a end.
Proof. done. Qed.

Lemma view_insert l o a :
  view (setLoadMapObject l o) a = if decide (address o = a) then Some o else view l a.
Proof.
  unfold setLoadMapObject. rewrite view_setObjects.
  case_decide as Ha; [subst; by rewrite lookup_insert_eq|by rewrite lookup_insert_ne].
Qed.

(** The cached objects are stored under their own address. *)
Definition keyed l : Prop := ∀ a o, loadMapObjects l !! a = Some o → address o = a.

Lemma view_address l a o : keyed l → view l a = Some o → address o = a.
Proof.
  intros Hk. unfold view. destruct (loadMapObjects l !! a) eqn:E; [intros [= <-]; eauto|].
  unfold loadObject. destruct (TryGet (trie l) a); [done|]. case_decide; [done|].
  destruct (decodeAccount _); [|done]. by intros [= <-].
Qed.

(** Everything but the cache, the error and the error's effects is untouched by a read. *)
Record readOnly l l' : Prop := {
  ro_eqv : lmEqv l' l;
  ro_jnl : jnl l' = jnl l;
  ro_revs : validRevisions l' = validRevisions l;
  ro_next : nextRevisionId l' = nextRevisionId l;
  ro_dom : dom (loadMapObjects l) ⊆ dom (loadMapObjects l');
  ro_keyed : keyed l → keyed l';
}.

Lemma lm_readOnly_refl l : readOnly l l.
Proof. split; done || reflexivity. Qed.

Lemma lm_readOnly_setError l e : readOnly l (setError l e).
Proof. unfold setError. destruct (dbErr l); [apply lm_readOnly_refl|]. split; done. Qed.

Lemma readOnly_load l a o :
  loadMapObjects l !! a = None → loadObject (trie l) a = Some o → address o = a →
  readOnly l (setLoadMapObject l o).
Proof.
  intros Hn Ho Ha. split; [|done|done|done| |].
  - split; [|done..]. intros b. rewrite view_insert. case_decide as Hb; [|done].
    subst. unfold view. by rewrite Hn, Ho.
  - simpl. set_solver.
  - intros Hk b o'. simpl. intros [[<- <-]|[_ ?]]%lookup_insert_Some; [done|by apply Hk].
Qed.

Lemma lm_getDeleted_spec l a :
  ∃ l', getDeletedLoadMapObject l a = (view l a, l') ∧ readOnly l l' ∧
        (∀ o, view l a = Some o → loadMapObjects l' !! a = Some o) ∧
        (view l a = None → loadMapObjects l' !! a = None).
Proof.
  unfold getDeletedLoadMapObject, view. destruct (loadMapObjects l !! a) as [o|] eqn:E.
  { exists l. split_and!; [done|apply lm_readOnly_refl|congruence|done]. }
  pose proof (readOnly_load l a) as Hload. unfold loadObject in *.
  destruct (TryGet (trie l) a) as [err|enc] eqn:Et.
  { eexists. split; [done|]. split_and!; [apply lm_readOnly_setError|done|].
    intros _. unfold setError. by destruct (dbErr l). }
  case_decide; [eexists; split; [done|]; split_and!; [apply lm_readOnly_refl|done|done]|].
  destruct (decodeAccount enc) as [d|]; simpl in *;
    [|eexists; split; [done|]; split_and!; [apply lm_readOnly_refl|done|done]].
  eexists. split; [done|]. split_and!; [by apply Hload|intros o [= <-]|done].
  simpl. by rewrite lookup_insert_eq.
Qed.

Lemma getLoadMapObject_spec l a :
  ∃ l', getLoadMapObject l a = (liveView l a, l') ∧ readOnly l l' ∧
        (∀ o, liveView l a = Some o → loadMapObjects l' !! a = Some o).
Proof.
  destruct (lm_getDeleted_spec l a) as (l' & Hg & Hro & Hs & _).
  exists l'. unfold getLoadMapObject, liveView. rewrite Hg.
  destruct (view l a) as [o|]; simpl; [|done].
  destruct (deleted o); simpl; split_and!; auto; done.
Qed.

Lemma lm_liveView_eqv l1 l2 a : (∀ b, view l1 b = view l2 b) → liveView l1 a = liveView l2 a.
Proof. intros Hv. unfold liveView. by rewrite Hv. Qed.

(** The three reading methods, in terms of the view. *)
Lemma GetTargetShardID_view l a :
  (GetTargetShardID l a).1 = match liveView l a with Some o => objTargetShardID o | None => IniShardID end.
Proof. unfold GetTargetShardID. by destruct (getLoadMapObject_spec l a) as (l' & -> & _). Qed.

Lemma Exist_view l a : (Exist l a).1 = bool_decide (is_Some (liveView l a)).
Proof.
  unfold Exist. destruct (getLoadMapObject_spec l a) as (l' & -> & _). simpl.
  by destruct (liveView l a).
Qed.

(** ** Undo entries respect the equivalence *)
Lemma view_modify l a f b :
  is_Some (loadMapObjects l !! a) →
  view (modifyObject l a f) b = if decide (b = a) then f <$> view l b else view l b.
Proof.
  intros [o Ho]. unfold modifyObject. rewrite view_setObjects. unfold view.
  case_decide as Hb; [subst; by rewrite lookup_alter_eq, Ho|by rewrite lookup_alter_ne].
Qed.

Lemma lmEqv_modify l1 l2 a f :
  lmEqv l1 l2 → is_Some (loadMapObjects l1 !! a) → is_Some (loadMapObjects l2 !! a) →
  lmEqv (modifyObject l1 a f) (modifyObject l2 a f).
Proof.
  intros He H1 H2. split; try apply He. intros b.
  rewrite !view_modify by done. by rewrite (eqv_view _ _ He).
Qed.

(** A read in each of two equivalent databases, both of which cache the object found. *)
Lemma getLoadMapObject_proper l1 l2 a :
  lmEqv l1 l2 →
  ∃ l1' l2', getLoadMapObject l1 a = (liveView l2 a, l1') ∧ getLoadMapObject l2 a = (liveView l2 a, l2') ∧
    lmEqv l1' l2' ∧
    (∀ o, liveView l2 a = Some o →
          is_Some (loadMapObjects l1' !! a) ∧ is_Some (loadMapObjects l2' !! a)).
Proof.
  intros He. destruct (getLoadMapObject_spec l1 a) as (l1' & Hg1 & Hr1 & Hs1).
  destruct (getLoadMapObject_spec l2 a) as (l2' & Hg2 & Hr2 & Hs2).
  rewrite (lm_liveView_eqv l1 l2 a (eqv_view _ _ He)) in Hg1, Hs1.
  exists l1', l2'. split_and!; [done|done| |intros o Ho; split; eexists; eauto].
  etransitivity; [apply Hr1|]. etransitivity; [exact He|]. symmetry. apply Hr2.
Qed.

Lemma lm_GetLogs_insert l h lgs sz h' :
  GetLogs (setLogs l (<[h := lgs]> (logs l)) sz) h' = if decide (h' = h) then lgs else GetLogs l h'.
Proof.
  unfold GetLogs. simpl. case_decide as E; [subst; by rewrite lookup_insert_eq|by rewrite lookup_insert_ne].
Qed.

Lemma lm_GetLogs_delete l h sz h' :
  GetLogs (setLogs l (delete h (logs l)) sz) h' = if decide (h' = h) then [] else GetLogs l h'.
Proof.
  unfold GetLogs. simpl. case_decide as E; [subst; by rewrite lookup_delete_eq|by rewrite lookup_delete_ne].
Qed.

Lemma lmRevert_proper e l1 l2 l1' :
  lmEqv l1 l2 → lmRevert e l1 = Some l1' → ∃ l2', lmRevert e l2 = Some l2' ∧ lmEqv l1' l2'.
Proof.
  intros He Hr. destruct e as [a|p|a b id|a id|h]; simpl in *.
  - injection Hr as <-. eexists. split; [done|]. split; try apply He; simpl.
    + intros b. unfold view. simpl. pose proof (eqv_view _ _ He b) as Hv. unfold view in Hv.
      destruct (decide (a = b)) as [->|Hne].
      * rewrite !lookup_delete_eq. by rewrite (eqv_trie _ _ He).
      * by rewrite !lookup_delete_ne.
    + by rewrite (eqv_dirty _ _ He).
  - injection Hr as <-. eexists. split; [done|]. split; try apply He.
    intros b. rewrite !view_insert. by rewrite (eqv_view _ _ He).
  - destruct (getLoadMapObject_proper l1 l2 a He) as (m1 & m2 & Hg1 & Hg2 & Hm & Hs).
    rewrite Hg1 in Hr. rewrite Hg2. destruct (liveView l2 a) as [o|] eqn:E; injection Hr as <-.
    + destruct (Hs o eq_refl). eexists. split; [done|]. by apply lmEqv_modify.
    + eauto.
  - destruct (getLoadMapObject_proper l1 l2 a He) as (m1 & m2 & Hg1 & Hg2 & Hm & Hs).
    rewrite Hg1 in Hr. rewrite Hg2. destruct (liveView l2 a) as [o|] eqn:E; [|done]. injection Hr as <-.
    destruct (Hs o eq_refl). eexists. split; [done|]. by apply lmEqv_modify.
  - pose proof (eqv_logs _ _ He h) as Hl. unfold GetLogs in Hl. rewrite Hl in Hr.
    rewrite (eqv_logSize _ _ He) in Hr. repeat case_decide; simplify_eq; eexists; (split; [done|]);
      (split; [apply He|apply He|apply He|apply He| |done|apply He|apply He]); intros h';
      rewrite ?lm_GetLogs_delete, ?lm_GetLogs_insert; by rewrite (eqv_logs _ _ He).
Qed.

(** ** The invariant *)

(** The part of the invariant that depends on the undo entries [es] still in the journal. *)
Record lmInvE (es : list lmEntry) l : Prop := {
  inv_keyed : keyed l;
  inv_pending : loadMapObjectsPending l ⊆ dom (loadMapObjects l);
  inv_dirty : loadMapObjectsDirty l ⊆ dom (loadMapObjects l);
  inv_logSize : isU64 (logSize l);
  (** an address the journal created has not been finalised since *)
  inv_created : ∀ a, createObjectChange a ∈ es →
    a ∉ loadMapObjectsPending l ∧ a ∉ loadMapObjectsDirty l;
}.

Definition lmInv l : Prop := lmInvE (entries (jnl l)) l ∧ countersOk (jnl l).

(** Fields that undoing does not touch. *)
Definition sameFrame l l' : Prop :=
  jnl l' = jnl l ∧ validRevisions l' = validRevisions l ∧ nextRevisionId l' = nextRevisionId l.

Lemma lm_sameFrame_trans l1 l2 l3 : sameFrame l1 l2 → sameFrame l2 l3 → sameFrame l1 l3.
Proof. unfold sameFrame. intros (?&?&?) (?&?&?). split_and!; congruence. Qed.

Lemma lm_readOnly_frame l l' : readOnly l l' → sameFrame l l'.
Proof. intros [_ ? ? ? _ _]. by split_and!. Qed.

Lemma keyed_modify l a f : (∀ o, address (f o) = address o) → keyed l → keyed (modifyObject l a f).
Proof.
  intros Hf Hk b o. unfold modifyObject. simpl. destruct (decide (a = b)) as [->|Hne].
  - rewrite lookup_alter_eq. intros (o' & Ho & ->)%fmap_Some. rewrite Hf. by apply Hk.
  - rewrite lookup_alter_ne by done. apply Hk.
Qed.

Lemma dom_modify l a f : dom (loadMapObjects (modifyObject l a f)) = dom (loadMapObjects l).
Proof. simpl. apply dom_alter_L. Qed.

Lemma lmInvE_modify es l a f :
  (∀ o, address (f o) = address o) → lmInvE es l → lmInvE es (modifyObject l a f).
Proof.
  intros Hf [Hk Hp Hd Hs Hc]. split; [by apply keyed_modify|..]; rewrite ?dom_modify; done.
Qed.

Lemma lmInvE_readOnly es l l' : readOnly l l' → lmInvE es l → lmInvE es l'.
Proof.
  intros [He _ _ _ Hdom Hk] [Hk' Hp Hd Hs Hc]. split.
  - auto.
  - rewrite (eqv_pending _ _ He). set_solver.
  - rewrite (eqv_dirty _ _ He). set_solver.
  - by rewrite (eqv_logSize _ _ He).
  - intros a Ha. rewrite (eqv_pending _ _ He), (eqv_dirty _ _ He). auto.
Qed.

Lemma lmInvE_weaken es es' l : (∀ e, e ∈ es' → e ∈ es) → lmInvE es l → lmInvE es' l.
Proof. intros Hsub [? ? ? ? Hc]. split; auto. Qed.

Lemma lmRevert_inv es e l l' :
  lmInvE (es ++ [e]) l → lmRevert e l = Some l' → lmInvE es l' ∧ sameFrame l l'.
Proof.
  intros HI Hr. pose proof (lmInvE_weaken (es ++ [e]) es l ltac:(set_solver) HI) as HI'.
  destruct e as [a|p|a b id|a id|h]; simpl in Hr.
  - injection Hr as <-. destruct (inv_created _ _ HI a) as [Hnp Hnd]; [set_solver|].
    split; [|done]. destruct HI' as [Hk Hp Hd Hs Hc]. split; simpl; [|set_solver..|done|].
    + intros b o. simpl. intros [? ?]%lookup_delete_Some. by apply Hk.
    + intros b Hb. destruct (Hc b Hb). set_solver.
  - injection Hr as <-. split; [|done]. destruct HI' as [Hk Hp Hd Hs Hc]. split; simpl; try done.
    + intros b o. simpl. intros [[<- <-]|[_ ?]]%lookup_insert_Some; [done|by apply Hk].
    + set_solver.
    + set_solver.
  - destruct (getLoadMapObject_spec l a) as (l1 & Hg & Hro & _). rewrite Hg in Hr.
    pose proof (lmInvE_readOnly es l l1 Hro HI'). pose proof (lm_readOnly_frame _ _ Hro).
    destruct (liveView l a); injection Hr as <-; [split; [by apply lmInvE_modify|done]|done].
  - destruct (getLoadMapObject_spec l a) as (l1 & Hg & Hro & _). rewrite Hg in Hr.
    pose proof (lmInvE_readOnly es l l1 Hro HI'). pose proof (lm_readOnly_frame _ _ Hro).
    destruct (liveView l a); [|done]. injection Hr as <-. split; [by apply lmInvE_modify|done].
  - destruct HI' as [Hk Hp Hd Hs Hc]. repeat case_decide; simplify_eq; (split; [|done]);
      split; simpl; try done; apply u64_range.
Qed.

Lemma lm_undo_inv es1 es2 l l' :
  lmInvE (es1 ++ es2) l → undo (reverse es2) l = Some l' → lmInvE es1 l' ∧ sameFrame l l'.
Proof.
  revert l. induction es2 as [|e es2 IH] using rev_ind; intros l HI Hu.
  - simpl in Hu. simplify_eq. rewrite app_nil_r in HI. split; [done|by split_and!].
  - rewrite reverse_snoc in Hu. simpl in Hu. apply bind_Some in Hu as (l1 & Hr & Hu).
    rewrite app_assoc in HI. destruct (lmRevert_inv _ _ _ _ HI Hr) as [HI1 Hf1].
    destruct (IH l1 HI1 Hu) as [HI2 Hf2]. split; [done|]. by eapply lm_sameFrame_trans.
Qed.

(** ** Operations and their undo entries *)

(** [l'] is [l] after operations that appended [es], which undo them. *)
Record stepped l (es : list lmEntry) l' : Prop := {
  st_entries : entries (jnl l') = entries (jnl l) ++ es;
  st_undoes : undoes lmEqv es l l';
  st_revs : validRevisions l' = validRevisions l ∧ nextRevisionId l' = nextRevisionId l;
  st_inv : lmInv l';
}.

Lemma lm_stepped_trans l es1 l1 es2 l2 :
  stepped l es1 l1 → stepped l1 es2 l2 → stepped l (es1 ++ es2) l2.
Proof.
  intros [He1 Hu1 [Hv1 Hn1] Hi1] [He2 Hu2 [Hv2 Hn2] Hi2]. split; [|..|done].
  - by rewrite He2, He1, app_assoc.
  - eapply undoes_app; [apply _|apply lmRevert_proper|done|done].
  - split; congruence.
Qed.

Lemma lm_stepped_readOnly l l' : lmInv l → readOnly l l' → stepped l [] l'.
Proof.
  intros [HI Hc] Hro. split.
  - rewrite (ro_jnl _ _ Hro). by rewrite app_nil_r.
  - apply undoes_nil, Hro.
  - split; apply Hro.
  - split; rewrite (ro_jnl _ _ Hro); [by eapply lmInvE_readOnly|done].
Qed.

(** Appending an entry and writing through the pointer of a cached live object. *)
Lemma stepped_modify l a o e f :
  lmInv l → loadMapObjects l !! a = Some o → deleted o = false →
  (∀ o', address (f o') = address o' ∧ deleted (f o') = deleted o') →
  (∃ g, g (f o) = o ∧ ∀ l1, getLoadMapObject l1 a = (liveView l1 a, (getLoadMapObject l1 a).2) →
     ∀ o1, liveView l1 a = Some o1 → lmRevert e l1 = Some (modifyObject (getLoadMapObject l1 a).2 a g)) →
  (∀ b, e ≠ createObjectChange b) →
  stepped l [e] (modifyObject (journalAppend l e) a f).
Proof.
  intros [HI Hc] Ho Hdel Hf (g & Hg & Hrev) Hne. set (l' := modifyObject (journalAppend l e) a f).
  assert (loadMapObjects l' !! a = Some (f o)) as Ho' by (unfold l'; simpl; by rewrite lookup_alter_eq, Ho).
  assert (liveView l' a = Some (f o)) as Hlv.
  { unfold liveView, view. rewrite Ho'. simpl. destruct (Hf o) as [_ ->]. by rewrite Hdel. }
  destruct (getLoadMapObject_spec l' a) as (l'' & Hget & Hro & Hcached).
  split; [done| |done|].
  - eapply undoes_one; [apply (Hrev l' ltac:(by rewrite Hget) _ Hlv)|]. rewrite Hget. simpl.
    specialize (Hcached _ Hlv).
    assert (lmEqv (modifyObject l'' a g) (modifyObject l' a g)) as ->
      by (apply lmEqv_modify; [apply Hro|eauto|eauto]).
    split; try done. intros b. rewrite view_modify by eauto. unfold l'.
    rewrite view_modify by (simpl; eauto). case_decide; [|done]. subst.
    unfold view. simpl. rewrite Ho. simpl. by rewrite Hg.
  - split; [|by apply append_counters]. unfold l'. apply lmInvE_modify; [apply Hf|].
    destruct HI as [Hk Hp Hd Hs Hcr]. split; try done. simpl.
    intros b [Hb|Hb%list_elem_of_singleton]%elem_of_app; [auto|]. by destruct (Hne b).
Qed.

Lemma lm_view_None_objects l a : view l a = None → loadMapObjects l !! a = None.
Proof. unfold view. by destruct (loadMapObjects l !! a). Qed.

(** Replacing the object of an address, with the entry that brings the old one back. *)
Lemma lm_stepped_create l a o e :
  lmInv l → address o = a →
  (e = createObjectChange a ∧ view l a = None ∨
   ∃ p, e = resetObjectChange p ∧ view l a = Some p) →
  stepped l [e] (setLoadMapObject (journalAppend l e) o).
Proof.
  intros [HI Hc] Ha He. split; [done| |done|split; [|by apply append_counters]].
  - destruct He as [[-> Hv]|(p & -> & Hv)]; eapply undoes_one; simpl; try done.
    + pose proof (lm_view_None_objects l a Hv) as Hn.
      assert (a ∉ loadMapObjectsDirty l) as Hnd.
      { intros Hin%(inv_dirty _ _ HI). by apply not_elem_of_dom in Hn. }
      split; simpl; try done; [|set_solver]. intros b. unfold view. simpl. subst a.
      destruct (decide (address o = b)) as [<-|Hne].
      * rewrite lookup_delete_eq, Hn. done.
      * by rewrite lookup_delete_ne, lookup_insert_ne.
    + pose proof (view_address l a p (inv_keyed _ _ HI) Hv) as Hp.
      split; try done. intros b. rewrite !view_insert, Hp, Ha.
      case_decide; [by subst|done].
  - destruct HI as [Hk Hp Hd Hs Hcr]. split; simpl; try done.
    + intros b o'. simpl. intros [[<- <-]|[_ ?]]%lookup_insert_Some; [done|by apply Hk].
    + set_solver.
    + set_solver.
    + intros b [Hb|Hb%list_elem_of_singleton]%elem_of_app; [by apply Hcr|].
      destruct He as [[-> Hv]|(p & -> & _)]; [|done]. simplify_eq.
      pose proof (lm_view_None_objects l _ Hv) as Hn%not_elem_of_dom.
      split; intros ?; [apply Hn, Hp|apply Hn, Hd]; done.
Qed.

Definition freshObject (a : Address) : loadMapObject := mkObject a (mkMapAccount IniShardID) false false.

Lemma createObject_stepped l a :
  lmInv l →
  ∃ e l', createObject l a = (freshObject a, view l a, l') ∧ stepped l [e] l' ∧
          loadMapObjects l' !! a = Some (freshObject a) ∧
          ∀ b, view l' b = if decide (a = b) then Some (freshObject a) else view l b.
Proof.
  intros HI. unfold createObject.
  destruct (lm_getDeleted_spec l a) as (l1 & -> & Hro & _ & _).
  pose proof (lm_stepped_readOnly l l1 HI Hro) as Hst.
  assert (∀ b, view l1 b = view l b) as Hv1 by (intros b; apply (eqv_view _ _ (ro_eqv _ _ Hro))).
  set (e := match view l a with None => createObjectChange a | Some p => resetObjectChange p end).
  exists e. replace (match view l a with
    | None => journalAppend l1 (createObjectChange a)
    | Some p => journalAppend l1 (resetObjectChange p) end)
    with (journalAppend l1 e) by (unfold e; by destruct (view l a)).
  eexists. split; [done|]. split_and!.
  - apply (lm_stepped_trans l [] l1 [e] _ Hst). apply (lm_stepped_create l1 a); [apply Hst|done|].
    rewrite Hv1. unfold e. destruct (view l a) as [p|]; [right; eauto|left; done].
  - simpl. by rewrite lookup_insert_eq.
  - intros b. rewrite view_insert. simpl. case_decide; [done|]. apply Hv1.
Qed.

Lemma stepped_modify_new l es l' a o f :
  stepped l es l' → es ≠ [] → loadMapObjects l' !! a = Some o →
  (∀ o', address (f o') = address o') →
  (∃ es0 e, es = es0 ++ [e] ∧ (e = createObjectChange a ∨ ∃ p, e = resetObjectChange p ∧ address p = a)) →
  stepped l es (modifyObject l' a f).
Proof.
  intros [He Hu Hr [HI Hc]] _ Ho Hf (es0 & e & -> & Hcase). split; [done| |done|].
  - destruct Hu as (l0 & Hu & Heq). unfold undoes. rewrite reverse_snoc in *. simpl in *.
    apply bind_Some in Hu as (l1 & Hr1 & Hu).
    destruct Hcase as [->|(p & -> & Hp)]; simpl in *; injection Hr1 as <-.
    + unfold setDirty, setObjects in *. simpl in *. rewrite delete_alter_eq. eauto.
    + unfold setLoadMapObject, setObjects in *. simpl in *. rewrite Hp in *.
      replace (<[a:=p]> (alter f a (loadMapObjects l'))) with (<[a:=p]> (loadMapObjects l')); [eauto|].
      apply map_eq. intros b. destruct (decide (a = b)) as [->|].
      * by rewrite !lookup_insert_eq.
      * by rewrite !lookup_insert_ne, lookup_alter_ne.
  - split; [by apply lmInvE_modify|done].
Qed.

Lemma liveView_deleted l a o : liveView l a = Some o → view l a = Some o ∧ deleted o = false.
Proof.
  unfold liveView. destruct (view l a) as [o'|]; simpl; [|done].
  destruct (deleted o') eqn:E; simpl; [done|]. by intros [= <-].
Qed.

(** Clearing the target id and the mark of a self-destructed object. *)
Lemma Suicide_stepped l a : lmInv l → ∃ es, stepped l es (Suicide l a).2.
Proof.
  intros HI. unfold Suicide. destruct (getLoadMapObject_spec l a) as (l1 & -> & Hro & Hc).
  pose proof (lm_stepped_readOnly l l1 HI Hro) as Hst.
  destruct (liveView l a) as [o|] eqn:Hv; simpl; [|by exists []].
  exists ([] ++ [suicideChange a (suicided o) (objTargetShardID o)]).
  eapply lm_stepped_trans; [exact Hst|]. apply stepped_modify with o; [apply Hst|auto| | | |done].
  - by apply (liveView_deleted l a).
  - done.
  - exists (λ o', setTargetShardID (objTargetShardID o) (setSuicided (suicided o) o')).
    split; [by destruct o as [? [?] ? ?]|]. intros l2 Hg o1 Ho1. simpl. rewrite Hg, Ho1. done.
Qed.

(** [GetOrNewLoadMapObject] returns a live object that is cached under the address. *)
Lemma lm_GetOrNew_stepped l a :
  lmInv l →
  ∃ es o l', GetOrNewLoadMapObject l a = (o, l') ∧ stepped l es l' ∧
    loadMapObjects l' !! a = Some o ∧ address o = a ∧ deleted o = false ∧
    ∀ b, b ≠ a → view l' b = view l b.
Proof.
  intros HI. unfold GetOrNewLoadMapObject.
  destruct (getLoadMapObject_spec l a) as (l1 & -> & Hro & Hc).
  pose proof (lm_stepped_readOnly l l1 HI Hro) as Hst.
  destruct (liveView l a) as [o|] eqn:Hv.
  - exists [], o, l1. destruct (liveView_deleted _ _ _ Hv) as [Hv' Hd]. split_and!; auto.
    + eapply view_address; [apply HI|done].
    + intros b _. apply (eqv_view _ _ (ro_eqv _ _ Hro)).
  - destruct (createObject_stepped l1 a) as (e & l' & -> & Hst' & Ho & Hv'); [apply Hst|].
    exists ([] ++ [e]), (freshObject a), l'. split_and!; auto.
    + by eapply lm_stepped_trans.
    + intros b Hb. rewrite Hv', decide_False by congruence. apply (eqv_view _ _ (ro_eqv _ _ Hro)).
Qed.

Lemma GetOrNew_value l a : (GetOrNewLoadMapObject l a).1 = default (freshObject a) (liveView l a).
Proof.
  unfold GetOrNewLoadMapObject. destruct (getLoadMapObject_spec l a) as (l1 & -> & _).
  destruct (liveView l a); [done|]. unfold createObject. by destruct (getDeletedLoadMapObject l1 a).
Qed.

Lemma SetTargetShardID_stepped l a id : lmInv l → ∃ es, stepped l es (SetTargetShardID l a id).
Proof.
  intros HI. unfold SetTargetShardID.
  destruct (lm_GetOrNew_stepped l a HI) as (es & o & l1 & -> & Hst & Ho & Ha & Hd & _).
  exists (es ++ [targetShardIDChange a (TargetShardID (data o))]).
  eapply lm_stepped_trans; [exact Hst|]. unfold objSetTargetShardID. rewrite Ha.
  apply stepped_modify with o; [apply Hst|done|done|done| |done].
  exists (setTargetShardID (TargetShardID (data o))). split; [by destruct o as [? [?] ? ?]|].
  intros l2 Hg o1 Ho1. simpl. by rewrite Hg, Ho1.
Qed.

Lemma CreateMapAccount_stepped l a : lmInv l → ∃ es, stepped l es (CreateMapAccount l a).
Proof.
  intros HI. unfold CreateMapAccount.
  destruct (createObject_stepped l a HI) as (e & l' & Hc & Hst & Ho & Hv). rewrite Hc.
  exists [e]. destruct (view l a) as [p|] eqn:Hp; [|done].
  apply stepped_modify_new with (freshObject a); [done|done|done|done|].
  exists [], e. split; [done|]. right. exists p. split; [|by eapply view_address; [apply HI|]].
  pose proof (f_equal snd Hc) as Hl. unfold createObject in Hl.
  destruct (lm_getDeleted_spec l a) as (l1 & Hg & Hro & _ & _). rewrite Hg, Hp in Hl. simpl in Hl.
  pose proof (st_entries _ _ _ Hst) as Hen. rewrite <-Hl in Hen. simpl in Hen.
  rewrite (ro_jnl _ _ Hro) in Hen. by apply app_inj_2 in Hen as [_ [= <-]].
Qed.

Lemma lm_AddLog_stepped l lg : lmInv l → stepped l [addLogChange (thash l)] (AddLog l lg).
Proof.
  intros [HI Hc]. split; [done| |done|split; [|by apply append_counters]].
  - set (lgs := GetLogs l (thash l)).
    assert (u64 (u64 (logSize l + 1) - 1) = logSize l) as Hsz.
    { unfold u64. rewrite Zminus_mod_idemp_l, Z.add_simpl_r. apply u64_small, HI. }
    unfold undoes. simpl. rewrite lookup_insert_eq. simpl. rewrite length_app. simpl.
    fold (GetLogs l (thash l)). fold lgs.
    case_decide; [|rewrite decide_False by lia]; simpl; eexists; (split; [done|]);
      (split; [done|done|done|done| |done|done|done]); intros h; unfold GetLogs; simpl.
    + destruct (decide (thash l = h)) as [<-|Hne].
      * rewrite lookup_delete_eq. unfold lgs, GetLogs in *. by destruct (logs l !! thash l) as [[|]|]; simpl in *; lia || done.
      * by rewrite lookup_delete_ne, lookup_insert_ne.
    + destruct (decide (thash l = h)) as [<-|Hne].
      * rewrite lookup_insert_eq. simpl. rewrite Nat.add_sub. by rewrite take_app_length.
      * by rewrite !lookup_insert_ne.
  - destruct HI as [Hk Hp Hd Hs Hcr]. split; simpl; try done; [apply u64_range|].
    intros b [Hb|Hb%list_elem_of_singleton]%elem_of_app; [by apply Hcr|done].
Qed.

(** ** Programs of operations *)
Inductive lmOp :=
| OpCreateMapAccount (a : Address)
| OpSetTargetShardID (a : Address) (id : Z)
| OpSuicide (a : Address)
| OpAddLog (lg : Log)
| OpGetTargetShardID (a : Address)
| OpSnapshot
| OpRevertToSnapshot (revid : Z).

Definition lmStep l (op : lmOp) : option LoadMapDB :=
  match op with
  | OpCreateMapAccount a => Some (CreateMapAccount l a)
  | OpSetTargetShardID a id => Some (SetTargetShardID l a id)
  | OpSuicide a => Some (Suicide l a).2
  | OpAddLog lg => Some (AddLog l lg)
  | OpGetTargetShardID a => Some (GetTargetShardID l a).2
  | OpSnapshot => Some (Snapshot l).2
  | OpRevertToSnapshot revid => RevertToSnapshot l revid
  end.

Definition lmRun l (ops : list lmOp) : option LoadMapDB :=
  foldl (λ ml op, ml ≫= λ l, lmStep l op) (Some l) ops.

Definition revisionsOk l : Prop := revsOk (validRevisions l) (nextRevisionId l) (length (entries (jnl l))).

(** Every operation that is not about snapshots extends the journal with its own undo. *)
Lemma lmStep_stepped l op l' :
  lmInv l → op ≠ OpSnapshot → (∀ r, op ≠ OpRevertToSnapshot r) → lmStep l op = Some l' →
  ∃ es, stepped l es l'.
Proof.
  intros HI Hs Hr Hop. destruct op; simpl in Hop; simplify_eq.
  - by apply CreateMapAccount_stepped.
  - by apply SetTargetShardID_stepped.
  - by apply Suicide_stepped.
  - eexists. by apply lm_AddLog_stepped.
  - exists []. unfold GetTargetShardID. destruct (getLoadMapObject_spec l a) as (l' & -> & Hro & _).
    by apply lm_stepped_readOnly.
  - by destruct (Hr revid).
Qed.

Lemma lmInv_setRevisions l vr next : lmInv l → lmInv (setRevisions l vr next).
Proof. by intros [[? ? ? ? ?] ?]. Qed.

(** What a program keeps true while a snapshot [id] of [l0] is open. *)
Definition lmScoped (id : Z) l0 l : Prop :=
  lmInv l ∧
  scoped lmEqv id (entries (jnl l0)) l0 (validRevisions l0)
    (entries (jnl l)) (validRevisions l) (nextRevisionId l) l.

Lemma lmScoped_revert_state l l1 j vr es2 :
  lmInv l → entries (jnl l) = entries j ++ es2 → undo (reverse es2) l = Some l1 → countersOk j →
  lmInv (setRevisions (setJnl l1 j) vr (nextRevisionId l1)) ∧ nextRevisionId l1 = nextRevisionId l.
Proof.
  intros [HI Hc] He Hu Hj. rewrite He in HI.
  destruct (lm_undo_inv (entries j) es2 l l1 HI Hu) as [HI1 (_ & _ & Hn)].
  split; [|done]. apply lmInv_setRevisions. split; [|done].
  destruct HI1 as [? ? ? ? ?]. by split.
Qed.

Lemma lmEqv_frame l1 l2 j vr next : lmEqv l1 l2 → lmEqv (setRevisions (setJnl l1 j) vr next) l2.
Proof. intros [? ? ? ? ? ? ? ?]. by split. Qed.

Lemma lmStep_scoped id l0 l op l' :
  lmScoped id l0 l → (∀ r, op = OpRevertToSnapshot r → id < r) → lmStep l op = Some l' →
  lmScoped id l0 l'.
Proof.
  intros [HI Hs] Hop Hl.
  assert (op = OpSnapshot ∨ (∃ r, op = OpRevertToSnapshot r) ∨
          op ≠ OpSnapshot ∧ ∀ r, op ≠ OpRevertToSnapshot r) as [->|[[r ->]|Hn]]
    by (destruct op; naive_solver).
  - simpl in Hl. simplify_eq. split; [by apply lmInv_setRevisions|]. simpl.
    destruct (scoped_nested_snapshot _ _ _ _ _ _ _ _ _ Hs) as (es1 & rs & ? & Hu & ? & ?).
    exists es1, rs. split_and!; [done| |done|done].
    eapply undoes_eqv_r; [apply _|apply lmRevert_proper| |exact Hu]. by split.
  - simpl in Hl. unfold RevertToSnapshot in Hl. apply bind_Some in Hl as ([[l1 j] vr] & Hrev & [= <-]).
    destruct (scoped_nested_revert (λ _, 0) (λ _, Z.le_refl 0) lmEqv _ _ _ _ _ _ _ _ _ _ _ _ (proj2 HI) Hs (Hop r eq_refl) Hrev)
      as (es2 & He & Hu & Hc & Hs').
    destruct (lmScoped_revert_state l l1 j vr es2 HI He Hu Hc) as [HI' Hnext]. split; [done|].
    simpl. rewrite Hnext. destruct Hs' as (es1 & rs & ? & Hu' & ? & ?). exists es1, rs. split_and!; [done| |done|done].
    eapply undoes_eqv_r; [apply _|apply lmRevert_proper| |exact Hu']. by split.
  - destruct (lmStep_stepped l op l' HI) as [es Hst]; [apply Hn|apply Hn|done|].
    split; [apply Hst|]. destruct (st_revs _ _ _ Hst) as [-> ->]. rewrite (st_entries _ _ _ Hst).
    eapply scoped_extend; [apply _|apply lmRevert_proper|done|apply Hst].
Qed.

Lemma lmRun_scoped id l0 l ops l' :
  lmScoped id l0 l → (∀ r, OpRevertToSnapshot r ∈ ops → id < r) → lmRun l ops = Some l' →
  lmScoped id l0 l'.
Proof.
  unfold lmRun. revert l. induction ops as [|op ops IH]; intros l Hs Hops Hrun; simpl in Hrun.
  { by simplify_eq. }
  destruct (lmStep l op) as [l1|] eqn:Hop.
  - apply (IH l1); [|set_solver|done]. eapply lmStep_scoped; [done| |done]. intros r ->. apply Hops. set_solver.
  - exfalso. clear -Hrun. induction ops; simpl in Hrun; [done|auto].
Qed.

Lemma lmInv_scoped l : lmInv l → revisionsOk l → lmScoped (nextRevisionId l) l (Snapshot l).2.
Proof.
  intros HI Hr. split; [by apply lmInv_setRevisions|]. simpl.
  destruct (scoped_snapshot lmEqv (entries (jnl l)) l (validRevisions l) (nextRevisionId l) Hr)
    as (es1 & rs & ? & Hu & ? & ?).
  exists es1, rs. split_and!; [done| |done|done].
  eapply undoes_eqv_r; [apply _|apply lmRevert_proper| |exact Hu]. by split.
Qed.

(** Snapshot and revert.  Whatever program of operations runs after [Snapshot], with
    nested snapshots and reverts to them, [RevertToSnapshot] of the snapshot's id does not
    panic and brings back the database the snapshot was taken in: every address denotes the
    same object, the same logs, pending and dirty sets and refund, the journal (with its
    per-address counters) and the valid revisions are those of before. *)
Theorem RevertToSnapshot_restores l ops l1 :
  lmInv l → revisionsOk l →
  (∀ r, OpRevertToSnapshot r ∈ ops → (Snapshot l).1 < r) →
  lmRun (Snapshot l).2 ops = Some l1 →
  ∃ l2, RevertToSnapshot l1 (Snapshot l).1 = Some l2 ∧ lmEqv l2 l ∧ jnl l2 = jnl l ∧
        validRevisions l2 = validRevisions l ∧ lmInv l2.
Proof.
  intros HI Hr Hops Hrun.
  destruct (lmRun_scoped _ l _ ops l1 (lmInv_scoped l HI Hr) Hops Hrun) as [HI1 Hs].
  destruct (scoped_revert (λ _, 0) (λ _, Z.le_refl 0) lmEqv _ _ _ _ _ _ _ _ (proj2 HI1) Hs)
    as (l2 & j' & es1 & Hrev & Heq & He & Hu & He' & Hc').
  unfold RevertToSnapshot. simpl. rewrite Hrev. simpl. eexists. split; [done|].
  rewrite <-He' in He. destruct (lmScoped_revert_state l1 l2 j' (validRevisions l) es1 HI1 He Hu Hc') as [HI2 _].
  split_and!; [by apply lmEqv_frame| |done|done]. simpl.
  destruct j' as [es ds], (jnl l) as [es0 ds0] eqn:Hj. simpl in He'. subst es. f_equal.
  eapply countersOk_unique; [done|]. rewrite <-Hj. apply HI.
Qed.

(** Equivalent databases answer alike. *)
#[export] Instance GetTargetShardID_proper : Proper (lmEqv ==> eq ==> eq) (λ l a, (GetTargetShardID l a).1).
Proof.
  intros l1 l2 He a ? <-. rewrite !GetTargetShardID_view.
  by rewrite (lm_liveView_eqv l1 l2 a (eqv_view _ _ He)).
Qed.

(** ** Reading back what was written *)

Lemma SetTargetShardID_view l a id :
  lmInv l →
  lmInv (SetTargetShardID l a id) ∧ (∀ b, b ≠ a → view (SetTargetShardID l a id) b = view l b) ∧
  liveView (SetTargetShardID l a id) a = Some (setTargetShardID id (default (freshObject a) (liveView l a))).
Proof.
  intros HI. destruct (SetTargetShardID_stepped l a id HI) as [es Hst]. split; [apply Hst|]. unfold SetTargetShardID.
  pose proof (GetOrNew_value l a) as Hval.
  destruct (lm_GetOrNew_stepped l a HI) as (es' & o & l1 & Hg & _ & Ho & Ha & Hd & Hv). rewrite Hg in Hval |- *.
  simpl in Hval. subst o. unfold liveView at 2, objSetTargetShardID. rewrite Ha. split.
  - intros b Hb. rewrite view_modify, decide_False by (simpl; eauto). by apply Hv.
  - rewrite view_modify, decide_True by (simpl; eauto). unfold view. simpl. rewrite Ho. simpl. by rewrite Hd.
Qed.

Lemma CreateMapAccount_view l a :
  lmInv l →
  lmInv (CreateMapAccount l a) ∧ (∀ b, b ≠ a → view (CreateMapAccount l a) b = view l b) ∧
  ∃ o, liveView (CreateMapAccount l a) a = Some o ∧ suicided o = false.
Proof.
  intros HI. destruct (CreateMapAccount_stepped l a HI) as [es Hst]. split; [apply Hst|]. unfold CreateMapAccount.
  destruct (createObject_stepped l a HI) as (e & l' & -> & _ & Ho & Hv).
  unfold liveView. destruct (view l a) as [p|].
  - split; [intros b Hb; rewrite view_modify by eauto; rewrite decide_False by done; by rewrite Hv, decide_False|].
    rewrite view_modify, decide_True by eauto. rewrite Hv, decide_True by done. simpl. eauto.
  - split; [intros b Hb; by rewrite Hv, decide_False|]. rewrite Hv, decide_True by done. simpl. eauto.
Qed.

(** [SetTargetShardID] is read back by [GetTargetShardID], also for an address that has
    no object yet or a deleted one, and no other address changes its target shard. *)
Theorem SetTargetShardID_get l a id b :
  lmInv l →
  (GetTargetShardID (SetTargetShardID l a id) b).1 =
    if decide (b = a) then id else (GetTargetShardID l b).1.
Proof.
  intros HI. unfold SetTargetShardID.
  destruct (lm_GetOrNew_stepped l a HI) as (es & o & l1 & -> & Hst & Ho & Ha & Hd & Hv).
  rewrite !GetTargetShardID_view. unfold liveView, objSetTargetShardID. rewrite Ha.
  rewrite view_modify by (simpl; eauto).
  case_decide as Hb.
  - subst b. unfold view. simpl. rewrite Ho. simpl. by rewrite Hd.
  - specialize (Hv b Hb). unfold view in *. simpl. by rewrite Hv.
Qed.

(** A self-destructed address reads as the initial shard, and no other address changes. *)
Theorem Suicide_get l a b :
  lmInv l →
  (GetTargetShardID (Suicide l a).2 b).1 =
    if decide (b = a) then IniShardID else (GetTargetShardID l b).1.
Proof.
  intros HI. unfold Suicide. destruct (getLoadMapObject_spec l a) as (l1 & -> & Hro & Hc).
  pose proof (λ b, eqv_view _ _ (ro_eqv _ _ Hro) b) as Hv.
  rewrite !GetTargetShardID_view. destruct (liveView l a) as [o|] eqn:Ho; simpl.
  - unfold liveView at 1. rewrite view_modify by (simpl; eauto).
    case_decide as Hb; [subst b|].
    + unfold view. simpl. rewrite (Hc o eq_refl). simpl.
      destruct (liveView_deleted _ _ _ Ho) as [_ ->]. done.
    + change (view (journalAppend l1 (suicideChange a (suicided o) (objTargetShardID o))) b) with (view l1 b).
      by rewrite Hv.
  - rewrite (lm_liveView_eqv l1 l b Hv). case_decide; [subst; by rewrite Ho|done].
Qed.

(** ** Finalising and committing *)

(** The object after [Finalise] of a dirty address. *)
Definition finalised (del : bool) o : loadMapObject :=
  if suicided o || (del && empty o) then setDeleted true o else o.

Lemma lm_finalised_idem del o : finalised del (finalised del o) = finalised del o.
Proof.
  unfold finalised. destruct (suicided o || (del && empty o)) eqn:E; [|by rewrite E].
  by destruct o as [? ? ? ?]; unfold empty in *; simpl in *; rewrite E.
Qed.

Lemma finalised_address del o : address (finalised del o) = address o.
Proof. unfold finalised. by destruct (_ || _). Qed.

(** The fields that [Finalise] and the flush leave alone. *)
Definition sameRest l l' : Prop :=
  db l' = db l ∧ dbErr l' = dbErr l ∧ jnl l' = jnl l ∧ logs l' = logs l ∧ logSize l' = logSize l ∧
  refund l' = refund l ∧ nextRevisionId l' = nextRevisionId l.

Lemma lm_finaliseStep_spec del a l :
  let l' := finaliseStep del a l in
  sameRest l l' ∧ trie l' = trie l ∧
  loadMapObjects l' = alter (finalised del) a (loadMapObjects l) ∧
  loadMapObjectsPending l' = loadMapObjectsPending l ∪ ({[a]} ∩ dom (loadMapObjects l)) ∧
  loadMapObjectsDirty l' = loadMapObjectsDirty l ∪ ({[a]} ∩ dom (loadMapObjects l)).
Proof.
  unfold finaliseStep, finalised. destruct (loadMapObjects l !! a) as [o|] eqn:E; simpl.
  - pose proof (elem_of_dom_2 _ _ _ E) as Hd.
    destruct (suicided o || (del && empty o)) eqn:E'; simpl; (split_and!; [done|done| |set_solver..]);
      apply map_eq; intros b; (destruct (decide (a = b)) as [<-|];
        [rewrite ?lookup_alter_eq, E; simpl; by rewrite E'|by rewrite ?lookup_alter_ne]).
  - apply not_elem_of_dom in E as Hd. split_and!; [done|done| |set_solver..].
    apply map_eq. intros b. destruct (decide (a = b)) as [<-|];
      [by rewrite lookup_alter_eq, E|by rewrite lookup_alter_ne].
Qed.

Lemma lm_finaliseFold_spec del addrs l :
  let l' := foldl (λ l addr, finaliseStep del addr l) l addrs in
  sameRest l l' ∧ trie l' = trie l ∧
  (∀ a, loadMapObjects l' !! a =
     if decide (a ∈ addrs) then finalised del <$> loadMapObjects l !! a else loadMapObjects l !! a) ∧
  loadMapObjectsPending l' = loadMapObjectsPending l ∪ (list_to_set addrs ∩ dom (loadMapObjects l)) ∧
  loadMapObjectsDirty l' = loadMapObjectsDirty l ∪ (list_to_set addrs ∩ dom (loadMapObjects l)).
Proof.
  revert l. induction addrs as [|a addrs IH]; intros l; simpl.
  { split_and!; [done|done|done|set_solver..]. }
  destruct (lm_finaliseStep_spec del a l) as ((?&?&?&?&?&?&?) & Ht & Ho & Hp & Hd).
  destruct (IH (finaliseStep del a l)) as ((?&?&?&?&?&?&?) & Ht' & Ho' & Hp' & Hd').
  assert (dom (loadMapObjects (finaliseStep del a l)) = dom (loadMapObjects l)) as Hdom
    by (rewrite Ho; apply dom_alter_L).
  split_and!; [split_and!; congruence|congruence| |rewrite Hp', Hp, Hdom; set_solver|rewrite Hd', Hd, Hdom; set_solver].
  intros b. rewrite Ho', Ho. clear. pose proof (elem_of_cons addrs b a) as Hin.
  destruct (decide (a = b)) as [<-|Hne].
  - rewrite lookup_alter_eq. repeat case_decide; try naive_solver.
    destruct (loadMapObjects l !! a); simpl; [by rewrite lm_finalised_idem|done].
  - rewrite lookup_alter_ne by done. repeat case_decide; naive_solver.
Qed.

(** What one call of [IntermediateRoot] or [Commit] writes to the trie. *)
Definition flushed l : gset Address :=
  loadMapObjectsPending l ∪ (dom (dirties (jnl l)) ∩ dom (loadMapObjects l)).

(** The object of an address after [Finalise]. *)
Definition finalObject l del a : option loadMapObject :=
  if decide (a ∈ dom (dirties (jnl l))) then finalised del <$> loadMapObjects l !! a
  else loadMapObjects l !! a.

Lemma finalObject_address l del a o : keyed l → finalObject l del a = Some o → address o = a.
Proof.
  intros Hk. unfold finalObject. case_decide; [|apply Hk].
  intros (o' & Ho & ->)%fmap_Some. rewrite finalised_address. by apply Hk.
Qed.

Lemma lm_finalObject_dom l del a : is_Some (finalObject l del a) ↔ a ∈ dom (loadMapObjects l).
Proof. unfold finalObject. case_decide; rewrite ?fmap_is_Some, elem_of_dom; done. Qed.

Lemma lm_Finalise_frame l del :
  let l' := Finalise l del in
  trie l' = trie l ∧ dbErr l' = dbErr l ∧ db l' = db l ∧ logSize l' = logSize l ∧ entries (jnl l') = [] ∧
  (∀ a, loadMapObjects l' !! a = finalObject l del a) ∧
  loadMapObjectsPending l' = flushed l ∧
  loadMapObjectsDirty l' = loadMapObjectsDirty l ∪ (dom (dirties (jnl l)) ∩ dom (loadMapObjects l)) ∧
  validRevisions l' = [] ∧ (countersOk (jnl l) → countersOk (jnl l')).
Proof.
  unfold Finalise. set (addrs := elements (dom (dirties (jnl l)))).
  destruct (lm_finaliseFold_spec del addrs l) as ((?&?&Hj&?&?&?&?) & Ht & Ho & Hp & Hd).
  set (l1 := foldl _ l addrs) in *.
  assert (list_to_set addrs = dom (dirties (jnl l))) as Ha by (unfold addrs; apply list_to_set_elements_L).
  assert (∀ a, loadMapObjects l1 !! a = finalObject l del a) as Ho'.
  { intros a. rewrite Ho. unfold finalObject. pose proof (elem_of_elements (dom (dirties (jnl l))) a).
    repeat case_decide; naive_solver. }
  unfold clearJournalAndRefund. destruct (entries (jnl l1)) as [|e es] eqn:E; simpl;
    split_and!; rewrite ?Hp, ?Hd, ?Ha; try done.
  by rewrite Hj.
Qed.

Lemma lm_Finalise_inv l del : lmInv l → lmInv (Finalise l del).
Proof.
  intros [[Hk Hp Hd Hs Hcr] Hcnt].
  destruct (lm_Finalise_frame l del) as (Ht & He & _ & Hsz & Hent & Ho & Hpe & Hdi & Hv & Hc).
  split; [|auto]. assert (dom (loadMapObjects (Finalise l del)) = dom (loadMapObjects l)) as Hdom.
  { apply set_eq. intros a. rewrite <-(lm_finalObject_dom l del a), elem_of_dom, Ho. done. }
  split; rewrite ?Hpe, ?Hdi, ?Hdom, ?Hsz, ?Hent; [|unfold flushed; set_solver|set_solver|done|set_solver].
  intros a o. rewrite Ho. by apply finalObject_address.
Qed.

(** An address that is not self-destructed reads the same after finalising: a deleted empty
    object reads as the initial shard, which is what it held. *)
Lemma Finalise_reads l a o :
  liveView l a = Some o → suicided o = false →
  (GetTargetShardID (Finalise l true) a).1 = objTargetShardID o.
Proof.
  intros Ho Hs. rewrite GetTargetShardID_view. destruct (liveView_deleted _ _ _ Ho) as [Hv Hd].
  destruct (lm_Finalise_frame l true) as (Ht & _ & _ & _ & _ & Hobj & _).
  unfold liveView, view in *. rewrite Hobj, Ht. unfold finalObject.
  destruct (loadMapObjects l !! a) as [o'|] eqn:E.
  - simplify_eq. case_decide; simpl; [|by rewrite Hd]. unfold finalised. rewrite Hs. simpl.
    destruct (empty o) eqn:Ee; simpl; [|by rewrite Hd]. unfold empty in Ee. apply Z.eqb_eq in Ee. done.
  - case_decide; simpl; by rewrite Hv; simpl; rewrite Hd.
Qed.

(** [Finalise] marks as deleted exactly the dirty objects that are self-destructed or
    (if asked) back to the initial shard, keeps every other object, makes every dirty object
    pending, empties the journal and forgets the snapshots, and keeps the invariant. *)
Theorem Finalise_spec l del :
  lmInv l →
  lmInv (Finalise l del) ∧
  (∀ a, loadMapObjects (Finalise l del) !! a = finalObject l del a) ∧
  loadMapObjectsPending (Finalise l del) = flushed l ∧
  jnl (Finalise l del) = newJournal ∧ validRevisions (Finalise l del) = [].
Proof.
  intros HI. pose proof (lm_Finalise_inv l del HI) as HI'.
  destruct (lm_Finalise_frame l del) as (_ & _ & _ & _ & Hent & Ho & Hpe & _ & Hv & _).
  split_and!; try done. destruct HI' as [_ Hc], (jnl (Finalise l del)) as [es ds]. simpl in Hent. subst es.
  unfold newJournal. f_equal. by eapply countersOk_unique.
Qed.

(** ** Committing to the trie *)
Section commit.
Context `{!TrieLaws}.

(** Every object can be encoded, in at least one byte (an RLP item is never empty). *)
Context (encodes : ∀ o, ∃ enc, encodeObject o = Some enc ∧ enc ≠ []).

(** The bytes the flush leaves in the trie for an object. *)
Definition storedBytes o : bytes := if deleted o then [] else default [] (encodeObject o).

Lemma lm_flushStep_spec a l o :
  loadMapObjects l !! a = Some o → address o = a →
  ∃ t, flushStep a l = Some (setTrie l t) ∧ TryGet t a = inr (storedBytes o) ∧
       ∀ b, b ≠ a → TryGet t b = TryGet (trie l) b.
Proof.
  intros Ho Ha. unfold flushStep, storedBytes. rewrite Ho. simpl. destruct (deleted o).
  - unfold deleteLoadMapObject. rewrite Ha. exists (TryDelete (trie l) a).1.
    pose proof (TryDelete_ok (trie l) a) as Hok. destruct (TryDelete (trie l) a) as [t err] eqn:E.
    simpl in Hok. subst err. split_and!; [done|..].
    + rewrite <-(TryGet_delete_eq (trie l) a), E. done.
    + intros b Hb. rewrite <-(TryGet_delete_ne (trie l) a b), E by done. done.
  - destruct (encodes o) as (enc & Henc & Hne). unfold updateLoadMapObject. rewrite Henc, Ha. simpl.
    exists (TryUpdate (trie l) a enc).1.
    pose proof (TryUpdate_ok (trie l) a enc) as Hok. destruct (TryUpdate (trie l) a enc) as [t err] eqn:E.
    simpl in Hok. subst err. split_and!; [done|..].
    + rewrite <-(TryGet_update_eq (trie l) a enc Hne), E. done.
    + intros b Hb. rewrite <-(TryGet_update_ne (trie l) a b enc), E by done. done.
Qed.

Lemma lm_flush_spec addrs l :
  keyed l → (∀ a, a ∈ addrs → is_Some (loadMapObjects l !! a)) → NoDup addrs →
  ∃ t, foldl (λ ml addr, ml ≫= flushStep addr) (Some l) addrs = Some (setTrie l t) ∧
       (∀ a, a ∉ addrs → TryGet t a = TryGet (trie l) a) ∧
       ∀ a o, a ∈ addrs → loadMapObjects l !! a = Some o → TryGet t a = inr (storedBytes o).
Proof.
  revert l. induction addrs as [|a addrs IH]; intros l Hk Hs Hnd; simpl.
  { exists (trie l). split_and!; [by destruct l|done|set_solver]. }
  apply NoDup_cons in Hnd as [Hna Hnd]. destruct (Hs a) as [o Ho]; [set_solver|].
  destruct (lm_flushStep_spec a l o Ho (Hk a o Ho)) as (t & -> & Hta & Htb).
  destruct (IH (setTrie l t)) as (t' & Hf & Hout & Hin); [exact Hk|set_solver|done|].
  exists t'. rewrite Hf. split_and!; [done|..].
  - intros b Hb. rewrite Hout, Htb by set_solver. done.
  - intros b o' [->|Hb]%elem_of_cons Ho'; [|eauto]. simplify_eq. rewrite Hout by done. done.
Qed.

(** [IntermediateRoot] does not panic and pushes the cache into the trie: afterwards the
    trie holds, for every pending or dirty address, the encoding of its object, or nothing
    when the object was deleted; every other address keeps its bytes, nothing is pending, and
    the invariant holds. *)
Lemma lm_IntermediateRoot_flushes l del :
  lmInv l →
  ∃ l', IntermediateRoot l del = Some (TrieHash (trie l'), l') ∧ lmInv l' ∧
    loadMapObjectsPending l' = ∅ ∧ dbErr l' = dbErr l ∧
    (∀ a o, a ∈ flushed l → finalObject l del a = Some o → TryGet (trie l') a = inr (storedBytes o)) ∧
    (∀ a, a ∉ flushed l → TryGet (trie l') a = TryGet (trie l) a).
Proof.
  intros HI. destruct (lm_Finalise_frame l del) as (Ht & He & _ & Hsz & Hent & Ho & Hpe & Hdi & Hv & Hc).
  destruct (lm_Finalise_inv l del HI) as [[Hk Hp Hd Hs Hcr] Hcnt].
  unfold IntermediateRoot. set (l1 := Finalise l del) in *.
  destruct (lm_flush_spec (elements (loadMapObjectsPending l1)) l1 Hk) as (t & -> & Hout & Hin);
    [intros a Ha%elem_of_elements; by apply elem_of_dom, Hp|apply NoDup_elements|].
  simpl. exists (setPending (setTrie l1 t) ∅). simpl. rewrite <-Ht, <-Hpe, <-He. split_and!; try done.
  - split; [|done]. split; simpl; [done|set_solver|done|done|].
    intros a Ha. split; [set_solver|by apply Hcr].
  - intros a o Ha Ho'. apply Hin; [by apply elem_of_elements|]. by rewrite Ho.
  - intros a Ha. apply Hout. by rewrite elem_of_elements.
Qed.

(** [Commit] on a database without a memoised error does not panic; it returns the root
    (or the error) of the trie's own commit, after the flush: the trie then holds, for every
    pending or dirty address, the encoding of its object, or nothing when the object was
    deleted; every other address keeps its bytes; nothing is left pending or dirty. *)
Theorem Commit_spec l del :
  lmInv l → dbErr l = None →
  ∃ l', Commit l del = Some (match TrieCommit (trie l') with
                             | inr root => inr root
                             | inl e => inl (errTrieCommit e)
                             end, l') ∧
    loadMapObjectsPending l' = ∅ ∧ loadMapObjectsDirty l' = ∅ ∧
    (∀ a o, a ∈ flushed l → finalObject l del a = Some o → TryGet (trie l') a = inr (storedBytes o)) ∧
    (∀ a, a ∉ flushed l → TryGet (trie l') a = TryGet (trie l) a).
Proof.
  intros HI He. destruct (lm_IntermediateRoot_flushes l del HI) as (l' & Hir & _ & Hp & _ & Hin & Hout).
  unfold Commit. rewrite He, Hir. simpl. exists (setDirty l' ∅). split; [done|]. by split_and!.
Qed.

End commit.

(** A database with a memoised error refuses to commit, and is unchanged. *)
Lemma Commit_aborts l del e : dbErr l = Some e → Commit l del = Some (inl (errCommitAborted e), l).
Proof. unfold Commit. by intros ->. Qed.

(** ** Persistence of the mapping *)

Lemma loadObject_initial t a o : loadObject t a = Some o → objTargetShardID o = IniShardID.
Proof.
  unfold loadObject. destruct (TryGet t a); [done|]. case_decide; [done|].
  unfold newObject. destruct (decodeAccount _); simpl; [|done]. by intros [= <-].
Qed.

(** An address that is not in the cache reads as the initial shard, whatever the trie
    holds for it: [newObject] overwrites the decoded account.  So a mapping that was committed
    is lost by every database opened on the committed root. *)
Theorem New_reads_initial root d l a :
  New root d = inr l → (GetTargetShardID l a).1 = IniShardID.
Proof.
  unfold New. destruct (OpenTrie d root) as [|tr]; [done|]. intros [= <-].
  rewrite GetTargetShardID_view. unfold liveView, view. simpl. rewrite lookup_empty.
  destruct (loadObject tr a) as [o|] eqn:E; simpl; [|done].
  destruct (deleted o); simpl; [done|]. by eapply loadObject_initial.
Qed.

(** The copies hold objects whose target shard is the initial one. *)
Definition allInitial l : Prop := ∀ a o, loadMapObjects l !! a = Some o → objTargetShardID o = IniShardID.

Lemma allInitial_insert l objs a o :
  loadMapObjects l = <[a := deepCopy o]> objs → (∀ b o', objs !! b = Some o' → objTargetShardID o' = IniShardID) →
  allInitial l.
Proof. intros Hl H. unfold allInitial. rewrite Hl. intros b o' [[_ <-]|[_ ?]]%lookup_insert_Some; [done|eauto]. Qed.

Lemma foldl_option_inv {S A} (P : S → Prop) (f : A → S → option S) xs s s' :
  (∀ x s s', P s → f x s = Some s' → P s') → P s →
  foldl (λ ms x, ms ≫= f x) (Some s) xs = Some s' → P s'.
Proof.
  intros Hf. revert s. induction xs as [|x xs IH]; intros s Hs Hr; simpl in Hr; [by simplify_eq|].
  destruct (f x s) as [s1|] eqn:E; [eauto|]. exfalso. clear -Hr.
  induction xs; simpl in Hr; [done|auto].
Qed.

(** In a [Copy] of the database every address reads as the initial shard: [deepCopy] goes
    through [newObject], which drops the target shard of the object it copies. *)
Theorem Copy_reads_initial l c a : Copy l = Some c → (GetTargetShardID c a).1 = IniShardID.
Proof.
  intros Hc. assert (allInitial c) as Hall.
  { unfold Copy in Hc. set (c0 := mkDB _ _ _ _ _ _ _ _ _ _ _ _ _ _ _) in Hc.
    set (addrs := elements (dom (dirties (jnl l)))) in Hc.
    assert (allInitial (foldl (λ c addr, copyJournalDirty l addr c) c0 addrs)) as H1.
    { assert (allInitial c0) as H0 by (intros b o; unfold c0; simpl; by rewrite lookup_empty).
      clear Hc. revert H0. generalize c0. induction addrs as [|b addrs IH]; intros c1 H0; simpl; [done|].
      apply IH. unfold copyJournalDirty. destruct (loadMapObjects l !! b); [|done].
      by eapply allInitial_insert. }
    apply bind_Some in Hc as (c2 & H2 & Hc). apply bind_Some in Hc as (c3 & H3 & [= <-]).
    apply (foldl_option_inv allInitial) in H2; [|clear; intros x s s' Hs Hf|done].
    - apply (foldl_option_inv allInitial) in H3; [done|clear; intros x s s' Hs Hf|done].
      unfold copyDirty in Hf. destruct (loadMapObjects s !! x); simpl in Hf; [by simplify_eq|].
      apply bind_Some in Hf as (c1 & Hf & [= <-]). apply bind_Some in Hf as (o & _ & [= <-]).
      by eapply allInitial_insert.
    - unfold copyPending in Hf. destruct (loadMapObjects s !! x); [by simplify_eq|].
      apply bind_Some in Hf as (o & _ & [= <-]). by eapply allInitial_insert. }
  rewrite GetTargetShardID_view. unfold liveView, view.
  destruct (loadMapObjects c !! a) as [o|] eqn:E; simpl.
  - destruct (deleted o); simpl; [done|]. eauto.
  - destruct (loadObject (trie c) a) as [o|] eqn:E'; simpl; [|done].
    destruct (deleted o); simpl; [done|]. by eapply loadObject_initial.
Qed.

(** [Copy] does not panic on a database that satisfies the invariant. *)
Theorem Copy_total l : lmInv l → is_Some (Copy l).
Proof.
  intros [[Hk Hp Hd _ _] _]. unfold Copy.
  set (c1 := foldl (λ c addr, copyJournalDirty l addr c) _ _).
  assert (∀ (f : Address → LoadMapDB → option LoadMapDB) xs c,
    (∀ a c, a ∈ xs → is_Some (f a c)) → is_Some (foldl (λ mc addr, mc ≫= f addr) (Some c) xs)) as Hfold.
  { intros f xs. induction xs as [|x xs IH]; intros c Hf; simpl; [done|].
    destruct (Hf x c) as [c' Hc']; [set_solver|]. rewrite Hc'. apply IH. set_solver. }
  destruct (Hfold (copyPending l) (elements (loadMapObjectsPending l)) c1) as [c2 ->].
  { intros a c Ha%elem_of_elements%Hp%elem_of_dom. destruct Ha as [o Ho]. unfold copyPending.
    destruct (loadMapObjects c !! a); [done|]. by rewrite Ho. }
  destruct (Hfold (copyDirty l) (elements (loadMapObjectsDirty l)) c2) as [c3 Hc3].
  { intros a c Ha%elem_of_elements%Hd%elem_of_dom. destruct Ha as [o Ho]. unfold copyDirty.
    destruct (loadMapObjects c !! a); simpl; [done|]. by rewrite Ho. }
  simpl. rewrite Hc3. done.
Qed.

End properties.

(** ** Concrete runs *)
Section initial.
Context `{TB : TrieBackend} `{LC : LoadMapCodec}.

(** A new database satisfies the invariant. *)
Lemma lm_New_inv root d l : New root d = inr l → lmInv l ∧ revisionsOk l.
Proof.
  unfold New. destruct (OpenTrie d root) as [|tr]; [done|]. intros [= <-].
  split; [split; [split|]|]; simpl; done.
Qed.

End initial.

(** An encoding with one item: the target shard. *)
Definition demoCodec : LoadMapCodec := {|
  encodeObject o := Some [TargetShardID (data o)];
  decodeAccount b := mkMapAccount <$> head b;
|}.

#[local] Existing Instances mapTrie demoCodec.

Definition demoDatabase : Database := ({[ 7 := {[ 1 := [2] ]} ]} : gmap Hash (gmap Z bytes), ∅).
Definition demoDB : LoadMapDB :=
  match New 7 demoDatabase with inr l => l | inl _ => mkDB (∅, ∅) ∅ ∅ ∅ ∅ None 0 0 0 0 ∅ 0 newJournal [] 0 end.

Lemma lm_demoDB_New : New 7 demoDatabase = inr demoDB.
Proof. reflexivity. Qed.

Definition demoOps : list lmOp :=
  [OpSetTargetShardID 1 3; OpAddLog (mkLog 0 0 0 0 []); OpSnapshot; OpSuicide 1; OpCreateMapAccount 2;
   OpSetTargetShardID 2 1; OpRevertToSnapshot 1; OpCreateMapAccount 1].

Lemma RevertToSnapshot_restores_witness :
  ∃ l1 l2, lmRun (Snapshot demoDB).2 demoOps = Some l1 ∧ (GetTargetShardID l1 1).1 = 3 ∧
           RevertToSnapshot l1 0 = Some l2 ∧ lmEqv l2 demoDB.
Proof.
  destruct (lm_New_inv 7 demoDatabase demoDB lm_demoDB_New) as [HI Hr].
  destruct (eval_Some (lmRun (Snapshot demoDB).2 demoOps) (λ l1, (GetTargetShardID l1 1).1 =? 3))
    as (l1 & E & Hget%Z.eqb_eq); [vm_compute; reflexivity|].
  destruct (RevertToSnapshot_restores demoDB demoOps l1 HI Hr) as (l2 & H2 & He & _); [|exact E|].
  - intros r Hin. unfold demoOps in Hin. change ((Snapshot demoDB).1) with 0. set_unfold in Hin.
    destruct_or! Hin; simplify_eq; lia.
  - exists l1, l2. split_and!; [exact E|exact Hget|exact H2|exact He].
Defined.

Lemma SetTargetShardID_get_witness :
  (GetTargetShardID (SetTargetShardID demoDB 4 9) 4).1 = 9.
Proof. rewrite (SetTargetShardID_get demoDB 4 9 4 (proj1 (lm_New_inv _ _ _ lm_demoDB_New))). reflexivity. Defined.

Lemma Suicide_get_witness :
  (GetTargetShardID (Suicide demoDB 1).2 1).1 = IniShardID.
Proof. rewrite (Suicide_get demoDB 1 1 (proj1 (lm_New_inv _ _ _ lm_demoDB_New))). reflexivity. Defined.

(** The database after a write to address 4. *)
Definition writtenDB : LoadMapDB := SetTargetShardID demoDB 4 9.

Lemma writtenDB_inv : lmInv writtenDB.
Proof.
  destruct (SetTargetShardID_stepped demoDB 4 9 (proj1 (lm_New_inv _ _ _ lm_demoDB_New))) as [es Hst]. apply Hst.
Qed.

Lemma Finalise_spec_witness :
  loadMapObjectsPending (Finalise writtenDB true) = flushed writtenDB ∧ flushed writtenDB = {[4]}.
Proof.
  split; [apply (Finalise_spec writtenDB true writtenDB_inv)|vm_compute; reflexivity].
Defined.

Lemma Commit_spec_witness :
  ∃ r l', Commit writtenDB true = Some (r, l') ∧ TryGet (trie l') 4 = inr [9].
Proof.
  destruct (@Commit_spec mapTrie demoCodec mapTrie_laws) with (l := writtenDB) (del := true)
    as (l' & Hc & _ & _ & Hin & _).
  - intros o. by eexists.
  - apply writtenDB_inv.
  - reflexivity.
  - eexists _, l'. split; [exact Hc|].
    by apply (Hin 4 (mkObject 4 (mkMapAccount 9) false false)); vm_compute.
Defined.

(** The committed mapping of address 4 to shard 9 is lost when the committed trie is opened. *)
Lemma New_reads_initial_witness :
  (GetTargetShardID demoDB 1).1 = IniShardID ∧ TryGet (trie demoDB) 1 = inr [2].
Proof. split; [apply (New_reads_initial 7 demoDatabase demoDB 1 lm_demoDB_New)|reflexivity]. Defined.

Lemma Copy_reads_initial_witness :
  ∃ c, Copy writtenDB = Some c ∧ (GetTargetShardID c 4).1 = IniShardID ∧ (GetTargetShardID writtenDB 4).1 = 9.
Proof.
  destruct (eval_Some (Copy writtenDB) (λ _, true)) as (c & E & _); [vm_compute; reflexivity|].
  exists c. split_and!; [done|apply (Copy_reads_initial writtenDB c 4 E)|vm_compute; reflexivity].
Defined.

Lemma Copy_total_witness : is_Some (Copy writtenDB).
Proof. apply (Copy_total writtenDB writtenDB_inv). Defined.
