(* ===== verification/StateDB.v ===== *)
(** * The account state ([core/state]: statedb.go, state_object.go, journal.go)

    [DB] caches the accounts of a shard over a trie: balance, nonce, code, storage, and the
    [freeze] flag that dynamic sharding adds to keep an account that is being moved to
    another shard from being changed.  Objects are pointers held in [stateObjects]; a pointer
    that was read from an address is written back at that address ([putObject]).  An object
    leaves the cache only through [createObject], which keeps it in the journal.

    RLP, Keccak and the staking wrapper are the interfaces [AccountCodec] and
    [ValidatorStore]; the trie and its database are those of [Trie.v].  A nil balance or code
    hash of [Account{}] is represented by the value [newObject] replaces it with, and [SetCode]
    with nil code by the empty list, which has the same hash and the same length.  Metrics,
    proofs and iteration over the storage trie are not modelled; [AddReward] is in [Rewards.v]. *)

From Stdlib Require Import ZArith Lia.
From stdpp Require Import base gmap list option sets.
From S2P Require Import Prelude Trie Journal.
Local Open Scope Z_scope.

(** ** Constants *)
Definition emptyRoot : Hash := 0x56e81f171bcc55a6ff8345e692c0f86e5b48e01b996cadc001622fb5e363b421.
Definition emptyCodeHash : Hash := 0xc5d2460186f7233c927e7db2dcc703c0e500b653ca82273b7bfad8045d85a470.
Definition ripemd : Address := 3.

(** ** Accounts *)
Record Account := mkAccount { Nonce : Z; Balance : Z; Root : Hash; CodeHash : Hash }.

Class AccountCodec := {
  (** [rlp.EncodeToBytes(obj)], which encodes the account; it fails on a negative balance. *)
  encodeAccount : Account → option bytes;
  decodeAccount : bytes → option Account;
  (** [rlp.EncodeToBytes(common.TrimLeftZeroes(value[:]))] *)
  encodeValue : Hash → bytes;
  (** [rlp.Split] followed by [SetBytes]; [None] when the split fails. *)
  decodeValue : bytes → option Hash;
  Keccak256Hash : bytes → Hash;
}.

Class ValidatorStore := {
  ValidatorWrapper : Type;
  SanityCheck : ValidatorWrapper → bool;
  encodeWrapper : ValidatorWrapper → option bytes;
  decodeWrapper : bytes → option ValidatorWrapper;
}.

(** [types.Log]: the four fields [AddLog] writes and the rest. *)
Record Log := mkLog { logTxHash : Hash; logBlockHash : Hash; logTxIndex : Z; logIndex : Z; logBody : bytes }.

Section StateDB.
Context `{TrieBackend} `{AccountCodec} `{ValidatorStore}.

Inductive objError := errObjTrie (e : TrieErr) | errOpenTrie (e : TrieErr) | errSplit | errLoadCode (e : TrieErr).

Abbreviation Storage := (gmap Hash Hash).

Record Object := mkObject {
  address : Address;
  data : Account;
  freeze : bool;
  objErr : option objError;
  objTrie : option Trie;
  code : option bytes;
  originStorage : Storage;
  pendingStorage : Storage;
  dirtyStorage : Storage;
  fakeStorage : option Storage;
  dirtyCode : bool;
  suicided : bool;
  deleted : bool;
}.

(** ** Object fields *)
Definition withData (o : Object) d : Object :=
  mkObject (address o) d (freeze o) (objErr o) (objTrie o) (code o) (originStorage o) (pendingStorage o)
    (dirtyStorage o) (fakeStorage o) (dirtyCode o) (suicided o) (deleted o).
Definition setFreezeState (isFreeze : bool) (o : Object) : Object :=
  mkObject (address o) (data o) isFreeze (objErr o) (objTrie o) (code o) (originStorage o) (pendingStorage o)
    (dirtyStorage o) (fakeStorage o) (dirtyCode o) (suicided o) (deleted o).
Definition withErrTrie (o : Object) e t : Object :=
  mkObject (address o) (data o) (freeze o) e t (code o) (originStorage o) (pendingStorage o)
    (dirtyStorage o) (fakeStorage o) (dirtyCode o) (suicided o) (deleted o).
Definition withCode (o : Object) c dc : Object :=
  mkObject (address o) (data o) (freeze o) (objErr o) (objTrie o) c (originStorage o) (pendingStorage o)
    (dirtyStorage o) (fakeStorage o) dc (suicided o) (deleted o).
Definition withStorage (o : Object) org pend dirt : Object :=
  mkObject (address o) (data o) (freeze o) (objErr o) (objTrie o) (code o) org pend dirt (fakeStorage o)
    (dirtyCode o) (suicided o) (deleted o).
Definition withFake (o : Object) f : Object :=
  mkObject (address o) (data o) (freeze o) (objErr o) (objTrie o) (code o) (originStorage o) (pendingStorage o)
    (dirtyStorage o) f (dirtyCode o) (suicided o) (deleted o).
Definition setSuicided (b : bool) (o : Object) : Object :=
  mkObject (address o) (data o) (freeze o) (objErr o) (objTrie o) (code o) (originStorage o) (pendingStorage o)
    (dirtyStorage o) (fakeStorage o) (dirtyCode o) b (deleted o).
Definition setDeleted (b : bool) (o : Object) : Object :=
  mkObject (address o) (data o) (freeze o) (objErr o) (objTrie o) (code o) (originStorage o) (pendingStorage o)
    (dirtyStorage o) (fakeStorage o) (dirtyCode o) (suicided o) b.

Definition setBalance (amount : Z) (o : Object) : Object :=
  withData o (mkAccount (Nonce (data o)) amount (Root (data o)) (CodeHash (data o))).
Definition setNonce (nonce : Z) (o : Object) : Object :=
  withData o (mkAccount nonce (Balance (data o)) (Root (data o)) (CodeHash (data o))).
Definition setRoot (root : Hash) (o : Object) : Object :=
  withData o (mkAccount (Nonce (data o)) (Balance (data o)) root (CodeHash (data o))).
Definition setCode (codeHash : Hash) (c : option bytes) (o : Object) : Object :=
  withCode (withData o (mkAccount (Nonce (data o)) (Balance (data o)) (Root (data o)) codeHash)) c true.
Definition setState (key value : Hash) (o : Object) : Object :=
  withStorage o (originStorage o) (pendingStorage o) (<[key := value]> (dirtyStorage o)).
Definition markSuicided (o : Object) : Object := setSuicided true o.
Definition FreezeState (o : Object) : bool := freeze o.
Definition objSetError (o : Object) (e : objError) : Object :=
  match objErr o with None => withErrTrie o (Some e) (objTrie o) | Some _ => o end.

Definition empty (o : Object) : bool :=
  (Nonce (data o) =? 0) && (Z.sgn (Balance (data o)) =? 0) && (CodeHash (data o) =? emptyCodeHash).

Definition zeroAccount : Account := mkAccount 0 0 0 emptyCodeHash.

Definition newObject (addr : Address) (d : Account) : Object :=
  let d := if Root d =? 0 then mkAccount (Nonce d) (Balance d) emptyRoot (CodeHash d) else d in
  mkObject addr d false None None None ∅ ∅ ∅ None false false false.

(** [deepCopy]: the freeze flag, the error and the fake storage are not carried over. *)
Definition deepCopy (d : Database) (o : Object) : Object :=
  let c := newObject (address o) (data o) in
  mkObject (address c) (data c) (freeze c) (objErr c) (CopyTrie d <$> objTrie o) (code o)
    (originStorage o) (pendingStorage o) (dirtyStorage o) (fakeStorage c) (dirtyCode o) (suicided o) (deleted o).

(** ** Storage of an object *)
Definition getTrie (d : Database) (o : Object) : Trie * Object :=
  match objTrie o with
  | Some t => (t, o)
  | None =>
      match OpenStorageTrie d (Root (data o)) with
      | inr t => (t, withErrTrie o (objErr o) (Some t))
      | inl err => (emptyTrie, objSetError (withErrTrie o (objErr o) (Some emptyTrie)) (errOpenTrie err))
      end
  end.

Definition objGetCommittedState (d : Database) (o : Object) (key : Hash) : Hash * Object :=
  match fakeStorage o with
  | Some f => (default 0 (f !! key), o)
  | None =>
      match pendingStorage o !! key with
      | Some value => (value, o)
      | None =>
          match originStorage o !! key with
          | Some value => (value, o)
          | None =>
              let '(t, o1) := getTrie d o in
              match TryGet t key with
              | inl err => (0, objSetError o1 (errObjTrie err))
              | inr enc =>
                  let '(value, o2) :=
                    if decide (length enc = O) then (0, o1)
                    else match decodeValue enc with
                         | Some v => (v, o1)
                         | None => (0, objSetError o1 errSplit)
                         end in
                  (value, withStorage o2 (<[key := value]> (originStorage o2)) (pendingStorage o2) (dirtyStorage o2))
              end
          end
      end
  end.

Definition objGetState (d : Database) (o : Object) (key : Hash) : Hash * Object :=
  match fakeStorage o with
  | Some f => (default 0 (f !! key), o)
  | None =>
      match dirtyStorage o !! key with
      | Some value => (value, o)
      | None => objGetCommittedState d o key
      end
  end.

Definition finalise (o : Object) : Object :=
  withStorage o (originStorage o) (dirtyStorage o ∪ pendingStorage o) ∅.

(** One pending slot: no-op changes are skipped, a zero value is deleted. *)
Definition updateSlot (acc : Trie * Object) (kv : Hash * Hash) : Trie * Object :=
  let '(t, o) := acc in
  let '(key, value) := kv in
  if value =? default 0 (originStorage o !! key) then (t, o)
  else
    let o1 := withStorage o (<[key := value]> (originStorage o)) (pendingStorage o) (dirtyStorage o) in
    let '(t', err) := if value =? 0 then TryDelete t key else TryUpdate t key (encodeValue value) in
    (t', match err with Some e => objSetError o1 (errObjTrie e) | None => o1 end).

Definition updateTrie (d : Database) (o : Object) : Trie * Object :=
  let o1 := finalise o in
  let '(t, o2) := getTrie d o1 in
  let '(t', o3) := foldl updateSlot (t, o2) (map_to_list (pendingStorage o2)) in
  (t', withStorage (withErrTrie o3 (objErr o3) (Some t')) (originStorage o3) ∅ (dirtyStorage o3)).

Definition updateRoot (d : Database) (o : Object) : Object :=
  let '(t, o1) := updateTrie d o in setRoot (TrieHash t) o1.

Definition CommitTrie (d : Database) (o : Object) : Object * option objError :=
  let '(t, o1) := updateTrie d o in
  match objErr o1 with
  | Some e => (o1, Some e)
  | None =>
      match TrieCommit t with
      | inr root => (setRoot root o1, None)
      | inl e => (o1, Some (errObjTrie e))
      end
  end.

Definition objCode (d : Database) (o : Object) : option bytes * Object :=
  match code o with
  | Some c => (Some c, o)
  | None =>
      if CodeHash (data o) =? emptyCodeHash then (None, o)
      else match ContractCode d (CodeHash (data o)) with
           | inr c => (Some c, withCode o (Some c) (dirtyCode o))
           | inl e => (None, objSetError o (errLoadCode e))
           end
  end.

(** ** Journal entries *)
Inductive sdEntry :=
| createObjectChange (account : Address)
| resetObjectChange (prev : Object)
| suicideChange (account : Address) (prev : bool) (prevbalance : Z)
| balanceChange (account : Address) (prev : Z)
| nonceChange (account : Address) (prev : Z)
| storageChange (account : Address) (key prevalue : Hash)
| codeChange (account : Address) (prevcode : option bytes) (prevhash : Hash)
| freezeChange (account : Address) (prev : bool)
| refundChange (prev : Z)
| addLogChange (txhash : Hash)
| addPreimageChange (hash : Hash)
| touchChange (account : Address).

Definition sdDirtied (ch : sdEntry) : option Address :=
  match ch with
  | createObjectChange account => Some account
  | resetObjectChange _ => None
  | suicideChange account _ _ => Some account
  | balanceChange account _ => Some account
  | nonceChange account _ => Some account
  | storageChange account _ _ => Some account
  | codeChange account _ _ => Some account
  | freezeChange account _ => Some account
  | refundChange _ => None
  | addLogChange _ => None
  | addPreimageChange _ => None
  | touchChange account => Some account
  end.

(** ** The database *)
Record DB := mkDB {
  db : Database;
  trie : Trie;
  stateObjects : gmap Address Object;
  stateObjectsPending : gset Address;
  stateObjectsDirty : gset Address;
  stateValidators : gmap Address ValidatorWrapper;
  dbErr : option TrieErr;
  refund : Z;
  thash : Hash;
  bhash : Hash;
  txIndex : Z;
  logs : gmap Hash (list Log);
  logSize : Z;
  preimages : gmap Hash bytes;
  jnl : journal sdEntry;
  validRevisions : list revision;
  nextRevisionID : Z;
}.

Definition setTrie (s : DB) d t : DB :=
  mkDB d t (stateObjects s) (stateObjectsPending s) (stateObjectsDirty s) (stateValidators s) (dbErr s) (refund s)
    (thash s) (bhash s) (txIndex s) (logs s) (logSize s) (preimages s) (jnl s) (validRevisions s) (nextRevisionID s).
Definition setObjects (s : DB) o : DB :=
  mkDB (db s) (trie s) o (stateObjectsPending s) (stateObjectsDirty s) (stateValidators s) (dbErr s) (refund s)
    (thash s) (bhash s) (txIndex s) (logs s) (logSize s) (preimages s) (jnl s) (validRevisions s) (nextRevisionID s).
Definition setSets (s : DB) p d : DB :=
  mkDB (db s) (trie s) (stateObjects s) p d (stateValidators s) (dbErr s) (refund s)
    (thash s) (bhash s) (txIndex s) (logs s) (logSize s) (preimages s) (jnl s) (validRevisions s) (nextRevisionID s).
Definition setValidators (s : DB) v : DB :=
  mkDB (db s) (trie s) (stateObjects s) (stateObjectsPending s) (stateObjectsDirty s) v (dbErr s) (refund s)
    (thash s) (bhash s) (txIndex s) (logs s) (logSize s) (preimages s) (jnl s) (validRevisions s) (nextRevisionID s).
Definition setErr (s : DB) e : DB :=
  mkDB (db s) (trie s) (stateObjects s) (stateObjectsPending s) (stateObjectsDirty s) (stateValidators s) e (refund s)
    (thash s) (bhash s) (txIndex s) (logs s) (logSize s) (preimages s) (jnl s) (validRevisions s) (nextRevisionID s).
Definition setRefund (s : DB) r : DB :=
  mkDB (db s) (trie s) (stateObjects s) (stateObjectsPending s) (stateObjectsDirty s) (stateValidators s) (dbErr s) r
    (thash s) (bhash s) (txIndex s) (logs s) (logSize s) (preimages s) (jnl s) (validRevisions s) (nextRevisionID s).
Definition setLogs (s : DB) l n : DB :=
  mkDB (db s) (trie s) (stateObjects s) (stateObjectsPending s) (stateObjectsDirty s) (stateValidators s) (dbErr s)
    (refund s) (thash s) (bhash s) (txIndex s) l n (preimages s) (jnl s) (validRevisions s) (nextRevisionID s).
Definition setPreimages (s : DB) p : DB :=
  mkDB (db s) (trie s) (stateObjects s) (stateObjectsPending s) (stateObjectsDirty s) (stateValidators s) (dbErr s)
    (refund s) (thash s) (bhash s) (txIndex s) (logs s) (logSize s) p (jnl s) (validRevisions s) (nextRevisionID s).
Definition setJnl (s : DB) j : DB :=
  mkDB (db s) (trie s) (stateObjects s) (stateObjectsPending s) (stateObjectsDirty s) (stateValidators s) (dbErr s)
    (refund s) (thash s) (bhash s) (txIndex s) (logs s) (logSize s) (preimages s) j (validRevisions s) (nextRevisionID s).
Definition setRevisions (s : DB) vr next : DB :=
  mkDB (db s) (trie s) (stateObjects s) (stateObjectsPending s) (stateObjectsDirty s) (stateValidators s) (dbErr s)
    (refund s) (thash s) (bhash s) (txIndex s) (logs s) (logSize s) (preimages s) (jnl s) vr next.

(** [New(root, db)] *)
Definition New (root : Hash) (d : Database) : TrieErr + DB :=
  match OpenTrie d root with
  | inl err => inl err
  | inr tr => inr (mkDB d tr ∅ ∅ ∅ ∅ None 0 0 0 0 ∅ 0 ∅ newJournal [] 0)
  end.

Definition setError (s : DB) (err : TrieErr) : DB :=
  match dbErr s with None => setErr s (Some err) | Some _ => s end.

(** [setStateObject], also used for a write through the pointer of a cached object. *)
Definition putObject (s : DB) (o : Object) : DB := setObjects s (<[address o := o]> (stateObjects s)).

Definition journalAppend (s : DB) (ch : sdEntry) : DB :=
  setJnl s (mkJournal (entries (jnl s) ++ [ch])
             (match sdDirtied ch with Some a => incDirty a (dirties (jnl s)) | None => dirties (jnl s) end)).

(** ** Reading objects *)
Definition getDeletedStateObject (s : DB) (addr : Address) : option Object * DB :=
  match stateObjects s !! addr with
  | Some obj => (Some obj, s)
  | None =>
      match TryGet (trie s) addr with
      | inl err => (None, setError s err)
      | inr enc =>
          if decide (length enc = O) then (None, s)
          else match decodeAccount enc with
               | None => (None, s)
               | Some d => let obj := newObject addr d in (Some obj, putObject s obj)
               end
      end
  end.

Definition getStateObject (s : DB) (addr : Address) : option Object * DB :=
  let '(obj, s1) := getDeletedStateObject s addr in
  match obj with
  | Some o => if negb (deleted o) then (Some o, s1) else (None, s1)
  | None => (None, s1)
  end.

Definition createObject (s : DB) (addr : Address) : Object * option Object * DB :=
  let '(prev, s1) := getDeletedStateObject s addr in
  let newobj := setNonce 0 (newObject addr zeroAccount) in
  let s2 := match prev with
            | None => journalAppend s1 (createObjectChange addr)
            | Some p => journalAppend s1 (resetObjectChange p)
            end in
  (newobj, prev, putObject s2 newobj).

Definition GetOrNewStateObject (s : DB) (addr : Address) : Object * DB :=
  let '(obj, s1) := getStateObject s addr in
  match obj with
  | Some o => (o, s1)
  | None => let '(o, _, s2) := createObject s1 addr in (o, s2)
  end.

Definition CreateAccount (s : DB) (addr : Address) : DB :=
  let '(newObj, prev, s1) := createObject s addr in
  match prev with
  | Some p => putObject s1 (setBalance (Balance (data p)) newObj)
  | None => s1
  end.

(** ** [revert] of the journal entries *)

(** [s.getStateObject(account).f()]: a missing object is a nil dereference. *)
Definition onObject (s : DB) (account : Address) (f : Object → Object) : option DB :=
  let '(obj, s1) := getStateObject s account in
  match obj with Some o => Some (putObject s1 (f o)) | None => None end.

Definition sdRevert (ch : sdEntry) (s : DB) : option DB :=
  match ch with
  | createObjectChange account =>
      let s1 := setObjects s (delete account (stateObjects s)) in
      Some (setSets s1 (stateObjectsPending s1) (stateObjectsDirty s1 ∖ {[account]}))
  | resetObjectChange prev => Some (putObject s prev)
  | suicideChange account prev prevbalance =>
      let '(obj, s1) := getStateObject s account in
      match obj with
      | Some o => Some (putObject s1 (setBalance prevbalance (setSuicided prev o)))
      | None => Some s1
      end
  | touchChange _ => Some s
  | balanceChange account prev => onObject s account (setBalance prev)
  | nonceChange account prev => onObject s account (setNonce prev)
  | codeChange account prevcode prevhash => onObject s account (setCode prevhash prevcode)
  | freezeChange account prev => onObject s account (setFreezeState prev)
  | storageChange account key prevalue => onObject s account (setState key prevalue)
  | refundChange prev => Some (setRefund s prev)
  | addLogChange txhash =>
      let lgs := default [] (logs s !! txhash) in
      if decide (length lgs = 1%nat) then Some (setLogs s (delete txhash (logs s)) (u64 (logSize s - 1)))
      else if decide (length lgs = O) then None
      else Some (setLogs s (<[txhash := take (length lgs - 1) lgs]> (logs s)) (u64 (logSize s - 1)))
  | addPreimageChange hash => Some (setPreimages s (delete hash (preimages s)))
  end.

#[export] Instance sdJournalEntry : JournalEntry sdEntry DB := {| dirtied := sdDirtied; revertEntry := sdRevert |}.

(** ** Getters *)
Definition withObject {A} (s : DB) (addr : Address) (dflt : A) (f : Object → A) : A * DB :=
  let '(obj, s1) := getStateObject s addr in
  (match obj with Some o => f o | None => dflt end, s1).

Definition Exist (s : DB) (addr : Address) : bool * DB := withObject s addr false (λ _, true).
Definition Empty (s : DB) (addr : Address) : bool * DB := withObject s addr true empty.
Definition GetBalance (s : DB) (addr : Address) : Z * DB := withObject s addr 0 (λ o, Balance (data o)).
Definition GetNonce (s : DB) (addr : Address) : Z * DB := withObject s addr 0 (λ o, Nonce (data o)).
Definition GetCodeHash (s : DB) (addr : Address) : Hash * DB := withObject s addr 0 (λ o, CodeHash (data o)).
Definition HasSuicided (s : DB) (addr : Address) : bool * DB := withObject s addr false suicided.

(** The reads that also write the object's caches. *)
Definition readObject {A} (s : DB) (addr : Address) (dflt : A) (f : Object → A * Object) : A * DB :=
  let '(obj, s1) := getStateObject s addr in
  match obj with
  | Some o => let '(x, o1) := f o in (x, putObject s1 o1)
  | None => (dflt, s1)
  end.

Definition GetCode (s : DB) (addr : Address) : option bytes * DB := readObject s addr None (objCode (db s)).
Definition GetState (s : DB) (addr : Address) (hash : Hash) : Hash * DB :=
  readObject s addr 0 (λ o, objGetState (db s) o hash).
Definition GetCommittedState (s : DB) (addr : Address) (hash : Hash) : Hash * DB :=
  readObject s addr 0 (λ o, objGetCommittedState (db s) o hash).

(** ** Object setters, through the object's back pointer to the database *)
Definition touch (s : DB) (o : Object) : DB :=
  let s1 := journalAppend s (touchChange (address o)) in
  if address o =? ripemd then setJnl s1 (dirty (jnl s1) (address o)) else s1.

Definition objSetBalance (s : DB) (o : Object) (amount : Z) : DB :=
  putObject (journalAppend s (balanceChange (address o) (Balance (data o)))) (setBalance amount o).

Definition objAddBalance (s : DB) (o : Object) (amount : Z) : DB :=
  if Z.sgn amount =? 0 then (if empty o then touch s o else s)
  else objSetBalance s o (Balance (data o) + amount).

Definition objSubBalance (s : DB) (o : Object) (amount : Z) : DB :=
  if Z.sgn amount =? 0 then s else objSetBalance s o (Balance (data o) - amount).

Definition objSetNonce (s : DB) (o : Object) (nonce : Z) : DB :=
  putObject (journalAppend s (nonceChange (address o) (Nonce (data o)))) (setNonce nonce o).

Definition objSetCode (s : DB) (o : Object) (codeHash : Hash) (c : bytes) : DB :=
  let '(prevcode, o1) := objCode (db s) o in
  putObject (journalAppend (putObject s o1) (codeChange (address o1) prevcode (CodeHash (data o1))))
    (setCode codeHash (Some c) o1).

Definition objSetState (s : DB) (o : Object) (key value : Hash) : DB :=
  match fakeStorage o with
  | Some f => putObject s (withFake o (Some (<[key := value]> f)))
  | None =>
      let '(prev, o1) := objGetState (db s) o key in
      let s1 := putObject s o1 in
      if prev =? value then s1
      else putObject (journalAppend s1 (storageChange (address o1) key prev)) (setState key value o1)
  end.

Definition objSetFreezeState (s : DB) (o : Object) (isFreeze : bool) : DB :=
  putObject (journalAppend s (freezeChange (address o) (freeze o))) (setFreezeState isFreeze o).

(** ** Setters of the database: the ones with the freeze guard *)
Definition guarded (s : DB) (addr : Address) (f : DB → Object → DB) : DB :=
  let '(stateObject, s1) := GetOrNewStateObject s addr in
  if FreezeState stateObject then s1 else f s1 stateObject.

Definition AddBalance (s : DB) (addr : Address) (amount : Z) : DB := guarded s addr (λ s o, objAddBalance s o amount).
Definition SubBalance (s : DB) (addr : Address) (amount : Z) : DB := guarded s addr (λ s o, objSubBalance s o amount).
Definition SetBalance (s : DB) (addr : Address) (amount : Z) : DB := guarded s addr (λ s o, objSetBalance s o amount).
Definition SetNonce (s : DB) (addr : Address) (nonce : Z) : DB := guarded s addr (λ s o, objSetNonce s o nonce).
Definition SetCode (s : DB) (addr : Address) (c : bytes) : DB :=
  guarded s addr (λ s o, objSetCode s o (Keccak256Hash c) c).
Definition SetState (s : DB) (addr : Address) (key value : Hash) : DB :=
  guarded s addr (λ s o, objSetState s o key value).

Definition SetFreezeState (s : DB) (addr : Address) (isFreeze : bool) : DB :=
  let '(stateObject, s1) := GetOrNewStateObject s addr in objSetFreezeState s1 stateObject isFreeze.

Definition GetFreezeState (s : DB) (addr : Address) : bool * DB :=
  let '(stateObject, s1) := GetOrNewStateObject s addr in (FreezeState stateObject, s1).

Definition Suicide (s : DB) (addr : Address) : bool * DB :=
  let '(obj, s1) := getStateObject s addr in
  match obj with
  | None => (false, s1)
  | Some o =>
      let s2 := journalAppend s1 (suicideChange addr (suicided o) (Balance (data o))) in
      (true, putObject s2 (setBalance 0 (markSuicided o)))
  end.

(** ** Logs, preimages, refund *)
Definition AddLog (s : DB) (log : Log) : DB :=
  let s1 := journalAppend s (addLogChange (thash s)) in
  let log := mkLog (thash s1) (bhash s1) (u64 (txIndex s1)) (logSize s1) (logBody log) in
  setLogs s1 (<[thash s1 := default [] (logs s1 !! thash s1) ++ [log]]> (logs s1)) (u64 (logSize s1 + 1)).

Definition GetLogs (s : DB) (hash : Hash) : list Log := default [] (logs s !! hash).

Definition AddPreimage (s : DB) (hash : Hash) (preimage : bytes) : DB :=
  match preimages s !! hash with
  | Some _ => s
  | None =>
      let s1 := journalAppend s (addPreimageChange hash) in
      setPreimages s1 (<[hash := preimage]> (preimages s1))
  end.

Definition AddRefund (s : DB) (gas : Z) : DB :=
  let s1 := journalAppend s (refundChange (refund s)) in setRefund s1 (u64 (refund s1 + gas)).

Definition SubRefund (s : DB) (gas : Z) : option DB :=
  let s1 := journalAppend s (refundChange (refund s)) in
  if gas >? refund s1 then None else Some (setRefund s1 (u64 (refund s1 - gas))).

Definition PrepareTx (s : DB) (th bh : Hash) (ti : Z) : DB :=
  mkDB (db s) (trie s) (stateObjects s) (stateObjectsPending s) (stateObjectsDirty s) (stateValidators s) (dbErr s)
    (refund s) th bh ti (logs s) (logSize s) (preimages s) (jnl s) (validRevisions s) (nextRevisionID s).

(** ** Snapshots *)
Definition Snapshot (s : DB) : Z * DB :=
  let id := nextRevisionID s in
  (id, setRevisions s (validRevisions s ++ [mkRevision id (journal_length (jnl s))]) (nextRevisionID s + 1)).

Definition RevertToSnapshot (s : DB) (revid : Z) : option DB :=
  '(s1, j, vr) ← revertTo (jnl s) (validRevisions s) s revid;
  Some (setRevisions (setJnl s1 j) vr (nextRevisionID s1)).

(** ** Validators *)
Inductive validatorError := errAddressNotPresent | errDecodeWrapper | errSanity | errEncodeWrapper.

Definition ValidatorWrapperCopy (s : DB) (addr : Address) : (validatorError + ValidatorWrapper) * DB :=
  let '(by', s1) := GetCode s addr in
  match by' with
  | None | Some [] => (inl errAddressNotPresent, s1)
  | Some by' => (match decodeWrapper by' with Some v => inr v | None => inl errDecodeWrapper end, s1)
  end.

(** [ValidatorWrapper]: the cached wrapper, or a copy that is cached from now on. *)
Definition GetValidatorWrapper (s : DB) (addr : Address) : (validatorError + ValidatorWrapper) * DB :=
  match stateValidators s !! addr with
  | Some cached => (inr cached, s)
  | None =>
      let '(res, s1) := ValidatorWrapperCopy s addr in
      match res with
      | inl err => (inl err, s1)
      | inr val => (inr val, setValidators s1 (<[addr := val]> (stateValidators s1)))
      end
  end.

Definition UpdateValidatorWrapper (s : DB) (addr : Address) (val : ValidatorWrapper) : option validatorError * DB :=
  if negb (SanityCheck val) then (Some errSanity, s)
  else match encodeWrapper val with
       | None => (Some errEncodeWrapper, s)
       | Some by' =>
           let s1 := SetCode s addr by' in
           (None, setValidators s1 (<[addr := val]> (stateValidators s1)))
       end.

(** ** Finalising and committing *)
Definition clearJournalAndRefund (s : DB) : DB :=
  let s1 := if (0 <? length (entries (jnl s)))%nat then setRefund (setJnl s newJournal) 0 else s in
  setRevisions s1 [] (nextRevisionID s1).

Definition finaliseStep (deleteEmptyObjects : bool) (addr : Address) (s : DB) : DB :=
  match stateObjects s !! addr with
  | None => s
  | Some obj =>
      let obj' := if suicided obj || (deleteEmptyObjects && empty obj) then setDeleted true obj else finalise obj in
      let s1 := setObjects s (<[addr := obj']> (stateObjects s)) in
      setSets s1 (stateObjectsPending s1 ∪ {[addr]}) (stateObjectsDirty s1 ∪ {[addr]})
  end.

Definition Finalise (s : DB) (deleteEmptyObjects : bool) : DB :=
  let s1 := foldl (λ s av, (UpdateValidatorWrapper s av.1 av.2).2) s (map_to_list (stateValidators s)) in
  let addrs := elements (dom (dirties (jnl s1))) in
  clearJournalAndRefund (foldl (λ s addr, finaliseStep deleteEmptyObjects addr s) s1 addrs).

Definition updateStateObject (s : DB) (obj : Object) : option DB :=
  d ← encodeAccount (data obj);
  let '(tr, err) := TryUpdate (trie s) (address obj) d in
  let s1 := setTrie s (db s) tr in
  Some (match err with Some e => setError s1 e | None => s1 end).

Definition deleteStateObject (s : DB) (obj : Object) : DB :=
  let '(tr, err) := TryDelete (trie s) (address obj) in
  let s1 := setTrie s (db s) tr in
  match err with Some e => setError s1 e | None => s1 end.

Definition flushStep (addr : Address) (s : DB) : option DB :=
  obj ← stateObjects s !! addr;
  if deleted obj then Some (deleteStateObject s obj)
  else
    let obj' := updateRoot (db s) obj in
    updateStateObject (putObject s obj') obj'.

Definition IntermediateRoot (s : DB) (deleteEmptyObjects : bool) : option (Hash * DB) :=
  let s1 := Finalise s deleteEmptyObjects in
  s2 ← foldl (λ ms addr, ms ≫= flushStep addr) (Some s1) (elements (stateObjectsPending s1));
  let s3 := setSets s2 ∅ (stateObjectsDirty s2) in
  Some (TrieHash (trie s3), s3).

Inductive commitError := errObject (e : objError) | errTrieCommit (e : TrieErr).

(** One dirty object of [Commit]: its code blob and its storage trie. *)
Definition commitStep (addr : Address) (s : DB) : option (DB * option commitError) :=
  obj ← stateObjects s !! addr;
  if deleted obj then Some (s, None)
  else
    let '(d, obj1) := match code obj with
                      | Some c => if dirtyCode obj then (InsertBlob (db s) (CodeHash (data obj)) c, withCode obj (Some c) false)
                                  else (db s, obj)
                      | None => (db s, obj)
                      end in
    let s1 := setTrie s d (trie s) in
    let '(obj2, err) := CommitTrie (db s1) obj1 in
    Some (putObject s1 obj2, errObject <$> err).

Fixpoint commitLoop (addrs : list Address) (s : DB) : option (DB * option commitError) :=
  match addrs with
  | [] => Some (s, None)
  | addr :: rest =>
      '(s1, err) ← commitStep addr s;
      match err with Some e => Some (s1, Some e) | None => commitLoop rest s1 end
  end.

Definition Commit (s : DB) (deleteEmptyObjects : bool) : option ((commitError + Hash) * DB) :=
  '(_, s1) ← IntermediateRoot s deleteEmptyObjects;
  '(s2, err) ← commitLoop (elements (stateObjectsDirty s1)) s1;
  match err with
  | Some e => Some (inl e, s2)
  | None =>
      let s3 := setSets s2 (stateObjectsPending s2) ∅ in
      Some (match TrieCommit (trie s3) with inr root => inr root | inl e => inl (errTrieCommit e) end, s3)
  end.

Definition ResetDB (s : DB) (root : Hash) : TrieErr + DB :=
  match OpenTrie (db s) root with
  | inl err => inl err
  | inr tr =>
      inr (clearJournalAndRefund
             (mkDB (db s) tr ∅ ∅ ∅ ∅ (dbErr s) (refund s) 0 0 0 ∅ 0 ∅ (jnl s) (validRevisions s) (nextRevisionID s)))
  end.

(** ** Copying *)
Definition copyJournalDirty (s : DB) (addr : Address) (c : DB) : DB :=
  match stateObjects s !! addr with
  | Some object =>
      setSets (setObjects c (<[addr := deepCopy (db s) object]> (stateObjects c)))
        (stateObjectsPending c ∪ {[addr]}) (stateObjectsDirty c ∪ {[addr]})
  | None => c
  end.

(** An object that is not yet in the copy; an address without object is a nil dereference. *)
Definition copyMissing (s : DB) (addr : Address) (c : DB) : option DB :=
  match stateObjects c !! addr with
  | Some _ => Some c
  | None => object ← stateObjects s !! addr;
            Some (setObjects c (<[addr := deepCopy (db s) object]> (stateObjects c)))
  end.
Definition copyPending (s : DB) (addr : Address) (c : DB) : option DB :=
  c1 ← copyMissing s addr c; Some (setSets c1 (stateObjectsPending c1 ∪ {[addr]}) (stateObjectsDirty c1)).
Definition copyDirty (s : DB) (addr : Address) (c : DB) : option DB :=
  c1 ← copyMissing s addr c; Some (setSets c1 (stateObjectsPending c1) (stateObjectsDirty c1 ∪ {[addr]})).

Definition Copy (s : DB) : option DB :=
  let c0 := mkDB (db s) (CopyTrie (db s) (trie s)) ∅ ∅ ∅ ∅ None (refund s) 0 0 0 ∅ (logSize s) ∅ newJournal [] 0 in
  let c1 := foldl (λ c addr, copyJournalDirty s addr c) c0 (elements (dom (dirties (jnl s)))) in
  c2 ← foldl (λ mc addr, mc ≫= copyPending s addr) (Some c1) (elements (stateObjectsPending s));
  c3 ← foldl (λ mc addr, mc ≫= copyDirty s addr) (Some c2) (elements (stateObjectsDirty s));
  Some (setPreimages (setLogs c3 (logs s) (logSize c3)) (preimages s)).
End StateDB.

(** * Properties *)
Section properties.
Context `{TB : TrieBackend} `{AC : AccountCodec} `{VS : ValidatorStore}.
Implicit Types (s : DB) (a addr : Address) (o : Object) (d : Database).

(** ** What an object denotes, whatever its caches hold *)
Definition storeTrie d o : Trie :=
  match objTrie o with
  | Some t => t
  | None => match OpenStorageTrie d (Root (data o)) with inr t => t | inl _ => emptyTrie end
  end.

Definition trieValue (t : Trie) (key : Hash) : Hash :=
  match TryGet t key with
  | inl _ => 0
  | inr enc => if decide (length enc = O) then 0 else default 0 (decodeValue enc)
  end.

(** The value [GetCommittedState] returns. *)
Definition committedView d o (key : Hash) : Hash :=
  match fakeStorage o with
  | Some f => default 0 (f !! key)
  | None =>
      match pendingStorage o !! key with
      | Some v => v
      | None => match originStorage o !! key with Some v => v | None => trieValue (storeTrie d o) key end
      end
  end.

(** The value [GetState] returns. *)
Definition stateView d o (key : Hash) : Hash :=
  match fakeStorage o with
  | Some f => default 0 (f !! key)
  | None => match dirtyStorage o !! key with Some v => v | None => committedView d o key end
  end.

(** The code [Code] returns. *)
Definition codeView d o : option bytes :=
  match code o with
  | Some c => Some c
  | None =>
      if CodeHash (data o) =? emptyCodeHash then None
      else match ContractCode d (CodeHash (data o)) with inr c => Some c | inl _ => None end
  end.

(** Two objects no getter can tell apart. *)
Record objEqv d o1 o2 : Prop := {
  oe_address : address o1 = address o2;
  oe_data : data o1 = data o2;
  oe_freeze : freeze o1 = freeze o2;
  oe_suicided : suicided o1 = suicided o2;
  oe_deleted : deleted o1 = deleted o2;
  oe_fake : fakeStorage o1 = fakeStorage o2;
  oe_state : ∀ k, stateView d o1 k = stateView d o2 k;
  oe_committed : ∀ k, committedView d o1 k = committedView d o2 k;
  oe_code : codeView d o1 = codeView d o2;
}.

#[export] Instance objEqv_equiv d : Equivalence (objEqv d).
Proof.
  split.
  - intros o. by split.
  - intros o1 o2 [? ? ? ? ? ? ? ? ?]. split; by auto.
  - intros o1 o2 o3 [? ? ? ? ? ? ? ? ?] [? ? ? ? ? ? ? ? ?]. split; try congruence; intros k; etransitivity; eauto.
Qed.

(** Opening the storage trie and filling a cache do not change what an object denotes. *)
Lemma objSetError_eqv d o e : objEqv d (objSetError o e) o.
Proof. unfold objSetError. destruct (objErr o); [reflexivity|]. by split. Qed.

Lemma getTrie_spec d o :
  ∃ o', getTrie d o = (storeTrie d o, o') ∧ objEqv d o' o ∧ storeTrie d o' = storeTrie d o ∧
    originStorage o' = originStorage o ∧ pendingStorage o' = pendingStorage o ∧ dirtyStorage o' = dirtyStorage o.
Proof.
  unfold getTrie, storeTrie. destruct (objTrie o) as [t|] eqn:Et.
  { exists o. rewrite Et. by split_and!. }
  assert (∀ e t, t = match OpenStorageTrie d (Root (data o)) with inr t => t | inl _ => emptyTrie end →
    objEqv d (withErrTrie o e (Some t)) o) as Hw.
  { intros e t Ht. split; try done; intros k; unfold stateView, committedView, storeTrie; simpl; rewrite Et; by rewrite <-Ht. }
  destruct (OpenStorageTrie d (Root (data o))) as [err|t].
  - unfold objSetError. simpl. destruct (objErr o); (eexists; split; [done|]; split_and!; [by apply Hw|done..]).
  - eexists; split; [done|]; split_and!; [by apply Hw|done..].
Qed.

Lemma committedView_trie d o k :
  fakeStorage o = None → pendingStorage o !! k = None → originStorage o !! k = None →
  committedView d o k = trieValue (storeTrie d o) k.
Proof. intros Hf Hp Ho. unfold committedView. by rewrite Hf, Hp, Ho. Qed.

(** Caching a value read from the trie in [originStorage]. *)
Lemma cacheOrigin_eqv d o o' k :
  objEqv d o' o → storeTrie d o' = storeTrie d o →
  originStorage o' = originStorage o → pendingStorage o' = pendingStorage o → dirtyStorage o' = dirtyStorage o →
  fakeStorage o = None → pendingStorage o !! k = None → originStorage o !! k = None →
  objEqv d (withStorage o' (<[k := trieValue (storeTrie d o) k]> (originStorage o')) (pendingStorage o') (dirtyStorage o')) o.
Proof.
  intros He Ht Ho Hp Hd Hf Hpk Hok.
  assert (∀ x, committedView d (withStorage o' (<[k := trieValue (storeTrie d o) k]> (originStorage o'))
     (pendingStorage o') (dirtyStorage o')) x = committedView d o x) as Hc.
  { intros x. unfold committedView. simpl. rewrite (oe_fake _ _ _ He), Hf, Hp, Ho.
    destruct (pendingStorage o !! x) eqn:Epx; [done|]. destruct (decide (k = x)) as [<-|Hne].
    - by rewrite lookup_insert_eq, Hok.
    - rewrite lookup_insert_ne by done. destruct (originStorage o !! x); [done|].
      unfold storeTrie in *. simpl. by rewrite Ht. }
  destruct He as [? ? ? ? ? Hfk ? ? Hcode]. split; try done.
  intros x. unfold stateView. simpl. rewrite Hfk, Hf, Hd.
  destruct (dirtyStorage o !! x); [done|]. apply Hc.
Qed.

Lemma objGetCommittedState_spec d o k :
  ∃ o', objGetCommittedState d o k = (committedView d o k, o') ∧ objEqv d o' o.
Proof.
  unfold objGetCommittedState. destruct (fakeStorage o) as [f|] eqn:Ef.
  { exists o. unfold committedView. rewrite Ef. by split. }
  destruct (pendingStorage o !! k) as [v|] eqn:Ep.
  { exists o. unfold committedView. rewrite Ef, Ep. by split. }
  destruct (originStorage o !! k) as [v|] eqn:Eo.
  { exists o. unfold committedView. rewrite Ef, Ep, Eo. by split. }
  rewrite (committedView_trie d o k Ef Ep Eo).
  destruct (getTrie_spec d o) as (o1 & -> & He & Ht & Ho & Hp & Hd).
  pose proof (cacheOrigin_eqv d o o1 k He Ht Ho Hp Hd Ef Ep Eo) as Hcache.
  unfold trieValue in *. destruct (TryGet (storeTrie d o) k) as [err|enc].
  { eexists. split; [done|]. etransitivity; [apply objSetError_eqv|done]. }
  case_decide; [eexists; split; [done|done]|].
  destruct (decodeValue enc) as [v|]; simpl; [eexists; split; [done|done]|].
  unfold objSetError. destruct (objErr o1) eqn:Eerr; (eexists; split; [done|]); simpl in *; [done|].
  destruct Hcache as [? ? ? ? ? ? Hs Hcm Hcd]. by split.
Qed.

Lemma objGetState_spec d o k : ∃ o', objGetState d o k = (stateView d o k, o') ∧ objEqv d o' o.
Proof.
  unfold objGetState, stateView. destruct (fakeStorage o) as [f|]; [exists o; by split|].
  destruct (dirtyStorage o !! k) as [v|]; [exists o; by split|]. apply objGetCommittedState_spec.
Qed.

Lemma objCode_spec d o : ∃ o', objCode d o = (codeView d o, o') ∧ objEqv d o' o.
Proof.
  unfold objCode, codeView. destruct (code o) as [c|] eqn:Ec; [exists o; by split|].
  destruct (CodeHash (data o) =? emptyCodeHash) eqn:Eh; [exists o; by split|].
  destruct (ContractCode d (CodeHash (data o))) as [e|c] eqn:El.
  - eexists. split; [done|]. apply objSetError_eqv.
  - eexists. split; [done|]. split; try done. unfold codeView. simpl. by rewrite Ec, Eh, El.
Qed.

(** ** The field updates respect the equivalence *)
Lemma setBalance_eqv d x o1 o2 : objEqv d o1 o2 → objEqv d (setBalance x o1) (setBalance x o2).
Proof. intros [? Hdata ? ? ? Hf Hs Hc Hcode]. split; try done. simpl. by rewrite Hdata. Qed.

Lemma setNonce_eqv d x o1 o2 : objEqv d o1 o2 → objEqv d (setNonce x o1) (setNonce x o2).
Proof. intros [? Hdata ? ? ? Hf Hs Hc Hcode]. split; try done. simpl. by rewrite Hdata. Qed.

Lemma setFreezeState_eqv d x o1 o2 : objEqv d o1 o2 → objEqv d (setFreezeState x o1) (setFreezeState x o2).
Proof. intros [? ? ? ? ? ? ? ? ?]. by split. Qed.

Lemma setSuicided_eqv d x o1 o2 : objEqv d o1 o2 → objEqv d (setSuicided x o1) (setSuicided x o2).
Proof. intros [? ? ? ? ? ? ? ? ?]. by split. Qed.

Lemma setCode_eqv d h c o1 o2 : objEqv d o1 o2 → objEqv d (setCode h c o1) (setCode h c o2).
Proof. intros [? Hdata ? ? ? Hf Hs Hc Hcode]. split; try done. simpl. by rewrite Hdata. Qed.

Lemma stateView_setState d k v o x :
  fakeStorage o = None → stateView d (setState k v o) x = if decide (x = k) then v else stateView d o x.
Proof.
  intros Hf. unfold stateView. simpl. rewrite Hf. case_decide as Hx.
  - subst. by rewrite lookup_insert_eq.
  - rewrite lookup_insert_ne by done. done.
Qed.

Lemma setState_eqv d k v o1 o2 : objEqv d o1 o2 → objEqv d (setState k v o1) (setState k v o2).
Proof.
  intros He. pose proof (oe_state _ _ _ He) as Hs. pose proof (oe_fake _ _ _ He) as Hf.
  destruct (fakeStorage o2) as [f|] eqn:Ef.
  - destruct He as [? ? ? ? ? ? _ Hc Hcode]. split; try done; try (simpl; congruence).
    intros x. unfold stateView. simpl. by rewrite Hf, Ef.
  - destruct He as [? ? ? ? ? ? _ Hc Hcode]. split; try done; try (simpl; congruence).
    intros x. rewrite !stateView_setState by done. by rewrite Hs.
Qed.

(** ** What an address denotes *)
Definition loadObject (t : Trie) (addr : Address) : option Object :=
  match TryGet t addr with
  | inl _ => None
  | inr enc => if decide (length enc = O) then None else newObject addr <$> decodeAccount enc
  end.

(** The object [getDeletedStateObject] returns, and the one [getStateObject] returns. *)
Definition view s addr : option Object :=
  match stateObjects s !! addr with Some o => Some o | None => loadObject (trie s) addr end.
Definition liveView s addr : option Object := o ← view s addr; if negb (deleted o) then Some o else None.

(** Two databases no getter can tell apart; the memoised errors, the journal and the
    snapshots are left out. *)
Record sdEqv s1 s2 : Prop := {
  eqv_db : db s1 = db s2;
  eqv_view : ∀ a, option_Forall2 (objEqv (db s1)) (view s1 a) (view s2 a);
  eqv_trie : trie s1 = trie s2;
  eqv_pending : stateObjectsPending s1 = stateObjectsPending s2;
  eqv_dirty : stateObjectsDirty s1 = stateObjectsDirty s2;
  eqv_validators : stateValidators s1 = stateValidators s2;
  eqv_logs : ∀ h, GetLogs s1 h = GetLogs s2 h;
  eqv_logSize : logSize s1 = logSize s2;
  eqv_refund : refund s1 = refund s2;
  eqv_preimages : preimages s1 = preimages s2;
  eqv_tx : thash s1 = thash s2 ∧ bhash s1 = bhash s2 ∧ txIndex s1 = txIndex s2;
}.

#[export] Instance sdEqv_equiv : Equivalence sdEqv.
Proof.
  split.
  - intros s. by split.
  - intros s1 s2 [Hdb Hv ? ? ? ? ? ? ? ? (?&?&?)]. split; try by auto. intros a. rewrite <-Hdb. symmetry. apply Hv.
  - intros s1 s2 s3 [Hdb Hv ? ? ? ? ? ? ? ? (?&?&?)] [Hdb' Hv' ? ? ? ? ? ? ? ? (?&?&?)].
    split; try congruence; try (split_and!; congruence); try (intros x; etransitivity; by eauto).
    intros a. etransitivity; [apply Hv|]. rewrite Hdb. apply Hv'.
Qed.

(** Only the cache and the error differ. *)
Record readOnly s s' : Prop := {
  ro_eqv : sdEqv s' s;
  ro_jnl : jnl s' = jnl s;
  ro_revs : validRevisions s' = validRevisions s;
  ro_next : nextRevisionID s' = nextRevisionID s;
  ro_dom : dom (stateObjects s) ⊆ dom (stateObjects s');
}.

(** The cached objects are stored under their address and have no fake storage. *)
Definition objOk a o : Prop := address o = a ∧ fakeStorage o = None.
Definition objectsOk s : Prop := ∀ a o, stateObjects s !! a = Some o → objOk a o.

Lemma loadObject_ok t a o : loadObject t a = Some o → objOk a o.
Proof.
  unfold loadObject. destruct (TryGet t a); [done|]. case_decide; [done|].
  destruct (decodeAccount _); simpl; [|done]. intros [= <-]. unfold newObject, objOk. by destruct (Root _ =? 0).
Qed.

Lemma view_ok s a o : objectsOk s → view s a = Some o → objOk a o.
Proof. intros Hk. unfold view. destruct (stateObjects s !! a) eqn:E; [intros [= <-]; eauto|apply loadObject_ok]. Qed.

Lemma view_putObject s o a : view (putObject s o) a = if decide (address o = a) then Some o else view s a.
Proof.
  unfold view, putObject. simpl. case_decide as Ha; [subst; by rewrite lookup_insert_eq|by rewrite lookup_insert_ne].
Qed.

Lemma readOnly_refl s : readOnly s s.
Proof. split; done || reflexivity. Qed.

Lemma readOnly_setError s e : readOnly s (setError s e).
Proof. unfold setError. destruct (dbErr s); [apply readOnly_refl|]. by split. Qed.

Lemma readOnly_trans s1 s2 s3 : readOnly s1 s2 → readOnly s2 s3 → readOnly s1 s3.
Proof. intros [? ? ? ? ?] [? ? ? ? ?]. split; [by etransitivity|congruence..|set_solver]. Qed.

(** Overwriting a cached or loadable object by an equivalent one. *)
Lemma readOnly_put s a o o' : view s a = Some o → objOk a o → objEqv (db s) o' o → readOnly s (putObject s o').
Proof.
  intros Hv [Ha Hf] He. split; try done; [|simpl; set_solver]. split; try done. intros b. rewrite view_putObject.
  rewrite (oe_address _ _ _ He), Ha. case_decide as Hb; [subst b; rewrite Hv; by constructor|reflexivity].
Qed.

Lemma objectsOk_put s a o : objectsOk s → objOk a o → objectsOk (putObject s o).
Proof.
  intros Hk [Ha Hf] b o'. simpl. intros [[<- <-]|[_ ?]]%lookup_insert_Some; [done|by apply Hk].
Qed.

Lemma objOk_eqv d a o o' : objOk a o → objEqv d o' o → objOk a o'.
Proof. intros [Ha Hf] He. split; [by rewrite (oe_address _ _ _ He)|by rewrite (oe_fake _ _ _ He)]. Qed.

Lemma getDeleted_spec s a :
  ∃ s', getDeletedStateObject s a = (view s a, s') ∧ readOnly s s' ∧ (objectsOk s → objectsOk s') ∧
        (∀ o, view s a = Some o → stateObjects s' !! a = Some o) ∧
        (view s a = None → stateObjects s' !! a = None) ∧ ∀ b, view s' b = view s b.
Proof.
  unfold getDeletedStateObject. destruct (stateObjects s !! a) as [o|] eqn:E.
  { exists s. unfold view. rewrite E. split_and!; [done|apply readOnly_refl|done|congruence|done|done]. }
  assert (∀ s', s' = s ∨ (∃ e, s' = setError s e) → readOnly s s' ∧ (objectsOk s → objectsOk s') ∧
     stateObjects s' !! a = None ∧ ∀ b, view s' b = view s b) as Hsame.
  { intros s' [->|[e ->]]; [split_and!; [apply readOnly_refl|done|done|done]|].
    split_and!; [apply readOnly_setError| | |]; unfold setError; destruct (dbErr s); done. }
  pose proof (loadObject_ok (trie s) a) as Hok.
  assert (view s a = loadObject (trie s) a) as Hv by (unfold view; by rewrite E). rewrite Hv.
  unfold loadObject in *. destruct (TryGet (trie s) a) as [err|enc].
  { exists (setError s err). destruct (Hsame (setError s err)) as (?&?&?&?); [eauto|]. by split_and!. }
  case_decide; [exists s; destruct (Hsame s) as (?&?&?&?); [auto|]; by split_and!|].
  destruct (decodeAccount enc) as [dd|]; simpl in *; [|exists s; destruct (Hsame s) as (?&?&?&?); [auto|]; by split_and!].
  specialize (Hok _ eq_refl). assert (address (newObject a dd) = a) as Ha by apply Hok.
  eexists. split; [done|]. split_and!; [by eapply readOnly_put| |intros o [= <-]|done|].
  - intros Hk. by eapply objectsOk_put.
  - unfold putObject. rewrite Ha. apply lookup_insert_eq.
  - intros b. rewrite view_putObject, Ha. case_decide; [by subst b|done].
Qed.

Lemma getStateObject_spec s a :
  ∃ s', getStateObject s a = (liveView s a, s') ∧ readOnly s s' ∧ (objectsOk s → objectsOk s') ∧
        (∀ o, liveView s a = Some o → stateObjects s' !! a = Some o) ∧ ∀ b, view s' b = view s b.
Proof.
  destruct (getDeleted_spec s a) as (s' & Hg & Hro & Hk & Hs & _ & Hv). exists s'.
  unfold getStateObject, liveView. rewrite Hg. destruct (view s a) as [o|]; simpl; [|by split_and!].
  destruct (deleted o); simpl; split_and!; auto; done.
Qed.

Lemma liveView_view s a o : liveView s a = Some o → view s a = Some o ∧ deleted o = false.
Proof.
  unfold liveView. destruct (view s a) as [o'|]; simpl; [|done].
  destruct (deleted o') eqn:E; simpl; [done|]. by intros [= <-].
Qed.

Lemma liveView_eqv s1 s2 a : sdEqv s1 s2 → option_Forall2 (objEqv (db s1)) (liveView s1 a) (liveView s2 a).
Proof.
  intros He. unfold liveView. destruct (eqv_view _ _ He a) as [o1 o2 Ho|]; simpl; [|constructor].
  rewrite (oe_deleted _ _ _ Ho). destruct (deleted o2); simpl; by constructor.
Qed.

(** ** Undo entries respect the equivalence *)
Lemma put_eqv s1 s2 o1 o2 : sdEqv s1 s2 → objEqv (db s1) o1 o2 → sdEqv (putObject s1 o1) (putObject s2 o2).
Proof.
  intros He Ho. split; try apply He. intros a. rewrite !view_putObject, (oe_address _ _ _ Ho).
  case_decide; [by constructor|apply He].
Qed.

Definition goodUpdate (f : Object → Object) : Prop :=
  (∀ o, address (f o) = address o) ∧ (∀ o, fakeStorage (f o) = fakeStorage o) ∧
  ∀ d o1 o2, objEqv d o1 o2 → objEqv d (f o1) (f o2).

Lemma onObject_proper s1 s2 s1' a f :
  goodUpdate f → sdEqv s1 s2 → onObject s1 a f = Some s1' →
  ∃ s2', onObject s2 a f = Some s2' ∧ sdEqv s1' s2'.
Proof.
  intros (Ha & Hf & Hp) He. unfold onObject.
  destruct (getStateObject_spec s1 a) as (t1 & -> & Hr1 & _ & _ & _).
  destruct (getStateObject_spec s2 a) as (t2 & -> & Hr2 & _ & _ & _).
  destruct (liveView s1 a) as [o1|] eqn:E1; [|done]. intros [= <-].
  pose proof (liveView_eqv s1 s2 a He) as Hl. rewrite E1 in Hl. inversion Hl as [? o2 Ho E2|]; subst.
  eexists. split; [done|].
  apply put_eqv; [|rewrite (eqv_db _ _ (ro_eqv _ _ Hr1)); by apply Hp].
  etransitivity; [apply Hr1|]. etransitivity; [exact He|]. symmetry. apply Hr2.
Qed.

Lemma setBalance_good x : goodUpdate (setBalance x).
Proof. split_and!; [done|done|]. intros d o1 o2. apply setBalance_eqv. Qed.
Lemma setNonce_good x : goodUpdate (setNonce x).
Proof. split_and!; [done|done|]. intros d o1 o2. apply setNonce_eqv. Qed.
Lemma setFreezeState_good x : goodUpdate (setFreezeState x).
Proof. split_and!; [done|done|]. intros d o1 o2. apply setFreezeState_eqv. Qed.
Lemma setCode_good h c : goodUpdate (setCode h c).
Proof. split_and!; [done|done|]. intros d o1 o2. apply setCode_eqv. Qed.
Lemma setState_good k v : goodUpdate (setState k v).
Proof. split_and!; [done|done|]. intros d o1 o2. apply setState_eqv. Qed.
Lemma setSuicideBalance_good b x : goodUpdate (λ o, setBalance x (setSuicided b o)).
Proof. split_and!; [done|done|]. intros d o1 o2 He. by apply setBalance_eqv, setSuicided_eqv. Qed.
#[local] Hint Resolve setBalance_good setNonce_good setFreezeState_good setCode_good setState_good
  setSuicideBalance_good : dyshard.

Lemma GetLogs_insert s h lgs sz h' :
  GetLogs (setLogs s (<[h := lgs]> (logs s)) sz) h' = if decide (h' = h) then lgs else GetLogs s h'.
Proof. unfold GetLogs. simpl. case_decide as E; [subst; by rewrite lookup_insert_eq|by rewrite lookup_insert_ne]. Qed.

Lemma GetLogs_delete s h sz h' :
  GetLogs (setLogs s (delete h (logs s)) sz) h' = if decide (h' = h) then [] else GetLogs s h'.
Proof. unfold GetLogs. simpl. case_decide as E; [subst; by rewrite lookup_delete_eq|by rewrite lookup_delete_ne]. Qed.

(** An update that tolerates a missing object. *)
Lemma suicide_revert_proper s1 s2 s1' a b x :
  sdEqv s1 s2 → sdRevert (suicideChange a b x) s1 = Some s1' →
  ∃ s2', sdRevert (suicideChange a b x) s2 = Some s2' ∧ sdEqv s1' s2'.
Proof.
  intros He. simpl. destruct (getStateObject_spec s1 a) as (t1 & -> & Hr1 & _ & _ & _).
  destruct (getStateObject_spec s2 a) as (t2 & -> & Hr2 & _ & _ & _).
  assert (sdEqv t1 t2) as Ht by (etransitivity; [apply Hr1|]; etransitivity; [exact He|]; symmetry; apply Hr2).
  destruct (liveView_eqv s1 s2 a He) as [o1 o2 Ho|]; intros [= <-]; (eexists; split; [done|]); [|done].
  apply put_eqv; [done|]. rewrite (eqv_db _ _ (ro_eqv _ _ Hr1)). by apply setBalance_eqv, setSuicided_eqv.
Qed.

Lemma sdRevert_proper e s1 s2 s1' :
  sdEqv s1 s2 → sdRevert e s1 = Some s1' → ∃ s2', sdRevert e s2 = Some s2' ∧ sdEqv s1' s2'.
Proof.
  intros He Hr. destruct e as [a|p|a b x|a x|a x|a k v|a c h|a b|r|h|h|a];
    try (by eapply onObject_proper; eauto with dyshard); try (by eapply suicide_revert_proper; eauto); simpl in *.
  - injection Hr as <-. eexists. split; [done|]. split; try apply He; simpl.
    + intros b. unfold view. simpl. pose proof (eqv_view _ _ He b) as Hv. unfold view in Hv.
      destruct (decide (a = b)) as [->|Hne].
      * rewrite !lookup_delete_eq, (eqv_trie _ _ He). reflexivity.
      * by rewrite !lookup_delete_ne.
    + by rewrite (eqv_dirty _ _ He).
  - injection Hr as <-. eexists. split; [done|]. apply put_eqv; [done|reflexivity].
  - injection Hr as <-. eexists. split; [done|]. destruct He. by split.
  - pose proof (eqv_logs _ _ He h) as Hl. unfold GetLogs in Hl. rewrite Hl in Hr.
    rewrite (eqv_logSize _ _ He) in Hr. repeat case_decide; simplify_eq; eexists; (split; [done|]);
      (split; try apply He; try done); intros h'; rewrite ?GetLogs_delete, ?GetLogs_insert; by rewrite (eqv_logs _ _ He).
  - injection Hr as <-. eexists. split; [done|]. split; try apply He. simpl. by rewrite (eqv_preimages _ _ He).
  - injection Hr as <-. eauto.
Qed.

(** ** The invariant *)
Record sdInvE (es : list sdEntry) s : Prop := {
  inv_objs : objectsOk s;
  inv_pending : stateObjectsPending s ⊆ dom (stateObjects s);
  inv_dirty : stateObjectsDirty s ⊆ dom (stateObjects s);
  inv_logSize : isU64 (logSize s);
  (** an address the journal created has not been finalised since *)
  inv_created : ∀ a, createObjectChange a ∈ es → a ∉ stateObjectsPending s ∧ a ∉ stateObjectsDirty s;
  inv_reset : ∀ p, resetObjectChange p ∈ es → fakeStorage p = None;
}.

(** The explicit marks of the RIPEMD address. *)
Definition ripemdMarks (n : Z) (a : Address) : Z := if a =? ripemd then n else 0.

Definition sdInv s : Prop :=
  sdInvE (entries (jnl s)) s ∧ ∃ n, 0 ≤ n ∧ countersUpTo (ripemdMarks n) (jnl s).

Definition sameFrame s s' : Prop :=
  jnl s' = jnl s ∧ validRevisions s' = validRevisions s ∧ nextRevisionID s' = nextRevisionID s.

Lemma sameFrame_trans s1 s2 s3 : sameFrame s1 s2 → sameFrame s2 s3 → sameFrame s1 s3.
Proof. unfold sameFrame. intros (?&?&?) (?&?&?). split_and!; congruence. Qed.

Lemma readOnly_frame s s' : readOnly s s' → sameFrame s s'.
Proof. intros [_ ? ? ? _]. by split_and!. Qed.

Lemma sdInvE_readOnly es s s' : readOnly s s' → objectsOk s' → sdInvE es s → sdInvE es s'.
Proof.
  intros [He _ _ _ Hdom] Hk' [Hk Hp Hd Hs Hc Hr]. split; [done|..].
  - rewrite (eqv_pending _ _ He). set_solver.
  - rewrite (eqv_dirty _ _ He). set_solver.
  - by rewrite (eqv_logSize _ _ He).
  - intros a Ha. rewrite (eqv_pending _ _ He), (eqv_dirty _ _ He). auto.
  - done.
Qed.

Lemma sdInvE_weaken es es' s : (∀ e, e ∈ es' → e ∈ es) → sdInvE es s → sdInvE es' s.
Proof. intros Hsub [? ? ? ? Hc Hr]. split; auto. Qed.

Lemma sdInvE_put es s a o : objOk a o → sdInvE es s → sdInvE es (putObject s o).
Proof.
  intros Ho [Hk Hp Hd Hs Hc Hr]. split; simpl; [by eapply objectsOk_put|set_solver..|done|done|done].
Qed.

(** Updating a live object keeps the invariant. *)
Lemma live_put_inv es s a f s1 o :
  goodUpdate f → sdInvE es s → getStateObject s a = (Some o, s1) → sdInvE es (putObject s1 (f o)) ∧ sameFrame s s1.
Proof.
  intros (Ha & Hf & _) HI Hg. destruct (getStateObject_spec s a) as (s' & Hg' & Hro & Hk & Hl & _).
  rewrite Hg' in Hg. injection Hg as Hlive <-. split; [|by apply readOnly_frame].
  destruct (liveView_view _ _ _ Hlive) as [Hv _]. destruct (view_ok _ _ _ (inv_objs _ _ HI) Hv) as [Hoa Hof].
  apply (sdInvE_put es s' a); [split; [by rewrite Ha|by rewrite Hf]|].
  apply (sdInvE_readOnly es s); [done|apply Hk, HI|done].
Qed.

Lemma onObject_inv es s a f s' :
  goodUpdate f → sdInvE es s → onObject s a f = Some s' → sdInvE es s' ∧ sameFrame s s'.
Proof.
  intros Hf HI. unfold onObject. destruct (getStateObject s a) as [[o|] s1] eqn:Hg; [|done]. intros [= <-].
  destruct (live_put_inv es s a f s1 o Hf HI Hg) as [? Hfr]. by split.
Qed.

Lemma sdRevert_inv es e s s' :
  sdInvE (es ++ [e]) s → sdRevert e s = Some s' → sdInvE es s' ∧ sameFrame s s'.
Proof.
  intros HI Hr. pose proof (sdInvE_weaken (es ++ [e]) es s ltac:(set_solver) HI) as HI'.
  destruct e as [a|p|a b x|a x|a x|a k v|a c h|a b|r|h|h|a];
    simpl in Hr; try (eapply onObject_inv; [|exact HI'|exact Hr]; by auto with dyshard).
  - injection Hr as <-. destruct (inv_created _ _ HI a) as [Hnp Hnd]; [set_solver|]. split; [|done].
    destruct HI' as [Hk Hp Hd Hs Hc Hrs]. split; simpl; [|set_solver..|done| |done].
    + intros b o. simpl. intros [? ?]%lookup_delete_Some. by apply Hk.
    + intros b Hb. destruct (Hc b Hb). set_solver.
  - injection Hr as <-. split; [|done]. apply (sdInvE_put es s (address p)); [|done].
    split; [done|]. apply (inv_reset _ _ HI). set_solver.
  - destruct (getStateObject s a) as [[o|] s1] eqn:Hg; injection Hr as <-.
    + destruct (live_put_inv es s a _ s1 o (setSuicideBalance_good b x) HI' Hg) as [? Hfr]. by split.
    + destruct (getStateObject_spec s a) as (s2 & Hg' & Hro & Hk & _). rewrite Hg' in Hg. injection Hg as _ <-.
      split; [|by apply readOnly_frame]. apply (sdInvE_readOnly es s); [done|apply Hk, HI'|done].
  - injection Hr as <-. split; [|done]. destruct HI'. by split.
  - destruct HI' as [Hk Hp Hd Hs Hc Hrs]. repeat case_decide; simplify_eq; (split; [|done]);
      split; simpl; try done; apply u64_range.
  - injection Hr as <-. split; [|done]. destruct HI'. by split.
  - injection Hr as <-. by split.
Qed.

Lemma undo_inv es1 es2 s s' :
  sdInvE (es1 ++ es2) s → undo (reverse es2) s = Some s' → sdInvE es1 s' ∧ sameFrame s s'.
Proof.
  revert s. induction es2 as [|e es2 IH] using rev_ind; intros s HI Hu.
  - simpl in Hu. simplify_eq. rewrite app_nil_r in HI. split; [done|by split_and!].
  - rewrite reverse_snoc in Hu. simpl in Hu. apply bind_Some in Hu as (s1 & Hr & Hu).
    rewrite app_assoc in HI. destruct (sdRevert_inv _ _ _ _ HI Hr) as [HI1 Hf1].
    destruct (IH s1 HI1 Hu) as [HI2 Hf2]. split; [done|]. by eapply sameFrame_trans.
Qed.

(** ** Operations and their undo entries *)
Record stepped s (es : list sdEntry) s' : Prop := {
  st_entries : entries (jnl s') = entries (jnl s) ++ es;
  st_undoes : undoes sdEqv es s s';
  st_revs : validRevisions s' = validRevisions s ∧ nextRevisionID s' = nextRevisionID s;
  st_inv : sdInv s';
}.

Lemma stepped_trans s es1 s1 es2 s2 : stepped s es1 s1 → stepped s1 es2 s2 → stepped s (es1 ++ es2) s2.
Proof.
  intros [He1 Hu1 [Hv1 Hn1] Hi1] [He2 Hu2 [Hv2 Hn2] Hi2]. split; [|..|done].
  - by rewrite He2, He1, app_assoc.
  - eapply undoes_app; [apply _|apply sdRevert_proper|done|done].
  - split; congruence.
Qed.

Lemma stepped_readOnly s s' : sdInv s → readOnly s s' → objectsOk s' → stepped s [] s'.
Proof.
  intros [HI Hc] Hro Hk. split.
  - by rewrite (ro_jnl _ _ Hro), app_nil_r.
  - apply undoes_nil, Hro.
  - split; apply Hro.
  - split; rewrite (ro_jnl _ _ Hro); [by eapply sdInvE_readOnly|done].
Qed.

Lemma ripemdMarks_nonneg n : 0 ≤ n → ∀ a, 0 ≤ ripemdMarks n a.
Proof. intros Hn a. unfold ripemdMarks. by destruct (a =? ripemd). Qed.

Lemma journalAppend_eq s e : jnl (journalAppend s e) = append (jnl s) e.
Proof. done. Qed.

(** The journal part of the invariant after an append. *)
Lemma append_inv s e :
  (∀ a, e ≠ createObjectChange a) → (∀ p, e ≠ resetObjectChange p) → sdInv s → sdInv (journalAppend s e).
Proof.
  intros Hc Hr [[Hk Hp Hd Hs Hcr Hrs] (n & Hn & Hcnt)]. split.
  - split; try done; simpl.
    + intros a [Ha|Ha%list_elem_of_singleton]%elem_of_app; [auto|]. by destruct (Hc a).
    + intros p [Ha|Ha%list_elem_of_singleton]%elem_of_app; [auto|]. by destruct (Hr p).
  - exists n. split; [done|]. rewrite journalAppend_eq.
    apply append_counters; [by apply ripemdMarks_nonneg|done].
Qed.

Lemma sdInv_put s a o : objOk a o → sdInv s → sdInv (putObject s o).
Proof. intros Ho [HI Hc]. split; [by eapply sdInvE_put|done]. Qed.

(** A change of a cached live object with the entry that undoes it. *)
Lemma stepped_put s a o e f g :
  sdInv s → stateObjects s !! a = Some o → deleted o = false →
  address (f o) = address o → fakeStorage (f o) = fakeStorage o → deleted (f o) = false →
  goodUpdate g → objEqv (db s) (g (f o)) o →
  (∀ b, e ≠ createObjectChange b) → (∀ p, e ≠ resetObjectChange p) →
  (∀ s1, sdRevert e s1 = onObject s1 a g) →
  stepped s [e] (putObject (journalAppend s e) (f o)).
Proof.
  intros HI Ho Hdel Hfa Hff Hfd (Hga & _ & _) Hback Hnc Hnr Hrev.
  destruct (inv_objs _ _ (proj1 HI) a o Ho) as [Hoa Hof].
  split; [done| |done|].
  - eapply undoes_one; [simpl; rewrite Hrev; unfold onObject, getStateObject, getDeletedStateObject|].
    { simpl. rewrite Hfa, Hoa, lookup_insert_eq, Hfd. simpl. reflexivity. }
    split; try done. intros b. rewrite !view_putObject, Hga, Hfa, Hoa. simpl.
    case_decide as Hb; [|reflexivity]. subst b. unfold view. simpl. rewrite Ho. by constructor.
  - apply (sdInv_put _ a); [split; congruence|]. by apply append_inv.
Qed.

(** The suicide entry, whose undo tolerates a missing object. *)
Lemma stepped_suicide s a o :
  sdInv s → stateObjects s !! a = Some o → deleted o = false →
  stepped s [suicideChange a (suicided o) (Balance (data o))]
    (putObject (journalAppend s (suicideChange a (suicided o) (Balance (data o)))) (setBalance 0 (markSuicided o))).
Proof.
  intros HI Ho Hdel. destruct (inv_objs _ _ (proj1 HI) a o Ho) as [Hoa Hof].
  split; [done| |done|apply (sdInv_put _ a); [done|by apply append_inv]].
  eapply undoes_one; [simpl; unfold getStateObject, getDeletedStateObject|].
  { simpl. rewrite Hoa, lookup_insert_eq. simpl. rewrite Hdel. simpl. reflexivity. }
  split; try done. intros b. rewrite !view_putObject. simpl. rewrite Hoa.
  case_decide as Hb; [|reflexivity]. subst b. unfold view. simpl. rewrite Ho. constructor.
  by destruct o as [? [? ? ? ?] ? ? ? ? ? ? ? ? ? ? ?]; split.
Qed.

Definition freshObject a : Object := setNonce 0 (newObject a zeroAccount).

Lemma view_None_objects s a : view s a = None → stateObjects s !! a = None.
Proof. unfold view. by destruct (stateObjects s !! a). Qed.

(** Creating an object, with its balance chosen afterwards without a journal entry. *)
Lemma stepped_create s a x :
  sdInv s →
  ∃ e s', createObject s a = (freshObject a, view s a, s') ∧
    stepped s [e] (putObject s' (setBalance x (freshObject a))) ∧
    stepped s [e] s' ∧ stateObjects s' !! a = Some (freshObject a) ∧
    (∀ b, view s' b = if decide (a = b) then Some (freshObject a) else view s b).
Proof.
  intros [HI (n & Hn & Hcnt)]. unfold createObject.
  destruct (getDeleted_spec s a) as (s1 & -> & Hro & Hk & _ & _ & Hv).
  set (e := match view s a with None => createObjectChange a | Some p => resetObjectChange p end).
  exists e. replace (match view s a with
    | None => journalAppend s1 (createObjectChange a) | Some p => journalAppend s1 (resetObjectChange p) end)
    with (journalAppend s1 e) by (unfold e; by destruct (view s a)).
  assert (sdInvE (entries (jnl s)) s1) as HI1 by (apply (sdInvE_readOnly _ s); [done|apply Hk, HI|done]).
  assert (∀ o, objOk a o → stepped s [e] (putObject (journalAppend s1 e) o)) as Hst.
  { intros o [Hoa Hof]. split.
    - simpl. by rewrite (ro_jnl _ _ Hro).
    - eapply (undoes_eqv_l sdEqv); [apply (ro_eqv _ _ Hro)|].
      destruct (view s a) as [p|] eqn:Evs; unfold e; simpl.
      + destruct (view_ok s a p (inv_objs _ _ HI) Evs) as [Hpa _].
        eapply undoes_one; [done|]. split; try done. intros b. rewrite !view_putObject, Hpa, Hoa.
        case_decide as Hb; [|reflexivity]. subst b. rewrite Hv, Evs. by constructor.
      + eapply undoes_one; [done|]. pose proof (view_None_objects s1 a ltac:(by rewrite Hv)) as Hnone.
        split; try done.
        * intros b. unfold view. simpl. rewrite Hoa. destruct (decide (a = b)) as [<-|Hne].
          -- rewrite lookup_delete_eq, Hnone. reflexivity.
          -- by rewrite lookup_delete_ne, lookup_insert_ne.
        * simpl. assert (a ∉ stateObjectsDirty s1); [|set_solver].
          intros Hin%(inv_dirty _ _ HI1). by apply not_elem_of_dom in Hnone.
    - split; apply Hro.
    - split.
      + apply (sdInvE_put _ _ a); [done|]. destruct HI1 as [Hk1 Hp Hd Hs Hcr Hrs]. split; try done; simpl; rewrite (ro_jnl _ _ Hro).
        * intros b [Hb|Hb%list_elem_of_singleton]%elem_of_app; [by apply Hcr|].
          unfold e in Hb. destruct (view s a) eqn:Evs; [done|]. simplify_eq.
          pose proof (view_None_objects s1 _ ltac:(by rewrite Hv)) as Hnone%not_elem_of_dom.
          split; intros ?; [apply Hnone, Hp|apply Hnone, Hd]; done.
        * intros p [Hb|Hb%list_elem_of_singleton]%elem_of_app; [by apply Hrs|].
          unfold e in Hb. destruct (view s a) as [p'|] eqn:Evs; [|done]. injection Hb as ->.
          by apply (view_ok s a p' (inv_objs _ _ HI) Evs).
      + exists n. split; [done|]. change (jnl (putObject (journalAppend s1 e) o)) with (append (jnl s1) e).
        apply append_counters; [by apply ripemdMarks_nonneg|]. by rewrite (ro_jnl _ _ Hro). }
  assert (objOk a (freshObject a) ∧ objOk a (setBalance x (freshObject a))) as [Hok1 Hok2] by done.
  eexists. split; [done|]. split_and!.
  - assert (∀ o, putObject (putObject (journalAppend s1 e) (setNonce 0 (newObject a zeroAccount))) o =
      if decide (address o = a) then putObject (journalAppend s1 e) o
      else putObject (putObject (journalAppend s1 e) (setNonce 0 (newObject a zeroAccount))) o) as ->.
    { intros o. case_decide as Ho; [|done]. unfold putObject, setObjects. simpl. by rewrite Ho, insert_insert_eq. }
    rewrite decide_True by done. by apply Hst.
  - by apply Hst.
  - simpl. by rewrite lookup_insert_eq.
  - intros b. rewrite view_putObject. simpl. case_decide; [done|]. apply Hv.
Qed.

Lemma GetOrNew_stepped s a :
  sdInv s →
  ∃ es o s', GetOrNewStateObject s a = (o, s') ∧ stepped s es s' ∧ stateObjects s' !! a = Some o ∧
    objOk a o ∧ deleted o = false ∧ o = default (freshObject a) (liveView s a) ∧
    (∀ b, view s' b = if decide (a = b) then Some o else view s b).
Proof.
  intros HI. unfold GetOrNewStateObject.
  destruct (getStateObject_spec s a) as (s1 & -> & Hro & Hk & Hl & Hv).
  pose proof (stepped_readOnly s s1 HI Hro (Hk (inv_objs _ _ (proj1 HI)))) as Hst.
  destruct (liveView s a) as [o|] eqn:E.
  - destruct (liveView_view _ _ _ E) as [Hvo Hd]. exists [], o, s1. split_and!; auto; [by eapply view_ok; [apply HI|]|].
    intros b. rewrite Hv. case_decide; [by subst|done].
  - destruct (stepped_create s1 a 0 (st_inv _ _ _ Hst)) as (e & s2 & -> & _ & Hst2 & Ho & Hv2).
    exists ([] ++ [e]), (freshObject a), s2. split_and!; auto; [by eapply stepped_trans|done|].
    intros b. rewrite Hv2. case_decide; [done|apply Hv].
Qed.

(** The setters of a cached live object. *)
Section setters.
Context s a o (HI : sdInv s) (Ho : stateObjects s !! a = Some o) (Hok : objOk a o) (Hd : deleted o = false).

Lemma objSetBalance_stepped x : ∃ es, stepped s es (objSetBalance s o x).
Proof.
  destruct Hok as [Ha Hf]. eexists. unfold objSetBalance. rewrite Ha.
  apply (stepped_put s a o _ (setBalance x) (setBalance (Balance (data o)))); try done; try apply setBalance_good.
  all: by destruct o as [? [? ? ? ?] ? ? ? ? ? ? ? ? ? ? ?]; split.
Qed.

Lemma objSetNonce_stepped x : ∃ es, stepped s es (objSetNonce s o x).
Proof.
  destruct Hok as [Ha Hf]. eexists. unfold objSetNonce. rewrite Ha.
  apply (stepped_put s a o _ (setNonce x) (setNonce (Nonce (data o)))); try done; try apply setNonce_good.
  all: by destruct o as [? [? ? ? ?] ? ? ? ? ? ? ? ? ? ? ?]; split.
Qed.

Lemma objSetFreezeState_stepped x : ∃ es, stepped s es (objSetFreezeState s o x).
Proof.
  destruct Hok as [Ha Hf]. eexists. unfold objSetFreezeState. rewrite Ha.
  apply (stepped_put s a o _ (setFreezeState x) (setFreezeState (freeze o))); try done; try apply setFreezeState_good.
Qed.

Lemma view_cached : view s a = Some o.
Proof. unfold view. by rewrite Ho. Qed.

(** Refreshing the caches of the object. *)
Lemma refresh_stepped o' :
  objEqv (db s) o' o →
  stepped s [] (putObject s o') ∧ stateObjects (putObject s o') !! a = Some o' ∧ objOk a o' ∧ deleted o' = false.
Proof.
  intros He. pose proof (objOk_eqv _ _ _ _ Hok He) as [Ha' Hf'].
  split; [|split; [|split; [by split|by rewrite (oe_deleted _ _ _ He)]]].
  - apply stepped_readOnly; [done|by eapply readOnly_put; [apply view_cached|..]|].
    eapply (objectsOk_put _ a); [apply HI|by split].
  - simpl. rewrite Ha'. apply lookup_insert_eq.
Qed.
End setters.

Lemma objSetCode_stepped s a o h c :
  sdInv s → stateObjects s !! a = Some o → objOk a o → deleted o = false → ∃ es, stepped s es (objSetCode s o h c).
Proof.
  intros HI Ho Hok Hd. unfold objSetCode. destruct (objCode_spec (db s) o) as (o1 & Hc & He). rewrite Hc.
  destruct (refresh_stepped s a o HI Ho Hok Hd o1 He) as (Hst & Ho1 & [Ha1 Hf1] & Hd1).
  eexists. eapply stepped_trans; [exact Hst|]. rewrite Ha1.
  apply (stepped_put _ a o1 _ (setCode h (Some c)) (setCode (CodeHash (data o1)) (codeView (db s) o)));
    try done; try apply Hst; try apply setCode_good.
  change (db (putObject s o1)) with (db s).
  split; try done; [by destruct o1 as [? [? ? ? ?] ? ? ? ? ? ? ? ? ? ? ?]|]. rewrite (oe_code _ _ _ He).
  unfold codeView at 1. simpl. rewrite (oe_data _ _ _ He).
  destruct (codeView (db s) o) as [cc|] eqn:Ecv; [done|].
  unfold codeView in Ecv. by destruct (code o).
Qed.

Lemma objSetState_stepped s a o k v :
  sdInv s → stateObjects s !! a = Some o → objOk a o → deleted o = false → ∃ es, stepped s es (objSetState s o k v).
Proof.
  intros HI Ho Hok Hd. unfold objSetState. rewrite (proj2 Hok).
  destruct (objGetState_spec (db s) o k) as (o1 & Hc & He). rewrite Hc.
  destruct (refresh_stepped s a o HI Ho Hok Hd o1 He) as (Hst & Ho1 & [Ha1 Hf1] & Hd1).
  destruct (stateView (db s) o k =? v); [eauto|].
  eexists. eapply stepped_trans; [exact Hst|]. rewrite Ha1.
  apply (stepped_put _ a o1 _ (setState k v) (setState k (stateView (db s) o k))); try done;
    try apply Hst; try apply setState_good.
  change (db (putObject s o1)) with (db s). split; try done.
  intros x. rewrite !stateView_setState by done. rewrite (oe_state _ _ _ He). repeat case_decide; by subst.
Qed.

Lemma touch_stepped s a o : sdInv s → objOk a o → ∃ es, stepped s es (touch s o).
Proof.
  intros HI [Ha Hf]. exists [touchChange a]. unfold touch. rewrite Ha.
  assert (sdInv (journalAppend s (touchChange a))) as HI1 by (by apply append_inv).
  assert (∀ j, undoes sdEqv [touchChange a] s (setJnl (journalAppend s (touchChange a)) j)) as Hu.
  { intros j. eapply undoes_one; [done|]. by split. }
  destruct (Z.eqb_spec a ripemd) as [->|Hne]; [|split; [done|apply (Hu (jnl (journalAppend s (touchChange a))))|done|done]].
  split; [done|apply Hu|done|]. destruct HI1 as [HIe (n & Hn & Hcnt)]. split; [by destruct HIe|].
  exists (n + 1). split; [lia|].
  eapply countersUpTo_ext; [|apply (dirty_counters (ripemdMarks n)); [by apply ripemdMarks_nonneg|exact Hcnt]].
  intros b. unfold oneMore, ripemdMarks. destruct (Z.eqb_spec b ripemd); [by rewrite decide_True|by rewrite decide_False].
Qed.

(** A guarded setter. *)
Lemma guarded_stepped s a (f : DB → Object → DB) :
  sdInv s →
  (∀ s1 o, sdInv s1 → stateObjects s1 !! a = Some o → objOk a o → deleted o = false → ∃ es, stepped s1 es (f s1 o)) →
  ∃ es, stepped s es (guarded s a f).
Proof.
  intros HI Hf. unfold guarded.
  destruct (GetOrNew_stepped s a HI) as (es & o & s1 & -> & Hst & Ho & Hok & Hd & _).
  destruct (FreezeState o); [eauto|]. destruct (Hf s1 o (st_inv _ _ _ Hst) Ho Hok Hd) as [es2 Hst2].
  eexists. by eapply stepped_trans.
Qed.

Lemma objAddBalance_stepped s a o x :
  sdInv s → stateObjects s !! a = Some o → objOk a o → deleted o = false → ∃ es, stepped s es (objAddBalance s o x).
Proof.
  intros HI Ho Hok Hd. unfold objAddBalance. destruct (Z.sgn x =? 0).
  - destruct (empty o); [by eapply touch_stepped|]. exists []. apply stepped_readOnly; [done|apply readOnly_refl|apply HI].
  - by eapply objSetBalance_stepped.
Qed.

Lemma objSubBalance_stepped s a o x :
  sdInv s → stateObjects s !! a = Some o → objOk a o → deleted o = false → ∃ es, stepped s es (objSubBalance s o x).
Proof.
  intros HI Ho Hok Hd. unfold objSubBalance. destruct (Z.sgn x =? 0); [|by eapply objSetBalance_stepped].
  exists []. apply stepped_readOnly; [done|apply readOnly_refl|apply HI].
Qed.

Lemma AddLog_stepped s lg : sdInv s → ∃ es, stepped s es (AddLog s lg).
Proof.
  intros HI. exists [addLogChange (thash s)]. split; [done| |done|].
  - set (lgs := GetLogs s (thash s)).
    assert (u64 (u64 (logSize s + 1) - 1) = logSize s) as Hsz.
    { unfold u64. rewrite Zminus_mod_idemp_l, Z.add_simpl_r. apply u64_small, HI. }
    unfold undoes. simpl. rewrite lookup_insert_eq. simpl. rewrite length_app. simpl.
    fold (GetLogs s (thash s)). fold lgs.
    case_decide; [|rewrite decide_False by lia]; simpl; eexists; (split; [done|]);
      (split; try done); intros h; unfold GetLogs; simpl.
    + destruct (decide (thash s = h)) as [<-|Hne].
      * rewrite lookup_delete_eq. unfold lgs, GetLogs in *. by destruct (logs s !! thash s) as [[|]|]; simpl in *; lia || done.
      * by rewrite lookup_delete_ne, lookup_insert_ne.
    + destruct (decide (thash s = h)) as [<-|Hne].
      * rewrite lookup_insert_eq. simpl. rewrite Nat.add_sub. by rewrite take_app_length.
      * by rewrite !lookup_insert_ne.
  - assert (sdInv (journalAppend s (addLogChange (thash s)))) as [[? ? ? ? ? ?] ?] by (by apply append_inv).
    split; [|done]. split; try done. apply u64_range.
Qed.

(** An entry about a field outside the objects. *)
Lemma stepped_field s e s' :
  sdInv s → (∀ b, e ≠ createObjectChange b) → (∀ p, e ≠ resetObjectChange p) →
  undoes sdEqv [e] s s' → jnl s' = append (jnl s) e → sameFrame s (setJnl s' (jnl s)) →
  stateObjects s' = stateObjects s → stateObjectsPending s' = stateObjectsPending s →
  stateObjectsDirty s' = stateObjectsDirty s → logSize s' = logSize s →
  stepped s [e] s'.
Proof.
  intros HI Hc Hr Hu Hj (_ & Hv & Hn) Ho Hp Hd Hl. split; [by rewrite Hj|done|done|].
  pose proof (append_inv s e Hc Hr HI) as [[Hk Hpe Hdi Hs Hcr Hrs] Hcnt].
  split; [|by rewrite Hj]. rewrite Hj. unfold objectsOk in *. split; unfold objectsOk; rewrite ?Ho, ?Hp, ?Hd, ?Hl; done.
Qed.

Lemma AddPreimage_stepped s h pre : sdInv s → ∃ es, stepped s es (AddPreimage s h pre).
Proof.
  intros HI. unfold AddPreimage. destruct (preimages s !! h) eqn:E.
  { exists []. apply stepped_readOnly; [done|apply readOnly_refl|apply HI]. }
  exists [addPreimageChange h]. apply stepped_field; try done. eapply undoes_one; [done|]. split; try done. simpl.
  by rewrite delete_insert_id.
Qed.

Lemma setRefund_stepped s r : sdInv s → ∃ es, stepped s es (setRefund (journalAppend s (refundChange (refund s))) r).
Proof.
  intros HI. exists [refundChange (refund s)]. apply stepped_field; try done. eapply undoes_one; [done|]. by split.
Qed.

(** ** Programs of operations *)
Inductive sdOp :=
| OpAddBalance (a : Address) (x : Z)
| OpSubBalance (a : Address) (x : Z)
| OpSetBalance (a : Address) (x : Z)
| OpSetNonce (a : Address) (n : Z)
| OpSetCode (a : Address) (c : bytes)
| OpSetState (a : Address) (k v : Hash)
| OpSetFreezeState (a : Address) (b : bool)
| OpSuicide (a : Address)
| OpCreateAccount (a : Address)
| OpAddLog (l : Log)
| OpAddPreimage (h : Hash) (pre : bytes)
| OpAddRefund (g : Z)
| OpSubRefund (g : Z)
| OpGetBalance (a : Address)
| OpGetState (a : Address) (k : Hash)
| OpGetCode (a : Address)
| OpSnapshot
| OpRevertToSnapshot (revid : Z).

Definition sdStep s (op : sdOp) : option DB :=
  match op with
  | OpAddBalance a x => Some (AddBalance s a x)
  | OpSubBalance a x => Some (SubBalance s a x)
  | OpSetBalance a x => Some (SetBalance s a x)
  | OpSetNonce a n => Some (SetNonce s a n)
  | OpSetCode a c => Some (SetCode s a c)
  | OpSetState a k v => Some (SetState s a k v)
  | OpSetFreezeState a b => Some (SetFreezeState s a b)
  | OpSuicide a => Some (Suicide s a).2
  | OpCreateAccount a => Some (CreateAccount s a)
  | OpAddLog l => Some (AddLog s l)
  | OpAddPreimage h pre => Some (AddPreimage s h pre)
  | OpAddRefund g => Some (AddRefund s g)
  | OpSubRefund g => SubRefund s g
  | OpGetBalance a => Some (GetBalance s a).2
  | OpGetState a k => Some (GetState s a k).2
  | OpGetCode a => Some (GetCode s a).2
  | OpSnapshot => Some (Snapshot s).2
  | OpRevertToSnapshot revid => RevertToSnapshot s revid
  end.

Definition sdRun s (ops : list sdOp) : option DB := foldl (λ ms op, ms ≫= λ s, sdStep s op) (Some s) ops.

Lemma readObject_stepped {A} s a (dflt : A) f :
  sdInv s → (∀ o, ∃ x o', f o = (x, o') ∧ objEqv (db s) o' o) → ∃ es, stepped s es (readObject s a dflt f).2.
Proof.
  intros HI Hf. unfold readObject. destruct (getStateObject_spec s a) as (s1 & -> & Hro & Hk & Hl & _).
  pose proof (stepped_readOnly s s1 HI Hro (Hk (inv_objs _ _ (proj1 HI)))) as Hst.
  destruct (liveView s a) as [o|] eqn:E; simpl; [|eauto].
  destruct (Hf o) as (x & o' & -> & He). simpl. destruct (liveView_view _ _ _ E) as [Hv Hd].
  rewrite <-(eqv_db _ _ (ro_eqv _ _ Hro)) in He.
  destruct (refresh_stepped s1 a o (st_inv _ _ _ Hst) (Hl o eq_refl)
    (view_ok _ _ _ (inv_objs _ _ (proj1 HI)) Hv) Hd o' He) as [Hst2 _].
  eexists. by eapply stepped_trans.
Qed.

(** Every operation that is not about snapshots extends the journal with its own undo. *)
Lemma sdStep_stepped s op s' :
  sdInv s → op ≠ OpSnapshot → (∀ r, op ≠ OpRevertToSnapshot r) → sdStep s op = Some s' → ∃ es, stepped s es s'.
Proof.
  intros HI Hs Hr Hop. destruct op as [a x|a x|a x|a n|a c|a k v|a b|a|a|l|h pre|g|g|a|a k|a| |r];
    simpl in Hop; try (by destruct Hs); try (by destruct (Hr r)); try injection Hop as <-.
  - apply guarded_stepped; [done|]. intros. by eapply objAddBalance_stepped.
  - apply guarded_stepped; [done|]. intros. by eapply objSubBalance_stepped.
  - apply guarded_stepped; [done|]. intros. by eapply objSetBalance_stepped.
  - apply guarded_stepped; [done|]. intros. by eapply objSetNonce_stepped.
  - apply guarded_stepped; [done|]. intros. by eapply objSetCode_stepped.
  - apply guarded_stepped; [done|]. intros. by eapply objSetState_stepped.
  - unfold SetFreezeState. destruct (GetOrNew_stepped s a HI) as (es & o & s1 & -> & Hst & Ho & Hok & Hd & _).
    destruct (objSetFreezeState_stepped s1 a o (st_inv _ _ _ Hst) Ho Hok Hd b) as [es2 Hst2].
    eexists. by eapply stepped_trans.
  - unfold Suicide. destruct (getStateObject_spec s a) as (s1 & -> & Hro & Hk & Hl & _).
    pose proof (stepped_readOnly s s1 HI Hro (Hk (inv_objs _ _ (proj1 HI)))) as Hst.
    destruct (liveView s a) as [o|] eqn:E; simpl; [|eauto].
    eexists. eapply stepped_trans; [exact Hst|]. apply stepped_suicide; [apply Hst|auto|].
    by apply (liveView_view s a).
  - unfold CreateAccount. destruct (view s a) as [p|] eqn:Ep.
    + destruct (stepped_create s a (Balance (data p)) HI) as (e & s1 & Hc & Hst & _). rewrite Hc, Ep. eauto.
    + destruct (stepped_create s a 0 HI) as (e & s1 & Hc & _ & Hst & _). rewrite Hc, Ep. eauto.
  - by apply AddLog_stepped.
  - by apply AddPreimage_stepped.
  - by apply setRefund_stepped.
  - unfold SubRefund in Hop. destruct (_ >? _); [done|]. injection Hop as <-. by apply setRefund_stepped.
  - unfold GetBalance, withObject. destruct (getStateObject_spec s a) as (s1 & -> & Hro & Hk & _).
    exists []. apply stepped_readOnly; [done|done|apply Hk, HI].
  - apply readObject_stepped; [done|]. intros o. destruct (objGetState_spec (db s) o k) as (o' & ? & ?). eauto.
  - apply readObject_stepped; [done|]. intros o. destruct (objCode_spec (db s) o) as (o' & ? & ?). eauto.
Qed.

Definition revisionsOk s : Prop := revsOk (validRevisions s) (nextRevisionID s) (length (entries (jnl s))).

Lemma sdInv_setRevisions s vr next : sdInv s → sdInv (setRevisions s vr next).
Proof. by intros [[? ? ? ? ? ?] ?]. Qed.

(** What a program keeps true while a snapshot [id] of [s0] is open. *)
Definition sdScoped (id : Z) s0 s : Prop :=
  sdInv s ∧
  scoped sdEqv id (entries (jnl s0)) s0 (validRevisions s0) (entries (jnl s)) (validRevisions s) (nextRevisionID s) s.

Lemma revert_state s s1 j vr es2 n :
  sdInv s → entries (jnl s) = entries j ++ es2 → undo (reverse es2) s = Some s1 →
  0 ≤ n → countersUpTo (ripemdMarks n) j →
  sdInv (setRevisions (setJnl s1 j) vr (nextRevisionID s1)) ∧ nextRevisionID s1 = nextRevisionID s.
Proof.
  intros [HI _] He Hu Hn Hj. rewrite He in HI.
  destruct (undo_inv (entries j) es2 s s1 HI Hu) as [HI1 (_ & _ & Hnx)].
  split; [|done]. apply sdInv_setRevisions. split; [|by exists n]. destruct HI1 as [? ? ? ? ? ?]. by split.
Qed.

Lemma scoped_frame id s0 s s' es vr next :
  sdEqv s s' → scoped sdEqv id (entries (jnl s0)) s0 (validRevisions s0) es vr next s →
  scoped sdEqv id (entries (jnl s0)) s0 (validRevisions s0) es vr next s'.
Proof.
  intros He (es1 & rs & ? & Hu & ? & ?). exists es1, rs. split_and!; [done| |done|done].
  eapply undoes_eqv_r; [apply _|apply sdRevert_proper|exact He|exact Hu].
Qed.

Lemma sdStep_scoped id s0 s op s' :
  sdScoped id s0 s → (∀ r, op = OpRevertToSnapshot r → id < r) → sdStep s op = Some s' → sdScoped id s0 s'.
Proof.
  intros [HI Hs] Hop Hl.
  assert (op = OpSnapshot ∨ (∃ r, op = OpRevertToSnapshot r) ∨
          op ≠ OpSnapshot ∧ ∀ r, op ≠ OpRevertToSnapshot r) as [->|[[r ->]|Hn]]
    by (destruct op; naive_solver).
  - simpl in Hl. simplify_eq. split; [by apply sdInv_setRevisions|]. simpl.
    eapply scoped_frame; [|by apply scoped_nested_snapshot]. by split.
  - simpl in Hl. unfold RevertToSnapshot in Hl. apply bind_Some in Hl as ([[s1 j] vr] & Hrev & [= <-]).
    destruct (proj2 HI) as (n & Hn & Hcnt).
    destruct (scoped_nested_revert (ripemdMarks n) (ripemdMarks_nonneg n Hn) sdEqv _ _ _ _ _ _ _ _ _ _ _ _
      Hcnt Hs (Hop r eq_refl) Hrev) as (es2 & He & Hu & Hc & Hs').
    destruct (revert_state s s1 j vr es2 n HI He Hu Hn Hc) as [HI' Hnext]. split; [done|].
    simpl. rewrite Hnext. eapply scoped_frame; [|exact Hs']. by split.
  - destruct (sdStep_stepped s op s' HI) as [es Hst]; [apply Hn|apply Hn|done|].
    split; [apply Hst|]. destruct (st_revs _ _ _ Hst) as [-> ->]. rewrite (st_entries _ _ _ Hst).
    eapply scoped_extend; [apply _|apply sdRevert_proper|done|apply Hst].
Qed.

Lemma sdRun_scoped id s0 s ops s' :
  sdScoped id s0 s → (∀ r, OpRevertToSnapshot r ∈ ops → id < r) → sdRun s ops = Some s' → sdScoped id s0 s'.
Proof.
  unfold sdRun. revert s. induction ops as [|op ops IH]; intros s Hs Hops Hrun; simpl in Hrun.
  { by simplify_eq. }
  destruct (sdStep s op) as [s1|] eqn:Hop.
  - apply (IH s1); [|set_solver|done]. eapply sdStep_scoped; [done| |done]. intros r ->. apply Hops. set_solver.
  - exfalso. clear -Hrun. induction ops; simpl in Hrun; [done|auto].
Qed.

(** C5: snapshot and revert of the account state.  Whatever program of operations runs after
    [Snapshot], with nested snapshots and reverts, [RevertToSnapshot] of its id does not panic
    and brings back the state of before: every address has the same account, code, storage,
    freeze and self-destruct flags, and the logs, refund, preimages, pending and dirty sets
    and valid revisions are those of before; the journal's entries too, and its per-address
    counters up to the explicit marks of the RIPEMD address. *)
Theorem StateDB_revert_restores s ops s1 :
  sdInv s → revisionsOk s →
  (∀ r, OpRevertToSnapshot r ∈ ops → (Snapshot s).1 < r) →
  sdRun (Snapshot s).2 ops = Some s1 →
  ∃ s2, RevertToSnapshot s1 (Snapshot s).1 = Some s2 ∧ sdEqv s2 s ∧ entries (jnl s2) = entries (jnl s) ∧
        (∀ a, a ≠ ripemd → dirties (jnl s2) !! a = dirties (jnl s) !! a) ∧
        validRevisions s2 = validRevisions s ∧ sdInv s2.
Proof.
  intros HI Hr Hops Hrun.
  assert (sdScoped (nextRevisionID s) s (Snapshot s).2) as H0.
  { split; [by apply sdInv_setRevisions|]. eapply scoped_frame; [|apply scoped_snapshot; [apply _|exact Hr]]. by split. }
  destruct (sdRun_scoped _ s _ ops s1 H0 Hops Hrun) as [HI1 Hs]. destruct (proj2 HI1) as (n & Hn & Hcnt).
  destruct (scoped_revert (ripemdMarks n) (ripemdMarks_nonneg n Hn) sdEqv _ _ _ _ _ _ _ _ Hcnt Hs)
    as (s2 & j' & es1 & Hrev & Heq & He & Hu & He' & Hc').
  unfold RevertToSnapshot. simpl. rewrite Hrev. simpl. eexists. split; [done|].
  rewrite <-He' in He. destruct (revert_state s1 s2 j' (validRevisions s) es1 n HI1 He Hu Hn Hc') as [HI2 _].
  split_and!; [destruct Heq; by split|done| |done|done]. simpl. intros a Ha.
  destruct (proj2 HI) as (m & _ & Hcnt0). rewrite (Hc' a), (Hcnt0 a), He'. unfold ripemdMarks.
  by destruct (Z.eqb_spec a ripemd).
Qed.

End properties.

(** * A new database, and concrete runs *)
Section initial.
Context `{TB : TrieBackend} `{AC : AccountCodec} `{VS : ValidatorStore}.

(** [New] establishes the invariants. *)
Lemma New_inv root d (s : DB) : New root d = inr s → sdInv s ∧ validRevisions s = [] ∧ db s = d ∧ stateObjects s = ∅.
Proof.
  unfold New. destruct (OpenTrie d root) as [|tr]; [done|]. intros [= <-]. split_and!; try done. split.
  - split; simpl; try done; try set_solver.
  - exists 0. split; [done|]. eapply countersUpTo_ext; [|apply newJournal_counters].
    intros a. unfold ripemdMarks. by destruct (a =? ripemd).
Qed.
End initial.

(** An encoding with one element per field. *)
Definition demoCodec : AccountCodec := {|
  encodeAccount x := if Balance x <? 0 then None else Some [Nonce x; Balance x; Root x; CodeHash x];
  decodeAccount b := match b with [n; bal; r; c] => Some (mkAccount n bal r c) | _ => None end;
  encodeValue v := [v];
  decodeValue b := match b with [v] => Some v | _ => None end;
  Keccak256Hash c := 1000 + Z.of_nat (length c);
|}.

Definition demoValidators : ValidatorStore := {|
  ValidatorWrapper := bytes; SanityCheck w := (0 <? length w)%nat; encodeWrapper w := Some w; decodeWrapper b := Some b
|}.

#[local] Existing Instances mapTrie demoCodec demoValidators.

(** Two accounts: address 1 with nonce 5 and balance 100, address 2 with balance 50 and a
    storage slot. *)
Definition demoDatabase : Database :=
  ({[ 7 := {[ 1 := [5; 100; emptyRoot; emptyCodeHash]; 2 := [0; 50; 8; emptyCodeHash] ]}; 8 := {[ 3 := [9] ]};
      emptyRoot := ∅ ]}
     : gmap Hash (gmap Z bytes), ∅).

Definition demoDB : DB :=
  match New 7 demoDatabase with
  | inr s => s
  | inl _ => mkDB demoDatabase (∅ : Trie) ∅ ∅ ∅ ∅ None 0 0 0 0 ∅ 0 ∅ newJournal [] 0
  end.

Lemma demoDB_New : New 7 demoDatabase = inr demoDB.
Proof. reflexivity. Qed.

Definition demoOps : list sdOp :=
  [OpAddBalance 1 7; OpSnapshot; OpSetState 2 3 11; OpSetFreezeState 2 true; OpCreateAccount 1; OpSuicide 2;
   OpRevertToSnapshot 1; OpSetCode 4 [6]; OpAddBalance 3 0; OpAddLog (mkLog 0 0 0 0 [1]); OpAddRefund 30;
   OpSubRefund 10; OpAddPreimage 5 [5]].

Lemma StateDB_revert_restores_witness :
  ∃ s1 s2, sdRun (Snapshot demoDB).2 demoOps = Some s1 ∧ (GetBalance s1 1).1 = 107 ∧
    RevertToSnapshot s1 0 = Some s2 ∧ sdEqv s2 demoDB.
Proof.
  destruct (eval_Some (sdRun (Snapshot demoDB).2 demoOps) (λ s, (GetBalance s 1).1 =? 107)) as (s1 & E & Hget%Z.eqb_eq);
    [vm_compute; reflexivity|].
  destruct (New_inv _ _ _ demoDB_New) as (HI & Hv & _).
  destruct (StateDB_revert_restores demoDB demoOps s1) as (s2 & H2 & He & _).
  - exact HI.
  - unfold revisionsOk. rewrite Hv. apply revsOk_nil.
  - intros r Hr. unfold demoOps in Hr.
    change ((Snapshot demoDB).1) with 0.
    repeat (apply elem_of_cons in Hr as [Hr|Hr]; [first [discriminate Hr|injection Hr as ->; lia]|]).
    apply elem_of_nil in Hr. destruct Hr.
  - exact E.
  - exists s1, s2. split_and!; [exact E|exact Hget|exact H2|exact He].
Defined.
