(* ===== verification/Accounts.v ===== *)
(** * What the account state promises

    The abstract account state [world]: a function from addresses to accounts, with the logs,
    refund counter and preimages, and snapshots that are saved copies of it.  [StateDB.v]
    implements it with cached objects over a trie and a journal of undo entries; the theorem
    [StateDB_refines] says that the two cannot be told apart by any program of operations.
    What the [freeze] flag protects, and what it does not, is then read off the abstract
    state.  The transfer functions of core/evm.go are here too. *)

From Stdlib Require Import ZArith Lia.
From stdpp Require Import base gmap list option sets.
From S2P Require Import Prelude Trie Journal StateDB.
Local Open Scope Z_scope.

(** ** The abstract state *)
Record account := mkAccountView {
  aNonce : Z;
  aBalance : Z;
  aCodeHash : Hash;
  aCode : option bytes;
  aStorage : Hash → Hash;
  aFrozen : bool;
  aSuicided : bool;
  aDeleted : bool;
}.

Record world := mkWorld {
  accts : Address → option account;
  wRefund : Z;
  wLogs : Hash → list Log;
  wLogSize : Z;
  wPreimages : gmap Hash bytes;
  wTx : Hash * Hash * Z;
}.

Record spec := mkSpec { now : world; saved : list (Z * world); nextId : Z }.

(** Equality up to the extension of the functions. *)
#[export] Instance account_equiv : Equiv account := λ x y,
  aNonce x = aNonce y ∧ aBalance x = aBalance y ∧ aCodeHash x = aCodeHash y ∧ aCode x = aCode y ∧
  (∀ k, aStorage x k = aStorage y k) ∧ aFrozen x = aFrozen y ∧ aSuicided x = aSuicided y ∧ aDeleted x = aDeleted y.

#[export] Instance world_equiv : Equiv world := λ w1 w2,
  (∀ a, accts w1 a ≡ accts w2 a) ∧ wRefund w1 = wRefund w2 ∧ (∀ h, wLogs w1 h = wLogs w2 h) ∧
  wLogSize w1 = wLogSize w2 ∧ wPreimages w1 = wPreimages w2 ∧ wTx w1 = wTx w2.

#[export] Instance account_equivalence : Equivalence (≡@{account}).
Proof.
  unfold equiv, account_equiv. split.
  - intros x. by split_and!.
  - intros x y (?&?&?&?&?&?&?&?). split_and!; by auto.
  - intros x y z (?&?&?&?&?&?&?&?) (?&?&?&?&?&?&?&?). split_and!; congruence.
Qed.

#[export] Instance world_equivalence : Equivalence (≡@{world}).
Proof.
  unfold equiv, world_equiv. split.
  - intros x. by split_and!.
  - intros x y (?&?&?&?&?&?). split_and!; by auto.
  - intros x y z (Ha&?&Hl&?&?&?) (Hb&?&Hm&?&?&?). split_and!; try congruence.
    intros a. etransitivity; [apply Ha|apply Hb].
Qed.

(** ** The operations on the abstract state *)
Definition setBal (v : Z) (x : account) : account :=
  mkAccountView (aNonce x) v (aCodeHash x) (aCode x) (aStorage x) (aFrozen x) (aSuicided x) (aDeleted x).
Definition setNon (v : Z) (x : account) : account :=
  mkAccountView v (aBalance x) (aCodeHash x) (aCode x) (aStorage x) (aFrozen x) (aSuicided x) (aDeleted x).
Definition setCod (h : Hash) (c : bytes) (x : account) : account :=
  mkAccountView (aNonce x) (aBalance x) h (Some c) (aStorage x) (aFrozen x) (aSuicided x) (aDeleted x).
Definition setSto (k v : Hash) (x : account) : account :=
  mkAccountView (aNonce x) (aBalance x) (aCodeHash x) (aCode x)
    (λ k', if decide (k' = k) then v else aStorage x k') (aFrozen x) (aSuicided x) (aDeleted x).
Definition setFrz (b : bool) (x : account) : account :=
  mkAccountView (aNonce x) (aBalance x) (aCodeHash x) (aCode x) (aStorage x) b (aSuicided x) (aDeleted x).
Definition setSui (x : account) : account :=
  mkAccountView (aNonce x) 0 (aCodeHash x) (aCode x) (aStorage x) (aFrozen x) true (aDeleted x).

(** A new account. *)
Definition blank : account := mkAccountView 0 0 emptyCodeHash None (λ _, 0) false false false.

Definition putAcct (w : world) (a : Address) (x : account) : world :=
  mkWorld (λ b, if decide (a = b) then Some x else accts w b) (wRefund w) (wLogs w) (wLogSize w) (wPreimages w) (wTx w).
Definition live (w : world) (a : Address) : option account :=
  x ← accts w a; if aDeleted x then None else Some x.
Definition orBlank (w : world) (a : Address) : account := default blank (live w a).

(** A write to an account that is not frozen; a frozen account keeps its contents. *)
Definition write (w : world) (a : Address) (f : account → account) : world :=
  let x := orBlank w a in putAcct w a (if aFrozen x then x else f x).

Section spec.
Context `{AC : AccountCodec}.

Definition specOp (w : world) (op : sdOp) : option world :=
  match op with
  | OpAddBalance a x => Some (write w a (λ y, setBal (aBalance y + x) y))
  | OpSubBalance a x => Some (write w a (λ y, setBal (aBalance y - x) y))
  | OpSetBalance a x => Some (write w a (setBal x))
  | OpSetNonce a n => Some (write w a (setNon n))
  | OpSetCode a c => Some (write w a (setCod (Keccak256Hash c) c))
  | OpSetState a k v => Some (write w a (setSto k v))
  | OpSetFreezeState a b => Some (putAcct w a (setFrz b (orBlank w a)))
  | OpSuicide a => Some (match live w a with Some x => putAcct w a (setSui x) | None => w end)
  | OpCreateAccount a => Some (putAcct w a (setBal (default 0 (aBalance <$> accts w a)) blank))
  | OpAddLog l =>
      let '(th, bh, ti) := wTx w in
      Some (mkWorld (accts w) (wRefund w)
        (λ h, if decide (h = th) then wLogs w th ++ [mkLog th bh (u64 ti) (wLogSize w) (logBody l)] else wLogs w h)
        (u64 (wLogSize w + 1)) (wPreimages w) (wTx w))
  | OpAddPreimage h pre =>
      Some (mkWorld (accts w) (wRefund w) (wLogs w) (wLogSize w)
        (match wPreimages w !! h with Some _ => wPreimages w | None => <[h := pre]> (wPreimages w) end) (wTx w))
  | OpAddRefund g =>
      Some (mkWorld (accts w) (u64 (wRefund w + g)) (wLogs w) (wLogSize w) (wPreimages w) (wTx w))
  | OpSubRefund g =>
      if g >? wRefund w then None
      else Some (mkWorld (accts w) (u64 (wRefund w - g)) (wLogs w) (wLogSize w) (wPreimages w) (wTx w))
  | _ => Some w
  end.

Definition specStep (σ : spec) (op : sdOp) : option spec :=
  match op with
  | OpSnapshot => Some (mkSpec (now σ) (saved σ ++ [(nextId σ, now σ)]) (nextId σ + 1))
  | OpRevertToSnapshot id =>
      '(i, p) ← list_find (λ p, p.1 = id) (saved σ);
      Some (mkSpec p.2 (take i (saved σ)) (nextId σ))
  | _ => w ← specOp (now σ) op; Some (mkSpec w (saved σ) (nextId σ))
  end.

Definition specRun (σ : spec) (ops : list sdOp) : option spec :=
  foldl (λ mσ op, mσ ≫= λ σ, specStep σ op) (Some σ) ops.

(** *** The operations respect the equality of worlds *)
#[export] Instance putAcct_proper : Proper ((≡) ==> eq ==> (≡) ==> (≡)) putAcct.
Proof.
  intros w1 w2 (Ha&?&?&?&?&?) a ? <- x y Hxy. split_and!; try done. intros b. simpl.
  case_decide; [by constructor|apply Ha].
Qed.

#[export] Instance live_proper : Proper ((≡) ==> eq ==> (≡)) live.
Proof.
  intros w1 w2 (Ha&_) a ? <-. unfold live. destruct (Ha a) as [x y Hxy|]; simpl; [|constructor].
  replace (aDeleted y) with (aDeleted x) by apply Hxy. destruct (aDeleted x); by constructor.
Qed.

#[export] Instance orBlank_proper : Proper ((≡) ==> eq ==> (≡)) orBlank.
Proof. intros w1 w2 Hw a ? <-. unfold orBlank. destruct (live_proper w1 w2 Hw a a eq_refl) as [x y Hxy|]; done. Qed.

Lemma write_proper f g w1 w2 a :
  (∀ x y, x ≡ y → f x ≡ g y) → w1 ≡ w2 → write w1 a f ≡ write w2 a g.
Proof.
  intros Hfg Hw. unfold write. apply putAcct_proper; [done|done|].
  pose proof (orBlank_proper _ _ Hw a _ eq_refl) as Ho.
  replace (aFrozen (orBlank w2 a)) with (aFrozen (orBlank w1 a)) by apply Ho.
  destruct (aFrozen _); [done|by apply Hfg].
Qed.

#[export] Instance specOp_proper : Proper ((≡) ==> eq ==> (≡)) specOp.
Proof.
  intros w1 w2 Hw op ? <-.
  assert (∀ f : account → account, (∀ x y, x ≡ y → f x ≡ f y) → ∀ a, Some (write w1 a f) ≡ Some (write w2 a f)) as Hwr
    by (intros f Hf a; constructor; by apply write_proper).
  destruct op as [a x|a x|a x|a n|a c|a k v|a b|a|a|l|h pre|g|g|a|a k|a| |r]; simpl;
    try (apply Hwr; intros y z (?&Hb&?&?&?&?&?&?); split_and!; simpl; try done; congruence); try by constructor.
  - apply Hwr. intros y z (?&?&?&?&Hs&?&?&?). split_and!; simpl; try done. intros k'. by case_decide.
  - constructor. apply putAcct_proper; [done|done|].
    destruct (orBlank_proper _ _ Hw a _ eq_refl) as (?&?&?&?&?&?&?&?). by split_and!.
  - constructor. destruct (live_proper _ _ Hw a _ eq_refl) as [y z (?&?&?&?&?&?&?&?)|]; [|done].
    apply putAcct_proper; [done|done|by split_and!].
  - constructor. apply putAcct_proper; [done|done|].
    destruct (proj1 Hw a) as [y z Hyz|]; simpl; [|done]. by replace (aBalance z) with (aBalance y) by apply Hyz.
  - destruct Hw as (?&?&Hl&?&?&Ht). rewrite <-Ht. destruct (wTx w1) as [[th bh] ti] eqn:E.
    constructor. split_and!; simpl; try done; try congruence. intros h. case_decide; congruence.
  - destruct Hw as (?&?&?&?&Hp&?). constructor. split_and!; simpl; try done. by rewrite Hp.
  - destruct Hw as (?&Hr&?&?&?&?). constructor. split_and!; simpl; try done. by rewrite Hr.
  - destruct Hw as (?&Hr&?&?&?&?). rewrite Hr. destruct (g >? _); constructor. by split_and!.
Qed.
End spec.

(** * The database implements the specification *)
Section refinement.
Context `{TB : TrieBackend} `{AC : AccountCodec} `{VS : ValidatorStore}.
Implicit Types (s : DB) (a : Address) (o : Object) (d : Database) (w : world) (σ : spec).

(** What a database denotes. *)
Definition acctOf d o : account :=
  mkAccountView (Nonce (data o)) (Balance (data o)) (CodeHash (data o)) (codeView d o) (stateView d o)
    (freeze o) (suicided o) (deleted o).

Definition abs s : world :=
  mkWorld (λ a, acctOf (db s) <$> view s a) (refund s) (GetLogs s) (logSize s) (preimages s)
    (thash s, bhash s, txIndex s).

(** Every slot of a storage trie opened on the empty root is zero. *)
Definition emptyRootReads d : Prop :=
  ∀ k, trieValue (match OpenStorageTrie d emptyRoot with inr t => t | inl _ => emptyTrie end) k = 0.

Lemma acctOf_eqv d o1 o2 : objEqv d o1 o2 → acctOf d o1 ≡ acctOf d o2.
Proof. intros [? Hd ? ? ? ? ? ? ?]. by split_and!; simpl; rewrite ?Hd. Qed.

Lemma abs_eqv s1 s2 : sdEqv s1 s2 → abs s1 ≡ abs s2.
Proof.
  intros He. destruct (eqv_tx _ _ He) as (Ht1&Ht2&Ht3). split_and!; simpl; try apply He; [|congruence].
  intros a. rewrite <-(eqv_db _ _ He). destruct (eqv_view _ _ He a) as [o1 o2 Ho|]; simpl; constructor.
  by apply acctOf_eqv.
Qed.

Lemma live_abs s a : live (abs s) a = acctOf (db s) <$> liveView s a.
Proof.
  unfold live, liveView, abs. simpl. destruct (view s a) as [o|]; simpl; [|done]. by destruct (deleted o).
Qed.

Lemma acctOf_fresh d a : emptyRootReads d → acctOf d (freshObject a) ≡ blank.
Proof. intros Hd. by split_and!. Qed.

(** The fields outside the objects. *)
Definition sameRest s s' : Prop :=
  db s' = db s ∧ refund s' = refund s ∧ (∀ h, GetLogs s' h = GetLogs s h) ∧ logSize s' = logSize s ∧
  preimages s' = preimages s ∧ (thash s', bhash s', txIndex s') = (thash s, bhash s, txIndex s).

Lemma sameRest_refl s : sameRest s s.
Proof. by split_and!. Qed.

Lemma sameRest_trans s1 s2 s3 : sameRest s1 s2 → sameRest s2 s3 → sameRest s1 s3.
Proof. intros (?&?&Hl&?&?&?) (?&?&Hm&?&?&?). split_and!; try congruence. Qed.

Lemma readOnly_rest s s' : readOnly s s' → sameRest s s'.
Proof.
  intros [He _ _ _ _]. destruct (eqv_tx _ _ He) as (?&?&?). split_and!; try apply He. congruence.
Qed.

(** A write at one address. *)
Lemma abs_put s s' a o w x :
  sameRest s s' → (∀ b, view s' b = if decide (a = b) then Some o else view s b) →
  abs s ≡ w → acctOf (db s) o ≡ x → abs s' ≡ putAcct w a x.
Proof.
  intros (Hd&?&?&?&?&?) Hv (Ha&?&Hl&?&?&?) Hx. split_and!; simpl in *; try congruence.
  intros b. rewrite Hv, Hd. case_decide; [by constructor|apply Ha].
Qed.

Lemma GetOrNew_rest s a : sameRest s (GetOrNewStateObject s a).2.
Proof.
  unfold GetOrNewStateObject. destruct (getStateObject_spec s a) as (s1 & -> & Hro & _).
  destruct (liveView s a); simpl; [by apply readOnly_rest|].
  eapply sameRest_trans; [by apply readOnly_rest|]. unfold createObject.
  destruct (getDeleted_spec s1 a) as (s2 & -> & Hro2 & _). apply readOnly_rest in Hro2.
  by destruct (view s1 a).
Qed.

(** [GetOrNewStateObject] through the abstraction. *)
Lemma GetOrNew_abs s a :
  sdInv s → emptyRootReads (db s) →
  ∃ o s', GetOrNewStateObject s a = (o, s') ∧ sdInv s' ∧ stateObjects s' !! a = Some o ∧ objOk a o ∧
    deleted o = false ∧ sameRest s s' ∧ acctOf (db s) o ≡ orBlank (abs s) a ∧
    (∀ b, view s' b = if decide (a = b) then Some o else view s b).
Proof.
  intros HI Hd. destruct (GetOrNew_stepped s a HI) as (es & o & s' & Hg & Hst & Ho & Hok & Hdel & Hx & Hv).
  exists o, s'. pose proof (GetOrNew_rest s a) as Hr. rewrite Hg in Hr. split_and!; try done; try apply Hst; try apply Hr.
  unfold orBlank. rewrite live_abs. subst o. destruct (liveView s a); simpl; [done|]. by apply acctOf_fresh.
Qed.

(** What a setter of an object does to the views. *)
Definition sets (f : DB → Object → DB) (g : account → account) : Prop :=
  ∀ s a o, stateObjects s !! a = Some o → objOk a o →
    ∃ o', sameRest s (f s o) ∧ acctOf (db s) o' ≡ g (acctOf (db s) o) ∧
      ∀ b, view (f s o) b = if decide (a = b) then Some o' else view s b.

Lemma guarded_abs s w a f g :
  sdInv s → emptyRootReads (db s) → abs s ≡ w → sets f g → (∀ x y, x ≡ y → g x ≡ g y) →
  abs (guarded s a f) ≡ write w a g ∧ db (guarded s a f) = db s.
Proof.
  intros HI Hd Hw Hf Hg. unfold guarded.
  destruct (GetOrNew_abs s a HI Hd) as (o & s1 & -> & _ & Ho & Hok & _ & Hr & Hx & Hv).
  rewrite (orBlank_proper _ _ Hw a _ eq_refl) in Hx. unfold write.
  assert (FreezeState o = aFrozen (orBlank w a)) as -> by apply Hx.
  destruct (aFrozen _); [split; [by eapply abs_put|apply Hr]|].
  destruct (Hf s1 a o Ho Hok) as (o' & Hr' & Hx' & Hv'). assert (db s1 = db s) as Hdb by apply Hr.
  split; [|rewrite <-Hdb; apply Hr']. apply (abs_put s _ a o'); [by eapply sameRest_trans| |done|].
  - intros b. rewrite Hv', Hv. by case_decide.
  - rewrite <-Hdb, Hx', Hdb. by apply Hg.
Qed.

Lemma cached_view s a o : stateObjects s !! a = Some o → ∀ b, view s b = if decide (a = b) then Some o else view s b.
Proof. intros Ho b. case_decide; [subst b; by apply view_cached|done]. Qed.

(** A write that only puts the object back. *)
Lemma put_sets s a o e : objOk a o →
  sameRest s (putObject (journalAppend s e) o) ∧
  ∀ b, view (putObject (journalAppend s e) o) b = if decide (a = b) then Some o else view s b.
Proof. intros [Ha _]. split; [by split_and!|]. intros b. rewrite view_putObject, Ha. by case_decide. Qed.

Lemma objSetBalance_sets x : sets (λ s o, objSetBalance s o x) (setBal x).
Proof.
  intros s a o Ho Hok. exists (setBalance x o). unfold objSetBalance.
  destruct (put_sets s a (setBalance x o) (balanceChange (address o) (Balance (data o))) Hok). by split_and!.
Qed.

Lemma objSetNonce_sets x : sets (λ s o, objSetNonce s o x) (setNon x).
Proof.
  intros s a o Ho Hok. exists (setNonce x o). unfold objSetNonce.
  destruct (put_sets s a (setNonce x o) (nonceChange (address o) (Nonce (data o))) Hok). by split_and!.
Qed.

Lemma touch_sets s a o : stateObjects s !! a = Some o →
  sameRest s (touch s o) ∧ ∀ b, view (touch s o) b = if decide (a = b) then Some o else view s b.
Proof.
  intros Ho. unfold touch. destruct (_ =? ripemd); (split; [by split_and!|exact (cached_view s a o Ho)]).
Qed.

Lemma setBal_same x v : v = aBalance x → x ≡ setBal v x.
Proof. intros ->. by split_and!. Qed.

Lemma objAddBalance_sets x : sets (λ s o, objAddBalance s o x) (λ y, setBal (aBalance y + x) y).
Proof.
  intros s a o Ho Hok. unfold objAddBalance. destruct (Z.eqb_spec (Z.sgn x) 0) as [Hx|_].
  - assert (x = 0) as -> by lia. exists o. destruct (empty o).
    + destruct (touch_sets s a o Ho) as [Hr Hv]. split; [done|split; [apply setBal_same; lia|done]].
    + split; [by apply sameRest_refl|split; [apply setBal_same; lia|by apply cached_view]].
  - destruct (objSetBalance_sets (Balance (data o) + x) s a o Ho Hok) as (o' & ? & ? & ?). by exists o'.
Qed.

Lemma objSubBalance_sets x : sets (λ s o, objSubBalance s o x) (λ y, setBal (aBalance y - x) y).
Proof.
  intros s a o Ho Hok. unfold objSubBalance. destruct (Z.eqb_spec (Z.sgn x) 0) as [Hx|_].
  - assert (x = 0) as -> by lia. exists o. split; [by apply sameRest_refl|split; [apply setBal_same; lia|by apply cached_view]].
  - destruct (objSetBalance_sets (Balance (data o) - x) s a o Ho Hok) as (o' & ? & ? & ?). by exists o'.
Qed.

Lemma put_put s o1 o2 a : address o1 = a → address o2 = a → putObject (putObject s o1) o2 = putObject s o2.
Proof. intros H1 H2. unfold putObject, setObjects. simpl. by rewrite H1, H2, insert_insert_eq. Qed.

Lemma objSetCode_sets h c : sets (λ s o, objSetCode s o h c) (setCod h c).
Proof.
  intros s a o Ho Hok. unfold objSetCode. destruct (objCode_spec (db s) o) as (o1 & -> & He).
  pose proof (objOk_eqv _ _ _ _ Hok He) as Hok1.
  exists (setCode h (Some c) o1).
  destruct (put_sets (putObject s o1) a (setCode h (Some c) o1)
    (codeChange (address o1) (codeView (db s) o) (CodeHash (data o1))) Hok1) as [? Hv].
  destruct (acctOf_eqv _ _ _ He) as (?&?&?&?&?&?&?&?). split; [done|split; [by split_and!|]].
  intros b. rewrite Hv, view_putObject, (proj1 Hok1). by case_decide.
Qed.

Lemma objSetState_sets k v : sets (λ s o, objSetState s o k v) (setSto k v).
Proof.
  intros s a o Ho Hok. unfold objSetState. rewrite (proj2 Hok).
  destruct (objGetState_spec (db s) o k) as (o1 & -> & He).
  pose proof (objOk_eqv _ _ _ _ Hok He) as Hok1. pose proof (acctOf_eqv _ _ _ He) as Hx.
  destruct (Z.eqb_spec (stateView (db s) o k) v) as [Hv|_].
  - exists o1. split; [by split_and!|split].
    + destruct Hx as (?&?&?&?&Hs&?&?&?). split_and!; try done. intros k'. simpl in *. rewrite Hs. case_decide; congruence.
    + intros b. by rewrite view_putObject, (proj1 Hok1).
  - exists (setState k v o1).
    destruct (put_sets (putObject s o1) a (setState k v o1) (storageChange (address o1) k (stateView (db s) o k)) Hok1)
      as [? Hv]. split; [done|split].
    + destruct Hx as (?&?&?&?&Hs&?&?&?). split_and!; try done. intros k'. simpl.
      rewrite stateView_setState by apply Hok1. case_decide; [done|]. apply Hs.
    + intros b. rewrite Hv, view_putObject, (proj1 Hok1). by case_decide.
Qed.
(** A step outside the objects. *)
Lemma abs_field s s' w w' :
  (∀ b, view s' b = view s b) → db s' = db s → abs s ≡ w → (∀ b, accts w' b = accts w b) →
  refund s' = wRefund w' → (∀ h, GetLogs s' h = wLogs w' h) → logSize s' = wLogSize w' →
  preimages s' = wPreimages w' → (thash s', bhash s', txIndex s') = wTx w' → abs s' ≡ w'.
Proof.
  intros Hv Hd (Ha&_) Hb ? ? ? ? ?. split_and!; simpl; try done. intros b. rewrite Hv, Hd, Hb. apply Ha.
Qed.

Lemma abs_readOnly s s' w : readOnly s s' → abs s ≡ w → abs s' ≡ w ∧ db s' = db s.
Proof. intros [He _ _ _ _] Hw. split; [|apply He]. by rewrite (abs_eqv _ _ He). Qed.

Lemma readObject_abs {A} s w a (dflt : A) f :
  sdInv s → (∀ o, ∃ x o', f o = (x, o') ∧ objEqv (db s) o' o) → abs s ≡ w →
  abs (readObject s a dflt f).2 ≡ w ∧ db (readObject s a dflt f).2 = db s.
Proof.
  intros HI Hf Hw. unfold readObject. destruct (getStateObject_spec s a) as (s1 & -> & Hro & Hk & Hl & Hv).
  destruct (liveView s a) as [o|] eqn:E; [|by apply (abs_readOnly s s1)].
  destruct (Hf o) as (x & o' & -> & He). simpl. destruct (liveView_view _ _ _ E) as [Hvo _].
  rewrite <-(eqv_db _ _ (ro_eqv _ _ Hro)) in He. apply (abs_readOnly s (putObject s1 o')); [|done].
  eapply readOnly_trans; [exact Hro|]. apply (readOnly_put s1 a o); [by rewrite Hv| |done].
  by eapply view_ok; [apply HI|].
Qed.

Lemma Suicide_abs s w a :
  sdInv s → abs s ≡ w →
  abs (Suicide s a).2 ≡ (match live w a with Some x => putAcct w a (setSui x) | None => w end) ∧
  db (Suicide s a).2 = db s.
Proof.
  intros HI Hw. unfold Suicide. destruct (getStateObject_spec s a) as (s1 & -> & Hro & Hk & Hl & Hv).
  pose proof (live_proper _ _ Hw a _ eq_refl) as Hlw. rewrite live_abs in Hlw.
  destruct (liveView s a) as [o|] eqn:E; inversion Hlw as [y z Hyz Hy Hz|Hy Hz]; simplify_eq/=.
  2: { by apply (abs_readOnly s s1). }
  split; [|apply (readOnly_rest _ _ Hro)]. destruct (liveView_view _ _ _ E) as [Hvo _].
  destruct (view_ok _ _ _ (inv_objs _ _ (proj1 HI)) Hvo) as [Hoa _].
  apply (abs_put s _ a (setBalance 0 (markSuicided o))); [apply (readOnly_rest _ _ Hro)| |done|].
  - intros b. rewrite view_putObject. simpl. rewrite Hoa. case_decide; [done|apply Hv].
  - destruct Hyz as (?&?&?&?&?&?&?&?). by split_and!.
Qed.

Lemma CreateAccount_abs s w a :
  sdInv s → emptyRootReads (db s) → abs s ≡ w →
  abs (CreateAccount s a) ≡ putAcct w a (setBal (default 0 (aBalance <$> accts w a)) blank) ∧
  db (CreateAccount s a) = db s.
Proof.
  intros HI Hd Hw. unfold CreateAccount.
  destruct (stepped_create s a 0 HI) as (e & s1 & Hc & _ & _ & _ & Hv).
  assert (sameRest s s1) as Hr.
  { pose proof (f_equal snd Hc) as Hs1. simpl in Hs1. subst s1. unfold createObject.
    destruct (getDeleted_spec s a) as (s2 & -> & Hro & _). apply readOnly_rest in Hro. by destruct (view s a). }
  rewrite Hc. destruct (acctOf_fresh (db s) a Hd) as (?&?&?&?&?&?&?&?).
  destruct Hw as [Ha Hw']. pose proof (Ha a) as Haa. simpl in Haa.
  assert (abs s ≡ w) as Hw by (by split).
  destruct (view s a) as [p|]; inversion Haa as [y z Hyz Hy Hz|Hy Hz]; simplify_eq/=; (split; [|apply Hr]).
  - replace (aBalance z) with (Balance (data p)) by apply Hyz.
    apply (abs_put s _ a (setBalance (Balance (data p)) (freshObject a))); [done| |done|by split_and!].
    intros b. rewrite view_putObject. simpl. case_decide; [done|]. rewrite Hv. by rewrite decide_False.
  - apply (abs_put s _ a (freshObject a)); [done|done|done|by split_and!].
Qed.

Lemma SetFreezeState_abs s w a b :
  sdInv s → emptyRootReads (db s) → abs s ≡ w →
  abs (SetFreezeState s a b) ≡ putAcct w a (setFrz b (orBlank w a)) ∧ db (SetFreezeState s a b) = db s.
Proof.
  intros HI Hd Hw. unfold SetFreezeState.
  destruct (GetOrNew_abs s a HI Hd) as (o & s1 & -> & _ & Ho & Hok & _ & Hr & Hx & Hv).
  rewrite (orBlank_proper _ _ Hw a _ eq_refl) in Hx. unfold objSetFreezeState.
  destruct (put_sets s1 a (setFreezeState b o) (freezeChange (address o) (freeze o)) Hok) as [Hr2 Hv2].
  split; [|apply Hr]. apply (abs_put s _ a (setFreezeState b o)); [by eapply sameRest_trans| |done|].
  - intros c. rewrite Hv2, Hv. by case_decide.
  - destruct Hx as (?&?&?&?&?&?&?&?). by split_and!.
Qed.

Lemma AddLog_abs s w l :
  abs s ≡ w → option_Forall2 (λ s' w', abs s' ≡ w' ∧ db s' = db s) (Some (AddLog s l)) (specOp w (OpAddLog l)).
Proof.
  intros Hw. pose proof Hw as (_&?&Hl&Hsz&?&Ht). simpl in *. rewrite <-Ht. constructor. split; [|done].
  apply (abs_field s _ w); try done; simpl; [|by rewrite Hsz]. intros h. unfold GetLogs at 1. simpl.
  case_decide as Hh.
  - subst h. rewrite lookup_insert_eq. simpl. fold (GetLogs s (thash s)). by rewrite Hl, Hsz.
  - rewrite lookup_insert_ne by done. apply Hl.
Qed.

(** One operation that is not about snapshots. *)
Lemma specOp_abs s w op :
  sdInv s → emptyRootReads (db s) → abs s ≡ w → op ≠ OpSnapshot → (∀ r, op ≠ OpRevertToSnapshot r) →
  option_Forall2 (λ s' w', abs s' ≡ w' ∧ db s' = db s) (sdStep s op) (specOp w op).
Proof.
  intros HI Hd Hw Hs Hr. pose proof Hw as (_&Hrf&Hl&Hsz&Hp&Ht). simpl in Hrf, Hsz, Hp, Ht.
  assert (∀ a f g, sets f g → (∀ x y, x ≡ y → g x ≡ g y) →
    option_Forall2 (λ s' w', abs s' ≡ w' ∧ db s' = db s) (Some (guarded s a f)) (Some (write w a g))) as Hg
    by (intros a f g Hf Hp'; constructor; by apply guarded_abs).
  assert (∀ s' w', abs s' ≡ w' ∧ db s' = db s →
    option_Forall2 (λ s' w', abs s' ≡ w' ∧ db s' = db s) (Some s') (Some w')) as Hone by (by constructor).
  destruct op as [a x|a x|a x|a n|a c|a k v|a b|a|a|l|h pre|g|g|a|a k|a| |r]; simpl;
    try (by destruct Hs); try (by destruct (Hr r)).
  - apply Hg; [apply objAddBalance_sets|]. intros y z (?&Hb&?&?&?&?&?&?). split_and!; simpl; try done. by rewrite Hb.
  - apply Hg; [apply objSubBalance_sets|]. intros y z (?&Hb&?&?&?&?&?&?). split_and!; simpl; try done. by rewrite Hb.
  - apply Hg; [apply objSetBalance_sets|]. intros y z (?&?&?&?&?&?&?&?). by split_and!.
  - apply Hg; [apply objSetNonce_sets|]. intros y z (?&?&?&?&?&?&?&?). by split_and!.
  - apply Hg; [apply objSetCode_sets|]. intros y z (?&?&?&?&?&?&?&?). by split_and!.
  - apply Hg; [apply objSetState_sets|]. intros y z (?&?&?&?&Hst&?&?&?). split_and!; simpl; try done.
    intros k'. by rewrite Hst.
  - by apply Hone, SetFreezeState_abs.
  - by apply Hone, Suicide_abs.
  - by apply Hone, CreateAccount_abs.
  - by apply AddLog_abs.
  - apply Hone. unfold AddPreimage. rewrite Hp. destruct (wPreimages w !! h) eqn:E; (split; [|done]);
      apply (abs_field s _ w); try done; simpl. by rewrite Hp.
  - apply Hone. split; [|done]. apply (abs_field s _ w); try done. simpl. by rewrite Hrf.
  - unfold SubRefund. simpl. rewrite Hrf. destruct (g >? _); [constructor|]. apply Hone. split; [|done].
    by apply (abs_field s _ w).
  - apply Hone. unfold GetBalance, withObject. destruct (getStateObject_spec s a) as (s1 & -> & Hro & _).
    by apply (abs_readOnly s s1).
  - apply Hone, readObject_abs; [done| |done]. intros o. destruct (objGetState_spec (db s) o k) as (o' & ? & ?). eauto.
  - apply Hone, readObject_abs; [done| |done]. intros o. destruct (objCode_spec (db s) o) as (o' & ? & ?). eauto.
Qed.
(** ** Snapshots *)

(** A valid revision stands for the world that was saved with it: undoing the entries after it
    leads to a database that denotes that world. *)
Definition savedAs s (r : revision) (p : Z * world) : Prop :=
  revId r = p.1 ∧ ∃ s0, undoes sdEqv (drop (journalIndex r) (entries (jnl s))) s0 s ∧ abs s0 ≡ p.2 ∧ db s0 = db s.

Record simulates s σ : Prop := {
  sim_inv : sdInv s;
  sim_revs : revisionsOk s;
  sim_db : emptyRootReads (db s);
  sim_now : abs s ≡ now σ;
  sim_next : nextRevisionID s = nextId σ;
  sim_saved : Forall2 (savedAs s) (validRevisions s) (saved σ);
}.

Lemma savedAs_stepped s es s' r p :
  stepped s es s' → db s' = db s → (journalIndex r ≤ length (entries (jnl s)))%nat → savedAs s r p → savedAs s' r p.
Proof.
  intros Hst Hdb Hle (Hid & s0 & Hu & Hp & ?). split; [done|]. exists s0. split; [|by rewrite Hdb].
  rewrite (st_entries _ _ _ Hst), drop_app_le by done.
  eapply undoes_app; [apply _|apply sdRevert_proper|exact Hu|apply Hst].
Qed.

Lemma savedAs_revisions s vr next r p : savedAs s r p → savedAs (setRevisions s vr next) r p.
Proof.
  intros (Hid & s0 & Hu & Hp). split; [done|]. exists s0. split; [|done].
  eapply undoes_eqv_r; [apply _|apply sdRevert_proper| |exact Hu]. by split.
Qed.

Lemma sim_ordinary s σ op :
  simulates s σ → op ≠ OpSnapshot → (∀ r, op ≠ OpRevertToSnapshot r) →
  option_Forall2 simulates (sdStep s op) (w ← specOp (now σ) op; Some (mkSpec w (saved σ) (nextId σ))).
Proof.
  intros [HI Hr Hd Hn Hx Hs] H1 H2.
  destruct (sdStep s op) as [s'|] eqn:E; pose proof (specOp_abs s (now σ) op HI Hd Hn H1 H2) as Hop; rewrite E in Hop;
    inversion Hop as [y w' [Ha Hdb] Hy Hw|Hy Hw]; simpl; [|constructor].
  destruct (sdStep_stepped s op s' HI H1 H2 E) as [es Hst]. constructor.
  destruct (st_revs _ _ _ Hst) as [Hv Hnx]. split; simpl; try done; [apply Hst| |by rewrite Hdb|congruence|].
  - unfold revisionsOk. rewrite Hv, Hnx, (st_entries _ _ _ Hst), length_app.
    eapply revsOk_grow; [| |exact Hr]; lia.
  - rewrite Hv. apply Forall2_same_length_lookup_2; [by eapply Forall2_length|].
    intros i r p Hi Hp. eapply savedAs_stepped; [done|done|by eapply revs_bound|].
    by eapply Forall2_lookup_lr.
Qed.

Lemma sim_snapshot s σ : simulates s σ → option_Forall2 simulates (sdStep s OpSnapshot) (specStep σ OpSnapshot).
Proof.
  intros [HI Hr Hd Hn Hx Hs]. simpl. constructor.
  assert (sdEqv s (Snapshot s).2) as He by (by split).
  split; simpl; try done; [by apply sdInv_setRevisions|by apply revsOk_snapshot|lia|].
  apply Forall2_app.
  - eapply Forall2_impl; [exact Hs|]. intros r p. apply savedAs_revisions.
  - constructor; [|constructor]. apply savedAs_revisions. split; [done|]. exists s. split; [|done].
    simpl. unfold journal_length. rewrite drop_all. by apply undoes_nil.
Qed.

(** Reverting to a revision: the world saved with it, and the earlier ones stay saved. *)
Lemma sim_revert_found s σ i r p :
  simulates s σ → validRevisions s !! i = Some r → saved σ !! i = Some p →
  ∃ s', RevertToSnapshot s (revId r) = Some s' ∧ simulates s' (mkSpec p.2 (take i (saved σ)) (nextId σ)).
Proof.
  intros [HI Hr Hd Hn Hx Hs] Hi Hp.
  destruct (Forall2_lookup_lr _ _ _ _ _ _ Hs Hi Hp) as (Hid & s0 & (s1 & Hu & He) & Hp0 & Hdb).
  destruct (revs_bound _ _ _ Hr i r Hi) as [_ Hle]. destruct (proj2 HI) as (n & Hpos & Hcnt).
  set (es := entries (jnl s)) in *. set (k := journalIndex r) in *.
  destruct (revertTo_found (ripemdMarks n) (ripemdMarks_nonneg n Hpos) (jnl s) (validRevisions s) (nextRevisionID s)
    s i r (take k es) (drop k es) s1 Hcnt Hr Hi) as (j' & Hrev & Hj & Hc);
    [by rewrite take_drop|rewrite length_take; unfold k in *; lia|done|].
  assert (sdInvE (take k es) s1 ∧ sameFrame s s1) as [HI1 (_ & Hvr & Hnx)].
  { apply (undo_inv (take k es) (drop k es) s s1); [rewrite take_drop; apply HI|done]. }
  unfold RevertToSnapshot. rewrite Hrev. simpl. eexists. split; [done|].
  split; simpl.
  - eapply revert_state; [exact HI| |exact Hu|done|done]. by rewrite Hj, take_drop.
  - unfold revisionsOk. simpl. rewrite Hj, Hnx. replace (length (take k es)) with (journalIndex r)
      by (rewrite length_take; unfold k in *; lia). by eapply revsOk_take.
  - by rewrite (eqv_db _ _ He), Hdb.
  - rewrite <-Hp0, <-(abs_eqv _ _ He). by split_and!.
  - congruence.
  - apply Forall2_same_length_lookup_2; [rewrite !length_take; by rewrite (Forall2_length _ _ _ Hs)|].
    intros m r' p' [Hm Hlt]%lookup_take_Some [Hm' _]%lookup_take_Some.
    apply savedAs_revisions. destruct (Forall2_lookup_lr _ _ _ _ _ _ Hs Hm Hm') as (Hid' & t0 & Hut & Ht0).
    split; [done|]. exists t0. split; [|split; [apply Ht0|simpl; rewrite (eqv_db _ _ He), Hdb; apply Ht0]]. simpl. rewrite Hj.
    destruct (revs_sorted _ _ _ Hr m i r' r Hlt Hm Hi) as [_ Hjj].
    fold es in Hut. rewrite <-(take_drop k es), drop_app_le in Hut by (rewrite length_take; unfold k in *; lia).
    apply undoes_split in Hut as (t1 & Ht1 & Hut). rewrite Hu in Ht1. injection Ht1 as <-.
    eapply undoes_eqv_r; [apply _|apply sdRevert_proper| |exact Hut]. by split.
Qed.

Lemma sim_revert s σ id :
  simulates s σ →
  option_Forall2 simulates (sdStep s (OpRevertToSnapshot id)) (specStep σ (OpRevertToSnapshot id)).
Proof.
  intros Hsim. pose proof (sim_saved _ _ Hsim) as Hs. simpl.
  destruct (list_find (λ p, p.1 = id) (saved σ)) as [[i p]|] eqn:E; simpl.
  - apply list_find_Some in E as (Hp & Hid & _). destruct (Forall2_lookup_r _ _ _ _ _ Hs Hp) as (r & Hr & Hid' & _).
    destruct (sim_revert_found s σ i r p Hsim Hr Hp) as (s' & Hrev & Hsim'). rewrite <-Hid, <-Hid', Hrev.
    by constructor.
  - apply list_find_None in E. unfold RevertToSnapshot, revertTo.
    destruct (validRevisions s !! _) as [r|] eqn:Er; [|constructor].
    destruct (Forall2_lookup_l _ _ _ _ _ Hs Er) as (p & Hp & Hid & _).
    destruct (Z.eqb_spec (revId r) id) as [Heq|]; [|constructor].
    exfalso. rewrite Forall_lookup in E. apply (E _ p Hp). congruence.
Qed.

Lemma sim_step s σ op : simulates s σ → option_Forall2 simulates (sdStep s op) (specStep σ op).
Proof.
  intros Hsim. assert (op = OpSnapshot ∨ (∃ r, op = OpRevertToSnapshot r) ∨
          op ≠ OpSnapshot ∧ ∀ r, op ≠ OpRevertToSnapshot r) as [->|[[r ->]|[H1 H2]]]
    by (clear; destruct op; naive_solver).
  - by apply sim_snapshot.
  - by apply sim_revert.
  - replace (specStep σ op) with (w ← specOp (now σ) op; Some (mkSpec w (saved σ) (nextId σ))).
    2: { destruct op; try done. by destruct (H2 revid). }
    by apply sim_ordinary.
Qed.

Lemma sim_run ops ms mσ :
  option_Forall2 simulates ms mσ →
  option_Forall2 simulates (foldl (λ ms op, ms ≫= λ s, sdStep s op) ms ops)
    (foldl (λ mσ op, mσ ≫= λ σ, specStep σ op) mσ ops).
Proof.
  revert ms mσ. induction ops as [|op ops IH]; intros ms mσ Hm; simpl; [done|].
  apply IH. destruct Hm; simpl; [by apply sim_step|constructor].
Qed.

(** A database without open snapshots simulates the specification started on what it denotes. *)
Definition start s : spec := mkSpec (abs s) [] (nextRevisionID s).

Lemma sim_start s : sdInv s → validRevisions s = [] → emptyRootReads (db s) → simulates s (start s).
Proof.
  intros HI Hv Hd. split; try done; [|by rewrite Hv]. unfold revisionsOk. rewrite Hv. apply revsOk_nil.
Qed.

(** C3: refinement.  Every program of operations, snapshots and reverts included, runs on the
    database exactly as on the specification, whose snapshots are whole saved worlds: one
    panics if and only if the other does, and otherwise the database denotes the world of the
    specification (accounts, code, storage, flags, logs, refund and preimages of every
    address). *)
Theorem StateDB_refines s ops :
  sdInv s → validRevisions s = [] → emptyRootReads (db s) →
  option_Forall2 (λ s' σ', abs s' ≡ now σ' ∧ sdInv s') (sdRun s ops) (specRun (start s) ops).
Proof.
  intros HI Hv Hd. unfold sdRun, specRun.
  destruct (sim_run ops (Some s) (Some (start s))) as [s' σ' Hsim|]; constructor; try by apply sim_start.
  split; apply Hsim.
Qed.

(** The getters return what the database denotes: the field of the live account, and the
    default of a missing or deleted one. *)
Theorem getters_read s a k :
  let x := live (abs s) a in
  (Exist s a).1 = bool_decide (is_Some x) ∧
  (GetBalance s a).1 = default 0 (aBalance <$> x) ∧
  (GetNonce s a).1 = default 0 (aNonce <$> x) ∧
  (GetCodeHash s a).1 = default 0 (aCodeHash <$> x) ∧
  (GetCode s a).1 = (x ≫= aCode) ∧
  (GetState s a k).1 = default 0 ((λ y, aStorage y k) <$> x) ∧
  (HasSuicided s a).1 = default false (aSuicided <$> x) ∧
  (GetFreezeState s a).1 = default false (aFrozen <$> x).
Proof.
  intros x. subst x. rewrite live_abs.
  unfold Exist, GetBalance, GetNonce, GetCodeHash, GetCode, GetState, HasSuicided, GetFreezeState,
    GetOrNewStateObject, withObject, readObject.
  destruct (getStateObject_spec s a) as (s1 & -> & _). destruct (liveView s a) as [o|]; simpl.
  - destruct (objCode_spec (db s) o) as (o1 & -> & _). destruct (objGetState_spec (db s) o k) as (o2 & -> & _).
    by split_and!.
  - unfold createObject. destruct (getDeleted_spec s1 a) as (s2 & -> & _). by split_and!.
Qed.

(** ** What freezing protects *)

(** The operations that are not restricted by the flag of the address. *)
Definition unrestricted (op : sdOp) a : Prop :=
  match op with OpSetFreezeState b _ | OpSuicide b | OpCreateAccount b => b = a | _ => False end.

Lemma orBlank_live w a x : live w a = Some x → orBlank w a = x.
Proof. unfold orBlank. by intros ->. Qed.

Lemma live_put w a b x : aDeleted x = false → live (putAcct w a x) b = if decide (a = b) then Some x else live w b.
Proof. intros Hx. unfold live, putAcct. simpl. case_decide; [|done]. simpl. by rewrite Hx. Qed.

Lemma live_deleted w a x : live w a = Some x → aDeleted x = false.
Proof. unfold live. destruct (accts w a) as [y|]; simpl; [|done]. destruct (aDeleted y) eqn:E; [done|]. by intros [= <-]. Qed.

Lemma orBlank_deleted w a : aDeleted (orBlank w a) = false.
Proof. unfold orBlank. destruct (live w a) eqn:E; [by eapply live_deleted|done]. Qed.

Lemma live_write w a b f x :
  (∀ y, aDeleted (f y) = aDeleted y) → live w b = Some x → aFrozen x = true → live (write w a f) b = Some x.
Proof.
  intros Hf Hx Hfr. unfold write. rewrite live_put; [|destruct (aFrozen (orBlank w a)); rewrite ?Hf; apply orBlank_deleted].
  case_decide; [|done]. subst b. by rewrite (orBlank_live _ _ _ Hx), Hfr.
Qed.

Lemma specOp_frozen w op w' a x :
  ¬ unrestricted op a → live w a = Some x → aFrozen x = true → specOp w op = Some w' → live w' a = Some x.
Proof.
  intros Hu Hx Hfr. destruct op as [b v|b v|b v|b n|b c|b k v|b fz|b|b|l|h pre|g|g|b|b k|b| |r]; simpl; intros Hop;
    try (injection Hop as <-; by apply live_write); try (by injection Hop as <-).
  - injection Hop as <-. rewrite live_put by apply orBlank_deleted. by case_decide; [destruct Hu|].
  - injection Hop as <-. destruct (live w b) as [y|] eqn:E; [|done].
    rewrite live_put by exact (live_deleted w b y E). by case_decide; [destruct Hu|].
  - injection Hop as <-. rewrite live_put by done. by case_decide; [destruct Hu|].
  - destruct (wTx w) as [[th bh] ti]. by injection Hop as <-.
  - destruct (g >? _); [done|]. by injection Hop as <-.
Qed.

(** Every world of the specification has the frozen account. *)
Definition keeps a x σ : Prop := live (now σ) a = Some x ∧ Forall (λ p, live p.2 a = Some x) (saved σ).

Lemma specStep_frozen σ op σ' a x :
  ¬ unrestricted op a → aFrozen x = true → keeps a x σ → specStep σ op = Some σ' → keeps a x σ'.
Proof.
  intros Hu Hfr [Hn Hs] Hop.
  assert (op = OpSnapshot ∨ (∃ r, op = OpRevertToSnapshot r) ∨
    (w ← specOp (now σ) op; Some (mkSpec w (saved σ) (nextId σ))) = Some σ') as [->|[[r ->]|Ho]]
    by (clear -Hop; destruct op; eauto).
  - simpl in Hop. injection Hop as <-. split; [done|]. apply Forall_app. by repeat constructor.
  - simpl in Hop. apply bind_Some in Hop as ([i p] & Hf & [= <-]). apply list_find_Some in Hf as (Hp & _ & _).
    split; simpl; [by eapply (Forall_lookup_1 _ _ _ _ Hs)|by apply Forall_take].
  - apply bind_Some in Ho as (w & Hw & [= <-]). split; [|done]. by eapply specOp_frozen.
Qed.

Lemma specRun_frozen ops a x mσ σ' :
  Forall (λ op, ¬ unrestricted op a) ops → aFrozen x = true →
  (∀ σ, mσ = Some σ → keeps a x σ) →
  foldl (λ mσ op, mσ ≫= λ σ, specStep σ op) mσ ops = Some σ' → keeps a x σ'.
Proof.
  intros Ho Hfr. revert mσ. induction Ho as [|op ops Hop _ IH]; intros mσ Hm; simpl; [auto|].
  apply IH. intros σ (σ0 & Hσ0 & Hst)%bind_Some. by eapply specStep_frozen; [..|apply Hst]; auto.
Qed.

Lemma frozen_run s ops s' a x :
  sdInv s → validRevisions s = [] → emptyRootReads (db s) →
  live (abs s) a = Some x → aFrozen x = true →
  Forall (λ op, ¬ unrestricted op a) ops → sdRun s ops = Some s' →
  ∃ y, live (abs s') a = Some y ∧ y ≡ x.
Proof.
  intros HI Hv Hd Hx Hfr Hops Hrun. unfold sdRun in Hrun.
  assert (option_Forall2 simulates (Some s) (Some (start s))) as Hsim%(sim_run ops) by (constructor; by apply sim_start).
  rewrite Hrun in Hsim. destruct (option_Forall2_from_Some _ _ _ Hsim) as (σ' & E & Hs').
  assert (keeps a x σ') as [Hk _].
  { eapply specRun_frozen; [done|done| |exact E]. intros σ [= <-]. by split; [|constructor]. }
  pose proof (live_proper _ _ (sim_now _ _ Hs') a _ eq_refl) as Hl. rewrite Hk in Hl.
  symmetry in Hl. destruct (option_Forall2_from_Some _ _ _ Hl) as (y & Hy & Hxy). by exists y.
Qed.

(** C4: a frozen account keeps its balance, nonce, code, storage and flags through every
    program of operations, on any address, in which the account itself is not thawed, reset by
    [CreateAccount] or self-destructed.  The getters of the account read the same before and
    after. *)
Theorem freeze_protects s ops s' a x :
  sdInv s → validRevisions s = [] → emptyRootReads (db s) →
  live (abs s) a = Some x → aFrozen x = true →
  Forall (λ op, ¬ unrestricted op a) ops → sdRun s ops = Some s' →
  ∃ y, live (abs s') a = Some y ∧ y ≡ x.
Proof. apply frozen_run. Qed.

(** The flag does not restrict every state-modifying operation: [Suicide] empties a
    frozen account, and [CreateAccount] replaces it by a new one that is not frozen and keeps
    only the balance. *)
Theorem freeze_leaks s a x :
  sdInv s → emptyRootReads (db s) → live (abs s) a = Some x → aFrozen x = true →
  live (abs (Suicide s a).2) a ≡ Some (setSui x) ∧
  live (abs (CreateAccount s a)) a ≡ Some (setBal (aBalance x) blank).
Proof.
  intros HI Hd Hx Hfr.
  destruct (Suicide_abs s (abs s) a HI (reflexivity _)) as [Hs _].
  destruct (CreateAccount_abs s (abs s) a HI Hd (reflexivity _)) as [Hc _].
  assert (accts (abs s) a = Some x) as Ha.
  { revert Hx. unfold live. destruct (accts (abs s) a) as [y|]; simpl; [|done]. destruct (aDeleted y); [done|]. by intros [= <-]. }
  rewrite Hx in Hs. rewrite Ha in Hc. split.
  - rewrite (live_proper _ _ Hs a _ eq_refl), live_put by exact (live_deleted (abs s) a x Hx). by rewrite decide_True.
  - rewrite (live_proper _ _ Hc a _ eq_refl), live_put by done. by rewrite decide_True.
Qed.
End refinement.

(** * Transfers (core/evm.go) *)
Inductive TransactionType :=
| SameShardTx | SubtractionOnly | InvalidTx | StakeCreateVal | StakeEditVal | Delegate | Undelegate | CollectRewards.

#[export] Instance TransactionType_eq_dec : EqDecision TransactionType.
Proof. solve_decision. Defined.

Section transfer.
Context `{TB : TrieBackend} `{AC : AccountCodec} `{VS : ValidatorStore}.
Implicit Types (s : DB) (a b : Address) (w : world).

Definition CanTransfer s (addr : Address) (amount : Z) : bool * DB :=
  let '(bal, s1) := GetBalance s addr in (amount <=? bal, s1).

Definition Transfer s (sender recipient : Address) (amount : Z) (txType : TransactionType) : DB :=
  let s1 := if bool_decide (txType = SameShardTx) || bool_decide (txType = SubtractionOnly)
            then SubBalance s sender amount else s in
  if bool_decide (txType = SameShardTx) then AddBalance s1 recipient amount else s1.

Definition balanceOf w a : Z := default 0 (aBalance <$> live w a).
Definition frozenAt w a : bool := default false (aFrozen <$> live w a).

Lemma balanceOf_proper w1 w2 a : w1 ≡ w2 → balanceOf w1 a = balanceOf w2 a ∧ frozenAt w1 a = frozenAt w2 a.
Proof.
  intros Hw. unfold balanceOf, frozenAt. destruct (live_proper w1 w2 Hw a a eq_refl) as [x y Hxy|]; [|done].
  simpl. split; apply Hxy.
Qed.

Lemma balanceOf_write w a b k :
  let w' := write w a (λ y, setBal (aBalance y + k) y) in
  balanceOf w' b = balanceOf w b + (if decide (a = b) then if frozenAt w a then 0 else k else 0) ∧
  frozenAt w' b = frozenAt w b.
Proof.
  intros w'. subst w'. unfold write, balanceOf, frozenAt, orBlank. destruct (live w a) as [x|] eqn:E; simpl.
  - pose proof (live_deleted _ _ _ E) as Hd. destruct (aFrozen x) eqn:Hf; rewrite live_put by done;
      case_decide; subst; rewrite ?E; simpl; rewrite ?Hf; split; try done; lia.
  - rewrite live_put by done. case_decide; subst; rewrite ?E; simpl; split; try done; lia.
Qed.

Lemma AddBalance_balances s a b k :
  sdInv s → emptyRootReads (db s) →
  balanceOf (abs (AddBalance s a k)) b =
    balanceOf (abs s) b + (if decide (a = b) then if frozenAt (abs s) a then 0 else k else 0) ∧
  frozenAt (abs (AddBalance s a k)) b = frozenAt (abs s) b.
Proof.
  intros HI Hd. pose proof (specOp_abs s (abs s) (OpAddBalance a k) HI Hd (reflexivity _) ltac:(done) ltac:(done)) as Ho.
  destruct (option_Forall2_from_Some _ _ _ Ho) as (w' & [= <-] & He & _).
  destruct (balanceOf_proper _ _ b He) as [-> ->]. apply balanceOf_write.
Qed.

Lemma SubBalance_balances s a b k :
  sdInv s → emptyRootReads (db s) →
  balanceOf (abs (SubBalance s a k)) b =
    balanceOf (abs s) b - (if decide (a = b) then if frozenAt (abs s) a then 0 else k else 0) ∧
  frozenAt (abs (SubBalance s a k)) b = frozenAt (abs s) b ∧
  sdInv (SubBalance s a k) ∧ db (SubBalance s a k) = db s.
Proof.
  intros HI Hd. pose proof (specOp_abs s (abs s) (OpSubBalance a k) HI Hd (reflexivity _) ltac:(done) ltac:(done)) as Ho.
  destruct (sdStep_stepped s (OpSubBalance a k) _ HI ltac:(done) ltac:(done) eq_refl) as [es Hst].
  destruct (option_Forall2_from_Some _ _ _ Ho) as (w' & [= <-] & He & Hdb).
  destruct (balanceOf_proper _ _ b He) as [-> ->]. destruct (balanceOf_write (abs s) a b (- k)) as [Hb Hf].
  assert (write (abs s) a (λ y, setBal (aBalance y - k) y) = write (abs s) a (λ y, setBal (aBalance y + - k) y)) as -> by done.
  rewrite Hb, Hf. split_and!; [|done|apply Hst|done]. destruct (decide (a = b)), (frozenAt (abs s) a); lia.
Qed.

(** A transfer inside the shard takes the amount from a sender that is not frozen and gives
    it to a recipient that is not frozen; the balance of every other address, and every freeze
    flag, stays. *)
Theorem Transfer_spec s sender recipient amount b :
  sdInv s → emptyRootReads (db s) →
  let s' := Transfer s sender recipient amount SameShardTx in
  balanceOf (abs s') b =
    balanceOf (abs s) b - (if decide (sender = b) then if frozenAt (abs s) sender then 0 else amount else 0)
                        + (if decide (recipient = b) then if frozenAt (abs s) recipient then 0 else amount else 0) ∧
  frozenAt (abs s') b = frozenAt (abs s) b.
Proof.
  intros HI Hd s'. subst s'. unfold Transfer. rewrite bool_decide_true by done. cbn [orb].
  destruct (SubBalance_balances s sender b amount HI Hd) as (Hb & Hf & HI' & Hdb).
  destruct (SubBalance_balances s sender recipient amount HI Hd) as (_ & Hf' & _).
  destruct (AddBalance_balances (SubBalance s sender amount) recipient b amount HI') as [Hb2 Hf2]; [by rewrite Hdb|].
  by rewrite Hb2, Hf2, Hb, Hf, Hf'.
Qed.

(** A transfer between two accounts keeps their sum exactly when neither or both are frozen:
    a transfer to a frozen account destroys the amount, one from a frozen account creates it, and
    neither reports an error. *)
Theorem Transfer_conservation s sender recipient amount :
  sdInv s → emptyRootReads (db s) → sender ≠ recipient →
  let w := abs (Transfer s sender recipient amount SameShardTx) in
  balanceOf w sender + balanceOf w recipient =
    balanceOf (abs s) sender + balanceOf (abs s) recipient
    + (if frozenAt (abs s) sender then amount else 0) - (if frozenAt (abs s) recipient then amount else 0).
Proof.
  intros HI Hd Hne w. subst w. unfold Transfer. rewrite bool_decide_true by done. cbn [orb].
  destruct (SubBalance_balances s sender sender amount HI Hd) as (Hb & _ & HI' & Hdb).
  destruct (SubBalance_balances s sender recipient amount HI Hd) as (Hbr & Hfr & _).
  set (s1 := SubBalance s sender amount) in *.
  destruct (AddBalance_balances s1 recipient sender amount HI') as [Hb2 _]; [by rewrite Hdb|].
  destruct (AddBalance_balances s1 recipient recipient amount HI') as [Hb3 _]; [by rewrite Hdb|].
  rewrite Hb2, Hb3, Hb, Hbr, Hfr.
  destruct (frozenAt (abs s) sender), (frozenAt (abs s) recipient); repeat case_decide; congruence || lia.
Qed.
End transfer.

(** * Concrete runs *)
#[local] Existing Instances mapTrie demoCodec demoValidators.

Lemma demo_emptyRoot : emptyRootReads (db demoDB).
Proof. intros k. reflexivity. Qed.

Lemma demo_inv : sdInv demoDB ∧ validRevisions demoDB = [].
Proof. destruct (New_inv _ _ _ demoDB_New) as (? & ? & _). done. Qed.

(** The program of [demoOps] after a snapshot, and the revert to it. *)
Lemma StateDB_refines_witness :
  ∃ s' σ', sdRun demoDB (OpSnapshot :: demoOps ++ [OpRevertToSnapshot 0]) = Some s' ∧
    specRun (start demoDB) (OpSnapshot :: demoOps ++ [OpRevertToSnapshot 0]) = Some σ' ∧ abs s' ≡ now σ'.
Proof.
  destruct (eval_Some (sdRun demoDB (OpSnapshot :: demoOps ++ [OpRevertToSnapshot 0])) (λ _, true)) as (s' & E & _);
    [vm_compute; reflexivity|].
  pose proof (StateDB_refines demoDB (OpSnapshot :: demoOps ++ [OpRevertToSnapshot 0]) (proj1 demo_inv) (proj2 demo_inv)
    demo_emptyRoot) as H. rewrite E in H.
  destruct (option_Forall2_from_Some _ _ _ H) as (σ' & Hσ & Ha & _). exists s', σ'.
  split_and!; [exact E|exact Hσ|exact Ha].
Defined.

Definition frozenDB : DB := SetFreezeState demoDB 1 true.

Lemma frozen_inv : sdInv frozenDB ∧ validRevisions frozenDB = [] ∧ emptyRootReads (db frozenDB).
Proof.
  destruct (sdStep_stepped demoDB (OpSetFreezeState 1 true) frozenDB (proj1 demo_inv)) as [es Hst]; try done.
  split_and!; [apply Hst|reflexivity|intros k; reflexivity].
Qed.

(** Writes to the frozen account, with a nested snapshot, and one to another account. *)
Definition frozenOps : list sdOp :=
  [OpAddBalance 1 30; OpSnapshot; OpSubBalance 1 5; OpSetNonce 1 9; OpRevertToSnapshot 0; OpAddBalance 2 1].

Lemma frozen_live : ∃ x, live (abs frozenDB) 1 = Some x ∧ aBalance x = 100 ∧ aFrozen x = true.
Proof. rewrite live_abs. eexists. split; [vm_compute; reflexivity|]. by split. Qed.

Lemma freeze_protects_witness :
  ∃ x y s', live (abs frozenDB) 1 = Some x ∧ sdRun frozenDB frozenOps = Some s' ∧ live (abs s') 1 = Some y ∧ y ≡ x.
Proof.
  destruct frozen_inv as (HI & Hv & Hd). destruct frozen_live as (x & Hx & _ & Hf).
  destruct (eval_Some (sdRun frozenDB frozenOps) (λ _, true)) as (s' & E & _); [vm_compute; reflexivity|].
  destruct (freeze_protects frozenDB frozenOps s' 1 x HI Hv Hd Hx Hf) as (y & Hy & He).
  - repeat constructor; intros [].
  - exact E.
  - exists x, y, s'. split_and!; [exact Hx|exact E|exact Hy|exact He].
Defined.

Lemma freeze_leaks_witness : ∃ x, live (abs frozenDB) 1 = Some x ∧ live (abs (Suicide frozenDB 1).2) 1 ≡ Some (setSui x).
Proof.
  destruct frozen_inv as (HI & _ & Hd). destruct frozen_live as (x & Hx & _ & Hf). exists x. split; [exact Hx|].
  apply (freeze_leaks frozenDB 1 x HI Hd Hx Hf).
Defined.

Lemma Transfer_spec_witness : balanceOf (abs (Transfer demoDB 1 2 30 SameShardTx)) 2 = 80.
Proof. rewrite (proj1 (Transfer_spec demoDB 1 2 30 2 (proj1 demo_inv) demo_emptyRoot)). reflexivity. Defined.

Lemma Transfer_conservation_witness :
  balanceOf (abs (Transfer frozenDB 1 2 30 SameShardTx)) 1 + balanceOf (abs (Transfer frozenDB 1 2 30 SameShardTx)) 2 = 180.
Proof.
  destruct frozen_inv as (HI & _ & Hd).
  rewrite (Transfer_conservation frozenDB 1 2 30 HI Hd); reflexivity || done.
Defined.
