(* ===== verification/BlockPayout.v ===== *)
(** * What a block pays, on the accounts (internal/chain/engine.go, core/state/statedb.go)

    [Slash], [Rewards] and [BlockReward] list the calls of [AddBalance] that the end of a block
    makes.  Here the calls are run on the state of [StateDB], where an account that is frozen
    drops them, and the tokens that finalising a block moves are counted on the balances. *)

From Stdlib Require Import ZArith Lia.
From stdpp Require Import base gmap list option sets.
From S2P Require Import Prelude Decimal Mask ShardState Epochs Votepower Staking Engine Slash Rewards BlockReward Trie LoadMap StateDB Accounts.
Local Open Scope Z_scope.

Section payout.
Context `{TB : TrieBackend} `{AC : AccountCodec} `{VS : ValidatorStore}.
Implicit Types (s : DB) (cs : list (Address * Z)) (X : list Address).

(** The calls of [AddBalance], in order. *)
Definition payAll s cs : DB := foldl (λ s c, AddBalance s c.1 c.2) s cs.

(** What is paid to one address, and what is paid to accounts that drop it. *)
Definition sentTo cs (b : Address) : Z := sumZ snd (List.filter (λ c, c.1 =? b) cs).
Definition lostTo (w : world) cs : Z := sumZ snd (List.filter (λ c, frozenAt w c.1) cs).

Lemma AddBalance_inv s a k : sdInv s → emptyRootReads (db s) → sdInv (AddBalance s a k) ∧ db (AddBalance s a k) = db s.
Proof.
  intros HI Hd. pose proof (specOp_abs s (abs s) (OpAddBalance a k) HI Hd (reflexivity _) ltac:(done) ltac:(done)) as Ho.
  destruct (sdStep_stepped s (OpAddBalance a k) _ HI ltac:(done) ltac:(done) eq_refl) as [es Hst].
  destruct (option_Forall2_from_Some _ _ _ Ho) as (w' & _ & _ & Hdb). split; [apply Hst|exact Hdb].
Qed.

(** Every account that is not frozen gets what is sent to it, a frozen one nothing. *)
Lemma payAll_balances cs s b :
  sdInv s → emptyRootReads (db s) →
  balanceOf (abs (payAll s cs)) b = balanceOf (abs s) b + (if frozenAt (abs s) b then 0 else sentTo cs b)
  ∧ frozenAt (abs (payAll s cs)) b = frozenAt (abs s) b.
Proof.
  revert s. induction cs as [|[a k] cs IH]; intros s HI Hd.
  { unfold sentTo. cbn. split; [case_match; lia|done]. }
  destruct (AddBalance_inv s a k HI Hd) as [HI' Hdb]. destruct (AddBalance_balances s a b k HI Hd) as [Hb Hf].
  cbn [payAll foldl fst snd]. fold (payAll (AddBalance s a k) cs). destruct (IH (AddBalance s a k) HI') as [-> ->]; [by rewrite Hdb|].
  rewrite Hb, Hf. split; [|done]. unfold sentTo. cbn [List.filter fst]. case_decide as E.
  - subst b. rewrite Z.eqb_refl, sumZ_cons. cbn [snd]. destruct (frozenAt (abs s) a); lia.
  - apply Z.eqb_neq in E as ->. lia.
Qed.

Lemma sumZ_add {A} (f g : A → Z) l : sumZ (λ a, f a + g a) l = sumZ f l + sumZ g l.
Proof. induction l as [|a l IH]; [done|]. rewrite !sumZ_cons, IH. lia. Qed.

Lemma sumZ_one X (f : Address → Z) a : NoDup X → a ∈ X → sumZ (λ b, if b =? a then f b else 0) X = f a.
Proof.
  induction 1 as [|x X Hx Hnd IH]; [by intros ?%elem_of_nil|]. rewrite sumZ_cons. intros [->|Ha]%elem_of_cons.
  - rewrite Z.eqb_refl, sumZ_zero; [lia|]. intros b Hb. destruct (Z.eqb_spec b x) as [->|]; done.
  - rewrite IH by done. destruct (Z.eqb_spec x a) as [->|]; [done|lia].
Qed.

(** The received amounts together: all that is sent, less what the frozen accounts drop. *)
Lemma received_total (w : world) cs X :
  NoDup X → (∀ c, c ∈ cs → c.1 ∈ X) →
  sumZ (λ b, if frozenAt w b then 0 else sentTo cs b) X = sumZ snd cs - lostTo w cs.
Proof.
  intros Hnd. induction cs as [|[a k] cs IH]; intros Hin.
  { unfold lostTo, sentTo. cbn. apply sumZ_zero. intros b _. by destruct (frozenAt w b). }
  specialize (IH (λ c Hc, Hin c (list_elem_of_further _ _ _ Hc))). pose proof (Hin (a, k) (list_elem_of_here _ _)) as Ha. cbn in Ha.
  rewrite (sumZ_ext _ (λ b, (if frozenAt w b then 0 else sentTo cs b) + (if b =? a then (if frozenAt w b then 0 else k) else 0))).
  - rewrite sumZ_add, IH, (sumZ_one X (λ b, if frozenAt w b then 0 else k)) by done. unfold lostTo. cbn [List.filter fst]. rewrite sumZ_cons. cbn [snd].
    destruct (frozenAt w a); [rewrite sumZ_cons; cbn [snd]|]; lia.
  - intros b _. unfold sentTo. cbn [List.filter fst]. rewrite (Z.eqb_sym b a). destruct (Z.eqb_spec a b) as [->|]; [rewrite sumZ_cons; cbn [snd]|];
      destruct (frozenAt w b); lia.
Qed.

Context {G CV CS : Type} `{BK : BlsKey G, SC : Schedule, CC : CrossLinkCodec, SCo : StateCodec}.
Context `{CacheV : !Cache CV (Z * Z) Roster, CacheS : !Cache CS (Z * Address) (gmap Address Dec)}.
Context (isTestnet : bool) (decodeKey : SerializedPublicKey → option G) (sortedKeys : gmap keyStruct (list Record_) → list keyStruct).

(** C13: Finalising a block without slashes, on the validator records that it works on and on the
    balances: every account that is not frozen gets what is paid to it, a frozen account gets
    nothing and no other balance changes; and the stakes with the balances of all accounts paid
    (of any set of accounts that has these) change by what the block creates less what was paid
    to frozen accounts, which is lost.  A block before staking creates exactly 24 ONE, the genesis
    block and the block after it nothing; a block of the staking era creates nothing (its rewards
    are no stake and no balance until they are collected). *)
Theorem Finalize_conserves chain beacon header sigs (st st' : rewardState CV CS) r s X :
  snapshotsOk chain → credits (rsState st) = [] → sdInv s → emptyRootReads (db s) →
  Finalize isTestnet decodeKey sortedKeys chain beacon header [] sigs st = Ok (r, st') →
  NoDup X → (∀ c, c ∈ credits (rsState st') → c.1 ∈ X) →
  let s' := payAll s (credits (rsState st')) in
  (∀ b, balanceOf (abs s') b = balanceOf (abs s) b + (if frozenAt (abs s) b then 0 else sentTo (credits (rsState st')) b)
      ∧ frozenAt (abs s') b = frozenAt (abs s) b)
  ∧ allStake (validators (rsState st')) + sumZ (balanceOf (abs s')) X
    = allStake (validators (rsState st)) + sumZ (balanceOf (abs s)) X
      + blockCreates chain header - lostTo (abs s) (credits (rsState st')).
Proof.
  intros Hsn Hc HI Hd E Hnd HX s'. destruct (Finalize_tokens _ _ _ _ _ _ _ _ _ _ Hsn E) as [Ht _]. unfold tokens in Ht. rewrite Hc in Ht.
  split; [intros b; by apply payAll_balances|].
  rewrite (sumZ_ext (balanceOf (abs s')) (λ b, balanceOf (abs s) b + (if frozenAt (abs s) b then 0 else sentTo (credits (rsState st')) b)))
    by (intros b _; by apply payAll_balances).
  change (sumZ snd []) with 0 in Ht. rewrite sumZ_add, received_total by done. lia.
Qed.
End payout.

(** ** A concrete block: 24 ONE before staking for four signers, one of which is frozen *)
#[local] Existing Instances engineSchedule demoLinks demoStateCodec mapTrie demoCodec demoValidators.

(** The accounts 1, 2, 4 and 5 get 6 ONE each; the 6 ONE of the frozen account 1 are lost. *)
Lemma Finalize_conserves_witness :
  ∃ r st', Finalize false keyOfInt (λ m, (map_to_list m).*1) (rewardChain MainnetChainConfig) (rewardChain MainnetChainConfig)
      (rewardHeader 10 5 []) [] (Some true) reward0 = Ok (r, st')
    ∧ (balanceOf (abs (payAll frozenDB (credits (rsState st')))) 1 = balanceOf (abs frozenDB) 1
      ∧ balanceOf (abs (payAll frozenDB (credits (rsState st')))) 2 = balanceOf (abs frozenDB) 2 + 6 * one)
    ∧ allStake (validators (rsState st')) + sumZ (balanceOf (abs (payAll frozenDB (credits (rsState st'))))) [1; 2; 4; 5]
      = allStake (validators (rsState reward0)) + sumZ (balanceOf (abs frozenDB)) [1; 2; 4; 5] + 18 * one.
Proof.
  assert (match Finalize false keyOfInt (λ m, (map_to_list m).*1) (rewardChain MainnetChainConfig) (rewardChain MainnetChainConfig)
      (rewardHeader 10 5 []) [] (Some true) reward0 with
    | Ok (_, st') => bool_decide (credits (rsState st') = [(1, 6 * one); (2, 6 * one); (4, 6 * one); (5, 6 * one)]) | _ => false end = true) as H
    by (vm_compute; reflexivity).
  destruct (Finalize _ _ _ _ _ _ _ _ _) as [[r st']| |] eqn:E; [|discriminate H|discriminate H]. apply bool_decide_eq_true_1 in H.
  exists r, st'. split; [reflexivity|]. destruct frozen_inv as (HI & _ & Hd).
  destruct (Finalize_conserves false keyOfInt (λ m, (map_to_list m).*1) (rewardChain MainnetChainConfig) _ (rewardHeader 10 5 []) _ reward0 st' r frozenDB [1; 2; 4; 5]
    (rewardChain_snapshots _) eq_refl HI Hd E) as [Hb Ht].
  - refine (bool_decide_unpack _ _); vm_compute; exact I.
  - rewrite H. apply (proj1 (Forall_forall (λ c : Address * Z, c.1 ∈ [1; 2; 4; 5]) _)). refine (bool_decide_unpack _ _); vm_compute; exact I.
  - rewrite H in Hb, Ht |- *.
    assert (frozenAt (abs frozenDB) 1 = true ∧ frozenAt (abs frozenDB) 2 = false) as [F1 F2] by (split; vm_compute; reflexivity).
    assert (lostTo (abs frozenDB) [(1, 6 * one); (2, 6 * one); (4, 6 * one); (5, 6 * one)] = 6 * one) as HL by (vm_compute; reflexivity).
    split; [split|].
    + destruct (Hb 1) as [E1 _]. rewrite F1, Z.add_0_r in E1. exact E1.
    + destruct (Hb 2) as [E2 _]. rewrite F2 in E2. exact E2.
    + rewrite Ht, HL. change (blockCreates (rewardChain MainnetChainConfig) (rewardHeader 10 5 [])) with PreStakedBlocks.
      unfold PreStakedBlocks. lia.
Defined.
