(* ===== verification/StateCommit.v ===== *)
(** * Finalising, committing and copying the account state

    [Finalise], [IntermediateRoot], [Commit] and [Copy] of core/state/statedb.go, through the
    definitions of [StateDB.v] and the abstraction of [Accounts.v]: what a block's changes
    leave in the trie, and what a database that is opened on the trie, or copied, reads. *)

From Stdlib Require Import ZArith Lia.
From stdpp Require Import base gmap list option sets.
From S2P Require Import Prelude Trie Journal StateDB Accounts.
Local Open Scope Z_scope.

Section finalise.
Context `{TB : TrieBackend} `{AC : AccountCodec} `{VS : ValidatorStore}.
Implicit Types (s : DB) (a b : Address) (o : Object) (d : Database).

(** ** The cached validators *)

(** The first loop of [Finalise]. *)
Definition applyValidators s : DB :=
  foldl (λ s av, (UpdateValidatorWrapper s av.1 av.2).2) s (map_to_list (stateValidators s)).

Lemma SetCode_view s a c :
  sdInv s → db (SetCode s a c) = db s ∧ ∀ b, b ≠ a → view (SetCode s a c) b = view s b.
Proof.
  intros HI. unfold SetCode, guarded. pose proof (GetOrNew_rest s a) as (Hdb & _).
  destruct (GetOrNew_stepped s a HI) as (es & o & s1 & Hg & _ & Ho & Hok & _ & _ & Hv). rewrite Hg in Hdb |- *.
  destruct (FreezeState o); [split; [done|]; intros b Hb; by rewrite Hv, decide_False|].
  destruct (objSetCode_sets (Keccak256Hash c) c s1 a o Ho Hok) as (o' & (Hdb' & _) & _ & Hv').
  split; [by rewrite Hdb'|]. intros b Hb. by rewrite Hv', Hv, !decide_False.
Qed.

Lemma UpdateValidatorWrapper_inv s a v :
  sdInv s → sdInv (UpdateValidatorWrapper s a v).2 ∧ db (UpdateValidatorWrapper s a v).2 = db s ∧
  ∀ b, b ≠ a → view (UpdateValidatorWrapper s a v).2 b = view s b.
Proof.
  intros HI. unfold UpdateValidatorWrapper. destruct (negb _); [done|]. destruct (encodeWrapper v) as [c|]; [|done].
  split; [|exact (SetCode_view s a c HI)].
  destruct (guarded_stepped s a (λ s o, objSetCode s o (Keccak256Hash c) c) HI) as [es Hst].
  { intros. by eapply objSetCode_stepped. }
  destruct (st_inv _ _ _ Hst) as [[? ? ? ? ? ?] ?]. by split.
Qed.

(** The loop keeps the invariant and writes only to the addresses of cached validators. *)
Lemma applyValidators_spec s :
  sdInv s → sdInv (applyValidators s) ∧ db (applyValidators s) = db s ∧
  ∀ b, stateValidators s !! b = None → view (applyValidators s) b = view s b.
Proof.
  intros HI. unfold applyValidators.
  assert (∀ b av, av ∈ map_to_list (stateValidators s) → stateValidators s !! b = None → b ≠ av.1) as Hb.
  { intros b [a v] Hin%elem_of_map_to_list Hn ->. simpl in Hn. congruence. }
  revert Hb. generalize (map_to_list (stateValidators s)) as l. intros l Hb.
  assert (∃ P : Address → Prop, (∀ b, stateValidators s !! b = None → P b) ∧ ∀ b av, av ∈ l → P b → b ≠ av.1)
    as (P & HP & Hl) by (exists (λ b, stateValidators s !! b = None); eauto).
  assert (sdInv (foldl (λ s av, (UpdateValidatorWrapper s av.1 av.2).2) s l) ∧
    db (foldl (λ s av, (UpdateValidatorWrapper s av.1 av.2).2) s l) = db s ∧
    ∀ b, P b → view (foldl (λ s av, (UpdateValidatorWrapper s av.1 av.2).2) s l) b = view s b) as (? & ? & ?); [|by eauto].
  clear Hb HP. revert s HI. induction l as [|av l IH]; intros s HI; simpl; [done|].
  destruct (UpdateValidatorWrapper_inv s av.1 av.2 HI) as (HI' & Hdb & Hv).
  destruct (IH ltac:(set_solver) _ HI') as (? & Hdb' & Hv'). split; [done|]. split; [congruence|]. intros b Hb.
  rewrite Hv' by done. apply Hv. apply Hl; [set_solver|done].
Qed.

(** ** Finalising *)
Definition finalised (del : bool) o : Object :=
  if suicided o || (del && empty o) then setDeleted true o else finalise o.

Lemma finalise_idem o : finalise (finalise o) = finalise o.
Proof. unfold finalise, withStorage. simpl. by rewrite (left_id_L ∅ (∪)). Qed.

Lemma finalised_idem del o : finalised del (finalised del o) = finalised del o.
Proof.
  unfold finalised. destruct (suicided o || (del && empty o)) eqn:E.
  - change (empty (setDeleted true o)) with (empty o). change (suicided (setDeleted true o)) with (suicided o).
    by rewrite E.
  - change (empty (finalise o)) with (empty o). change (suicided (finalise o)) with (suicided o).
    rewrite E. apply finalise_idem.
Qed.

Lemma finalised_ok del a o : objOk a o → objOk a (finalised del o).
Proof. intros [? ?]. unfold finalised. by destruct (_ || _). Qed.

(** The fields that [Finalise] leaves alone. *)
Definition sameBase s s' : Prop :=
  db s' = db s ∧ trie s' = trie s ∧ dbErr s' = dbErr s ∧ jnl s' = jnl s ∧ logs s' = logs s ∧ logSize s' = logSize s ∧
  preimages s' = preimages s ∧ nextRevisionID s' = nextRevisionID s.

Lemma finaliseStep_spec del a s :
  let s' := finaliseStep del a s in
  sameBase s s' ∧ stateObjects s' = alter (finalised del) a (stateObjects s) ∧
  stateObjectsPending s' = stateObjectsPending s ∪ ({[a]} ∩ dom (stateObjects s)) ∧
  stateObjectsDirty s' = stateObjectsDirty s ∪ ({[a]} ∩ dom (stateObjects s)).
Proof.
  unfold finaliseStep. destruct (stateObjects s !! a) as [o|] eqn:E; simpl.
  - pose proof (elem_of_dom_2 _ _ _ E) as Hd. split_and!; try done; [|set_solver..].
    apply map_eq. intros b. destruct (decide (a = b)) as [<-|].
    + by rewrite lookup_insert_eq, lookup_alter_eq, E.
    + by rewrite lookup_insert_ne, lookup_alter_ne.
  - apply not_elem_of_dom in E as Hd. split_and!; try done; [|set_solver..].
    apply map_eq. intros b. destruct (decide (a = b)) as [<-|]; [by rewrite lookup_alter_eq, E|by rewrite lookup_alter_ne].
Qed.

Lemma sameBase_trans s1 s2 s3 : sameBase s1 s2 → sameBase s2 s3 → sameBase s1 s3.
Proof. intros (?&?&?&?&?&?&?&?) (?&?&?&?&?&?&?&?). split_and!; congruence. Qed.

Lemma finaliseFold_spec del addrs s :
  let s' := foldl (λ s addr, finaliseStep del addr s) s addrs in
  sameBase s s' ∧
  (∀ a, stateObjects s' !! a =
     if decide (a ∈ addrs) then finalised del <$> stateObjects s !! a else stateObjects s !! a) ∧
  stateObjectsPending s' = stateObjectsPending s ∪ (list_to_set addrs ∩ dom (stateObjects s)) ∧
  stateObjectsDirty s' = stateObjectsDirty s ∪ (list_to_set addrs ∩ dom (stateObjects s)).
Proof.
  revert s. induction addrs as [|a addrs IH]; intros s; simpl.
  { split_and!; try done; set_solver. }
  destruct (finaliseStep_spec del a s) as (Hb & Ho & Hp & Hd).
  destruct (IH (finaliseStep del a s)) as (Hb' & Ho' & Hp' & Hd').
  assert (dom (stateObjects (finaliseStep del a s)) = dom (stateObjects s)) as Hdom by (rewrite Ho; apply dom_alter_L).
  split; [by eapply sameBase_trans|]. split; [|by rewrite Hp', Hp, Hd', Hd, Hdom; split; set_solver].
  intros b. rewrite Ho', Ho. clear. pose proof (elem_of_cons addrs b a) as Hin.
  destruct (decide (a = b)) as [<-|Hne].
  - rewrite lookup_alter_eq. repeat case_decide; try naive_solver.
    destruct (stateObjects s !! a); simpl; [by rewrite finalised_idem|done].
  - rewrite lookup_alter_ne by done. repeat case_decide; naive_solver.
Qed.

(** The addresses [Finalise] visits that are in the cache. *)
Definition touched s : gset Address := dom (dirties (jnl s)) ∩ dom (stateObjects s).

Definition finalObject s del a : option Object :=
  if decide (a ∈ touched s) then finalised del <$> stateObjects s !! a else stateObjects s !! a.

Lemma finalObject_dom s del a : is_Some (finalObject s del a) ↔ a ∈ dom (stateObjects s).
Proof. unfold finalObject. case_decide; rewrite ?fmap_is_Some, elem_of_dom; done. Qed.

Lemma Finalise_frame s del :
  let s1 := applyValidators s in
  let s' := Finalise s del in
  db s' = db s1 ∧ trie s' = trie s1 ∧ dbErr s' = dbErr s1 ∧ logSize s' = logSize s1 ∧ entries (jnl s') = [] ∧
  (∀ a, stateObjects s' !! a = finalObject s1 del a) ∧
  stateObjectsPending s' = stateObjectsPending s1 ∪ touched s1 ∧
  stateObjectsDirty s' = stateObjectsDirty s1 ∪ touched s1 ∧
  validRevisions s' = [] ∧ (jnl s' = newJournal ∨ jnl s' = jnl s1).
Proof.
  intros s1. unfold Finalise. fold (applyValidators s). fold s1. set (addrs := elements (dom (dirties (jnl s1)))).
  destruct (finaliseFold_spec del addrs s1) as ((?&?&?&Hj&?&?&?&?) & Ho & Hp & Hd).
  set (s2 := foldl _ s1 addrs) in *.
  assert (list_to_set addrs = dom (dirties (jnl s1))) as Ha by (unfold addrs; apply list_to_set_elements_L).
  assert (∀ a, stateObjects s2 !! a = finalObject s1 del a) as Ho'.
  { intros a. rewrite Ho. unfold finalObject, touched. pose proof (elem_of_elements (dom (dirties (jnl s1))) a) as Hel.
    destruct (stateObjects s1 !! a) as [o|] eqn:E; [apply elem_of_dom_2 in E|by repeat case_decide].
    fold addrs in Hel. repeat case_decide; set_solver. }
  unfold clearJournalAndRefund. destruct (entries (jnl s2)) as [|e es] eqn:E; simpl;
    split_and!; rewrite ?Hp, ?Hd, ?Ha; try done; auto.
Qed.

Lemma Finalise_inv s del : sdInv s → sdInv (Finalise s del).
Proof.
  intros [HI1 (n & Hn & Hcnt)]%applyValidators_spec%proj1. destruct HI1 as [Hk Hp Hd Hs Hcr Hrs].
  destruct (Finalise_frame s del) as (_ & _ & _ & Hsz & Hent & Ho & Hpe & Hdi & _ & Hj).
  set (s1 := applyValidators s) in *.
  assert (dom (stateObjects (Finalise s del)) = dom (stateObjects s1)) as Hdom.
  { apply set_eq. intros a. rewrite <-(finalObject_dom s1 del a), elem_of_dom, Ho. done. }
  split.
  - split; rewrite ?Hpe, ?Hdi, ?Hdom, ?Hsz, ?Hent; [|unfold touched; set_solver..|done|set_solver|set_solver].
    intros a o. rewrite Ho. unfold finalObject. case_decide; [|apply Hk].
    intros (o' & Ho' & ->)%fmap_Some. by apply finalised_ok, Hk.
  - destruct Hj as [->| ->]; [|by exists n]. exists 0. split; [done|].
    eapply countersUpTo_ext; [|apply newJournal_counters]. intros a. unfold ripemdMarks. by destruct (a =? ripemd).
Qed.

(** What finalising does to an account: a self-destructed account is deleted, an empty one too
    when asked. *)
Definition emptyAcct (x : account) : bool :=
  (aNonce x =? 0) && (Z.sgn (aBalance x) =? 0) && (aCodeHash x =? emptyCodeHash).
Definition sweep (del : bool) (x : account) : account :=
  if aSuicided x || (del && emptyAcct x)
  then mkAccountView (aNonce x) (aBalance x) (aCodeHash x) (aCode x) (aStorage x) (aFrozen x) (aSuicided x) true
  else x.

Lemma finalise_view d o : fakeStorage o = None → acctOf d (finalise o) ≡ acctOf d o.
Proof.
  intros Hf. split_and!; try done. intros k. simpl. unfold stateView. simpl. rewrite Hf, lookup_empty.
  unfold committedView. simpl. rewrite Hf, lookup_union. by destruct (dirtyStorage o !! k), (pendingStorage o !! k).
Qed.

Lemma finalised_acct d del a o : objOk a o → acctOf d (finalised del o) ≡ sweep del (acctOf d o).
Proof.
  intros [_ Hf]. unfold finalised, sweep.
  change (aSuicided (acctOf d o)) with (suicided o). change (emptyAcct (acctOf d o)) with (empty o).
  destruct (_ || _); [by split_and!|by apply finalise_view].
Qed.

Lemma Finalise_accts s del a :
  sdInv s →
  let s1 := applyValidators s in
  accts (abs (Finalise s del)) a ≡
    if decide (a ∈ touched s1) then sweep del <$> accts (abs s1) a else accts (abs s1) a.
Proof.
  intros HI s1. destruct (Finalise_frame s del) as (Hdb & Ht & _ & _ & _ & Ho & _).
  destruct (applyValidators_spec s HI) as [HI1 _]. fold s1 in Ho, Hdb, Ht.
  cbn [accts abs]. unfold view. rewrite Ho, Hdb, Ht. unfold finalObject.
  destruct (stateObjects s1 !! a) as [o|] eqn:E.
  - case_decide; simpl; [|done]. constructor. by apply (finalised_acct _ _ a), HI1.
  - assert (a ∉ touched s1) as Hn by (unfold touched; apply not_elem_of_dom in E; set_solver).
    by repeat rewrite decide_False by done.
Qed.

(** [Finalise] writes back the cached validators and then deletes exactly the touched
    accounts that are self-destructed or (if asked) empty; every other account, touched or
    not, reads as before, its storage included.  The touched accounts become pending and
    dirty, the journal and the snapshots are gone, and the invariant holds.  An address
    without a cached validator is not changed by the write-back. *)
Theorem StateDB_Finalise_spec s del :
  sdInv s →
  let s1 := applyValidators s in
  sdInv (Finalise s del) ∧ validRevisions (Finalise s del) = [] ∧ entries (jnl (Finalise s del)) = [] ∧
  (∀ a, accts (abs (Finalise s del)) a ≡
        if decide (a ∈ touched s1) then sweep del <$> accts (abs s1) a else accts (abs s1) a) ∧
  stateObjectsPending (Finalise s del) = stateObjectsPending s1 ∪ touched s1 ∧
  ∀ a, stateValidators s !! a = None → accts (abs s1) a = accts (abs s) a.
Proof.
  intros HI s1. destruct (Finalise_frame s del) as (_ & _ & _ & _ & He & _ & Hp & _ & Hv & _).
  destruct (applyValidators_spec s HI) as (_ & Hdb & Hv1).
  split_and!; [by apply Finalise_inv|done|done|intros a; by apply Finalise_accts|done|].
  intros a Ha. cbn [accts abs]. unfold s1. by rewrite Hdb, Hv1.
Qed.

(** An account that is neither self-destructed nor backed by a cached validator reads the same
    after finalising: if it was deleted as empty, it read as zero before. *)
Lemma Finalise_keeps s a x :
  sdInv s → stateValidators s !! a = None → live (abs s) a = Some x → aSuicided x = false →
  (emptyAcct x = false → live (abs (Finalise s true)) a ≡ Some x) ∧
  default 0 (aBalance <$> live (abs (Finalise s true)) a) = aBalance x ∧
  default 0 (aNonce <$> live (abs (Finalise s true)) a) = aNonce x ∧
  (aFrozen x = false → default false (aFrozen <$> live (abs (Finalise s true)) a) = false).
Proof.
  intros HI Hval Hx Hs. pose proof (Finalise_accts s true a HI) as Hf. simpl in Hf.
  destruct (applyValidators_spec s HI) as (_ & Hdb & Hv). rewrite Hdb, Hv in Hf by done.
  change (acctOf (db s) <$> view s a) with (accts (abs s) a) in Hf.
  assert (accts (abs s) a = Some x ∧ aDeleted x = false) as [Ha Hd].
  { split; [|by eapply live_deleted]. revert Hx. unfold live. destruct (accts (abs s) a) as [y|]; simpl; [|done].
    destruct (aDeleted y); [done|]. by intros [= <-]. }
  rewrite Ha in Hf.
  unfold live. set (m := accts (abs (Finalise s true)) a) in *.
  change (acctOf (db (Finalise s true)) <$> view (Finalise s true) a) with m in Hf.
  assert (m ≡ Some x ∨ m ≡ Some (sweep true x)) as Hm by (case_decide; auto).
  assert (∀ y, m ≡ Some y → ∃ z, m = Some z ∧ z ≡ y) as Hz.
  { intros y Hy. symmetry in Hy. destruct (option_Forall2_from_Some _ _ _ Hy) as (z & -> & Hyz). by exists z. }
  destruct (emptyAcct x) eqn:Ee.
  - assert (aBalance x = 0 ∧ aNonce x = 0) as [Hb Hn] by (unfold emptyAcct in Ee; lia).
    split; [done|]. destruct Hm as [(z & -> & Hzx)%Hz|(z & -> & Hzx)%Hz]; simpl.
    + destruct Hzx as (?&?&?&?&?&?&?&->). rewrite Hd. simpl. split_and!; congruence.
    + unfold sweep in Hzx. rewrite Ee, Hs in Hzx. destruct Hzx as (_&_&_&_&_&_&_&->). simpl. by rewrite Hb, Hn.
  - assert (sweep true x = x) as Hsw by (unfold sweep; by rewrite Ee, Hs). rewrite Hsw in Hm.
    destruct Hm as [(z & -> & Hzx)%Hz|(z & -> & Hzx)%Hz]; simpl;
      pose proof Hzx as (?&?&?&?&?&?&?&->); rewrite Hd; simpl; (split; [intros _; by constructor|]); split_and!; congruence.
Qed.
End finalise.

(** ** The flush into the trie *)
Section commit.
Context `{TB : TrieBackend} `{AC : AccountCodec} `{VS : ValidatorStore} `{!TrieLaws}.
Implicit Types (s : DB) (a b : Address) (o : Object) (d : Database) (t : Trie).

(** An account with a balance that is not negative is encoded, in at least one byte, and read
    back as it was. *)
Definition codecLaws : Prop :=
  ∀ x, 0 ≤ Balance x → ∃ enc, encodeAccount x = Some enc ∧ enc ≠ [] ∧ decodeAccount enc = Some x.
Context (codec : codecLaws).

(** The part of an object that writing its storage does not change. *)
Definition sameHead o o' : Prop :=
  address o' = address o ∧ Nonce (data o') = Nonce (data o) ∧ Balance (data o') = Balance (data o) ∧
  CodeHash (data o') = CodeHash (data o) ∧ deleted o' = deleted o ∧ fakeStorage o' = fakeStorage o.

#[local] Instance sameHead_preorder : PreOrder sameHead.
Proof.
  split; [intros o; by split_and!|].
  intros o1 o2 o3 (?&?&?&?&?&?) (?&?&?&?&?&?). split_and!; congruence.
Qed.

Lemma objSetError_head o e : sameHead o (objSetError o e).
Proof. unfold objSetError. destruct (objErr o); by split_and!. Qed.

Lemma updateSlot_head acc kv : sameHead acc.2 (updateSlot acc kv).2.
Proof.
  destruct acc as [t o], kv as [k v]. unfold updateSlot. destruct (_ =? default _ _); [by split_and!|].
  destruct (if v =? 0 then _ else _) as [t' [e|]]; simpl; [|by split_and!].
  etransitivity; [|apply objSetError_head]. by split_and!.
Qed.

Lemma updateTrie_head d o : sameHead o (updateTrie d o).2.
Proof.
  unfold updateTrie. destruct (getTrie_spec d (finalise o)) as (o2 & -> & He & _).
  assert (sameHead o o2) as Ho.
  { destruct He as [? Hd ? ? ? ? ? ? ?]. unfold sameHead. rewrite Hd. by split_and!. }
  assert (∀ l acc, sameHead o acc.2 → sameHead o (foldl updateSlot acc l).2) as Hf.
  { intros l. induction l as [|kv l IH]; intros acc Hacc; simpl; [done|]. apply IH.
    etransitivity; [exact Hacc|apply updateSlot_head]. }
  specialize (Hf (map_to_list (pendingStorage o2)) (storeTrie d (finalise o), o2) Ho).
  destruct (foldl updateSlot _ _) as [t' o3]. exact Hf.
Qed.

Lemma updateRoot_head d o : sameHead o (updateRoot d o).
Proof. unfold updateRoot. pose proof (updateTrie_head d o). by destruct (updateTrie d o). Qed.

Lemma CommitTrie_head d o : sameHead o (CommitTrie d o).1.
Proof.
  unfold CommitTrie. pose proof (updateTrie_head d o) as Hu. destruct (updateTrie d o) as [t o1].
  destruct (objErr o1); [done|]. by destruct (TrieCommit t).
Qed.

(** What the trie holds for an object after the flush: nothing if it was deleted, else an
    account with its nonce, balance and code hash. *)
Definition stored t a o : Prop :=
  if deleted o then TryGet t a = inr []
  else ∃ root enc, TryGet t a = inr enc ∧ enc ≠ [] ∧
       decodeAccount enc = Some (mkAccount (Nonce (data o)) (Balance (data o)) root (CodeHash (data o))).

(** The objects of two databases agree up to their storage. *)
Definition sameHeads s s' : Prop :=
  ∀ a, option_Forall2 sameHead (stateObjects s !! a) (stateObjects s' !! a).

Lemma sameHeads_dom s s' a : sameHeads s s' → is_Some (stateObjects s !! a) → is_Some (stateObjects s' !! a).
Proof. intros Hh Hs. destruct (Hh a); [eauto|]. by destruct Hs. Qed.

Lemma sameHeads_put s a o o' :
  stateObjects s !! a = Some o → address o = a → sameHead o o' → sameHeads s (putObject s o').
Proof.
  intros Ho Ha Hh b. simpl. rewrite (proj1 Hh), Ha. destruct (decide (a = b)) as [<-|].
  - rewrite lookup_insert_eq, Ho. by constructor.
  - by rewrite lookup_insert_ne.
Qed.

Lemma sameHeads_trans s1 s2 s3 : sameHeads s1 s2 → sameHeads s2 s3 → sameHeads s1 s3.
Proof. intros H12 H23 a. etransitivity; [apply H12|apply H23]. Qed.

Definition keyedObjects s : Prop := ∀ a o, stateObjects s !! a = Some o → address o = a.

Lemma sameHeads_keyed s s' : sameHeads s s' → keyedObjects s → keyedObjects s'.
Proof.
  intros Hh Hk a o Ho. pose proof (Hh a) as Ha. rewrite Ho in Ha. inversion Ha as [o1 o2 Hh' Ho1|]. subst.
  rewrite (proj1 Hh'). by apply Hk.
Qed.

Lemma stored_head t t' a o o' : sameHead o o' → TryGet t' a = TryGet t a → stored t a o' → stored t' a o.
Proof. intros (?&Hn&Hb&Hc&Hd&?) Ht. unfold stored. by rewrite Ht, Hn, Hb, Hc, Hd. Qed.

Definition sameSets s s' : Prop :=
  stateObjectsPending s' = stateObjectsPending s ∧ stateObjectsDirty s' = stateObjectsDirty s.

#[local] Instance sameSets_preorder : PreOrder sameSets.
Proof. split; [done|]. intros s1 s2 s3 [? ?] [? ?]. split; congruence. Qed.

Lemma updateStateObject_spec s o :
  0 ≤ Balance (data o) → deleted o = false →
  ∃ t, updateStateObject s o = Some (setTrie s (db s) t) ∧ stored t (address o) o ∧
       ∀ b, b ≠ address o → TryGet t b = TryGet (trie s) b.
Proof.
  intros Hb Hdel. destruct (codec (data o) Hb) as (enc & Henc & Hne & Hdec). unfold updateStateObject, stored.
  rewrite Henc, Hdel. simpl. pose proof (TryUpdate_ok (trie s) (address o) enc) as Hok.
  pose proof (TryGet_update_eq (trie s) (address o) enc Hne) as Heq.
  pose proof (λ b, TryGet_update_ne (trie s) (address o) b enc) as Hother.
  destruct (TryUpdate (trie s) (address o) enc) as [t err]. simpl in *. subst err. exists t. split_and!; [done|..].
  - exists (Root (data o)), enc. split_and!; [done|done|]. rewrite Hdec. by destruct (data o).
  - intros b Hne'. by apply Hother.
Qed.

Lemma deleteStateObject_spec s o :
  deleted o = true →
  ∃ t, deleteStateObject s o = setTrie s (db s) t ∧ stored t (address o) o ∧
       ∀ b, b ≠ address o → TryGet t b = TryGet (trie s) b.
Proof.
  intros Hdel. unfold deleteStateObject, stored. rewrite Hdel.
  pose proof (TryDelete_ok (trie s) (address o)) as Hok. pose proof (TryGet_delete_eq (trie s) (address o)) as Heq.
  pose proof (λ b, TryGet_delete_ne (trie s) (address o) b) as Hother.
  destruct (TryDelete (trie s) (address o)) as [t err]. simpl in *. subst err. exists t.
  split_and!; [done|done|]. intros b Hne. by apply Hother.
Qed.

Lemma flushStep_spec a s o :
  stateObjects s !! a = Some o → address o = a → 0 ≤ Balance (data o) →
  ∃ s', flushStep a s = Some s' ∧ sameHeads s s' ∧ sameSets s s' ∧ stored (trie s') a o ∧
        ∀ b, b ≠ a → TryGet (trie s') b = TryGet (trie s) b.
Proof.
  intros Ho Ha Hb. unfold flushStep. rewrite Ho. simpl. destruct (deleted o) eqn:Hdel.
  - destruct (deleteStateObject_spec s o Hdel) as (t & -> & Hst & Hother). rewrite Ha in Hst, Hother.
    eexists. split; [done|]. split_and!; try done. intros b. simpl. reflexivity.
  - pose proof (updateRoot_head (db s) o) as Hh. set (o' := updateRoot (db s) o) in *.
    destruct (updateStateObject_spec (putObject s o') o') as (t & -> & Hst & Hother).
    + by replace (Balance (data o')) with (Balance (data o)) by (symmetry; apply Hh).
    + rewrite <-Hdel. apply Hh.
    + replace (address o') with a in * by (rewrite <-Ha; symmetry; apply Hh).
      eexists. split; [done|]. split_and!; try done; [exact (sameHeads_put s a o o' Ho Ha Hh)|].
      by eapply stored_head.
Qed.

Lemma flush_spec addrs s :
  keyedObjects s → (∀ a, a ∈ addrs → ∃ o, stateObjects s !! a = Some o ∧ 0 ≤ Balance (data o)) → NoDup addrs →
  ∃ s', foldl (λ ms addr, ms ≫= flushStep addr) (Some s) addrs = Some s' ∧ sameHeads s s' ∧ sameSets s s' ∧
        (∀ a, a ∉ addrs → TryGet (trie s') a = TryGet (trie s) a) ∧
        ∀ a o, a ∈ addrs → stateObjects s !! a = Some o → stored (trie s') a o.
Proof.
  revert s. induction addrs as [|a addrs IH]; intros s Hk Hs Hnd; simpl.
  { exists s. split_and!; try done; [|set_solver]. intros a. reflexivity. }
  apply NoDup_cons in Hnd as [Hna Hnd]. destruct (Hs a) as (o & Ho & Hb); [set_solver|].
  destruct (flushStep_spec a s o Ho (Hk a o Ho) Hb) as (s1 & -> & Hh1 & Hset1 & Hst1 & Hne1).
  destruct (IH s1) as (s' & Hf & Hh & Hset & Hout & Hin); [by eapply sameHeads_keyed| |done|].
  { intros b Hin. destruct (Hs b) as (ob & Hob & Hbb); [set_solver|]. pose proof (Hh1 b) as Hb1. rewrite Hob in Hb1.
    inversion Hb1 as [o0 o1 Hh' Ho0 Ho1|]. subst o0. exists o1. split; [done|]. destruct Hh' as (_&_&->&_). done. }
  exists s'. simpl. rewrite Hf. split_and!; [done|by eapply sameHeads_trans|..].
  - by etransitivity.
  - intros b Hb'. rewrite Hout, Hne1 by set_solver. done.
  - intros b ob [->|Hb']%elem_of_cons Hob.
    + simplify_eq. eapply stored_head; [reflexivity| |exact Hst1]. by apply Hout.
    + pose proof (Hh1 b) as Hb1. rewrite Hob in Hb1. inversion Hb1 as [o0 o1 Hh' Ho0 Ho1|]. subst o0.
      eapply stored_head; [exact Hh'|done|by apply Hin].
Qed.

Lemma commitStep_spec a s o :
  stateObjects s !! a = Some o → address o = a →
  ∃ s' err, commitStep a s = Some (s', err) ∧ sameHeads s s' ∧ sameSets s s' ∧ trie s' = trie s.
Proof.
  intros Ho Ha. unfold commitStep. rewrite Ho. simpl. destruct (deleted o).
  { eexists _, _. split; [done|]. split_and!; try done. intros b. reflexivity. }
  assert (∃ d o1, (match code o with
            | Some c => if dirtyCode o then (InsertBlob (db s) (CodeHash (data o)) c, withCode o (Some c) false)
                        else (db s, o)
            | None => (db s, o)
            end) = (d, o1) ∧ sameHead o o1) as (d & o1 & -> & Hh1).
  { destruct (code o); [destruct (dirtyCode o)|]; eexists _, _; (split; [done|by split_and!]). }
  simpl. pose proof (CommitTrie_head d o1) as Hh2. destruct (CommitTrie d o1) as [o2 err]. simpl in Hh2.
  eexists _, _. split; [done|]. split_and!; try done.
  apply (sameHeads_put s a o o2 Ho Ha). by etransitivity.
Qed.

Lemma commitLoop_spec addrs s :
  keyedObjects s → (∀ a, a ∈ addrs → is_Some (stateObjects s !! a)) →
  ∃ s' err, commitLoop addrs s = Some (s', err) ∧ sameHeads s s' ∧ sameSets s s' ∧ trie s' = trie s.
Proof.
  revert s. induction addrs as [|a addrs IH]; intros s Hk Hs; simpl.
  { eexists _, _. split; [done|]. split_and!; try done. intros a. reflexivity. }
  destruct (Hs a) as [o Ho]; [set_solver|].
  destruct (commitStep_spec a s o Ho (Hk a o Ho)) as (s1 & err & -> & Hh1 & Hset1 & Ht1). simpl.
  destruct err as [e|]; [eexists _, _; by split|].
  destruct (IH s1) as (s2 & err & -> & Hh2 & Hset2 & Ht2); [by eapply sameHeads_keyed| |].
  { intros b Hb. eapply sameHeads_dom; [done|apply Hs; set_solver]. }
  eexists _, _. split; [done|]. split; [by eapply sameHeads_trans|]. split; [by etransitivity|congruence].
Qed.

(** The addresses whose objects [Commit] writes. *)
Definition flushed s : gset Address := stateObjectsPending (applyValidators s) ∪ touched (applyValidators s).

(** No account has a negative balance. *)
Definition solvent (w : world) : Prop := ∀ a x, accts w a = Some x → 0 ≤ aBalance x.

Lemma IntermediateRoot_flushes s del :
  sdInv s → solvent (abs (Finalise s del)) →
  ∃ s', IntermediateRoot s del = Some (TrieHash (trie s'), s') ∧ keyedObjects s' ∧
    stateObjectsPending s' = ∅ ∧ stateObjectsDirty s' = stateObjectsDirty (Finalise s del) ∧
    stateObjectsDirty s' ⊆ dom (stateObjects s') ∧
    (∀ a o, a ∈ flushed s → stateObjects (Finalise s del) !! a = Some o → stored (trie s') a o) ∧
    (∀ a, a ∉ flushed s → TryGet (trie s') a = TryGet (trie (Finalise s del)) a).
Proof.
  intros HI Hsol. destruct (Finalise_frame s del) as (_ & _ & _ & _ & _ & _ & Hp & _).
  destruct (Finalise_inv s del HI) as [[Hk Hpe Hdi _ _ _] _]. unfold IntermediateRoot, flushed.
  set (s1 := Finalise s del) in *. rewrite <-Hp.
  destruct (flush_spec (elements (stateObjectsPending s1)) s1) as (s2 & -> & Hh & [_ Hset] & Hout & Hin).
  - intros a o Ho. by apply (Hk a o Ho).
  - intros a Ha%elem_of_elements%Hpe%elem_of_dom. destruct Ha as [o Ho]. exists o. split; [done|].
    apply (Hsol a (acctOf (db s1) o)). simpl. unfold view. by rewrite Ho.
  - apply NoDup_elements.
  - exists (setSets s2 ∅ (stateObjectsDirty s2)). simpl. split; [done|]. split_and!; try done.
    + eapply sameHeads_keyed; [exact Hh|]. intros a o Ho. by apply (Hk a o Ho).
    + rewrite Hset. intros a Ha%Hdi. apply elem_of_dom. eapply sameHeads_dom; [done|]. by apply elem_of_dom.
    + intros a o Ha Ho. apply Hin; [by apply elem_of_elements|done].
    + intros a Ha. apply Hout. by rewrite elem_of_elements.
Qed.

Lemma Commit_flushes s del :
  sdInv s → solvent (abs (Finalise s del)) →
  ∃ r s', Commit s del = Some (r, s') ∧
    (∀ a o, a ∈ flushed s → stateObjects (Finalise s del) !! a = Some o → stored (trie s') a o) ∧
    (∀ a, a ∉ flushed s → TryGet (trie s') a = TryGet (trie (Finalise s del)) a) ∧
    ∀ root, r = inr root →
      TrieCommit (trie s') = inr root ∧ stateObjectsPending s' = ∅ ∧ stateObjectsDirty s' = ∅.
Proof.
  intros HI Hsol. destruct (IntermediateRoot_flushes s del HI Hsol) as (s1 & Hir & Hk & Hp & _ & Hdi & Hin & Hout).
  unfold Commit. rewrite Hir. simpl.
  destruct (commitLoop_spec (elements (stateObjectsDirty s1)) s1 Hk) as (s2 & err & -> & _ & [Hset _] & Ht).
  { intros a Ha%elem_of_elements. by apply elem_of_dom, Hdi. }
  simpl. rewrite <-Ht in Hin, Hout. destruct err as [e|]; eexists _, _; (split; [done|]); (split_and!; [done|done|]).
  - by intros root [=].
  - simpl. intros root. destruct (TrieCommit (trie s2)); intros [= <-]. by rewrite Hset.
Qed.

(** [Commit] does not panic when no balance is negative, whatever errors the storage tries
    report.  It leaves in the trie, for every pending or touched account, its nonce, balance
    and code hash, and nothing for a deleted one; all other addresses keep their bytes.  A
    root that is returned is that of the trie's own commit, and then nothing is pending or
    dirty. *)
Theorem StateDB_Commit_spec s del :
  sdInv s → solvent (abs (Finalise s del)) →
  ∃ r s', Commit s del = Some (r, s') ∧
    (∀ a o, a ∈ flushed s → stateObjects (Finalise s del) !! a = Some o → stored (trie s') a o) ∧
    (∀ a, a ∉ flushed s → TryGet (trie s') a = TryGet (trie (Finalise s del)) a) ∧
    ∀ root, r = inr root →
      TrieCommit (trie s') = inr root ∧ stateObjectsPending s' = ∅ ∧ stateObjectsDirty s' = ∅.
Proof. apply Commit_flushes. Qed.

Lemma stored_reads t a o :
  stored t a o → objOk a o →
  if deleted o then loadObject t a = None
  else ∃ o', loadObject t a = Some o' ∧ Nonce (data o') = Nonce (data o) ∧ Balance (data o') = Balance (data o) ∧
       CodeHash (data o') = CodeHash (data o) ∧ deleted o' = false ∧ freeze o' = false.
Proof.
  unfold stored, loadObject. intros Hst Hok. destruct (deleted o).
  - rewrite Hst. by rewrite decide_True.
  - destruct Hst as (root & enc & -> & Hne & ->). rewrite decide_False by (by destruct enc). simpl. eexists. split; [done|].
    unfold newObject. simpl. by destruct (root =? 0).
Qed.

Lemma loadObject_thawed t a o : loadObject t a = Some o → freeze o = false ∧ deleted o = false.
Proof.
  unfold loadObject. destruct (TryGet t a); [done|]. case_decide; [done|].
  intros (x & _ & ->)%fmap_Some. done.
Qed.

(** C29: a committed account survives.  A database opened on the committed trie reads, for
    every account the commit wrote, the nonce, balance and code hash the account had after
    [Finalise], and finds no account where it was deleted.  The freeze flag is the exception:
    it is not part of the stored account and reads as false. *)
Theorem Commit_reopen s del root s' d' s2 a :
  sdInv s → solvent (abs (Finalise s del)) → Commit s del = Some (inr root, s') →
  New root d' = inr s2 → (∀ k, TryGet (trie s2) k = TryGet (trie s') k) → a ∈ flushed s →
  let x := live (abs (Finalise s del)) a in
  let y := live (abs s2) a in
  (aNonce <$> y) = (aNonce <$> x) ∧ (aBalance <$> y) = (aBalance <$> x) ∧ (aCodeHash <$> y) = (aCodeHash <$> x) ∧
  (aFrozen <$> y) = (λ _, false) <$> x.
Proof.
  intros HI Hsol Hc Hnew Ht Ha. destruct (Commit_flushes s del HI Hsol) as (r & s'' & Hc' & Hin & _ & _).
  rewrite Hc in Hc'. injection Hc' as <- <-.
  destruct (Finalise_frame s del) as (_ & _ & _ & _ & _ & _ & Hp & _).
  destruct (Finalise_inv s del HI) as [[Hk Hpe _ _ _ _] _].
  assert (a ∈ dom (stateObjects (Finalise s del))) as [o Ho]%elem_of_dom by (apply Hpe; rewrite Hp; exact Ha).
  pose proof (stored_reads _ _ _ (Hin a o Ha Ho) (Hk a o Ho)) as Hr.
  assert (loadObject (trie s') a = loadObject (trie s2) a) as Hl by (unfold loadObject; by rewrite Ht).
  destruct (New_inv _ _ _ Hnew) as (_ & _ & _ & Hobj).
  intros x y. subst x y. rewrite !live_abs. unfold liveView, view. rewrite Ho, Hobj, lookup_empty, <-Hl. simpl.
  destruct (deleted o) eqn:Hdel; simpl.
  - by rewrite Hr.
  - destruct Hr as (o' & -> & Hn & Hb & Hc0 & Hd' & Hf). simpl. rewrite Hd'. simpl. by rewrite Hn, Hb, Hc0, Hf.
Qed.

(** No database opened from a trie has a frozen account: a freeze does not survive the
    block in which it was made. *)
Theorem New_thaws root d s a : New root d = inr s → (GetFreezeState s a).1 = false.
Proof.
  intros Hnew. destruct (New_inv _ _ _ Hnew) as (_ & _ & _ & Hobj).
  unfold GetFreezeState, GetOrNewStateObject. destruct (getStateObject_spec s a) as (s1 & -> & _).
  destruct (liveView s a) as [o|] eqn:E; simpl.
  - destruct (liveView_view _ _ _ E) as [Hv _]. unfold view in Hv. rewrite Hobj, lookup_empty in Hv.
    by apply (loadObject_thawed (trie s) a).
  - unfold createObject. by destruct (getDeletedStateObject s1 a).
Qed.
End commit.

(** ** Copies *)
Section copy.
Context `{TB : TrieBackend} `{AC : AccountCodec} `{VS : ValidatorStore} `{!TrieLaws}.
Implicit Types (s c : DB) (a b : Address) (o : Object) (d : Database).

(** The addresses whose objects are copied. *)
Definition copied s : gset Address := touched s ∪ stateObjectsPending s ∪ stateObjectsDirty s.

(** A partial copy: the objects copied so far, over the trie of the original. *)
Record copying s (done : gset Address) c : Prop := {
  cp_dom : dom (stateObjects c) = done;
  cp_obj : ∀ a o, stateObjects c !! a = Some o → ∃ o0, stateObjects s !! a = Some o0 ∧ o = deepCopy (db s) o0;
  cp_base : db c = db s ∧ trie c = trie s;
}.

Lemma copying_insert s c done a o0 objs :
  copying s done c → stateObjects s !! a = Some o0 → stateObjects c = objs →
  ∀ c', stateObjects c' = <[a := deepCopy (db s) o0]> objs → db c' = db c → trie c' = trie c →
  copying s (done ∪ {[a]}) c'.
Proof.
  intros [Hd Ho [Hdb Ht]] Ha <- c' Hc' Hdb' Ht'. split.
  - rewrite Hc', dom_insert_L, Hd. set_solver.
  - intros b o. rewrite Hc'. intros [[<- <-]|[_ Hb]]%lookup_insert_Some; eauto.
  - split; congruence.
Qed.

Lemma copyJournalDirty_copying s c done a :
  copying s done c → copying s (done ∪ ({[a]} ∩ dom (stateObjects s))) (copyJournalDirty s a c).
Proof.
  intros Hc. unfold copyJournalDirty. destruct (stateObjects s !! a) as [o|] eqn:E.
  - replace (done ∪ ({[a]} ∩ dom (stateObjects s))) with (done ∪ {[a]}) by (apply elem_of_dom_2 in E; set_solver).
    by eapply copying_insert.
  - replace (done ∪ ({[a]} ∩ dom (stateObjects s))) with done by (apply not_elem_of_dom in E; set_solver). done.
Qed.

Lemma copyMissing_copying s c done a :
  copying s done c → a ∈ dom (stateObjects s) → ∃ c', copyMissing s a c = Some c' ∧ copying s (done ∪ {[a]}) c'.
Proof.
  intros Hc [o Ho]%elem_of_dom. unfold copyMissing. destruct (stateObjects c !! a) as [o'|] eqn:E.
  - exists c. split; [done|]. apply elem_of_dom_2 in E. rewrite (cp_dom _ _ _ Hc) in E.
    by replace (done ∪ {[a]}) with done by set_solver.
  - rewrite Ho. simpl. eexists. split; [done|]. by eapply copying_insert.
Qed.

Lemma copying_sets s done c p q : copying s done c → copying s done (setSets c p q).
Proof. intros [? ? ?]. by split. Qed.

(** The two loops that add the objects that are still missing. *)
Lemma copyLoop_copying s (f : Address → DB → option DB) addrs done c :
  (∀ a c1 dn, copying s dn c1 → a ∈ dom (stateObjects s) → ∃ c2, f a c1 = Some c2 ∧ copying s (dn ∪ {[a]}) c2) →
  copying s done c → (∀ a, a ∈ addrs → a ∈ dom (stateObjects s)) →
  ∃ c', foldl (λ mc a, mc ≫= f a) (Some c) addrs = Some c' ∧ copying s (done ∪ list_to_set addrs) c'.
Proof.
  intros Hf. revert done c. induction addrs as [|a addrs IH]; intros dn c Hc Ha; simpl.
  { exists c. by rewrite (right_id_L ∅ (∪)). }
  destruct (Hf a c dn Hc) as (c1 & -> & Hc1); [apply Ha; set_solver|].
  destruct (IH _ c1 Hc1) as (c' & Hc' & Hd); [set_solver|]. exists c'. by rewrite (assoc_L (∪)).
Qed.

Lemma copyPending_copying s a c done :
  copying s done c → a ∈ dom (stateObjects s) → ∃ c', copyPending s a c = Some c' ∧ copying s (done ∪ {[a]}) c'.
Proof.
  intros Hc Ha. unfold copyPending. destruct (copyMissing_copying s c done a Hc Ha) as (c1 & -> & Hc1).
  simpl. eexists. split; [reflexivity|]. by apply copying_sets.
Qed.

Lemma copyDirty_copying s a c done :
  copying s done c → a ∈ dom (stateObjects s) → ∃ c', copyDirty s a c = Some c' ∧ copying s (done ∪ {[a]}) c'.
Proof.
  intros Hc Ha. unfold copyDirty. destruct (copyMissing_copying s c done a Hc Ha) as (c1 & -> & Hc1).
  simpl. eexists. split; [reflexivity|]. by apply copying_sets.
Qed.

Lemma copyJournal_copying s addrs dn c :
  copying s dn c →
  copying s (dn ∪ (list_to_set addrs ∩ dom (stateObjects s))) (foldl (λ c addr, copyJournalDirty s addr c) c addrs).
Proof.
  revert dn c. induction addrs as [|a addrs IH]; intros dn c Hc; simpl.
  { by replace (dn ∪ (∅ ∩ dom (stateObjects s))) with dn by set_solver. }
  replace (dn ∪ (({[a]} ∪ list_to_set addrs) ∩ dom (stateObjects s)))
    with ((dn ∪ ({[a]} ∩ dom (stateObjects s))) ∪ (list_to_set addrs ∩ dom (stateObjects s))) by set_solver.
  by apply IH, copyJournalDirty_copying.
Qed.

(** What a copied object denotes: the same account, thawed. *)
Lemma deepCopy_acct d a o :
  objOk a o → Root (data o) ≠ 0 → acctOf d (deepCopy d o) ≡ setFrz false (acctOf d o).
Proof.
  intros [_ Hf] Hr.
  assert (data (deepCopy d o) = data o) as Hdata.
  { unfold deepCopy, newObject. simpl. by rewrite (proj2 (Z.eqb_neq _ _) Hr). }
  assert (storeTrie d (deepCopy d o) = storeTrie d o) as Ht.
  { unfold storeTrie. rewrite Hdata. simpl. destruct (objTrie o); simpl; [apply CopyTrie_eq|done]. }
  unfold acctOf. rewrite Hdata. split_and!; try done; cbn [aCode aStorage setFrz].
  - unfold codeView. by rewrite Hdata.
  - intros k. unfold stateView, committedView. rewrite Ht, Hf. simpl. done.
Qed.

(** [Copy] never dereferences a missing object.  The copy holds every account that was
    changed since the last commit, with its balance, nonce, code, storage and self-destruct
    flags, and every other account as the trie has it; but no account of the copy that was
    copied or loaded is frozen. *)
Theorem Copy_thaws s :
  sdInv s →
  ∃ c, Copy s = Some c ∧
    (∀ a o, a ∈ copied s → stateObjects s !! a = Some o → Root (data o) ≠ 0 →
       accts (abs c) a ≡ Some (setFrz false (acctOf (db s) o))) ∧
    (∀ a, a ∉ copied s → view c a = loadObject (trie s) a) ∧
    ∀ a x, accts (abs c) a = Some x → aFrozen x = false.
Proof.
  intros [[Hk Hp Hd _ _ _] _]. unfold Copy. set (c0 := mkDB (db s) _ ∅ ∅ ∅ ∅ None _ _ _ _ _ _ _ _ _ _).
  assert (copying s ∅ c0) as H0.
  { split; [simpl; apply dom_empty_L|intros a o; simpl; by rewrite lookup_empty|]. split; [done|]. apply CopyTrie_eq. }
  apply (copyJournal_copying s (elements (dom (dirties (jnl s))))) in H0. set (c1 := foldl _ c0 _) in *.
  destruct (copyLoop_copying s (copyPending s) (elements (stateObjectsPending s)) _ c1
    (λ a c dn, copyPending_copying s a c dn) H0) as (c2 & -> & H2); [intros a Ha%elem_of_elements; auto|].
  destruct (copyLoop_copying s (copyDirty s) (elements (stateObjectsDirty s)) _ c2
    (λ a c dn, copyDirty_copying s a c dn) H2) as (c3 & Hc3 & H3); [intros a Ha%elem_of_elements; auto|].
  cbn [mbind option_bind]. rewrite Hc3. cbn [mbind option_bind]. set (cc := setPreimages _ _). exists cc. split; [done|]. rewrite !list_to_set_elements_L in H3.
  assert (∀ a, accts (abs cc) a = acctOf (db c3) <$> view c3 a) as Hacc by done.
  destruct H3 as [Hdom Hobj [Hdb Ht]]. split_and!.
  - intros a o Ha Ho Hr. rewrite Hacc.
    assert (a ∈ dom (stateObjects c3)) as [o' Ho']%elem_of_dom
      by (rewrite Hdom; unfold copied, touched in Ha; set_solver).
    unfold view. rewrite Ho'. destruct (Hobj a o' Ho') as (o0 & Ho0 & ->). simplify_eq. simpl. constructor.
    rewrite Hdb. apply (deepCopy_acct _ a); auto.
  - intros a Ha. change (view cc a) with (view c3 a). unfold view.
    assert (a ∉ dom (stateObjects c3)) as ->%not_elem_of_dom
      by (rewrite Hdom; unfold copied, touched in Ha; set_solver). by rewrite Ht.
  - intros a x. rewrite Hacc. intros (o & Hv & ->)%fmap_Some. simpl. unfold view in Hv. destruct (stateObjects c3 !! a) as [o'|] eqn:E.
    + simplify_eq. by destruct (Hobj a o E) as (o0 & _ & ->).
    + by apply (loadObject_thawed (trie c3) a).
Qed.
End copy.

(** * Concrete runs *)
#[local] Existing Instances mapTrie demoCodec demoValidators.

(** Address 1 is frozen after a payment; address 2 is emptied. *)
Definition blockDB : DB := SetFreezeState (SubBalance (AddBalance demoDB 1 7) 2 50) 1 true.

Lemma blockDB_inv : sdInv blockDB.
Proof.
  assert (∀ s op s', sdInv s → op ≠ OpSnapshot → (∀ r, op ≠ OpRevertToSnapshot r) → sdStep s op = Some s' → sdInv s')
    as Hstep by (intros s op s' HI H1 H2 H3; by destruct (sdStep_stepped s op s' HI H1 H2 H3) as [es [? ? ? ?]]).
  apply (Hstep (SubBalance (AddBalance demoDB 1 7) 2 50) (OpSetFreezeState 1 true)); [|done..].
  apply (Hstep (AddBalance demoDB 1 7) (OpSubBalance 2 50)); [|done..].
  apply (Hstep demoDB (OpAddBalance 1 7)); [apply demo_inv|done..].
Qed.

Lemma demo_codec : codecLaws.
Proof.
  intros [n b r c] Hb. simpl in *. destruct (Z.ltb_spec b 0); [lia|]. eexists. split; [done|]. by split.
Qed.

(** A database is solvent when its cached objects and its trie are. *)
Lemma solvent_check (s : DB) :
  map_Forall (λ _ o, 0 ≤ Balance (data o)) (stateObjects s) →
  map_Forall (λ _ b, 0 ≤ default 0 (Balance <$> decodeAccount b)) (trie s : gmap Z bytes) → solvent (abs s).
Proof.
  intros Hcache Htrie a x. cbn [accts abs]. intros (o & Hv & ->)%fmap_Some. unfold view in Hv.
  destruct (stateObjects s !! a) as [o'|] eqn:E; [simplify_eq; exact (Hcache a o E)|]. unfold loadObject in Hv.
  change (TryGet (trie s) a) with (inr (default [] ((trie s : gmap Z bytes) !! a)) : TrieErr + bytes) in Hv.
  destruct ((trie s : gmap Z bytes) !! a) as [b|] eqn:Et; [|done]. cbn [default] in Hv. specialize (Htrie a b Et). case_decide; [done|].
  apply fmap_Some in Hv as (x & Hx & ->). simpl in *. rewrite Hx in Htrie. simpl in Htrie.
  unfold newObject. by destruct (Root x =? 0).
Qed.

Lemma blockDB_solvent : solvent (abs (Finalise blockDB true)).
Proof. apply solvent_check; apply (bool_decide_unpack _); vm_compute; exact I. Qed.

Lemma StateDB_Finalise_spec_witness : sdInv (Finalise blockDB true) ∧ aDeleted <$> accts (abs (Finalise blockDB true)) 2 = Some true.
Proof. split; [apply (StateDB_Finalise_spec blockDB true blockDB_inv)|vm_compute; reflexivity]. Defined.

Lemma StateDB_Commit_spec_witness : ∃ r s', Commit blockDB true = Some (r, s') ∧ TryGet (trie s') 2 = inr [].
Proof.
  destruct (@StateDB_Commit_spec mapTrie demoCodec demoValidators mapTrie_laws demo_codec blockDB true blockDB_inv blockDB_solvent)
    as (r & s' & Hc & Hin & _).
  exists r, s'. split; [exact Hc|].
  destruct (eval_Some (stateObjects (Finalise blockDB true) !! 2) deleted) as (o & Ho & Hd); [vm_compute; reflexivity|].
  pose proof (Hin 2 o) as H2. unfold stored in H2. rewrite Hd in H2. apply H2; [|exact Ho].
  apply (bool_decide_unpack _). vm_compute. exact I.
Defined.

Definition databaseWith (root : Hash) (t : gmap Z bytes) : @Database mapTrie := ({[ root := t ]}, ∅).

Lemma Commit_reopen_witness :
  ∃ root s' d' s2, Commit blockDB true = Some (inr root, s') ∧ New root d' = inr s2 ∧
    (aBalance <$> live (abs s2) 1) = Some 107 ∧ (aFrozen <$> live (abs s2) 1) = Some false ∧
    (aFrozen <$> live (abs (Finalise blockDB true)) 1) = Some true.
Proof.
  destruct (eval_Some (Commit blockDB true) (λ rs, match rs.1 with inr _ => true | inl _ => false end)) as ([r s'] & E & Hr);
    [vm_compute; reflexivity|].
  destruct r as [e|root]; [discriminate|].
  set (d' := databaseWith root (trie s')).
  set (s2 := match New root d' with inr s => s | inl _ => blockDB end).
  assert (OpenTrie d' root = inr (trie s')) as Ho by (simpl; by rewrite lookup_singleton_eq).
  assert (New root d' = inr s2) as Hn by (unfold s2, New; by rewrite Ho).
  assert (trie s2 = trie s') as Ht by (unfold s2, New; by rewrite Ho).
  exists root, s', d', s2. destruct (@Commit_reopen mapTrie demoCodec demoValidators mapTrie_laws demo_codec blockDB true root s' d' s2 1)
    as (_ & Hb & _ & Hf); [apply blockDB_inv|apply blockDB_solvent|exact E|exact Hn|intros k; by rewrite Ht| |].
  { apply (bool_decide_unpack _). vm_compute. exact I. }
  split_and!; [exact E|exact Hn|rewrite Hb; vm_compute; reflexivity|rewrite Hf; vm_compute; reflexivity|vm_compute; reflexivity].
Defined.

Lemma New_thaws_witness : (GetFreezeState demoDB 1).1 = false.
Proof. apply (New_thaws 7 demoDatabase demoDB 1 demoDB_New). Defined.

Lemma Copy_thaws_witness :
  ∃ c, Copy blockDB = Some c ∧ (∀ a x, accts (abs c) a = Some x → aFrozen x = false) ∧
    (aFrozen <$> accts (abs blockDB) 1) = Some true.
Proof.
  destruct (@Copy_thaws mapTrie demoCodec demoValidators mapTrie_laws blockDB blockDB_inv) as (c & Hc & _ & _ & Hf).
  exists c. split_and!; [exact Hc|exact Hf|vm_compute; reflexivity].
Defined.
