(* ===== verification/StateTransition.v ===== *)
(** * Gas and nonces of a transaction (core/state_transition.go, core/gaspool.go)

    A message buys its gas from the sender and from the block's pool, pays the intrinsic gas,
    runs in the virtual machine and gets the rest back.  The state is [StateDB]; the virtual
    machine is a parameter that returns what is left of the gas, an error and the operations it
    made on the state, which it reaches through the [vm.StateDB] interface only.  What it
    promises is the hypothesis that it returns no more gas than it was given.

    Staking messages are in [StakingTransition.v]; logging is left out. *)

From Stdlib Require Import ZArith Lia.
From stdpp Require Import base gmap list option.
From S2P Require Import Prelude Trie Journal StateDB Accounts.
Local Open Scope Z_scope.

Definition MaxUint64 : Z := 2 ^ 64 - 1.

(** ** The gas pool of a block *)
Definition AddGas (gp amount : Z) : option Z := if MaxUint64 - amount <? gp then None else Some (gp + amount).
Definition SubGas (gp amount : Z) : option Z := if gp <? amount then None else Some (gp - amount).

(** ** Intrinsic gas (internal/params/protocol_params.go) *)
Definition TxGas : Z := 21000.
Definition TxGasContractCreation : Z := 53000.
Definition TxGasValidatorCreation : Z := 5300000.
Definition TxDataZeroGas : Z := 4.
Definition TxDataNonZeroGasFrontier : Z := 68.
Definition TxDataNonZeroGasEIP2028 : Z := 16.

(** [None] is [vm.ErrOutOfGas]. *)
Definition IntrinsicGas (data : bytes) (contractCreation homestead istanbul isValidatorCreation : bool) : option Z :=
  let gas := if contractCreation && homestead then TxGasContractCreation
             else if isValidatorCreation then TxGasValidatorCreation else TxGas in
  match data with
  | [] => Some gas
  | _ =>
      let nz := foldl (λ nz byt, if byt =? 0 then nz else u64 (nz + 1)) 0 data in
      let nonZeroGas := if istanbul then TxDataNonZeroGasEIP2028 else TxDataNonZeroGasFrontier in
      if (MaxUint64 - gas) / nonZeroGas <? nz then None
      else
        let gas1 := u64 (gas + u64 (nz * nonZeroGas)) in
        let z := u64 (Z.of_nat (length data) - nz) in
        if (MaxUint64 - gas1) / TxDataZeroGas <? z then None
        else Some (u64 (gas1 + u64 (z * TxDataZeroGas)))
  end.

(** ** Messages and results *)
Record Message := mkMessage {
  mFrom : Address; mTo : option Address; mGasPrice : Z; mGas : Z; mValue : Z; mNonce : Z; mCheckNonce : bool; mData : bytes }.

Inductive vmError := ErrInsufficientBalance | OtherVMError.
Inductive txError :=
| ErrNonceTooHigh | ErrNonceTooLow | errInsufficientBalanceForGas | ErrGasLimitReached | ErrOutOfGas | ErrVM.
#[export] Instance vmError_eq_dec : EqDecision vmError.
Proof. solve_decision. Defined.

Record ExecutionResult := mkExecutionResult { ReturnData : bytes; UsedGas : Z; VMErr : option vmError }.

(** What the virtual machine returns, and the operations it made on the state. *)
Record evmResult := mkEvmResult { evRet : bytes; evGas : Z; evErr : option vmError; evOps : list sdOp }.

(** ** The transition *)
Section transition.
Context `{TB : TrieBackend} `{AC : AccountCodec} `{VS : ValidatorStore}.
Context (evmCall : DB → Address → Address → bytes → Z → Z → evmResult).
Context (evmCreate : DB → Address → bytes → Z → Z → evmResult).
Context (homestead istanbul isStaking : bool) (coinbase : Address).

Record StateTransition := mkST { gp : Z; gas : Z; initialGas : Z; state : DB }.
Implicit Types (st : StateTransition) (s : DB) (msg : Message).

Definition NewStateTransition s (pool : Z) : StateTransition := mkST pool 0 0 s.
Definition setState st s : StateTransition := mkST (gp st) (gas st) (initialGas st) s.
Definition setGas st g : StateTransition := mkST (gp st) g (initialGas st) (state st).

Definition useGas st (amount : Z) : option StateTransition :=
  if gas st <? amount then None else Some (setGas st (gas st - amount)).

Definition gasUsed st : Z := u64 (initialGas st - gas st).

(** The state goes on after an error: the caller reverts it. *)
Definition buyGas st msg : StateTransition * option txError :=
  let mgval := mGas msg * mGasPrice msg in
  let '(have, s1) := GetBalance (state st) (mFrom msg) in
  let st1 := setState st s1 in
  if have <? mgval then (st1, Some errInsufficientBalanceForGas)
  else
    match SubGas (gp st) (mGas msg) with
    | None => (st1, Some ErrGasLimitReached)
    | Some gp' => (mkST gp' (u64 (gas st + mGas msg)) (mGas msg) (SubBalance s1 (mFrom msg) mgval), None)
    end.

Definition preCheck st msg : StateTransition * option txError :=
  if mCheckNonce msg then
    let '(nonce, s1) := GetNonce (state st) (mFrom msg) in
    let st1 := setState st s1 in
    if nonce <? mNonce msg then (st1, Some ErrNonceTooHigh)
    else if mNonce msg <? nonce then (st1, Some ErrNonceTooLow)
    else buyGas st1 msg
  else buyGas st msg.

(** [None] is the panic of the pool. *)
Definition refundGas st msg : option StateTransition :=
  let refund := Z.min (gasUsed st / 2) (refund (state st)) in
  let g := u64 (gas st + refund) in
  gp' ← AddGas (gp st) g;
  Some (mkST gp' g (initialGas st) (AddBalance (state st) (mFrom msg) (g * mGasPrice msg))).

(** The nonce of the sender, read and written, and the run of the virtual machine. *)
Definition bumpNonce s (a : Address) : DB := let '(n, s1) := GetNonce s a in SetNonce s1 a (u64 (n + 1)).
Definition runEVM st msg : DB * evmResult :=
  match mTo msg with
  | None => (state st, evmCreate (state st) (mFrom msg) (mData msg) (gas st) (mValue msg))
  | Some to =>
      let s1 := bumpNonce (state st) (mFrom msg) in
      (s1, evmCall s1 (mFrom msg) to (mData msg) (gas st) (mValue msg))
  end.

Definition TransitionDb st msg : option (StateTransition * (txError + ExecutionResult)) :=
  match preCheck st msg with
  | (st1, Some e) => Some (st1, inl e)
  | (st1, None) =>
      match IntrinsicGas (mData msg) (bool_decide (mTo msg = None)) homestead istanbul false with
      | None => Some (st1, inl ErrOutOfGas)
      | Some g =>
          match useGas st1 g with
          | None => Some (st1, inl ErrOutOfGas)
          | Some st2 =>
              let '(s2, r) := runEVM st2 msg in
              s3 ← sdRun s2 (evOps r);
              let st3 := mkST (gp st2) (evGas r) (initialGas st2) s3 in
              if bool_decide (evErr r = Some ErrInsufficientBalance) then Some (st3, inl ErrVM)
              else
                st4 ← refundGas st3 msg;
                let st5 := if isStaking then st4
                           else setState st4 (AddBalance (state st4) coinbase (gasUsed st4 * mGasPrice msg)) in
                Some (st5, inr (mkExecutionResult (evRet r) (gasUsed st5) (evErr r)))
          end
      end
  end.
End transition.

(** ** Intrinsic gas never wraps around *)
Definition nonZero (data : bytes) : Z := Z.of_nat (length (List.filter (λ byt, negb (byt =? 0)) data)).
Definition baseGas (contractCreation homestead isValidatorCreation : bool) : Z :=
  if contractCreation && homestead then TxGasContractCreation
  else if isValidatorCreation then TxGasValidatorCreation else TxGas.
Definition byteGas (istanbul : bool) : Z := if istanbul then TxDataNonZeroGasEIP2028 else TxDataNonZeroGasFrontier.

Lemma nonZero_bound data : 0 ≤ nonZero data ≤ Z.of_nat (length data).
Proof. unfold nonZero. pose proof (List.filter_length_le (λ byt, negb (byt =? 0)) data). lia. Qed.

Lemma nonZero_fold data k :
  0 ≤ k → k + Z.of_nat (length data) ≤ MaxUint64 →
  foldl (λ nz byt, if byt =? 0 then nz else u64 (nz + 1)) k data = k + nonZero data.
Proof.
  unfold MaxUint64. revert k. induction data as [|b data IH]; intros k Hk Hb; cbn [foldl length] in *; [unfold nonZero; cbn; lia|].
  unfold nonZero. cbn. destruct (b =? 0); cbn.
  - rewrite IH by lia. unfold nonZero. lia.
  - rewrite u64_small by (unfold isU64; lia). rewrite IH by lia. unfold nonZero. lia.
Qed.

Lemma le_div_mul m n k : 0 < k → 0 ≤ n → (m / k <? n) = (m <? n * k).
Proof.
  intros Hk Hn. destruct (Z.ltb_spec (m / k) n) as [H|H], (Z.ltb_spec m (n * k)) as [H'|H']; try done; exfalso.
  - pose proof (Z.div_mod m k ltac:(lia)). pose proof (Z.mod_pos_bound m k ltac:(lia)). nia.
  - pose proof (Z.div_mod m k ltac:(lia)). pose proof (Z.mod_pos_bound m k ltac:(lia)). nia.
Qed.

(** [IntrinsicGas] is the base price plus the price of every byte, exactly; it reports an error
    exactly when that sum is beyond 64 bits, so none of its additions and multiplications wraps
    around. *)
Theorem IntrinsicGas_spec data cc hs ist val :
  Z.of_nat (length data) ≤ MaxUint64 →
  let cost := baseGas cc hs val + nonZero data * byteGas ist + (Z.of_nat (length data) - nonZero data) * TxDataZeroGas in
  IntrinsicGas data cc hs ist val = if cost <=? MaxUint64 then Some cost else None.
Proof.
  intros Hlen cost. pose proof (nonZero_bound data) as Hnz.
  assert (0 ≤ baseGas cc hs val ≤ 5300000) as Hb by (unfold baseGas, TxGasContractCreation, TxGasValidatorCreation, TxGas; repeat case_match; lia).
  assert (0 < byteGas ist) as Hby by (destruct ist; done).
  unfold IntrinsicGas. fold (baseGas cc hs val) (byteGas ist). destruct data as [|b data].
  { subst cost. change (nonZero []) with 0. cbn [length]. rewrite (proj2 (Z.leb_le _ _)) by (unfold MaxUint64; lia). f_equal. lia. }
  remember (b :: data) as l eqn:El. rewrite nonZero_fold by lia. rewrite Z.add_0_l, le_div_mul by lia.
  set (g := baseGas cc hs val) in *. set (y := byteGas ist) in *. set (n := nonZero l) in *. set (L := Z.of_nat (length l)) in *.
  unfold TxDataZeroGas in *. unfold MaxUint64 in *.
  destruct (Z.ltb_spec (2 ^ 64 - 1 - g) (n * y)) as [H1|H1].
  { rewrite (proj2 (Z.leb_gt _ _)); [done|]. subst cost. nia. }
  assert (0 ≤ n * y) by nia.
  rewrite (u64_small (n * y)), (u64_small (g + n * y)), (u64_small (L - n)) by (unfold isU64; lia). rewrite le_div_mul by lia.
  destruct (Z.ltb_spec (2 ^ 64 - 1 - (g + n * y)) ((L - n) * 4)) as [H2|H2].
  - rewrite (proj2 (Z.leb_gt _ _)); [done|]. subst cost. lia.
  - rewrite (proj2 (Z.leb_le _ _)) by (subst cost; lia). by rewrite (u64_small ((L - n) * 4)), u64_small by (unfold isU64; lia).
Qed.

Lemma IntrinsicGas_spec_witness :
  IntrinsicGas [7; 0; 9] false true true false = Some 21036.
Proof. rewrite (IntrinsicGas_spec [7; 0; 9] false true true false) by (vm_compute; discriminate). reflexivity. Defined.

(** ** What a message does to the state and the pool *)
Section accounting.
Context `{TB : TrieBackend} `{AC : AccountCodec} `{VS : ValidatorStore}.
Context (evmCall : DB → Address → Address → bytes → Z → Z → evmResult).
Context (evmCreate : DB → Address → bytes → Z → Z → evmResult).
Context (homestead istanbul isStaking : bool) (coinbase : Address).
Notation transition := (TransitionDb evmCall evmCreate homestead istanbul isStaking coinbase).

(** The virtual machine returns no more gas than it was given. *)
Hypothesis call_gas : ∀ s a to d g v, 0 ≤ g → 0 ≤ evGas (evmCall s a to d g v) ≤ g.
Hypothesis create_gas : ∀ s a d g v, 0 ≤ g → 0 ≤ evGas (evmCreate s a d g v) ≤ g.

Lemma GetNonce_state (s : DB) a : (GetNonce s a).2 = (GetBalance s a).2.
Proof. unfold GetNonce, GetBalance, withObject. by destruct (getStateObject s a). Qed.

Lemma sdRun_app (s : DB) ops ops' s' : sdRun s ops = Some s' → sdRun s (ops ++ ops') = sdRun s' ops'.
Proof. unfold sdRun. rewrite foldl_app. by intros ->. Qed.

(** The operations on the state before the virtual machine runs. *)
Definition readsNonce (msg : Message) : list sdOp := if mCheckNonce msg then [OpGetBalance (mFrom msg)] else [].
Definition buys (msg : Message) : list sdOp :=
  readsNonce msg ++ [OpGetBalance (mFrom msg); OpSubBalance (mFrom msg) (mGas msg * mGasPrice msg)].
Definition pays (msg : Message) (n : Z) : list sdOp :=
  buys msg ++ match mTo msg with None => [] | Some _ => [OpGetBalance (mFrom msg); OpSetNonce (mFrom msg) n] end.

Lemma preCheck_ok (st : StateTransition) msg st1 :
  preCheck st msg = (st1, None) →
  (mCheckNonce msg = true → (GetNonce (state st) (mFrom msg)).1 = mNonce msg)
  ∧ mGas msg ≤ gp st ∧ gp st1 = gp st - mGas msg ∧ gas st1 = u64 (gas st + mGas msg) ∧ initialGas st1 = mGas msg
  ∧ sdRun (state st) (buys msg) = Some (state st1).
Proof.
  assert (∀ st0 : StateTransition, buyGas st0 msg = (st1, None) →
    mGas msg ≤ gp st0 ∧ gp st1 = gp st0 - mGas msg ∧ gas st1 = u64 (gas st0 + mGas msg) ∧ initialGas st1 = mGas msg
    ∧ sdRun (state st0) [OpGetBalance (mFrom msg); OpSubBalance (mFrom msg) (mGas msg * mGasPrice msg)] = Some (state st1)) as Hbuy.
  { intros st0 E. unfold buyGas in E. destruct (GetBalance (state st0) (mFrom msg)) as [have s1] eqn:Eg.
    case_match; [done|]. unfold SubGas in E. destruct (Z.ltb_spec (gp st0) (mGas msg)); [done|]. simplify_eq. cbn.
    unfold sdRun. cbn. rewrite Eg. done. }
  unfold preCheck, buys, readsNonce. intros E. destruct (mCheckNonce msg).
  - destruct (GetNonce (state st) (mFrom msg)) as [nonce s1] eqn:En.
    destruct (Z.ltb_spec nonce (mNonce msg)); [done|]. destruct (Z.ltb_spec (mNonce msg) nonce); [done|].
    destruct (Hbuy _ E) as (H1 & H2 & H3 & H4 & H5). cbn in *. split; [intros _; lia|]. split_and!; try done.
    by rewrite <-H5, <-(GetNonce_state (state st)), En.
  - destruct (Hbuy _ E) as (H1 & H2 & H3 & H4 & H5). split; [done|]. split_and!; done.
Qed.

Lemma bumpNonce_run (s : DB) a : ∃ n, sdRun s [OpGetBalance a; OpSetNonce a n] = Some (bumpNonce s a) ∧ n = u64 ((GetNonce s a).1 + 1).
Proof.
  unfold bumpNonce. pose proof (GetNonce_state s a) as Hs. destruct (GetNonce s a) as [n s1]. cbn in *. eexists.
  split; [|done]. unfold sdRun. cbn. by rewrite <-Hs.
Qed.

(** What the virtual machine returns for a message on a state, for some amount of gas. *)
Definition evmRuns (s : DB) (msg : Message) (rv : evmResult) : Prop :=
  ∃ g, rv = match mTo msg with
            | Some to => evmCall s (mFrom msg) to (mData msg) g (mValue msg)
            | None => evmCreate s (mFrom msg) (mData msg) g (mValue msg)
            end.

(** The run of a message that returns a result: the operations before the virtual machine, its
    own, and the refund; with the gas that it leaves. *)
Record ran (s : DB) (pool : Z) msg (st' : StateTransition) (r : ExecutionResult) (s1 s2 : DB) (left : Z) : Prop := {
  ran_pays : ∃ n, sdRun s (pays msg n) = Some s1;
  ran_evm : ∃ rv, evmRuns s1 msg rv ∧ sdRun s1 (evOps rv) = Some s2;
  ran_left : 0 ≤ left ≤ mGas msg;
  ran_used : UsedGas r = mGas msg - left - Z.min ((mGas msg - left) / 2) (refund s2);
  ran_pool : mGas msg ≤ pool ∧ gp st' = pool - UsedGas r;
  ran_final : state st' =
    let s3 := AddBalance s2 (mFrom msg) ((mGas msg - UsedGas r) * mGasPrice msg) in
    if isStaking then s3 else AddBalance s3 coinbase (UsedGas r * mGasPrice msg);
}.

(** The refund counter stays in range through every program. *)
Lemma sdRun_refund (s s' : DB) ops :
  sdInv s → validRevisions s = [] → emptyRootReads (db s) → 0 ≤ refund s → sdRun s ops = Some s' → 0 ≤ refund s'.
Proof.
  intros HI Hv Hd Hr E.
  assert (option_Forall2 simulates (Some s) (Some (start s))) as Hsim%(sim_run ops) by (constructor; by apply sim_start).
  unfold sdRun in E. rewrite E in Hsim. destruct (option_Forall2_from_Some _ _ _ Hsim) as (σ' & Eσ & Hs').
  assert (refund s' = wRefund (now σ')) as -> by apply Hs'.
  set (ok σ := 0 ≤ wRefund (now σ) ∧ Forall (λ p, 0 ≤ wRefund p.2) (saved σ)).
  assert (∀ mσ, (∀ σ, mσ = Some σ → ok σ) → ∀ σ1, foldl (λ mσ op, mσ ≫= λ σ, specStep σ op) mσ ops = Some σ1 → ok σ1) as Hrun.
  { clear. induction ops as [|op ops IH]; intros mσ Hm σ1; cbn; [auto|]. apply IH.
    intros σ (σ0 & Hσ0 & Hst)%bind_Some. destruct (Hm _ Hσ0) as [Hn Hsv]. unfold ok.
    destruct op; cbn in Hst; try (injection Hst as <-; cbn; split; [done|done]); repeat case_match; simplify_eq/=;
      try (split; [done|done]); try (split; [apply u64_range|done]).
    - split; [done|]. apply Forall_app. by repeat constructor.
    - apply bind_Some in Hst as ([i p] & Hf & [= <-]). apply list_find_Some in Hf as (Hp & _ & _).
      split; cbn; [by eapply (Forall_lookup_1 _ _ _ _ Hsv)|by apply Forall_take]. }
  apply (Hrun (Some (start s))); [|done]. intros σ [= <-]. split; [done|constructor].
Qed.

Lemma IntrinsicGas_nonneg data a b c d g : IntrinsicGas data a b c d = Some g → 0 ≤ g.
Proof.
  unfold IntrinsicGas. intros E. destruct data as [|x l].
  - simplify_eq. repeat case_match; done.
  - repeat case_match; simplify_eq; apply u64_range.
Qed.

(** The refund of a transition whose gas is in range. *)
Lemma refundGas_ok (st st' : StateTransition) msg :
  0 ≤ gas st ≤ initialGas st → isU64 (initialGas st) → 0 ≤ refund (state st) → refundGas st msg = Some st' →
  let k := Z.min ((initialGas st - gas st) / 2) (refund (state st)) in
  gp st' = gp st + (gas st + k) ∧ gas st' = gas st + k ∧ initialGas st' = initialGas st ∧ 0 ≤ gas st + k ≤ initialGas st
  ∧ state st' = AddBalance (state st) (mFrom msg) ((gas st + k) * mGasPrice msg).
Proof.
  intros Hg Hi Hr E k. unfold refundGas, gasUsed in E. unfold isU64 in Hi.
  rewrite (u64_small (initialGas st - gas st)) in E by (unfold isU64; lia). fold k in E.
  pose proof (Z.div_mod (initialGas st - gas st) 2 ltac:(lia)). pose proof (Z.mod_pos_bound (initialGas st - gas st) 2 ltac:(lia)).
  assert (0 ≤ k ∧ gas st + k ≤ initialGas st) as [Hk1 Hk2] by lia.
  rewrite u64_small in E by (unfold isU64; lia). unfold AddGas in E. case_match; simplify_eq/=. split_and!; done || lia.
Qed.

Lemma TransitionDb_ran (s : DB) pool msg st' r :
  sdInv s → validRevisions s = [] → emptyRootReads (db s) → 0 ≤ refund s → isU64 (mGas msg) →
  transition (NewStateTransition s pool) msg = Some (st', inr r) →
  ∃ s1 s2 left, ran s pool msg st' r s1 s2 left.
Proof.
  intros HI Hv Hd Hr0 Hg E. unfold TransitionDb in E.
  destruct (preCheck (NewStateTransition s pool) msg) as [st1 [e|]] eqn:Ep; [by simplify_eq|].
  destruct (preCheck_ok _ _ _ Ep) as (_ & Hpool & Hgp & Hgas & Hini & Hrun). cbn in Hpool, Hgp, Hgas, Hrun.
  rewrite u64_small in Hgas by done.
  destruct (IntrinsicGas _ _ _ _ _) as [ig|] eqn:Ei; [|by simplify_eq]. apply IntrinsicGas_nonneg in Ei.
  destruct (useGas st1 ig) as [st2|] eqn:Eu; [|by simplify_eq].
  unfold useGas in Eu. destruct (Z.ltb_spec (gas st1) ig) as [|Hig]; [done|]. simplify_eq.
  destruct (runEVM evmCall evmCreate _ msg) as [s2 rv] eqn:Er. apply bind_Some in E as (s3 & Hevm & E).
  assert (0 ≤ evGas rv ≤ mGas msg ∧ (∃ n, sdRun s (pays msg n) = Some s2) ∧ evmRuns s2 msg rv) as (Hleft & Hpays & Hruns).
  { unfold runEVM in Er. unfold pays, evmRuns. cbn in Er. destruct (mTo msg) as [to|]; simplify_eq.
    - pose proof (call_gas (bumpNonce (state st1) (mFrom msg)) (mFrom msg) to (mData msg) (gas st1 - ig) (mValue msg) ltac:(lia)) as Hc.
      split; [lia|]. split; [|eauto]. destruct (bumpNonce_run (state st1) (mFrom msg)) as (n & Hn & _).
      exists n. by rewrite (sdRun_app _ _ _ _ Hrun).
    - pose proof (create_gas (state st1) (mFrom msg) (mData msg) (gas st1 - ig) (mValue msg) ltac:(lia)) as Hc.
      split; [lia|]. split; [|eauto]. exists 0. by rewrite app_nil_r. }
  case_match; [by simplify_eq|]. apply bind_Some in E as (st4 & Erf & E).
  assert (0 ≤ refund s3) as Hrf.
  { destruct Hpays as [n Hpays]. pose proof (sdRun_app _ _ (evOps rv) _ Hpays) as Hall. rewrite Hevm in Hall.
    by eapply sdRun_refund. }
  apply refundGas_ok in Erf as (Hgp4 & Hgas4 & Hi4 & Hb4 & Hs4); [|cbn; lia|cbn; by rewrite Hini|done].
  cbn in Hgp4, Hgas4, Hi4, Hb4, Hs4. rewrite Hini in *.
  assert (gasUsed st4 = mGas msg - gas st4) as Hu.
  { unfold gasUsed. rewrite Hi4. apply u64_small. unfold isU64 in *. lia. }
  exists s2, s3, (evGas rv). 
  assert (UsedGas r = mGas msg - gas st4 ∧ gp st' = gp st4 ∧ state st' = if isStaking then state st4
    else AddBalance (state st4) coinbase ((mGas msg - gas st4) * mGasPrice msg)) as (HU & HG & HS).
  { destruct isStaking; simplify_eq; cbn; rewrite ?Hu; split_and!; try done; unfold gasUsed; cbn; by rewrite ?Hu. }
  constructor; [done|eauto|done| | |].
  - rewrite HU, Hgas4. lia.
  - rewrite HU, HG, Hgp4, Hgas4, Hgp. split; [done|lia].
  - rewrite HS, HU, Hs4, Hgas4. replace (mGas msg - (mGas msg - _)) with (evGas rv + Z.min ((mGas msg - evGas rv) / 2) (refund s3)) by lia.
    done.
Qed.

(** Balances through the programs before and after the virtual machine. *)
Lemma balanceOf_nonce w a n b :
  balanceOf (write w a (setNon n)) b = balanceOf w b ∧ frozenAt (write w a (setNon n)) b = frozenAt w b.
Proof.
  unfold write, balanceOf, frozenAt, orBlank. destruct (live w a) as [x|] eqn:E; simpl.
  - pose proof (live_deleted _ _ _ E) as Hd. destruct (aFrozen x) eqn:Hf; rewrite live_put by done;
      case_decide; subst; rewrite ?E; simpl; rewrite ?Hf; done.
  - rewrite live_put by done. case_decide; subst; rewrite ?E; done.
Qed.

(** A program from a database without snapshots: what it leads to denotes what the
    specification computes. *)
Lemma run_spec (s s' : DB) ops :
  sdInv s → validRevisions s = [] → emptyRootReads (db s) → sdRun s ops = Some s' →
  ∃ σ, specRun (start s) ops = Some σ ∧ abs s' ≡ now σ ∧ sdInv s' ∧ emptyRootReads (db s').
Proof.
  intros HI Hv Hd E.
  assert (option_Forall2 simulates (Some s) (Some (start s))) as Hsim%(sim_run ops) by (constructor; by apply sim_start).
  unfold sdRun in E. rewrite E in Hsim. destruct (option_Forall2_from_Some _ _ _ Hsim) as (σ' & Eσ & []). eauto.
Qed.

Lemma pays_balance (s s1 : DB) msg n :
  sdInv s → validRevisions s = [] → emptyRootReads (db s) → sdRun s (pays msg n) = Some s1 →
  balanceOf (abs s1) (mFrom msg) =
    balanceOf (abs s) (mFrom msg) - (if frozenAt (abs s) (mFrom msg) then 0 else mGas msg * mGasPrice msg)
  ∧ frozenAt (abs s1) (mFrom msg) = frozenAt (abs s) (mFrom msg).
Proof.
  intros HI Hv Hd E. destruct (run_spec _ _ _ HI Hv Hd E) as (σ & Hσ & Ha & _).
  destruct (balanceOf_proper _ _ (mFrom msg) Ha) as [-> ->]. set (v := mGas msg * mGasPrice msg) in *.
  set (w := write (abs s) (mFrom msg) (λ y, setBal (aBalance y - v) y)).
  assert (now σ = match mTo msg with None => w | Some _ => write w (mFrom msg) (setNon n) end) as ->.
  { unfold specRun, pays, buys, readsNonce in Hσ. fold v in Hσ.
    destruct (mCheckNonce msg), (mTo msg); cbn in Hσ; by injection Hσ as <-. }
  destruct (balanceOf_write (abs s) (mFrom msg) (mFrom msg) (- v)) as [Hb Hf]. rewrite decide_True in Hb by done.
  assert (w = write (abs s) (mFrom msg) (λ y, setBal (aBalance y + - v) y)) as Hw by done.
  destruct (mTo msg); [destruct (balanceOf_nonce w (mFrom msg) n (mFrom msg)) as [-> ->]|]; rewrite Hw, Hb, Hf;
    destruct (frozenAt (abs s) (mFrom msg)); split; lia || done.
Qed.

(** C25: A message that returns a result pays for the gas it used: the pool of the block loses
    exactly that, the sender is charged for the whole limit before the virtual machine runs and
    credited for the rest afterwards, each unless it is frozen at that moment. *)
Theorem TransitionDb_charges (s : DB) pool msg st' r :
  sdInv s → validRevisions s = [] → emptyRootReads (db s) → 0 ≤ refund s → isU64 (mGas msg) →
  isStaking = true ∨ coinbase ≠ mFrom msg →
  transition (NewStateTransition s pool) msg = Some (st', inr r) →
  0 ≤ UsedGas r ≤ mGas msg ∧ gp st' = pool - UsedGas r ∧
  ∃ s1 s2 rv, evmRuns s1 msg rv ∧ sdRun s1 (evOps rv) = Some s2
    ∧ balanceOf (abs s1) (mFrom msg) =
        balanceOf (abs s) (mFrom msg) - (if frozenAt (abs s) (mFrom msg) then 0 else mGas msg * mGasPrice msg)
    ∧ balanceOf (abs (state st')) (mFrom msg) =
        balanceOf (abs s2) (mFrom msg) + (if frozenAt (abs s2) (mFrom msg) then 0 else (mGas msg - UsedGas r) * mGasPrice msg).
Proof.
  intros HI Hv Hd Hr0 Hg Hcb E.
  destruct (TransitionDb_ran s pool msg st' r HI Hv Hd Hr0 Hg E) as (s1 & s2 & left & [[n Hp] (rv & Hrv & Hev) Hl Hu [_ Hpool] Hfin]).
  assert (0 ≤ refund s2) as Hr2.
  { pose proof (sdRun_app _ _ (evOps rv) _ Hp) as Hall. rewrite Hev in Hall. by eapply sdRun_refund. }
  split; [pose proof (Z.div_mod (mGas msg - left) 2 ltac:(lia)); pose proof (Z.mod_pos_bound (mGas msg - left) 2 ltac:(lia)); lia|].
  split; [done|]. exists s1, s2, rv. split; [done|split; [done|split; [by apply (pays_balance s s1 msg n)|]]].
  pose proof (sdRun_app _ _ (evOps rv) _ Hp) as Hall. rewrite Hev in Hall.
  destruct (run_spec _ _ _ HI Hv Hd Hall) as (σ & _ & _ & HI2 & Hd2).
  destruct (AddBalance_balances s2 (mFrom msg) (mFrom msg) ((mGas msg - UsedGas r) * mGasPrice msg) HI2 Hd2) as [Hb _].
  rewrite decide_True in Hb by done. rewrite Hfin. destruct isStaking; [done|]. destruct Hcb as [|Hcb]; [done|].
  set (s3 := AddBalance s2 (mFrom msg) _) in *.
  assert (sdRun s2 [OpAddBalance (mFrom msg) ((mGas msg - UsedGas r) * mGasPrice msg)] = Some s3) as H3 by done.
  destruct (sdStep_stepped s2 (OpAddBalance (mFrom msg) ((mGas msg - UsedGas r) * mGasPrice msg)) s3 HI2) as [es Hst]; [done|done|done|].
  destruct (AddBalance_balances s3 coinbase (mFrom msg) (UsedGas r * mGasPrice msg) (st_inv _ _ _ Hst)) as [Hb3 _].
  { pose proof (sdRun_app _ _ [OpAddBalance (mFrom msg) ((mGas msg - UsedGas r) * mGasPrice msg)] _ Hall) as Hall3. rewrite H3 in Hall3.
    by destruct (run_spec _ _ _ HI Hv Hd Hall3) as (_ & _ & _ & _ & ?). }
  rewrite decide_False in Hb3 by done. cbn in *. lia.
Qed.

(** *** The checks *)
Definition nonceOf (w : world) (a : Address) : Z := default 0 (aNonce <$> live w a).

Lemma getNonce_value (s : DB) a : (GetNonce s a).1 = nonceOf (abs s) a.
Proof. destruct (getters_read s a 0) as (_ & _ & H & _). exact H. Qed.
Lemma getBalance_value (s : DB) a : (GetBalance s a).1 = balanceOf (abs s) a.
Proof. destruct (getters_read s a 0) as (_ & H & _). exact H. Qed.
Lemma getBalance_abs (s : DB) a : abs (GetBalance s a).2 ≡ abs s.
Proof.
  unfold GetBalance, withObject. destruct (getStateObject_spec s a) as (s1 & -> & Hro & _). cbn.
  by apply abs_eqv, ro_eqv.
Qed.

(** The error of a message that does not pass the checks. *)
Definition checkError (s : DB) (pool : Z) (msg : Message) : option txError :=
  let nonce := nonceOf (abs s) (mFrom msg) in
  if mCheckNonce msg && (nonce <? mNonce msg) then Some ErrNonceTooHigh
  else if mCheckNonce msg && (mNonce msg <? nonce) then Some ErrNonceTooLow
  else if balanceOf (abs s) (mFrom msg) <? mGas msg * mGasPrice msg then Some errInsufficientBalanceForGas
  else if pool <? mGas msg then Some ErrGasLimitReached
  else None.

(** [preCheck] reports exactly the first violated condition, and a message that it rejects
    changes neither the accounts nor the pool. *)
Theorem preCheck_spec (s : DB) pool msg :
  let '(st1, e) := preCheck (NewStateTransition s pool) msg in
  e = checkError s pool msg ∧ (e ≠ None → abs (state st1) ≡ abs s ∧ gp st1 = pool ∧ gas st1 = 0).
Proof.
  assert (∀ s0 : DB, abs s0 ≡ abs s →
    let '(st1, e) := buyGas (NewStateTransition s0 pool) msg in
    e = (if balanceOf (abs s) (mFrom msg) <? mGas msg * mGasPrice msg then Some errInsufficientBalanceForGas
         else if pool <? mGas msg then Some ErrGasLimitReached else None)
    ∧ (e ≠ None → abs (state st1) ≡ abs s ∧ gp st1 = pool ∧ gas st1 = 0)) as Hbuy.
  { intros s0 H0. unfold buyGas. cbn [NewStateTransition state gp gas]. pose proof (getBalance_value s0 (mFrom msg)) as Hv.
    pose proof (getBalance_abs s0 (mFrom msg)) as Ha. destruct (GetBalance s0 (mFrom msg)) as [have s1]. cbn [fst snd] in *.
    destruct (balanceOf_proper _ _ (mFrom msg) H0) as [Hb _]. rewrite Hv, Hb.
    assert (abs s1 ≡ abs s) as H1 by (by rewrite Ha).
    destruct (balanceOf (abs s) (mFrom msg) <? mGas msg * mGasPrice msg); [done|].
    unfold SubGas. cbn [setState state gp]. by destruct (pool <? mGas msg). }
  unfold preCheck, checkError. destruct (mCheckNonce msg); cbn [andb]; [|by apply (Hbuy s)].
  cbn [NewStateTransition state gp gas]. pose proof (getNonce_value s (mFrom msg)) as Hv. pose proof (GetNonce_state s (mFrom msg)) as Hs.
  pose proof (getBalance_abs s (mFrom msg)) as Ha. rewrite <-Hs in Ha.
  destruct (GetNonce s (mFrom msg)) as [nonce s1]. cbn [fst snd] in *. rewrite Hv.
  destruct (nonceOf _ _ <? mNonce msg); [done|]. destruct (mNonce msg <? nonceOf _ _); [done|]. by apply (Hbuy s1).
Qed.

(** C33: A frozen sender pays nothing and its nonce stays: after a message of a frozen account went
    through, whatever the virtual machine did short of thawing, recreating or destructing the
    sender, the same message passes every check again. *)
Theorem frozen_sender_replays (s : DB) pool msg st' r x :
  sdInv s → validRevisions s = [] → emptyRootReads (db s) → 0 ≤ refund s → isU64 (mGas msg) →
  live (abs s) (mFrom msg) = Some x → aFrozen x = true →
  (∀ s1 rv, evmRuns s1 msg rv → Forall (λ op, ¬ unrestricted op (mFrom msg)) (evOps rv)) →
  transition (NewStateTransition s pool) msg = Some (st', inr r) →
  balanceOf (abs (state st')) (mFrom msg) = balanceOf (abs s) (mFrom msg) ∧
  ∀ pool', mGas msg ≤ pool' → ∃ st'', preCheck (NewStateTransition (state st') pool') msg = (st'', None).
Proof.
  intros HI Hv Hd Hr0 Hg Hx Hfr Hops E.
  destruct (TransitionDb_ran s pool msg st' r HI Hv Hd Hr0 Hg E) as (s1 & s2 & left & [[n Hp] (rv & Hrv & Hev) _ _ _ Hfin]).
  set (post := OpAddBalance (mFrom msg) ((mGas msg - UsedGas r) * mGasPrice msg)
               :: (if isStaking then [] else [OpAddBalance coinbase (UsedGas r * mGasPrice msg)])).
  assert (sdRun s (pays msg n ++ evOps rv ++ post) = Some (state st')) as Hrun.
  { rewrite (sdRun_app _ _ _ _ Hp), (sdRun_app _ _ _ _ Hev), Hfin. unfold post, sdRun. by destruct isStaking. }
  assert (Forall (λ op, ¬ unrestricted op (mFrom msg)) (pays msg n ++ evOps rv ++ post)) as Hall.
  { apply Forall_app. split.
    - unfold pays, buys, readsNonce. destruct (mCheckNonce msg), (mTo msg); cbn; repeat constructor; auto.
    - apply Forall_app. split; [by apply (Hops s1)|]. unfold post. destruct isStaking; repeat constructor; auto. }
  destruct (frozen_run s _ (state st') (mFrom msg) x HI Hv Hd Hx Hfr Hall Hrun) as (y & Hy & Hn & Hb & _).
  assert (balanceOf (abs (state st')) (mFrom msg) = balanceOf (abs s) (mFrom msg)) as Hbal
    by (unfold balanceOf; rewrite Hy, Hx; cbn; done).
  split; [done|]. intros pool' Hpool.
  pose proof (preCheck_spec (state st') pool' msg) as Hpre. pose proof (preCheck_spec s pool msg) as Hpre0.
  assert ((preCheck (NewStateTransition s pool) msg).2 = None) as Hok.
  { unfold TransitionDb in E. by destruct (preCheck (NewStateTransition s pool) msg) as [? []]; simplify_eq. }
  destruct (preCheck (NewStateTransition s pool) msg) as [st1 e1]. cbn in Hok. subst e1. destruct Hpre0 as [Hce _].
  destruct (preCheck (NewStateTransition (state st') pool') msg) as [st2 e2]. exists st2. destruct Hpre as [-> _]. f_equal.
  revert Hce. unfold checkError. rewrite Hbal. unfold nonceOf. rewrite Hy, Hx. cbn. rewrite Hn.
  rewrite (proj2 (Z.ltb_ge pool' (mGas msg)) Hpool). clear. repeat case_match; done.
Qed.
End accounting.

(** ** Concrete runs *)
#[local] Existing Instances mapTrie demoCodec demoValidators.

(** A machine that moves the value and uses 100 gas. *)
Definition demoCall (s : DB) (from to : Address) (d : bytes) (g v : Z) : evmResult :=
  if g <? 100 then mkEvmResult [] 0 (Some OtherVMError) []
  else mkEvmResult [1] (g - 100) None [OpSubBalance from v; OpAddBalance to v].
Definition demoCreate (s : DB) (from : Address) (d : bytes) (g v : Z) : evmResult := mkEvmResult [] 0 (Some OtherVMError) [].

Lemma demoCall_gas s a to d g v : 0 ≤ g → 0 ≤ evGas (demoCall s a to d g v) ≤ g.
Proof. unfold demoCall. destruct (Z.ltb_spec g 100); cbn; lia. Qed.
Lemma demoCreate_gas s a d g v : 0 ≤ g → 0 ≤ evGas (demoCreate s a d g v) ≤ g.
Proof. cbn. lia. Qed.

Definition richDB : DB := AddBalance demoDB 1 99900.
Definition coldDB : DB := SetFreezeState richDB 1 true.
Definition demoMsg : Message := mkMessage 1 (Some 2) 3 22000 7 5 true [].
Definition demoTransition := TransitionDb demoCall demoCreate true true true 9.

Lemma rich_inv : sdInv richDB ∧ validRevisions richDB = [] ∧ emptyRootReads (db richDB).
Proof.
  destruct demo_inv as [HI Hv].
  destruct (run_spec demoDB richDB [OpAddBalance 1 99900] HI Hv demo_emptyRoot eq_refl) as (_ & _ & _ & ? & ?). done.
Qed.
Lemma cold_inv : sdInv coldDB ∧ validRevisions coldDB = [] ∧ emptyRootReads (db coldDB).
Proof.
  destruct rich_inv as (HI & Hv & Hd).
  destruct (run_spec richDB coldDB [OpSetFreezeState 1 true] HI Hv Hd eq_refl) as (_ & _ & _ & ? & ?). done.
Qed.

Definition usedGas (o : option (StateTransition * (txError + ExecutionResult))) : option Z :=
  match o with Some (_, inr r) => Some (UsedGas r) | _ => None end.
Lemma rich_used : usedGas (demoTransition (NewStateTransition richDB 50000) demoMsg) = Some 21100.
Proof. vm_compute. reflexivity. Qed.
Lemma cold_used : usedGas (demoTransition (NewStateTransition coldDB 50000) demoMsg) = Some 21100.
Proof. vm_compute. reflexivity. Qed.

Lemma TransitionDb_charges_witness :
  ∃ st r, demoTransition (NewStateTransition richDB 50000) demoMsg = Some (st, inr r)
    ∧ UsedGas r = 21100 ∧ gp st = 28900.
Proof.
  destruct rich_inv as (HI & Hv & Hd).
  pose proof rich_used as Hu.
  destruct (demoTransition (NewStateTransition richDB 50000) demoMsg) as [[st [e|r]]|] eqn:E;
    cbn [usedGas] in Hu; [discriminate Hu| |discriminate Hu]. injection Hu as Hu.
  exists st, r.
  split; [reflexivity|split; [exact Hu|]].
  destruct (TransitionDb_charges demoCall demoCreate true true true 9 demoCall_gas demoCreate_gas richDB 50000 demoMsg st r
    HI Hv Hd) as (_ & Hp & _); [vm_compute; discriminate|split; [vm_compute; discriminate|reflexivity]|left; reflexivity|exact E|].
  rewrite Hp, Hu. reflexivity.
Defined.

Lemma cold_live : ∃ x, live (abs coldDB) 1 = Some x ∧ aFrozen x = true.
Proof. rewrite live_abs. eexists. split; [vm_compute; reflexivity|done]. Qed.

Lemma frozen_sender_replays_witness :
  ∃ st r, demoTransition (NewStateTransition coldDB 50000) demoMsg = Some (st, inr r)
    ∧ balanceOf (abs (state st)) 1 = balanceOf (abs coldDB) 1
    ∧ ∃ st', preCheck (NewStateTransition (state st) 22000) demoMsg = (st', None).
Proof.
  destruct cold_inv as (HI & Hv & Hd). destruct cold_live as (x & Hx & Hf).
  pose proof cold_used as Hu.
  destruct (demoTransition (NewStateTransition coldDB 50000) demoMsg) as [[st [e|r]]|] eqn:E;
    cbn [usedGas] in Hu; [discriminate Hu| |discriminate Hu]. clear Hu.
  exists st, r. split; [reflexivity|].
  destruct (frozen_sender_replays demoCall demoCreate true true true 9 demoCall_gas demoCreate_gas coldDB 50000 demoMsg st r x
    HI Hv Hd) as (Hb & Hp); [vm_compute; discriminate|split; [vm_compute; discriminate|reflexivity]|exact Hx|exact Hf| |exact E|].
  - intros s1 rv (g & ->). cbn. unfold demoCall. destruct (g <? 100); cbn; repeat constructor; intros [].
  - split; [exact Hb|]. apply Hp. vm_compute. discriminate.
Defined.
