(* ===== verification/TxList.v ===== *)
(** * The lists of the transaction pool (core/tx_list.go)

    The transaction pool keeps the transactions of every account in a map from nonces to
    transactions, with a heap of the nonces (container/heap) and, when it was asked for, the
    sorted list.  The heap operations are those of the Go library on a slice; an index outside of
    it would panic, which the invariant excludes.  Go iterates the map in any order: the order is
    an argument of the functions that do.  The price-sorted list of all transactions is a second
    heap, next to the lookup of the pool. *)

From Stdlib Require Import ZArith Lia Sorted.
From stdpp Require Import base gmap list option sets sorting.
From S2P Require Import Prelude.
Local Open Scope Z_scope.

(** ** container/heap *)
Module Heap.
Section heap.
Context {A : Type} (less : A → A → bool).

Definition lessAt (h : list A) (i j : nat) : bool := match h !! i, h !! j with Some x, Some y => less x y | _, _ => false end.
Definition swap (h : list A) (i j : nat) : list A := match h !! i, h !! j with Some x, Some y => <[i := y]> (<[j := x]> h) | _, _ => h end.
Definition parent (j : nat) : nat := ((j - 1) / 2)%nat.

(** Every round lowers [j]; [j + 1] rounds are enough. *)
Fixpoint upLoop (fuel : nat) (h : list A) (j : nat) : list A :=
  match fuel with
  | O => h
  | S fuel =>
      let i := parent j in
      if (i =? j)%nat || negb (lessAt h j i) then h else upLoop fuel (swap h i j) i
  end.
Definition up (h : list A) (j : nat) : list A := upLoop (S j) h j.

(** The slice and the index where the element ends; every round raises [i], which stays below
    [n]. *)
Fixpoint downLoop (fuel : nat) (h : list A) (i n : nat) : list A * nat :=
  match fuel with
  | O => (h, i)
  | S fuel =>
      let j1 := (2 * i + 1)%nat in
      if (n <=? j1)%nat then (h, i)
      else
        let j2 := (j1 + 1)%nat in
        let j := if (j2 <? n)%nat && lessAt h j2 j1 then j2 else j1 in
        if negb (lessAt h j i) then (h, i) else downLoop fuel (swap h i j) j n
  end.
Definition down (h : list A) (i0 n : nat) : list A * bool := let '(h', i) := downLoop (S n) h i0 n in (h', (i0 <? i)%nat).

Definition Push (h : list A) (x : A) : list A := up (h ++ [x]) (length h).

(** The [Pop] of the slice: its last element. *)
Definition popLast (h : list A) : option (A * list A) := x ← last h; Some (x, take (length h - 1) h).

Definition Pop (h : list A) : option (A * list A) :=
  let n := (length h - 1)%nat in popLast (down (swap h 0 n) 0 n).1.

Definition removeAt (h : list A) (i : nat) : option (A * list A) :=
  let n := (length h - 1)%nat in
  popLast (if (n =? i)%nat then h
           else let '(h', moved) := down (swap h i n) i n in if moved then h' else up h' i).

(** The loop from [n/2 - 1] down to 0; [k] elements are left. *)
Fixpoint initLoop (h : list A) (k n : nat) : list A := match k with O => h | S k => initLoop (down h k n).1 k n end.
Definition Init (h : list A) : list A := initLoop h (length h / 2)%nat (length h).
End heap.
End Heap.

(** ** Transactions *)

(** What the pool reads of a transaction: [Cost] and [SenderAddress] can fail; [ptDirective] is
    the kind of a staking transaction. *)
Record PoolTransaction := mkPoolTx {
  ptNonce : Z; ptGasPrice : Z; ptGasLimit : Z; ptCost : option Z; ptHash : Hash; ptStaking : bool; ptSender : option Address;
  ptTo : option Address; ptShardID : Z; ptSize : Z; ptValue : Z; ptData : bytes; ptDirective : Z }.
#[global] Instance PoolTransaction_inhabited : Inhabited PoolTransaction := populate (mkPoolTx 0 0 0 None 0 false None None 0 0 0 [] 0).
#[global] Instance PoolTransaction_eq_dec : EqDecision PoolTransaction.
Proof. solve_decision. Defined.

(** ** [txSortedMap] *)

(** [cache] is [None] when it is nil. *)
Record txSortedMap := mkSortedMap { items : gmap Z PoolTransaction; index : list Z; cache : option (list PoolTransaction) }.
Definition newTxSortedMap : txSortedMap := mkSortedMap ∅ [] None.

Definition smGet (m : txSortedMap) (nonce : Z) : option PoolTransaction := items m !! nonce.

Definition smPut (m : txSortedMap) (tx : PoolTransaction) : txSortedMap :=
  let nonce := ptNonce tx in
  mkSortedMap (<[nonce := tx]> (items m)) (match items m !! nonce with None => Heap.Push Z.ltb (index m) nonce | Some _ => index m end) None.

(** The loop of [Forward]; [None] is a nil transaction or an empty heap, which do not occur. *)
Fixpoint forwardLoop (fuel : nat) (threshold : Z) (its : gmap Z PoolTransaction) (idx : list Z) (removed : list PoolTransaction)
    : option (list PoolTransaction * gmap Z PoolTransaction * list Z) :=
  match fuel, idx with
  | S fuel, first :: _ =>
      if first <? threshold then
        '(nonce, idx') ← Heap.Pop Z.ltb idx;
        tx ← its !! nonce;
        forwardLoop fuel threshold (delete nonce its) idx' (removed ++ [tx])
      else Some (removed, its, idx)
  | _, _ => Some (removed, its, idx)
  end.

(** A slice of the cache, which panics out of its range. *)
Definition sliceFrom (n : nat) (c : list PoolTransaction) : option (list PoolTransaction) := if (n <=? length c)%nat then Some (drop n c) else None.

Definition smForward (m : txSortedMap) (threshold : Z) : option (list PoolTransaction * txSortedMap) :=
  '(removed, its, idx) ← forwardLoop (length (index m)) threshold (items m) (index m) [];
  match cache m with
  | None => Some (removed, mkSortedMap its idx None)
  | Some c => c' ← sliceFrom (length removed) c; Some (removed, mkSortedMap its idx (Some c'))
  end.

Definition smLen (m : txSortedMap) : nat := size (items m).

(** [sort.Sort] of nonces and of transactions by nonce. *)
Definition sortNonces (l : list Z) : list Z := merge_sort Z.le l.
Definition byNonce (a b : PoolTransaction) : Prop := ptNonce a ≤ ptNonce b.
#[global] Instance byNonce_dec a b : Decision (byNonce a b).
Proof. unfold byNonce. apply _. Defined.

(** The loop of [Cap], over the nonces above the threshold from the highest on. *)
Fixpoint capLoop (its : gmap Z PoolTransaction) (nonces : list Z) (drops : list PoolTransaction) : option (list PoolTransaction * gmap Z PoolTransaction) :=
  match nonces with
  | [] => Some (drops, its)
  | n :: rest => tx ← its !! n; capLoop (delete n its) rest (drops ++ [tx])
  end.

Definition smCap (m : txSortedMap) (threshold : nat) : option (list PoolTransaction * txSortedMap) :=
  if (size (items m) <=? threshold)%nat then Some ([], m)
  else
    let sorted := sortNonces (index m) in
    '(drops, its) ← capLoop (items m) (reverse (drop threshold (take (size (items m)) sorted))) [];
    let idx := Heap.Init Z.ltb (take threshold sorted) in
    match cache m with
    | None => Some (drops, mkSortedMap its idx None)
    | Some c => if (length drops <=? length c)%nat then Some (drops, mkSortedMap its idx (Some (take (length c - length drops) c))) else None
    end.

Definition smRemove (m : txSortedMap) (nonce : Z) : option (bool * txSortedMap) :=
  match items m !! nonce with
  | None => Some (false, m)
  | Some _ =>
      idx ← (match list_find (λ n, n = nonce) (index m) with
             | Some (i, _) => snd <$> Heap.removeAt Z.ltb (index m) i
             | None => Some (index m)
             end);
      Some (true, mkSortedMap (delete nonce (items m)) idx None)
  end.

Fixpoint readyLoop (fuel : nat) (next : Z) (its : gmap Z PoolTransaction) (idx : list Z) (ready : list PoolTransaction)
    : option (list PoolTransaction * gmap Z PoolTransaction * list Z) :=
  match fuel, idx with
  | S fuel, first :: _ =>
      if first =? next then
        tx ← its !! next;
        '(_, idx') ← Heap.Pop Z.ltb idx;
        readyLoop fuel (u64 (next + 1)) (delete next its) idx' (ready ++ [tx])
      else Some (ready, its, idx)
  | _, _ => Some (ready, its, idx)
  end.

Definition smReady (m : txSortedMap) (start : Z) : option (list PoolTransaction * txSortedMap) :=
  match index m with
  | [] => Some ([], m)
  | first :: _ =>
      if start <? first then Some ([], m)
      else '(ready, its, idx) ← readyLoop (length (index m)) first (items m) (index m) []; Some (ready, mkSortedMap its idx None)
  end.

Section iteration.
(** The order in which a map is iterated. *)
Context (order : gmap Z PoolTransaction → list (Z * PoolTransaction)).

Definition rebuilt (m : txSortedMap) (removed : list PoolTransaction) (its : gmap Z PoolTransaction) : txSortedMap :=
  match removed with [] => mkSortedMap its (index m) (cache m) | _ => mkSortedMap its (Heap.Init Z.ltb (order its).*1) None end.

Definition smFilter (m : txSortedMap) (f : PoolTransaction → bool) : list PoolTransaction * txSortedMap :=
  let removed := List.filter f (order (items m)).*2 in
  (removed, rebuilt m removed (filter (λ kv, f kv.2 = false) (items m))).

(** The removed transactions with their errors. *)
Definition smFilterWithError {Er} (m : txSortedMap) (f : PoolTransaction → option Er) : list PoolTransaction * list Er * txSortedMap :=
  let removed := List.filter (λ tx, bool_decide (is_Some (f tx))) (order (items m)).*2 in
  (removed, omap f (order (items m)).*2, rebuilt m removed (filter (λ kv, f kv.2 = None) (items m))).

Definition smFlatten (m : txSortedMap) : list PoolTransaction * txSortedMap :=
  let c := match cache m with Some c => c | None => merge_sort byNonce (order (items m)).*2 end in
  (c, mkSortedMap (items m) (index m) (Some c)).

(** ** [txList] *)
Record txList := mkTxList { strict : bool; txs : txSortedMap; lastStkCheck : Z; costcap : Z; gascap : Z }.
Definition newTxList (s : bool) : txList := mkTxList s newTxSortedMap 0 0 0.
Definition withTxs (l : txList) (m : txSortedMap) : txList := mkTxList (strict l) m (lastStkCheck l) (costcap l) (gascap l).

Definition Overlaps (l : txList) (tx : PoolTransaction) : bool := match smGet (txs l) (ptNonce tx) with Some _ => true | None => false end.

(** Whether the transaction was added, and the one it replaced. *)
Definition Add (l : txList) (tx : PoolTransaction) (priceBump : Z) : bool * option PoolTransaction * txList :=
  let old := smGet (txs l) (ptNonce tx) in
  let better := match old with
                | Some o => let threshold := ptGasPrice o * i64 (100 + i64 priceBump) / 100 in
                            (ptGasPrice tx <=? ptGasPrice o) || (ptGasPrice tx <? threshold)
                | None => false
                end in
  if better then (false, None, l)
  else match ptCost tx with
       | None => (false, None, l)
       | Some cost =>
           (true, old, mkTxList (strict l) (smPut (txs l) tx) (lastStkCheck l)
                         (if costcap l <? cost then cost else costcap l) (if gascap l <? ptGasLimit tx then ptGasLimit tx else gascap l))
       end.

Definition Forward (l : txList) (threshold : Z) : option (list PoolTransaction * txList) :=
  '(removed, m) ← smForward (txs l) threshold; Some (removed, withTxs l m).
Definition Cap (l : txList) (threshold : nat) : option (list PoolTransaction * txList) :=
  '(drops, m) ← smCap (txs l) threshold; Some (drops, withTxs l m).
Definition Ready (l : txList) (start : Z) : option (list PoolTransaction * txList) :=
  '(ready, m) ← smReady (txs l) start; Some (ready, withTxs l m).
Definition Len (l : txList) : nat := smLen (txs l).
Definition Empty (l : txList) : bool := (Len l =? 0)%nat.
Definition Flatten (l : txList) : list PoolTransaction * txList := let '(c, m) := smFlatten (txs l) in (c, withTxs l m).

Definition Remove (l : txList) (tx : PoolTransaction) : option (bool * list PoolTransaction * txList) :=
  let nonce := ptNonce tx in
  '(removed, m) ← smRemove (txs l) nonce;
  if negb removed then Some (false, [], l)
  else if strict l then let '(invalids, m') := smFilter m (λ t, nonce <? ptNonce t) in Some (true, invalids, withTxs l m')
  else Some (true, [], withTxs l m).

Inductive poolError := errCost | errNotEnoughBalance | errMaxGas | errStaking (e : Z).

(** The filter of [filterPrice]. *)
Definition priceError (costLimit gasLimit : Z) (tx : PoolTransaction) : option poolError :=
  match ptCost tx with
  | None => Some errCost
  | Some cost => if costLimit <? cost then Some errNotEnoughBalance else if gasLimit <? ptGasLimit tx then Some errMaxGas else None
  end.

(** The pool is its balance of the account, [costLimit], and its [currentMaxGas]. *)
Definition filterPrice (l : txList) (costLimit gasLimit : Z) : list PoolTransaction * list poolError * txList :=
  if (costcap l <=? costLimit) && (gascap l <=? gasLimit) then ([], [], l)
  else
    let '(removed, errs, m) := smFilterWithError (txs l) (priceError costLimit gasLimit) in
    (removed, errs, mkTxList (strict l) m (lastStkCheck l) costLimit gasLimit).

Definition filterStaking (l : txList) (validateStakingTx : PoolTransaction → option Z) : list PoolTransaction * list poolError * txList :=
  let '(removed, errs, m) := smFilterWithError (txs l) (λ tx, if ptStaking tx then errStaking <$> validateStakingTx tx else None) in
  (removed, errs, withTxs l m).

Definition stakingTxCheckThreshold : Z := 10.
Definition maxUint64 : Z := 2 ^ 64 - 1.

Definition FilterValid (l : txList) (costLimit gasLimit : Z) (validateStakingTx : PoolTransaction → option Z) (bn : Z)
    : list PoolTransaction * list poolError * list PoolTransaction * txList :=
  let '(removed1, errs1, l1) := filterPrice l costLimit gasLimit in
  let '(removed, errs, l2) :=
    if u64 (lastStkCheck l1 + stakingTxCheckThreshold) <=? bn then
      let l1' := mkTxList (strict l1) (txs l1) bn (costcap l1) (gascap l1) in
      let '(stkRemoved, errRemoved, l2) := filterStaking l1' validateStakingTx in
      (removed1 ++ stkRemoved, errs1 ++ errRemoved, l2)
    else (removed1, errs1, l1) in
  if strict l2 && negb (length removed =? 0)%nat then
    let lowest := foldl (λ lowest tx, if ptNonce tx <? lowest then ptNonce tx else lowest) maxUint64 removed in
    let '(invalids, m) := smFilter (txs l2) (λ tx, lowest <? ptNonce tx) in
    (removed, errs, invalids, withTxs l2 m)
  else (removed, errs, [], l2).
End iteration.

(** ** All transactions of the pool and their prices *)

(** [txLookup] (core/tx_pool.go). *)
Abbreviation txLookup := (gmap Hash PoolTransaction) (only parsing).
Definition lookupGet (all : txLookup) (h : Hash) : option PoolTransaction := all !! h.
Definition lookupAdd (all : txLookup) (tx : PoolTransaction) : txLookup := <[ptHash tx := tx]> all.
Definition lookupRemove (all : txLookup) (h : Hash) : txLookup := delete h all.
Definition lookupCount (all : txLookup) : nat := size all.

(** [accountSet] (core/tx_pool.go); the cache of [flatten] is left out. *)
Abbreviation accountSet := (gset Address) (only parsing).
Definition containsTx (local : accountSet) (tx : PoolTransaction) : bool := match ptSender tx with Some addr => bool_decide (addr ∈ local) | None => false end.

(** [priceHeap.Less]. *)
Definition priceLess (a b : PoolTransaction) : bool :=
  match ptGasPrice a ?= ptGasPrice b with Lt => true | Gt => false | Eq => ptNonce b <? ptNonce a end.

(** [txPricedList]; the pointer to the lookup is an argument of its methods. *)
Record txPricedList := mkPriced { prItems : list PoolTransaction; stales : Z }.
Definition newTxPricedList : txPricedList := mkPriced [] 0.
Definition pricedPut (l : txPricedList) (tx : PoolTransaction) : txPricedList := mkPriced (Heap.Push priceLess (prItems l) tx) (stales l).

(** [range] is the order in which [Range] visits the lookup. *)
Definition pricedRemoved (range : txLookup → list PoolTransaction) (all : txLookup) (l : txPricedList) : txPricedList :=
  let st := stales l + 1 in
  if st <=? Z.quot (Z.of_nat (length (prItems l))) 4 then mkPriced (prItems l) st else mkPriced (Heap.Init priceLess (range all)) 0.

Section priced.
Context (all : txLookup) (local : accountSet).

Definition stale (tx : PoolTransaction) : bool := match lookupGet all (ptHash tx) with None => true | Some _ => false end.

(** Heap, stale points, dropped and saved transactions. *)
Fixpoint pricedCapLoop (fuel : nat) (threshold : Z) (h : list PoolTransaction) (st : Z) (drop save : list PoolTransaction)
    : option (list PoolTransaction * Z * list PoolTransaction * list PoolTransaction) :=
  match fuel, h with
  | S fuel, _ :: _ =>
      '(tx, h') ← Heap.Pop priceLess h;
      if stale tx then pricedCapLoop fuel threshold h' (st - 1) drop save
      else if threshold <=? ptGasPrice tx then Some (h', st, drop, save ++ [tx])
      else if containsTx local tx then pricedCapLoop fuel threshold h' st drop (save ++ [tx])
      else pricedCapLoop fuel threshold h' st (drop ++ [tx]) save
  | _, _ => Some (h, st, drop, save)
  end.
Definition pushAll (h save : list PoolTransaction) : list PoolTransaction := foldl (Heap.Push priceLess) h save.
Definition pricedCap (l : txPricedList) (threshold : Z) : option (list PoolTransaction * txPricedList) :=
  '(h, st, drop, save) ← pricedCapLoop (length (prItems l)) threshold (prItems l) (stales l) [] [];
  Some (drop, mkPriced (pushAll h save) st).

Fixpoint discardStale (fuel : nat) (h : list PoolTransaction) (st : Z) : option (list PoolTransaction * Z) :=
  match fuel, h with
  | S fuel, head :: _ => if stale head then '(_, h') ← Heap.Pop priceLess h; discardStale fuel h' (st - 1) else Some (h, st)
  | _, _ => Some (h, st)
  end.
Definition Underpriced (l : txPricedList) (tx : PoolTransaction) : option (bool * txPricedList) :=
  if containsTx local tx then Some (false, l)
  else
    '(h, st) ← discardStale (length (prItems l)) (prItems l) (stales l);
    let l' := mkPriced h st in
    match h with [] => Some (false, l') | cheapest :: _ => Some (ptGasPrice tx <=? ptGasPrice cheapest, l') end.

Fixpoint discardLoop (fuel : nat) (count : Z) (h : list PoolTransaction) (st : Z) (drop save : list PoolTransaction)
    : option (list PoolTransaction * Z * list PoolTransaction * list PoolTransaction) :=
  match fuel, h with
  | S fuel, _ :: _ =>
      if 0 <? count then
        '(tx, h') ← Heap.Pop priceLess h;
        if stale tx then discardLoop fuel count h' (st - 1) drop save
        else if containsTx local tx then discardLoop fuel count h' st drop (save ++ [tx])
        else discardLoop fuel (count - 1) h' st (drop ++ [tx]) save
      else Some (h, st, drop, save)
  | _, _ => Some (h, st, drop, save)
  end.
Definition Discard (l : txPricedList) (count : Z) : option (list PoolTransaction * txPricedList) :=
  '(h, st, drop, save) ← discardLoop (length (prItems l)) count (prItems l) (stales l) [] [];
  Some (drop, mkPriced (pushAll h save) st).
End priced.

(** * Properties *)

(** ** Heaps *)
Module HeapFacts.
Import Heap.
Section facts.
Context {A : Type} `{Inhabited A} (less : A → A → bool).
(** A strict weak order. *)
Context (less_asym : ∀ x y, less x y = true → less y x = false).
Context (le_trans : ∀ x y z, less y x = false → less z y = false → less z x = false).
Implicit Types (h : list A) (i j k n : nat).

Definition le (x y : A) : Prop := less y x = false.
Definition okAt h k : Prop := le (h !!! parent k) (h !!! k).
Definition heapTo h n : Prop := ∀ k, (0 < k < n)%nat → okAt h k.
Definition isHeap h : Prop := heapTo h (length h).

Lemma le_refl x : le x x.
Proof. unfold le. destruct (less x x) eqn:E; [|done]. by rewrite (less_asym _ _ E) in E. Qed.

Lemma parent_lt k : (0 < k)%nat → (parent k < k)%nat.
Proof. intros Hk. unfold parent. apply Nat.Div0.div_lt_upper_bound. lia. Qed.
Lemma parent_child i k : (0 < k)%nat → parent k = i ↔ (k = 2 * i + 1 ∨ k = 2 * i + 2)%nat.
Proof. intros Hk. unfold parent. pose proof (Nat.div_mod (k - 1) 2 ltac:(lia)). pose proof (Nat.mod_upper_bound (k - 1) 2 ltac:(lia)). lia. Qed.

Lemma lessAt_total h i j : (i < length h)%nat → (j < length h)%nat → lessAt less h i j = less (h !!! i) (h !!! j).
Proof. intros Hi Hj. unfold lessAt. by rewrite (list_lookup_lookup_total_lt h i), (list_lookup_lookup_total_lt h j). Qed.

Lemma swap_total h i j k : (i < length h)%nat → (j < length h)%nat → (k < length h)%nat →
  swap h i j !!! k = if decide (k = i) then h !!! j else if decide (k = j) then h !!! i else h !!! k.
Proof.
  intros Hi Hj Hk. unfold swap. rewrite (list_lookup_lookup_total_lt h i), (list_lookup_lookup_total_lt h j) by done.
  destruct (decide (k = i)) as [->|Hne]; [by rewrite list_lookup_total_insert_eq by (by rewrite length_insert)|].
  rewrite list_lookup_total_insert_ne by done. destruct (decide (k = j)) as [->|]; [by rewrite list_lookup_total_insert_eq|by rewrite list_lookup_total_insert_ne].
Qed.
Lemma swap_length h i j : length (swap h i j) = length h.
Proof. unfold swap. destruct (h !! i), (h !! j); by rewrite ?length_insert. Qed.
Lemma swap_perm h i j : swap h i j ≡ₚ h.
Proof.
  unfold swap. destruct (h !! i) as [x|] eqn:Hi; [|done]. destruct (h !! j) as [y|] eqn:Hj; [|done].
  destruct (decide (i = j)) as [->|Hne].
  { rewrite list_insert_insert_eq. assert (x = y) as -> by congruence. by rewrite list_insert_id. }
  by apply Permutation_insert_swap.
Qed.

(** *** Moving up *)
Definition upInv h n j : Prop :=
  (∀ k, (0 < k < n)%nat → k ≠ j → okAt h k) ∧ (∀ k, (0 < k < n)%nat → parent k = j → (0 < j)%nat → le (h !!! parent j) (h !!! k)).

Lemma upInv_swap h n j : (n ≤ length h)%nat → (0 < j < n)%nat → less (h !!! j) (h !!! parent j) = true → upInv h n j → upInv (swap h (parent j) j) n (parent j).
Proof.
  intros Hn Hj Hless [H1 H2]. pose proof (parent_lt j ltac:(lia)) as Hpj. set (i := parent j) in *.
  assert (∀ k, (k < n)%nat → swap h i j !!! k = if decide (k = i) then h !!! j else if decide (k = j) then h !!! i else h !!! k) as Hs
    by (intros k Hk; apply swap_total; lia).
  assert (le (h !!! j) (h !!! i)) as Hji by (by apply less_asym).
  split.
  - intros k Hk Hki. pose proof (parent_lt k ltac:(lia)) as Hpk. unfold okAt. rewrite !Hs by lia. rewrite (decide_False (P := k = i)) by done.
    destruct (decide (k = j)) as [->|Hkj]; [rewrite decide_True by done; exact Hji|].
    destruct (decide (parent k = i)) as [Hpi|Hpi].
    + pose proof (H1 k Hk Hkj) as Hok. unfold okAt in Hok. rewrite Hpi in Hok. exact (le_trans _ _ _ Hji Hok).
    + destruct (decide (parent k = j)) as [Hpkj|]; [apply (H2 k Hk Hpkj); lia|]. by apply H1.
  - intros k Hk Hpk Hi. pose proof (parent_lt i Hi) as Hpi. rewrite !Hs by lia. rewrite (decide_False (P := parent i = i)), (decide_False (P := parent i = j)) by lia.
    pose proof (H1 i ltac:(lia) ltac:(lia)) as Hoki. unfold okAt in Hoki. pose proof (parent_lt k ltac:(lia)) as Hlt. rewrite Hpk in Hlt.
    rewrite (decide_False (P := k = i)) by lia. destruct (decide (k = j)) as [->|Hkj]; [exact Hoki|].
    pose proof (H1 k Hk Hkj) as Hok. unfold okAt in Hok. rewrite Hpk in Hok. exact (le_trans _ _ _ Hoki Hok).
Qed.

Lemma upLoop_spec fuel h n j :
  (j < fuel)%nat → (n ≤ length h)%nat → (j < n)%nat → upInv h n j →
  heapTo (upLoop less fuel h j) n ∧ upLoop less fuel h j ≡ₚ h ∧ ∀ k, (n ≤ k)%nat → upLoop less fuel h j !! k = h !! k.
Proof.
  revert h j. induction fuel as [|fuel IH]; intros h j Hf Hn Hj Hinv; [lia|]. cbn [upLoop].
  destruct (Nat.eqb_spec (parent j) j) as [Hp|Hp]; cbn [orb].
  { split_and!; try done. intros k Hk. apply Hinv; [done|]. destruct (Nat.eq_dec j 0%nat) as [->|]; [lia|]. pose proof (parent_lt j ltac:(lia)). lia. }
  assert (0 < j)%nat as Hj0. { destruct (Nat.eq_dec j 0%nat) as [->|]; [done|lia]. }
  pose proof (parent_lt j Hj0) as Hpj. rewrite lessAt_total by lia. destruct (less (h !!! j) (h !!! parent j)) eqn:Hl; cbn [negb].
  - destruct (IH (swap h (parent j) j) (parent j)) as (H1 & H2 & H3); [lia|by rewrite swap_length|lia|by apply upInv_swap|].
    split; [done|]. split; [by rewrite H2, swap_perm|]. intros k Hk. rewrite H3 by done. unfold swap.
    rewrite (list_lookup_lookup_total_lt h (parent j)), (list_lookup_lookup_total_lt h j) by lia. by rewrite !list_lookup_insert_ne by lia.
  - split_and!; try done. intros k Hk. destruct (decide (k = j)) as [->|Hkj]; [exact Hl|]. by apply Hinv.
Qed.

(** *** Moving down *)

(** The order holds except at [i] and its children, for the parents from [lo] on. *)
Definition downInv lo h n i : Prop :=
  (∀ k, (0 < k < n)%nat → (lo ≤ parent k)%nat → parent k ≠ i → k ≠ i → okAt h k)
  ∧ (∀ k, (0 < k < n)%nat → parent k = i → (0 < i)%nat → (lo ≤ parent i)%nat → le (h !!! parent i) (h !!! k)).

Lemma downInv_swap lo h n i j :
  (n ≤ length h)%nat → (0 < j < n)%nat → parent j = i → (lo ≤ i)%nat →
  (∀ k, (0 < k < n)%nat → parent k = i → le (h !!! j) (h !!! k)) → less (h !!! j) (h !!! i) = true → downInv lo h n i →
  downInv lo (swap h i j) n j ∧ okAt (swap h i j) j ∧ ((0 < i)%nat → (lo ≤ parent i)%nat → okAt (swap h i j) i).
Proof.
  intros Hn Hj Hpj Hlo Hmin Hless [H1 H2]. pose proof (parent_lt j ltac:(lia)) as Hlt. rewrite Hpj in Hlt.
  assert (∀ k, (k < n)%nat → swap h i j !!! k = if decide (k = i) then h !!! j else if decide (k = j) then h !!! i else h !!! k) as Hs
    by (intros k Hk; apply swap_total; lia).
  assert (le (h !!! j) (h !!! i)) as Hji by (by apply less_asym).
  assert (okAt (swap h i j) j) as Hokj.
  { unfold okAt. rewrite Hpj, !Hs by lia. rewrite (decide_True (P := i = i)), (decide_False (P := j = i)), decide_True by (done || lia). exact Hji. }
  assert ((0 < i)%nat → (lo ≤ parent i)%nat → okAt (swap h i j) i) as Hoki.
  { intros Hi Hl. pose proof (parent_lt i Hi). unfold okAt. rewrite !Hs by lia. rewrite (decide_False (P := parent i = i)), (decide_False (P := parent i = j)), decide_True by (done || lia).
    by apply H2. }
  split; [|done]. split.
  - intros k Hk Hl Hpk Hkj. pose proof (parent_lt k ltac:(lia)) as Hltk. destruct (decide (k = i)) as [->|Hki]; [apply Hoki; lia|].
    unfold okAt. rewrite !Hs by lia. rewrite (decide_False (P := k = i)), (decide_False (P := k = j)), (decide_False (P := parent k = j)) by done.
    destruct (decide (parent k = i)) as [Hpi|Hpi]; [by apply Hmin|]. by apply H1.
  - intros k Hk Hpk _ _. pose proof (parent_lt k ltac:(lia)) as Hltk. rewrite Hpj, !Hs by lia. rewrite (decide_True (P := i = i)), (decide_False (P := k = i)), (decide_False (P := k = j)) by (done || lia).
    pose proof (H1 k Hk ltac:(lia) ltac:(lia) ltac:(lia)) as Hok. unfold okAt in Hok. by rewrite Hpk in Hok.
Qed.

(** The child that is compared is the smaller one. *)
Lemma smaller_child h n i : (n ≤ length h)%nat → (2 * i + 1 < n)%nat →
  let j := if (2 * i + 1 + 1 <? n)%nat && lessAt less h (2 * i + 1 + 1) (2 * i + 1) then (2 * i + 1 + 1)%nat else (2 * i + 1)%nat in
  (0 < j < n)%nat ∧ parent j = i ∧ ∀ k, (0 < k < n)%nat → parent k = i → le (h !!! j) (h !!! k).
Proof.
  intros Hn Hi j. destruct (Nat.ltb_spec (2 * i + 1 + 1) n) as [H2|H2]; cbn [andb] in j.
  - unfold j. rewrite lessAt_total by lia. destruct (less (h !!! (2 * i + 1 + 1)%nat) (h !!! (2 * i + 1)%nat)) eqn:Hl.
    + split; [lia|]. split; [apply parent_child; lia|]. intros k Hk [->| ->]%parent_child; [by apply less_asym| |lia].
      replace (2 * i + 2)%nat with (2 * i + 1 + 1)%nat by lia. apply le_refl.
    + split; [lia|]. split; [apply parent_child; lia|]. intros k Hk [->| ->]%parent_child; [apply le_refl| |lia].
      replace (2 * i + 2)%nat with (2 * i + 1 + 1)%nat by lia. exact Hl.
  - unfold j. split; [lia|]. split; [apply parent_child; lia|]. intros k Hk [->| ->]%parent_child; [apply le_refl|lia|lia].
Qed.

Lemma downLoop_spec fuel lo h n i :
  (n ≤ fuel + i)%nat → (n ≤ length h)%nat → (lo ≤ i)%nat → (i < length h)%nat → downInv lo h n i →
  let '(h', i') := downLoop less fuel h i n in
  (∀ k, (0 < k < n)%nat → (lo ≤ parent k)%nat → k ≠ i → okAt h' k) ∧ (i' = i → h' = h)
  ∧ (i' ≠ i → (0 < i)%nat → (lo ≤ parent i)%nat → okAt h' i) ∧ (i ≤ i')%nat ∧ h' ≡ₚ h ∧ ∀ k, (k < i ∨ n ≤ k)%nat → h' !! k = h !! k.
Proof.
  revert h i. induction fuel as [|fuel IH]; intros h i Hf Hn Hlo Hi Hinv; cbn [downLoop].
  { split_and!; try done. intros k Hk. pose proof (parent_lt k ltac:(lia)). intros Hl Hne. apply Hinv; lia. }
  destruct (Nat.leb_spec n (2 * i + 1)) as [Hend|Hin].
  { split_and!; try done. intros k Hk Hl Hne. apply Hinv; try done. intros Hp. apply parent_child in Hp; lia. }
  destruct (smaller_child h n i Hn Hin) as (Hj & Hpj & Hmin). set (j := if _ && _ then _ else _) in *. clearbody j.
  pose proof (parent_lt j ltac:(lia)) as Hlt. rewrite Hpj in Hlt. rewrite lessAt_total by lia. destruct (less (h !!! j) (h !!! i)) eqn:Hl; cbn [negb].
  - destruct (downInv_swap lo h n i j Hn Hj Hpj Hlo Hmin Hl Hinv) as (Hinv' & Hokj & Hoki).
    specialize (IH (swap h i j) j ltac:(lia) ltac:(by rewrite swap_length) ltac:(lia) ltac:(rewrite swap_length; lia) Hinv').
    destruct (downLoop less fuel (swap h i j) j n) as [h' i']. destruct IH as (H1 & H2 & H3 & H4 & H5 & H6).
    assert (∀ k, (k < j)%nat → h' !!! k = swap h i j !!! k) as Hsame by (intros k Hk; by rewrite !list_lookup_total_alt, H6 by lia).
    split_and!; [| lia | | lia | by rewrite H5, swap_perm |].
    + intros k Hk Hlk Hki. destruct (decide (k = j)) as [->|Hkj]; [|by apply H1]. destruct (decide (i' = j)) as [He|He]; [by rewrite (H2 He)|].
      apply H3; [done|lia|by rewrite Hpj].
    + intros _ Hi0 Hli. pose proof (parent_lt i Hi0). unfold okAt. rewrite !Hsame by lia. by apply Hoki.
    + intros k Hk. rewrite H6 by lia. unfold swap. rewrite (list_lookup_lookup_total_lt h i), (list_lookup_lookup_total_lt h j) by lia.
      by rewrite !list_lookup_insert_ne by lia.
  - split_and!; try done. intros k Hk Hlk Hki. destruct (decide (parent k = i)) as [Hp|Hp]; [|by apply Hinv].
    unfold okAt. rewrite Hp. exact (le_trans _ _ _ Hl (Hmin k Hk Hp)).
Qed.

(** *** The operations *)
Lemma heap_min h k : isHeap h → (k < length h)%nat → le (h !!! 0%nat) (h !!! k).
Proof.
  intros Hh. induction (lt_wf k) as [k _ IH]. intros Hk. destruct (Nat.eq_dec k 0%nat) as [->|Hne]; [apply le_refl|].
  pose proof (parent_lt k ltac:(lia)). exact (le_trans _ _ _ (IH (parent k) ltac:(lia) ltac:(lia)) (Hh k ltac:(lia))).
Qed.

Lemma heapTo_take h n : (n ≤ length h)%nat → heapTo h n → isHeap (take n h).
Proof.
  intros Hn Hh k Hk. rewrite length_take_le in Hk by done. pose proof (parent_lt k ltac:(lia)). unfold okAt.
  rewrite !list_lookup_total_alt, !lookup_take_lt by lia. rewrite <-!list_lookup_total_alt. by apply Hh.
Qed.

Lemma popLast_spec h n : length h = S n → popLast h = Some (h !!! n, take n h) ∧ h ≡ₚ h !!! n :: take n h.
Proof.
  intros Hl. unfold popLast. rewrite last_lookup, Hl. cbn [Nat.pred]. rewrite (list_lookup_lookup_total_lt h n) by lia. cbn [mbind option_bind].
  replace (S n - 1)%nat with n by lia. split; [done|]. rewrite Permutation_cons_append.
  rewrite <-(take_S_r h n (h !!! n)) by (apply list_lookup_lookup_total_lt; lia). by rewrite take_ge by lia.
Qed.

Lemma Push_spec h x : isHeap h → isHeap (Push less h x) ∧ Push less h x ≡ₚ x :: h.
Proof.
  intros Hh. unfold Push, up. destruct (upLoop_spec (S (length h)) (h ++ [x]) (S (length h)) (length h)) as (H1 & H2 & _); [lia|rewrite length_app; cbn; lia|lia| |].
  - split.
    + intros k Hk Hne. pose proof (parent_lt k ltac:(lia)). unfold okAt. rewrite !list_lookup_total_alt, !lookup_app_l by lia. rewrite <-!list_lookup_total_alt. apply Hh. lia.
    + intros k Hk Hp. pose proof (parent_lt k ltac:(lia)). lia.
  - split; [|etrans; [exact H2|]; symmetry; apply Permutation_cons_append]. unfold isHeap. rewrite (Permutation_length H2), length_app. cbn [length]. by rewrite Nat.add_1_r.
Qed.

(** Both ways of taking an element out end with it in the last place, and a heap before it. *)
Lemma finish_pop h h' n x : length h = S n → h' ≡ₚ h → heapTo h' n → h' !! n = Some x →
  ∃ h'', popLast h' = Some (x, h'') ∧ isHeap h'' ∧ h ≡ₚ x :: h''.
Proof.
  intros Hl Hp Hh Hx. assert (length h' = S n) as Hl' by (by rewrite (Permutation_length Hp)).
  destruct (popLast_spec h' n Hl') as [H1 H2]. assert (h' !!! n = x) as Hx' by (by apply list_lookup_total_correct). rewrite Hx' in *.
  exists (take n h'). split; [done|]. split; [apply heapTo_take; [lia|done]|]. by rewrite <-Hp.
Qed.

Lemma swap_last h i n : (i ≤ n)%nat → length h = S n → swap h i n !! n = Some (h !!! i).
Proof.
  intros Hi Hl. rewrite list_lookup_lookup_total_lt by (rewrite swap_length; lia). rewrite swap_total by lia.
  destruct (decide (n = i)) as [->|]; [done|]. by rewrite decide_True.
Qed.

Lemma swapped_inv h i n : isHeap h → length h = S n → (i < n)%nat → downInv 0 (swap h i n) n i.
Proof.
  intros Hh Hl Hi. assert (∀ k, (k < n)%nat → swap h i n !!! k = if decide (k = i) then h !!! n else h !!! k) as Hs.
  { intros k Hk. rewrite swap_total by lia. destruct (decide (k = i)); [done|]. by rewrite decide_False by lia. }
  split.
  - intros k Hk _ Hp Hki. pose proof (parent_lt k ltac:(lia)). unfold okAt. rewrite !Hs, !decide_False by (done || lia). apply Hh. lia.
  - intros k Hk Hp Hi0 _. pose proof (parent_lt i Hi0). pose proof (parent_lt k ltac:(lia)). rewrite !Hs, !decide_False by lia.
    pose proof (Hh i ltac:(lia)) as Ha. pose proof (Hh k ltac:(lia)) as Hb. unfold okAt in Hb. rewrite Hp in Hb. exact (le_trans _ _ _ Ha Hb).
Qed.

Lemma Pop_spec h : isHeap h → h ≠ [] → ∃ h', Pop less h = Some (h !!! 0%nat, h') ∧ isHeap h' ∧ h ≡ₚ h !!! 0%nat :: h'.
Proof.
  intros Hh Hne. assert (∃ n, length h = S n) as [n Hl] by (destruct h; [done|by eexists]). unfold Pop, down. rewrite Hl.
  replace (S n - 1)%nat with n by lia. destruct (Nat.eq_dec n 0%nat) as [->|Hn].
  { apply (finish_pop h _ 0%nat); [done| | |].
    - cbn [downLoop]. cbn. by rewrite swap_perm.
    - intros k Hk. lia.
    - cbn. by apply swap_last. }
  pose proof (downLoop_spec (S n) 0 (swap h 0 n) n 0 ltac:(lia) ltac:(rewrite swap_length; lia) ltac:(lia) ltac:(rewrite swap_length; lia)
    (swapped_inv h 0 n Hh Hl ltac:(lia))) as Hd. destruct (downLoop less (S n) (swap h 0 n) 0 n) as [h' i']. destruct Hd as (H1 & _ & _ & _ & H5 & H6).
  cbn [fst]. apply (finish_pop h _ n); [done|by rewrite H5, swap_perm| |].
  - intros k Hk. apply H1; lia.
  - rewrite H6 by lia. apply swap_last; [lia|done].
Qed.

Lemma removeAt_spec h i : isHeap h → (i < length h)%nat → ∃ h', removeAt less h i = Some (h !!! i, h') ∧ isHeap h' ∧ h ≡ₚ h !!! i :: h'.
Proof.
  intros Hh Hi. assert (∃ n, length h = S n) as [n Hl] by (destruct h; [cbn in Hi; lia|by eexists]). unfold removeAt, down. rewrite Hl.
  replace (S n - 1)%nat with n by lia. destruct (Nat.eqb_spec n i) as [->|Hne].
  { apply (finish_pop h _ i); [done|done| |apply list_lookup_lookup_total_lt; lia]. intros k Hk. apply Hh. lia. }
  pose proof (swapped_inv h i n Hh Hl ltac:(lia)) as Hinv.
  pose proof (downLoop_spec (S n) 0 (swap h i n) n i ltac:(lia) ltac:(rewrite swap_length; lia) ltac:(lia) ltac:(rewrite swap_length; lia) Hinv) as Hd.
  destruct (downLoop less (S n) (swap h i n) i n) as [h' i']. destruct Hd as (H1 & H2 & H3 & H4 & H5 & H6).
  destruct (Nat.ltb_spec i i') as [Hlt|Hge].
  - apply (finish_pop h _ n); [done|by rewrite H5, swap_perm| |rewrite H6 by lia; apply swap_last; [lia|done]].
    intros k Hk. destruct (decide (k = i)) as [->|]; [apply H3; lia|apply H1; lia].
  - assert (i' = i) as He by lia. rewrite (H2 He) in *. unfold up.
    destruct (upLoop_spec (S i) (swap h i n) n i) as (U1 & U2 & U3); [lia|rewrite swap_length; lia|lia| |].
    { split; [intros k Hk Hki; apply H1; lia|]. intros k Hk Hp Hi0. apply Hinv; [done|done|done|lia]. }
    apply (finish_pop h _ n); [done|by rewrite U2, swap_perm|done|]. rewrite U3 by lia. apply swap_last; [lia|done].
Qed.

Lemma initLoop_spec h k : (2 * k ≤ length h + 1)%nat → (∀ j, (0 < j < length h)%nat → (k ≤ parent j)%nat → okAt h j) →
  isHeap (initLoop less h k (length h)) ∧ initLoop less h k (length h) ≡ₚ h.
Proof.
  revert h. induction k as [|k IH]; intros h Hk Hok; cbn [initLoop].
  { split; [|done]. intros j Hj. apply Hok; lia. }
  assert (downInv k h (length h) k) as Hinv.
  { split; [intros j Hj Hl Hp _; apply Hok; lia|]. intros j Hj Hp Hk0 Hl. pose proof (parent_lt k Hk0). lia. }
  pose proof (downLoop_spec (S (length h)) k h (length h) k ltac:(lia) ltac:(lia) ltac:(lia) ltac:(lia) Hinv) as Hd. unfold down.
  destruct (downLoop less (S (length h)) h k (length h)) as [h' i']. destruct Hd as (H1 & _ & _ & _ & H5 & _). cbn [fst].
  assert (length h' = length h) as Hl by (by rewrite (Permutation_length H5)). rewrite <-Hl. destruct (IH h') as [Ha Hb]; [lia| |].
  - intros j Hj Hp. pose proof (parent_lt j ltac:(lia)). apply H1; lia.
  - split; [done|]. by rewrite Hb.
Qed.

Lemma Init_spec h : isHeap (Init less h) ∧ Init less h ≡ₚ h.
Proof.
  unfold Init. pose proof (Nat.div_mod (length h) 2 ltac:(lia)). pose proof (Nat.mod_upper_bound (length h) 2 ltac:(lia)).
  apply initLoop_spec; [lia|]. intros j Hj Hp. exfalso. unfold parent in Hp.
  pose proof (Nat.div_mod (j - 1) 2 ltac:(lia)). pose proof (Nat.mod_upper_bound (j - 1) 2 ltac:(lia)). lia.
Qed.
End facts.
End HeapFacts.

(** ** The list that a sorted map stands for

    The abstract value of a [txSortedMap] is the list of its transactions by rising nonce; every
    operation is a function of that list. *)
Module ByNonce.
Fixpoint put (tx : PoolTransaction) (l : list PoolTransaction) : list PoolTransaction :=
  match l with
  | [] => [tx]
  | y :: l' => if ptNonce tx <? ptNonce y then tx :: l else if ptNonce tx =? ptNonce y then tx :: l' else y :: put tx l'
  end.
Definition forward (t : Z) (l : list PoolTransaction) : list PoolTransaction * list PoolTransaction := (filter (λ tx, ptNonce tx < t) l, filter (λ tx, t ≤ ptNonce tx) l).
Definition cap (n : nat) (l : list PoolTransaction) : list PoolTransaction * list PoolTransaction := (reverse (drop n l), take n l).
Definition remove (n : Z) (l : list PoolTransaction) : list PoolTransaction := filter (λ tx, ptNonce tx ≠ n) l.

(** The run of consecutive nonces from [next] on, and the rest. *)
Fixpoint run (next : Z) (l : list PoolTransaction) : list PoolTransaction * list PoolTransaction :=
  match l with
  | [] => ([], [])
  | tx :: l' => if ptNonce tx =? next then let '(r, rest) := run (next + 1) l' in (tx :: r, rest) else ([], l)
  end.
Definition ready (start : Z) (l : list PoolTransaction) : list PoolTransaction * list PoolTransaction :=
  match l with [] => ([], []) | tx :: _ => if start <? ptNonce tx then ([], l) else run (ptNonce tx) l end.
End ByNonce.

Definition nonceLt (a b : PoolTransaction) : Prop := ptNonce a < ptNonce b.
Definition toMap (l : list PoolTransaction) : gmap Z PoolTransaction := list_to_map ((λ tx, (ptNonce tx, tx)) <$> l).
Definition nonces (l : list PoolTransaction) : list Z := ptNonce <$> l.

(** The sorted map [m] stands for [l]. *)
Record stands (m : txSortedMap) (l : list PoolTransaction) : Prop := {
  st_sorted : StronglySorted nonceLt l;
  st_width : Forall (λ tx, 0 ≤ ptNonce tx < 2 ^ 64) l;
  st_items : items m = toMap l;
  st_index : index m ≡ₚ nonces l;
  st_heap : HeapFacts.isHeap Z.ltb (index m);
  st_cache : cache m = None ∨ cache m = Some l }.

Lemma list_filter_all {A} (P : A → Prop) `{∀ x, Decision (P x)} (l : list A) : Forall P l → filter P l = l.
Proof. induction 1 as [|x l Hx Hl IH]; [done|]. by rewrite filter_cons_True, IH. Qed.
Lemma list_filter_none {A} (P : A → Prop) `{∀ x, Decision (P x)} (l : list A) : Forall (λ x, ¬ P x) l → filter P l = [].
Proof. induction 1 as [|x l Hx Hl IH]; [done|]. by rewrite filter_cons_False. Qed.

Section sorted_lists.
Implicit Types (l : list PoolTransaction) (tx : PoolTransaction) (n : Z).

Lemma sorted_nodup l : StronglySorted nonceLt l → NoDup (nonces l).
Proof.
  induction 1 as [|tx l Hs IH Hlt]; [constructor|]. apply NoDup_cons. split; [|done]. intros [y [Hy Hin]]%list_elem_of_fmap.
  rewrite Forall_forall in Hlt. specialize (Hlt y Hin). unfold nonceLt in Hlt. lia.
Qed.

Lemma toMap_fst l : ((λ tx, (ptNonce tx, tx)) <$> l).*1 = nonces l.
Proof. unfold nonces. by rewrite <-list_fmap_compose. Qed.
Lemma toMap_snd l : ((λ tx, (ptNonce tx, tx)) <$> l).*2 = l.
Proof. rewrite <-list_fmap_compose. by apply list_fmap_id. Qed.

Lemma toMap_cons tx l : toMap (tx :: l) = <[ptNonce tx := tx]> (toMap l).
Proof. done. Qed.
Lemma toMap_None l n : toMap l !! n = None ↔ n ∉ nonces l.
Proof. unfold toMap. rewrite <-not_elem_of_list_to_map. by rewrite toMap_fst. Qed.

Lemma toMap_delete_cons tx l : StronglySorted nonceLt (tx :: l) → delete (ptNonce tx) (toMap (tx :: l)) = toMap l.
Proof. intros Hs%sorted_nodup. apply NoDup_cons in Hs as [Hn _]. rewrite toMap_cons. apply delete_insert_id. by apply toMap_None. Qed.

Lemma toMap_remove l n : delete n (toMap l) = toMap (ByNonce.remove n l).
Proof.
  unfold ByNonce.remove. induction l as [|tx l IH]; [done|]. rewrite toMap_cons, filter_cons. destruct (decide (ptNonce tx ≠ n)) as [Hne|Heq].
  - by rewrite toMap_cons, delete_insert_ne, IH by done.
  - apply dec_stable in Heq as ->. by rewrite delete_insert_eq, IH.
Qed.


Lemma toMap_perm l1 l2 : l1 ≡ₚ l2 → NoDup (nonces l1) → toMap l1 = toMap l2.
Proof. intros Hp Hn. apply list_to_map_proper; [by rewrite toMap_fst|by rewrite Hp]. Qed.

Lemma toMap_order l : NoDup (nonces l) → (map_to_list (toMap l)).*2 ≡ₚ l.
Proof. intros Hn. unfold toMap. rewrite map_to_list_to_map by (by rewrite toMap_fst). by rewrite toMap_snd. Qed.
Lemma toMap_keys l : NoDup (nonces l) → (map_to_list (toMap l)).*1 ≡ₚ nonces l.
Proof. intros Hn. unfold toMap. rewrite map_to_list_to_map by (by rewrite toMap_fst). by rewrite toMap_fst. Qed.
Lemma toMap_size l : NoDup (nonces l) → size (toMap l) = length l.
Proof. intros Hn. rewrite <-length_map_to_list, <-(length_fmap snd). by rewrite toMap_order. Qed.

Lemma toMap_filter (P : PoolTransaction → Prop) `{∀ x, Decision (P x)} (Q : Z * PoolTransaction → Prop) `{∀ kv, Decision (Q kv)} l :
  (∀ kv, Q kv ↔ P kv.2) → NoDup (nonces l) → filter Q (toMap l) = toMap (filter P l).
Proof.
  intros HQ. induction l as [|tx l IH]; [done|]. intros [Hn Hd]%NoDup_cons. rewrite toMap_cons, filter_cons. specialize (IH Hd). apply toMap_None in Hn.
  destruct (decide (P tx)) as [Hp|Hp].
  - rewrite map_filter_insert_True by (by apply HQ). by rewrite toMap_cons, IH.
  - rewrite map_filter_insert_False by (by rewrite HQ). rewrite map_filter_delete, IH. apply delete_id. rewrite <-IH. apply map_lookup_filter_None. by left.
Qed.
End sorted_lists.

(** ** The operations of the sorted map *)
Section operations.
Implicit Types (l : list PoolTransaction) (tx : PoolTransaction) (n t : Z) (m : txSortedMap) (idx : list Z).

Lemma ltb_asym (x y : Z) : (x <? y) = true → (y <? x) = false.
Proof. rewrite Z.ltb_lt, Z.ltb_ge. lia. Qed.
Lemma ltb_le_trans (x y z : Z) : (y <? x) = false → (z <? y) = false → (z <? x) = false.
Proof. rewrite !Z.ltb_ge. lia. Qed.

(** A heap with the nonces of a list [l] that is not empty: its first element is the first of
    [l], and popping it leaves the nonces of the rest. *)
Definition heapOf idx l : Prop := HeapFacts.isHeap Z.ltb idx ∧ idx ≡ₚ nonces l.

Lemma heapOf_nil l : heapOf [] l → l = [].
Proof. intros [_ Hp]. apply Permutation_length in Hp. by destruct l. Qed.

Lemma heapOf_cons idx tx l : StronglySorted nonceLt (tx :: l) → heapOf idx (tx :: l) →
  ∃ rest idx', idx = ptNonce tx :: rest ∧ Heap.Pop Z.ltb idx = Some (ptNonce tx, idx') ∧ heapOf idx' l.
Proof.
  intros Hs [Hh Hp]. apply StronglySorted_inv in Hs as [Hs Hlt]. destruct idx as [|n rest]; [by apply Permutation_length in Hp|].
  destruct (HeapFacts.Pop_spec Z.ltb ltb_asym ltb_le_trans (n :: rest) Hh) as (idx' & Hpop & Hh' & Hp'); [done|]. cbn in Hpop, Hp'.
  assert (n = ptNonce tx) as ->.
  { assert (n ≤ ptNonce tx) as Hle.
    { assert (ptNonce tx ∈ n :: rest) as [k Hk]%list_elem_of_lookup by (rewrite Hp; by left).
      pose proof (HeapFacts.heap_min Z.ltb ltb_asym ltb_le_trans (n :: rest) k Hh ltac:(by eapply lookup_lt_Some)) as Hm.
      unfold HeapFacts.le in Hm. rewrite (list_lookup_total_correct _ _ _ Hk) in Hm. cbn in Hm. apply Z.ltb_ge in Hm. lia. }
    assert (n ∈ nonces (tx :: l)) as Hin by (rewrite <-Hp; by left). apply elem_of_cons in Hin as [->|[y [-> Hy]]%list_elem_of_fmap]; [done|].
    rewrite Forall_forall in Hlt. specialize (Hlt y Hy). unfold nonceLt in Hlt. lia. }
  exists rest, idx'. split_and!; try done. split; [done|]. apply (Permutation_cons_inv (a := ptNonce tx)). by rewrite <-Hp'.
Qed.

(** *** [Forward] *)
Lemma forward_stop t tx l : StronglySorted nonceLt (tx :: l) → t ≤ ptNonce tx → ByNonce.forward t (tx :: l) = ([], tx :: l).
Proof.
  intros [_ Hlt]%StronglySorted_inv Ht. unfold ByNonce.forward. assert (Forall (λ tx, t ≤ ptNonce tx) (tx :: l)) as Hall.
  { constructor; [done|]. eapply Forall_impl; [exact Hlt|]. unfold nonceLt. intros y Hy. cbn in Hy. lia. }
  f_equal; [|by apply list_filter_all].
  apply list_filter_none. eapply Forall_impl; [exact Hall|]. intros y Hy. cbn in Hy. lia.
Qed.

Lemma forwardLoop_spec fuel t l idx removed :
  StronglySorted nonceLt l → heapOf idx l → (length idx ≤ fuel)%nat →
  ∃ idx', forwardLoop fuel t (toMap l) idx removed = Some (removed ++ (ByNonce.forward t l).1, toMap (ByNonce.forward t l).2, idx')
    ∧ heapOf idx' (ByNonce.forward t l).2.
Proof.
  revert l idx removed. induction fuel as [|fuel IH]; intros l idx removed Hs Hi Hf.
  { destruct idx; [|cbn in Hf; lia]. pose proof (heapOf_nil _ Hi) as ->. exists []. cbn. by rewrite app_nil_r. }
  destruct l as [|tx l].
  { destruct Hi as [Hh Hp]. apply Permutation_nil_r in Hp as ->. exists []. cbn. by rewrite app_nil_r. }
  destruct (heapOf_cons idx tx l Hs Hi) as (rest & idx' & -> & Hpop & Hi'). cbn [forwardLoop]. destruct (Z.ltb_spec (ptNonce tx) t) as [Hlt|Hge].
  - rewrite Hpop. cbn [mbind option_bind]. rewrite toMap_cons, lookup_insert_eq. cbn [mbind option_bind]. rewrite <-toMap_cons, toMap_delete_cons by done.
    apply StronglySorted_inv in Hs as [Hs _]. destruct Hi as [Hh Hp]. destruct Hi' as [Hh' Hp'].
    destruct (IH l idx' (removed ++ [tx]) Hs) as (idx2 & E & Hi2); [done| |].
    { apply Permutation_length in Hp, Hp'. unfold nonces in *. rewrite length_fmap in *. cbn in *. lia. }
    exists idx2. rewrite E. unfold ByNonce.forward in *. cbn [fst snd] in *. rewrite !filter_cons, decide_True, decide_False by lia.
    by rewrite <-app_assoc.
  - exists (ptNonce tx :: rest). by rewrite forward_stop, app_nil_r.
Qed.

Lemma forward_app t l : StronglySorted nonceLt l → (ByNonce.forward t l).1 ++ (ByNonce.forward t l).2 = l.
Proof.
  induction l as [|tx l IH]; [done|]. intros Hs. destruct (Z.lt_ge_cases (ptNonce tx) t) as [Hlt|Hge].
  - unfold ByNonce.forward in *. cbn [fst snd] in *. rewrite !filter_cons, decide_True, decide_False by lia. cbn. f_equal. apply IH.
    by apply StronglySorted_inv in Hs as [? _].
  - by rewrite forward_stop.
Qed.

Lemma SSorted_app_r l1 l2 : StronglySorted nonceLt (l1 ++ l2) → StronglySorted nonceLt l2.
Proof. induction l1 as [|x l1 IH]; [done|]. cbn. intros [? _]%StronglySorted_inv. by apply IH. Qed.
Lemma SSorted_app_l l1 l2 : StronglySorted nonceLt (l1 ++ l2) → StronglySorted nonceLt l1.
Proof. induction l1 as [|x l1 IH]; [constructor|]. cbn. intros [? [??]%Forall_app]%StronglySorted_inv. constructor; [by apply IH|done]. Qed.
Lemma SSorted_filter (P : PoolTransaction → Prop) `{∀ x, Decision (P x)} l : StronglySorted nonceLt l → StronglySorted nonceLt (filter P l).
Proof.
  induction 1 as [|tx l Hs IH Hlt]; [constructor|]. rewrite filter_cons. destruct (decide (P tx)); [|done]. constructor; [done|].
  rewrite Forall_forall in *. intros y [_ Hy]%list_elem_of_filter. by apply Hlt.
Qed.

Lemma Forward_stands m l t : stands m l →
  ∃ m', smForward m t = Some ((ByNonce.forward t l).1, m') ∧ stands m' (ByNonce.forward t l).2.
Proof.
  intros [Hs Hw Hi Hx Hh Hc]. destruct (forwardLoop_spec (length (index m)) t l (index m) []) as (idx' & E & Hh' & Hx'); [done|by split|done|].
  unfold smForward. rewrite Hi, E. cbn [mbind option_bind app]. pose proof (forward_app t l Hs) as Happ.
  assert (StronglySorted nonceLt (ByNonce.forward t l).2 ∧ Forall (λ tx, 0 ≤ ptNonce tx < 2 ^ 64) (ByNonce.forward t l).2) as [Hs2 Hw2].
  { rewrite <-Happ in Hs, Hw. split; [by eapply SSorted_app_r|]. by apply Forall_app in Hw as [_ ?]. }
  destruct Hc as [-> | ->].
  - eexists. split; [done|]. constructor; cbn; auto.
  - unfold sliceFrom. pose proof (f_equal length Happ) as Hlen. rewrite length_app in Hlen.
    destruct (Nat.leb_spec (length (ByNonce.forward t l).1) (length l)) as [_|]; [|lia]. cbn [mbind option_bind].
    eexists. split; [done|]. constructor; cbn; auto. right. f_equal. rewrite <-Happ at 2. by apply drop_app_length.
Qed.

(** *** [Put] *)
Lemma put_elem tx l y : y ∈ ByNonce.put tx l → y = tx ∨ y ∈ l.
Proof.
  induction l as [|x l IH]; cbn; [by intros ->%list_elem_of_singleton; left|]. repeat case_match; rewrite !elem_of_cons; naive_solver.
Qed.
Lemma put_sorted tx l : StronglySorted nonceLt l → StronglySorted nonceLt (ByNonce.put tx l).
Proof.
  induction 1 as [|x l Hs IH Hlt]; cbn; [repeat constructor|]. destruct (Z.ltb_spec (ptNonce tx) (ptNonce x)) as [H1|H1].
  - constructor; [by constructor|]. constructor; [done|]. eapply Forall_impl; [exact Hlt|]. unfold nonceLt. intros y Hy. lia.
  - destruct (Z.eqb_spec (ptNonce tx) (ptNonce x)) as [H2|H2].
    + constructor; [done|]. eapply Forall_impl; [exact Hlt|]. unfold nonceLt. intros y Hy. lia.
    + constructor; [done|]. rewrite Forall_forall in *. intros y [->|Hy]%put_elem; [unfold nonceLt; lia|by apply Hlt].
Qed.
Lemma put_map tx l : toMap (ByNonce.put tx l) = <[ptNonce tx := tx]> (toMap l).
Proof.
  induction l as [|x l IH]; [done|]. cbn [ByNonce.put]. case_match; [done|]. destruct (Z.eqb_spec (ptNonce tx) (ptNonce x)) as [H2|H2].
  - by rewrite !toMap_cons, H2, insert_insert_eq.
  - rewrite !toMap_cons, IH. by rewrite insert_insert_ne by done.
Qed.
Lemma put_nonces_old tx l : StronglySorted nonceLt l → ptNonce tx ∈ nonces l → nonces (ByNonce.put tx l) = nonces l.
Proof.
  induction 1 as [|x l Hs IH Hlt]; [by intros ?%not_elem_of_nil|]. cbn. intros Hin. destruct (Z.ltb_spec (ptNonce tx) (ptNonce x)) as [H1|H1].
  - exfalso. apply elem_of_cons in Hin as [?|[y [Hy1 Hy]]%list_elem_of_fmap]; [lia|]. rewrite Forall_forall in Hlt. specialize (Hlt y Hy). unfold nonceLt in Hlt. lia.
  - destruct (Z.eqb_spec (ptNonce tx) (ptNonce x)) as [H2|H2]; cbn; f_equal; [done|]. apply IH. by apply elem_of_cons in Hin as [?|?].
Qed.
Lemma put_nonces_new tx l : ptNonce tx ∉ nonces l → nonces (ByNonce.put tx l) ≡ₚ ptNonce tx :: nonces l.
Proof.
  induction l as [|x l IH]; [done|]. cbn. intros [Hne Hn]%not_elem_of_cons. case_match; [done|].
  destruct (Z.eqb_spec (ptNonce tx) (ptNonce x)) as [H2|H2]; [done|]. cbn. rewrite (IH Hn). by constructor.
Qed.

Lemma Put_stands m l tx : stands m l → 0 ≤ ptNonce tx < 2 ^ 64 → stands (smPut m tx) (ByNonce.put tx l).
Proof.
  intros [Hs Hw Hi Hx Hh Hc] Htx. unfold smPut. rewrite Hi. constructor; cbn [items index cache].
  - by apply put_sorted.
  - rewrite Forall_forall in *. intros y [->|Hy]%put_elem; [done|by apply Hw].
  - by rewrite put_map.
  - destruct (toMap l !! ptNonce tx) as [o|] eqn:E.
    + rewrite put_nonces_old; [done|done|]. apply dec_stable. intros Hn%toMap_None. congruence.
    + apply toMap_None in E. rewrite put_nonces_new by done. rewrite (proj2 (HeapFacts.Push_spec Z.ltb ltb_asym ltb_le_trans _ (ptNonce tx) Hh)). by constructor.
  - destruct (toMap l !! ptNonce tx); [done|]. by apply (HeapFacts.Push_spec Z.ltb ltb_asym ltb_le_trans).
  - by left.
Qed.

(** *** [Cap] *)
Lemma sortNonces_spec idx l : StronglySorted nonceLt l → idx ≡ₚ nonces l → sortNonces idx = nonces l.
Proof.
  intros Hs Hp. unfold sortNonces. apply (StronglySorted_unique Z.le).
  - apply StronglySorted_merge_sort; apply _.
  - clear Hp. induction Hs as [|x l Hs IH Hlt]; cbn; constructor; [done|]. unfold nonces. rewrite Forall_fmap. eapply Forall_impl; [exact Hlt|].
    unfold nonceLt. cbn. intros y Hy. lia.
  - by rewrite merge_sort_Permutation.
Qed.

Lemma capLoop_spec l1 l2 drops : NoDup (nonces (l1 ++ l2)) →
  capLoop (toMap (l1 ++ l2)) (reverse (nonces l2)) drops = Some (drops ++ reverse l2, toMap l1).
Proof.
  revert drops. induction l2 as [|x l2 IH] using rev_ind; intros drops Hn; [by rewrite !app_nil_r|].
  unfold nonces in *. rewrite fmap_app. change (ptNonce <$> [x]) with [ptNonce x]. rewrite !reverse_snoc. cbn [capLoop].
  assert (toMap (l1 ++ l2 ++ [x]) = toMap (x :: l1 ++ l2)) as ->.
  { apply toMap_perm; [|done]. rewrite app_assoc. symmetry. apply Permutation_cons_append. }
  rewrite app_assoc, fmap_app in Hn. apply NoDup_app in Hn as (Hn1 & Hn2 & _).
  rewrite toMap_cons, lookup_insert_eq. cbn [mbind option_bind]. rewrite delete_insert_id.
  - rewrite IH by done. by rewrite <-app_assoc.
  - apply toMap_None. intros Hin. apply (Hn2 _ Hin). cbn. by left.
Qed.

Lemma Cap_stands m l (n : nat) : stands m l → ∃ m', smCap m n = Some ((ByNonce.cap n l).1, m') ∧ stands m' (ByNonce.cap n l).2.
Proof.
  intros Hst. pose proof Hst as [Hs Hw Hi Hx Hh Hc]. pose proof (sorted_nodup _ Hs) as Hn. unfold smCap. rewrite Hi, (toMap_size l Hn), (sortNonces_spec _ l Hs Hx).
  unfold ByNonce.cap. cbn [fst snd]. destruct (Nat.leb_spec (length l) n) as [Hle|Hlt].
  { exists m. by rewrite drop_ge, take_ge by done. }
  assert (take (length l) (nonces l) = nonces l) as -> by (apply take_ge; unfold nonces; by rewrite length_fmap).
  rewrite <-(take_drop n l) in Hn, Hs, Hw. assert (drop n (nonces l) = nonces (drop n l)) as -> by (unfold nonces; by rewrite fmap_drop).
  assert (take n (nonces l) = nonces (take n l)) as -> by (unfold nonces; by rewrite fmap_take).
  replace (toMap l) with (toMap (take n l ++ drop n l)) by (by rewrite take_drop). rewrite capLoop_spec by done. cbn [mbind option_bind app].
  destruct (HeapFacts.Init_spec Z.ltb ltb_asym ltb_le_trans (nonces (take n l))) as [Hh' Hp'].
  apply SSorted_app_l in Hs. apply Forall_app in Hw as [Hw _].
  destruct Hc as [-> | ->].
  - eexists. split; [done|]. constructor; cbn; auto.
  - rewrite length_reverse, length_drop. destruct (Nat.leb_spec (length l - n) (length l)) as [_|]; [|lia].
    eexists. split; [done|]. constructor; cbn; auto. right. f_equal. f_equal. lia.
Qed.

(** *** [Remove] *)
Lemma remove_notin n l : n ∉ nonces l → ByNonce.remove n l = l.
Proof. intros Hn. apply list_filter_all. rewrite Forall_forall. intros y Hy Heq. apply Hn. rewrite <-Heq. by apply list_elem_of_fmap_2. Qed.
Lemma remove_nonces n l : NoDup (nonces l) → n ∈ nonces l → nonces l ≡ₚ n :: nonces (ByNonce.remove n l).
Proof.
  induction l as [|x l IH]; [by intros _ ?%not_elem_of_nil|]. intros [Hx Hn]%NoDup_cons Hin. unfold ByNonce.remove. rewrite filter_cons.
  destruct (decide (ptNonce x ≠ n)) as [Hne|Heq].
  - cbn. apply elem_of_cons in Hin as [?|Hin]; [done|]. rewrite (IH Hn Hin) at 1. by constructor.
  - apply dec_stable in Heq as <-. cbn. fold (ByNonce.remove (ptNonce x) l). by rewrite remove_notin.
Qed.

Lemma Remove_stands m l n : stands m l →
  ∃ m', smRemove m n = Some (bool_decide (n ∈ nonces l), m') ∧ stands m' (ByNonce.remove n l).
Proof.
  intros Hst. pose proof Hst as [Hs Hw Hi Hx Hh Hc]. pose proof (sorted_nodup _ Hs) as Hn. unfold smRemove. rewrite Hi. destruct (toMap l !! n) as [o|] eqn:E.
  - assert (n ∈ nonces l) as Hin by (apply dec_stable; intros Hno%toMap_None; congruence). rewrite bool_decide_true by done.
    destruct (list_find (λ n0, n0 = n) (index m)) as [[i n']|] eqn:Ef.
    2: { exfalso. apply list_find_None in Ef. rewrite Forall_forall in Ef. apply (Ef n); [by rewrite Hx|done]. }
    apply list_find_Some in Ef as (Hl & -> & _).
    destruct (HeapFacts.removeAt_spec Z.ltb ltb_asym ltb_le_trans (index m) i Hh ltac:(by eapply lookup_lt_Some)) as (idx' & -> & Hh' & Hp').
    rewrite (list_lookup_total_correct _ _ _ Hl) in Hp'. cbn. eexists. split; [done|]. constructor; cbn [items index cache]; auto.
    + by apply SSorted_filter.
    + rewrite Forall_forall in *. intros y [_ Hy]%list_elem_of_filter. by apply Hw.
    + apply toMap_remove.
    + apply (Permutation_cons_inv (a := n)). rewrite <-Hp', Hx. by apply remove_nonces.
  - apply toMap_None in E. rewrite bool_decide_false by done. exists m. by rewrite remove_notin.
Qed.

(** *** [Ready] *)
Lemma consecutive_app next l : (ByNonce.run next l).1 ++ (ByNonce.run next l).2 = l.
Proof. revert next. induction l as [|x l IH]; intros next; [done|]. cbn. case_match; [|done]. specialize (IH (next + 1)). destruct (ByNonce.run (next + 1) l). cbn in *. by rewrite IH. Qed.

Lemma run_ahead next l : Forall (λ x, next < ptNonce x) l → ByNonce.run next l = ([], l).
Proof. destruct 1 as [|x l Hx Hl]; [done|]. cbn. by destruct (Z.eqb_spec (ptNonce x) next) as [|]; [lia|]. Qed.

(** The counter of the loop wraps around only when the heap is empty. *)
Lemma readyLoop_spec fuel next l idx acc :
  StronglySorted nonceLt l → Forall (λ x, next ≤ ptNonce x < 2 ^ 64) l → 0 ≤ next ≤ 2 ^ 64 → heapOf idx l → (length idx ≤ fuel)%nat →
  ∃ idx', readyLoop fuel (u64 next) (toMap l) idx acc = Some (acc ++ (ByNonce.run next l).1, toMap (ByNonce.run next l).2, idx')
    ∧ heapOf idx' (ByNonce.run next l).2.
Proof.
  revert next l idx acc. induction fuel as [|fuel IH]; intros next l idx acc Hs Hw Hnext Hi Hf.
  { destruct idx; [|cbn in Hf; lia]. pose proof (heapOf_nil _ Hi) as ->. exists []. cbn. by rewrite app_nil_r. }
  destruct l as [|tx l].
  { destruct Hi as [Hh Hp]. apply Permutation_nil_r in Hp as ->. exists []. cbn. by rewrite app_nil_r. }
  destruct (heapOf_cons idx tx l Hs Hi) as (rest & idx' & -> & Hpop & Hi'). apply Forall_cons in Hw as [Htx Hw]. cbn beta in Htx.
  assert (u64 next = next) as -> by (apply u64_small; unfold isU64; lia). cbn [readyLoop ByNonce.run]. destruct (Z.eqb_spec (ptNonce tx) next) as [Heq|Hne].
  - rewrite <-Heq, toMap_cons, lookup_insert_eq. cbn [mbind option_bind]. rewrite Hpop. cbn [mbind option_bind]. rewrite <-toMap_cons, toMap_delete_cons by done.
    apply StronglySorted_inv in Hs as [Hs Hlt]. destruct Hi as [Hh Hp]. destruct Hi' as [Hh' Hp'].
    destruct (IH (ptNonce tx + 1) l idx' (acc ++ [tx]) Hs) as (idx2 & E & Hi2); [| lia|done| |].
    { rewrite Forall_forall in *. intros y Hy. specialize (Hw y Hy). specialize (Hlt y Hy). unfold nonceLt in Hlt. lia. }
    { apply Permutation_length in Hp, Hp'. unfold nonces in *. rewrite length_fmap in *. cbn in *. lia. }
    exists idx2. rewrite E. destruct (ByNonce.run (ptNonce tx + 1) l) as [r s]. cbn in *. by rewrite <-app_assoc.
  - exists (ptNonce tx :: rest). by rewrite app_nil_r.
Qed.

Lemma ready_app start l : (ByNonce.ready start l).1 ++ (ByNonce.ready start l).2 = l.
Proof. unfold ByNonce.ready. destruct l as [|x l]; [done|]. destruct (start <? ptNonce x); [done|]. apply consecutive_app. Qed.

Lemma Ready_stands m l start : stands m l →
  ∃ m', smReady m start = Some ((ByNonce.ready start l).1, m') ∧ stands m' (ByNonce.ready start l).2.
Proof.
  intros Hst. pose proof Hst as [Hs Hw Hi Hx Hh Hc]. unfold smReady. destruct l as [|tx l].
  { apply Permutation_nil_r in Hx as Hx0. rewrite Hx0. by exists m. }
  destruct (heapOf_cons (index m) tx l Hs ltac:(by split)) as (rest & idx' & E & _ & _). rewrite E. cbn [ByNonce.ready]. case_match; [by exists m|].
  rewrite Hi, <-E. pose proof (Forall_inv Hw) as Htx. cbn beta in Htx. destruct (readyLoop_spec (length (index m)) (ptNonce tx) (tx :: l) (index m) []) as (idx2 & Er & Hh2 & Hx2); [done| |lia|by split|done|].
  { apply StronglySorted_inv in Hs as [_ Hlt]. constructor; [lia|]. apply Forall_cons in Hw as [_ Hw]. rewrite Forall_forall in *. intros y Hy.
    specialize (Hlt y Hy). specialize (Hw y Hy). unfold nonceLt in Hlt. lia. }
  rewrite u64_small in Er by (unfold isU64; lia). rewrite Er. cbn [mbind option_bind app]. eexists. split; [done|].
  rewrite <-(consecutive_app (ptNonce tx) (tx :: l)) in Hs, Hw. apply Forall_app in Hw as [_ Hw]. apply SSorted_app_r in Hs. constructor; cbn [items index cache]; auto.
Qed.

(** *** [Filter], [FilterWithError] and [Flatten], for every order of the iteration *)
Section any_order.
Context (order : gmap Z PoolTransaction → list (Z * PoolTransaction)) (order_perm : ∀ its, order its ≡ₚ map_to_list its).

Lemma order_items l : NoDup (nonces l) → (order (toMap l)).*2 ≡ₚ l.
Proof. intros Hn. rewrite order_perm. by apply toMap_order. Qed.
Lemma order_keys l : NoDup (nonces l) → (order (toMap l)).*1 ≡ₚ nonces l.
Proof. intros Hn. rewrite order_perm. by apply toMap_keys. Qed.

Lemma rebuilt_stands m l removed (P : PoolTransaction → Prop) `{∀ x, Decision (P x)} (Q : Z * PoolTransaction → Prop) `{∀ kv, Decision (Q kv)} :
  (∀ kv, Q kv ↔ P kv.2) → stands m l → removed ≡ₚ filter (λ tx, ¬ P tx) l → stands (rebuilt order m removed (filter Q (items m))) (filter P l).
Proof.
  intros HQ Hst Hr. pose proof Hst as [Hs Hw Hi Hx Hh Hc]. pose proof (sorted_nodup _ Hs) as Hn. rewrite Hi, (toMap_filter P) by done.
  destruct removed as [|r removed]; cbn [rebuilt].
  - symmetry in Hr. apply Permutation_nil_r in Hr. assert (filter P l = l) as ->.
    { apply list_filter_all. rewrite Forall_forall. intros y Hy. apply dec_stable. intros Hnp.
      assert (y ∈ filter (λ tx, ¬ P tx) l) as Hin by (by apply list_elem_of_filter). rewrite Hr in Hin. by apply not_elem_of_nil in Hin. }
    rewrite <-Hi. by destruct m.
  - pose proof (SSorted_filter P l Hs) as Hs'. destruct (HeapFacts.Init_spec Z.ltb ltb_asym ltb_le_trans (order (toMap (filter P l))).*1) as [Hh' Hp'].
    constructor; cbn [items index cache]; auto.
    + rewrite Forall_forall in *. intros y [_ Hy]%list_elem_of_filter. by apply Hw.
    + rewrite Hp'. apply order_keys. by apply sorted_nodup.
Qed.

Lemma filter_bool (f : PoolTransaction → bool) l : List.filter f l = filter (λ tx, f tx = true) l.
Proof. induction l as [|x l IH]; [done|]. cbn [List.filter]. rewrite filter_cons, IH. destruct (f x) eqn:E; [by rewrite decide_True|by rewrite decide_False by congruence]. Qed.

Lemma Filter_stands m l f : stands m l →
  (smFilter order m f).1 ≡ₚ filter (λ tx, f tx = true) l ∧ stands (smFilter order m f).2 (filter (λ tx, f tx = false) l).
Proof.
  intros Hst. pose proof Hst as [Hs Hw Hi Hx Hh Hc]. unfold smFilter. cbn [fst snd].
  assert (List.filter f (order (items m)).*2 ≡ₚ filter (λ tx, f tx = true) l) as Hp
    by (rewrite filter_bool, Hi; by rewrite (order_items l (sorted_nodup _ Hs))).
  split; [done|]. apply (rebuilt_stands m l); [done|done|]. rewrite Hp. erewrite list_filter_iff; [done|]. intros x. split; [by intros ->|]. by destruct (f x).
Qed.

Lemma FilterWithError_stands {Er} m l (f : PoolTransaction → option Er) : stands m l →
  (smFilterWithError order m f).1.1 ≡ₚ filter (λ tx, f tx ≠ None) l ∧ (smFilterWithError order m f).1.2 ≡ₚ omap f l
  ∧ stands (smFilterWithError order m f).2 (filter (λ tx, f tx = None) l).
Proof.
  intros Hst. pose proof Hst as [Hs Hw Hi Hx Hh Hc]. unfold smFilterWithError. cbn [fst snd]. pose proof (order_items l (sorted_nodup _ Hs)) as Ho. rewrite <-Hi in Ho.
  assert (List.filter (λ tx, bool_decide (is_Some (f tx))) (order (items m)).*2 ≡ₚ filter (λ tx, f tx ≠ None) l) as Hp.
  { rewrite filter_bool, Ho. erewrite list_filter_iff; [done|]. intros x. cbn. rewrite bool_decide_eq_true. by rewrite <-not_eq_None_Some. }
  split_and!; [done|by rewrite Ho|]. by apply (rebuilt_stands m l).
Qed.

Lemma Flatten_stands m l : stands m l → (smFlatten order m).1 = l ∧ stands (smFlatten order m).2 l.
Proof.
  intros Hst. pose proof Hst as [Hs Hw Hi Hx Hh Hc]. unfold smFlatten. cbn [fst snd].
  assert (match cache m with Some c => c | None => merge_sort byNonce (order (items m)).*2 end = l) as ->; [|split; [done|]; constructor; cbn; auto].
  destruct Hc as [-> | ->]; [|done]. apply (StronglySorted_unique_strong byNonce).
  - intros x1 x2 H1 H2 Hle1 Hle2. rewrite merge_sort_Permutation, Hi, (order_items l (sorted_nodup _ Hs)) in H1.
    pose proof (sorted_nodup _ Hs) as Hn. unfold byNonce in *. apply list_elem_of_lookup in H1 as [i Hi1], H2 as [j Hj].
    assert (i = j) as <- by (eapply (NoDup_lookup (nonces l) i j (ptNonce x1)); [done| |]; unfold nonces; rewrite list_lookup_fmap; [by rewrite Hi1|rewrite Hj; cbn; f_equal; lia]). congruence.
  - apply StronglySorted_merge_sort; [intros ???; unfold byNonce; lia|intros ??; unfold byNonce; lia].
  - clear -Hs. induction Hs as [|x l Hs IH Hlt]; constructor; [done|]. eapply Forall_impl; [exact Hlt|]. unfold nonceLt, byNonce. intros y Hy. lia.
  - rewrite merge_sort_Permutation, Hi. by apply order_items, sorted_nodup.
Qed.
End any_order.
End operations.

(** *** Sequences of operations *)
Inductive smOp := OpPut (tx : PoolTransaction) | OpForward (t : Z) | OpCap (n : nat) | OpRemove (n : Z) | OpReady (start : Z) | OpFilter (f : PoolTransaction → bool) | OpFlatten.
Inductive smOut := Txs (l : list PoolTransaction) | Found (b : bool) | Done.

Definition smStep (order : gmap Z PoolTransaction → list (Z * PoolTransaction)) (m : txSortedMap) (op : smOp) : option (smOut * txSortedMap) :=
  match op with
  | OpPut tx => Some (Done, smPut m tx)
  | OpForward t => '(l, m') ← smForward m t; Some (Txs l, m')
  | OpCap n => '(l, m') ← smCap m n; Some (Txs l, m')
  | OpRemove n => '(b, m') ← smRemove m n; Some (Found b, m')
  | OpReady start => '(l, m') ← smReady m start; Some (Txs l, m')
  | OpFilter f => let '(l, m') := smFilter order m f in Some (Txs l, m')
  | OpFlatten => let '(l, m') := smFlatten order m in Some (Txs l, m')
  end.
Fixpoint smRun order (m : txSortedMap) (ops : list smOp) : option (list smOut * txSortedMap) :=
  match ops with
  | [] => Some ([], m)
  | op :: ops => '(o, m') ← smStep order m op; '(os, m'') ← smRun order m' ops; Some (o :: os, m'')
  end.

Definition listStep (l : list PoolTransaction) (op : smOp) : smOut * list PoolTransaction :=
  match op with
  | OpPut tx => (Done, ByNonce.put tx l)
  | OpForward t => let '(r, l') := ByNonce.forward t l in (Txs r, l')
  | OpCap n => let '(r, l') := ByNonce.cap n l in (Txs r, l')
  | OpRemove n => (Found (bool_decide (n ∈ nonces l)), ByNonce.remove n l)
  | OpReady start => let '(r, l') := ByNonce.ready start l in (Txs r, l')
  | OpFilter f => (Txs (filter (λ tx, f tx = true) l), filter (λ tx, f tx = false) l)
  | OpFlatten => (Txs l, l)
  end.
Fixpoint listRun (l : list PoolTransaction) (ops : list smOp) : list smOut * list PoolTransaction :=
  match ops with
  | [] => ([], l)
  | op :: ops => let '(o, l') := listStep l op in let '(os, l'') := listRun l' ops in (o :: os, l'')
  end.

(** The answers are the same, up to the order in which [Filter] iterates the map. *)
Definition answers (op : smOp) (o o' : smOut) : Prop :=
  match op with OpFilter _ => ∃ l l', o = Txs l ∧ o' = Txs l' ∧ l ≡ₚ l' | _ => o = o' end.
Definition opOk (op : smOp) : Prop := match op with OpPut tx => 0 ≤ ptNonce tx < 2 ^ 64 | _ => True end.

Lemma newTxSortedMap_stands : stands newTxSortedMap [].
Proof. constructor; cbn; auto; try constructor. all: intros k Hk; cbn in Hk; lia. Qed.

Section traces.
Context (order : gmap Z PoolTransaction → list (Z * PoolTransaction)) (order_perm : ∀ its, order its ≡ₚ map_to_list its).

Lemma step_stands m l op : stands m l → opOk op →
  ∃ o m', smStep order m op = Some (o, m') ∧ answers op o (listStep l op).1 ∧ stands m' (listStep l op).2.
Proof.
  intros Hst Hok. destruct op as [tx|t|n|n|start|f|]; cbn [smStep listStep answers].
  - exists Done, (smPut m tx). split_and!; [done|done|]. by apply Put_stands.
  - destruct (Forward_stands m l t Hst) as (m' & -> & Hm). cbn. eauto.
  - destruct (Cap_stands m l n Hst) as (m' & -> & Hm). cbn. eauto.
  - destruct (Remove_stands m l n Hst) as (m' & -> & Hm). cbn. eauto.
  - destruct (Ready_stands m l start Hst) as (m' & -> & Hm). cbn. destruct (ByNonce.ready start l). eauto.
  - destruct (Filter_stands order order_perm m l f Hst) as [Hp Hm]. destruct (smFilter order m f) as [r m']. eexists _, _. split; [done|]. split; [|done]. by exists r, (filter (λ tx, f tx = true) l).
  - destruct (Flatten_stands order order_perm m l Hst) as [Hp Hm]. destruct (smFlatten order m) as [r m']. cbn in Hp. subst r. eauto.
Qed.

Lemma run_stands ops : ∀ m l, stands m l → Forall opOk ops →
  ∃ os m', smRun order m ops = Some (os, m') ∧ Forall3 answers ops os (listRun l ops).1 ∧ stands m' (listRun l ops).2.
Proof.
  induction ops as [|op ops IH]; intros m l Hst Hok; cbn [smRun listRun].
  { exists [], m. split_and!; [done|constructor|done]. }
  apply Forall_cons in Hok as [Hop Hok]. destruct (step_stands m l op Hst Hop) as (o & m' & -> & Ha & Hm). cbn [mbind option_bind].
  destruct (listStep l op) as [o' l'] eqn:El. cbn [fst snd] in *. destruct (IH m' l' Hm Hok) as (os & m'' & -> & Has & Hm'). cbn [mbind option_bind].
  destruct (listRun l' ops) as [os' l'']. cbn [fst snd] in *. exists (o :: os), m''. split_and!; [done|by constructor|done].
Qed.

(** C26: From the empty map, every sequence of operations of the heap-indexed, cached map of a
    transaction list runs without a panic, answers what the same operations on the list of its
    transactions sorted by nonce answer (up to order for the filters, whatever the iteration
    order of the map), and ends with the index, the items and the cache of that list. *)
Theorem txSortedMap_refines ops : Forall opOk ops →
  ∃ os m, smRun order newTxSortedMap ops = Some (os, m) ∧ Forall3 answers ops os (listRun [] ops).1 ∧ stands m (listRun [] ops).2.
Proof. apply run_stands, newTxSortedMap_stands. Qed.
End traces.

(** ** The list of an account *)
Section account.
Context (order : gmap Z PoolTransaction → list (Z * PoolTransaction)) (order_perm : ∀ its, order its ≡ₚ map_to_list its).
Implicit Types (tl : txList) (l : list PoolTransaction) (tx : PoolTransaction).

(** The caps bound the cost and the gas of every transaction. *)
Definition capped (costCap gasCap : Z) (tx : PoolTransaction) : Prop := ∃ cost, ptCost tx = Some cost ∧ cost ≤ costCap ∧ ptGasLimit tx ≤ gasCap.
Definition lists tl l : Prop := stands (txs tl) l ∧ Forall (capped (costcap tl) (gascap tl)) l.

Lemma capped_mono c1 g1 c2 g2 tx : capped c1 g1 tx → c1 ≤ c2 → g1 ≤ g2 → capped c2 g2 tx.
Proof. intros (cost & Hc & H1 & H2) ??. exists cost. split_and!; [done|lia|lia]. Qed.
Lemma priceError_capped c g tx : priceError c g tx = None ↔ capped c g tx.
Proof.
  unfold priceError, capped. destruct (ptCost tx) as [cost|]; [|naive_solver].
  destruct (Z.ltb_spec c cost), (Z.ltb_spec g (ptGasLimit tx)); split; try done; intros; try (destruct_and?; naive_solver lia); exists cost; split_and!; done || lia.
Qed.

Lemma newTxList_lists s : lists (newTxList s) [].
Proof. split; [apply newTxSortedMap_stands|constructor]. Qed.

Lemma Add_lists tl l tx bump : lists tl l → 0 ≤ ptNonce tx < 2 ^ 64 →
  let '(added, old, tl') := Add tl tx bump in
  (added = true → lists tl' (ByNonce.put tx l) ∧ old = toMap l !! ptNonce tx ∧ (∀ o, old = Some o → ptGasPrice o < ptGasPrice tx))
  ∧ (added = false → tl' = tl ∧ old = None).
Proof.
  intros [Hst Hb] Hn. unfold Add, smGet. rewrite (st_items _ _ Hst). destruct (match toMap l !! ptNonce tx with Some o => _ | None => false end) eqn:E; [by split|].
  destruct (ptCost tx) as [cost|] eqn:Ec; [|by split]. split; [intros _|done]. split; [|split; [done|]].
  - split; cbn [txs costcap gascap]; [by apply Put_stands|]. rewrite Forall_forall in *. intros y [->|Hy]%put_elem.
    + exists cost. split; [done|]. split; [destruct (Z.ltb_spec (costcap tl) cost); lia|destruct (Z.ltb_spec (gascap tl) (ptGasLimit tx)); lia].
    + apply (capped_mono _ _ _ _ _ (Hb y Hy)); [destruct (Z.ltb_spec (costcap tl) cost); lia|destruct (Z.ltb_spec (gascap tl) (ptGasLimit tx)); lia].
  - intros o Ho. rewrite Ho in E. apply orb_false_iff in E as [E%Z.leb_gt _]. lia.
Qed.

Lemma errors_length {Er} (f : PoolTransaction → option Er) l : length (omap f l) = length (filter (λ tx, f tx ≠ None) l).
Proof.
  induction l as [|x l IH]; [done|]. rewrite filter_cons. change (omap f (x :: l)) with (match f x with Some e => e :: omap f l | None => omap f l end).
  destruct (f x) as [e|] eqn:E; [rewrite decide_True by done|rewrite decide_False by (by intros ?)]; cbn; by rewrite IH.
Qed.

(** The short circuit of [filterPrice] is sound: with and without it, what does not fit leaves
    the list, and the caps are bounds again. *)
Lemma filterPrice_lists tl l c g : lists tl l →
  let '(removed, errs, tl') := filterPrice order tl c g in
  removed ≡ₚ filter (λ tx, priceError c g tx ≠ None) l ∧ length errs = length removed
  ∧ lists tl' (filter (λ tx, priceError c g tx = None) l) ∧ strict tl' = strict tl ∧ lastStkCheck tl' = lastStkCheck tl.
Proof.
  intros [Hst Hb]. unfold filterPrice. destruct (Z.leb_spec (costcap tl) c) as [H1|H1], (Z.leb_spec (gascap tl) g) as [H2|H2]; cbn [andb].
  1: { assert (Forall (λ tx, priceError c g tx = None) l) as Hall.
       { eapply Forall_impl; [exact Hb|]. intros y Hy. apply priceError_capped. by eapply capped_mono. }
       rewrite (list_filter_all _ l Hall), (list_filter_none _ l); [by split_and!|]. eapply Forall_impl; [exact Hall|]. cbn. intros y ->. by intros ?. }
  all: destruct (FilterWithError_stands order order_perm (txs tl) l (priceError c g) Hst) as (Hr & He & Hm); destruct (smFilterWithError order (txs tl) (priceError c g)) as [[removed errs] m'];
    cbn [fst snd] in *; split_and!; try done;
    [by rewrite He, Hr, errors_length
    |split; [done|]; cbn [costcap gascap]; rewrite Forall_forall; intros y [Hy _]%list_elem_of_filter; by apply priceError_capped].
Qed.

Lemma capped_filter c g (P : PoolTransaction → Prop) `{∀ x, Decision (P x)} l : Forall (capped c g) l → Forall (capped c g) (filter P l).
Proof. rewrite !Forall_forall. intros Hb y [_ Hy]%list_elem_of_filter. by apply Hb. Qed.

Lemma filterStaking_lists tl l vst : lists tl l →
  let '(removed, errs, tl') := filterStaking order tl vst in
  removed ≡ₚ filter (λ tx, (if ptStaking tx then errStaking <$> vst tx else None) ≠ None) l ∧ length errs = length removed
  ∧ lists tl' (filter (λ tx, (if ptStaking tx then errStaking <$> vst tx else None) = None) l) ∧ strict tl' = strict tl.
Proof.
  intros [Hst Hb]. unfold filterStaking.
  destruct (FilterWithError_stands order order_perm (txs tl) l (λ tx, if ptStaking tx then errStaking <$> vst tx else None) Hst) as (Hr & He & Hm).
  destruct (smFilterWithError order (txs tl) _) as [[removed errs] m']. cbn [fst snd] in *. split_and!; [done|by rewrite He, Hr, errors_length| |done].
  split; [done|]. by apply capped_filter.
Qed.

(** *** What [FilterValid] keeps *)

(** The transactions that pass the checks that are due at block [bn]. *)
Definition validTx tl (costLimit gasLimit : Z) (vst : PoolTransaction → option Z) (bn : Z) tx : bool :=
  bool_decide (priceError costLimit gasLimit tx = None)
  && negb ((u64 (lastStkCheck tl + stakingTxCheckThreshold) <=? bn) && ptStaking tx && bool_decide (vst tx ≠ None)).

Fixpoint validPrefix (valid : PoolTransaction → bool) l : list PoolTransaction :=
  match l with [] => [] | tx :: l => if valid tx then tx :: validPrefix valid l else [] end.
(** The valid transactions behind the first invalid one. *)
Fixpoint stranded (valid : PoolTransaction → bool) l : list PoolTransaction :=
  match l with [] => [] | tx :: l => if valid tx then stranded valid l else filter (λ y, valid y = true) l end.

Lemma lowest_spec removed lo : let lowest := foldl (λ lowest tx, if ptNonce tx <? lowest then ptNonce tx else lowest) lo removed in
  Forall (λ tx, lowest ≤ ptNonce tx) removed ∧ lowest ≤ lo ∧ (lowest = lo ∨ ∃ tx, tx ∈ removed ∧ lowest = ptNonce tx).
Proof.
  revert lo. induction removed as [|x r IH]; intros lo; cbn [foldl]; [split_and!; [constructor|lia|by left]|].
  specialize (IH (if ptNonce x <? lo then ptNonce x else lo)) as (H1 & H2 & H3). cbn zeta. set (lw := foldl _ _ r) in *.
  destruct (Z.ltb_spec (ptNonce x) lo); split_and!; try (constructor; [lia|done]); try lia.
  - right. destruct H3 as [H3|(tx & Htx & H3)]; [exists x; split; [by left|done]|exists tx; split; [by right|done]].
  - destruct H3 as [H3|(tx & Htx & H3)]; [by left|right; exists tx; split; [by right|done]].
Qed.

(** The lowest nonce that leaves cuts the sorted list at the first invalid transaction. *)
Lemma prefix_cut (valid : PoolTransaction → bool) l low tx0 :
  StronglySorted nonceLt l → tx0 ∈ l → valid tx0 = false → low = ptNonce tx0 → (∀ tx, tx ∈ l → valid tx = false → low ≤ ptNonce tx) →
  filter (λ tx, (low <? ptNonce tx) = false) (filter (λ tx, valid tx = true) l) = validPrefix valid l
  ∧ filter (λ tx, (low <? ptNonce tx) = true) (filter (λ tx, valid tx = true) l) = stranded valid l.
Proof.
  intros Hs. induction Hs as [|x l Hs IH Hlt]; [by intros ?%not_elem_of_nil|]. intros Hin Hv Hlow Hmin. rewrite filter_cons. cbn [validPrefix stranded].
  rewrite Forall_forall in Hlt. destruct (valid x) eqn:Ex.
  - rewrite decide_True by done. apply elem_of_cons in Hin as [->|Hin]; [congruence|]. pose proof (Hlt _ Hin) as Hx. unfold nonceLt in Hx.
    rewrite !filter_cons, decide_True, decide_False by (destruct (Z.ltb_spec low (ptNonce x)); done || lia).
    destruct IH as [-> ->]; [done|done|done| |done]. intros tx Htx. apply Hmin. by right.
  - rewrite decide_False by done. assert (low = ptNonce x) as ->.
    { apply elem_of_cons in Hin as [->|Hin]; [done|]. pose proof (Hmin x ltac:(by left) Ex). specialize (Hlt _ Hin). unfold nonceLt in Hlt. lia. }
    assert (Forall (λ tx, (ptNonce x <? ptNonce tx) = true) (filter (λ tx, valid tx = true) l)) as Hall.
    { rewrite Forall_forall. intros y [_ Hy]%list_elem_of_filter. apply Z.ltb_lt. by apply Hlt. }
    split; [|by apply list_filter_all]. apply list_filter_none. eapply Forall_impl; [exact Hall|]. cbn. intros y ->. done.
Qed.

Lemma validPrefix_all (valid : PoolTransaction → bool) l : filter (λ tx, valid tx = false) l = [] → validPrefix valid l = l ∧ filter (λ tx, valid tx = true) l = l.
Proof.
  induction l as [|x l IH]; [done|]. rewrite !filter_cons. cbn. destruct (valid x); [|by rewrite decide_True].
  rewrite decide_False by done. intros Hn. rewrite decide_True by done. destruct (IH Hn) as [-> ->]. done.
Qed.

(** The checks of the price and of the staking messages, one after the other. *)
Lemma checks_lists tl l c g vst bn : lists tl l →
  let '(removed1, errs1, l1) := filterPrice order tl c g in
  let '(removed, errs, l2) :=
    if u64 (lastStkCheck l1 + stakingTxCheckThreshold) <=? bn then
      let '(stkRemoved, errRemoved, l2) := filterStaking order (mkTxList (strict l1) (txs l1) bn (costcap l1) (gascap l1)) vst in
      (removed1 ++ stkRemoved, errs1 ++ errRemoved, l2)
    else (removed1, errs1, l1) in
  removed ≡ₚ filter (λ tx, validTx tl c g vst bn tx = false) l ∧ length errs = length removed
  ∧ lists l2 (filter (λ tx, validTx tl c g vst bn tx = true) l) ∧ strict l2 = strict tl.
Proof.
  intros Hl. pose proof (filterPrice_lists tl l c g Hl) as Hp. destruct (filterPrice order tl c g) as [[removed1 errs1] l1].
  destruct Hp as (Hr1 & He1 & Hl1 & Hs1 & Hk1). rewrite Hk1. unfold validTx. destruct (u64 (lastStkCheck tl + stakingTxCheckThreshold) <=? bn) eqn:Ed; cbn [andb].
  - assert (lists (mkTxList (strict l1) (txs l1) bn (costcap l1) (gascap l1)) (filter (λ tx, priceError c g tx = None) l)) as Hl1' by (destruct Hl1; by split).
    pose proof (filterStaking_lists _ _ vst Hl1') as Hq. destruct (filterStaking order _ vst) as [[r2 e2] l2]. destruct Hq as (Hr2 & He2 & Hl2 & Hs2).
    split_and!; [|by rewrite !length_app, He1, He2| |by rewrite Hs2].
    + rewrite Hr1, Hr2. clear. induction l as [|x l IH]; [done|]. rewrite !filter_cons.
      destruct (priceError c g x) as [e|] eqn:E; cbn.
      * rewrite (decide_True (P := Some e ≠ None)), (decide_False (P := Some e = None)) by done. cbn. by rewrite IH.
      * rewrite (decide_False (P := None ≠ None)) by (by intros ?). rewrite (decide_True (P := None = None)) by done. rewrite filter_cons.
        destruct (ptStaking x), (vst x) as [e|]; cbn; rewrite ?decide_True, ?decide_False by (done || by intros ?); try done; rewrite <-?IH; try done. by rewrite <-Permutation_middle.
    + rewrite list_filter_filter in Hl2. erewrite list_filter_iff; [exact Hl2|]. intros x. cbn. rewrite andb_true_iff, bool_decide_eq_true.
      destruct (ptStaking x), (vst x) as [e|]; cbn; split; intros; destruct_and?; try done; by split_and!.
  - split_and!; [|done| |done].
    + rewrite Hr1. erewrite list_filter_iff; [done|]. intros x. cbn. rewrite andb_true_r. by rewrite bool_decide_eq_false.
    + erewrite list_filter_iff; [exact Hl1|]. intros x. cbn. rewrite andb_true_r. by rewrite bool_decide_eq_true.
Qed.

(** C27: [FilterValid] removes exactly the transactions of the account that no longer pay, exceed
    the gas limit or fail the staking validation that is due, with an error each; a strict list
    keeps the longest valid prefix by nonce and hands back the valid transactions behind it, any
    other list keeps all valid transactions; the short circuit on the caps misses none. *)
Theorem FilterValid_spec tl l c g vst bn : lists tl l →
  let valid := validTx tl c g vst bn in
  let '(removed, errs, invalids, tl') := FilterValid order tl c g vst bn in
  removed ≡ₚ filter (λ tx, valid tx = false) l ∧ length errs = length removed
  ∧ (if strict tl then lists tl' (validPrefix valid l) ∧ invalids ≡ₚ stranded valid l
     else lists tl' (filter (λ tx, valid tx = true) l) ∧ invalids = []).
Proof.
  intros Hl valid. pose proof (checks_lists tl l c g vst bn Hl) as Hc. unfold FilterValid. destruct (filterPrice order tl c g) as [[removed1 errs1] l1].
  destruct (if u64 (lastStkCheck l1 + stakingTxCheckThreshold) <=? bn then _ else _) as [[removed errs] l2]. destruct Hc as (Hr & He & Hl2 & Hs2).
  fold valid in Hr, Hl2. rewrite Hs2. destruct (strict tl) eqn:Es; cbn [andb]; [|by split_and!].
  destruct removed as [|r0 rs] eqn:Er; cbn [negb Nat.eqb length].
  - apply Permutation_nil in Hr. pose proof (validPrefix_all valid l Hr) as [Hv Hf]. rewrite Hf in Hl2. rewrite Hr, Hv. split_and!; try done.
    assert (stranded valid l = []) as ->; [|done]. clear -Hr. induction l as [|x l IH]; [done|]. rewrite filter_cons in Hr. cbn. destruct (valid x); [|by rewrite decide_True in Hr].
    apply IH. by rewrite decide_False in Hr.
  - rewrite <-Er in *. assert (removed ≠ []) as Hne by (by rewrite Er). clear Er.
    set (low := foldl _ maxUint64 removed). pose proof (lowest_spec removed maxUint64) as Hlow. cbn zeta in Hlow. fold low in Hlow. destruct Hlow as (Hlo1 & Hlo2 & Hlo3).
    destruct Hl as [Hst Hb]. pose proof (st_sorted _ _ Hst) as Hs. pose proof (st_width _ _ Hst) as Hw.
    assert (∃ tx0, tx0 ∈ l ∧ valid tx0 = false ∧ low = ptNonce tx0) as (tx0 & Hin & Hv & Hlow0).
    { assert (∀ y, y ∈ removed → y ∈ l ∧ valid y = false) as Hsub by (intros y Hy; rewrite Hr in Hy; apply list_elem_of_filter in Hy as [??]; done).
      destruct Hlo3 as [Heq|(tx & Htx & Heq)].
      - destruct removed as [|y ys]; [done|]. exists y. destruct (Hsub y ltac:(by left)) as [Hy1 Hy2]. split_and!; try done.
        apply Forall_cons in Hlo1 as [Hle _]. rewrite Forall_forall in Hw. specialize (Hw y Hy1). unfold maxUint64 in *. cbn beta in *. lia.
      - exists tx. destruct (Hsub tx Htx). done. }
    assert (∀ tx, tx ∈ l → valid tx = false → low ≤ ptNonce tx) as Hmin.
    { intros tx Htx Hf. rewrite Forall_forall in Hlo1. apply Hlo1. rewrite Hr. by apply list_elem_of_filter. }
    destruct (prefix_cut valid l low tx0 Hs Hin Hv Hlow0 Hmin) as [Hk Hd]. destruct Hl2 as [Hst2 Hb2].
    destruct (Filter_stands order order_perm (txs l2) _ (λ tx, low <? ptNonce tx) Hst2) as [Hp Hm]. rewrite Hk in Hm. rewrite Hd in Hp.
    destruct (smFilter order (txs l2) (λ tx, low <? ptNonce tx)) as [invalids m']. cbn [fst snd] in *. split_and!; try done.
    split; [done|]. rewrite <-Hk. by apply capped_filter.
Qed.
End account.

(** *** The other methods *)
Section methods.
Context (order : gmap Z PoolTransaction → list (Z * PoolTransaction)) (order_perm : ∀ its, order its ≡ₚ map_to_list its).
Implicit Types (tl : txList) (l : list PoolTransaction) (tx : PoolTransaction).

Lemma Forward_lists tl l t : lists tl l → ∃ tl', Forward tl t = Some ((ByNonce.forward t l).1, tl') ∧ lists tl' (ByNonce.forward t l).2.
Proof. intros [Hst Hb]. destruct (Forward_stands (txs tl) l t Hst) as (m' & E & Hm). unfold Forward. rewrite E. cbn. eexists. split; [done|]. split; [done|]. by apply capped_filter. Qed.
Lemma Cap_lists tl l n : lists tl l → ∃ tl', Cap tl n = Some ((ByNonce.cap n l).1, tl') ∧ lists tl' (ByNonce.cap n l).2.
Proof. intros [Hst Hb]. destruct (Cap_stands (txs tl) l n Hst) as (m' & E & Hm). unfold Cap. rewrite E. cbn. eexists. split; [done|]. split; [done|]. by apply Forall_take. Qed.
Lemma Ready_lists tl l s : lists tl l → ∃ tl', Ready tl s = Some ((ByNonce.ready s l).1, tl') ∧ lists tl' (ByNonce.ready s l).2.
Proof.
  intros [Hst Hb]. destruct (Ready_stands (txs tl) l s Hst) as (m' & E & Hm). unfold Ready. rewrite E. cbn. eexists. split; [done|]. split; [done|].
  rewrite <-(ready_app s l) in Hb. by apply Forall_app in Hb as [_ ?].
Qed.

(** [Remove]: a strict list loses what follows the transaction, too. *)
Lemma Remove_lists tl l tx : lists tl l →
  ∃ found invalids tl', Remove order tl tx = Some (found, invalids, tl') ∧ found = bool_decide (ptNonce tx ∈ nonces l)
    ∧ (if found && strict tl then lists tl' (filter (λ y, ptNonce y < ptNonce tx) l) ∧ invalids ≡ₚ filter (λ y, ptNonce tx < ptNonce y) l
       else lists tl' (ByNonce.remove (ptNonce tx) l) ∧ invalids = []).
Proof.
  intros [Hst Hb]. destruct (Remove_stands (txs tl) l (ptNonce tx) Hst) as (m' & E & Hm). unfold Remove. rewrite E. cbn [mbind option_bind].
  destruct (bool_decide (ptNonce tx ∈ nonces l)) eqn:Ef; cbn [negb andb].
  2: { apply bool_decide_eq_false in Ef. eexists _, _, _. split; [done|]. split; [done|]. by rewrite remove_notin. }
  destruct (strict tl); cbn [andb].
  2: { eexists _, _, _. split; [done|]. split; [done|]. split; [|done]. split; [done|]. by apply capped_filter. }
  destruct (Filter_stands order order_perm m' _ (λ t, ptNonce tx <? ptNonce t) Hm) as [Hp Hm']. destruct (smFilter order m' _) as [inv m'']. cbn [fst snd] in *.
  eexists _, _, _. split; [done|]. split; [done|]. unfold ByNonce.remove in *. rewrite list_filter_filter in Hp, Hm'.
  rewrite (list_filter_iff _ (λ y, ptNonce y < ptNonce tx)) in Hm' by (intros y; cbn; rewrite Z.ltb_ge; lia).
  rewrite (list_filter_iff _ (λ y, ptNonce tx < ptNonce y)) in Hp by (intros y; cbn; rewrite Z.ltb_lt; lia).
  split; [|done]. split; [done|]. by apply capped_filter.
Qed.
End methods.

(** ** The prices of the pool *)
Section prices.
Context (all : txLookup) (local : accountSet).
Implicit Types (h l : list PoolTransaction) (tx : PoolTransaction).

Lemma priceLess_asym a b : priceLess a b = true → priceLess b a = false.
Proof. unfold priceLess. rewrite (Z.compare_antisym (ptGasPrice a)). destruct (ptGasPrice a ?= ptGasPrice b); cbn; try done. apply ltb_asym. Qed.
Lemma priceLess_trans x y z : priceLess y x = false → priceLess z y = false → priceLess z x = false.
Proof.
  unfold priceLess. destruct (Z.compare_spec (ptGasPrice y) (ptGasPrice x)), (Z.compare_spec (ptGasPrice z) (ptGasPrice y)), (Z.compare_spec (ptGasPrice z) (ptGasPrice x));
    rewrite ?Z.ltb_ge; try done; try lia.
Qed.
Lemma priceLe_price a b : HeapFacts.le priceLess a b → ptGasPrice a ≤ ptGasPrice b.
Proof. unfold HeapFacts.le, priceLess. destruct (Z.compare_spec (ptGasPrice b) (ptGasPrice a)); try done; lia. Qed.

Definition priceHeap h : Prop := HeapFacts.isHeap priceLess h.
Definition live tx : Prop := stale all tx = false.
Definition remote tx : Prop := live tx ∧ containsTx local tx = false.
#[local] Instance live_dec tx : Decision (live tx).
Proof. unfold live. apply _. Defined.
#[local] Instance remote_dec tx : Decision (remote tx).
Proof. unfold remote. apply _. Defined.
Definition staleCount h : Z := Z.of_nat (length (filter (λ tx, ¬ live tx) h)).

(** Popping the heap of prices: its cheapest transaction leaves. *)
Lemma pop_price x h : priceHeap (x :: h) → ∃ h', Heap.Pop priceLess (x :: h) = Some (x, h') ∧ priceHeap h' ∧ x :: h ≡ₚ x :: h' ∧ h ≡ₚ h'
  ∧ Forall (HeapFacts.le priceLess x) h'.
Proof.
  intros Hh. destruct (HeapFacts.Pop_spec priceLess priceLess_asym priceLess_trans (x :: h) Hh) as (h' & Hp & Hh' & Hperm); [done|]. cbn in Hp, Hperm.
  exists h'. apply (Permutation_cons_inv (a := x)) in Hperm as Hperm'. split_and!; try done. rewrite <-Hperm', Forall_forall. intros y [k Hk]%list_elem_of_lookup.
  pose proof (HeapFacts.heap_min priceLess priceLess_asym priceLess_trans (x :: h) (S k) Hh) as Hm.
  rewrite (list_lookup_total_correct (x :: h) (S k) y Hk) in Hm. apply Hm. cbn [length]. apply lookup_lt_Some in Hk. lia.
Qed.

Lemma pushAll_spec h save : priceHeap h → priceHeap (pushAll h save) ∧ pushAll h save ≡ₚ save ++ h.
Proof.
  revert h. induction save as [|x save IH]; intros h Hh; [done|]. cbn [pushAll foldl]. destruct (HeapFacts.Push_spec priceLess priceLess_asym priceLess_trans h x Hh) as [H1 H2].
  destruct (IH _ H1) as [H3 H4]. split; [done|]. unfold pushAll in H4. rewrite H4, H2. symmetry. apply Permutation_middle.
Qed.

Lemma staleCount_live x h : live x → staleCount (x :: h) = staleCount h.
Proof. intros Hx. unfold staleCount. by rewrite filter_cons_False by (by intros ?). Qed.
Lemma staleCount_stale x h : ¬ live x → staleCount (x :: h) = staleCount h + 1.
Proof. intros Hx. unfold staleCount. rewrite filter_cons_True by done. cbn [length]. lia. Qed.
#[local] Instance staleCount_proper : Proper ((≡ₚ) ==> (=)) staleCount.
Proof. intros h h' Hp. unfold staleCount. by rewrite Hp. Qed.

(** What a round of popping leaves of the heap [h]: the dropped remote transactions [ds], the
    saved ones [ss], and the heap [h']; the stale points among the popped are counted off. *)
Record popped h ds ss h' (st st' : Z) : Prop := {
  po_heap : priceHeap h';
  po_live : filter live h ≡ₚ ds ++ ss ++ filter live h';
  po_remote : Forall remote ds;
  po_saved : Forall live ss;
  po_cheap : ∀ d r, d ∈ ds → r ∈ h' → HeapFacts.le priceLess d r;
  po_sub : ∀ r, r ∈ h' → r ∈ h;
  po_stales : st' - staleCount h' = st - staleCount h }.

Lemma popped_nil h st : priceHeap h → popped h [] [] h st st.
Proof. intros Hh. constructor; try done. intros d r Hd. by apply not_elem_of_nil in Hd. Qed.

(** The three cases of a popped transaction. *)
Lemma popped_stale x h h1 ds ss h' st st' : x :: h ≡ₚ x :: h1 → ¬ live x → popped h1 ds ss h' (st - 1) st' → popped (x :: h) ds ss h' st st'.
Proof.
  intros Hp Hx [H1 H2 H3 H4 H5 H6 H7]. constructor; try done.
  - rewrite Hp, filter_cons_False by done. done.
  - intros r Hr. rewrite Hp. right. by apply H6.
  - rewrite Hp, staleCount_stale by done. lia.
Qed.
Lemma popped_save x h h1 ds ss h' st st' : x :: h ≡ₚ x :: h1 → live x → popped h1 ds ss h' st st' → popped (x :: h) ds (x :: ss) h' st st'.
Proof.
  intros Hp Hx [H1 H2 H3 H4 H5 H6 H7]. constructor; try done.
  - rewrite Hp, filter_cons_True, H2 by done. cbn. apply Permutation_middle.
  - by constructor.
  - intros r Hr. rewrite Hp. right. by apply H6.
  - by rewrite Hp, staleCount_live.
Qed.
Lemma popped_drop x h h1 ds ss h' st st' : x :: h ≡ₚ x :: h1 → remote x → Forall (HeapFacts.le priceLess x) h1 → popped h1 ds ss h' st st' → popped (x :: h) (x :: ds) ss h' st st'.
Proof.
  intros Hp Hx Hmin [H1 H2 H3 H4 H5 H6 H7]. pose proof Hx as [Hl _]. constructor; try done.
  - by rewrite Hp, filter_cons_True, H2.
  - by constructor.
  - intros d r [->|Hd]%elem_of_cons Hr; [|by apply H5]. rewrite Forall_forall in Hmin. by apply Hmin, H6.
  - intros r Hr. rewrite Hp. right. by apply H6.
  - by rewrite Hp, staleCount_live.
Qed.

Lemma discardLoop_spec fuel : ∀ count h st drop save, priceHeap h → (length h ≤ fuel)%nat →
  ∃ h' st' ds ss, discardLoop all local fuel count h st drop save = Some (h', st', drop ++ ds, save ++ ss) ∧ popped h ds ss h' st st'
    ∧ Forall (λ tx, containsTx local tx = true) ss ∧ Z.of_nat (length ds) ≤ Z.max 0 count ∧ (Z.of_nat (length ds) = Z.max 0 count ∨ h' = []).
Proof.
  induction fuel as [|fuel IH]; intros count h st drop save Hh Hf.
  { destruct h; [|cbn in Hf; lia]. exists [], st, [], []. cbn. rewrite !app_nil_r. split_and!; [done|by apply popped_nil|constructor|lia|by right]. }
  destruct h as [|x h]; cbn [discardLoop].
  { exists [], st, [], []. rewrite !app_nil_r. split_and!; [done|by apply popped_nil|constructor|cbn; lia|by right]. }
  destruct (Z.ltb_spec 0 count) as [Hc|Hc].
  2: { exists (x :: h), st, [], []. rewrite !app_nil_r. split_and!; [done|by apply popped_nil|constructor|cbn; lia|left; cbn; lia]. }
  destruct (pop_price x h Hh) as (h1 & -> & Hh1 & Hp & Hp1 & Hmin). cbn [mbind option_bind].
  assert (length h1 ≤ fuel)%nat as Hf1 by (rewrite <-Hp1; cbn in Hf; lia).
  destruct (stale all x) eqn:Es; [|destruct (containsTx local x) eqn:El].
  - destruct (IH count h1 (st - 1) drop save Hh1 Hf1) as (h' & st' & ds & ss & -> & Hpo & Hss & Hd & Hd'). exists h', st', ds, ss. split_and!; try done.
    eapply popped_stale; [done|unfold live; congruence|done].
  - destruct (IH count h1 st drop (save ++ [x]) Hh1 Hf1) as (h' & st' & ds & ss & -> & Hpo & Hss & Hd & Hd'). exists h', st', ds, (x :: ss). rewrite <-app_assoc.
    split_and!; try done; [by eapply popped_save|by constructor].
  - destruct (IH (count - 1) h1 st (drop ++ [x]) save Hh1 Hf1) as (h' & st' & ds & ss & -> & Hpo & Hss & Hd & Hd'). exists h', st', (x :: ds), ss. rewrite <-app_assoc.
    split_and!; try done; [by eapply popped_drop|cbn [length]; lia|]. destruct Hd'; [left; cbn [length]; lia|by right].
Qed.

Lemma filter_live_remote h : filter remote (filter live h) = filter remote h.
Proof. rewrite list_filter_filter. apply list_filter_iff. intros x. unfold remote. cbn. tauto. Qed.
Lemma remote_none l : Forall (λ tx, containsTx local tx = true) l → filter remote l = [].
Proof. intros Hl. apply list_filter_none. eapply Forall_impl; [exact Hl|]. cbn. intros x Hx [_ Hr]. congruence. Qed.

(** [Discard] always returns; it drops as many transactions of the pool that are not local as
    it was asked to, or all of them, and those are the cheapest; every other transaction of the
    pool stays in the heap, and the counter of stale points goes down with the stale points. *)
Theorem Discard_spec pl count : priceHeap (prItems pl) →
  ∃ drops pl', Discard all local pl count = Some (drops, pl')
    ∧ priceHeap (prItems pl') ∧ filter live (prItems pl) ≡ₚ drops ++ filter live (prItems pl')
    ∧ Forall remote drops ∧ Z.of_nat (length drops) = Z.min (Z.max 0 count) (Z.of_nat (length (filter remote (prItems pl))))
    ∧ (∀ d r, d ∈ drops → r ∈ prItems pl' → remote r → ptGasPrice d ≤ ptGasPrice r)
    ∧ stales pl' - staleCount (prItems pl') = stales pl - staleCount (prItems pl).
Proof.
  intros Hh. destruct (discardLoop_spec (length (prItems pl)) count (prItems pl) (stales pl) [] [] Hh) as (h' & st' & ds & ss & E & [H1 H2 H3 H4 H5 H6 H7] & Hss & Hd & Hd'); [done|].
  unfold Discard. rewrite E. cbn [mbind option_bind app]. eexists _, _. split; [done|]. cbn [prItems stales]. destruct (pushAll_spec h' ss H1) as [Hp1 Hp2].
  assert (filter live ss = ss) as Hls by (by apply list_filter_all).
  assert (filter live (pushAll h' ss) ≡ₚ ss ++ filter live h') as Hlive by (by rewrite Hp2, filter_app, Hls).
  split_and!; try done.
  - by rewrite H2, Hlive.
  - assert (length (filter remote (prItems pl)) = (length ds + length (filter remote h'))%nat) as Hlen.
    { rewrite <-filter_live_remote, H2, !filter_app, (remote_none ss Hss), filter_live_remote, (list_filter_all remote ds H3). cbn. by rewrite length_app. }
    destruct Hd' as [Hd' | ->]; [lia|]. cbn in Hlen. lia.
  - intros d r Hdin Hr Hrem. rewrite Hp2 in Hr. apply elem_of_app in Hr as [Hr|Hr]; [|by apply priceLe_price, H5]. exfalso.
    rewrite Forall_forall in Hss. destruct Hrem as [_ Hrem]. by rewrite (Hss r Hr) in Hrem.
  - rewrite Hp2. unfold staleCount in *. rewrite filter_app, (list_filter_none _ ss); [cbn; lia|]. eapply Forall_impl; [exact H4|]. cbn. by intros x Hx ?.
Qed.

Lemma pricedCapLoop_spec fuel t : ∀ h st drop save, priceHeap h → (length h ≤ fuel)%nat →
  ∃ h' st' ds ss, pricedCapLoop all local fuel t h st drop save = Some (h', st', drop ++ ds, save ++ ss) ∧ popped h ds ss h' st st'
    ∧ Forall (λ tx, ptGasPrice tx < t) ds ∧ (∀ r, r ∈ ss ++ h' → remote r → t ≤ ptGasPrice r).
Proof.
  induction fuel as [|fuel IH]; intros h st drop save Hh Hf.
  { destruct h; [|cbn in Hf; lia]. exists [], st, [], []. cbn. rewrite !app_nil_r. split_and!; [done|by apply popped_nil|constructor|by intros r ?%not_elem_of_nil]. }
  destruct h as [|x h]; cbn [pricedCapLoop].
  { exists [], st, [], []. rewrite !app_nil_r. split_and!; [done|by apply popped_nil|constructor|by intros r ?%not_elem_of_nil]. }
  destruct (pop_price x h Hh) as (h1 & -> & Hh1 & Hp & Hp1 & Hmin). cbn [mbind option_bind].
  assert (length h1 ≤ fuel)%nat as Hf1 by (rewrite <-Hp1; cbn in Hf; lia).
  destruct (stale all x) eqn:Es; [|destruct (Z.leb_spec t (ptGasPrice x)) as [Ht|Ht]; [|destruct (containsTx local x) eqn:El]].
  - destruct (IH h1 (st - 1) drop save Hh1 Hf1) as (h' & st' & ds & ss & -> & Hpo & Hd & Hr). exists h', st', ds, ss. split_and!; try done.
    eapply popped_stale; [done|unfold live; congruence|done].
  - exists h1, st, [], [x]. rewrite app_nil_r. split_and!; [done|eapply popped_save; [done|done|by apply popped_nil]|constructor|].
    intros r [->|Hr]%elem_of_cons _; [done|]. cbn in Hr. rewrite Forall_forall in Hmin. pose proof (priceLe_price _ _ (Hmin r Hr)). lia.
  - destruct (IH h1 st drop (save ++ [x]) Hh1 Hf1) as (h' & st' & ds & ss & -> & Hpo & Hd & Hr). exists h', st', ds, (x :: ss). rewrite <-app_assoc.
    split_and!; try done; [by eapply popped_save|]. intros r [->|Hin]%elem_of_cons Hrem; [destruct Hrem; congruence|by apply Hr].
  - destruct (IH h1 st (drop ++ [x]) save Hh1 Hf1) as (h' & st' & ds & ss & -> & Hpo & Hd & Hr). exists h', st', (x :: ds), ss. rewrite <-app_assoc.
    split_and!; try done; [by eapply popped_drop|by constructor].
Qed.

(** [Cap] drops exactly the transactions of the pool below the threshold that are not local. *)
Theorem pricedCap_spec pl t : priceHeap (prItems pl) →
  ∃ drops pl', pricedCap all local pl t = Some (drops, pl')
    ∧ priceHeap (prItems pl') ∧ filter live (prItems pl) ≡ₚ drops ++ filter live (prItems pl')
    ∧ drops ≡ₚ filter (λ tx, remote tx ∧ ptGasPrice tx < t) (prItems pl)
    ∧ stales pl' - staleCount (prItems pl') = stales pl - staleCount (prItems pl).
Proof.
  intros Hh. destruct (pricedCapLoop_spec (length (prItems pl)) t (prItems pl) (stales pl) [] [] Hh) as (h' & st' & ds & ss & E & [H1 H2 H3 H4 H5 H6 H7] & Hd & Hr); [done|].
  unfold pricedCap. rewrite E. cbn [mbind option_bind app]. eexists _, _. split; [done|]. cbn [prItems stales]. destruct (pushAll_spec h' ss H1) as [Hp1 Hp2].
  assert (filter live ss = ss) as Hls by (by apply list_filter_all).
  split_and!; try done.
  - by rewrite H2, Hp2, filter_app, Hls.
  - assert (filter (λ tx, remote tx ∧ ptGasPrice tx < t) (prItems pl) = filter (λ tx, remote tx ∧ ptGasPrice tx < t) (filter live (prItems pl))) as ->.
    { rewrite list_filter_filter. apply list_filter_iff. intros x. unfold remote. cbn. tauto. }
    rewrite H2, app_assoc, !filter_app, list_filter_filter. rewrite (list_filter_all _ ds), (list_filter_none _ ss), (list_filter_none _ h'); [by rewrite !app_nil_r| | |].
    + rewrite Forall_forall. intros r Hin [[Hrem Hlt] _]. specialize (Hr r). rewrite elem_of_app in Hr. specialize (Hr (or_intror Hin) Hrem). lia.
    + rewrite Forall_forall. intros r Hin [Hrem Hlt]. specialize (Hr r). rewrite elem_of_app in Hr. specialize (Hr (or_introl Hin) Hrem). lia.
    + rewrite Forall_forall in *. intros r Hin. split; [by apply H3|by apply Hd].
  - rewrite Hp2. unfold staleCount in *. rewrite filter_app, (list_filter_none _ ss); [cbn; lia|]. eapply Forall_impl; [exact H4|]. cbn. by intros x Hx ?.
Qed.

Lemma discardStale_spec fuel : ∀ h st, priceHeap h → (length h ≤ fuel)%nat →
  ∃ h' st', discardStale all fuel h st = Some (h', st') ∧ popped h [] [] h' st st' ∧ match h' with [] => True | x :: _ => live x end.
Proof.
  induction fuel as [|fuel IH]; intros h st Hh Hf.
  { destruct h; [|cbn in Hf; lia]. exists [], st. split_and!; [done|by apply popped_nil|done]. }
  destruct h as [|x h]; cbn [discardStale].
  { exists [], st. split_and!; [done|by apply popped_nil|done]. }
  destruct (stale all x) eqn:Es; [|exists (x :: h), st; split_and!; [done|by apply popped_nil|done]].
  destruct (pop_price x h Hh) as (h1 & -> & Hh1 & Hp & Hp1 & Hmin). cbn [mbind option_bind].
  destruct (IH h1 (st - 1) Hh1) as (h' & st' & -> & Hpo & Hl); [rewrite <-Hp1; cbn in Hf; lia|]. exists h', st'. split_and!; try done.
  eapply popped_stale; [done|unfold live; congruence|done].
Qed.

(** [Underpriced]: the transaction is not local and every transaction of the pool costs at least
    as much as it; only stale points leave the heap. *)
Theorem Underpriced_spec pl tx : priceHeap (prItems pl) →
  ∃ b pl', Underpriced all local pl tx = Some (b, pl')
    ∧ priceHeap (prItems pl') ∧ filter live (prItems pl') ≡ₚ filter live (prItems pl)
    ∧ (b = true ↔ containsTx local tx = false ∧ filter live (prItems pl) ≠ [] ∧ ∀ r, r ∈ prItems pl → live r → ptGasPrice tx ≤ ptGasPrice r).
Proof.
  intros Hh. unfold Underpriced. destruct (containsTx local tx) eqn:El; [exists false, pl; split_and!; try done; naive_solver|].
  destruct (discardStale_spec (length (prItems pl)) (prItems pl) (stales pl) Hh) as (h' & st' & -> & [H1 H2 _ _ _ H6 _] & Hl); [done|]. cbn [mbind option_bind app] in *.
  destruct h' as [|x h'].
  - eexists _, _. split; [done|]. split_and!; [done|by rewrite H2|]. split; [done|]. intros (_ & Hne & _). exfalso. apply Hne. by apply Permutation_nil_r in H2.
  - eexists _, _. split; [done|]. split_and!; [done|by rewrite H2|]. rewrite Z.leb_le. destruct (pop_price x h' H1) as (h1 & _ & _ & _ & Hp1 & Hmin). split.
    + intros Hle. split_and!; [done| |].
      * intros Hn. rewrite Hn, filter_cons_True in H2 by done. by apply Permutation_nil in H2.
      * intros r Hr Hlr. assert (r ∈ filter live (x :: h')) as Hin by (rewrite <-H2; by apply list_elem_of_filter).
        apply list_elem_of_filter in Hin as [_ [->|Hin]%elem_of_cons]; [done|]. rewrite Hp1 in Hin. rewrite Forall_forall in Hmin.
        pose proof (priceLe_price _ _ (Hmin r Hin)). lia.
    + intros (_ & _ & Hall). apply Hall; [apply H6; by left|done].
Qed.
End prices.

(** ** Instances *)
Definition demoTx (nonce price cost sender : Z) : PoolTransaction := mkPoolTx nonce price 21000 (Some cost) (100 * sender + nonce) false (Some sender) (Some 99) 0 200 0 [] 0.
Definition anyOrder : gmap Z PoolTransaction → list (Z * PoolTransaction) := λ its, reverse (map_to_list its).
Lemma anyOrder_perm its : anyOrder its ≡ₚ map_to_list its.
Proof. apply reverse_Permutation. Qed.

Definition demoOps : list smOp :=
  [OpPut (demoTx 7 1 1 1); OpPut (demoTx 5 1 1 1); OpPut (demoTx 9 1 1 1); OpFlatten; OpPut (demoTx 6 1 1 1); OpPut (demoTx 4 1 1 1); OpForward 5;
   OpRemove 9; OpFilter (λ tx, ptNonce tx =? 6); OpPut (demoTx 6 2 1 1); OpCap 2; OpPut (demoTx 8 1 1 1); OpReady 5].

(** The last three answers: [Cap] drops the highest nonce, and [Ready] stops at the gap. *)
Example demoOps_answers :
  (λ r, drop 10 r.1) <$> smRun anyOrder newTxSortedMap demoOps
  = Some [Txs [demoTx 7 1 1 1]; Done; Txs [demoTx 5 1 1 1; demoTx 6 2 1 1]].
Proof. vm_compute. reflexivity. Qed.

Lemma txSortedMap_refines_witness :
  ∃ os m, smRun anyOrder newTxSortedMap demoOps = Some (os, m) ∧ Forall3 answers demoOps os (listRun [] demoOps).1 ∧ stands m (listRun [] demoOps).2.
Proof. apply (txSortedMap_refines anyOrder anyOrder_perm). repeat constructor; cbn; lia. Defined.

(** Three pending transactions of an account whose balance has dropped below the cost of the
    second. *)
Definition demoPending : txList :=
  foldl (λ tl tx, (Add tl tx 1).2) (newTxList true) [demoTx 5 1 10 1; demoTx 6 1 90 1; demoTx 7 1 20 1].
Definition demoPendingTxs : list PoolTransaction := [demoTx 5 1 10 1; demoTx 6 1 90 1; demoTx 7 1 20 1].

Lemma demoPending_lists : lists demoPending demoPendingTxs.
Proof.
  assert (∀ tl l tx, lists tl l → 0 ≤ ptNonce tx < 2 ^ 64 → (Add tl tx 1).1.1 = true → lists (Add tl tx 1).2 (ByNonce.put tx l)) as Hadd.
  { intros tl l tx Hl Hn He. pose proof (Add_lists tl l tx 1 Hl Hn) as Ha. destruct (Add tl tx 1) as [[added old] tl']. cbn in He. by apply Ha. }
  unfold demoPending. cbn [foldl]. change demoPendingTxs with (ByNonce.put (demoTx 7 1 20 1) (ByNonce.put (demoTx 6 1 90 1) (ByNonce.put (demoTx 5 1 10 1) []))).
  repeat (apply Hadd; [|cbn; lia|vm_compute; reflexivity]). apply newTxList_lists.
Qed.

Lemma FilterValid_spec_witness :
  let '(removed, errs, invalids, tl') := FilterValid anyOrder demoPending 50 80000 (λ _, None) 3 in
  removed = [demoTx 6 1 90 1] ∧ errs = [errNotEnoughBalance] ∧ invalids = [demoTx 7 1 20 1] ∧ lists tl' [demoTx 5 1 10 1].
Proof.
  pose proof (FilterValid_spec anyOrder anyOrder_perm demoPending demoPendingTxs 50 80000 (λ _, None) 3 demoPending_lists) as Hs. cbn zeta in Hs.
  destruct (FilterValid anyOrder demoPending 50 80000 (λ _, None) 3) as [[[removed errs] invalids] tl'] eqn:E. destruct Hs as (Hr & _ & Hl & Hi).
  assert ((FilterValid anyOrder demoPending 50 80000 (λ _, None) 3).1 = ([demoTx 6 1 90 1], [errNotEnoughBalance], [demoTx 7 1 20 1])) as E'
    by (vm_compute; reflexivity). rewrite E in E'. cbn in E'. injection E' as -> -> ->. split_and!; try reflexivity. exact Hl.
Defined.

Definition demoAll : txLookup := list_to_map ((λ tx, (ptHash tx, tx)) <$> [demoTx 1 30 1 1; demoTx 1 10 1 2; demoTx 1 20 1 3]).
(** The account 2 is local, and the transaction of the account 4 is stale. *)
Definition demoPriced : txPricedList := mkPriced (pushAll [] [demoTx 1 30 1 1; demoTx 1 10 1 2; demoTx 1 5 1 4; demoTx 1 20 1 3]) 1.

Lemma Discard_spec_witness : ∃ drops pl', Discard demoAll {[2]} demoPriced 1 = Some (drops, pl') ∧ drops = [demoTx 1 20 1 3] ∧ stales pl' = 0 ∧ priceHeap (prItems pl').
Proof.
  destruct (Discard_spec demoAll {[2]} demoPriced 1) as (drops & pl' & E & Hh & _); [apply pushAll_spec; intros k Hk; cbn in Hk; lia|].
  exists drops, pl'. split; [exact E|]. assert ((λ r, (r.1, stales r.2)) <$> Discard demoAll {[2]} demoPriced 1 = Some ([demoTx 1 20 1 3], 0)) as E' by (vm_compute; reflexivity).
  rewrite E in E'. cbn in E'. injection E' as -> E2. split; [reflexivity|]. split; [exact E2|exact Hh].
Defined.
