(* ===== verification/TxPool.v ===== *)
(** * The transaction pool (core/tx_pool.go, core/state/managed_state.go)

    The pool keeps, for every account, the executable (pending) and the future (queued)
    transactions in two maps of lists, a lookup of all of them by hash, and the heap of their
    prices.  Every method runs under the lock of the pool and is one function of its state; a Go
    panic is [None].  The lists are pointers in Go: a list that a method changes is written back
    to its map at once.  The orders in which Go iterates maps, the order in which the priority queue of
    spammers pops equal accounts and the one in which accounts with the same heartbeat are
    sorted are arguments.  The error sink, the journal of local transactions, metrics and events
    are left out; the checks of staking messages are an argument, which PoolStaking.v defines. *)

From Stdlib Require Import ZArith Lia Sorted.
From stdpp Require Import base gmap list option sets sorting.
From S2P Require Import Prelude StateTransition TxList.
Local Open Scope Z_scope.

(** ** Managed nonces (core/state/managed_state.go) *)
Module Managed.
(** An account whose nonce is tracked: the nonce it starts at and the ones handed out.  The
    object pointer of the source is only kept. *)
Record account := mkAccount { nstart : Z; nonces : list bool }.
(** [dbNonce] are the nonces of the copied state database, the part of it that is used. *)
Record ManagedState := mkManaged { dbNonce : Address → Z; accounts : gmap Address account }.

Definition ManageState (dbNonce : Address → Z) : ManagedState := mkManaged dbNonce ∅.
Definition tracked (a : account) : Z := u64 (Z.of_nat (length (nonces a)) + nstart a).
Definition newAccount (ms : ManagedState) (addr : Address) : account := mkAccount (dbNonce ms addr) [].

(** An account that does not exist has the nonce 0, and so has the object created for it. *)
Definition getAccount (ms : ManagedState) (addr : Address) : account * ManagedState :=
  let put a := (a, mkManaged (dbNonce ms) (<[addr := a]> (accounts ms))) in
  match accounts ms !! addr with
  | None => put (newAccount ms addr)
  | Some a => if tracked a <? dbNonce ms addr then put (newAccount ms addr) else (a, ms)
  end.

Definition GetNonce (ms : ManagedState) (addr : Address) : Z * ManagedState :=
  match accounts ms !! addr with
  | Some _ => let '(a, ms') := getAccount ms addr in (tracked a, ms')
  | None => (dbNonce ms addr, ms)
  end.

Definition SetNonce (ms : ManagedState) (addr : Address) (nonce : Z) : ManagedState :=
  mkManaged (λ a, if decide (a = addr) then nonce else dbNonce ms a) (<[addr := mkAccount nonce []]> (accounts ms)).

Definition RemoveNonce (ms : ManagedState) (addr : Address) (n : Z) : ManagedState :=
  match accounts ms !! addr with
  | None => ms
  | Some _ =>
      let '(a, ms') := getAccount ms addr in
      let k := u64 (n - nstart a) in
      if k <=? Z.of_nat (length (nonces a))
      then mkManaged (dbNonce ms') (<[addr := mkAccount (nstart a) (take (Z.to_nat k) (nonces a))]> (accounts ms'))
      else ms'
  end.

Definition NewNonce (ms : ManagedState) (addr : Address) : Z * ManagedState :=
  let '(a, ms') := getAccount ms addr in
  match list_find (λ taken, taken = false) (nonces a) with
  | Some (i, _) => (u64 (nstart a + Z.of_nat i), ms')
  | None => (u64 (Z.of_nat (length (nonces a)) + nstart a),
             mkManaged (dbNonce ms') (<[addr := mkAccount (nstart a) (nonces a ++ [true])]> (accounts ms')))
  end.

Lemma tracked_val n l : isU64 (Z.of_nat (length l) + n) → tracked (mkAccount n l) = Z.of_nat (length l) + n.
Proof. apply u64_small. Qed.

Lemma SetNonce_GetNonce ms addr n : isU64 n → (GetNonce (SetNonce ms addr n) addr).1 = n.
Proof.
  intros Hn. unfold GetNonce, SetNonce, getAccount. cbn [accounts dbNonce]. rewrite !lookup_insert_eq, decide_True by done.
  rewrite (tracked_val n []) by done. cbn [length Z.of_nat Z.add]. rewrite Z.ltb_irrefl. cbn [fst]. by rewrite (tracked_val n []).
Qed.

(** Nonces that are handed out are consecutive. *)
Lemma NewNonce_next ms addr n : isU64 n → isU64 (n + 1) →
  let ms1 := SetNonce ms addr n in
  (NewNonce ms1 addr).1 = n ∧ (GetNonce (NewNonce ms1 addr).2 addr).1 = n + 1.
Proof.
  intros Hn Hn1. unfold NewNonce, SetNonce, getAccount. cbn [accounts dbNonce]. rewrite !lookup_insert_eq, decide_True by done.
  rewrite (tracked_val n []) by done. cbn [length Z.of_nat Z.add]. rewrite Z.ltb_irrefl. cbn [nonces list_find fst snd length Z.of_nat Z.add nstart].
  split; [by apply u64_small|]. unfold GetNonce, getAccount. cbn [accounts dbNonce]. rewrite lookup_insert_eq, decide_True by done.
  cbn [app]. assert (tracked (mkAccount n [true]) = n + 1) as E by (rewrite tracked_val; cbn [length]; [lia|by rewrite Z.add_comm]).
  rewrite E. destruct (Z.ltb_spec (n + 1) n); [lia|]. cbn [fst]. exact E.
Qed.
End Managed.

(** ** The state of the pool *)

(** What the pool reads of the state at the head of the chain. *)
Record ChainState := mkChainState { csNonce : Address → Z; csBalance : Address → Z; csFreeze : Address → bool }.

Record TxPoolConfig := mkConfig {
  PriceBump : Z; AccountSlots : Z; GlobalSlots : Z; AccountQueue : Z; GlobalQueue : Z; Lifetime : Z; Blacklist : gset Address; NoLocals : bool }.

Record TxPool := mkPool {
  pAll : txLookup; pPriced : txPricedList; pPending : gmap Address txList; pQueue : gmap Address txList; pLocals : accountSet;
  pNonces : Managed.ManagedState; pBeats : gmap Address Z; pGasPrice : Z; pState : ChainState; pMaxGas : Z }.

Definition setIndex (p : TxPool) (all : txLookup) (priced : txPricedList) : TxPool :=
  mkPool all priced (pPending p) (pQueue p) (pLocals p) (pNonces p) (pBeats p) (pGasPrice p) (pState p) (pMaxGas p).
Definition setPending (p : TxPool) (m : gmap Address txList) : TxPool :=
  mkPool (pAll p) (pPriced p) m (pQueue p) (pLocals p) (pNonces p) (pBeats p) (pGasPrice p) (pState p) (pMaxGas p).
Definition setQueue (p : TxPool) (m : gmap Address txList) : TxPool :=
  mkPool (pAll p) (pPriced p) (pPending p) m (pLocals p) (pNonces p) (pBeats p) (pGasPrice p) (pState p) (pMaxGas p).
Definition putPending (p : TxPool) (addr : Address) (l : txList) : TxPool := setPending p (<[addr := l]> (pPending p)).
Definition putQueue (p : TxPool) (addr : Address) (l : txList) : TxPool := setQueue p (<[addr := l]> (pQueue p)).
Definition setLocals (p : TxPool) (s : accountSet) : TxPool :=
  mkPool (pAll p) (pPriced p) (pPending p) (pQueue p) s (pNonces p) (pBeats p) (pGasPrice p) (pState p) (pMaxGas p).
Definition setNonces (p : TxPool) (ms : Managed.ManagedState) : TxPool :=
  mkPool (pAll p) (pPriced p) (pPending p) (pQueue p) (pLocals p) ms (pBeats p) (pGasPrice p) (pState p) (pMaxGas p).
Definition setBeats (p : TxPool) (b : gmap Address Z) : TxPool :=
  mkPool (pAll p) (pPriced p) (pPending p) (pQueue p) (pLocals p) (pNonces p) b (pGasPrice p) (pState p) (pMaxGas p).

(** [SenderAddress] without its error: the zero address when it fails. *)
Definition senderOf (tx : PoolTransaction) : Address := default 0 (ptSender tx).

Inductive addError :=
| ErrKnownTransaction | ErrInvalidShard | ErrAddrHasFreezed | ErrOversizedData | ErrNegativeValue | ErrGasLimit | ErrInvalidSender
| ErrBlacklistFrom | ErrBlacklistTo | ErrUnderpriced | ErrPoolNonceTooLow | ErrCost | ErrInsufficientFunds | ErrPoolOutOfGas | ErrIntrinsicGas
| ErrStaking (e : Z) | ErrReplaceUnderpriced.

Definition MaxPoolTransactionDataSize : Z := 1280 * 1024.
Definition DirectiveCreateValidator : Z := 0.
Definition DirectiveDelegate : Z := 2.

Section pool.
Context (config : TxPoolConfig).
(** The orders of iteration. *)
Context (order : gmap Z PoolTransaction → list (Z * PoolTransaction)) (range : txLookup → list PoolTransaction)
  (accountsOf : gmap Address txList → list Address) (dirtyOrder : gset Address → list Address).
(** The accounts in the order in which the queue of spammers pops them, highest priority first,
    and in the order of their heartbeats. *)
Context (popOrder byHeartbeat : list (Address * Z) → list Address).
(** [validateStakingTx], and what is read of the current block. *)
Context (validateStakingTx : ChainState → PoolTransaction → option Z) (blockShard : Z) (homestead istanbul : bool).

(** A transaction leaves the lookup and is reported to the price list. *)
Definition dropTx (p : TxPool) (tx : PoolTransaction) : TxPool :=
  let all := lookupRemove (pAll p) (ptHash tx) in setIndex p all (pricedRemoved range all (pPriced p)).
Definition indexTx (p : TxPool) (tx : PoolTransaction) : TxPool := setIndex p (lookupAdd (pAll p) tx) (pricedPut (pPriced p) tx).
(** [if pool.all.Get(tx.Hash()) == nil]. *)
Definition indexNew (p : TxPool) (tx : PoolTransaction) : TxPool :=
  match lookupGet (pAll p) (ptHash tx) with None => indexTx p tx | Some _ => p end.
Definition dropOld (p : TxPool) (old : option PoolTransaction) : TxPool := match old with Some o => dropTx p o | None => p end.
Definition touch (p : TxPool) (addr : Address) (now : Z) : TxPool := setBeats p (<[addr := now]> (pBeats p)).

(** A list that has become empty is deleted. *)
Definition pruneQueue (p : TxPool) (addr : Address) (l : txList) : TxPool := if Empty l then setQueue p (delete addr (pQueue p)) else p.
Definition prunePending (p : TxPool) (addr : Address) (l : txList) : TxPool :=
  if Empty l then setBeats (setPending p (delete addr (pPending p))) (delete addr (pBeats p)) else p.

(** Whether a transaction was replaced; [None] is [ErrReplaceUnderpriced]. *)
Definition enqueueTx (p : TxPool) (tx : PoolTransaction) : option bool * TxPool :=
  let from := senderOf tx in
  let list := default (newTxList false) (pQueue p !! from) in
  let '(inserted, old, list') := Add list tx (PriceBump config) in
  let p1 := putQueue p from list' in
  if negb inserted then (None, p1)
  else (Some (match old with Some _ => true | None => false end), indexNew (dropOld p1 old) tx).
Definition enqueueAll (p : TxPool) (txs : list PoolTransaction) : TxPool := foldl (λ p tx, (enqueueTx p tx).2) p txs.

Definition promoteTx (now : Z) (addr : Address) (p : TxPool) (tx : PoolTransaction) : bool * TxPool :=
  let list := default (newTxList true) (pPending p !! addr) in
  let '(inserted, old, list') := Add list tx (PriceBump config) in
  let p1 := putPending p addr list' in
  if negb inserted then (false, dropTx p1 tx)
  else
    let p2 := touch (indexNew (dropOld p1 old) tx) addr now in
    (true, setNonces p2 (Managed.SetNonce (pNonces p2) addr (u64 (ptNonce tx + 1)))).

(** [if pool.pendingState.GetNonce(addr) > nonce { pool.pendingState.SetNonce(addr, nonce) }] *)
Definition lowerNonce (addr : Address) (p : TxPool) (nonce : Z) : TxPool :=
  let '(n, ms) := Managed.GetNonce (pNonces p) addr in setNonces p (if nonce <? n then Managed.SetNonce ms addr nonce else ms).

Definition removeFuture (p : TxPool) (addr : Address) (tx : PoolTransaction) : option TxPool :=
  match pQueue p !! addr with
  | None => Some p
  | Some future =>
      '(_, _, future') ← Remove order future tx;
      Some (pruneQueue (putQueue p addr future') addr future')
  end.

Definition removeTx (p : TxPool) (hash : Hash) (outofbound : bool) : option TxPool :=
  match lookupGet (pAll p) hash with
  | None => Some p
  | Some tx =>
      let addr := senderOf tx in
      let all := lookupRemove (pAll p) hash in
      let p1 := setIndex p all (if outofbound then pricedRemoved range all (pPriced p) else pPriced p) in
      match pPending p1 !! addr with
      | None => removeFuture p1 addr tx
      | Some pending =>
          '(removed, invalids, pending') ← Remove order pending tx;
          if (removed : bool) then
            let p2 := prunePending (putPending p1 addr pending') addr pending' in
            Some (lowerNonce addr (enqueueAll p2 invalids) (ptNonce tx))
          else removeFuture (putPending p1 addr pending') addr tx
      end
  end.
Fixpoint removeTxs (p : TxPool) (txs : list PoolTransaction) (outofbound : bool) : option TxPool :=
  match txs with [] => Some p | tx :: txs => p' ← removeTx p (ptHash tx) outofbound; removeTxs p' txs outofbound end.

(** [Panic] is the dereference of a receiver that is nil. *)
Definition validateTx (p : TxPool) (tx : PoolTransaction) (local : bool) : result addError unit :=
  let st := pState p in
  if negb (ptShardID tx =? blockShard) then Err ErrInvalidShard
  else if csFreeze st (senderOf tx) then Err ErrAddrHasFreezed
  else match ptTo tx with
  | None => Panic
  | Some to =>
      if csFreeze st to then Err ErrAddrHasFreezed
      else if MaxPoolTransactionDataSize <=? ptSize tx then Err ErrOversizedData
      else if ptValue tx <? 0 then Err ErrNegativeValue
      else if pMaxGas p <? ptGasLimit tx then Err ErrGasLimit
      else match ptSender tx with
      | None => Err ErrInvalidSender
      | Some from =>
          if bool_decide (from ∈ Blacklist config) then Err ErrBlacklistFrom
          else if bool_decide (to ∈ Blacklist config) then Err ErrBlacklistTo
          else if negb (local || bool_decide (from ∈ pLocals p)) && (ptGasPrice tx <? pGasPrice p) then Err ErrUnderpriced
          else if ptNonce tx <? csNonce st from then Err ErrPoolNonceTooLow
          else match ptCost tx with
          | None => Err ErrCost
          | Some cost =>
              if negb (ptStaking tx && (ptDirective tx =? DirectiveDelegate)) && (csBalance st from <? cost) then Err ErrInsufficientFunds
              else match (if ptStaking tx then IntrinsicGas (ptData tx) false homestead istanbul (ptDirective tx =? DirectiveCreateValidator)
                          else IntrinsicGas (ptData tx) (bool_decide (ptTo tx = None)) homestead istanbul false) with
              | None => Err ErrPoolOutOfGas
              | Some intrGas =>
                  if ptGasLimit tx <? intrGas then Err ErrIntrinsicGas
                  else if ptStaking tx then match validateStakingTx st tx with Some e => Err (ErrStaking e) | None => Ok tt end
                  else Ok tt
              end
          end
      end
  end.

(** The part of [add] that makes room in a full pool: the error, or the pool. *)
Definition makeRoom (p : TxPool) (tx : PoolTransaction) (local : bool) : option (option addError * TxPool) :=
  let count := Z.of_nat (lookupCount (pAll p)) in
  let limit := u64 (GlobalSlots config + GlobalQueue config) in
  if limit <=? count then
    '(underpriced, priced) ← (if local then Some (false, pPriced p) else Underpriced (pAll p) (pLocals p) (pPriced p) tx);
    let p1 := setIndex p (pAll p) priced in
    if (underpriced : bool) then Some (Some ErrUnderpriced, p1)
    else
      '(drop, priced') ← Discard (pAll p1) (pLocals p1) (pPriced p1) (count - i64 (u64 (GlobalSlots config + GlobalQueue config - 1)));
      p2 ← removeTxs (setIndex p1 (pAll p1) priced') drop false;
      Some (None, p2)
  else Some (None, p).

(** The part of [add] for a transaction that replaces no pending one. *)
Definition addFuture (now : Z) (p : TxPool) (tx : PoolTransaction) (local : bool) : (bool + addError) * TxPool :=
  let from := senderOf tx in
  match enqueueTx p tx with
  | (None, p1) => (inr ErrReplaceUnderpriced, p1)
  | (Some replace, p1) => (inl replace, touch (if local then setLocals p1 ({[from]} ∪ pLocals p1) else p1) from now)
  end.

(** The part of [add] for a transaction that replaces the pending one with its nonce. *)
Definition replacePending (now : Z) (p : TxPool) (list : txList) (tx : PoolTransaction) : (bool + addError) * TxPool :=
  let from := senderOf tx in
  let '(inserted, old, list') := Add list tx (PriceBump config) in
  let p1 := putPending p from list' in
  if negb inserted then (inr ErrReplaceUnderpriced, p1)
  else (inl (match old with Some _ => true | None => false end), touch (indexTx (dropOld p1 old) tx) from now).

(** Whether a transaction was replaced, or the error. *)
Definition add (now : Z) (p : TxPool) (tx : PoolTransaction) (local : bool) : option ((bool + addError) * TxPool) :=
  match lookupGet (pAll p) (ptHash tx) with
  | Some _ => Some (inr ErrKnownTransaction, p)
  | None =>
      match validateTx p tx local with
      | Panic => None
      | Err e => Some (inr e, p)
      | Ok _ =>
          '(full, p1) ← makeRoom p tx local;
          match full with
          | Some e => Some (inr e, p1)
          | None =>
              match pPending p1 !! senderOf tx with
              | Some list => Some (if Overlaps list tx then replacePending now p1 list tx else addFuture now p1 tx local)
              | None => Some (addFuture now p1 tx local)
              end
          end
      end
  end.

(** ** [promoteExecutables] *)

(** The lists of one account. *)
Definition promoteAccount (now : Z) (p : TxPool) (addr : Address) : option TxPool :=
  match pQueue p !! addr with
  | None => Some p
  | Some list =>
      let st := pState p in
      '(old, list1) ← Forward list (csNonce st addr);
      let p1 := foldl dropTx (putQueue p addr list1) old in
      let '(drops, _, _, list2) := FilterValid order list1 (csBalance st addr) (pMaxGas p) (validateStakingTx st) 0 in
      let p2 := foldl dropTx (putQueue p1 addr list2) drops in
      let '(n, ms) := Managed.GetNonce (pNonces p2) addr in
      '(ready, list3) ← Ready list2 n;
      let p3 := foldl (λ p tx, (promoteTx now addr p tx).2) (putQueue (setNonces p2 ms) addr list3) ready in
      '(over, list4) ← (if bool_decide (addr ∈ pLocals p3) then Some ([], list3) else Cap list3 (Z.to_nat (AccountQueue config)));
      let p4 := foldl dropTx (putQueue p3 addr list4) over in
      Some (pruneQueue p4 addr list4)
  end.
Fixpoint promoteAccounts (now : Z) (p : TxPool) (addrs : list Address) : option TxPool :=
  match addrs with [] => Some p | a :: addrs => p' ← promoteAccount now p a; promoteAccounts now p' addrs end.

(** The number of transactions in a map of lists. *)
Definition countTxs (m : gmap Address txList) : Z := u64 (sumZ (λ kv, Z.of_nat (Len kv.2)) (map_to_list m)).

(** The pending list of an account loses its last transaction; [Cap] with -1 panics. *)
Definition capOne (p : TxPool) (addr : Address) : option TxPool :=
  list ← pPending p !! addr;
  if (Len list =? 0)%nat then None
  else
    '(drops, list') ← Cap list (Len list - 1);
    Some (foldl (λ p tx, lowerNonce addr (dropTx p tx) (ptNonce tx)) (putPending p addr list') drops).
Fixpoint capRound (p : TxPool) (pending : Z) (addrs : list Address) : option (TxPool * Z) :=
  match addrs with [] => Some (p, pending) | a :: addrs => p' ← capOne p a; capRound p' (u64 (pending - 1)) addrs end.

(** The rounds over [addrs] while there are too many pending transactions and the list of [probe]
    is longer than [threshold]; every round shortens it, so its length is enough fuel. *)
Fixpoint capRounds (fuel : nat) (p : TxPool) (pending : Z) (addrs : list Address) (probe : Address) (threshold : Z) : option (TxPool * Z) :=
  list ← pPending p !! probe;
  if (GlobalSlots config <? pending) && (threshold <? Z.of_nat (Len list)) then
    match fuel with
    | O => None
    | S fuel => '(p', pending') ← capRound p pending addrs; capRounds fuel p' pending' addrs probe threshold
    end
  else Some (p, pending).
Definition lenOf (p : TxPool) (addr : Address) : nat := match pPending p !! addr with Some l => Len l | None => 0 end.

(** The loop over the spammers; [offenders] are those popped so far. *)
Fixpoint equalizeLoop (p : TxPool) (pending : Z) (spammers offenders : list Address) : option (TxPool * Z * list Address) :=
  match spammers with
  | [] => Some (p, pending, offenders)
  | offender :: rest =>
      if GlobalSlots config <? pending then
        '(p', pending') ←
          (match last offenders with
           | None => Some (p, pending)
           | Some probe => list ← pPending p !! offender; capRounds (lenOf p probe) p pending offenders probe (Z.of_nat (Len list))
           end);
        equalizeLoop p' pending' rest (offenders ++ [offender])
      else Some (p, pending, offenders)
  end.
Definition spammersOf (p : TxPool) : list Address :=
  popOrder (omap (λ a, list ← pPending p !! a;
                       if negb (bool_decide (a ∈ pLocals p)) && (AccountSlots config <? Z.of_nat (Len list)) then Some (a, Z.of_nat (Len list)) else None)
                 (accountsOf (pPending p))).
Definition equalize (p : TxPool) : option TxPool :=
  let pending := countTxs (pPending p) in
  if GlobalSlots config <? pending then
    '(p1, pending1, offenders) ← equalizeLoop p pending (spammersOf p) [];
    match last offenders with
    | Some probe => if GlobalSlots config <? pending1 then fst <$> capRounds (lenOf p1 probe) p1 pending1 offenders probe (AccountSlots config) else Some p1
    | None => Some p1
    end
  else Some p.

(** The queued transactions over the limit, from the account with the latest heartbeat on. *)
Fixpoint truncateLoop (p : TxPool) (drop : Z) (addrs : list Address) : option TxPool :=
  match addrs with
  | [] => Some p
  | addr :: addrs =>
      if 0 <? drop then
        list ← pQueue p !! addr;
        let size := Z.of_nat (Len list) in
        let '(txs, list') := Flatten order list in
        let p1 := putQueue p addr list' in
        if size <=? drop then p2 ← removeTxs p1 txs true; truncateLoop p2 (drop - size) addrs
        else p2 ← removeTxs p1 (take (Z.to_nat drop) (reverse txs)) true; truncateLoop p2 0 addrs
      else Some p
  end.
Definition truncateQueue (p : TxPool) : option TxPool :=
  let queued := countTxs (pQueue p) in
  if GlobalQueue config <? queued then
    let addrs := byHeartbeat (omap (λ a, if bool_decide (a ∈ pLocals p) then None else Some (a, default 0 (pBeats p !! a))) (accountsOf (pQueue p))) in
    truncateLoop p (queued - GlobalQueue config) (reverse addrs)
  else Some p.

(** [addrs] are the accounts given, or all accounts with a queue. *)
Definition promoteExecutables (now : Z) (p : TxPool) (addrs : option (list Address)) : option TxPool :=
  p1 ← promoteAccounts now p (default (accountsOf (pQueue p)) addrs);
  p2 ← equalize p1;
  truncateQueue p2.

(** ** Methods of the pool *)

Definition addTx (now : Z) (p : TxPool) (tx : PoolTransaction) (local : bool) : option (option addError * TxPool) :=
  '(r, p1) ← add now p tx local;
  match r with
  | inr e => Some (Some e, p1)
  | inl replace => if (replace : bool) then Some (None, p1) else p2 ← promoteExecutables now p1 (Some [senderOf tx]); Some (None, p2)
  end.
Definition AddLocal (now : Z) (p : TxPool) (tx : PoolTransaction) : option (option addError * TxPool) := addTx now p tx (negb (NoLocals config)).
Definition AddRemote (now : Z) (p : TxPool) (tx : PoolTransaction) : option (option addError * TxPool) := addTx now p tx false.

(** The loop of [addTxsLocked]: the errors and the accounts with new transactions. *)
Fixpoint addLoop (now : Z) (p : TxPool) (txs : list PoolTransaction) (local : bool) (dirty : gset Address)
    : option (list (option addError) * gset Address * TxPool) :=
  match txs with
  | [] => Some ([], dirty, p)
  | tx :: txs =>
      '(r, p1) ← add now p tx local;
      let '(e, dirty1) := match r with inr e => (Some e, dirty) | inl true => (None, dirty) | inl false => (None, {[senderOf tx]} ∪ dirty) end in
      '(es, dirty2, p2) ← addLoop now p1 txs local dirty1;
      Some (e :: es, dirty2, p2)
  end.
Definition addTxsLocked (now : Z) (p : TxPool) (txs : list PoolTransaction) (local : bool) : option (list (option addError) * TxPool) :=
  '(es, dirty, p1) ← addLoop now p txs local ∅;
  if bool_decide (dirty = ∅) then Some (es, p1) else p2 ← promoteExecutables now p1 (Some (dirtyOrder dirty)); Some (es, p2).

(** *** [demoteUnexecutables] *)
Definition demoteAccount (bn : Z) (p : TxPool) (addr : Address) : option TxPool :=
  match pPending p !! addr with
  | None => Some p
  | Some list =>
      let st := pState p in
      let nonce := csNonce st addr in
      '(old, list1) ← Forward list nonce;
      let p1 := foldl dropTx (putPending p addr list1) old in
      let '(drops, _, invalids, list2) := FilterValid order list1 (csBalance st addr) (pMaxGas p) (validateStakingTx st) bn in
      let p2 := enqueueAll (foldl dropTx (putPending p1 addr list2) drops) invalids in
      '(gapped, list3) ← (if (0 <? Len list2)%nat && bool_decide (smGet (txs list2) nonce = None) then Cap list2 0 else Some ([], list2));
      let p3 := enqueueAll (putPending p2 addr list3) gapped in
      Some (prunePending p3 addr list3)
  end.
Fixpoint demoteAccounts (bn : Z) (p : TxPool) (addrs : list Address) : option TxPool :=
  match addrs with [] => Some p | a :: addrs => p' ← demoteAccount bn p a; demoteAccounts bn p' addrs end.
Definition demoteUnexecutables (p : TxPool) (bn : Z) : option TxPool := demoteAccounts bn p (accountsOf (pPending p)).

(** *** [reset], from the new state on; [reinject] are the transactions of abandoned blocks *)
Fixpoint resetNonces (p : TxPool) (addrs : list Address) : option TxPool :=
  match addrs with
  | [] => Some p
  | addr :: addrs =>
      list ← pPending p !! addr;
      let '(txs, list') := Flatten order list in
      tx ← last txs;
      let p1 := putPending p addr list' in
      resetNonces (setNonces p1 (Managed.SetNonce (pNonces p1) addr (u64 (ptNonce tx + 1)))) addrs
  end.
Definition reset (now : Z) (p : TxPool) (st : ChainState) (maxGas bn : Z) (reinject : list PoolTransaction) : option TxPool :=
  let p0 := mkPool (pAll p) (pPriced p) (pPending p) (pQueue p) (pLocals p) (Managed.ManageState (csNonce st)) (pBeats p) (pGasPrice p) st maxGas in
  '(_, p1) ← addTxsLocked now p0 reinject false;
  p2 ← demoteUnexecutables p1 bn;
  p3 ← resetNonces p2 (accountsOf (pPending p2));
  promoteExecutables now p3 None.

Definition SetGasPrice (p : TxPool) (price : Z) : option TxPool :=
  let p0 := mkPool (pAll p) (pPriced p) (pPending p) (pQueue p) (pLocals p) (pNonces p) (pBeats p) price (pState p) (pMaxGas p) in
  '(drop, priced) ← pricedCap (pAll p0) (pLocals p0) (pPriced p0) price;
  removeTxs (setIndex p0 (pAll p0) priced) drop false.

(** The eviction of the loop of the pool: queues of accounts that were idle for too long.  A
    missing heartbeat is the zero time. *)
Fixpoint evictLoop (now : Z) (p : TxPool) (addrs : list Address) : option TxPool :=
  match addrs with
  | [] => Some p
  | addr :: addrs =>
      if bool_decide (addr ∈ pLocals p) then evictLoop now p addrs
      else if match pBeats p !! addr with Some beat => Lifetime config <? now - beat | None => true end then
        list ← pQueue p !! addr;
        let '(txs, list') := Flatten order list in
        p1 ← removeTxs (putQueue p addr list') txs true;
        evictLoop now p1 addrs
      else evictLoop now p addrs
  end.
Definition evict (now : Z) (p : TxPool) : option TxPool := evictLoop now p (accountsOf (pQueue p)).

Inductive TxStatus := TxStatusUnknown | TxStatusQueued | TxStatusPending | TxStatusIncluded.
Definition Status (p : TxPool) (hash : Hash) : TxStatus :=
  match lookupGet (pAll p) hash with
  | None => TxStatusUnknown
  | Some tx => match pPending p !! senderOf tx with
               | Some list => match items (txs list) !! ptNonce tx with Some _ => TxStatusPending | None => TxStatusQueued end
               | None => TxStatusQueued
               end
  end.

(** ** The invariant

    [inv p F D]: the transactions of the lists of [p] and the ones in flight, [F], which have left
    a list and are not yet in another or dropped, are exactly those of the lookup, each under its
    hash; no nonce of an account is both pending and queued; the heap of prices has every
    transaction of the lookup that is not in [D]. *)
Context (order_perm : ∀ its, order its ≡ₚ map_to_list its) (range_perm : ∀ all, range all ≡ₚ (map_to_list all).*2).
Implicit Types (p : TxPool) (tx : PoolTransaction) (F D R : list PoolTransaction) (a : Address).

(** The pending ([true]) or the queued lists. *)
Definition tlists p (b : bool) : gmap Address txList := if b then pPending p else pQueue p.
Definition putList p (b : bool) a (l : txList) : TxPool := if b then putPending p a l else putQueue p a l.
Definition pget (m : gmap Address txList) a (n : Z) : option PoolTransaction := tl ← m !! a; items (txs tl) !! n.

(** The list of the account [a]: [b] tells whether it is a pending one. *)
Definition okList a (b : bool) (tl : txList) (l : list PoolTransaction) : Prop := lists tl l ∧ strict tl = b ∧ Forall (λ tx, ptSender tx = Some a) l.
Definition sound tx : Prop := is_Some (ptSender tx) ∧ isU64 (ptNonce tx) ∧ is_Some (ptCost tx).
Definition free p tx : Prop := ∀ b, pget (tlists p b) (senderOf tx) (ptNonce tx) = None.
Definition held p tx : Prop := ∃ b, pget (tlists p b) (senderOf tx) (ptNonce tx) = Some tx.
Definition key tx : Address * Z := (senderOf tx, ptNonce tx).

Record inv p F D : Prop := {
  iv_lists : ∀ b a tl, tlists p b !! a = Some tl → ∃ l, okList a b tl l;
  iv_apart : ∀ a n, pget (pPending p) a n = None ∨ pget (pQueue p) a n = None;
  iv_fly : ∀ tx, tx ∈ F → sound tx ∧ free p tx;
  iv_keys : NoDup (key <$> F);
  iv_all : ∀ h tx, pAll p !! h = Some tx ↔ ptHash tx = h ∧ (held p tx ∨ tx ∈ F);
  iv_heap : priceHeap (prItems (pPriced p));
  iv_priced : ∀ h tx, pAll p !! h = Some tx → tx ∈ prItems (pPriced p) ∨ tx ∈ D }.

(** Only the lists, the lookup and the prices matter. *)
Lemma inv_same p q F D : inv p F D → pAll q = pAll p → pPriced q = pPriced p → pPending q = pPending p → pQueue q = pQueue p → inv q F D.
Proof. intros [H1 H2 H3 H4 H5 H6 H7]. destruct p, q. cbn. intros -> -> -> ->. by constructor. Qed.

Lemma tlists_put p b a tl b' : tlists (putList p b a tl) b' = if decide (b = b') then <[a := tl]> (tlists p b') else tlists p b'.
Proof. destruct b, b'; done. Qed.

Lemma toMap_elem l tx n : NoDup (TxList.nonces l) → toMap l !! n = Some tx ↔ tx ∈ l ∧ ptNonce tx = n.
Proof.
  intros Hn. unfold toMap. rewrite <-elem_of_list_to_map by (by rewrite toMap_fst). rewrite list_elem_of_fmap. naive_solver.
Qed.
Lemma okList_get a b tl l n tx : okList a b tl l → items (txs tl) !! n = Some tx ↔ tx ∈ l ∧ ptNonce tx = n.
Proof. intros [[Hst _] _]. rewrite (st_items _ _ Hst). apply toMap_elem, sorted_nodup. by destruct Hst. Qed.
Lemma okList_sound a b tl l tx : okList a b tl l → tx ∈ l → sound tx ∧ senderOf tx = a ∧ ptSender tx = Some a.
Proof.
  intros [[Hst Hb] [_ Hs]] Hin. rewrite Forall_forall in Hb, Hs. pose proof (st_width _ _ Hst) as Hw. rewrite Forall_forall in Hw.
  pose proof (Hs tx Hin) as Hse. unfold senderOf. cbn beta in Hse. rewrite Hse. split_and!; try done. destruct (Hb tx Hin) as (c & Hc & _). repeat split; [by rewrite Hse|apply (Hw tx Hin)|apply (Hw tx Hin)|by eexists].
Qed.

Lemma pget_Some p b a n tx : (∀ b a tl, tlists p b !! a = Some tl → ∃ l, okList a b tl l) →
  pget (tlists p b) a n = Some tx → senderOf tx = a ∧ ptNonce tx = n ∧ sound tx ∧ ∃ tl l, tlists p b !! a = Some tl ∧ okList a b tl l ∧ tx ∈ l.
Proof.
  intros Hl. unfold pget. destruct (tlists p b !! a) as [tl|] eqn:E; [|done]. cbn. intros Hi. destruct (Hl b a tl E) as [l Ho].
  destruct (proj1 (okList_get _ _ _ _ _ _ Ho) Hi) as [Hin Hnn]. destruct (okList_sound _ _ _ _ _ Ho Hin) as (?&?&?). split_and!; try done. by exists tl, l.
Qed.

(** A hash belongs to one transaction. *)
Lemma known_hash p F D tx tx' : inv p F D → ptHash tx = ptHash tx' → held p tx ∨ tx ∈ F → held p tx' ∨ tx' ∈ F → tx = tx'.
Proof.
  intros Hi Hh H1 H2. pose proof (proj2 (iv_all _ _ _ Hi (ptHash tx) tx) (conj eq_refl H1)) as E1.
  pose proof (proj2 (iv_all _ _ _ Hi (ptHash tx) tx') (conj (eq_sym Hh) H2)) as E2. congruence.
Qed.
Lemma fly_not_held p F D tx : inv p F D → tx ∈ F → ¬ held p tx.
Proof. intros Hi Hin [b Hb]. destruct (iv_fly _ _ _ Hi tx Hin) as [_ Hf]. rewrite (Hf b) in Hb. done. Qed.

(** *** The index *)

(** A transaction in flight leaves the lookup. *)
Lemma unindex_inv p tx F D priced :
  inv p (tx :: F) D → priceHeap (prItems priced) →
  (∀ h tx', delete (ptHash tx) (pAll p) !! h = Some tx' → tx' ∈ prItems (pPriced p) ∨ tx' ∈ D → tx' ∈ prItems priced ∨ tx' ∈ D) →
  inv (setIndex p (delete (ptHash tx) (pAll p)) priced) F D.
Proof.
  intros Hi Hh Hp. pose proof Hi as [H1 H2 H3 H4 H5 H6 H7]. cbn in H4. apply NoDup_cons in H4 as [Hk H4]. constructor; cbn [pAll pPriced setIndex]; try done.
  - intros t Ht. apply H3. by right.
  - intros h t. rewrite lookup_delete_Some, H5. split.
    + intros (Hne & <- & [Hd|[->|Hin]%elem_of_cons]); [split; [done|by left]|done|split; [done|by right]].
    + intros (<- & Hd). assert (t ≠ tx) as Hne.
      { intros ->. destruct Hd as [Hd|Hd]; [by eapply fly_not_held; [exact Hi| |exact Hd]; left|]. apply Hk. by apply list_elem_of_fmap_2. }
      split_and!; [|done|destruct Hd; [by left|by right; right]]. intros Heq. apply Hne. symmetry.
      eapply known_hash; [exact Hi|done|right; by left|]. destruct Hd as [|]; [by left|by right; right].
  - intros h t Ht. apply (Hp h t Ht). apply (H7 h). by apply lookup_delete_Some in Ht as [_ ?].
Qed.

Lemma pricedRemoved_heap all pl : priceHeap (prItems pl) → priceHeap (prItems (pricedRemoved range all pl)).
Proof. unfold pricedRemoved. intros Hh. case_match; [done|]. apply HeapFacts.Init_spec; [apply priceLess_asym|apply priceLess_trans]. Qed.
Lemma pricedRemoved_elem all pl h tx : all !! h = Some tx → tx ∈ prItems pl ∨ tx ∈ prItems (pricedRemoved range all pl) → tx ∈ prItems (pricedRemoved range all pl).
Proof.
  unfold pricedRemoved. intros Hl. case_match; [by intros [|]|]. intros _. cbn [prItems].
  rewrite (proj2 (HeapFacts.Init_spec priceLess priceLess_asym priceLess_trans (range all))), range_perm. apply list_elem_of_fmap. exists (h, tx). split; [done|]. by apply elem_of_map_to_list.
Qed.

Lemma dropTx_inv p tx F D : inv p (tx :: F) D → inv (dropTx p tx) F D.
Proof.
  intros Hi. apply unindex_inv; [done|apply pricedRemoved_heap, Hi|]. intros h t Ht [Hin|Hin]; [left|by right]. eapply pricedRemoved_elem; [exact Ht|by left].
Qed.
Lemma dropAll_inv R : ∀ p F D, inv p (R ++ F) D → inv (foldl dropTx p R) F D.
Proof. induction R as [|tx R IH]; intros p F D Hi; [done|]. cbn. apply IH. by apply dropTx_inv. Qed.
Lemma dropAll_frame R : ∀ p, let q := foldl dropTx p R in pPending q = pPending p ∧ pQueue q = pQueue p ∧ pLocals q = pLocals p ∧ pState q = pState p ∧ pMaxGas q = pMaxGas p ∧ pNonces q = pNonces p.
Proof. induction R as [|tx R IH]; intros p; [done|]. cbn. destruct (IH (dropTx p tx)) as (->&->&->&->&->&->). done. Qed.

(** A new transaction enters it, in flight. *)
Lemma indexTx_inv p tx F D : inv p F D → pAll p !! ptHash tx = None → sound tx → free p tx → key tx ∉ key <$> F → inv (indexTx p tx) (tx :: F) D.
Proof.
  intros [H1 H2 H3 H4 H5 H6 H7] Hn Hs Hf Hk. constructor; unfold indexTx, lookupAdd, pricedPut; cbn [pAll pPriced setIndex prItems]; try done.
  - intros t [->|Ht]%elem_of_cons; [done|by apply H3].
  - cbn. by apply NoDup_cons.
  - intros h t. destruct (decide (h = ptHash tx)) as [->|Hne].
    + rewrite lookup_insert_eq. split.
      * intros [= <-]. split; [done|right; by left].
      * intros (Hh & Hd). destruct Hd as [Hd|[->|Hd]%elem_of_cons]; [|done|]; exfalso;
          [pose proof (proj2 (H5 (ptHash tx) t) (conj Hh (or_introl Hd)))|pose proof (proj2 (H5 (ptHash tx) t) (conj Hh (or_intror Hd)))]; congruence.
    + rewrite lookup_insert_ne by done. rewrite H5. split; [intros (<- & [Hd|Hd]); (split; [done|]); [by left|right; by right]|].
      intros (<- & [Hd|[->|Hd]%elem_of_cons]); [split; [done|by left]|done|split; [done|by right]].
  - apply HeapFacts.Push_spec; [apply priceLess_asym|apply priceLess_trans|done].
  - intros h t. rewrite (proj2 (HeapFacts.Push_spec priceLess priceLess_asym priceLess_trans _ tx H6)), elem_of_cons, lookup_insert_Some.
    intros [[<- <-]|[_ Ht]]; [left; by left|]. destruct (H7 h t Ht); [left; by right|by right].
Qed.

(** *** The lists *)
Lemma pget_put p b a tl l a' n : okList a b tl l →
  pget (tlists (putList p b a tl) b) a' n = if decide (a' = a) then toMap l !! n else pget (tlists p b) a' n.
Proof.
  intros [[Hst _] _]. rewrite tlists_put, decide_True by done. unfold pget. destruct (decide (a' = a)) as [->|Hne].
  - rewrite lookup_insert_eq. cbn. by rewrite (st_items _ _ Hst).
  - by rewrite lookup_insert_ne by done.
Qed.
Lemma pget_put_other p b a tl b' : b ≠ b' → tlists (putList p b a tl) b' = tlists p b'.
Proof. intros Hne. by rewrite tlists_put, decide_False by done. Qed.
Lemma pget_old p b a tl l n : tlists p b !! a = Some tl → okList a b tl l → pget (tlists p b) a n = toMap l !! n.
Proof. intros E [[Hst _] _]. unfold pget. rewrite E. cbn. by rewrite (st_items _ _ Hst). Qed.
Lemma okList_nodup a b tl l : okList a b tl l → NoDup (TxList.nonces l).
Proof. intros [[Hst _] _]. apply sorted_nodup. by destruct Hst. Qed.

Lemma apart_pending p F D b a n tx : inv p F D → pget (tlists p b) a n = Some tx → pget (tlists p (negb b)) a n = None.
Proof. intros Hi Hg. destruct (iv_apart _ _ _ Hi a n), b; cbn in *; congruence. Qed.
Lemma apart_intro p : (∀ b a n tx, pget (tlists p b) a n = Some tx → pget (tlists p (negb b)) a n = None) → ∀ a n, pget (pPending p) a n = None ∨ pget (pQueue p) a n = None.
Proof. intros H a n. destruct (pget (pPending p) a n) as [tx|] eqn:E; [right|by left]. by apply (H true a n tx). Qed.

Lemma putList_lists p F D b a tl l : inv p F D → okList a b tl l →
  ∀ b' a' tl', tlists (putList p b a tl) b' !! a' = Some tl' → ∃ l', okList a' b' tl' l'.
Proof.
  intros Hi Ho b' a' tl'. rewrite tlists_put. destruct (decide (b = b')) as [<-|Hne]; [|apply Hi].
  rewrite lookup_insert_Some. intros [[<- <-]|[_ E]]; [by exists l|by apply (iv_lists _ _ _ Hi)].
Qed.

(** Transactions [R] leave the list of an account and are in flight. *)
Lemma shrink_inv p F D b a tl l tl' l' R :
  inv p F D → tlists p b !! a = Some tl → okList a b tl l → okList a b tl' l' → l ≡ₚ R ++ l' → inv (putList p b a tl') (R ++ F) D.
Proof.
  intros Hi E Ho Ho' Hp. pose proof (okList_nodup _ _ _ _ Ho) as Hn. pose proof (okList_nodup _ _ _ _ Ho') as Hn'.
  assert (∀ n, pget (tlists p b) a n = toMap l !! n) as Hold by (intros n; by eapply pget_old).
  assert (NoDup (TxList.nonces R) ∧ ∀ t, t ∈ R → TxList.nonces l' ⊆ TxList.nonces l ∧ ptNonce t ∉ TxList.nonces l') as [HnR HR].
  { unfold TxList.nonces in Hn. rewrite Hp, fmap_app in Hn. apply NoDup_app in Hn as (Hn1 & Hn2 & _). split; [done|]. intros t Ht. split.
    - intros n [x [-> Hx]]%list_elem_of_fmap. apply list_elem_of_fmap_2. rewrite Hp. apply elem_of_app. by right.
    - apply Hn2. by apply list_elem_of_fmap_2. }
  assert (∀ b' a' n t, pget (tlists (putList p b a tl') b') a' n = Some t → pget (tlists p b') a' n = Some t) as Hless.
  { intros b' a' n t. destruct (decide (b = b')) as [<-|Hne]; [|by rewrite pget_put_other by done]. rewrite (pget_put p b a tl' l') by done.
    destruct (decide (a' = a)) as [->|]; [|done]. rewrite Hold, !toMap_elem by done. intros [Hin Hnn]. split; [|done]. rewrite Hp. apply elem_of_app. by right. }
  assert (∀ t, t ∈ R → t ∈ l ∧ senderOf t = a ∧ sound t) as HRl.
  { intros t Ht. assert (t ∈ l) as Hin by (rewrite Hp; apply elem_of_app; by left). destruct (okList_sound _ _ _ _ _ Ho Hin) as (?&?&?). done. }
  assert (∀ t, t ∈ R → free (putList p b a tl') t) as Hfree.
  { intros t Ht b'. destruct (HRl t Ht) as (Hin & Hse & _). rewrite Hse. destruct (decide (b = b')) as [<-|Hne].
    - rewrite (pget_put p b a tl' l'), decide_True by done. apply toMap_None. by apply HR.
    - rewrite pget_put_other by done. replace b' with (negb b) by (by destruct b, b'). eapply apart_pending; [exact Hi|]. rewrite Hold. by apply toMap_elem. }
  constructor.
  - by eapply putList_lists.
  - apply apart_intro. intros b' a' n t Hg. apply Hless in Hg. pose proof (apart_pending _ _ _ _ _ _ _ Hi Hg) as Hg'.
    destruct (pget (tlists (putList p b a tl') (negb b')) a' n) as [t'|] eqn:E'; [|done]. apply Hless in E'. congruence.
  - intros t [Ht|Ht]%elem_of_app; [split; [by apply HRl|by apply Hfree]|]. destruct (iv_fly _ _ _ Hi t Ht) as [Hs Hf]. split; [done|]. intros b'.
    destruct (pget (tlists (putList p b a tl') b') _ _) as [t'|] eqn:E'; [|done]. apply Hless in E'. by rewrite (Hf b') in E'.
  - rewrite fmap_app. apply NoDup_app. split_and!; [|intros k Hk|apply Hi].
    + apply (NoDup_fmap_1 snd). rewrite <-list_fmap_compose. exact HnR.
    + apply list_elem_of_fmap in Hk as [t [-> Ht]]. intros [t' [Hk Ht']]%list_elem_of_fmap. destruct (HRl t Ht) as (Hin & Hse & _).
      destruct (iv_fly _ _ _ Hi t' Ht') as [_ Hf]. specialize (Hf b). unfold key in Hk. injection Hk as Hk1 Hk2. rewrite <-Hk1, <-Hk2, Hse, Hold in Hf.
      apply toMap_None in Hf. apply Hf. by apply list_elem_of_fmap_2.
  - intros h t. transitivity (pAll p !! h = Some t); [by destruct b|]. rewrite (iv_all _ _ _ Hi). split; intros (<- & Hd); (split; [done|]).
    + destruct Hd as [[b' Hg]|Hd]; [|right; apply elem_of_app; by right]. destruct (decide (b = b' ∧ senderOf t = a)) as [[<- Hse]|Hne].
      * rewrite Hse, Hold, toMap_elem in Hg by done. destruct Hg as [Hin _]. rewrite Hp in Hin. apply elem_of_app in Hin as [Hin|Hin]; [right; apply elem_of_app; by left|].
        left. exists b. rewrite (pget_put p b a tl' l'), decide_True by done. by apply toMap_elem.
      * left. exists b'. destruct (decide (b = b')) as [<-|]; [|by rewrite pget_put_other by done]. rewrite (pget_put p b a tl' l'), decide_False by naive_solver. done.
    + destruct Hd as [[b' Hg]|[Hd|Hd]%elem_of_app]; [left; exists b'; by apply Hless| |by right]. left. exists b. destruct (HRl t Hd) as (Hin & -> & _).
      rewrite Hold. by apply toMap_elem.
  - by destruct b; apply Hi.
  - destruct b; apply Hi.
Qed.

(** A transaction in flight is filed in a list of its account. *)
Lemma file_inv p F D b tx tl l :
  inv p (tx :: F) D → ptSender tx = Some (senderOf tx) →
  (tlists p b !! senderOf tx = None ∧ l = [] ∨ ∃ tl0, tlists p b !! senderOf tx = Some tl0 ∧ okList (senderOf tx) b tl0 l) →
  okList (senderOf tx) b tl (ByNonce.put tx l) → inv (putList p b (senderOf tx) tl) F D.
Proof.
  intros Hi Hse Hl Ho. set (a := senderOf tx) in *. destruct (iv_fly _ _ _ Hi tx ltac:(by left)) as [_ Hfree].
  assert (∀ n, pget (tlists p b) a n = toMap l !! n) as Hold.
  { intros n. destruct Hl as [[E ->]|(tl0 & E & Ho0)]; [unfold pget; by rewrite E|by eapply pget_old]. }
  assert (toMap l !! ptNonce tx = None) as Hnone by (rewrite <-Hold; apply Hfree).
  assert (∀ b' a' n, pget (tlists (putList p b a tl) b') a' n = if decide (b = b' ∧ a' = a ∧ n = ptNonce tx) then Some tx else pget (tlists p b') a' n) as Hnew.
  { intros b' a' n. destruct (decide (b = b')) as [<-|Hne]; [|rewrite decide_False by naive_solver; by rewrite pget_put_other by done].
    rewrite (pget_put p b a tl _ a' n Ho). destruct (decide (a' = a)) as [->|]; [|by rewrite decide_False by naive_solver].
    rewrite put_map, Hold. destruct (decide (n = ptNonce tx)) as [->|]; [by rewrite lookup_insert_eq, decide_True|].
    by rewrite lookup_insert_ne, decide_False by naive_solver. }
  pose proof (iv_keys _ _ _ Hi) as Hk. cbn in Hk. apply NoDup_cons in Hk as [Hk1 Hk2].
  constructor; try done.
  - by eapply putList_lists.
  - apply apart_intro. intros b' a' n t. rewrite !Hnew. destruct (decide (b = b' ∧ a' = a ∧ n = ptNonce tx)) as [(<- & -> & ->)|H1].
    + intros _. rewrite decide_False by (destruct b; naive_solver). apply Hfree.
    + intros Hg. destruct (decide (b = negb b' ∧ a' = a ∧ n = ptNonce tx)) as [(Hb & -> & ->)|H2]; [|by eapply apart_pending].
      specialize (Hfree b'). fold a in Hfree. rewrite Hfree in Hg. done.
  - intros t Ht. destruct (iv_fly _ _ _ Hi t ltac:(by right)) as [Hs Hf]. split; [done|]. intros b'. rewrite Hnew. rewrite decide_False; [apply Hf|].
    intros (_ & H1 & H2). apply Hk1. apply list_elem_of_fmap. exists t. split; [|done]. unfold key. by rewrite H1, H2.
  - intros h t. transitivity (pAll p !! h = Some t); [by destruct b|]. rewrite (iv_all _ _ _ Hi). split; intros (<- & Hd); (split; [done|]).
    + destruct Hd as [[b' Hg]|[->|Hd]%elem_of_cons]; [left|left|by right].
      * exists b'. rewrite Hnew. rewrite decide_False; [done|]. intros (<- & H1 & H2). rewrite H1, H2 in Hg. specialize (Hfree b). fold a in Hfree. congruence.
      * exists b. by rewrite Hnew, decide_True.
    + destruct Hd as [[b' Hg]|Hd]; [|right; by right]. rewrite Hnew in Hg. destruct (decide _) as [_|_] in Hg; [right; injection Hg as <-; by left|left; by exists b'].
  - destruct b; apply Hi.
  - destruct b; apply Hi.
Qed.

(** An empty list is deleted. *)
Lemma Empty_nil tl l : lists tl l → Empty tl = bool_decide (l = []).
Proof.
  intros [Hst _]. unfold Empty, Len, smLen. rewrite (st_items _ _ Hst), toMap_size by (apply sorted_nodup; by destruct Hst). by destruct l.
Qed.
Lemma Len_length tl l : lists tl l → Len tl = length l.
Proof. intros [Hst _]. unfold Len, smLen. rewrite (st_items _ _ Hst). apply toMap_size, sorted_nodup. by destruct Hst. Qed.

Lemma pget_delete (m : gmap Address txList) a tl : m !! a = Some tl → items (txs tl) = ∅ → ∀ a' n, pget (delete a m) a' n = pget m a' n.
Proof.
  intros E Hi a' n. unfold pget. destruct (decide (a = a')) as [<-|]; [|by rewrite lookup_delete_ne]. rewrite lookup_delete_eq, E. cbn. by rewrite Hi.
Qed.

(** A pool with the same transactions in its lists, and fewer lists. *)
Lemma inv_pget p q F D : inv p F D → pAll q = pAll p → pPriced q = pPriced p →
  (∀ b a n, pget (tlists q b) a n = pget (tlists p b) a n) → (∀ b a tl, tlists q b !! a = Some tl → tlists p b !! a = Some tl) → inv q F D.
Proof.
  intros [H1 H2 H3 H4 H5 H6 H7] Ha Hp Hg Hl. constructor; rewrite ?Ha, ?Hp; try done.
  - intros b a tl E. by apply H1, Hl.
  - intros a n. pose proof (Hg true a n) as E1. pose proof (Hg false a n) as E2. cbn in E1, E2. rewrite E1, E2. apply H2.
  - intros tx Hin. destruct (H3 tx Hin) as [Hs Hf]. split; [done|]. intros b. by rewrite Hg.
  - intros h tx. rewrite H5. unfold held. by setoid_rewrite Hg.
Qed.

Lemma empty_items tl l : lists tl l → Empty tl = true → items (txs tl) = ∅.
Proof. intros Hl He. rewrite (Empty_nil _ _ Hl) in He. apply bool_decide_eq_true in He as ->. destruct Hl as [Hst _]. by rewrite (st_items _ _ Hst). Qed.

Lemma pruneQueue_inv p a tl F D : inv p F D → pQueue p !! a = Some tl → inv (pruneQueue p a tl) F D.
Proof.
  intros Hi E. unfold pruneQueue. destruct (Empty tl) eqn:He; [|done]. destruct (iv_lists _ _ _ Hi false a tl E) as [l [Hl _]]. pose proof (empty_items _ _ Hl He) as Hem.
  eapply inv_pget; [exact Hi|done|done| |].
  - intros [|] a' n; [done|]. cbn. by eapply pget_delete.
  - intros [|] a' tl'; cbn; [done|]. rewrite lookup_delete_Some. tauto.
Qed.
Lemma prunePending_inv p a tl F D : inv p F D → pPending p !! a = Some tl → inv (prunePending p a tl) F D.
Proof.
  intros Hi E. unfold prunePending. destruct (Empty tl) eqn:He; [|done]. destruct (iv_lists _ _ _ Hi true a tl E) as [l [Hl _]]. pose proof (empty_items _ _ Hl He) as Hem.
  eapply inv_pget; [exact Hi|done|done| |].
  - intros [|] a' n; [|done]. cbn. by eapply pget_delete.
  - intros [|] a' tl'; cbn; [|done]. rewrite lookup_delete_Some. tauto.
Qed.

(** *** Filing transactions *)
Lemma newTxList_ok a b : okList a b (newTxList b) [].
Proof. split_and!; [apply newTxList_lists|done|constructor]. Qed.

(** The list of the sender of [tx], or a new one. *)
Lemma default_list p F D b a : inv p F D → ∃ l, okList a b (default (newTxList b) (tlists p b !! a)) l ∧
  (tlists p b !! a = None ∧ l = [] ∨ ∃ tl0, tlists p b !! a = Some tl0 ∧ okList a b tl0 l).
Proof.
  intros Hi. destruct (tlists p b !! a) as [tl|] eqn:E; cbn.
  - destruct (iv_lists _ _ _ Hi b a tl E) as [l Ho]. exists l. split; [done|]. right. by exists tl.
  - exists []. split; [apply newTxList_ok|by left].
Qed.

Lemma put_sender a tx l : ptSender tx = Some a → Forall (λ t, ptSender t = Some a) l → Forall (λ t, ptSender t = Some a) (ByNonce.put tx l).
Proof. intros Hs Hl. rewrite Forall_forall in *. intros y [->|Hy]%put_elem; [done|by apply Hl]. Qed.

(** [Add] of a transaction whose nonce is free. *)
Lemma Add_free a b tl l tx bump : okList a b tl l → ptSender tx = Some a → sound tx → toMap l !! ptNonce tx = None →
  ∃ tl', Add tl tx bump = (true, None, tl') ∧ okList a b tl' (ByNonce.put tx l).
Proof.
  intros (Hl & Hst & Hse) Hs (_ & Hn & [c Hc]) Hnone. pose proof (Add_lists tl l tx bump Hl Hn) as Ha. unfold Add in *. unfold smGet in *.
  destruct Hl as [Hstands Hb]. rewrite (st_items _ _ Hstands), Hnone in *. rewrite Hc in *. eexists. split; [done|]. destruct Ha as [Ha _]. destruct (Ha eq_refl) as (Hl' & _).
  split_and!; [done|done|by apply put_sender].
Qed.

Lemma sound_sender tx : sound tx → ptSender tx = Some (senderOf tx).
Proof. intros ([a Ha] & _). unfold senderOf. by rewrite Ha. Qed.

Lemma list_free p F D b tx l : inv p F D → free p tx →
  (tlists p b !! senderOf tx = None ∧ l = [] ∨ ∃ tl0, tlists p b !! senderOf tx = Some tl0 ∧ okList (senderOf tx) b tl0 l) → toMap l !! ptNonce tx = None.
Proof. intros Hi Hf [[_ ->]|(tl0 & E & Ho)]; [done|]. specialize (Hf b). by rewrite (pget_old _ _ _ _ _ _ E Ho) in Hf. Qed.

Lemma enqueueTx_fly p tx F D : inv p (tx :: F) D →
  ∃ p', enqueueTx p tx = (Some false, p') ∧ inv p' F D ∧ pPending p' = pPending p ∧ pAll p' = pAll p ∧ pLocals p' = pLocals p
    ∧ ∀ a, a ≠ senderOf tx → pQueue p' !! a = pQueue p !! a.
Proof.
  intros Hi. destruct (iv_fly _ _ _ Hi tx ltac:(by left)) as [Hs Hf]. pose proof (sound_sender _ Hs) as Hse.
  destruct (default_list _ _ _ false (senderOf tx) Hi) as (l & Ho & Hl). pose proof (list_free _ _ _ _ _ _ Hi Hf Hl) as Hnone.
  destruct (Add_free _ _ _ _ tx (PriceBump config) Ho Hse Hs Hnone) as (tl' & E & Ho'). unfold enqueueTx. cbn [tlists] in E. rewrite E. cbn [negb dropOld].
  assert (pAll p !! ptHash tx = Some tx) as Hall by (apply (iv_all _ _ _ Hi); split; [done|right; by left]).
  unfold indexNew, lookupGet. cbn [pAll putQueue setQueue]. rewrite Hall. eexists. split; [done|]. split; [by apply (file_inv p F D false tx tl' l)|].
  split_and!; try done. intros a Ha. cbn. by rewrite lookup_insert_ne.
Qed.
Lemma enqueueAll_fly a R : ∀ p F D, inv p (R ++ F) D → Forall (λ tx, senderOf tx = a) R →
  let q := enqueueAll p R in
  inv q F D ∧ pPending q = pPending p ∧ pAll q = pAll p ∧ pLocals q = pLocals p ∧ ∀ a', a' ≠ a → pQueue q !! a' = pQueue p !! a'.
Proof.
  induction R as [|tx R IH]; intros p F D Hi Ha; [done|]. apply Forall_cons in Ha as [<- Ha].
  destruct (enqueueTx_fly _ _ _ _ Hi) as (p' & E & Hi' & H1 & H2 & H3 & H4). unfold enqueueAll. cbn. rewrite E. cbn.
  destruct (IH p' F D Hi' Ha) as (H5 & H6 & H7 & H8 & H9). unfold enqueueAll in *. split_and!; try done; try congruence. intros a' Hne. rewrite H9 by done. by apply H4.
Qed.

Lemma promoteTx_fly now p tx F D : inv p (tx :: F) D →
  ∃ p', promoteTx now (senderOf tx) p tx = (true, p') ∧ inv p' F D ∧ pQueue p' = pQueue p ∧ pLocals p' = pLocals p ∧ pState p' = pState p ∧ pMaxGas p' = pMaxGas p.
Proof.
  intros Hi. destruct (iv_fly _ _ _ Hi tx ltac:(by left)) as [Hs Hf]. pose proof (sound_sender _ Hs) as Hse.
  destruct (default_list _ _ _ true (senderOf tx) Hi) as (l & Ho & Hl). pose proof (list_free _ _ _ _ _ _ Hi Hf Hl) as Hnone.
  destruct (Add_free _ _ _ _ tx (PriceBump config) Ho Hse Hs Hnone) as (tl' & E & Ho'). unfold promoteTx. cbn [tlists] in E. rewrite E. cbn [negb dropOld].
  assert (pAll p !! ptHash tx = Some tx) as Hall by (apply (iv_all _ _ _ Hi); split; [done|right; by left]).
  unfold indexNew, lookupGet. cbn [pAll putPending setPending]. rewrite Hall. eexists. split; [done|]. split; [|done].
  eapply inv_same; [exact (file_inv p F D true tx tl' l Hi Hse Hl Ho')|done..].
Qed.
Lemma promoteAll_fly now a R : ∀ p F D, inv p (R ++ F) D → Forall (λ tx, senderOf tx = a) R →
  let q := foldl (λ p tx, (promoteTx now a p tx).2) p R in inv q F D ∧ pQueue q = pQueue p ∧ pLocals q = pLocals p ∧ pState q = pState p ∧ pMaxGas q = pMaxGas p.
Proof.
  induction R as [|tx R IH]; intros p F D Hi Ha; [done|]. apply Forall_cons in Ha as [<- Ha]. destruct (promoteTx_fly now _ _ _ _ Hi) as (p' & E & Hi' & H1 & H2 & H3 & H4).
  cbn. rewrite E. cbn. destruct (IH p' F D Hi' Ha) as (H5 & -> & -> & -> & ->). done.
Qed.

(** *** New transactions *)
Lemma put_remove tx l : StronglySorted nonceLt l → ByNonce.put tx (ByNonce.remove (ptNonce tx) l) = ByNonce.put tx l.
Proof.
  induction 1 as [|x l Hs IH Hlt]; [done|]. unfold ByNonce.remove in *. rewrite filter_cons. destruct (decide (ptNonce x ≠ ptNonce tx)) as [Hne|Heq].
  - cbn. destruct (Z.ltb_spec (ptNonce tx) (ptNonce x)) as [Hl|Hl].
    + f_equal. f_equal. apply list_filter_all. rewrite Forall_forall in *. intros y Hy. specialize (Hlt y Hy). unfold nonceLt in Hlt. cbn. lia.
    + destruct (Z.eqb_spec (ptNonce tx) (ptNonce x)); [congruence|]. by rewrite IH.
  - apply dec_stable in Heq. cbn. destruct (Z.ltb_spec (ptNonce tx) (ptNonce x)); [lia|]. destruct (Z.eqb_spec (ptNonce tx) (ptNonce x)); [|congruence].
    assert (filter (λ t, ptNonce t ≠ ptNonce tx) l = l) as ->.
    { apply list_filter_all. rewrite Forall_forall in *. intros y Hy. specialize (Hlt y Hy). unfold nonceLt in Hlt. cbn. lia. }
    destruct l as [|y l]; [done|]. apply Forall_cons in Hlt as [Hy _]. unfold nonceLt in Hy. cbn. by destruct (Z.ltb_spec (ptNonce tx) (ptNonce y)); [|lia].
Qed.

(** A sorted map for every sublist of a list that has one. *)
Lemma remove_okList a b tl l n : okList a b tl l → ∃ tl', okList a b tl' (ByNonce.remove n l).
Proof.
  intros (Hl & Hs & Hf). destruct Hl as [Hst Hb]. destruct (Remove_stands _ _ n Hst) as (m' & _ & Hm). exists (withTxs tl m'). split_and!; [split; [done|by apply capped_filter]|done|].
  rewrite Forall_forall in *. intros y [_ Hy]%list_elem_of_filter. by apply Hf.
Qed.

Lemma Add_true a b tl l tx bump old tl' : okList a b tl l → ptSender tx = Some a → sound tx → Add tl tx bump = (true, old, tl') →
  okList a b tl' (ByNonce.put tx l) ∧ old = toMap l !! ptNonce tx.
Proof.
  intros (Hl & Hs & Hf) Hse (_ & Hn & _) E. pose proof (Add_lists tl l tx bump Hl Hn) as Ha. assert (strict tl' = strict tl) as Hs'.
  { unfold Add in E. repeat case_match; simplify_eq/=; done. }
  rewrite E in Ha. destruct Ha as [Ha _]. destruct (Ha eq_refl) as (Hl' & -> & _). split; [|done]. split_and!; [done|congruence|by apply put_sender].
Qed.
Lemma Add_false tl tx bump old tl' : Add tl tx bump = (false, old, tl') → tl' = tl.
Proof. unfold Add. intros E. repeat case_match; simplify_eq/=; done. Qed.

(** A new transaction is put into a list of its account: the one it replaces leaves the lookup
    before it enters. *)
Lemma insert_inv p b tx tl l old tl' D :
  inv p [] D → pAll p !! ptHash tx = None → sound tx → (∀ b', b' ≠ b → pget (tlists p b') (senderOf tx) (ptNonce tx) = None) →
  okList (senderOf tx) b tl l → (tlists p b !! senderOf tx = None ∧ l = [] ∨ tlists p b !! senderOf tx = Some tl) →
  Add tl tx (PriceBump config) = (true, old, tl') →
  inv (putList (indexTx (dropOld p old) tx) b (senderOf tx) tl') [] D.
Proof.
  intros Hi Hn Hs Hother Ho Hl E. pose proof (sound_sender _ Hs) as Hse. destruct (Add_true _ _ _ _ _ _ _ _ Ho Hse Hs E) as [Ho' ->]. set (a := senderOf tx) in *.
  destruct (toMap l !! ptNonce tx) as [o|] eqn:Eo.
  - destruct Hl as [[_ ->]|Hl]; [done|]. pose proof (okList_nodup _ _ _ _ Ho) as Hnd. apply toMap_elem in Eo as [Hin Hno]; [|done].
    destruct (remove_okList _ _ _ _ (ptNonce tx) Ho) as [tl1 Ho1].
    assert (l ≡ₚ [o] ++ ByNonce.remove (ptNonce tx) l) as Hperm.
    { clear -Hin Hno Hnd. induction l as [|x l IH]; [by apply not_elem_of_nil in Hin|]. cbn in Hnd. apply NoDup_cons in Hnd as [Hx Hnd]. unfold ByNonce.remove in *. rewrite filter_cons.
      destruct (decide (ptNonce x ≠ ptNonce tx)) as [Hne|Heq].
      - apply elem_of_cons in Hin as [->|Hin]; [congruence|]. rewrite (IH Hin Hnd) at 1. apply Permutation_swap.
      - apply dec_stable in Heq. assert (o = x) as ->.
        { apply elem_of_cons in Hin as [->|Hin]; [done|]. exfalso. apply Hx. rewrite Heq, <-Hno. by apply list_elem_of_fmap_2. }
        cbn. constructor. fold (ByNonce.remove (ptNonce tx) l). rewrite remove_notin; [done|]. by rewrite <-Heq. }
    pose proof (shrink_inv p [] D b a tl l tl1 _ [o] Hi Hl Ho Ho1 Hperm) as Hi1. cbn in Hi1. apply dropTx_inv in Hi1.
    assert (∀ q, tlists (dropTx q o) = tlists q) as Htl by done.
    assert (free (dropTx (putList p b a tl1) o) tx) as Hfree.
    { intros b'. rewrite Htl. destruct (decide (b = b')) as [<-|Hne]; [|rewrite pget_put_other by done; by apply Hother].
      rewrite (pget_put p b a tl1 _ _ _ Ho1), decide_True by done. apply toMap_None. intros [y [Hy1 [Hy2 _]%list_elem_of_filter]]%list_elem_of_fmap. by apply Hy2. }
    eapply (indexTx_inv _ tx [] D) in Hi1; [| |done|done|by intros ?%not_elem_of_nil].
    2: { unfold dropTx, lookupRemove. cbn [pAll setIndex]. apply lookup_delete_None. right. by destruct b. }
    eapply (file_inv _ [] D b tx tl' (ByNonce.remove (ptNonce tx) l)) in Hi1; [|done| |].
    + eapply inv_same; [exact Hi1|by destruct b..| |]; destruct b; cbn; by rewrite ?insert_insert_eq.
    + right. exists tl1. split; [|done]. unfold indexTx. destruct b; cbn; by rewrite lookup_insert_eq.
    + rewrite put_remove; [done|]. by destruct Ho as [[[] _] _].
  - cbn [dropOld]. assert (free p tx) as Hfree.
    { intros b'. destruct (decide (b' = b)) as [->|Hne]; [|by apply Hother]. fold a. destruct Hl as [[En ->]|Hl]; [unfold pget; by rewrite En|by rewrite (pget_old _ _ _ _ _ _ Hl Ho)]. }
    eapply (indexTx_inv _ tx [] D) in Hi; [|done|done|done|by intros ?%not_elem_of_nil]. eapply (file_inv _ [] D b tx tl' l); [done|done| |done].
    destruct Hl as [Hl|Hl]; [by left; destruct b|right]. exists tl. by destruct b.
Qed.

(** *** [removeTx] *)
Lemma inv_weaken p F D D' : inv p F D → D ⊆ D' → inv p F D'.
Proof. intros [H1 H2 H3 H4 H5 H6 H7] Hs. constructor; try done. intros h tx Ht. destruct (H7 h tx Ht); [by left|right; by apply Hs]. Qed.
Lemma inv_gone p F tx D : inv p F (tx :: D) → pAll p !! ptHash tx = None → inv p F D.
Proof.
  intros [H1 H2 H3 H4 H5 H6 H7] Hn. constructor; try done. intros h t Ht. destruct (H7 h t Ht) as [|[->|]%elem_of_cons]; [by left| |by right].
  apply H5 in Ht as Hh. destruct Hh as [<- _]. congruence.
Qed.

Lemma okList_filter a b tl l tl' l' : okList a b tl l → lists tl' l' → strict tl' = b → (∀ t, t ∈ l' → t ∈ l) → okList a b tl' l'.
Proof. intros (_ & _ & Hf) Hl Hs Hsub. split_and!; try done. rewrite Forall_forall in *. intros t Ht. by apply Hf, Hsub. Qed.

Lemma Remove_strict tl tx found invalids tl' : Remove order tl tx = Some (found, invalids, tl') → strict tl' = strict tl.
Proof. unfold Remove. destruct (smRemove _ _) as [[r m]|]; [|done]. cbn. intros E. destruct r, (strict tl) eqn:Es; cbn in E; repeat case_match; simplify_eq/=; done. Qed.

(** The sorted list around one of its transactions. *)
Lemma split_at tx l : StronglySorted nonceLt l → tx ∈ l → l ≡ₚ tx :: filter (λ y, ptNonce tx < ptNonce y) l ++ filter (λ y, ptNonce y < ptNonce tx) l.
Proof.
  induction 1 as [|x l Hs IH Hlt]; [by intros ?%not_elem_of_nil|]. rewrite Forall_forall in Hlt. intros [->|Hin]%elem_of_cons.
  - constructor. rewrite !filter_cons, !decide_False by lia. rewrite (list_filter_all (λ y, ptNonce x < ptNonce y) l) by (by apply Forall_forall).
    rewrite (list_filter_none (λ y, ptNonce y < ptNonce x) l); [by rewrite app_nil_r|]. apply Forall_forall. intros y Hy. specialize (Hlt y Hy). unfold nonceLt in Hlt. lia.
  - pose proof (Hlt tx Hin) as Hx. unfold nonceLt in Hx. rewrite !filter_cons, decide_False, decide_True by lia. rewrite (IH Hin) at 1.
    rewrite <-Permutation_middle. apply Permutation_swap.
Qed.

Lemma removeFuture_inv p tx F D tl l : inv p F D → pQueue p !! senderOf tx = Some tl → okList (senderOf tx) false tl l → tx ∈ l →
  ∃ p', removeFuture p (senderOf tx) tx = Some p' ∧ inv p' (tx :: F) D ∧ pAll p' = pAll p ∧ pPriced p' = pPriced p ∧ pLocals p' = pLocals p
    ∧ (∀ b a', a' ≠ senderOf tx → tlists p' b !! a' = tlists p b !! a')
    ∧ (∀ all priced, removeFuture (setIndex p all priced) (senderOf tx) tx = Some (setIndex p' all priced)).
Proof.
  intros Hi E Ho Hin. unfold removeFuture. rewrite E. pose proof Ho as (Hl & Hst & _). destruct (Remove_lists order order_perm tl l tx Hl) as (found & invalids & tl' & Er & Hf & Hr).
  pose proof (Remove_strict _ _ _ _ _ Er) as Hst'. cbn [pQueue setIndex]. rewrite E, Er. cbn [mbind option_bind]. rewrite Hst, andb_false_r in Hr. destruct Hr as [Hl' _].
  assert (okList (senderOf tx) false tl' (ByNonce.remove (ptNonce tx) l)) as Ho'
    by (eapply okList_filter; [exact Ho|done|congruence|]; intros t [_ Ht]%list_elem_of_filter; done).
  pose proof (okList_nodup _ _ _ _ Ho) as Hnd.
  assert (l ≡ₚ [tx] ++ ByNonce.remove (ptNonce tx) l) as Hperm.
  { assert (StronglySorted nonceLt l) as Hs by (by destruct Hl as [[] _]). rewrite (split_at tx l Hs Hin) at 1. cbn. constructor. clear -Hs. unfold ByNonce.remove.
    induction Hs as [|x l Hs IH Hlt]; [done|]. rewrite !filter_cons. destruct (Z.lt_total (ptNonce x) (ptNonce tx)) as [?|[?|?]].
    - rewrite decide_False, !decide_True by lia. rewrite <-IH. by rewrite <-Permutation_middle.
    - rewrite !decide_False by lia. done.
    - rewrite decide_True, decide_False, decide_True by lia. cbn. by rewrite IH. }
  eexists. split; [done|]. pose proof (shrink_inv p F D false (senderOf tx) tl l tl' _ [tx] Hi E Ho Ho' Hperm) as Hi'. cbn [app] in Hi'.
  split; [apply pruneQueue_inv; [exact Hi'|]; cbn; by rewrite lookup_insert_eq|].
  unfold pruneQueue. destruct (Empty tl'); split_and!; try done; intros [|] a' Ha; cbn; rewrite ?lookup_delete_ne, ?lookup_insert_ne by done; done.
Qed.

Lemma lowerNonce_same a p n : pAll (lowerNonce a p n) = pAll p ∧ pPriced (lowerNonce a p n) = pPriced p ∧ pPending (lowerNonce a p n) = pPending p
  ∧ pQueue (lowerNonce a p n) = pQueue p ∧ pLocals (lowerNonce a p n) = pLocals p.
Proof. unfold lowerNonce. destruct (Managed.GetNonce (pNonces p) a) as [x ms]. done. Qed.

Lemma removeTx_inv p h tx out D : inv p [] D → pAll p !! h = Some tx →
  ∃ p', removeTx p h out = Some p' ∧ inv p' [] D ∧ pAll p' = delete h (pAll p) ∧ pLocals p' = pLocals p
    ∧ ∀ b a', a' ≠ senderOf tx → tlists p' b !! a' = tlists p b !! a'.
Proof.
  intros Hi Hall. unfold removeTx, lookupGet. rewrite Hall. apply (iv_all _ _ _ Hi) in Hall as Hk. destruct Hk as [<- [[b Hg]|Hin]]; [|by apply not_elem_of_nil in Hin].
  set (a := senderOf tx) in *. set (priced' := if out then _ else _). set (all' := lookupRemove _ _).
  destruct (pget_Some _ _ _ _ _ (iv_lists _ _ _ Hi) Hg) as (_ & _ & _ & tl & l & E & Ho & Hin).
  assert (∀ q, inv q (tx :: []) D → pAll q = pAll p → pPriced q = pPriced p → inv (setIndex q all' priced') [] D) as Hun.
  { intros q Hq Ha Hp. unfold all', lookupRemove. rewrite <-Ha. apply unindex_inv; [done| |].
    - unfold priced'. rewrite <-Hp. destruct out; [apply pricedRemoved_heap, Hq|apply Hq].
    - intros h t Ht [Ht'|Ht']; [left|by right]. rewrite Hp in Ht'. unfold priced'. destruct out; [|done]. eapply pricedRemoved_elem; [|by left].
      unfold all', lookupRemove. rewrite <-Ha. exact Ht. }
  destruct b; cbn [tlists] in E.
  - cbn [pPending setIndex]. rewrite E. pose proof Ho as (Hl & Hst & _). destruct (Remove_lists order order_perm tl l tx Hl) as (found & invalids & tl' & Er & Hf & Hr).
    pose proof (Remove_strict _ _ _ _ _ Er) as Hst'. rewrite Er. cbn [mbind option_bind].
    rewrite bool_decide_true in Hf by (by apply list_elem_of_fmap_2). subst found. rewrite Hst in Hr. destruct Hr as [Hl' Hinv]. cbn [andb] in *.
    assert (okList a true tl' (filter (λ y, ptNonce y < ptNonce tx) l)) as Ho' by (eapply okList_filter; [exact Ho|done|congruence|]; intros t [_ Ht]%list_elem_of_filter; done).
    assert (StronglySorted nonceLt l) as Hs by (by destruct Hl as [[] _]).
    assert (l ≡ₚ (tx :: invalids) ++ filter (λ y, ptNonce y < ptNonce tx) l) as Hperm by (cbn; rewrite Hinv; by apply split_at).
    pose proof (shrink_inv p [] D true a tl l tl' _ (tx :: invalids) Hi E Ho Ho' Hperm) as Hi1. rewrite app_nil_r in Hi1.
    eexists. split; [done|]. set (p1 := setIndex p all' priced') in *. set (p2 := prunePending (putPending p1 a tl') a tl').
    assert (inv p2 (invalids ++ []) D) as Hi2.
    { rewrite app_nil_r. apply prunePending_inv; [|cbn; by rewrite lookup_insert_eq]. change (putPending p1 a tl') with (setIndex (putList p true a tl') all' priced').
      unfold all', lookupRemove. change (pAll p) with (pAll (putList p true a tl')). apply unindex_inv; [exact Hi1| |].
      - unfold priced'. destruct out; [apply pricedRemoved_heap, Hi|apply Hi].
      - intros h t Ht [Ht'|Ht']; [left|by right]. unfold priced'. destruct out; [|done]. eapply pricedRemoved_elem; [exact Ht|by left]. }
    assert (Forall (λ t, senderOf t = a) invalids) as Hsi.
    { rewrite Forall_forall. intros t Ht. rewrite Hinv in Ht. apply list_elem_of_filter in Ht as [_ Ht]. by destruct (okList_sound _ _ _ _ _ Ho Ht) as (_ & ? & _). }
    destruct (enqueueAll_fly a invalids p2 [] D Hi2 Hsi) as (Hi3 & H1 & H2 & H3 & H4). destruct (lowerNonce_same a (enqueueAll p2 invalids) (ptNonce tx)) as (L1 & L2 & L3 & L4 & L5).
    split; [by eapply inv_same|]. assert (pAll p2 = all' ∧ pLocals p2 = pLocals p ∧ ∀ b a', a' ≠ a → tlists p2 b !! a' = tlists p b !! a') as (P1 & P2 & P3).
    { unfold p2, prunePending. destruct (Empty tl'); split_and!; try done; intros [|] a' Ha; cbn; rewrite ?lookup_delete_ne, ?lookup_insert_ne by done; done. }
    split_and!; [by rewrite L1, H2, P1|by rewrite L5, H3, P2|]. intros b a' Ha. rewrite <-(P3 b a' Ha). destruct b; cbn [tlists]; [by rewrite L3, H1|by rewrite L4; apply H4].
  - destruct (removeFuture_inv p tx [] D tl l Hi E Ho Hin) as (q & Er & Hq & Qa & Qp & Ql & Qt & Qi). fold a in Er, Qt, Qi.
    assert (∃ p', (match pPending (setIndex p all' priced') !! a with
                   | None => removeFuture (setIndex p all' priced') a tx
                   | Some pending => '(removed, invalids, pending') ← Remove order pending tx;
                       if (removed : bool) then Some (lowerNonce a (enqueueAll (prunePending (putPending (setIndex p all' priced') a pending') a pending') invalids) (ptNonce tx))
                       else removeFuture (putPending (setIndex p all' priced') a pending') a tx end) = Some p'
        ∧ p' = setIndex q all' priced') as (p' & Ep & ->).
    { cbn [pPending setIndex]. destruct (pPending p !! a) as [tlp|] eqn:Ep; [|eexists; split; [apply Qi|done]].
      destruct (iv_lists _ _ _ Hi true a tlp Ep) as [lp Hop]. pose proof Hop as (Hlp & Hstp & _).
      assert (ptNonce tx ∉ TxList.nonces lp) as Hno.
      { pose proof (apart_pending _ _ _ _ _ _ _ Hi Hg) as Hnp. cbn [negb tlists] in Hnp. pose proof (pget_old p true a tlp lp (ptNonce tx) Ep Hop) as Hq'. cbn [tlists] in Hq'. rewrite Hq' in Hnp. by apply toMap_None. }
      assert (Remove order tlp tx = Some (false, [], tlp)) as Hrm.
      { unfold Remove. destruct Hlp as [Hsp _]. unfold smRemove. rewrite (st_items _ _ Hsp). apply toMap_None in Hno. by rewrite Hno. }
      rewrite Hrm. cbn [mbind option_bind]. eexists. split; [|done]. rewrite <-Qi. f_equal. unfold putPending. cbn. rewrite insert_id by done. by destruct p. }
    exists (setIndex q all' priced'). split; [exact Ep|]. split; [by apply Hun|]. split_and!; [done|done|]. intros b a' Ha. by apply Qt.
Qed.

Lemma removeTxs_inv R out : ∀ p D, inv p [] (R ++ D) →
  ∃ p', removeTxs p R out = Some p' ∧ inv p' [] D ∧ pLocals p' = pLocals p ∧ (∀ h, pAll p !! h = None → pAll p' !! h = None)
    ∧ (∀ h, h ∈ ptHash <$> R → pAll p' !! h = None)
    ∧ ∀ b a', (∀ tx, pAll p !! ptHash tx = Some tx → ptHash tx ∈ ptHash <$> R → senderOf tx ≠ a') → tlists p' b !! a' = tlists p b !! a'.
Proof.
  induction R as [|tx R IH]; intros p D Hi; cbn [removeTxs]; [exists p; split_and!; try done; by intros h ?%not_elem_of_nil|].
  destruct (pAll p !! ptHash tx) as [tx'|] eqn:E.
  - destruct (removeTx_inv p (ptHash tx) tx' out _ Hi E) as (p1 & -> & Hi1 & Ha1 & Hl1 & Ht1). cbn [mbind option_bind].
    apply inv_gone in Hi1; [|by rewrite Ha1, lookup_delete_eq]. destruct (IH p1 D Hi1) as (p' & -> & Hi' & Hl' & Ha' & Hr' & Ht'). exists p'. split_and!; try done; [congruence| | |].
    + intros h Hn. apply Ha'. rewrite Ha1. apply lookup_delete_None. by right.
    + intros h [->|Hh]%elem_of_cons; [|by apply Hr']. apply Ha'. by rewrite Ha1, lookup_delete_eq.
    + intros b a' Hne. rewrite Ht'.
      * apply Ht1. intros ->. apply (iv_all _ _ _ Hi) in E as Hh. destruct Hh as [Hh _]. apply (Hne tx'); [by rewrite Hh|rewrite Hh; by left|done].
      * intros t Ht Hin. apply Hne; [|by right]. rewrite Ha1 in Ht. by apply lookup_delete_Some in Ht as [_ ?].
  - unfold removeTx at 1, lookupGet. rewrite E. cbn [mbind option_bind]. apply inv_gone in Hi; [|done]. destruct (IH p D Hi) as (p' & -> & Hi' & Hl' & Ha' & Hr' & Ht'). exists p'.
    split_and!; try done; [|]. { intros h [->|Hh]%elem_of_cons; [by apply Ha'|by apply Hr']. }
    intros b a' Hne. apply Ht'. intros t Ht Hin. apply Hne; [done|by right].
Qed.

(** *** [add] *)
Lemma validateTx_sound p tx local : validateTx p tx local = Ok tt → isU64 (ptNonce tx) → sound tx.
Proof. unfold validateTx. intros E Hn. repeat case_match; try done; repeat split; try done; apply Hn. Qed.

Lemma stale_live p D tx : inv p [] D → pAll p !! ptHash tx = Some tx → live (pAll p) tx.
Proof. intros _ Ht. unfold live, stale, lookupGet. by rewrite Ht. Qed.

(** The prices lose stale points and the transactions [R], which leave next. *)
Lemma reprice_inv p priced R : inv p [] [] → priceHeap (prItems priced) →
  (∀ tx, tx ∈ prItems (pPriced p) → live (pAll p) tx → tx ∈ prItems priced ∨ tx ∈ R) → inv (setIndex p (pAll p) priced) [] (R ++ []).
Proof.
  intros Hi Hh Hp. pose proof Hi as [H1 H2 H3 H4 H5 H6 H7]. constructor; try done. intros h t Ht. cbn in Ht. rewrite app_nil_r. cbn [pPriced setIndex].
  pose proof (H7 h t Ht) as [Hin|Hin]; [|by apply not_elem_of_nil in Hin]. apply Hp; [done|]. eapply stale_live; [done|]. apply H5 in Ht as Hh'. by destruct Hh' as [-> _].
Qed.

Lemma makeRoom_inv p tx local : inv p [] [] → pAll p !! ptHash tx = None →
  ∃ r p', makeRoom p tx local = Some (r, p') ∧ inv p' [] [] ∧ pAll p' !! ptHash tx = None.
Proof.
  intros Hi Hn. unfold makeRoom. case_match; [|by exists None, p].
  assert (∃ u priced, (if local then Some (false, pPriced p) else Underpriced (pAll p) (pLocals p) (pPriced p) tx) = Some (u, priced)
    ∧ inv (setIndex p (pAll p) priced) [] []) as (u & priced & -> & Hi1).
  { destruct local; [eexists _, _; split; [done|]; by eapply inv_same|].
    destruct (Underpriced_spec (pAll p) (pLocals p) (pPriced p) tx (iv_heap _ _ _ Hi)) as (b & pl & E & Hh & Hl & _). exists b, pl. split; [done|].
    apply (reprice_inv p pl [] Hi Hh). intros t Ht Hlv. left. assert (t ∈ filter (live (pAll p)) (prItems pl)) as Hin by (rewrite Hl; by apply list_elem_of_filter).
    by apply list_elem_of_filter in Hin as [_ ?]. }
  cbn [mbind option_bind]. destruct u; [by eexists _, _|].
  set (p1 := setIndex p (pAll p) priced) in *. set (count := Z.of_nat _ - _).
  destruct (Discard_spec (pAll p1) (pLocals p1) (pPriced p1) count (iv_heap _ _ _ Hi1)) as (drops & pl & E & Hh & Hl & _). rewrite E. cbn [mbind option_bind].
  assert (inv (setIndex p1 (pAll p1) pl) [] (drops ++ [])) as Hi2.
  { apply (reprice_inv p1 pl drops Hi1 Hh). intros t Ht Hlv. assert (t ∈ drops ++ filter (live (pAll p1)) (prItems pl)) as Hin by (rewrite <-Hl; by apply list_elem_of_filter).
    apply elem_of_app in Hin as [Hin|[_ Hin]%list_elem_of_filter]; [by right|by left]. }
  destruct (removeTxs_inv drops false _ [] Hi2) as (p2 & -> & Hi3 & _ & Ha & _). cbn [mbind option_bind]. exists None, p2. split_and!; try done. by apply Ha.
Qed.

Lemma indexNew_new p tx old : pAll p !! ptHash tx = None → indexNew (dropOld p old) tx = indexTx (dropOld p old) tx.
Proof.
  intros Hn. unfold indexNew, lookupGet. assert (pAll (dropOld p old) !! ptHash tx = None) as ->; [|done]. destruct old as [o|]; [|done].
  cbn. unfold lookupRemove. apply lookup_delete_None. by right.
Qed.

Lemma addFuture_inv now p tx local : inv p [] [] → pAll p !! ptHash tx = None → sound tx → pget (pPending p) (senderOf tx) (ptNonce tx) = None → inv (addFuture now p tx local).2 [] [].
Proof.
  intros Hi Hn Hs Hp. destruct (default_list _ _ _ false (senderOf tx) Hi) as (l & Ho & Hl). unfold addFuture, enqueueTx. cbn [tlists] in *. set (tl := default _ _) in *.
  destruct (Add tl tx (PriceBump config)) as [[ins old] tl'] eqn:E. destruct ins; cbn [negb].
  - rewrite indexNew_new by done. assert (inv (putList (indexTx (dropOld p old) tx) false (senderOf tx) tl') [] []) as Hi'.
    { eapply insert_inv; [done|done|done| |exact Ho| |exact E]; [intros [|] Hb; [exact Hp|done]|]. cbn [tlists]. unfold tl. destruct Hl as [Hl|(tl0 & El & Ho0)]; [by left|right; by rewrite El]. }
    cbn [snd]. destruct local, old; (eapply inv_same; [exact Hi'|done..]).
  - cbn [snd]. destruct Hl as [[El ->]|(tl0 & El & Ho0)].
    + exfalso. destruct (Add_free _ _ _ _ tx (PriceBump config) Ho (sound_sender _ Hs) Hs) as (t & Et & _); [done|]. congruence.
    + apply Add_false in E as ->. eapply inv_same; [exact Hi|done..|]. cbn. unfold tl. rewrite El. cbn. by rewrite insert_id.
Qed.

Lemma replacePending_inv now p tx tl : inv p [] [] → pAll p !! ptHash tx = None → sound tx → pPending p !! senderOf tx = Some tl → Overlaps tl tx = true →
  inv (replacePending now p tl tx).2 [] [].
Proof.
  intros Hi Hn Hs El Hov. destruct (iv_lists _ _ _ Hi true _ _ El) as [l Ho]. unfold replacePending.
  destruct (Add tl tx (PriceBump config)) as [[ins old] tl'] eqn:E. destruct ins; cbn [negb snd].
  - assert (inv (putList (indexTx (dropOld p old) tx) true (senderOf tx) tl') [] []) as Hi'.
    { eapply insert_inv; [done|done|done| |exact Ho|by right|exact E]. intros [|] Hb; [done|]. unfold Overlaps, smGet in Hov.
      destruct (items (txs tl) !! ptNonce tx) as [o|] eqn:Eo; [|done]. eapply (apart_pending _ _ _ true); [exact Hi|]. cbn [tlists]. unfold pget. rewrite El. cbn. exact Eo. }
    destruct old; (eapply inv_same; [exact Hi'|done..]).
  - apply Add_false in E as ->. eapply inv_same; [exact Hi|done|done| |done]. cbn. by rewrite insert_id.
Qed.

Lemma add_inv now p tx local : inv p [] [] → isU64 (ptNonce tx) → validateTx p tx local ≠ Panic → ∃ r p', add now p tx local = Some (r, p') ∧ inv p' [] [].
Proof.
  intros Hi Hu Hv. unfold add, lookupGet. destruct (pAll p !! ptHash tx) eqn:En; [by eexists _, _|]. destruct (validateTx p tx local) as [[]|e|] eqn:Ev; [|by eexists _, _|done].
  pose proof (validateTx_sound _ _ _ Ev Hu) as Hs. destruct (makeRoom_inv p tx local Hi En) as (r & p1 & -> & Hi1 & Hn1). cbn [mbind option_bind].
  destruct r as [e|]; [by eexists _, _|].
  assert (∀ r : (bool + addError) * TxPool, ∃ r' p', Some r = Some (r', p') ∧ p' = r.2) as Hsome by (intros [r' p']; by eexists _, _).
  destruct (pPending p1 !! senderOf tx) as [tl|] eqn:El; [destruct (Overlaps tl tx) eqn:Eo|].
  - destruct (Hsome (replacePending now p1 tl tx)) as (r & p' & -> & ->). eexists _, _. split; [done|]. by apply replacePending_inv.
  - destruct (Hsome (addFuture now p1 tx local)) as (r & p' & -> & ->). eexists _, _. split; [done|]. apply addFuture_inv; try done. unfold pget. rewrite El. cbn.
    unfold Overlaps, smGet in Eo. by destruct (items (txs tl) !! ptNonce tx).
  - destruct (Hsome (addFuture now p1 tx local)) as (r & p' & -> & ->). eexists _, _. split; [done|]. apply addFuture_inv; try done. unfold pget. by rewrite El.
Qed.

(** *** The lists of one account are brought up to date *)
Lemma okList_sender a b tl l : okList a b tl l → Forall (λ t, senderOf t = a) l.
Proof. intros Ho. rewrite Forall_forall. intros t Ht. by destruct (okList_sound _ _ _ _ _ Ho Ht) as (_ & ? & _). Qed.

Lemma Forward_okList a b tl l t : okList a b tl l →
  ∃ tl', Forward tl t = Some ((ByNonce.forward t l).1, tl') ∧ okList a b tl' (ByNonce.forward t l).2 ∧ l ≡ₚ (ByNonce.forward t l).1 ++ (ByNonce.forward t l).2.
Proof.
  intros Ho. pose proof Ho as (Hl & Hst & _). destruct (Forward_lists tl l t Hl) as (tl' & E & Hl'). exists tl'. split; [done|]. split.
  - eapply okList_filter; [exact Ho|done| |by intros y [_ Hy]%list_elem_of_filter]. unfold Forward in E. destruct (smForward (txs tl) t) as [[r m]|]; [|done]. cbn in E. injection E as _ <-. done.
  - by rewrite forward_app by (by destruct Hl as [[] _]).
Qed.
Lemma Cap_okList a b tl l n : okList a b tl l →
  ∃ tl', Cap tl n = Some ((ByNonce.cap n l).1, tl') ∧ okList a b tl' (ByNonce.cap n l).2 ∧ l ≡ₚ (ByNonce.cap n l).1 ++ (ByNonce.cap n l).2.
Proof.
  intros Ho. pose proof Ho as (Hl & Hst & _). destruct (Cap_lists tl l n Hl) as (tl' & E & Hl'). exists tl'. split; [done|]. split.
  - eapply okList_filter; [exact Ho|done| |intros y; apply subseteq_take]. unfold Cap in E. destruct (smCap (txs tl) n) as [[r m]|]; [|done]. cbn in E. injection E as _ <-. done.
  - unfold ByNonce.cap. cbn. rewrite reverse_Permutation, (comm app). by rewrite take_drop.
Qed.
Lemma Ready_okList a b tl l s : okList a b tl l →
  ∃ tl', Ready tl s = Some ((ByNonce.ready s l).1, tl') ∧ okList a b tl' (ByNonce.ready s l).2 ∧ l ≡ₚ (ByNonce.ready s l).1 ++ (ByNonce.ready s l).2.
Proof.
  intros Ho. pose proof Ho as (Hl & Hst & _). destruct (Ready_lists tl l s Hl) as (tl' & E & Hl'). exists tl'. split; [done|]. pose proof (ready_app s l) as Ha. split.
  - eapply okList_filter; [exact Ho|done| |intros y Hy; rewrite <-Ha; apply elem_of_app; by right]. unfold Ready in E. destruct (smReady (txs tl) s) as [[r m]|]; [|done]. cbn in E. injection E as _ <-. done.
  - by rewrite Ha.
Qed.

Lemma FilterValid_strict tl c g vst bn : strict (FilterValid order tl c g vst bn).2 = strict tl.
Proof.
  unfold FilterValid. assert (strict (filterPrice order tl c g).2 = strict tl) as Hp.
  { unfold filterPrice. case_match; [done|]. by destruct (smFilterWithError _ _ _) as [[]]. }
  destruct (filterPrice order tl c g) as [[r1 e1] l1]. cbn in Hp.
  assert (∀ q, strict (filterStaking order q vst).2 = strict q) as Hs by (intros q; unfold filterStaking; by destruct (smFilterWithError _ _ _) as [[]]).
  destruct (if u64 (lastStkCheck l1 + stakingTxCheckThreshold) <=? bn then _ else _) as [[r e] l2] eqn:E2.
  assert (strict l2 = strict tl) as Hl2.
  { destruct (u64 (lastStkCheck l1 + stakingTxCheckThreshold) <=? bn); [|by injection E2 as _ _ <-].
    pose proof (Hs (mkTxList (strict l1) (txs l1) bn (costcap l1) (gascap l1))) as Hq. destruct (filterStaking order _ vst) as [[sr se] l3]. injection E2 as _ _ <-. cbn in Hq. congruence. }
  match goal with |- context [if ?x then _ else _] => destruct x end; [|done]. by destruct (smFilter order (txs l2) _).
Qed.

Lemma valid_split (valid : PoolTransaction → bool) l : l ≡ₚ filter (λ tx, valid tx = false) l ++ filter (λ tx, valid tx = true) l.
Proof.
  induction l as [|x l IH]; [done|]. rewrite !filter_cons. destruct (valid x).
  - rewrite decide_False, decide_True by done. rewrite IH at 1. apply Permutation_middle.
  - rewrite decide_True, decide_False by done. cbn. by constructor.
Qed.
Lemma prefix_split (valid : PoolTransaction → bool) l : filter (λ tx, valid tx = true) l ≡ₚ stranded valid l ++ validPrefix valid l.
Proof.
  induction l as [|x l IH]; [done|]. rewrite filter_cons. cbn. destruct (valid x).
  - rewrite decide_True by done. rewrite IH. apply Permutation_middle.
  - rewrite decide_False by done. by rewrite app_nil_r.
Qed.

Lemma FilterValid_okList a b tl l c g vst bn : okList a b tl l →
  ∃ removed errs invalids tl' l', FilterValid order tl c g vst bn = (removed, errs, invalids, tl') ∧ okList a b tl' l' ∧ l ≡ₚ removed ++ invalids ++ l' ∧ (b = false → invalids = []).
Proof.
  intros Ho. pose proof Ho as (Hl & Hst & _). pose proof (FilterValid_spec order order_perm tl l c g vst bn Hl) as Hs. pose proof (FilterValid_strict tl c g vst bn) as Hst'. cbn zeta in Hs.
  destruct (FilterValid order tl c g vst bn) as [[[removed errs] invalids] tl']. destruct Hs as (Hr & _ & Hs). cbn in Hst'. rewrite Hst in *. set (valid := validTx tl c g vst bn) in *.
  pose proof (valid_split valid l) as Hvs. rewrite <-Hr in Hvs. destruct b; destruct Hs as [Hl' Hinv].
  - rewrite (prefix_split valid l), <-Hinv in Hvs. exists removed, errs, invalids, tl', (validPrefix valid l). split_and!; [done| |exact Hvs|done].
    eapply okList_filter; [exact Ho|done|done|]. intros t Ht. rewrite Hvs. apply elem_of_app. right. apply elem_of_app. by right.
  - subst invalids. exists removed, errs, [], tl', (filter (λ tx, valid tx = true) l). split_and!; [done| |exact Hvs|done].
    eapply okList_filter; [exact Ho|done|done|by intros t [_ Ht]%list_elem_of_filter].
Qed.

Lemma promoteAccount_inv now p a : inv p [] [] → ∃ p', promoteAccount now p a = Some p' ∧ inv p' [] [].
Proof.
  intros Hi. unfold promoteAccount. destruct (pQueue p !! a) as [tl|] eqn:E; [|by exists p]. destruct (iv_lists _ _ _ Hi false a tl E) as [l Ho].
  destruct (Forward_okList _ _ _ _ (csNonce (pState p) a) Ho) as (tl1 & -> & Ho1 & Hp1). cbn [mbind option_bind]. set (old := (ByNonce.forward _ l).1) in *. set (l1 := (ByNonce.forward _ l).2) in *.
  pose proof (shrink_inv p [] [] false a tl l tl1 l1 old Hi E Ho Ho1 Hp1) as Hi1. apply dropAll_inv in Hi1. cbn [putList] in Hi1.
  destruct (dropAll_frame old (putQueue p a tl1)) as (_ & Fq & _). set (p1 := foldl dropTx (putQueue p a tl1) old) in *.
  destruct (FilterValid_okList _ _ _ _ (csBalance (pState p) a) (pMaxGas p) (validateStakingTx (pState p)) 0 Ho1) as (drops & errs & invalids & tl2 & l2 & -> & Ho2 & Hp2 & Hin).
  rewrite (Hin eq_refl) in Hp2. cbn [app] in Hp2.
  assert (pQueue p1 !! a = Some tl1) as E1 by (rewrite Fq; cbn; by rewrite lookup_insert_eq).
  pose proof (shrink_inv p1 [] [] false a tl1 l1 tl2 l2 drops Hi1 E1 Ho1 Ho2 Hp2) as Hi2. apply dropAll_inv in Hi2. cbn [putList] in Hi2.
  destruct (dropAll_frame drops (putQueue p1 a tl2)) as (_ & Fq2 & _). set (p2 := foldl dropTx (putQueue p1 a tl2) drops) in *.
  destruct (Managed.GetNonce (pNonces p2) a) as [n ms]. destruct (Ready_okList _ _ _ _ n Ho2) as (tl3 & -> & Ho3 & Hp3). cbn [mbind option_bind].
  set (ready := (ByNonce.ready n l2).1) in *. set (l3 := (ByNonce.ready n l2).2) in *.
  assert (inv (setNonces p2 ms) [] []) as Hi2' by (by eapply inv_same). assert (pQueue (setNonces p2 ms) !! a = Some tl2) as E2 by (cbn; rewrite Fq2; cbn; by rewrite lookup_insert_eq).
  pose proof (shrink_inv (setNonces p2 ms) [] [] false a tl2 l2 tl3 l3 ready Hi2' E2 Ho2 Ho3 Hp3) as Hi3. cbn [putList] in Hi3.
  assert (Forall (λ t, senderOf t = a) ready) as Hra by (pose proof (okList_sender _ _ _ _ Ho2) as Hf; rewrite Hp3 in Hf; by apply Forall_app in Hf as [? _]).
  destruct (promoteAll_fly now a ready _ _ _ Hi3 Hra) as (Hi4 & Fq3 & _). set (p3 := foldl _ (putQueue (setNonces p2 ms) a tl3) ready) in *.
  assert (pQueue p3 !! a = Some tl3) as E3 by (rewrite Fq3; cbn; by rewrite lookup_insert_eq).
  assert (∃ over tl4 l4, (if bool_decide (a ∈ pLocals p3) then Some ([], tl3) else Cap tl3 (Z.to_nat (AccountQueue config))) = Some (over, tl4) ∧ okList a false tl4 l4 ∧ l3 ≡ₚ over ++ l4)
    as (over & tl4 & l4 & -> & Ho4 & Hp4).
  { case_match; [by exists [], tl3, l3|]. destruct (Cap_okList _ _ _ _ (Z.to_nat (AccountQueue config)) Ho3) as (tl4 & -> & Ho4 & Hp4). by eexists _, _, _. }
  cbn [mbind option_bind]. eexists. split; [done|].
  pose proof (shrink_inv p3 [] [] false a tl3 l3 tl4 l4 over Hi4 E3 Ho3 Ho4 Hp4) as Hi5. apply dropAll_inv in Hi5. cbn [putList] in Hi5.
  destruct (dropAll_frame over (putQueue p3 a tl4)) as (_ & Fq4 & _). apply pruneQueue_inv; [done|]. rewrite Fq4. cbn. by rewrite lookup_insert_eq.
Qed.
Lemma promoteAccounts_inv now addrs : ∀ p, inv p [] [] → ∃ p', promoteAccounts now p addrs = Some p' ∧ inv p' [] [].
Proof.
  induction addrs as [|a addrs IH]; intros p Hi; cbn; [by exists p|]. destruct (promoteAccount_inv now p a Hi) as (p1 & -> & Hi1). cbn. by apply IH.
Qed.

(** Afterwards the account has no empty pending list. *)
Lemma demoteAccount_inv bn p a : inv p [] [] →
  ∃ p', demoteAccount bn p a = Some p' ∧ inv p' [] [] ∧ (∀ a', a' ≠ a → pPending p' !! a' = pPending p !! a') ∧ (∀ tl, pPending p' !! a = Some tl → Empty tl = false).
Proof.
  intros Hi. unfold demoteAccount. destruct (pPending p !! a) as [tl|] eqn:E; [|exists p; split_and!; try done; congruence]. destruct (iv_lists _ _ _ Hi true a tl E) as [l Ho].
  destruct (Forward_okList _ _ _ _ (csNonce (pState p) a) Ho) as (tl1 & -> & Ho1 & Hp1). cbn [mbind option_bind]. set (old := (ByNonce.forward _ l).1) in *. set (l1 := (ByNonce.forward _ l).2) in *.
  pose proof (shrink_inv p [] [] true a tl l tl1 l1 old Hi E Ho Ho1 Hp1) as Hi1. apply dropAll_inv in Hi1. cbn [putList] in Hi1.
  destruct (dropAll_frame old (putPending p a tl1)) as (Fp & _). set (p1 := foldl dropTx (putPending p a tl1) old) in *.
  destruct (FilterValid_okList _ _ _ _ (csBalance (pState p) a) (pMaxGas p) (validateStakingTx (pState p)) bn Ho1) as (drops & errs & invalids & tl2 & l2 & -> & Ho2 & Hp2 & _).
  assert (pPending p1 !! a = Some tl1) as E1 by (rewrite Fp; cbn; by rewrite lookup_insert_eq).
  rewrite app_assoc in Hp2. pose proof (shrink_inv p1 [] [] true a tl1 l1 tl2 l2 (drops ++ invalids) Hi1 E1 Ho1 Ho2 Hp2) as Hi2. rewrite <-app_assoc in Hi2. apply dropAll_inv in Hi2. cbn [putList] in Hi2.
  destruct (dropAll_frame drops (putPending p1 a tl2)) as (Fp2 & _). set (p2 := foldl dropTx (putPending p1 a tl2) drops) in *.
  assert (Forall (λ t, senderOf t = a) invalids) as Hia.
  { pose proof (okList_sender _ _ _ _ Ho1) as Hf. rewrite Hp2 in Hf. apply Forall_app in Hf as [Hf _]. by apply Forall_app in Hf as [_ ?]. }
  destruct (enqueueAll_fly a invalids p2 [] [] Hi2 Hia) as (Hi3 & Fp3 & _). set (p3 := enqueueAll p2 invalids) in *.
  assert (pPending p3 !! a = Some tl2) as E2 by (rewrite Fp3, Fp2; cbn; by rewrite lookup_insert_eq).
  assert (∃ gapped tl3 l3, (if (0 <? Len tl2)%nat && bool_decide (smGet (txs tl2) (csNonce (pState p) a) = None) then Cap tl2 0 else Some ([], tl2)) = Some (gapped, tl3)
    ∧ okList a true tl3 l3 ∧ l2 ≡ₚ gapped ++ l3) as (gapped & tl3 & l3 & -> & Ho3 & Hp3).
  { case_match; [|by exists [], tl2, l2]. destruct (Cap_okList _ _ _ _ 0 Ho2) as (tl3 & -> & Ho3 & Hp3). by eexists _, _, _. }
  cbn [mbind option_bind]. pose proof (shrink_inv p3 [] [] true a tl2 l2 tl3 l3 gapped Hi3 E2 Ho2 Ho3 Hp3) as Hi4. cbn [putList] in Hi4.
  assert (Forall (λ t, senderOf t = a) gapped) as Hga by (pose proof (okList_sender _ _ _ _ Ho2) as Hf; rewrite Hp3 in Hf; by apply Forall_app in Hf as [? _]).
  destruct (enqueueAll_fly a gapped (putPending p3 a tl3) [] [] Hi4 Hga) as (Hi5 & Fp4 & _). set (p4 := enqueueAll (putPending p3 a tl3) gapped) in *.
  assert (pPending p4 !! a = Some tl3) as E4 by (rewrite Fp4; cbn; by rewrite lookup_insert_eq).
  eexists. split; [done|]. split; [by apply prunePending_inv|].
  assert (∀ a', a' ≠ a → pPending p4 !! a' = pPending p !! a') as Hoth.
  { intros a' Hne. rewrite Fp4. cbn [pPending putPending setPending]. rewrite lookup_insert_ne, Fp3, Fp2 by done. cbn [pPending putPending setPending]. rewrite lookup_insert_ne, Fp by done. cbn. by rewrite lookup_insert_ne. }
  unfold prunePending. destruct (Empty tl3) eqn:Ee; cbn; split.
  - intros a' Hne. rewrite lookup_delete_ne by done. by apply Hoth.
  - intros tl'. by rewrite lookup_delete_eq.
  - exact Hoth.
  - intros tl'. rewrite E4. by intros [= <-].
Qed.

(** *** Too many pending transactions *)
Context (accountsOf_perm : ∀ m, accountsOf m ≡ₚ (map_to_list m).*1).
(** The queue of spammers pops every account once, those with more transactions first. *)
Context (popOrder_spec : ∀ l, ∃ l', l' ≡ₚ l ∧ popOrder l = l'.*1 ∧ StronglySorted (λ x y, y.2 ≤ x.2) l').
Context (byHeartbeat_perm : ∀ l, byHeartbeat l ≡ₚ l.*1).
Context (slots_nonneg : 0 ≤ AccountSlots config).

Lemma lenOf_Some p a tl : pPending p !! a = Some tl → lenOf p a = Len tl.
Proof. intros E. unfold lenOf. by rewrite E. Qed.
Lemma lenOf_same p q a : pPending q !! a = pPending p !! a → lenOf q a = lenOf p a.
Proof. intros E. unfold lenOf. by rewrite E. Qed.

Lemma dropLower_inv a R : ∀ p F D, inv p (R ++ F) D →
  let q := foldl (λ p tx, lowerNonce a (dropTx p tx) (ptNonce tx)) p R in inv q F D ∧ pPending q = pPending p ∧ pLocals q = pLocals p.
Proof.
  induction R as [|tx R IH]; intros p F D Hi; [done|]. cbn [foldl]. destruct (lowerNonce_same a (dropTx p tx) (ptNonce tx)) as (L1 & L2 & L3 & L4 & L5).
  destruct (IH (lowerNonce a (dropTx p tx) (ptNonce tx)) F D) as (H1 & H2 & H3).
  - eapply inv_same; [by apply dropTx_inv|done..].
  - split_and!; [done|by rewrite H2, L3|by rewrite H3, L5].
Qed.

Lemma capOne_inv p a : inv p [] [] → (0 < lenOf p a)%nat →
  ∃ p', capOne p a = Some p' ∧ inv p' [] [] ∧ is_Some (pPending p' !! a) ∧ lenOf p' a = (lenOf p a - 1)%nat ∧ ∀ a', a' ≠ a → pPending p' !! a' = pPending p !! a'.
Proof.
  intros Hi Hlen. unfold capOne. unfold lenOf in Hlen at 1. destruct (pPending p !! a) as [tl|] eqn:E; [|lia]. destruct (iv_lists _ _ _ Hi true a tl E) as [l Ho].
  cbn [mbind option_bind]. destruct (Nat.eqb_spec (Len tl) 0) as [|_]; [lia|]. destruct (Cap_okList _ _ _ _ (Len tl - 1) Ho) as (tl' & -> & Ho' & Hp). cbn [mbind option_bind].
  pose proof (shrink_inv p [] [] true a tl l tl' _ _ Hi E Ho Ho' Hp) as Hi1. cbn [putList] in Hi1. destruct (dropLower_inv a _ _ _ _ Hi1) as (Hi2 & Fp & _).
  eexists. split; [done|]. split; [exact Hi2|]. assert (pPending (putPending p a tl') !! a = Some tl') as E' by (cbn; by rewrite lookup_insert_eq). split_and!.
  - rewrite Fp, E'. by eexists.
  - rewrite (lenOf_same _ _ _ (f_equal (λ m : gmap Address txList, m !! a) Fp)), (lenOf_Some _ _ _ E'), (lenOf_Some _ _ _ E). destruct Ho as (Hl & _). destruct Ho' as (Hl' & _).
    rewrite (Len_length _ _ Hl) in *. rewrite (Len_length _ _ Hl'). unfold ByNonce.cap. cbn. rewrite length_take. lia.
  - intros a' Hne. rewrite Fp. cbn. by rewrite lookup_insert_ne.
Qed.

Lemma capRound_inv addrs : ∀ p n, inv p [] [] → NoDup addrs → (∀ a, a ∈ addrs → (0 < lenOf p a)%nat) →
  ∃ p' n', capRound p n addrs = Some (p', n') ∧ inv p' [] [] ∧ (∀ a, a ∈ addrs → is_Some (pPending p' !! a) ∧ lenOf p' a = (lenOf p a - 1)%nat)
    ∧ ∀ a, a ∉ addrs → pPending p' !! a = pPending p !! a.
Proof.
  induction addrs as [|x addrs IH]; intros p n Hi Hn Hpos; cbn [capRound].
  { exists p, n. split_and!; try done. by intros a ?%not_elem_of_nil. }
  apply NoDup_cons in Hn as [Hx Hn]. destruct (capOne_inv p x Hi (Hpos x ltac:(by left))) as (p1 & -> & Hi1 & Hs1 & Hl1 & Ho1). cbn [mbind option_bind].
  destruct (IH p1 (u64 (n - 1)) Hi1 Hn) as (p' & n' & -> & Hi' & Hin & Hout).
  { intros a Ha. rewrite (lenOf_same p p1 a); [apply Hpos; by right|]. apply Ho1. intros ->. done. }
  exists p', n'. split_and!; try done.
  - intros a [->|Ha]%elem_of_cons.
    + split; [by rewrite Hout|]. by rewrite (lenOf_same p1 p' x) by (by apply Hout).
    + destruct (Hin a Ha) as [H1 H2]. split; [done|]. rewrite H2. by rewrite (lenOf_same p p1 a) by (apply Ho1; by intros ->).
  - intros a [H1 H2]%not_elem_of_cons. rewrite Hout by done. by apply Ho1.
Qed.

Lemma capRounds_inv fuel : ∀ p n addrs probe thr L, inv p [] [] → NoDup addrs → probe ∈ addrs → 0 ≤ thr →
  (∀ a, a ∈ addrs → is_Some (pPending p !! a) ∧ lenOf p a = L) → (L ≤ fuel)%nat →
  ∃ p' n' L', capRounds fuel p n addrs probe thr = Some (p', n') ∧ inv p' [] [] ∧ (∀ a, a ∈ addrs → is_Some (pPending p' !! a) ∧ lenOf p' a = L')
    ∧ (∀ a, a ∉ addrs → pPending p' !! a = pPending p !! a) ∧ (thr ≤ Z.of_nat L → thr ≤ Z.of_nat L') ∧ (n' ≤ GlobalSlots config ∨ Z.of_nat L' ≤ thr).
Proof.
  induction fuel as [|fuel IH]; intros p n addrs probe thr L Hi Hn Hpr Ht Hlen Hf.
  all: destruct (Hlen probe Hpr) as [[tl E] HL]; cbn [capRounds]; rewrite E; cbn [mbind option_bind]; rewrite (lenOf_Some _ _ _ E) in HL; rewrite HL.
  all: destruct (Z.ltb_spec (GlobalSlots config) n) as [Hg|Hg]; cbn [andb]; [|exists p, n, L; split_and!; try done; by left].
  all: destruct (Z.ltb_spec thr (Z.of_nat L)) as [Hlt|Hge]; [|exists p, n, L; split_and!; try done; by right].
  - lia.
  - destruct (capRound_inv addrs p n Hi Hn) as (p1 & n1 & -> & Hi1 & Hin & Hout); [intros a Ha; destruct (Hlen a Ha) as [_ ->]; lia|]. cbn [mbind option_bind].
    destruct (IH p1 n1 addrs probe thr (L - 1)%nat Hi1 Hn Hpr Ht) as (p' & n' & L' & -> & Hi' & Hin' & Hout' & Hle & Hend).
    + intros a Ha. destruct (Hin a Ha) as [H1 H2]. split; [done|]. rewrite H2. by destruct (Hlen a Ha) as [_ ->].
    + lia.
    + exists p', n', L'. split_and!; try done; [|lia]. intros a Ha. rewrite Hout' by done. by apply Hout.
Qed.

Lemma equalizeLoop_inv spammers : ∀ p n offenders, inv p [] [] → NoDup (offenders ++ spammers) → (∀ a, a ∈ offenders ++ spammers → is_Some (pPending p !! a)) →
  StronglySorted (λ x y, (lenOf p y ≤ lenOf p x)%nat) spammers →
  (GlobalSlots config < n → ∃ L, (∀ a, a ∈ offenders → lenOf p a = L) ∧ (offenders ≠ [] → ∀ a, a ∈ spammers → (lenOf p a ≤ L)%nat)) →
  ∃ p' n' offs, equalizeLoop p n spammers offenders = Some (p', n', offs) ∧ inv p' [] [] ∧ NoDup offs ∧ (∀ a, a ∈ offs → is_Some (pPending p' !! a))
    ∧ (GlobalSlots config < n' → ∃ L, ∀ a, a ∈ offs → lenOf p' a = L).
Proof.
  induction spammers as [|s rest IH]; intros p n offenders Hi Hn Hpend Hs Heq; cbn [equalizeLoop].
  { rewrite app_nil_r in *. exists p, n, offenders. split_and!; try done. intros Hg. destruct (Heq Hg) as (L & HL & _). by exists L. }
  destruct (Z.ltb_spec (GlobalSlots config) n) as [Hg|Hg].
  2: { apply NoDup_app in Hn as (Hn1 & _). exists p, n, offenders. split_and!; try done; [intros a Ha; apply Hpend, elem_of_app; by left|lia]. }
  destruct (Heq Hg) as (L & HL & HLs). apply StronglySorted_inv in Hs as [Hs Hmax]. rewrite Forall_forall in Hmax.
  assert (offenders ++ s :: rest = (offenders ++ [s]) ++ rest) as Happ by (by rewrite <-app_assoc). rewrite Happ in Hn, Hpend.
  destruct (Hpend s ltac:(set_solver)) as [tls Es].
  assert (∃ p1 n1, match last offenders with None => Some (p, n)
      | Some probe => list ← pPending p !! s; capRounds (lenOf p probe) p n offenders probe (Z.of_nat (Len list)) end = Some (p1, n1)
    ∧ inv p1 [] [] ∧ (∀ a, a ∈ offenders → is_Some (pPending p1 !! a)) ∧ (∀ a, a ∉ offenders → pPending p1 !! a = pPending p !! a)
    ∧ (GlobalSlots config < n1 → ∀ a, a ∈ offenders → lenOf p1 a = lenOf p s)) as (p1 & n1 & -> & Hi1 & Hin & Hout & Heq1).
  { destruct (last offenders) as [probe|] eqn:El.
    - rewrite Es. cbn [mbind option_bind]. assert (probe ∈ offenders) as Hpr by (by apply last_Some_elem_of). apply NoDup_app in Hn as (Hn & _ & _). apply NoDup_app in Hn as (Hn & _ & _).
      destruct (capRounds_inv (lenOf p probe) p n offenders probe (Z.of_nat (Len tls)) L Hi Hn Hpr) as (p1 & n1 & L' & -> & Hi1 & Hin & Hout & Hle & Hend).
      + lia.
      + intros a Ha. split; [apply Hpend; set_solver|by apply HL].
      + by rewrite (HL probe Hpr).
      + exists p1, n1. split_and!; try done; [intros a Ha; by apply Hin|]. intros Hg1 a Ha. destruct (Hin a Ha) as [_ ->]. rewrite (lenOf_Some _ _ _ Es).
        assert (lenOf p s ≤ L)%nat as Hsl by (apply HLs; [by intros ->|by left]). rewrite (lenOf_Some _ _ _ Es) in Hsl. destruct Hend as [|Hend]; [lia|]. specialize (Hle ltac:(lia)). lia.
    - apply last_None in El as ->. exists p, n. split_and!; try done; [intros a ?%not_elem_of_nil; done|intros _ a ?%not_elem_of_nil; done]. }
  cbn [mbind option_bind]. apply NoDup_app in Hn as Hnd. destruct Hnd as (Hn1 & Hdis & Hn2).
  assert (∀ a, a ∈ s :: rest → pPending p1 !! a = pPending p !! a) as Hsame.
  { intros a [->|Ha]%elem_of_cons; apply Hout; [|intros Ho; apply (Hdis a); [set_solver|done]]. apply NoDup_app in Hn1 as (_ & Hd & _). intros Ho. apply (Hd s Ho). by left. }
  apply (IH p1 n1 (offenders ++ [s])); try done.
  - intros a Ha. destruct (decide (a ∈ offenders)) as [Ho|Ho]; [by apply Hin|]. rewrite Hout by done. by apply Hpend.
  - clear -Hs Hsame. assert (∀ a, a ∈ rest → lenOf p1 a = lenOf p a) as Hl by (intros a Ha; apply lenOf_same, Hsame; by right). clear Hsame.
    induction Hs as [|x r Hs IH Hm]; constructor.
    + apply IH. intros a Ha. apply Hl. by right.
    + rewrite Forall_forall in *. intros y Hy. rewrite (Hl x), (Hl y) by (by (left || right)). by apply Hm.
  - intros Hg1. exists (lenOf p s). split.
    + intros a [Ha|Ha%list_elem_of_singleton]%elem_of_app; [by apply Heq1|subst a]. by apply lenOf_same, Hsame; left.
    + intros _ a Ha. rewrite (lenOf_same p p1) by (apply Hsame; by right). by apply Hmax.
Qed.

Lemma spammers_facts p : NoDup (spammersOf p) ∧ (∀ a, a ∈ spammersOf p → is_Some (pPending p !! a)) ∧ StronglySorted (λ x y, (lenOf p y ≤ lenOf p x)%nat) (spammersOf p).
Proof.
  unfold spammersOf. set (f := λ a : Address, _). set (l := omap f (accountsOf (pPending p))).
  destruct (popOrder_spec l) as (l' & Hp & -> & Hs).
  assert (∀ x, x ∈ l → pPending p !! x.1 ≠ None ∧ x.2 = Z.of_nat (lenOf p x.1)) as Hl.
  { intros x [a [Ha Hx]]%list_elem_of_omap. unfold f in Hx. destruct (pPending p !! a) as [tl|] eqn:E; [|done]. cbn [mbind option_bind] in Hx. case_match; [|done]. injection Hx as <-. cbn.
    by rewrite E, (lenOf_Some _ _ _ E). }
  assert (NoDup l.*1) as Hn.
  { unfold l. assert (NoDup (accountsOf (pPending p))) as Hacc by (rewrite accountsOf_perm; apply NoDup_fst_map_to_list). clear -Hacc.
    induction Hacc as [|a r Ha Hn IH]; [constructor|]. cbn. destruct (f a) as [x|] eqn:E; [|done]. cbn. apply NoDup_cons. split; [|done]. intros [y [Hy Hin]]%list_elem_of_fmap.
    apply list_elem_of_omap in Hin as [b [Hb Hfb]]. assert (x.1 = a ∧ y.1 = b) as [H1 H2].
    { unfold f in E, Hfb. destruct (pPending p !! a), (pPending p !! b); try done. cbn [mbind option_bind] in E, Hfb. repeat case_match; try done. by injection E as <-; injection Hfb as <-. }
    apply Ha. congruence. }
  split_and!.
  - by rewrite Hp.
  - intros a [x [-> Hx]]%list_elem_of_fmap. rewrite Hp in Hx. destruct (Hl x Hx) as [Hne _]. by apply not_eq_None_Some.
  - assert (∀ x, x ∈ l' → x.2 = Z.of_nat (lenOf p x.1)) as Hl' by (intros x Hx; rewrite Hp in Hx; by apply Hl). clear -Hs Hl'.
    induction Hs as [|x r Hs IH Hm]; cbn; constructor; [apply IH; intros y Hy; apply Hl'; by right|]. rewrite Forall_fmap. rewrite Forall_forall in *. intros y Hy. cbn.
    specialize (Hm y Hy). rewrite (Hl' x), (Hl' y) in Hm by (by (left || right)). lia.
Qed.

Lemma equalize_inv p : inv p [] [] → ∃ p', equalize p = Some p' ∧ inv p' [] [].
Proof.
  intros Hi. unfold equalize. case_match; [|by exists p]. destruct (spammers_facts p) as (Hn & Hpend & Hs).
  destruct (equalizeLoop_inv (spammersOf p) p (countTxs (pPending p)) [] Hi Hn Hpend Hs) as (p1 & n1 & offs & -> & Hi1 & Hn1 & Hp1 & Heq).
  { intros _. exists 0%nat. split; [by intros a ?%not_elem_of_nil|done]. }
  cbn [mbind option_bind]. destruct (last offs) as [probe|] eqn:El; [|by exists p1]. destruct (Z.ltb_spec (GlobalSlots config) n1) as [Hg|]; [|by exists p1].
  destruct (Heq Hg) as [L HL]. assert (probe ∈ offs) as Hpr by (by apply last_Some_elem_of).
  destruct (capRounds_inv (lenOf p1 probe) p1 n1 offs probe (AccountSlots config) L Hi1 Hn1 Hpr slots_nonneg) as (p2 & n2 & L' & -> & Hi2 & _).
  - intros a Ha. split; [by apply Hp1|by apply HL].
  - by rewrite (HL probe Hpr).
  - by exists p2.
Qed.

(** *** Whole queues *)
Lemma Flatten_okList a b tl l : okList a b tl l → ∃ tl', Flatten order tl = (l, tl') ∧ okList a b tl' l.
Proof.
  intros (Hl & Hs & Hf). destruct Hl as [Hst Hb]. destruct (Flatten_stands order order_perm (txs tl) l Hst) as [H1 H2]. unfold Flatten.
  destruct (smFlatten order (txs tl)) as [c m]. cbn in H1, H2. subst c. eexists. split; [done|]. by split_and!.
Qed.

(** Flattening a queue and removing some of it touches no other account. *)
Lemma removeQueued_inv p a tl l tl' R out : inv p [] [] → pQueue p !! a = Some tl → okList a false tl l → okList a false tl' l → R ⊆ l →
  ∃ p', removeTxs (putQueue p a tl') R out = Some p' ∧ inv p' [] [] ∧ pLocals p' = pLocals p ∧ ∀ b a', a' ≠ a → tlists p' b !! a' = tlists p b !! a'.
Proof.
  intros Hi E Ho Ho' Hsub. pose proof (shrink_inv p [] [] false a tl l tl' l [] Hi E Ho Ho' ltac:(done)) as Hi1. cbn [putList app] in Hi1.
  destruct (removeTxs_inv R out (putQueue p a tl') []) as (p' & -> & Hi' & Hl' & _ & _ & Ht').
  { eapply inv_weaken; [exact Hi1|]. intros x Hx. by apply not_elem_of_nil in Hx. }
  exists p'. split_and!; try done. intros b a' Hne. rewrite Ht'.
  - destruct b; [done|]. cbn. by rewrite lookup_insert_ne.
  - intros t Ht [r [Hh Hr]]%list_elem_of_fmap. assert (r ∈ l) as Hrl by (by apply Hsub). destruct (okList_sound _ _ _ _ _ Ho' Hrl) as (_ & Hse & _).
    assert (held (putQueue p a tl') r) as Hheld.
    { exists false. rewrite Hse. pose proof (pget_old (putQueue p a tl') false a tl' l (ptNonce r)) as Hg. rewrite Hg; [|cbn; by rewrite lookup_insert_eq|done]. apply toMap_elem; [by eapply okList_nodup|done]. }
    apply (iv_all _ _ _ Hi1) in Ht as Hk. destruct Hk as [_ Hk]. assert (t = r) as -> by (eapply known_hash; [exact Hi1|done|done|by left]). by rewrite Hse.
Qed.

Lemma truncateLoop_inv addrs : ∀ p drop, inv p [] [] → NoDup addrs → (∀ a, a ∈ addrs → is_Some (pQueue p !! a)) → ∃ p', truncateLoop p drop addrs = Some p' ∧ inv p' [] [].
Proof.
  induction addrs as [|a addrs IH]; intros p drop Hi Hn Hq; cbn [truncateLoop]; [by exists p|]. apply NoDup_cons in Hn as [Ha Hn]. case_match; [|by exists p].
  destruct (Hq a ltac:(by left)) as [tl E]. rewrite E. cbn [mbind option_bind]. destruct (iv_lists _ _ _ Hi false a tl E) as [l Ho]. destruct (Flatten_okList _ _ _ _ Ho) as (tl' & -> & Ho').
  assert (∀ R, R ⊆ l → ∃ p', removeTxs (putQueue p a tl') R true = Some p' ∧ inv p' [] [] ∧ ∀ a', a' ∈ addrs → is_Some (pQueue p' !! a')) as Hrm.
  { intros R HR. destruct (removeQueued_inv p a tl l tl' R true Hi E Ho Ho' HR) as (p' & -> & Hi' & _ & Ht). exists p'. split_and!; try done. intros a' Ha'.
    pose proof (Ht false a') as Hf. cbn [tlists] in Hf. rewrite Hf; [apply Hq; by right|by intros ->]. }
  case_match.
  - destruct (Hrm l) as (p' & -> & Hi' & Hq'); [done|]. cbn [mbind option_bind]. by apply IH.
  - destruct (Hrm (take (Z.to_nat drop) (reverse l))) as (p' & -> & Hi' & Hq'); [intros x Hx; apply subseteq_take in Hx; by rewrite elem_of_reverse in Hx|]. cbn [mbind option_bind]. by apply IH.
Qed.

Lemma accounts_mem (m : gmap Address txList) a : a ∈ accountsOf m → is_Some (m !! a).
Proof. rewrite accountsOf_perm. intros [[x tl] [-> Hx]]%list_elem_of_fmap. apply elem_of_map_to_list in Hx. by eexists. Qed.
Lemma accounts_nodup (m : gmap Address txList) : NoDup (accountsOf m).
Proof. rewrite accountsOf_perm. apply NoDup_fst_map_to_list. Qed.

Lemma truncateQueue_inv p : inv p [] [] → ∃ p', truncateQueue p = Some p' ∧ inv p' [] [].
Proof.
  intros Hi. unfold truncateQueue. case_match; [|by exists p]. set (f := λ a : Address, _). set (l := omap f (accountsOf (pQueue p))).
  assert (∀ a x, f a = Some x → x.1 = a) as Hf by (intros a x; unfold f; case_match; [done|]; by intros [= <-]).
  apply truncateLoop_inv; [done| |].
  - rewrite reverse_Permutation, byHeartbeat_perm. unfold l. pose proof (accounts_nodup (pQueue p)) as Hacc. induction Hacc as [|a r Ha Hn IH]; [constructor|]. cbn. destruct (f a) as [x|] eqn:E; [|done].
    cbn. apply NoDup_cons. split; [|done]. intros [y [Hy Hin]]%list_elem_of_fmap. apply list_elem_of_omap in Hin as [b [Hb Hfb]]. apply Ha. rewrite <-(Hf a x E), Hy, (Hf b y Hfb). done.
  - intros a Ha. rewrite elem_of_reverse, byHeartbeat_perm in Ha. apply list_elem_of_fmap in Ha as [x [-> Hx]]. apply list_elem_of_omap in Hx as [b [Hb Hfb]]. rewrite (Hf b x Hfb). by apply accounts_mem.
Qed.

Lemma promoteExecutables_inv now p addrs : inv p [] [] → ∃ p', promoteExecutables now p addrs = Some p' ∧ inv p' [] [].
Proof.
  intros Hi. unfold promoteExecutables. destruct (promoteAccounts_inv now (default (accountsOf (pQueue p)) addrs) p Hi) as (p1 & -> & Hi1). cbn [mbind option_bind].
  destruct (equalize_inv p1 Hi1) as (p2 & -> & Hi2). cbn [mbind option_bind]. by apply truncateQueue_inv.
Qed.

Lemma evictLoop_inv now addrs : ∀ p, inv p [] [] → NoDup addrs → (∀ a, a ∈ addrs → is_Some (pQueue p !! a)) → ∃ p', evictLoop now p addrs = Some p' ∧ inv p' [] [].
Proof.
  induction addrs as [|a addrs IH]; intros p Hi Hn Hq; cbn [evictLoop]; [by exists p|]. apply NoDup_cons in Hn as [Ha Hn].
  case_match; [apply IH; try done; intros a' Ha'; apply Hq; by right|].
  destruct (match pBeats p !! a with Some beat => _ | None => true end); [|apply IH; try done; intros a' Ha'; apply Hq; by right].
  destruct (Hq a ltac:(by left)) as [tl E]. rewrite E. cbn [mbind option_bind]. destruct (iv_lists _ _ _ Hi false a tl E) as [l Ho]. destruct (Flatten_okList _ _ _ _ Ho) as (tl' & -> & Ho').
  destruct (removeQueued_inv p a tl l tl' l true Hi E Ho Ho') as (p' & -> & Hi' & _ & Ht); [done|]. cbn [mbind option_bind]. apply IH; try done. intros a' Ha'.
  pose proof (Ht false a') as Hf. cbn [tlists] in Hf. rewrite Hf; [apply Hq; by right|by intros ->].
Qed.

(** *** [reset] *)
Lemma demoteAccounts_inv bn addrs : ∀ p, inv p [] [] →
  ∃ p', demoteAccounts bn p addrs = Some p' ∧ inv p' [] [] ∧ (∀ a, a ∉ addrs → pPending p' !! a = pPending p !! a)
    ∧ (∀ a tl, a ∈ addrs → pPending p' !! a = Some tl → Empty tl = false).
Proof.
  induction addrs as [|a addrs IH]; intros p Hi; cbn [demoteAccounts]; [exists p; split_and!; try done; by intros a tl ?%not_elem_of_nil|].
  destruct (demoteAccount_inv bn p a Hi) as (p1 & -> & Hi1 & Ho1 & He1). cbn [mbind option_bind]. destruct (IH p1 Hi1) as (p' & -> & Hi' & Ho' & He'). exists p'. split_and!; try done.
  - intros a' [Hne Hn]%not_elem_of_cons. rewrite Ho' by done. by apply Ho1.
  - intros a' tl [->|Ha']%elem_of_cons Hl; [|by eapply He']. destruct (decide (a ∈ addrs)) as [Hin|Hout]; [by eapply He'|]. rewrite Ho' in Hl by done. by apply He1.
Qed.

Lemma resetNonces_inv addrs : ∀ p, inv p [] [] → NoDup addrs → (∀ a, a ∈ addrs → ∃ tl, pPending p !! a = Some tl ∧ Empty tl = false) →
  ∃ p', resetNonces p addrs = Some p' ∧ inv p' [] [].
Proof.
  induction addrs as [|a addrs IH]; intros p Hi Hn Hq; cbn [resetNonces]; [by exists p|]. apply NoDup_cons in Hn as [Ha Hn].
  destruct (Hq a ltac:(by left)) as (tl & E & He). rewrite E. cbn [mbind option_bind]. destruct (iv_lists _ _ _ Hi true a tl E) as [l Ho]. destruct (Flatten_okList _ _ _ _ Ho) as (tl' & -> & Ho').
  pose proof Ho as (Hl & _). rewrite (Empty_nil _ _ Hl) in He. apply bool_decide_eq_false in He. destruct (last l) as [tx|] eqn:El; [|by apply last_None in El]. cbn [mbind option_bind].
  pose proof (shrink_inv p [] [] true a tl l tl' l [] Hi E Ho Ho' ltac:(done)) as Hi1. apply IH; [by eapply inv_same|done|]. intros a' Ha'. cbn. rewrite lookup_insert_ne by (by intros ->). apply Hq. by right.
Qed.

(** *** The methods *)
Lemma validateTx_total p tx local : is_Some (ptTo tx) → validateTx p tx local ≠ Panic.
Proof. intros [to Hto]. unfold validateTx. rewrite Hto. repeat case_match; done. Qed.

(** What a caller must see to: nonces of 64 bits, and a receiver. *)
Definition admissible tx : Prop := isU64 (ptNonce tx) ∧ is_Some (ptTo tx).

Lemma addTx_inv now p tx local : inv p [] [] → admissible tx → ∃ e p', addTx now p tx local = Some (e, p') ∧ inv p' [] [].
Proof.
  intros Hi [Hu Hto]. unfold addTx. destruct (add_inv now p tx local Hi Hu (validateTx_total p tx local Hto)) as (r & p1 & -> & Hi1). cbn [mbind option_bind].
  destruct r as [replace|e]; [|by eexists _, _]. destruct replace; [by eexists _, _|]. destruct (promoteExecutables_inv now p1 (Some [senderOf tx]) Hi1) as (p2 & -> & Hi2). cbn. by eexists _, _.
Qed.
Lemma addLoop_inv now local txs : ∀ p dirty, inv p [] [] → Forall admissible txs → ∃ es d p', addLoop now p txs local dirty = Some (es, d, p') ∧ inv p' [] [].
Proof.
  induction txs as [|tx txs IH]; intros p dirty Hi Ha; cbn [addLoop]; [by eexists _, _, _|]. apply Forall_cons in Ha as [[Hu Hto] Ha].
  destruct (add_inv now p tx local Hi Hu (validateTx_total p tx local Hto)) as (r & p1 & -> & Hi1). cbn [mbind option_bind].
  destruct (match r with inr e => _ | inl true => _ | inl false => _ end) as [e d1]. destruct (IH p1 d1 Hi1 Ha) as (es & d & p' & -> & Hi'). cbn. by eexists _, _, _.
Qed.
Lemma addTxsLocked_inv now p txs local : inv p [] [] → Forall admissible txs → ∃ es p', addTxsLocked now p txs local = Some (es, p') ∧ inv p' [] [].
Proof.
  intros Hi Ha. unfold addTxsLocked. destruct (addLoop_inv now local txs p ∅ Hi Ha) as (es & d & p1 & -> & Hi1). cbn [mbind option_bind]. case_match; [by eexists _, _|].
  destruct (promoteExecutables_inv now p1 (Some (dirtyOrder d)) Hi1) as (p2 & -> & Hi2). cbn. by eexists _, _.
Qed.

Lemma reset_inv now p st maxGas bn reinject : inv p [] [] → Forall admissible reinject → ∃ p', reset now p st maxGas bn reinject = Some p' ∧ inv p' [] [].
Proof.
  intros Hi Ha. unfold reset. set (p0 := mkPool _ _ _ _ _ _ _ _ _ _). assert (inv p0 [] []) as Hi0 by (by eapply inv_same).
  destruct (addTxsLocked_inv now p0 reinject false Hi0 Ha) as (es & p1 & -> & Hi1). cbn [mbind option_bind]. unfold demoteUnexecutables.
  destruct (demoteAccounts_inv bn (accountsOf (pPending p1)) p1 Hi1) as (p2 & -> & Hi2 & Ho2 & He2). cbn [mbind option_bind].
  assert (∀ a, a ∈ accountsOf (pPending p2) → ∃ tl, pPending p2 !! a = Some tl ∧ Empty tl = false) as Hne.
  { intros a Hin. apply accounts_mem in Hin as [tl E]. exists tl. split; [done|]. apply (He2 a); [|done]. destruct (decide (a ∈ accountsOf (pPending p1))) as [|Hout]; [done|]. exfalso.
    rewrite Ho2 in E by done. apply Hout. rewrite accountsOf_perm. apply list_elem_of_fmap. exists (a, tl). split; [done|]. by apply elem_of_map_to_list. }
  destruct (resetNonces_inv (accountsOf (pPending p2)) p2 Hi2 (accounts_nodup _) Hne) as (p3 & -> & Hi3). cbn [mbind option_bind]. by apply promoteExecutables_inv.
Qed.

Lemma SetGasPrice_inv p price : inv p [] [] → ∃ p', SetGasPrice p price = Some p' ∧ inv p' [] [].
Proof.
  intros Hi. unfold SetGasPrice. set (p0 := mkPool _ _ _ _ _ _ _ _ _ _). assert (inv p0 [] []) as Hi0 by (by eapply inv_same).
  destruct (pricedCap_spec (pAll p0) (pLocals p0) (pPriced p0) price (iv_heap _ _ _ Hi0)) as (drops & pl & -> & Hh & Hl & _). cbn [mbind option_bind].
  destruct (removeTxs_inv drops false (setIndex p0 (pAll p0) pl) []) as (p' & -> & Hi' & _); [|by exists p']. apply (reprice_inv p0 pl drops Hi0 Hh). intros t Ht Hlv.
  assert (t ∈ drops ++ filter (live (pAll p0)) (prItems pl)) as Hin by (rewrite <-Hl; by apply list_elem_of_filter).
  apply elem_of_app in Hin as [Hin|[_ Hin]%list_elem_of_filter]; [by right|by left].
Qed.

Inductive poolOp :=
| OpAddLocal (tx : PoolTransaction) | OpAddRemote (tx : PoolTransaction) | OpAddAll (txs : list PoolTransaction) (local : bool)
| OpReset (st : ChainState) (maxGas bn : Z) (reinject : list PoolTransaction) | OpSetGasPrice (price : Z) | OpEvict.
Definition opAdmissible (op : poolOp) : Prop :=
  match op with OpAddLocal tx | OpAddRemote tx => admissible tx | OpAddAll txs _ | OpReset _ _ _ txs => Forall admissible txs | _ => True end.
Definition poolStep (p : TxPool) (now_op : Z * poolOp) : option TxPool :=
  let now := now_op.1 in
  match now_op.2 with
  | OpAddLocal tx => snd <$> AddLocal now p tx
  | OpAddRemote tx => snd <$> AddRemote now p tx
  | OpAddAll txs local => snd <$> addTxsLocked now p txs local
  | OpReset st maxGas bn reinject => reset now p st maxGas bn reinject
  | OpSetGasPrice price => SetGasPrice p price
  | OpEvict => evict now p
  end.
Definition poolRun (p : TxPool) (ops : list (Z * poolOp)) : option TxPool := foldl (λ r op, q ← r; poolStep q op) (Some p) ops.

(** The pool of [NewTxPool] before its first [reset]. *)
Definition newPool (locals : accountSet) (priceLimit : Z) (st : ChainState) : TxPool :=
  mkPool ∅ newTxPricedList ∅ ∅ locals (Managed.ManageState (csNonce st)) ∅ priceLimit st 0.

Lemma newPool_inv locals price st : inv (newPool locals price st) [] [].
Proof.
  constructor.
  - intros [|] a tl; change (tlists _ _) with (∅ : gmap Address txList); by rewrite lookup_empty.
  - intros a n. left. done.
  - intros tx Ht. by apply not_elem_of_nil in Ht.
  - constructor.
  - intros h tx. change (pAll _) with (∅ : txLookup). split; [by rewrite lookup_empty|]. intros (_ & [[[|] Hb]|Hin]); [done|done|by apply not_elem_of_nil in Hin].
  - intros k Hk. cbn in Hk. lia.
  - intros h tx. change (pAll _) with (∅ : txLookup). by rewrite lookup_empty.
Qed.

Lemma poolStep_inv p op : inv p [] [] → opAdmissible op.2 → ∃ p', poolStep p op = Some p' ∧ inv p' [] [].
Proof.
  intros Hi Ha. destruct op as [now [tx|tx|txs local|st maxGas bn reinject|price|]]; cbn [poolStep fst snd] in *.
  - destruct (addTx_inv now p tx (negb (NoLocals config)) Hi Ha) as (e & p' & E & Hi'). unfold AddLocal. rewrite E. by exists p'.
  - destruct (addTx_inv now p tx false Hi Ha) as (e & p' & E & Hi'). unfold AddRemote. rewrite E. by exists p'.
  - destruct (addTxsLocked_inv now p txs local Hi Ha) as (e & p' & -> & Hi'). by exists p'.
  - by apply reset_inv.
  - by apply SetGasPrice_inv.
  - apply evictLoop_inv; [done|apply accounts_nodup|apply accounts_mem].
Qed.

(** C15: Every sequence of additions, resets to new heads, price changes and evictions runs
    without a panic on transactions that have a receiver, and leaves a pool whose lookup holds
    exactly the pending and queued transactions, each under its hash, whose accounts have no
    nonce both pending and queued, and whose heap of prices misses none. *)
Theorem pool_consistent locals price st ops : Forall (λ op, opAdmissible op.2) ops →
  ∃ p, poolRun (newPool locals price st) ops = Some p ∧ inv p [] [].
Proof.
  generalize (newPool_inv locals price st). generalize (newPool locals price st). unfold poolRun. induction ops as [|op ops IH]; intros p Hi Ha; [by exists p|].
  apply Forall_cons in Ha as [Hop Ha]. destruct (poolStep_inv p op Hi Hop) as (p1 & E & Hi1). cbn [foldl mbind option_bind]. rewrite E. by apply IH.
Qed.

(** The status of a transaction, which is looked up by its nonce, is right. *)
Theorem Status_spec p h : inv p [] [] →
  Status p h = match pAll p !! h with
               | None => TxStatusUnknown
               | Some tx => if bool_decide (pget (pPending p) (senderOf tx) (ptNonce tx) = Some tx) then TxStatusPending else TxStatusQueued
               end.
Proof.
  intros Hi. unfold Status, lookupGet. destruct (pAll p !! h) as [tx|] eqn:E; [|done]. apply (iv_all _ _ _ Hi) in E as (_ & [[b Hb]|Hin]); [|by apply not_elem_of_nil in Hin].
  assert (pget (pPending p) (senderOf tx) (ptNonce tx) = if b then Some tx else None) as Hg.
  { destruct b; [exact Hb|]. exact (apart_pending _ _ _ _ _ _ _ Hi Hb). }
  rewrite Hg. unfold pget in Hg. destruct (pPending p !! senderOf tx) as [tl|]; cbn in Hg; [rewrite Hg|]; destruct b; try done; by rewrite bool_decide_true.
Qed.

(** [StakingTransaction.To] (staking/types/transaction.go). *)
Definition stakingTo : option Address := None.

(** C16: A transaction for this shard from an account that is not frozen and without a receiver,
    as contract creations and all staking transactions are, makes the pool panic: the receiver
    is dereferenced for the test of the freeze flag. *)
Theorem nil_receiver_panics now p tx local :
  pAll p !! ptHash tx = None → ptShardID tx = blockShard → csFreeze (pState p) (senderOf tx) = false → ptTo tx = stakingTo → addTx now p tx local = None.
Proof.
  intros Hn Hs Hf Hto. unfold addTx, add, lookupGet. rewrite Hn. unfold validateTx. by rewrite Hs, Z.eqb_refl, Hf, Hto.
Qed.
End pool.

(** ** Instances *)
Definition demoConfig : TxPoolConfig := mkConfig 10 1 3 4 2 100 ∅ false.
Definition demoRange (all : txLookup) : list PoolTransaction := (map_to_list all).*2.
Definition demoAccounts (m : gmap Address txList) : list Address := (map_to_list m).*1.
Definition moreFirst (x y : Address * Z) : Prop := y.2 ≤ x.2.
Definition oldFirst (x y : Address * Z) : Prop := x.2 ≤ y.2.
#[local] Instance moreFirst_dec x y : Decision (moreFirst x y).
Proof. unfold moreFirst. apply _. Defined.
#[local] Instance oldFirst_dec x y : Decision (oldFirst x y).
Proof. unfold oldFirst. apply _. Defined.
Definition demoPop (l : list (Address * Z)) : list Address := (merge_sort moreFirst l).*1.
Definition demoBeats (l : list (Address * Z)) : list Address := (merge_sort oldFirst l).*1.
Lemma demoPop_spec l : ∃ l', l' ≡ₚ l ∧ demoPop l = l'.*1 ∧ StronglySorted (λ x y, y.2 ≤ x.2) l'.
Proof.
  exists (merge_sort moreFirst l). split_and!; [apply merge_sort_Permutation|reflexivity|]. change (StronglySorted moreFirst (merge_sort moreFirst l)). apply StronglySorted_merge_sort; unfold moreFirst; [intros ???; lia|intros ??; lia].
Qed.
Lemma demoBeats_perm l : demoBeats l ≡ₚ l.*1.
Proof. unfold demoBeats. by rewrite merge_sort_Permutation. Qed.

Definition demoChain (nonce : Z) : ChainState := mkChainState (λ _, nonce) (λ _, 1000) (λ _, false).
Definition demoPoolRun := poolRun demoConfig anyOrder demoRange demoAccounts elements demoPop demoBeats (λ _ _, None) 0 false false.

(** Two accounts fill the pool, which evens out their pending lists, and a new head removes what
    it contains. *)
Definition demoPoolOps : list (Z * poolOp) :=
  [(1, OpReset (demoChain 0) 80000 1 []); (2, OpAddRemote (demoTx 0 5 10 1)); (3, OpAddRemote (demoTx 1 5 10 1)); (4, OpAddRemote (demoTx 2 5 10 1));
   (5, OpAddRemote (demoTx 0 7 10 2)); (6, OpAddLocal (demoTx 4 7 10 3)); (7, OpAddRemote (demoTx 0 9 10 2)); (8, OpReset (demoChain 1) 80000 2 []); (9, OpSetGasPrice 6)].

Lemma pool_consistent_witness :
  ∃ p, demoPoolRun (newPool ∅ 1 (demoChain 0)) demoPoolOps = Some p ∧ inv p [] [].
Proof.
  apply (pool_consistent demoConfig anyOrder demoRange demoAccounts elements demoPop demoBeats (λ _ _, None) 0 false false anyOrder_perm).
  - intros all. reflexivity.
  - intros m. reflexivity.
  - exact demoPop_spec.
  - exact demoBeats_perm.
  - discriminate.
  - repeat constructor; cbn; unfold isU64; try lia; eauto.
Defined.

(** What is left: the third transaction of the first account was dropped when the second account
    came, and the rest is on the chain or cheaper than the new limit, or local. *)
Example demoPool_left :
  (λ p, elements (dom (pAll p))) <$> demoPoolRun (newPool ∅ 1 (demoChain 0)) demoPoolOps = Some [304].
Proof. vm_compute. reflexivity. Qed.

Lemma nil_receiver_panics_witness :
  addTx demoConfig anyOrder demoRange demoAccounts demoPop demoBeats (λ _ _, None) 0 false false 3 (newPool ∅ 1 (demoChain 0))
    (mkPoolTx 0 5 21000 (Some 10) 7 true (Some 1) None 0 200 0 [] DirectiveDelegate) false = None.
Proof. apply nil_receiver_panics; reflexivity. Defined.
