(* ===== verification/PoolReset.v ===== *)
(** * Abandoned blocks and the transaction pool (reset of core/tx_pool.go)

    When the chain gets a new head that does not follow the old one, the pool takes back the
    transactions of the blocks that were abandoned and are not in the new branch.  This file
    finds them and completes [reset] of TxPool.v.  The chain is the function [getBlock]; the
    difference of the block numbers is exact where Go computes it with floats (below 2^53).  The missing
    new head that the code allows during tests is left out. *)

From Stdlib Require Import ZArith Lia Sorted.
From stdpp Require Import base gmap list option sets.
From S2P Require Import Prelude StateTransition TxList TxPool.
Local Open Scope Z_scope.

(** What [reset] reads of a block and of a header. *)
Record PoolBlock := mkPoolBlock { pbHash : Hash; pbParent : Hash; pbNumber : Z; pbTxs : list PoolTransaction; pbStaking : list PoolTransaction }.
Record Head := mkHead { headHash : Hash; headParent : Hash; headNumber : Z }.

(** [types.PoolTxDifference]. *)
Definition PoolTxDifference (a b : list PoolTransaction) : list PoolTransaction := filter (λ tx, ptHash tx ∉ ptHash <$> b) a.

(** The whole of [reset] returns at once when a branch is not rooted. *)
Inductive reorgResult := Unrooted | Reinject (txs : list PoolTransaction).

Section reorg.
Context (getBlock : Hash → Z → option PoolBlock).
Implicit Types (b rem add anc : PoolBlock) (bs olds news : list PoolBlock).

Definition txsOf b : list PoolTransaction := pbTxs b ++ pbStaking b.
Definition parentOf b : option PoolBlock := getBlock (pbParent b) (u64 (pbNumber b - 1)).

(** The first two loops: down to the height [target].  [None] is a lack of fuel, [Some None] a
    branch that is not rooted. *)
Fixpoint descend (fuel : nat) b (target : Z) (acc : list PoolTransaction) : option (option (PoolBlock * list PoolTransaction)) :=
  if target <? pbNumber b then
    match fuel with
    | O => None
    | S fuel => match parentOf b with None => Some None | Some b' => descend fuel b' target (acc ++ txsOf b) end
    end
  else Some (Some (b, acc)).

(** The third loop: both branches down to a common block. *)
Fixpoint meet (fuel : nat) rem add (discarded included : list PoolTransaction) : option (option (list PoolTransaction * list PoolTransaction)) :=
  if pbHash rem =? pbHash add then Some (Some (discarded, included))
  else
    match fuel with
    | O => None
    | S fuel =>
        match parentOf rem with
        | None => Some None
        | Some rem' => match parentOf add with None => Some None | Some add' => meet fuel rem' add' (discarded ++ txsOf rem) (included ++ txsOf add) end
        end
    end.

(** [None] is a panic: the block of a head is missing. *)
Definition reorg (oldHead newHead : Head) : option reorgResult :=
  if headHash oldHead =? headParent newHead then Some (Reinject [])
  else if 64 <? Z.abs (headNumber oldHead - headNumber newHead) then Some (Reinject [])
  else
    rem ← getBlock (headHash oldHead) (headNumber oldHead);
    add ← getBlock (headHash newHead) (headNumber newHead);
    r1 ← descend (Z.to_nat (pbNumber rem)) rem (pbNumber add) [];
    match r1 with
    | None => Some Unrooted
    | Some (rem1, discarded) =>
        r2 ← descend (Z.to_nat (pbNumber add)) add (pbNumber rem1) [];
        match r2 with
        | None => Some Unrooted
        | Some (add1, included) =>
            r3 ← meet (S (Z.to_nat (pbNumber rem1))) rem1 add1 discarded included;
            Some (match r3 with None => Unrooted | Some (d, i) => Reinject (PoolTxDifference d i) end)
        end
    end.

(** A block is stored under its hash and number, and there is none below the first. *)
Context (getBlock_key : ∀ h n b, getBlock h n = Some b → pbHash b = h ∧ pbNumber b = n ∧ isU64 n)
  (getBlock_first : ∀ h n b, getBlock h n = Some b → pbNumber b = 0 → parentOf b = None).

Definition known b : Prop := ∃ h n, getBlock h n = Some b.

Lemma parent_number b b' : known b → parentOf b = Some b' → known b' ∧ 0 ≤ pbNumber b' ∧ pbNumber b = pbNumber b' + 1.
Proof.
  intros (h & n & Hb) Hp. destruct (getBlock_key _ _ _ Hb) as (_ & Hn & Hu). destruct (getBlock_key _ _ _ Hp) as (_ & Hn' & _). split; [by eexists _, _|].
  destruct (decide (pbNumber b = 0)) as [H0|H0]; [by rewrite (getBlock_first _ _ _ Hb H0) in Hp|]. unfold isU64 in Hu. rewrite u64_small in Hn' by (unfold isU64; lia). lia.
Qed.
Lemma known_number b : known b → 0 ≤ pbNumber b.
Proof. intros (h & n & Hb). destruct (getBlock_key _ _ _ Hb) as (_ & <- & Hu). apply Hu. Qed.

(** The search always ends: the heights are enough fuel. *)
Lemma descend_total fuel : ∀ b target acc, known b → 0 ≤ target → (Z.to_nat (pbNumber b) ≤ fuel)%nat →
  ∃ r, descend fuel b target acc = Some r ∧ ∀ b' acc', r = Some (b', acc') → known b' ∧ pbNumber b' = Z.min (pbNumber b) target.
Proof.
  induction fuel as [|fuel IH]; intros b target acc Hk Ht Hf; pose proof (known_number b Hk); cbn [descend]; destruct (Z.ltb_spec target (pbNumber b)) as [Hlt|Hge].
  - lia.
  - eexists. split; [done|]. intros b' acc' [= <- <-]. split; [done|lia].
  - destruct (parentOf b) as [b1|] eqn:Hp; [|by eexists]. destruct (parent_number _ _ Hk Hp) as (Hk1 & Hn1 & Hn2).
    destruct (IH b1 target (acc ++ txsOf b) Hk1 Ht ltac:(lia)) as (r & -> & Hr). exists r. split; [done|]. intros b' acc' E. destruct (Hr b' acc' E) as [? ->]. split; [done|lia].
  - eexists. split; [done|]. intros b' acc' [= <- <-]. split; [done|lia].
Qed.
Lemma meet_total fuel : ∀ rem add d i, known rem → known add → (Z.to_nat (pbNumber rem) < fuel)%nat → is_Some (meet fuel rem add d i).
Proof.
  induction fuel as [|fuel IH]; intros rem add d i Hr Ha Hf; [lia|]. cbn [meet]. case_match; [done|]. destruct (parentOf rem) as [rem'|] eqn:Er; [|done].
  destruct (parentOf add) as [add'|] eqn:Ea; [|done]. destruct (parent_number _ _ Hr Er) as (Hk & Hn & Hn'). destruct (parent_number _ _ Ha Ea) as (Hk' & _). apply IH; try done. lia.
Qed.

Theorem reorg_total oldHead newHead :
  is_Some (getBlock (headHash oldHead) (headNumber oldHead)) → is_Some (getBlock (headHash newHead) (headNumber newHead)) → is_Some (reorg oldHead newHead).
Proof.
  intros [rem Hr] [add Ha]. unfold reorg. case_match; [done|]. case_match; [done|]. rewrite Hr, Ha. cbn [mbind option_bind].
  assert (known rem) as Kr by (by eexists _, _). assert (known add) as Ka by (by eexists _, _).
  destruct (descend_total (Z.to_nat (pbNumber rem)) rem (pbNumber add) [] Kr (known_number _ Ka) ltac:(lia)) as (r1 & -> & H1). cbn [mbind option_bind].
  destruct r1 as [[rem1 d]|]; [|done]. destruct (H1 rem1 d eq_refl) as [Kr1 _].
  destruct (descend_total (Z.to_nat (pbNumber add)) add (pbNumber rem1) [] Ka (known_number _ Kr1) ltac:(lia)) as (r2 & -> & H2). cbn [mbind option_bind].
  destruct r2 as [[add1 i]|]; [|done]. destruct (H2 add1 i eq_refl) as [Ka1 _].
  destruct (meet_total (S (Z.to_nat (pbNumber rem1))) rem1 add1 d i Kr1 Ka1 ltac:(lia)) as [r3 ->]. by eexists.
Qed.

(** [branch bs anc]: the blocks [bs], each followed by its parent, down to [anc]. *)
Fixpoint branch bs anc : Prop :=
  match bs with [] => known anc | b :: bs' => known b ∧ parentOf b = Some (hd anc bs') ∧ branch bs' anc end.

Lemma branch_number bs anc : branch bs anc → known (hd anc bs) ∧ pbNumber (hd anc bs) = pbNumber anc + Z.of_nat (length bs).
Proof.
  induction bs as [|b bs IH]; cbn [branch hd]; [intros Hk; split; [done|cbn; lia]|]. intros (Hk & Hp & Hb). destruct (IH Hb) as [_ Hn]. destruct (parent_number _ _ Hk Hp) as (_ & _ & ->).
  split; [done|]. rewrite Hn. cbn [length]. lia.
Qed.
Lemma branch_app bs1 bs2 anc : branch (bs1 ++ bs2) anc → branch bs2 anc.
Proof. induction bs1 as [|b bs1 IH]; [done|]. cbn. intros (_ & _ & Hb). by apply IH. Qed.

Lemma descend_branch bs1 : ∀ bs2 anc fuel acc, branch (bs1 ++ bs2) anc → (length bs1 ≤ fuel)%nat →
  descend fuel (hd anc (bs1 ++ bs2)) (pbNumber anc + Z.of_nat (length bs2)) acc = Some (Some (hd anc bs2, acc ++ concat (txsOf <$> bs1))).
Proof.
  induction bs1 as [|b bs1 IH]; intros bs2 anc fuel acc Hb Hf; pose proof (branch_number _ _ Hb) as [_ Hn]; cbn [app hd] in *.
  - destruct fuel; cbn [descend]; rewrite Hn; destruct (Z.ltb_spec (pbNumber anc + Z.of_nat (length bs2)) (pbNumber anc + Z.of_nat (length bs2))); try lia; by rewrite app_nil_r.
  - destruct fuel as [|fuel]; [cbn in Hf; lia|]. cbn [descend]. rewrite Hn. cbn [length] in *. rewrite length_app.
    destruct (Z.ltb_spec (pbNumber anc + Z.of_nat (length bs2)) (pbNumber anc + Z.of_nat (S (length bs1 + length bs2)))); [|lia]. destruct Hb as (_ & Hp & Hb). rewrite Hp.
    rewrite (IH bs2 anc fuel _ Hb) by lia. cbn. by rewrite <-app_assoc.
Qed.

Lemma meet_branch olds : ∀ news anc fuel d i, length olds = length news → branch olds anc → branch news anc → (length olds ≤ fuel)%nat →
  (∀ x y, x ∈ olds → y ∈ news → pbHash x ≠ pbHash y) →
  meet fuel (hd anc olds) (hd anc news) d i = Some (Some (d ++ concat (txsOf <$> olds), i ++ concat (txsOf <$> news))).
Proof.
  induction olds as [|x olds IH]; intros [|y news] anc fuel d i Hl Ho Hn Hf Hd; try done; cbn [hd].
  - destruct fuel; cbn [meet]; rewrite Z.eqb_refl; cbn; by rewrite !app_nil_r.
  - destruct fuel as [|fuel]; [cbn in Hf; lia|]. cbn [meet]. destruct (Z.eqb_spec (pbHash x) (pbHash y)) as [E|_]; [exfalso; apply (Hd x y); [by left|by left|done]|].
    cbn [branch] in Ho, Hn. destruct Ho as (_ & -> & Ho). destruct Hn as (_ & -> & Hn). rewrite (IH news anc fuel); [cbn; by rewrite <-!app_assoc|cbn in *; lia|done|done|cbn in Hf; lia|].
    intros x' y' Hx Hy. apply Hd; by right.
Qed.

(** The transactions that come back after a change of branches are exactly those of the abandoned
    blocks that are in no block of the new branch, from the old head on. *)
Theorem reorg_spec olds news anc oldHead newHead :
  branch olds anc → branch news anc → (∀ x y, x ∈ olds → y ∈ news → pbHash x ≠ pbHash y) →
  getBlock (headHash oldHead) (headNumber oldHead) = Some (hd anc olds) → getBlock (headHash newHead) (headNumber newHead) = Some (hd anc news) →
  headHash oldHead ≠ headParent newHead → Z.abs (Z.of_nat (length olds) - Z.of_nat (length news)) ≤ 64 →
  reorg oldHead newHead = Some (Reinject (PoolTxDifference (concat (txsOf <$> olds)) (concat (txsOf <$> news)))).
Proof.
  intros Ho Hn Hd Eo En Hne Hdepth. destruct (branch_number _ _ Ho) as [Ko No]. destruct (branch_number _ _ Hn) as [Kn Nn].
  destruct (getBlock_key _ _ _ Eo) as (_ & Ho' & _). destruct (getBlock_key _ _ _ En) as (_ & Hn' & _).
  assert (known anc) as Ka by (pose proof (branch_app olds [] anc) as Hx; rewrite app_nil_r in Hx; by apply Hx). pose proof (known_number _ Ka).
  unfold reorg. destruct (Z.eqb_spec (headHash oldHead) (headParent newHead)); [done|]. destruct (Z.ltb_spec 64 (Z.abs (headNumber oldHead - headNumber newHead))); [lia|].
  rewrite Eo, En. cbn [mbind option_bind].
  set (k := (length olds - length news)%nat). set (j := (length news - length olds)%nat).
  assert (length (drop k olds) = length (drop j news)) as Hlen by (rewrite !length_drop; lia).
  rewrite Nn. assert (branch (take k olds ++ drop k olds) anc) as Ho1 by (by rewrite take_drop). assert (branch (take j news ++ drop j news) anc) as Hn1 by (by rewrite take_drop).
  assert (descend (Z.to_nat (pbNumber (hd anc olds))) (hd anc olds) (pbNumber anc + Z.of_nat (length news)) [] = Some (Some (hd anc (drop k olds), concat (txsOf <$> take k olds)))) as ->.
  { destruct (le_lt_dec (length news) (length olds)) as [Hle|Hlt].
    - pose proof (descend_branch (take k olds) (drop k olds) anc (Z.to_nat (pbNumber (hd anc olds))) [] Ho1) as Hx. rewrite take_drop in Hx. cbn [app] in Hx.
      rewrite <-Hx; [|rewrite No, length_take; lia]. f_equal. rewrite length_drop. lia.
    - assert (k = 0%nat) as -> by lia. cbn. destruct (Z.to_nat (pbNumber (hd anc olds))); cbn [descend]; rewrite No;
        (destruct (Z.ltb_spec (pbNumber anc + Z.of_nat (length news)) (pbNumber anc + Z.of_nat (length olds))); [lia|done]). }
  cbn [mbind option_bind]. destruct (branch_number _ _ (branch_app _ _ _ Ho1)) as [_ Nr]. rewrite Nr. clearbody k j.
  assert (descend (Z.to_nat (pbNumber anc + Z.of_nat (length news))) (hd anc news) (pbNumber anc + Z.of_nat (length (drop k olds))) [] = Some (Some (hd anc (drop j news), concat (txsOf <$> take j news)))) as ->.
  { pose proof (descend_branch (take j news) (drop j news) anc (Z.to_nat (pbNumber anc + Z.of_nat (length news))) [] Hn1) as Hx. rewrite take_drop in Hx. cbn [app] in Hx. rewrite Hlen.
    apply Hx. rewrite length_take. lia. }
  cbn [mbind option_bind]. rewrite (meet_branch (drop k olds) (drop j news) anc _ _ _ Hlen); [|by eapply branch_app|by eapply branch_app|lia|].
  - cbn [mbind option_bind]. by rewrite <-!concat_app, <-!fmap_app, !take_drop.
  - intros x y Hx Hy. apply Hd; [rewrite <-(take_drop k olds); apply elem_of_app; by right|rewrite <-(take_drop j news); apply elem_of_app; by right].
Qed.

(** Every transaction that comes back was in a block. *)
Lemma descend_from (P : PoolTransaction → Prop) fuel : ∀ b target acc b' acc', known b → (∀ b, known b → Forall P (txsOf b)) → Forall P acc →
  descend fuel b target acc = Some (Some (b', acc')) → known b' ∧ Forall P acc'.
Proof.
  induction fuel as [|fuel IH]; intros b target acc b' acc' Hk HP Ha; cbn [descend]; case_match; try done; try (by intros [= <- <-]).
  destruct (parentOf b) as [b1|] eqn:Hp; [|done]. destruct (parent_number _ _ Hk Hp) as [Hk1 _]. apply IH; [done|done|]. apply Forall_app. split; [done|by apply HP].
Qed.
Lemma meet_from (P : PoolTransaction → Prop) fuel : ∀ rem add d i d' i', known rem → known add → (∀ b, known b → Forall P (txsOf b)) → Forall P d →
  meet fuel rem add d i = Some (Some (d', i')) → Forall P d'.
Proof.
  induction fuel as [|fuel IH]; intros rem add d i d' i' Hr Ha HP Hd; cbn [meet]; case_match; try done; try (by intros [= <- <-]).
  destruct (parentOf rem) as [rem'|] eqn:Er; [|done]. destruct (parentOf add) as [add'|] eqn:Ea; [|done]. destruct (parent_number _ _ Hr Er) as [Hr' _]. destruct (parent_number _ _ Ha Ea) as [Ha' _].
  apply IH; try done. apply Forall_app. split; [done|by apply HP].
Qed.

Lemma reorg_from (P : PoolTransaction → Prop) oldHead newHead txs : (∀ b, known b → Forall P (txsOf b)) → reorg oldHead newHead = Some (Reinject txs) → Forall P txs.
Proof.
  intros HP. unfold reorg. case_match; [by intros [= <-]|]. case_match; [by intros [= <-]|].
  destruct (getBlock (headHash oldHead) _) as [rem|] eqn:Hr; [|done]. destruct (getBlock (headHash newHead) _) as [add|] eqn:Ha; [|done]. cbn [mbind option_bind].
  assert (known rem) as Kr by (by eexists _, _). assert (known add) as Ka by (by eexists _, _).
  destruct (descend _ rem _ _) as [[[rem1 d]|]|] eqn:E1; cbn [mbind option_bind]; [|done|done]. destruct (descend_from P _ _ _ _ _ _ Kr HP (Forall_nil_2 _) E1) as [Kr1 Hd].
  destruct (descend _ add _ _) as [[[add1 i]|]|] eqn:E2; cbn [mbind option_bind]; [|done|done]. destruct (descend_from P _ _ _ _ _ _ Ka HP (Forall_nil_2 _) E2) as [Ka1 _].
  destruct (meet _ _ _ _ _) as [[[d' i']|]|] eqn:E3; cbn [mbind option_bind]; [|done|done]. intros [= <-]. pose proof (meet_from P _ _ _ _ _ _ _ Kr1 Ka1 HP Hd E3) as Hd'.
  rewrite Forall_forall in *. intros t [_ Ht]%list_elem_of_filter. by apply Hd'.
Qed.

(** ** [reset] *)
Section resetting.
Context (config : TxPoolConfig) (order : gmap Z PoolTransaction → list (Z * PoolTransaction)) (range : txLookup → list PoolTransaction)
  (accountsOf : gmap Address txList → list Address) (dirtyOrder : gset Address → list Address) (popOrder byHeartbeat : list (Address * Z) → list Address)
  (validateStakingTx : ChainState → PoolTransaction → option Z) (blockShard : Z) (homestead istanbul : bool).

(** [st] is the state of the new head, [None] when it cannot be opened. *)
Definition resetHeads (now : Z) (p : TxPool) (oldHead : option Head) (newHead : Head) (st : option ChainState) (maxGas : Z) : option TxPool :=
  r ← (match oldHead with None => Some (Reinject []) | Some oldHead => reorg oldHead newHead end);
  match r, st with
  | Reinject txs, Some st =>
      TxPool.reset config order range accountsOf dirtyOrder popOrder byHeartbeat validateStakingTx blockShard homestead istanbul now p st maxGas (headNumber newHead) txs
  | _, _ => Some p
  end.

(** A new head leaves a consistent pool, whatever branch it is on, when the blocks of both heads
    are stored and their transactions have receivers. *)
Theorem resetHeads_consistent now p oldHead newHead st maxGas :
  (∀ its, order its ≡ₚ map_to_list its) → (∀ all, range all ≡ₚ (map_to_list all).*2) → (∀ m, accountsOf m ≡ₚ (map_to_list m).*1) →
  (∀ l, ∃ l', l' ≡ₚ l ∧ popOrder l = l'.*1 ∧ StronglySorted (λ x y, y.2 ≤ x.2) l') → (∀ l, byHeartbeat l ≡ₚ l.*1) → 0 ≤ AccountSlots config →
  inv p [] [] → (∀ b, known b → Forall admissible (txsOf b)) → is_Some (getBlock (headHash newHead) (headNumber newHead)) →
  (∀ o, oldHead = Some o → is_Some (getBlock (headHash o) (headNumber o))) →
  ∃ p', resetHeads now p oldHead newHead st maxGas = Some p' ∧ inv p' [] [].
Proof.
  intros H1 H2 H3 H4 H5 H6 Hi Hb Hn Ho. unfold resetHeads.
  assert (∃ r, match oldHead with None => Some (Reinject []) | Some oldHead => reorg oldHead newHead end = Some r ∧ ∀ txs, r = Reinject txs → Forall admissible txs) as (r & -> & Hr).
  { destruct oldHead as [o|]; [|eexists; split; [done|]; by intros txs [= <-]]. destruct (reorg_total o newHead (Ho o eq_refl) Hn) as [r Er]. exists r. split; [done|]. intros txs ->. by eapply reorg_from. }
  cbn [mbind option_bind]. destruct r as [|txs]; [by exists p|]. destruct st as [st|]; [|by exists p]. apply reset_inv; try done. by apply Hr.
Qed.
End resetting.
End reorg.

(** ** Instance: two branches over a common block *)
Definition demoBlock (n : Z) : option PoolBlock :=
  if n =? 10 then Some (mkPoolBlock 10 9 0 [] [])
  else if n =? 11 then Some (mkPoolBlock 11 10 1 [demoTx 0 5 10 1; demoTx 0 5 10 2] [])
  else if n =? 21 then Some (mkPoolBlock 21 10 1 [demoTx 0 5 10 1] [])
  else if n =? 22 then Some (mkPoolBlock 22 21 2 [] [])
  else None.
Definition demoGetBlock (h n : Z) : option PoolBlock := b ← demoBlock h; if pbNumber b =? n then Some b else None.

(** The transaction of the account 2 is only in the abandoned block. *)
Example demoReorg : reorg demoGetBlock (mkHead 11 10 1) (mkHead 22 21 2) = Some (Reinject [demoTx 0 5 10 2]).
Proof. reflexivity. Qed.

(** The hypotheses on the chain hold for it, so that the transaction comes back by [reorg_spec] too. *)
Example demoReorg_spec : reorg demoGetBlock (mkHead 11 10 1) (mkHead 22 21 2) =
  Some (Reinject (PoolTxDifference [demoTx 0 5 10 1; demoTx 0 5 10 2] [demoTx 0 5 10 1])).
Proof.
  assert (∀ h n b, demoGetBlock h n = Some b → pbHash b = h ∧ pbNumber b = n ∧ isU64 n) as Hkey.
  { intros h n b. unfold demoGetBlock, demoBlock.
    repeat (case_match; cbn [mbind option_bind pbNumber]; [case_match; [|discriminate]; intros [= <-]; cbn [pbHash pbNumber] in *; unfold isU64; repeat split; lia|]). discriminate. }
  apply (reorg_spec demoGetBlock) with (olds := [mkPoolBlock 11 10 1 [demoTx 0 5 10 1; demoTx 0 5 10 2] []])
    (news := [mkPoolBlock 22 21 2 [] []; mkPoolBlock 21 10 1 [demoTx 0 5 10 1] []]) (anc := mkPoolBlock 10 9 0 [] []); try done.
  - intros h n b. unfold demoGetBlock, demoBlock. repeat (case_match; cbn [mbind option_bind pbNumber]; [case_match; [|discriminate]; intros [= <-] E; first [reflexivity|discriminate E]|]). discriminate.
  - repeat split; first [by exists 11, 1|by exists 10, 0].
  - repeat split; first [by exists 22, 2|by exists 21, 1|by exists 10, 0].
  - intros x y ->%list_elem_of_singleton Hy. rewrite elem_of_cons, list_elem_of_singleton in Hy. by destruct Hy as [->| ->].
Qed.
