(* ===== verification/StakingTransition.v ===== *)
(** * Staking transactions on the account state (core/state_transition.go)

    The composition of the staking messages ([StakingVerifier.v]) with the state database
    ([StateDB.v]) and the gas accounting ([StateTransition.v]): a validator's record is the code
    of its account, written through [UpdateValidatorWrapper], and stakes are taken from and
    rewards paid to balances with the setters that a frozen account ignores.  RLP of the records
    and of the messages is the interface [WrapperCodec] and [StakeCodec].  The verifiers only
    read the state; the objects that a read leaves in the cache do not change what the database
    denotes ([getters_read] in [Accounts.v]), so the transaction goes on from the state before
    the reads. *)

From Stdlib Require Import ZArith Lia Ascii String.
From stdpp Require Import base gmap list option sorting.
From S2P Require Import Prelude Decimal ShardState Effective Staking StakingVerifier Trie Journal StateDB Accounts StateCommit StateTransition.
Local Open Scope Z_scope.

(** ** Records as code *)
Class WrapperCodec := {
  encodeRecord : Wrapper → option bytes;
  decodeRecord : bytes → option Wrapper;
}.
Class WrapperCodecLaws `{WC : WrapperCodec} := {
  decode_encode : ∀ w b, encodeRecord w = Some b → decodeRecord b = Some w ∧ b ≠ [];
}.

#[export] Instance stakingStore `{WC : WrapperCodec} : ValidatorStore := {|
  ValidatorWrapper := Wrapper;
  SanityCheck w := match wrapperSanityCheck w with None => true | Some _ => false end;
  encodeWrapper := encodeRecord;
  decodeWrapper := decodeRecord;
|}.

(** [crypto.Keccak256Hash] of a text (staking/params.go). *)
Definition textBytes (t : text) : bytes := (λ c, Z.of_N (N_of_ascii c)) <$> t.

Inductive stakeTxError :=
| errVerify (e : verifyError) | errUpdate (e : validatorError) | errReadDelegations | errNoChainContext
| errTx (e : txError) | errDecodeStake | errInvalidSigner | ErrInvalidStakingKind.

Class StakeCodec := {
  decodeCreate : bytes → option CreateValidator;
  decodeEdit : bytes → option EditValidator;
  decodeDelegate : bytes → option DelegateMsg;
  decodeUndelegate : bytes → option UndelegateMsg;
  (** [CollectRewards] carries the delegator only. *)
  decodeCollect : bytes → option Address;
}.

Inductive stakeKind := StakeCreateVal | StakeEditVal | StakeDelegate | StakeUndelegate | StakeCollect | StakeOther.

(** What the chain adds to the interface of the verifiers. *)
Record StakeChain := mkStakeChain {
  scContext : ChainContext;
  scForks : DelegationForks;
  ReadDelegationsByDelegator : Address → option (list DelegationIndex);
}.

Section staking.
Context `{TB : TrieBackend} `{AC : AccountCodec} `{WC : WrapperCodec} `{BL : BLSLib} `{SC : Schedule} `{KC : StakeCodec}.
Implicit Types (s : DB).

Definition IsValidatorKey : Hash := Keccak256Hash (textBytes (asText "Harmony/IsValidator/Key/v1")).
Definition IsValidatorValue : Hash := Keccak256Hash (textBytes (asText "Harmony/IsValidator/Value/v1")).
Definition CollectRewardsTopic : Hash := Keccak256Hash (textBytes (asText "Harmony/CollectRewards")).
Definition DelegateTopic : Hash := Keccak256Hash (textBytes (asText "Harmony/Delegate")).
Definition FirstElectionEpochKey : Hash := Keccak256Hash (textBytes (asText "Harmony/FirstElectionEpoch/Key/v1")).

Definition isValidator s (addr : Address) : bool * DB :=
  let '(value, s1) := GetState s addr IsValidatorKey in (negb (value =? 0), s1).
Definition SetValidatorFlag s (addr : Address) : DB := SetState s addr IsValidatorKey IsValidatorValue.
Definition UnsetValidatorFlag s (addr : Address) : DB := SetState s addr IsValidatorKey 0.
(** [None] is the panic: the object is used without a test for nil. *)
Definition getValidatorFirstElectionEpoch s (addr : Address) : option (Z * DB) :=
  if (Exist s addr).1 then Some (GetState s addr FirstElectionEpochKey) else None.
Definition setValidatorFirstElectionEpoch s (addr : Address) (epoch : Z) : option DB :=
  '(firstEpoch, s1) ← getValidatorFirstElectionEpoch s addr;
  Some (if u64 firstEpoch =? 0 then SetState s1 addr FirstElectionEpochKey (epoch mod 2 ^ 256) else s1).

Definition recordAt s (a : Address) : option Wrapper :=
  match (StateDB.ValidatorWrapperCopy s a).1 with inr w => Some w | inl _ => None end.

(** The database as the verifiers see it.  They ask for the first election of an address whose
    record they have read, so the object is there. *)
Definition dbReader s : StateReader :=
  mkStateReader (λ a, (isValidator s a).1) (recordAt s) (λ a, (StateDB.GetBalance s a).1) (λ a, default 0 (fst <$> getValidatorFirstElectionEpoch s a)).

Definition liftVerify {A} (m : result verifyError A) : result stakeTxError A :=
  match m with Ok a => Ok a | Err e => Err (errVerify e) | Panic => Panic end.

Definition updateWrapper s (w : Wrapper) : result stakeTxError DB :=
  match UpdateValidatorWrapper s (addrOf w) w with (None, s1) => Ok s1 | (Some e, _) => Err (errUpdate e) end.
Fixpoint updateWrappers s (ws : list Wrapper) : result stakeTxError DB :=
  match ws with [] => Ok s | w :: rest => s1 ← updateWrapper s w; updateWrappers s1 rest end.

(** The fields of a log that [AddLog] does not write. *)
Definition stakeLog (addr : Address) (topic : Hash) (dat : bytes) (blockNumber : Z) : Log :=
  mkLog 0 0 0 0 (addressBytes addr ++ toBytes 32 topic ++ dat ++ toBytes 8 blockNumber).

(** [big.Int.Bytes]: big endian, without leading zeros. *)
Definition bigBytes (z : Z) : bytes := if z =? 0 then [] else toBytes (Z.to_nat ((Z.log2 (Z.abs z) + 8) / 8)) (Z.abs z).

Definition verifyAndApplyCreateValidatorTx (bc : StakeChain) (epoch blockNum : Z) s (msg : CreateValidator)
    : result stakeTxError DB :=
  wrapper ← liftVerify (VerifyAndCreateValidatorFromMsg (Some (dbReader s)) (Some (scContext bc)) (Some epoch) (Some blockNum) msg);
  s1 ← updateWrapper s wrapper;
  Ok (SubBalance (SetValidatorFlag s1 (cvAddress msg)) (cvAddress msg) (cvAmount msg)).

Definition verifyAndApplyEditValidatorTx (bc : StakeChain) (epoch blockNum : Z) s (msg : EditValidator)
    : result stakeTxError DB :=
  wrapper ← liftVerify (VerifyAndEditValidatorFromMsg (Some (dbReader s)) (Some (scContext bc)) epoch (Some blockNum) msg);
  updateWrapper s wrapper.

Definition addrLe (x y : Address * Z) : bool := x.1 <? y.1.
Definition redelegationLogs (delegator : Address) (blockNumber : Z) (locked : gmap Address Z) s : DB :=
  foldl (λ s kv, AddLog s (stakeLog delegator DelegateTopic (addressBytes kv.1 ++ bigBytes kv.2) blockNumber)) s
    (SliceStable addrLe (map_to_list locked)).

Definition verifyAndApplyDelegateTx (bc : StakeChain) (epoch blockNumber : Z) s (msg : DelegateMsg) : result stakeTxError DB :=
  match ReadDelegationsByDelegator bc (dmDelegator msg) with
  | None => Err errReadDelegations
  | Some delegations =>
      '(updated, balanceToBeDeducted, fromLockedTokens) ←
        liftVerify (VerifyAndDelegateFromMsg (Some (dbReader s)) epoch msg delegations (scForks bc));
      s1 ← updateWrappers s updated;
      Ok (redelegationLogs (dmDelegator msg) blockNumber fromLockedTokens (SubBalance s1 (dmDelegator msg) balanceToBeDeducted))
  end.

Definition verifyAndApplyUndelegateTx (epoch : Z) s (msg : UndelegateMsg) : result stakeTxError DB :=
  wrapper ← liftVerify (VerifyAndUndelegateFromMsg (Some (dbReader s)) (Some epoch) msg);
  updateWrapper s wrapper.

Definition verifyAndApplyCollectRewards (bc : option StakeChain) (blockNumber : Z) s (delegator : Address) : result stakeTxError DB :=
  match bc with
  | None => Err errNoChainContext
  | Some bc =>
      match ReadDelegationsByDelegator bc delegator with
      | None => Err errReadDelegations
      | Some delegations =>
          '(updated, totalRewards) ← liftVerify (VerifyAndCollectRewardsFromDelegation (Some (dbReader s)) delegations);
          s1 ← updateWrappers s updated;
          Ok (AddLog (AddBalance s1 delegator totalRewards) (stakeLog delegator CollectRewardsTopic (bigBytes totalRewards) blockNumber))
      end
  end.

(** The message of a kind, decoded, with the address that has to have signed it, and its
    application. *)
Definition applyStake (bc : StakeChain) (kind : stakeKind) (from : Address) (epoch blockNumber msgBlockNum : Z) (dat : bytes) s
    : result stakeTxError (result stakeTxError DB) :=
  let signed (signer : Address) (r : result stakeTxError DB) : result stakeTxError (result stakeTxError DB) :=
    if from =? signer then Ok r else Err errInvalidSigner in
  match kind with
  | StakeCreateVal =>
      match decodeCreate dat with None => Err errDecodeStake | Some m => signed (cvAddress m) (verifyAndApplyCreateValidatorTx bc epoch msgBlockNum s m) end
  | StakeEditVal =>
      match decodeEdit dat with None => Err errDecodeStake | Some m => signed (evAddress m) (verifyAndApplyEditValidatorTx bc epoch msgBlockNum s m) end
  | StakeDelegate =>
      match decodeDelegate dat with None => Err errDecodeStake | Some m => signed (dmDelegator m) (verifyAndApplyDelegateTx bc epoch blockNumber s m) end
  | StakeUndelegate =>
      match decodeUndelegate dat with None => Err errDecodeStake | Some m => signed (umDelegator m) (verifyAndApplyUndelegateTx epoch s m) end
  | StakeCollect =>
      match decodeCollect dat with None => Err errDecodeStake | Some m => signed m (verifyAndApplyCollectRewards (Some bc) blockNumber s m) end
  | StakeOther => Err ErrInvalidStakingKind
  end.

(** [StakingTransitionDb] up to its success: an error of the message itself comes after the
    refund, the others before; the caller discards the state after an error. *)
Definition StakingTransitionDb (bc : StakeChain) (kind : stakeKind) (homestead istanbul : bool) (epoch blockNumber msgBlockNum : Z)
    (st : StateTransition) (msg : Message) : result stakeTxError (StateTransition * Z) :=
  match preCheck st msg with
  | (_, Some e) => Err (errTx e)
  | (st1, None) =>
      match IntrinsicGas (mData msg) false homestead istanbul (match kind with StakeCreateVal => true | _ => false end) with
      | None => Err (errTx ErrOutOfGas)
      | Some g =>
          match useGas st1 g with
          | None => Err (errTx ErrOutOfGas)
          | Some st2 =>
              let st3 := setState st2 (bumpNonce (state st2) (mFrom msg)) in
              r ← applyStake bc kind (mFrom msg) epoch blockNumber msgBlockNum (mData msg) (state st3);
              s' ← r;
              st4 ← lift_panic (refundGas (setState st3 s') msg);
              Ok (st4, gasUsed st4)
          end
      end
  end.
End staking.

(** * Properties *)

(** ** Records in the abstract state *)
Definition codeOf (w : world) (a : Address) : option bytes := live w a ≫= aCode.
Definition asRecord `{WC : WrapperCodec} (c : option bytes) : option Wrapper :=
  match c with None | Some [] => None | Some b => decodeRecord b end.

Lemma codeOf_proper w1 w2 a : w1 ≡ w2 → codeOf w1 a = codeOf w2 a.
Proof.
  intros Hw. unfold codeOf. destruct (live_proper w1 w2 Hw a a eq_refl) as [x y Hxy|]; [|done]. simpl. apply Hxy.
Qed.

(** A write that keeps the balance, or the code, of the account it changes. *)
Lemma write_reads w a f b :
  (∀ x, aFrozen (f x) = aFrozen x ∧ aDeleted (f x) = aDeleted x) →
  frozenAt (write w a f) b = frozenAt w b
  ∧ ((∀ x, aBalance (f x) = aBalance x) → balanceOf (write w a f) b = balanceOf w b)
  ∧ ((∀ x, aCode (f x) = aCode x) → codeOf (write w a f) b = codeOf w b)
  ∧ (a ≠ b → live (write w a f) b = live w b)
  ∧ (∀ c, (∀ x, aCode (f x) = Some c) → codeOf (write w a f) a = if frozenAt w a then codeOf w a else Some c).
Proof.
  intros Hf. unfold write, balanceOf, frozenAt, codeOf, orBlank. destruct (live w a) as [x|] eqn:E; simpl.
  - pose proof (live_deleted _ _ _ E) as Hd. destruct (Hf x) as [Hfr Hdl].
    destruct (aFrozen x) eqn:Hz; rewrite !live_put by (by rewrite ?Hdl);
      (split_and!; intros; try rewrite (decide_True _ _ (eq_refl a)); try case_decide; subst; rewrite ?E; simpl; rewrite ?Hz, ?Hfr; auto; congruence).
  - destruct (Hf blank) as [Hfr Hdl]. cbn in Hfr, Hdl. rewrite !live_put by done.
    split_and!; intros; try rewrite (decide_True _ _ (eq_refl a)); try case_decide; subst; rewrite ?E; simpl; rewrite ?Hfr; auto;
      exfalso; auto.
Qed.

Section records.
Context `{TB : TrieBackend} `{AC : AccountCodec} `{WC : WrapperCodec}.
Implicit Types (s : DB).

Lemma recordAt_abs s a : recordAt s a = asRecord (codeOf (abs s) a).
Proof.
  unfold recordAt, StateDB.ValidatorWrapperCopy, asRecord, codeOf. destruct (getters_read s a 0) as (_ & _ & _ & _ & Hc & _).
  destruct (GetCode s a) as [c s1]. change (c = (live (abs s) a ≫= aCode)) in Hc. rewrite Hc. destruct (live (abs s) a ≫= aCode) as [[|y c']|]; [reflexivity| |reflexivity].
  cbn. by destruct (decodeRecord (y :: c')).
Qed.

(** What an operation of the database that changes no record and no freeze flag leaves. *)
Record keepsRecords s s' : Prop := {
  kr_inv : sdInv s';
  kr_db : db s' = db s;
  kr_frozen : ∀ b, frozenAt (abs s') b = frozenAt (abs s) b;
  kr_code : ∀ b, codeOf (abs s') b = codeOf (abs s) b;
}.

Lemma keeps_trans s1 s2 s3 : keepsRecords s1 s2 → keepsRecords s2 s3 → keepsRecords s1 s3.
Proof. intros [? D1 F1 C1] [? D2 F2 C2]. split; [done|congruence|intros; by rewrite F2, F1|intros; by rewrite C2, C1]. Qed.

(** One operation, through the specification. *)
Lemma op_abs s op s' :
  sdInv s → emptyRootReads (db s) → op ≠ OpSnapshot → (∀ r, op ≠ OpRevertToSnapshot r) → sdStep s op = Some s' →
  ∃ w', specOp (abs s) op = Some w' ∧ abs s' ≡ w' ∧ sdInv s' ∧ db s' = db s.
Proof.
  intros HI Hd Hs Hr E. pose proof (specOp_abs s (abs s) op HI Hd (reflexivity _) Hs Hr) as Ho. rewrite E in Ho.
  destruct (option_Forall2_from_Some _ _ _ Ho) as (w' & Hw & He & Hdb). destruct (sdStep_stepped s op s' HI Hs Hr E) as [es Hst].
  exists w'. split_and!; [done|done|apply Hst|done].
Qed.

Lemma write_keeps s op s' a f :
  sdInv s → emptyRootReads (db s) → op ≠ OpSnapshot → (∀ r, op ≠ OpRevertToSnapshot r) → sdStep s op = Some s' →
  specOp (abs s) op = Some (write (abs s) a f) →
  (∀ x, aFrozen (f x) = aFrozen x ∧ aDeleted (f x) = aDeleted x) → (∀ x, aCode (f x) = aCode x) → keepsRecords s s'.
Proof.
  intros HI Hd Hs Hr E Hop Hf Hc. destruct (op_abs s op s' HI Hd Hs Hr E) as (w' & Hw & He & HI' & Hdb).
  rewrite Hop in Hw. injection Hw as <-. split; [done|done| |]; intros b; destruct (write_reads (abs s) a f b Hf) as (H1 & _ & H3 & _).
  - destruct (balanceOf_proper _ _ b He) as [_ ->]. done.
  - rewrite (codeOf_proper _ _ b He). by apply H3.
Qed.

Lemma SubBalance_keeps s a k : sdInv s → emptyRootReads (db s) → keepsRecords s (SubBalance s a k).
Proof. intros HI Hd. by apply (write_keeps s (OpSubBalance a k) _ a (λ y, setBal (aBalance y - k) y)). Qed.

Lemma AddBalance_keeps s a k : sdInv s → emptyRootReads (db s) → keepsRecords s (AddBalance s a k).
Proof. intros HI Hd. by apply (write_keeps s (OpAddBalance a k) _ a (λ y, setBal (aBalance y + k) y)). Qed.

Lemma SetState_keeps s a k v : sdInv s → emptyRootReads (db s) → keepsRecords s (SetState s a k v).
Proof. intros HI Hd. by apply (write_keeps s (OpSetState a k v) _ a (setSto k v)). Qed.

Lemma AddLog_keeps s l : sdInv s → emptyRootReads (db s) →
  keepsRecords s (AddLog s l) ∧ ∀ b, balanceOf (abs (AddLog s l)) b = balanceOf (abs s) b.
Proof.
  intros HI Hd. destruct (op_abs s (OpAddLog l) _ HI Hd ltac:(done) ltac:(done) eq_refl) as (w' & Hw & He & HI' & Hdb).
  cbn [specOp] in Hw. destruct (wTx (abs s)) as [[th bh] ti]. injection Hw as <-.
  split; [split; [done|done| |]|]; intros b; try destruct (balanceOf_proper _ _ b He) as [-> ->]; try rewrite (codeOf_proper _ _ b He); done.
Qed.
End records.

(** ** Writing records *)
Section writing.
Context `{TB : TrieBackend} `{AC : AccountCodec} `{WC : WrapperCodec} {WL : WrapperCodecLaws}.
Implicit Types (s : DB).

(** The records [ws] written over [s]: an account that is frozen keeps the record it had. *)
Record wrote s (ws : list Wrapper) s' : Prop := {
  wr_inv : sdInv s';
  wr_db : db s' = db s;
  wr_balance : ∀ b, balanceOf (abs s') b = balanceOf (abs s) b;
  wr_frozen : ∀ b, frozenAt (abs s') b = frozenAt (abs s) b;
  wr_new : ∀ w, w ∈ ws → recordAt s' (addrOf w) = if frozenAt (abs s) (addrOf w) then recordAt s (addrOf w) else Some w;
  wr_old : ∀ b, b ∉ addrOf <$> ws → recordAt s' b = recordAt s b;
}.

Lemma updateWrapper_wrote s w s' : sdInv s → emptyRootReads (db s) → updateWrapper s w = Ok s' → wrote s [w] s'.
Proof.
  intros HI Hd E. destruct (UpdateValidatorWrapper_inv s (addrOf w) (w : @ValidatorWrapper stakingStore) HI) as (HI' & Hdb & _). revert E HI' Hdb.
  unfold updateWrapper, UpdateValidatorWrapper. cbn [SanityCheck encodeWrapper stakingStore]. destruct (negb _); [done|]. destruct (encodeRecord w) as [c|] eqn:Ec; [|done].
  cbn. intros [= <-] HI' Hdb. destruct (decode_encode w c Ec) as [Hdec Hne].
  destruct (op_abs s (OpSetCode (addrOf w) c) _ HI Hd ltac:(done) ltac:(done) eq_refl) as (w' & [= <-] & He & _ & _).
  set (s1 := SetCode s (addrOf w) c) in *. set (s2 := setValidators s1 _) in *.
  assert (abs s2 = abs s1) as Hs2 by done.
  assert (∀ b, let f := setCod (Keccak256Hash c) c in frozenAt (abs s2) b = frozenAt (abs s) b ∧ balanceOf (abs s2) b = balanceOf (abs s) b
    ∧ codeOf (abs s2) b = codeOf (write (abs s) (addrOf w) f) b) as Hb.
  { intros b f. rewrite Hs2. destruct (balanceOf_proper _ _ b He) as [-> ->]. rewrite (codeOf_proper _ _ b He).
    destruct (write_reads (abs s) (addrOf w) f b) as (H1 & H2 & _); [done|]. split_and!; [exact H1|by apply H2|done]. }
  split; [done|done|intros b; apply Hb|intros b; apply Hb| |].
  - intros v ->%list_elem_of_singleton. rewrite !recordAt_abs. destruct (Hb (addrOf w)) as (_ & _ & ->).
    destruct (write_reads (abs s) (addrOf w) (setCod (Keccak256Hash c) c) (addrOf w)) as (_ & _ & _ & _ & Hw); [done|].
    rewrite (Hw c) by done.
    destruct (frozenAt _ _); [done|]. cbn. destruct c; [done|exact Hdec].
  - intros b Hn. rewrite !recordAt_abs. destruct (Hb b) as (_ & _ & ->). f_equal. unfold codeOf.
    destruct (write_reads (abs s) (addrOf w) (setCod (Keccak256Hash c) c) b) as (_ & _ & _ & Hw & _); [done|].
    rewrite Hw; [done|]. intros Hb'. apply Hn. rewrite <-Hb'. by left.
Qed.

Lemma wrote_nil s : sdInv s → wrote s [] s.
Proof. intros HI. split; try done. by intros w Hw%not_elem_of_nil. Qed.

Lemma wrote_app s s1 s2 ws1 ws2 :
  NoDup (addrOf <$> ws1 ++ ws2) → wrote s ws1 s1 → wrote s1 ws2 s2 → wrote s (ws1 ++ ws2) s2.
Proof.
  intros Hnd [_ D1 B1 F1 N1 O1] [I2 D2 B2 F2 N2 O2]. rewrite fmap_app in Hnd. apply NoDup_app in Hnd as (_ & Hd & _).
  split; [done|congruence|intros; by rewrite B2, B1|intros; by rewrite F2, F1| |].
  - intros w [Hw|Hw]%elem_of_app.
    + rewrite O2 by (by apply Hd, list_elem_of_fmap_2). by apply N1.
    + rewrite N2, F1 by done. destruct (frozenAt _ _); [|done]. apply O1. intros Hin. by eapply Hd, list_elem_of_fmap_2.
  - intros b Hb. rewrite fmap_app, elem_of_app in Hb. rewrite O2, O1 by tauto. done.
Qed.

Lemma updateWrappers_wrote ws s s' :
  sdInv s → emptyRootReads (db s) → NoDup (addrOf <$> ws) → updateWrappers s ws = Ok s' → wrote s ws s'.
Proof.
  revert s. induction ws as [|w ws IH]; intros s HI Hd Hnd E; cbn [updateWrappers] in E.
  { injection E as <-. by apply wrote_nil. }
  apply result_bind_Ok in E as (s1 & E1 & E). pose proof (updateWrapper_wrote _ _ _ HI Hd E1) as Hw.
  apply (wrote_app s s1 s' [w] ws Hnd Hw). apply IH; [apply Hw|by rewrite (wr_db _ _ _ Hw)|by apply NoDup_cons in Hnd as []|done].
Qed.

(** The operations after the records keep them. *)
Lemma wrote_keeps s ws s1 s2 :
  wrote s ws s1 → keepsRecords s1 s2 →
  (∀ b, frozenAt (abs s2) b = frozenAt (abs s) b)
  ∧ (∀ w, w ∈ ws → recordAt s2 (addrOf w) = if frozenAt (abs s) (addrOf w) then recordAt s (addrOf w) else Some w)
  ∧ (∀ b, b ∉ addrOf <$> ws → recordAt s2 b = recordAt s b).
Proof.
  intros [_ _ _ F N O] [_ _ F2 C2]. assert (∀ b, recordAt s2 b = recordAt s1 b) as Hr by (intros; by rewrite !recordAt_abs, C2).
  split_and!; intros; [by rewrite F2, F|rewrite Hr; auto|rewrite Hr; auto].
Qed.

(** The stake and the rewards recorded under an address. *)
Definition stakeAt s (a : Address) : Z := default 0 (wrapperStake <$> recordAt s a).
Definition rewardAt s (a : Address) : Z := default 0 (wrapperReward <$> recordAt s a).

(** The sum of a field of the records, over the records that were written. *)
Lemma wrote_sum (f : Wrapper → Z) s ws s2 olds :
  (∀ w, w ∈ ws → recordAt s2 (addrOf w) = if frozenAt (abs s) (addrOf w) then recordAt s (addrOf w) else Some w) →
  (∀ w, w ∈ ws → frozenAt (abs s) (addrOf w) = false) →
  Forall2 (λ old w, recordAt s (addrOf w) = Some old) olds ws →
  sumZ (λ a, default 0 (f <$> recordAt s2 a)) (addrOf <$> ws) = sumZ f ws
  ∧ sumZ (λ a, default 0 (f <$> recordAt s a)) (addrOf <$> ws) = sumZ f olds.
Proof.
  intros Hn Hf Ho. revert Hn Hf. induction Ho as [|old w olds ws Hw Ho IH]; intros Hn Hf; [done|].
  rewrite fmap_cons, !sumZ_cons, Hw, (Hn w), (Hf w) by set_solver.
  destruct IH as [-> ->]; [intros; apply Hn; set_solver|intros; apply Hf; set_solver|]. done.
Qed.

Lemma redelegationLogs_keeps s a n locked :
  sdInv s → emptyRootReads (db s) →
  keepsRecords s (redelegationLogs a n locked s) ∧ ∀ b, balanceOf (abs (redelegationLogs a n locked s)) b = balanceOf (abs s) b.
Proof.
  unfold redelegationLogs. generalize (SliceStable addrLe (map_to_list locked)) as l. intros l. revert s.
  induction l as [|kv l IH]; intros s HI Hd; simpl; [done|].
  destruct (AddLog_keeps s (stakeLog a DelegateTopic (addressBytes kv.1 ++ bigBytes kv.2) n) HI Hd) as [Hk Hb].
  destruct (IH _ (kr_inv _ _ Hk)) as [Hk' Hb']; [by rewrite (kr_db _ _ Hk)|]. split; [by eapply keeps_trans|]. intros b. by rewrite Hb', Hb.
Qed.
End writing.

(** ** Tokens through staking transactions *)
Section tokens.
Context `{TB : TrieBackend} `{AC : AccountCodec} `{WC : WrapperCodec} `{BL : BLSLib} `{SC : Schedule} {WL : WrapperCodecLaws}.
Implicit Types (s : DB).

Lemma liftVerify_Ok {A} (m : result verifyError A) a : liftVerify m = Ok a → m = Ok a.
Proof. by destruct m as [x| |]; intros [= ->]. Qed.

(** The records that a collection writes: the same address and stake as before. *)
Lemma collected_records s dis olds ws :
  (∀ a w, recordAt s a = Some w → addrOf w = a ∧ ∀ d, d ∈ Delegations w → 0 ≤ dReward d) →
  Forall2 (λ di old, recordAt s (diValidator di) = Some old) dis olds →
  Forall2 (λ old w, ∃ i d, Delegations old !! i = Some d ∧ w = setDelegation old i (withReward d 0)) olds ws →
  Forall2 (λ old w, recordAt s (addrOf w) = Some old ∧ wrapperStake w = wrapperStake old) olds ws ∧ addrOf <$> ws = diValidator <$> dis.
Proof.
  intros Hst Hrd. revert ws. induction Hrd as [|di old dis olds Hr _ IH]; intros ws Hset;
    inversion Hset as [|? w ? ws' Hw Hset']; subst; [done|].
  destruct (IH _ Hset') as [H1 H2]. destruct Hw as (i & d & Hi & ->). destruct (Hst _ _ Hr) as [Ha _].
  assert (addrOf (setDelegation old i (withReward d 0)) = diValidator di) as Ha' by exact Ha.
  rewrite fmap_cons, H2, Ha'. split; [|done]. constructor; [|done]. rewrite Ha'. split; [exact Hr|].
  rewrite (setDelegation_stake _ _ _ _ Hi). unfold stakeOf. cbn [withReward dAmount Undelegations]. lia.
Qed.

(** Collecting rewards on the state of the chain.  The records of the listed validators lose
    their rewards for the delegator and nothing of their stake, no other record and no other
    balance changes, and what they lose is what the delegator's balance gains, unless the
    delegator is frozen: then the rewards are gone. *)
Theorem CollectTx_tokens bc n s delegator dis s' :
  sdInv s → emptyRootReads (db s) →
  (∀ a w, recordAt s a = Some w → addrOf w = a ∧ ∀ d, d ∈ Delegations w → 0 ≤ dReward d) →
  ReadDelegationsByDelegator bc delegator = Some dis → NoDup (diValidator <$> dis) →
  verifyAndApplyCollectRewards (Some bc) n s delegator = Ok s' →
  let addrs := diValidator <$> dis in
  sdInv s' ∧ db s' = db s
  ∧ (∀ b, b ∉ addrs → recordAt s' b = recordAt s b)
  ∧ (∀ b, b ≠ delegator → balanceOf (abs s') b = balanceOf (abs s) b)
  ∧ ((∀ b, b ∈ addrs → frozenAt (abs s) b = false) →
      sumZ (stakeAt s') addrs = sumZ (stakeAt s) addrs
      ∧ ∃ total, 0 < total ∧ sumZ (rewardAt s') addrs = sumZ (rewardAt s) addrs - total
        ∧ balanceOf (abs s') delegator = balanceOf (abs s) delegator + (if frozenAt (abs s) delegator then 0 else total)).
Proof.
  intros HI Hd Hst Hdis Hnd E addrs. unfold verifyAndApplyCollectRewards in E. rewrite Hdis in E.
  apply result_bind_Ok in E as ([ws total] & Hv%liftVerify_Ok & E). apply result_bind_Ok in E as (s1 & E1 & [= <-]).
  unfold VerifyAndCollectRewardsFromDelegation in Hv. apply result_bind_Ok in Hv as ([ws' total'] & Hc & Hz).
  destruct (Z.eqb_spec (i64 total') 0) as [|Hnz]; [done|]. injection Hz as -> ->.
  destruct (collectLoop_ok (dbReader s) dis [] ws 0 total) as (new & olds & Hws & Hrd & Hset & Htot & Hpos); [|done|].
  { intros a w d Hw. by apply (Hst a w Hw). }
  cbn in Hws. subst new.
  destruct (collected_records s dis olds ws Hst Hrd Hset) as [Hold Haddr]. fold addrs in Haddr.
  pose proof (updateWrappers_wrote ws s s1 HI Hd ltac:(by rewrite Haddr) E1) as Hwr.
  assert (emptyRootReads (db s1)) as Hd1 by (by rewrite (wr_db _ _ _ Hwr)).
  pose proof (AddBalance_keeps s1 delegator total (wr_inv _ _ _ Hwr) Hd1) as Hk1. set (s2 := AddBalance s1 delegator total) in *.
  assert (emptyRootReads (db s2)) as Hd2 by (by rewrite (kr_db _ _ Hk1)).
  destruct (AddLog_keeps s2 (stakeLog delegator CollectRewardsTopic (bigBytes total) n) (kr_inv _ _ Hk1) Hd2) as [Hk2 Hb2].
  set (s3 := AddLog s2 _) in *. pose proof (keeps_trans _ _ _ Hk1 Hk2) as Hk.
  destruct (wrote_keeps _ _ _ _ Hwr Hk) as (Hfz & Hnew & Hrest). rewrite Haddr in Hrest.
  assert (∀ b, balanceOf (abs s3) b = balanceOf (abs s) b + (if decide (delegator = b) then if frozenAt (abs s) delegator then 0 else total else 0)) as Hbal.
  { intros b. rewrite Hb2. destruct (AddBalance_balances s1 delegator b total (wr_inv _ _ _ Hwr) Hd1) as [Hb1 _].
    fold s2 in Hb1. rewrite Hb1. by rewrite (wr_balance _ _ _ Hwr), (wr_frozen _ _ _ Hwr). }
  split_and!; try done.
  - apply Hk.
  - by rewrite (kr_db _ _ Hk), (wr_db _ _ _ Hwr).
  - intros b Hb. rewrite Hbal, decide_False by done. lia.
  - intros Hnf. assert (∀ w, w ∈ ws → frozenAt (abs s) (addrOf w) = false) as Hnf'
      by (intros x Hx; apply Hnf; rewrite <-Haddr; by apply list_elem_of_fmap_2).
    assert (Forall2 (λ old w, recordAt s (addrOf w) = Some old) olds ws) as Hold' by (by eapply Forall2_impl; [exact Hold|]; intros ?? []).
    destruct (wrote_sum wrapperStake _ _ _ _ Hnew Hnf' Hold') as [Hs3 Hs0]. destruct (wrote_sum wrapperReward _ _ _ _ Hnew Hnf' Hold') as [Hr3 Hr0].
    rewrite Haddr in Hs3, Hs0, Hr3, Hr0. unfold stakeAt, rewardAt. rewrite Hs3, Hs0, Hr3, Hr0. split.
    + clear -Hold. induction Hold as [|? ? ? ? [_ Hw] _ IH]; [done|]. by rewrite !sumZ_cons, IH, Hw.
    + exists total. split; [|split; [lia|by rewrite Hbal, decide_True]]. assert (total ≠ 0); [|lia]. intros ->. by apply Hnz.
Qed.
End tokens.

(** ** What a staking transaction cannot touch *)
Section signer.
Context `{TB : TrieBackend} `{AC : AccountCodec} `{WC : WrapperCodec} `{BL : BLSLib} `{SC : Schedule} `{KC : StakeCodec} {WL : WrapperCodecLaws}.
Implicit Types (s : DB).

(** A change that leaves every balance but that of [a], and the refund counter. *)
Record spares (a : Address) s s' : Prop := {
  sp_inv : sdInv s';
  sp_db : emptyRootReads (db s');
  sp_refund : refund s' = refund s;
  sp_balance : ∀ b, b ≠ a → balanceOf (abs s') b = balanceOf (abs s) b;
}.

Lemma spares_refl a s : sdInv s → emptyRootReads (db s) → spares a s s.
Proof. by split. Qed.

Lemma spares_trans a s1 s2 s3 : spares a s1 s2 → spares a s2 s3 → spares a s1 s3.
Proof. intros [_ _ R1 B1] [? ? R2 B2]. split; [done|done|congruence|]. intros b Hb. by rewrite B2, B1. Qed.

(** The operations whose specification writes to the account of [a] at most. *)
Definition sparing (a : Address) (op : sdOp) : Prop :=
  match op with
  | OpAddBalance b _ | OpSubBalance b _ | OpSetNonce b _ | OpSetState b _ _ => b = a
  | OpGetBalance _ | OpAddLog _ => True
  | _ => False
  end.

Lemma write_other w a f b :
  (∀ x, aFrozen (f x) = aFrozen x ∧ aDeleted (f x) = aDeleted x) → a ≠ b → balanceOf (write w a f) b = balanceOf w b.
Proof. intros Hf Hb. destruct (write_reads w a f b Hf) as (_ & _ & _ & Hl & _). unfold balanceOf. by rewrite Hl. Qed.

Lemma sdRun_cons s op ops : sdRun s (op :: ops) = (s1 ← sdStep s op; sdRun s1 ops).
Proof.
  unfold sdRun. cbn. destruct (sdStep s op) as [s1|]; [done|]. cbn. induction ops as [|op' ops IH]; [done|exact IH].
Qed.

Lemma spares_op a s op s' : sdInv s → emptyRootReads (db s) → sparing a op → sdStep s op = Some s' → spares a s s'.
Proof.
  intros HI Hd Hop E. assert (op ≠ OpSnapshot ∧ ∀ r, op ≠ OpRevertToSnapshot r) as [Hs Hr] by (by destruct op).
  destruct (op_abs s op s' HI Hd Hs Hr E) as (w' & Hw & He & HI' & Hdb). split; [done|by rewrite Hdb| |].
  - assert (refund s' = wRefund w') as -> by apply He.
    destruct op; try done; cbn in Hw; repeat case_match; by injection Hw as <-.
  - intros b Hb. destruct (balanceOf_proper _ _ b He) as [-> _].
    destruct op; try done; cbn in Hop, Hw; subst; repeat case_match; injection Hw as <-; try done;
      (apply write_other; [done|congruence]).
Qed.

Lemma spares_run a ops s s' : sdInv s → emptyRootReads (db s) → Forall (sparing a) ops → sdRun s ops = Some s' → spares a s s'.
Proof.
  intros HI Hd Hops. revert s HI Hd. induction Hops as [|op ops Hop _ IH]; intros s HI Hd E.
  - injection E as <-. by apply spares_refl.
  - rewrite sdRun_cons in E. apply bind_Some in E as (s1 & E1 & E).
    pose proof (spares_op a s op s1 HI Hd Hop E1) as H1. eapply spares_trans; [exact H1|]. by apply IH; [apply H1|apply H1|].
Qed.

Lemma updateWrapper_spares a s w s' : sdInv s → emptyRootReads (db s) → updateWrapper s w = Ok s' → spares a s s'.
Proof.
  intros HI Hd E. pose proof (updateWrapper_wrote _ _ _ HI Hd E) as [HI' Hdb Hb _ _ _]. split; [done|by rewrite Hdb| |auto].
  unfold updateWrapper, UpdateValidatorWrapper in E. destruct (negb _); [done|]. destruct (encodeWrapper _) as [c|]; [|done]. injection E as <-. cbn.
  destruct (op_abs s (OpSetCode (addrOf w) c) _ HI Hd ltac:(done) ltac:(done) eq_refl) as (w' & [= <-] & He & _). apply He.
Qed.

Lemma updateWrappers_spares a ws s s' : sdInv s → emptyRootReads (db s) → updateWrappers s ws = Ok s' → spares a s s'.
Proof.
  revert s. induction ws as [|w ws IH]; intros s HI Hd E; cbn [updateWrappers] in E; [injection E as <-; by apply spares_refl|].
  apply result_bind_Ok in E as (s1 & E1 & E). pose proof (updateWrapper_spares a _ _ _ HI Hd E1) as H1.
  eapply spares_trans; [exact H1|]. by apply IH; [apply H1|apply H1|].
Qed.

Lemma redelegationLogs_spares a b n locked s : sdInv s → emptyRootReads (db s) → spares a s (redelegationLogs b n locked s).
Proof.
  intros HI Hd.
  apply (spares_run a ((λ kv : Address * Z, OpAddLog (stakeLog b DelegateTopic (addressBytes kv.1 ++ bigBytes kv.2) n)) <$> SliceStable addrLe (map_to_list locked)));
    [done|done|by apply Forall_fmap, Forall_true|]. unfold redelegationLogs, sdRun.
  generalize (SliceStable addrLe (map_to_list locked)) as l. intros l. clear HI Hd. revert s. induction l as [|kv l IH]; intros s; [done|]. apply IH.
Qed.

(** Each kind of message changes the balance of its signer at most. *)
Lemma applyStake_spares bc kind from epoch n mn dat s r s' :
  sdInv s → emptyRootReads (db s) → applyStake bc kind from epoch n mn dat s = Ok r → r = Ok s' → spares from s s'.
Proof.
  intros HI Hd E ->. unfold applyStake in E. destruct kind; [| | | | |done]; case_match; try done;
    (match type of E with context [from =? ?a] => destruct (Z.eqb_spec from a) as [Hfrom|] end; [|done]); injection E as E.
  - apply result_bind_Ok in E as (w & _ & E). apply result_bind_Ok in E as (s1 & E1 & [= <-]).
    pose proof (updateWrapper_spares from _ _ _ HI Hd E1) as H1. eapply spares_trans; [exact H1|].
    apply (spares_run from [OpSetState from IsValidatorKey IsValidatorValue; OpSubBalance from (cvAmount c)]);
      [apply H1|apply H1|by repeat constructor|by rewrite Hfrom].
  - apply result_bind_Ok in E as (w & _ & E). by eapply updateWrapper_spares.
  - unfold verifyAndApplyDelegateTx in E. case_match; [|done]. apply result_bind_Ok in E as ([[ws deduct] locked] & _ & E).
    apply result_bind_Ok in E as (s1 & E1 & [= <-]). pose proof (updateWrappers_spares from _ _ _ HI Hd E1) as H1.
    pose proof (spares_op from s1 (OpSubBalance from deduct) _ ltac:(apply H1) ltac:(apply H1) eq_refl eq_refl) as H2.
    rewrite <-Hfrom. eapply spares_trans; [exact H1|]. eapply spares_trans; [exact H2|]. by apply redelegationLogs_spares; apply H2.
  - apply result_bind_Ok in E as (w & _ & E). by eapply updateWrapper_spares.
  - unfold verifyAndApplyCollectRewards in E. case_match; [|done]. apply result_bind_Ok in E as ([ws total] & _ & E).
    apply result_bind_Ok in E as (s1 & E1 & [= <-]). pose proof (updateWrappers_spares from _ _ _ HI Hd E1) as H1.
    eapply spares_trans; [exact H1|]. rewrite <-Hfrom.
    apply (spares_run from [OpAddBalance from total; OpAddLog (stakeLog from CollectRewardsTopic (bigBytes total) n)]);
      [apply H1|apply H1|by repeat constructor|done].
Qed.

(** A staking transaction that succeeds is the signer's alone: no other balance changes.  It
    uses the intrinsic gas, less the refund counter up to half of it; the gas pool of the block
    loses exactly that. *)
Theorem StakingTransitionDb_signer bc kind homestead istanbul epoch n mn s pool msg st' used :
  sdInv s → emptyRootReads (db s) → 0 ≤ refund s → isU64 (mGas msg) →
  StakingTransitionDb bc kind homestead istanbul epoch n mn (NewStateTransition s pool) msg = Ok (st', used) →
  (∀ b, b ≠ mFrom msg → balanceOf (abs (state st')) b = balanceOf (abs s) b)
  ∧ sdInv (state st') ∧ gp st' = pool - used
  ∧ ∃ g, IntrinsicGas (mData msg) false homestead istanbul (match kind with StakeCreateVal => true | _ => false end) = Some g
     ∧ g ≤ mGas msg ≤ pool ∧ used = g - Z.min (g / 2) (refund s).
Proof.
  intros HI Hd Hrf Hgas E. unfold StakingTransitionDb in E. destruct (preCheck _ _) as [st1 [e|]] eqn:Ep; [done|].
  destruct (preCheck_ok _ _ _ Ep) as (_ & Hpool & Hgp1 & Hg1 & Hi1 & Hrun). cbn in Hpool, Hgp1, Hg1, Hrun.
  change (gas st1 = u64 (mGas msg)) in Hg1. rewrite u64_small in Hg1 by done.
  destruct (IntrinsicGas _ _ _ _ _) as [g|] eqn:Eg; [|done]. pose proof (IntrinsicGas_nonneg _ _ _ _ _ _ Eg) as Hg0.
  unfold useGas in E. destruct (Z.ltb_spec (gas st1) g) as [|Hle]; [done|].
  apply result_bind_Ok in E as (r & Er & E). apply result_bind_Ok in E as (s' & -> & E). apply result_bind_Ok in E as (st4 & Ef & [= <- <-]).
  assert (spares (mFrom msg) s (state st1)) as H1.
  { apply (spares_run _ (buys msg)); [done|done| |done]. unfold buys, readsNonce. destruct (mCheckNonce msg); by repeat constructor. }
  destruct (bumpNonce_run (state st1) (mFrom msg)) as (k & Hk & _).
  assert (spares (mFrom msg) (state st1) (bumpNonce (state st1) (mFrom msg))) as H2
    by (eapply spares_run; [apply H1|apply H1| |exact Hk]; by repeat constructor).
  pose proof (applyStake_spares _ _ _ _ _ _ _ _ _ _ (sp_inv _ _ _ H2) (sp_db _ _ _ H2) Er eq_refl) as H3.
  assert (spares (mFrom msg) s s') as H by (do 2 (eapply spares_trans; [done|]); done).
  unfold lift_panic in Ef. destruct (refundGas _ _) as [st5|] eqn:Erf; [|done]. injection Ef as ->.
  apply refundGas_ok in Erf; cbn [setState setGas gp gas initialGas state] in *;
    [|unfold isU64 in Hgas; lia|by rewrite Hi1|by rewrite (sp_refund _ _ _ H)].
  rewrite (sp_refund _ _ _ H), Hi1, Hg1, Hgp1 in Erf. replace (mGas msg - (mGas msg - g)) with g in Erf by lia.
  destruct Erf as (Hgp & Hgs & Hin & Hrg & Hst).
  assert (spares (mFrom msg) s' (state st4)) as H4
    by (eapply (spares_op _ _ (OpAddBalance (mFrom msg) _)); [apply H|apply H|done|by rewrite Hst]).
  split_and!; [intros b Hb; by rewrite (sp_balance _ _ _ H4), (sp_balance _ _ _ H)|apply H4| |].
  - unfold gasUsed. rewrite Hin, Hgs. unfold isU64 in Hgas. rewrite u64_small by (unfold isU64; lia). lia.
  - exists g. unfold gasUsed. rewrite Hin, Hgs. unfold isU64 in Hgas. rewrite u64_small by (unfold isU64; lia). split_and!; done || lia.
Qed.
End signer.

(** ** A concrete state with two records *)
#[local] Existing Instances mapTrie demoCodec demoBLS demoSchedule.

(** The codec of a table of records: the position of the record. *)
Definition tableCodec (t : list Wrapper) : WrapperCodec := {|
  encodeRecord w := '(i, _) ← list_find (λ x, x = w) t; Some [Z.of_nat i];
  decodeRecord b := match b with [z] => t !! Z.to_nat z | _ => None end;
|}.
Lemma tableCodec_laws t : @WrapperCodecLaws (tableCodec t).
Proof.
  split. cbn. intros w b ([i x] & (Hi & -> & _)%list_find_Some & [= <-])%bind_Some. by rewrite Nat2Z.id.
Qed.

Definition demoStakes : list Wrapper := [demoWrapper 1 [5; 6]; demoWrapper 2 [7]].
Definition demoDelegate : DelegateMsg := mkDelegateMsg 50 2 (5000 * one).
Definition demoCollected : list Wrapper :=
  match VerifyAndCollectRewardsFromDelegation (Some demoReader) demoIndexes with Ok (ws, _) => ws | _ => [] end.
Definition demoDelegated : list Wrapper :=
  match VerifyAndDelegateFromMsg (Some demoReader) 8 demoDelegate demoIndexes demoForks with Ok (ws, _, _) => ws | _ => [] end.
Definition demoTable : WrapperCodec := tableCodec (demoStakes ++ demoDelegated ++ demoCollected).
#[local] Existing Instance demoTable.
Lemma demoTable_laws : @WrapperCodecLaws demoTable.
Proof. apply tableCodec_laws. Qed.

(** The two records written to the empty chain, the balance of the delegator and the flag of
    validator 2. *)
Definition baseDB : DB :=
  match New 7 demoDatabase with inr s => s | inl _ => mkDB demoDatabase (∅ : Trie) ∅ ∅ ∅ ∅ None 0 0 0 0 ∅ 0 ∅ newJournal [] 0 end.
Definition recordsDB : DB := match updateWrappers baseDB demoStakes with Ok s => s | _ => baseDB end.
Definition stakeDB : DB := SetValidatorFlag (AddBalance recordsDB 50 (30000 * one)) 2.
Definition coldStakeDB : DB := SetFreezeState stakeDB 50 true.
Definition demoChain : StakeChain := mkStakeChain demoContext demoForks (λ _, Some demoIndexes).

Lemma baseDB_inv : sdInv baseDB ∧ emptyRootReads (db baseDB).
Proof. destruct (New_inv 7 demoDatabase baseDB eq_refl) as (? & _ & Hdb & _). split; [done|]. rewrite Hdb. intros k. reflexivity. Qed.

Lemma recordsDB_wrote : wrote baseDB demoStakes recordsDB.
Proof.
  destruct baseDB_inv as [HI Hd].
  assert (is_ok (updateWrappers baseDB demoStakes) = true) as Hok by (vm_compute; reflexivity). unfold recordsDB.
  destruct (updateWrappers baseDB demoStakes) as [s| |] eqn:E; [|discriminate Hok|discriminate Hok].
  apply (@updateWrappers_wrote mapTrie demoCodec demoTable demoTable_laws demoStakes baseDB s HI Hd); [|exact E].
  refine (bool_decide_unpack _ _); vm_compute; exact I.
Qed.

Lemma baseDB_records b : recordAt baseDB b = None.
Proof.
  rewrite recordAt_abs. unfold codeOf. rewrite live_abs.
  destruct (decide (b = 1)) as [->|H1]; [vm_compute; reflexivity|]. destruct (decide (b = 2)) as [->|H2]; [vm_compute; reflexivity|].
  assert (liveView baseDB b = None) as ->; [|done]. unfold liveView, view, loadObject. 
  assert (TryGet (trie baseDB) b = inr []) as ->; [|done]. 
  change (@inr unit bytes (default [] (({[ 1 := [5; 100; emptyRoot; emptyCodeHash]; 2 := [0; 50; 8; emptyCodeHash] ]} : gmap Z bytes) !! b)) = inr []).
  by rewrite lookup_insert_ne, lookup_singleton_ne by done.
Qed.

Lemma stakeDB_keeps : keepsRecords recordsDB stakeDB.
Proof.
  pose proof recordsDB_wrote as Hw. assert (emptyRootReads (db recordsDB)) as Hd by (rewrite (wr_db _ _ _ Hw); apply baseDB_inv).
  pose proof (AddBalance_keeps recordsDB 50 (30000 * one) (wr_inv _ _ _ Hw) Hd) as H1.
  eapply keeps_trans; [exact H1|]. apply SetState_keeps; [apply H1|]. rewrite (kr_db _ _ H1). exact Hd.
Qed.

(** Freezing an account changes its flag only. *)
Lemma SetFreezeState_reads `{TB : TrieBackend} `{AC : AccountCodec} `{WC : WrapperCodec} (s : DB) a fz :
  sdInv s → emptyRootReads (db s) → sdInv (SetFreezeState s a fz) ∧ db (SetFreezeState s a fz) = db s
  ∧ ∀ b, recordAt (SetFreezeState s a fz) b = recordAt s b ∧ frozenAt (abs (SetFreezeState s a fz)) b = if decide (a = b) then fz else frozenAt (abs s) b.
Proof.
  intros HI Hd. destruct (op_abs s (OpSetFreezeState a fz) _ HI Hd ltac:(done) ltac:(done) eq_refl) as (w' & [= <-] & He & HI' & Hdb).
  split_and!; [done|done|]. intros b. rewrite !recordAt_abs, (codeOf_proper _ _ b He). destruct (balanceOf_proper _ _ b He) as [_ ->].
  assert (aDeleted (setFrz fz (orBlank (abs s) a)) = false) as Hdl by exact (orBlank_deleted (abs s) a).
  unfold codeOf, frozenAt. rewrite live_put by exact Hdl. case_decide; subst; [|done]. split; [|done].
  f_equal. unfold orBlank. by destruct (live (abs s) b).
Qed.

Lemma stakeDB_all (P : Address → Wrapper → Prop) s :
  keepsRecords recordsDB s → P 1 (demoWrapper 1 [5; 6]) → P 2 (demoWrapper 2 [7]) → ∀ a w, recordAt s a = Some w → P a w.
Proof.
  intros [_ _ _ Hc] H1 H2 a w Ha. pose proof recordsDB_wrote as [_ _ _ _ Hn Ho].
  assert (recordAt recordsDB a = Some w) as Hr by (by rewrite recordAt_abs, <-Hc, <-recordAt_abs). clear Ha Hc.
  destruct (decide (a = 1)) as [->|E1].
  { assert (recordAt recordsDB 1 = Some (demoWrapper 1 [5; 6])) as Hx by (apply (Hn (demoWrapper 1 [5; 6])); by left). rewrite Hx in Hr. by injection Hr as <-. }
  destruct (decide (a = 2)) as [->|E2].
  { assert (recordAt recordsDB 2 = Some (demoWrapper 2 [7])) as Hx by (apply (Hn (demoWrapper 2 [7])); right; by left). rewrite Hx in Hr. by injection Hr as <-. }
  rewrite Ho, baseDB_records in Hr; [done|]. intros [He|[He|He]%elem_of_cons]%elem_of_cons; [by apply E1|by apply E2|by apply not_elem_of_nil in He].
Qed.


Lemma stakeDB_facts :
  sdInv stakeDB ∧ emptyRootReads (db stakeDB) ∧ (∀ b, frozenAt (abs stakeDB) b = frozenAt (abs baseDB) b).
Proof.
  pose proof stakeDB_keeps as [HI Hdb Hf _]. pose proof recordsDB_wrote as [_ Hdb' _ Hf' _ _]. destruct baseDB_inv as [_ Hd].
  split; [exact HI|]. rewrite Hdb, Hdb'. split; [exact Hd|]. intros b. rewrite Hf, Hf'. reflexivity.
Qed.

Lemma coldStake_facts :
  sdInv coldStakeDB ∧ emptyRootReads (db coldStakeDB) ∧ (∀ b, recordAt coldStakeDB b = recordAt stakeDB b)
  ∧ frozenAt (abs coldStakeDB) 50 = true ∧ (∀ b, is_Some (recordAt coldStakeDB b) → b = 1 ∨ b = 2)
  ∧ frozenAt (abs coldStakeDB) 1 = false ∧ frozenAt (abs coldStakeDB) 2 = false.
Proof.
  destruct stakeDB_facts as (HI & Hd & Hf). destruct (SetFreezeState_reads stakeDB 50 true HI Hd) as (HI' & Hdb & Hb).
  fold coldStakeDB in HI', Hdb, Hb. split; [exact HI'|]. rewrite Hdb. split; [exact Hd|]. split; [intros b; apply Hb|].
  destruct (Hb 50) as [_ ->], (Hb 1) as [_ ->], (Hb 2) as [_ ->]. split; [reflexivity|]. split.
  - intros b [w Hw]. destruct (Hb b) as [Hr _]. rewrite Hr in Hw.
    apply (stakeDB_all (λ a _, a = 1 ∨ a = 2) stakeDB stakeDB_keeps ltac:(by left) ltac:(by right) b w Hw).
  - rewrite !Hf. split; vm_compute; reflexivity.
Qed.


Lemma CollectTx_tokens_witness :
  ∃ s', verifyAndApplyCollectRewards (Some demoChain) 30 coldStakeDB 50 = Ok s'
    ∧ balanceOf (abs s') 50 = balanceOf (abs coldStakeDB) 50
    ∧ ∃ total, 0 < total ∧ sumZ (rewardAt s') [1; 2] = sumZ (rewardAt coldStakeDB) [1; 2] - total.
Proof.
  destruct coldStake_facts as (HI & Hd & Hr & Hz & Hdom & Hf1 & Hf2).
  assert (is_ok (verifyAndApplyCollectRewards (Some demoChain) 30 coldStakeDB 50) = true) as Hok by (vm_compute; reflexivity).
  destruct (verifyAndApplyCollectRewards (Some demoChain) 30 coldStakeDB 50) as [s'| |] eqn:E; [|discriminate Hok|discriminate Hok].
  destruct (@CollectTx_tokens mapTrie demoCodec demoTable demoTable_laws demoChain 30 coldStakeDB 50 demoIndexes s' HI Hd)
    as (_ & _ & _ & _ & Hsum); [|reflexivity| |exact E|].
  - intros a w Hw. rewrite Hr in Hw. split.
    + apply (stakeDB_all (λ a w, addrOf w = a) stakeDB stakeDB_keeps eq_refl eq_refl a w Hw).
    + intros d. apply (stakeDB_all (λ _ w, d ∈ Delegations w → 0 ≤ dReward d) stakeDB stakeDB_keeps) with (a := a); [| |exact Hw].
      * apply (demoReader_rewards 1). reflexivity.
      * apply (demoReader_rewards 2). reflexivity.
  - refine (bool_decide_unpack _ _); vm_compute; exact I.
  - change (diValidator <$> demoIndexes) with [1; 2] in Hsum.
    destruct Hsum as (_ & total & Ht & Hrw & Hb).
    { intros b [->|[->|[]%not_elem_of_nil]%elem_of_cons]%elem_of_cons; assumption. }
    rewrite Hz in Hb. exists s'. split; [reflexivity|]. split; [rewrite Hb; apply Z.add_0_r|]. exists total. split; [exact Ht|exact Hrw].
Defined.

Definition demoKinds : StakeCodec := {|
  decodeCreate _ := None; decodeEdit _ := None; decodeDelegate _ := Some demoDelegate; decodeUndelegate _ := None;
  decodeCollect _ := Some 50; |}.
#[local] Existing Instance demoKinds.
Definition demoStakeMsg : Message := mkMessage 50 None 2 22000 0 0 true [].
Definition stakedGas (r : result stakeTxError (StateTransition * Z)) : option Z := match r with Ok (_, g) => Some g | _ => None end.

Lemma StakingTransitionDb_signer_witness :
  ∃ st, StakingTransitionDb demoChain StakeDelegate true true 8 30 30 (NewStateTransition stakeDB 50000) demoStakeMsg = Ok (st, 21000)
    ∧ gp st = 29000 ∧ balanceOf (abs (state st)) 1 = balanceOf (abs stakeDB) 1.
Proof.
  destruct stakeDB_facts as (HI & Hd & _).
  assert (stakedGas (StakingTransitionDb demoChain StakeDelegate true true 8 30 30 (NewStateTransition stakeDB 50000) demoStakeMsg) = Some 21000) as Hok
    by (vm_compute; reflexivity).
  destruct (StakingTransitionDb demoChain StakeDelegate true true 8 30 30 (NewStateTransition stakeDB 50000) demoStakeMsg) as [[st g]| |] eqn:E;
    cbn [stakedGas] in Hok; [|discriminate Hok|discriminate Hok]. injection Hok as ->.
  destruct (@StakingTransitionDb_signer mapTrie demoCodec demoTable demoBLS demoSchedule demoKinds demoTable_laws demoChain StakeDelegate true true 8 30 30
    stakeDB 50000 demoStakeMsg st 21000 HI Hd) as (Hb & _ & Hgp & _); [|split; [vm_compute; discriminate|reflexivity]|exact E|].
  - assert (refund stakeDB = 0) as -> by (vm_compute; reflexivity). reflexivity.
  - exists st. split; [reflexivity|]. split; [exact Hgp|]. apply Hb. discriminate.
Defined.
