(* ===== verification/PoolStaking.v ===== *)
(** * Staking messages in the transaction pool (core/tx_pool.go)

    [validateStakingTx], the argument of the pool in TxPool.v: the message of a staking
    transaction is decoded and verified against the state at the head of the chain, as the
    transition of StakingTransition.v will verify it when a block applies it. *)

From Stdlib Require Import ZArith Lia.
From stdpp Require Import base gmap list option.
From S2P Require Import Prelude Decimal ShardState Effective Staking StakingVerifier Trie Journal StateDB Accounts StateCommit StateTransition StakingTransition TxList TxPool.
Local Open Scope Z_scope.

(** [staking.Directive] (staking/types/messages.go). *)
Definition DirectiveEditValidator : Z := 1.
Definition DirectiveUndelegate : Z := 3.
Definition DirectiveCollectRewards : Z := 4.

Inductive poolStakeError := errPoolStake (e : stakeTxError) | errDelegationBalance.

Section poolStaking.
Context `{TB : TrieBackend} `{AC : AccountCodec} `{WC : WrapperCodec} `{BL : BLSLib} `{SC : Schedule} `{KC : StakeCodec}.
(** [shard.Schedule.IsLastBlock]. *)
Context (isLastBlock : Z → bool).
Implicit Types (s : DB) (tx : PoolTransaction).

Definition liftPool {A} (m : result stakeTxError A) : result poolStakeError A :=
  match m with Ok a => Ok a | Err e => Err (errPoolStake e) | Panic => Panic end.

(** The epoch of the block after the current one. *)
Definition pendingEpoch (number epoch : Z) : Z := if isLastBlock (u64 number) then epoch + 1 else epoch.

(** The message, when it decodes and names the sender. *)
Definition signedBy {A} tx (dec : option A) (signer : A → Address) : result poolStakeError A :=
  match dec with
  | None => Err (errPoolStake errDecodeStake)
  | Some m => if senderOf tx =? signer m then Ok m else Err (errPoolStake errInvalidSigner)
  end.

(** [bc] is [None] for a chain of the tests, which is no [ChainContext]; [number] and [epoch] are
    those of the current block. *)
Definition validateStakingTx (bc : option StakeChain) (number epoch : Z) s tx : result poolStakeError unit :=
  let reader := Some (dbReader s) in
  if ptDirective tx =? DirectiveCreateValidator then
    m ← signedBy tx (decodeCreate (ptData tx)) cvAddress;
    _ ← liftPool (liftVerify (VerifyAndCreateValidatorFromMsg reader (scContext <$> bc) (Some (pendingEpoch number epoch)) (Some (number + 1)) m));
    Ok tt
  else if ptDirective tx =? DirectiveEditValidator then
    m ← signedBy tx (decodeEdit (ptData tx)) evAddress;
    _ ← liftPool (liftVerify (VerifyAndEditValidatorFromMsg reader (scContext <$> bc) epoch (Some (number + 1)) m));
    Ok tt
  else if ptDirective tx =? DirectiveDelegate then
    m ← signedBy tx (decodeDelegate (ptData tx)) dmDelegator;
    match bc with
    | None => Ok tt
    | Some bc =>
        match ReadDelegationsByDelegator bc (dmDelegator m) with
        | None => Err (errPoolStake errReadDelegations)
        | Some delegations =>
            '(_, delegateAmt, _) ← liftPool (liftVerify (VerifyAndDelegateFromMsg reader (pendingEpoch number epoch) m delegations (scForks bc)));
            if (StateDB.GetBalance s (senderOf tx)).1 <? delegateAmt + ptGasPrice tx * ptGasLimit tx then Err errDelegationBalance else Ok tt
        end
    end
  else if ptDirective tx =? DirectiveUndelegate then
    m ← signedBy tx (decodeUndelegate (ptData tx)) umDelegator;
    _ ← liftPool (liftVerify (VerifyAndUndelegateFromMsg reader (Some (pendingEpoch number epoch)) m));
    Ok tt
  else if ptDirective tx =? DirectiveCollectRewards then
    m ← signedBy tx (decodeCollect (ptData tx)) id;
    match bc with
    | None => Ok tt
    | Some bc =>
        match ReadDelegationsByDelegator bc m with
        | None => Err (errPoolStake errReadDelegations)
        | Some delegations => _ ← liftPool (liftVerify (VerifyAndCollectRewardsFromDelegation reader delegations)); Ok tt
        end
    end
  else Err (errPoolStake ErrInvalidStakingKind).

(** The kind of the message, as the transition of a block has it. *)
Definition kindOf tx : stakeKind :=
  if ptDirective tx =? DirectiveCreateValidator then StakeCreateVal
  else if ptDirective tx =? DirectiveEditValidator then StakeEditVal
  else if ptDirective tx =? DirectiveDelegate then StakeDelegate
  else if ptDirective tx =? DirectiveUndelegate then StakeUndelegate
  else if ptDirective tx =? DirectiveCollectRewards then StakeCollect
  else StakeOther.

Lemma signedBy_Ok {A} tx (dec : option A) signer m : signedBy tx dec signer = Ok m → dec = Some m ∧ (senderOf tx =? signer m) = true.
Proof. unfold signedBy. destruct dec as [x|]; [|done]. destruct (senderOf tx =? signer x) eqn:E; [|done]. by intros [= <-]. Qed.
Lemma pool_bind {A B} (m : result poolStakeError A) (f : A → result poolStakeError B) b : (a ← m; f a) = Ok b → ∃ a, m = Ok a ∧ f a = Ok b.
Proof. destruct m as [a|e|]; [|done|done]. intros E. by exists a. Qed.
Lemma liftPool_Ok {A} (m : result stakeTxError A) a : liftPool m = Ok a → m = Ok a.
Proof. by destruct m; intros [= ->]. Qed.

(** What the application of a message can still fail with: the record of a validator that is
    written does not pass its check. *)
Definition onlyUpdates (r : result stakeTxError DB) : Prop := match r with Ok _ => True | Err (errUpdate _) => True | _ => False end.

Lemma updateWrapper_only s w : onlyUpdates (updateWrapper s w).
Proof. unfold updateWrapper. by destruct (UpdateValidatorWrapper s (addrOf w) w) as [[e|] s1]. Qed.
Lemma onlyUpdates_bind (r : result stakeTxError DB) f : onlyUpdates r → (∀ s, onlyUpdates (f s)) → onlyUpdates (s ← r; f s).
Proof. destruct r as [s|e|]; [|done|done]. intros _ Hf. apply Hf. Qed.
Lemma updateWrappers_only ws : ∀ s, onlyUpdates (updateWrappers s ws).
Proof. induction ws as [|w ws IH]; intros s; [done|]. apply onlyUpdates_bind; [apply updateWrapper_only|done]. Qed.

(** A staking transaction that the pool accepts passes the decoding, the check of its signer and
    the verification of the block that applies it on the same state, in the pending epoch; for
    an edit, which the pool verifies in the epoch of the current block, the epoch must not
    change.  A delegation is also covered by the balance, with its gas. *)
Theorem validated_applies bc number epoch s tx blockNumber :
  validateStakingTx (Some bc) number epoch s tx = Ok tt →
  (kindOf tx = StakeEditVal → isLastBlock (u64 number) = false) →
  ∃ r, applyStake bc (kindOf tx) (senderOf tx) (pendingEpoch number epoch) blockNumber (number + 1) (ptData tx) s = Ok r ∧ onlyUpdates r.
Proof.
  unfold validateStakingTx, kindOf. repeat (case_match; [|]); try done; cbn [applyStake].
  - intros [m [[-> Hs]%signedBy_Ok Hv]]%pool_bind _. apply pool_bind in Hv as [w [Hv%liftPool_Ok _]]. rewrite Hs. eexists. split; [done|].
    unfold verifyAndApplyCreateValidatorTx. cbn [fmap option_fmap option_map] in Hv. rewrite Hv. apply onlyUpdates_bind; [apply updateWrapper_only|done].
  - intros [m [[-> Hs]%signedBy_Ok Hv]]%pool_bind Hlast. apply pool_bind in Hv as [w [Hv%liftPool_Ok _]]. rewrite Hs. eexists. split; [done|].
    unfold verifyAndApplyEditValidatorTx, pendingEpoch. rewrite (Hlast eq_refl). cbn [fmap option_fmap option_map] in Hv. rewrite Hv. apply updateWrapper_only.
  - intros [m [[-> Hs]%signedBy_Ok Hv]]%pool_bind _. rewrite Hs. eexists. split; [done|]. unfold verifyAndApplyDelegateTx. destruct (ReadDelegationsByDelegator bc (dmDelegator m)) as [ds|]; [|done].
    apply pool_bind in Hv as [[[ws amt] locked] [Hv%liftPool_Ok _]]. rewrite Hv. apply onlyUpdates_bind; [apply updateWrappers_only|done].
  - intros [m [[-> Hs]%signedBy_Ok Hv]]%pool_bind _. apply pool_bind in Hv as [w [Hv%liftPool_Ok _]]. rewrite Hs. eexists. split; [done|].
    unfold verifyAndApplyUndelegateTx. rewrite Hv. apply updateWrapper_only.
  - intros [m [[-> Hs]%signedBy_Ok Hv]]%pool_bind _. cbn [id] in Hs. rewrite Hs. eexists. split; [done|]. unfold verifyAndApplyCollectRewards. destruct (ReadDelegationsByDelegator bc m) as [ds|]; [|done].
    apply pool_bind in Hv as [[ws total] [Hv%liftPool_Ok _]]. rewrite Hv. apply onlyUpdates_bind; [apply updateWrappers_only|done].
Qed.

Theorem validated_delegation_covered bc number epoch s tx m ds :
  validateStakingTx (Some bc) number epoch s tx = Ok tt → ptDirective tx = DirectiveDelegate →
  decodeDelegate (ptData tx) = Some m → ReadDelegationsByDelegator bc (dmDelegator m) = Some ds →
  ∃ ws amount locked, VerifyAndDelegateFromMsg (Some (dbReader s)) (pendingEpoch number epoch) m ds (scForks bc) = Ok (ws, amount, locked)
    ∧ amount + ptGasPrice tx * ptGasLimit tx ≤ (StateDB.GetBalance s (senderOf tx)).1.
Proof.
  intros Hv Hd Hm Hds. unfold validateStakingTx in Hv. rewrite Hd in Hv. cbn in Hv. apply pool_bind in Hv as [m' [[Hm' _]%signedBy_Ok Hv]]. rewrite Hm in Hm'. injection Hm' as <-.
  rewrite Hds in Hv. apply pool_bind in Hv as [[[ws amount] locked] [Hv Hb]]. apply liftPool_Ok, liftVerify_Ok in Hv. exists ws, amount, locked. split; [done|].
  destruct (Z.ltb_spec (StateDB.GetBalance s (senderOf tx)).1 (amount + ptGasPrice tx * ptGasLimit tx)); [done|lia].
Qed.
End poolStaking.

(** ** Instance *)
#[local] Existing Instances mapTrie demoCodec demoTable demoBLS demoSchedule demoKinds.
Definition demoStakingTx : PoolTransaction := mkPoolTx 0 1 21000 (Some 0) 5 true (Some 50) stakingTo 0 300 0 [] DirectiveDelegate.

Lemma validated_applies_witness :
  validateStakingTx (λ _, false) (Some StakingTransition.demoChain) 29 8 stakeDB demoStakingTx = Ok tt
  ∧ ∃ r, applyStake StakingTransition.demoChain StakeDelegate 50 8 30 30 [] stakeDB = Ok r ∧ onlyUpdates r.
Proof.
  assert (validateStakingTx (λ _, false) (Some StakingTransition.demoChain) 29 8 stakeDB demoStakingTx = Ok tt) as Hv by (vm_compute; reflexivity).
  split; [exact Hv|]. exact (validated_applies (λ _, false) StakingTransition.demoChain 29 8 stakeDB demoStakingTx 30 Hv ltac:(discriminate)).
Defined.
