(* ===== verification/StateTransfer.v ===== *)
(** * State-transfer transactions (atomic/types/atomic_transaction.go, core/state_processor.go)

    An account moves between shards in two transactions.  The first ([ToFreeze]) freezes the
    account on the source shard; the second, made when the two-phase commit has succeeded,
    records the new shard in the load map of both shards and installs the balance and nonce on
    the target shard.  [ApplyStateTransferTransaction] is the block-execution step of both;
    the worker's wrapper and the cross-shard receipts ([ApplyIncomingReceipt]) are here too.

    The chain configuration enters as the boolean [isS3] ([config.IsS3(header.Epoch())]), the
    transaction hash as the function [txHash].  Logging is left out. *)

From Stdlib Require Import ZArith Lia.
From stdpp Require Import base gmap list option sets.
From S2P Require Import Prelude Trie Journal LoadMap StateDB Accounts StateCommit.
Local Open Scope Z_scope.

(** ** Transactions *)
Record txdata := mkTxdata {
  txSourceShardID : Z;
  txTargetShardID : Z;
  txSourceHeight : Z;
  txAddress : Address;
  txBalance : option Z;
  txNonce : Z;
  txData : bytes;
  txToFreeze : bool;
  txHashField : option Hash;
  stxIndex : Z;
}.

Definition NewStateTransferTransaction (source target height : Z) (address : Address) (balance : option Z) (nonce : Z)
    (data : bytes) (toFreeze : bool) (index : Z) : txdata :=
  mkTxdata source target height address balance nonce data toFreeze None index.

(** The zero value of [txdata], with a nil balance. *)
Definition zeroTxdata : txdata := mkTxdata 0 0 0 0 None 0 [] false None 0.

(** [CopyFrom]: every field but the balance. *)
Definition CopyFrom (d d2 : txdata) : txdata :=
  mkTxdata (txSourceShardID d2) (txTargetShardID d2) (txSourceHeight d2) (txAddress d2) (txBalance d) (txNonce d2)
    (txData d2) (txToFreeze d2) (txHashField d2) (stxIndex d2).
Definition CopyTx (s : txdata) : txdata := CopyFrom zeroTxdata s.

Definition SetToFreeze (s : txdata) (label : bool) : txdata :=
  mkTxdata (txSourceShardID s) (txTargetShardID s) (txSourceHeight s) (txAddress s) (txBalance s) (txNonce s)
    (txData s) label (txHashField s) (stxIndex s).

(** ** Receipts *)
Definition ReceiptStatusFailed : Z := 0.
Definition ReceiptStatusSuccessful : Z := 1.
Record Receipt := mkReceipt { PostState : option Hash; Status : Z; CumulativeGasUsed : Z; TxHash : Hash; GasUsed : Z }.
Definition NewReceipt (root : option Hash) (failed : bool) (cumulativeGasUsed : Z) : Receipt :=
  mkReceipt root (if failed then ReceiptStatusFailed else ReceiptStatusSuccessful) cumulativeGasUsed 0 0.

(** A cross-shard receipt; [None] is a nil recipient. *)
Record CXReceipt := mkCXReceipt { cxTo : option Address; cxAmount : Z }.

Section apply.
Context `{TB : TrieBackend} `{AC : AccountCodec} `{VS : ValidatorStore} `{LC : LoadMapCodec}.
Context (txHash : txdata → Hash) (isS3 : bool).
Implicit Types (s : DB) (l : LoadMapDB).

(** The end of each branch: [Finalise(true)], or the root of the state that was changed. *)
Definition finishState s : option (option Hash * DB) :=
  if isS3 then Some (None, Finalise s true)
  else '(root, s1) ← IntermediateRoot s isS3; Some (Some root, s1).
Definition finishLoadMap l : option (option Hash * LoadMapDB) :=
  if isS3 then Some (None, LoadMap.Finalise l true)
  else '(root, l1) ← LoadMap.IntermediateRoot l isS3; Some (Some root, l1).

(** Source shard, [ToFreeze]. *)
Definition sourceFreeze s (addr : Address) : DB :=
  let '(exists_, s1) := Exist s addr in
  let s2 := if exists_ then s1 else SetBalance (CreateAccount s1 addr) addr 0 in
  SetFreezeState s2 addr true.

(** The new shard of the address. *)
Definition remap l (addr : Address) (target : Z) : LoadMapDB :=
  let '(exists_, l1) := LoadMap.Exist l addr in
  let l2 := if exists_ then l1 else CreateMapAccount l1 addr in
  SetTargetShardID l2 addr target.

(** Target shard, commit: the account is thawed and overwritten. *)
Definition targetInstall s (addr : Address) (balance nonce : Z) : DB :=
  let '(exists_, s1) := Exist s addr in
  let s2 := if exists_ then s1 else CreateAccount s1 addr in
  SetNonce (SetBalance (SetFreezeState s2 addr false) addr balance) addr nonce.

(** [ApplyStateTransferTransaction]; [None] is a panic of [IntermediateRoot], or a nil balance,
    which the model of the accounts cannot hold. *)
Definition ApplyStateTransferTransaction s (shardID : Z) l (stx : option txdata)
    : option (option Receipt * DB * LoadMapDB) :=
  match stx with
  | None => Some (None, s, l)
  | Some stx =>
      '(root, s1, l1) ←
        (if shardID =? txSourceShardID stx then
           if txToFreeze stx then
             '(root, s1) ← finishState (sourceFreeze s (txAddress stx)); Some (root, s1, l)
           else
             '(root, l1) ← finishLoadMap (remap l (txAddress stx) (txTargetShardID stx)); Some (root, s, l1)
         else if shardID =? txTargetShardID stx then
           if txToFreeze stx then
             '(root, s1) ← finishState s; Some (root, s1, l)
           else
             balance ← txBalance stx;
             let s1 := targetInstall s (txAddress stx) balance (txNonce stx) in
             let l1 := remap l (txAddress stx) (txTargetShardID stx) in
             '(root, s2) ← finishState s1;
             Some (root, s2, if isS3 then LoadMap.Finalise l1 true else l1)
         else Some (None, s, l));
      let receipt := NewReceipt root false 0 in
      Some (Some (mkReceipt (PostState receipt) (Status receipt) (CumulativeGasUsed receipt) (txHash stx) 0), s1, l1)
  end.

(** ** The worker *)
Record environment := mkEnvironment {
  envState : DB;
  loadMapState : LoadMapDB;
  stateTransferTxs : list txdata;
  receipts : list Receipt;
}.

Inductive workerError := errNilReceipt.

(** [ApplyStateTransferTransaction] never returns an error, so the branch that reverts both
    databases is not reached. *)
Definition commitStateTransferTransaction (w : environment) (shardID : Z) (sttx : option txdata)
    : option ((workerError + unit) * environment) :=
  let '(snap, s1) := Snapshot (envState w) in
  let '(snapLoadMap, l1) := LoadMap.Snapshot (loadMapState w) in
  '(receipt, s2, l2) ← ApplyStateTransferTransaction s1 shardID l1 sttx;
  let w1 := mkEnvironment s2 l2 (stateTransferTxs w) (receipts w) in
  match receipt, sttx with
  | Some r, Some tx => Some (inr tt, mkEnvironment s2 l2 (stateTransferTxs w ++ [tx]) (receipts w ++ [r]))
  | _, _ => Some (inl errNilReceipt, w1)
  end.

(** ** Cross-shard receipts *)
Inductive receiptError := errInvalidIncomingReceipt.

Fixpoint applyReceipts s (cxs : list (option CXReceipt)) : option (option receiptError * DB) :=
  match cxs with
  | [] => Some (None, s)
  | cx :: rest =>
      match cx ≫= (λ cx, (λ to, (to, cxAmount cx)) <$> cxTo cx) with
      | None => Some (Some errInvalidIncomingReceipt, s)
      | Some (to, amount) =>
          let '(exists_, s1) := Exist s to in
          let s2 := if exists_ then s1 else CreateAccount s1 to in
          let s3 := AddBalance s2 to amount in
          '(_, s4) ← IntermediateRoot s3 isS3;
          applyReceipts s4 rest
      end
  end.

Definition ApplyIncomingReceipt s (cxp : option (list (option CXReceipt))) : option (option receiptError * DB) :=
  match cxp with None => Some (None, s) | Some cxs => applyReceipts s cxs end.
End apply.

(** * Properties *)
Section properties.
Context `{TB : TrieBackend} `{AC : AccountCodec} `{VS : ValidatorStore} `{LC : LoadMapCodec}.
Context (txHash : txdata → Hash).
Implicit Types (s : DB) (l : LoadMapDB) (a b : Address) (w : world).

(** ** One operation at a time *)

(** What the operations below keep: the invariant, the empty storage root, the validators. *)
Record ready s w : Prop := {
  rd_inv : sdInv s;
  rd_db : emptyRootReads (db s);
  rd_abs : abs s ≡ w;
}.

Lemma ready_op s w op s' w' :
  ready s w → op ≠ OpSnapshot → (∀ r, op ≠ OpRevertToSnapshot r) →
  sdStep s op = Some s' → specOp w op = Some w' → ready s' w'.
Proof.
  intros [HI Hd Hw] H1 H2 Hs Hw'. pose proof (specOp_abs s w op HI Hd Hw H1 H2) as Ho.
  rewrite Hs, Hw' in Ho. destruct (option_Forall2_from_Some _ _ _ Ho) as (w2 & [= <-] & He & Hdb).
  destruct (sdStep_stepped s op s' HI H1 H2 Hs) as [es Hst]. split; [apply Hst|by rewrite Hdb|done].
Qed.

Lemma ready_world s w w' : ready s w → w ≡ w' → ready s w'.
Proof. intros [? ? Hw] He. split; [done|done|by rewrite Hw]. Qed.

Lemma putAcct_twice w a x y : putAcct (putAcct w a x) a y ≡ putAcct w a y.
Proof. split_and!; try done. intros b. simpl. by case_decide. Qed.

Lemma orBlank_put w a x : aDeleted x = false → orBlank (putAcct w a x) a = x.
Proof. intros Hx. unfold orBlank. by rewrite live_put, decide_True. Qed.

Lemma Exist_ready s w a :
  ready s w → (Exist s a).1 = bool_decide (is_Some (live w a)) ∧ ready (Exist s a).2 w ∧
              stateValidators (Exist s a).2 = stateValidators s.
Proof.
  intros [HI Hd Hw]. unfold Exist, withObject.
  destruct (getStateObject_spec s a) as (s1 & -> & Hro & Hk & _). simpl.
  pose proof (live_proper _ _ Hw a a eq_refl) as Hl. rewrite live_abs in Hl.
  destruct (stepped_readOnly s s1 HI Hro (Hk (inv_objs _ _ (proj1 HI)))) as [_ _ _ HI1].
  destruct (abs_readOnly s s1 w Hro Hw) as [Hw1 Hdb]. split_and!.
  - by destruct (liveView s a); inversion Hl.
  - split; [done|by rewrite Hdb|done].
  - apply (ro_eqv _ _ Hro).
Qed.

(** ** The validators are not touched *)
Lemma createObject_validators s a : stateValidators (createObject s a).2 = stateValidators s.
Proof.
  unfold createObject. destruct (getDeleted_spec s a) as (s1 & -> & Hro & _).
  destruct (view s a); simpl; apply (ro_eqv _ _ Hro).
Qed.

Lemma GetOrNew_validators s a : stateValidators (GetOrNewStateObject s a).2 = stateValidators s.
Proof.
  unfold GetOrNewStateObject. destruct (getStateObject_spec s a) as (s1 & -> & Hro & _).
  destruct (liveView s a); simpl; [apply (ro_eqv _ _ Hro)|].
  pose proof (createObject_validators s1 a) as Hc. destruct (createObject s1 a) as [[o p] s2]. simpl in *.
  rewrite Hc. apply (ro_eqv _ _ Hro).
Qed.

Lemma guarded_validators s a f :
  (∀ s o, stateValidators (f s o) = stateValidators s) → stateValidators (guarded s a f) = stateValidators s.
Proof.
  intros Hf. unfold guarded. pose proof (GetOrNew_validators s a) as Hg.
  destruct (GetOrNewStateObject s a) as [o s1]. simpl in Hg. destruct (FreezeState o); [done|]. by rewrite Hf.
Qed.

Lemma SetFreezeState_validators s a (f : bool) : stateValidators (SetFreezeState s a f) = stateValidators s.
Proof.
  unfold SetFreezeState. pose proof (GetOrNew_validators s a) as Hg. by destruct (GetOrNewStateObject s a).
Qed.

Lemma CreateAccount_validators s a : stateValidators (CreateAccount s a) = stateValidators s.
Proof.
  unfold CreateAccount. pose proof (createObject_validators s a) as Hg. by destruct (createObject s a) as [[o [p|]] s1].
Qed.

(** ** The two state changes *)
Lemma live_None_orBlank w a : live w a = None → orBlank w a = blank.
Proof. unfold orBlank. by intros ->. Qed.

Lemma sourceFreeze_spec s w a :
  ready s w →
  ready (sourceFreeze s a) (putAcct w a (setFrz true (orBlank w a))) ∧
  stateValidators (sourceFreeze s a) = stateValidators s.
Proof.
  intros Hr. unfold sourceFreeze. destruct (Exist_ready s w a Hr) as (He & Hr1 & Hv).
  destruct (Exist s a) as [e s1]. simpl in *. subst e. split.
  - case_bool_decide as Hl.
    + by eapply (ready_op s1 w (OpSetFreezeState a true)).
    + apply eq_None_not_Some in Hl.
      eapply ready_world.
      { eapply (ready_op _ _ (OpSetFreezeState a true)); [|done|done|done|done].
        eapply (ready_op _ _ (OpSetBalance a 0)); [|done|done|done|done].
        by eapply (ready_op s1 w (OpCreateAccount a)). }
      unfold write. rewrite !orBlank_put by done. cbn [aFrozen setBal blank]. rewrite ?orBlank_put by done.
      rewrite !putAcct_twice, (live_None_orBlank _ _ Hl). done.
  - rewrite SetFreezeState_validators. case_bool_decide; [done|].
    unfold SetBalance. rewrite guarded_validators by done. by rewrite CreateAccount_validators.
Qed.

Lemma targetInstall_spec s w a balance nonce :
  ready s w →
  ready (targetInstall s a balance nonce) (putAcct w a (setNon nonce (setBal balance (setFrz false (orBlank w a))))) ∧
  stateValidators (targetInstall s a balance nonce) = stateValidators s.
Proof.
  intros Hr. unfold targetInstall. destruct (Exist_ready s w a Hr) as (He & Hr1 & Hv).
  destruct (Exist s a) as [e s1]. simpl in *. subst e.
  assert (∃ x, ready (if bool_decide (is_Some (live w a)) then s1 else CreateAccount s1 a) (putAcct w a x) ∧
    aDeleted x = false ∧ setBal balance x ≡ setBal balance (orBlank w a)) as (x & Hx & Hd & Hxb).
  { case_bool_decide as Hl.
    - destruct Hl as [x Hl]. exists x. split_and!; [|by eapply live_deleted|by rewrite (orBlank_live _ _ _ Hl)].
      eapply ready_world; [exact Hr1|]. split_and!; try done. intros b. simpl. case_decide as Hb; [|done]. subst b.
      unfold live in Hl. destruct (accts w a) as [y|]; simpl in Hl; [|done]. by destruct (aDeleted y); simplify_eq.
    - apply eq_None_not_Some in Hl. exists (setBal (default 0 (aBalance <$> accts w a)) blank).
      split_and!; [by eapply (ready_op s1 w (OpCreateAccount a))|done|].
      by rewrite (live_None_orBlank _ _ Hl). }
  split.
  - eapply ready_world.
    { eapply (ready_op _ _ (OpSetNonce a nonce)); [|done|done|done|done].
      eapply (ready_op _ _ (OpSetBalance a balance)); [|done|done|done|done].
      eapply (ready_op _ _ (OpSetFreezeState a false)); [|done|done|done|done]. exact Hx. }
    rewrite (orBlank_put w a x Hd). unfold write. rewrite !orBlank_put by done. cbn [aFrozen setFrz].
    rewrite ?orBlank_put by done. cbn [aFrozen setFrz setBal]. rewrite !putAcct_twice.
    apply putAcct_proper; [done|done|]. destruct Hxb as (?&?&?&?&?&?&?&?). by split_and!.
  - unfold SetNonce, SetBalance. rewrite !guarded_validators by done. rewrite SetFreezeState_validators.
    case_bool_decide; [done|]. by rewrite CreateAccount_validators.
Qed.

(** Recording the new shard. *)
Lemma remap_spec l a target :
  lmInv l → (∀ o, LoadMap.liveView l a = Some o → LoadMap.suicided o = false) →
  lmInv (remap l a target) ∧ (∀ b, b ≠ a → LoadMap.view (remap l a target) b = LoadMap.view l b) ∧
  ∃ o, LoadMap.liveView (remap l a target) a = Some o ∧ LoadMap.suicided o = false ∧ objTargetShardID o = target.
Proof.
  intros HI Hs. unfold remap, LoadMap.Exist.
  destruct (getLoadMapObject_spec l a) as (l1 & -> & Hro & _).
  pose proof (LoadMap.st_inv _ _ _ (lm_stepped_readOnly l l1 HI Hro)) as HI1.
  pose proof (λ b, LoadMap.eqv_view _ _ (LoadMap.ro_eqv _ _ Hro) b) as Hv1.
  pose proof (lm_liveView_eqv l1 l a Hv1) as Hl1.
  assert (∃ l2, (if match LoadMap.liveView l a with Some _ => true | None => false end then l1 else CreateMapAccount l1 a) = l2 ∧
    lmInv l2 ∧ (∀ b, b ≠ a → LoadMap.view l2 b = LoadMap.view l b) ∧
    ∃ o, LoadMap.liveView l2 a = Some o ∧ LoadMap.suicided o = false) as (l2 & -> & HI2 & Hv2 & o & Ho & Hso).
  { destruct (LoadMap.liveView l a) as [o|] eqn:E.
    - exists l1. split_and!; [done|done|intros b _; apply Hv1|]. exists o. by split; [rewrite Hl1|apply Hs].
    - destruct (CreateMapAccount_view l1 a HI1) as (? & Hvb & o & ? & ?). eexists. split; [done|].
      split_and!; [done|intros b Hb; by rewrite Hvb|eauto]. }
  destruct (SetTargetShardID_view l2 a target HI2) as (HI3 & Hv3 & Ho3).
  split_and!; [done|intros b Hb; by rewrite Hv3, Hv2|]. rewrite Ho3, Ho. simpl. eexists. split; [done|]. by split.
Qed.

(** ** The transactions (after the S3 fork) *)

(** The receipt of a state-transfer transaction: successful, without gas. *)
Definition freeReceipt (stx : txdata) : Receipt := mkReceipt None ReceiptStatusSuccessful 0 (txHash stx) 0.

(** A write to one account, and [Finalise(true)]. *)
Lemma install_finalise s s1 a x y :
  sdInv s → emptyRootReads (db s) → ready s1 (putAcct (abs s) a x) → stateValidators s1 = stateValidators s →
  stateValidators s !! a = None → x = y → aDeleted x = false → aSuicided x = false →
  sdInv (Finalise s1 true) ∧
  (emptyAcct x = false → live (abs (Finalise s1 true)) a ≡ Some y) ∧
  default 0 (aBalance <$> live (abs (Finalise s1 true)) a) = aBalance y ∧
  default 0 (aNonce <$> live (abs (Finalise s1 true)) a) = aNonce y ∧
  (aFrozen x = false → default false (aFrozen <$> live (abs (Finalise s1 true)) a) = false).
Proof.
  intros HI Hd [HI1 Hd1 Hw1] Hv Hva <- Hdel Hs. split; [by apply Finalise_inv|].
  pose proof (live_proper _ _ Hw1 a a eq_refl) as Hl. rewrite live_put, decide_True in Hl by done.
  symmetry in Hl. destruct (option_Forall2_from_Some _ _ _ Hl) as (z & Hz & Hxz).
  assert (aSuicided z = false ∧ emptyAcct z = emptyAcct x ∧ aBalance z = aBalance x ∧ aNonce z = aNonce x ∧ aFrozen z = aFrozen x)
    as (Hsz & He & Hb & Hn & Hf).
  { destruct Hxz as (Hn&Hb&Hc&_&_&Hf&Hsx&_). unfold emptyAcct. rewrite <-Hn, <-Hb, <-Hc, <-Hsx, <-Hf. done. }
  destruct (Finalise_keeps s1 a z HI1 ltac:(by rewrite Hv) Hz Hsz) as (H1 & H2 & H3 & H4).
  rewrite He in H1. rewrite Hb in H2. rewrite Hn in H3. rewrite Hf in H4. split_and!; [|done..].
  intros Hne. rewrite (H1 Hne). by constructor.
Qed.

Lemma ready_start s : sdInv s → emptyRootReads (db s) → ready s (abs s).
Proof. by split. Qed.

(** The source shard freezes. *)
Lemma apply_freeze s l shard stx :
  shard = txSourceShardID stx → txToFreeze stx = true →
  ApplyStateTransferTransaction txHash true s shard l (Some stx) =
    Some (Some (freeReceipt stx), Finalise (sourceFreeze s (txAddress stx)) true, l).
Proof. intros -> Hf. unfold ApplyStateTransferTransaction. by rewrite Z.eqb_refl, Hf. Qed.

(** The target shard installs. *)
Lemma apply_install s l shard stx balance :
  shard = txTargetShardID stx → txSourceShardID stx ≠ txTargetShardID stx → txToFreeze stx = false →
  txBalance stx = Some balance →
  ApplyStateTransferTransaction txHash true s shard l (Some stx) =
    Some (Some (freeReceipt stx), Finalise (targetInstall s (txAddress stx) balance (txNonce stx)) true,
          LoadMap.Finalise (remap l (txAddress stx) (txTargetShardID stx)) true).
Proof.
  intros -> Hne Hf Hb. unfold ApplyStateTransferTransaction.
  by rewrite (proj2 (Z.eqb_neq _ _) (not_eq_sym Hne)), Z.eqb_refl, Hf, Hb.
Qed.

Lemma frozen_after s a x :
  sdInv s → emptyRootReads (db s) → stateValidators s !! a = None →
  live (abs s) a = Some x → aSuicided x = false → emptyAcct x = false →
  let s' := Finalise (sourceFreeze s a) true in
  sdInv s' ∧ live (abs s') a ≡ Some (setFrz true x).
Proof.
  intros HI Hd Hv Hx Hs He s'. destruct (sourceFreeze_spec s (abs s) a (ready_start s HI Hd)) as [Hr Hval].
  rewrite (orBlank_live _ _ _ Hx) in Hr.
  destruct (install_finalise s _ a _ _ HI Hd Hr Hval Hv eq_refl) as (? & H1 & _); [exact (live_deleted (abs s) a x Hx)|done|].
  split; [done|by apply H1].
Qed.

(** The first transaction of a migration.  On the source shard it freezes an account that
    is not empty and not self-destructed, keeps its balance, nonce, code and storage, leaves the
    load map alone, and returns a successful receipt without gas. *)
Theorem freeze_transaction_freezes s l shard stx x :
  sdInv s → emptyRootReads (db s) → stateValidators s !! txAddress stx = None →
  shard = txSourceShardID stx → txToFreeze stx = true →
  live (abs s) (txAddress stx) = Some x → aSuicided x = false → emptyAcct x = false →
  ∃ s', ApplyStateTransferTransaction txHash true s shard l (Some stx) = Some (Some (freeReceipt stx), s', l) ∧
        sdInv s' ∧ live (abs s') (txAddress stx) ≡ Some (setFrz true x).
Proof.
  intros HI Hd Hv Hsh Hf Hx Hs He. eexists. split; [by apply apply_freeze|]. by apply frozen_after.
Qed.

(** Freezing an account that is empty or does not exist has no effect: [Finalise(true)]
    deletes the account that was just created, with its flag. *)
Theorem freeze_transaction_empty s l shard stx :
  sdInv s → emptyRootReads (db s) → stateValidators s = ∅ →
  shard = txSourceShardID stx → txToFreeze stx = true →
  emptyAcct (orBlank (abs s) (txAddress stx)) = true →
  ∃ s', ApplyStateTransferTransaction txHash true s shard l (Some stx) = Some (Some (freeReceipt stx), s', l) ∧
        live (abs s') (txAddress stx) = None.
Proof.
  intros HI Hd Hv Hsh Hf He. eexists. split; [by apply apply_freeze|]. set (a := txAddress stx) in *.
  destruct (sourceFreeze_spec s (abs s) a (ready_start s HI Hd)) as [[HI1 Hd1 Hw1] Hval].
  set (s1 := sourceFreeze s a) in *.
  assert (applyValidators s1 = s1) as Happ by (unfold applyValidators; by rewrite Hval, Hv, map_to_list_empty).
  pose proof (Finalise_accts s1 true a HI1) as Hacc. cbv zeta in Hacc. rewrite Happ in Hacc.
  assert (a ∈ touched s1) as Ht.
  { unfold s1, sourceFreeze, SetFreezeState. destruct (Exist s a) as [e s2] eqn:Ee.
    pose proof (Exist_ready s (abs s) a (ready_start s HI Hd)) as (_ & Hr2 & _). rewrite Ee in Hr2. simpl in Hr2.
    assert (∃ w3, ready (if e then s2 else SetBalance (CreateAccount s2 a) a 0) w3) as [w3 [HI3 _ _]].
    { destruct e; [by eexists|]. eexists. eapply (ready_op _ _ (OpSetBalance a 0)); [|done|done|done|done].
      by eapply (ready_op s2 _ (OpCreateAccount a)). }
    destruct (GetOrNew_stepped _ a HI3) as (es & o & s3 & -> & _ & _ & [Hoa _] & _).
    unfold touched, objSetFreezeState. simpl. rewrite Hoa. unfold incDirty. apply elem_of_intersection.
    split; apply elem_of_dom; rewrite lookup_insert_eq; eauto. }
  rewrite decide_True in Hacc by done. destruct Hw1 as [Hw1 _]. specialize (Hw1 a). cbn [accts putAcct] in Hw1.
  rewrite decide_True in Hw1 by done. symmetry in Hw1. destruct (option_Forall2_from_Some _ _ _ Hw1) as (z & Hz & Hxz).
  rewrite Hz in Hacc. cbn [fmap option_fmap option_map] in Hacc. symmetry in Hacc.
  destruct (option_Forall2_from_Some _ _ _ Hacc) as (y & Hy & Hzy).
  unfold live. rewrite Hy. cbn [mbind option_bind].
  assert (emptyAcct z = true) as Hez.
  { rewrite <-He. destruct Hxz as (Hn&Hb&Hc&_). unfold emptyAcct. by rewrite <-Hn, <-Hb, <-Hc. }
  destruct Hzy as (_&_&_&_&_&_&_&Hdel). unfold sweep in Hdel. rewrite Hez, orb_true_r in Hdel. simpl in Hdel. by rewrite <-Hdel.
Qed.

(** The second transaction, on the target shard: whatever the account held there before,
    also a frozen or missing one, it reads the balance and nonce of the transaction, is not
    frozen, and the load map sends the address to the target shard. *)
Theorem commit_transaction_installs s l shard stx balance :
  sdInv s → emptyRootReads (db s) → stateValidators s !! txAddress stx = None → lmInv l →
  shard = txTargetShardID stx → txSourceShardID stx ≠ txTargetShardID stx → txToFreeze stx = false →
  txBalance stx = Some balance →
  aSuicided (orBlank (abs s) (txAddress stx)) = false →
  (∀ o, LoadMap.liveView l (txAddress stx) = Some o → LoadMap.suicided o = false) →
  ∃ s' l', ApplyStateTransferTransaction txHash true s shard l (Some stx) = Some (Some (freeReceipt stx), s', l') ∧
    sdInv s' ∧ balanceOf (abs s') (txAddress stx) = balance ∧
    default 0 (aNonce <$> live (abs s') (txAddress stx)) = txNonce stx ∧ frozenAt (abs s') (txAddress stx) = false ∧
    (GetTargetShardID l' (txAddress stx)).1 = txTargetShardID stx.
Proof.
  intros HI Hd Hv Hl Hsh Hne Hf Hb Hsu Hlm. eexists _, _. split; [by apply apply_install|].
  destruct (targetInstall_spec s (abs s) (txAddress stx) balance (txNonce stx) (ready_start s HI Hd)) as [Hr Hval].
  destruct (install_finalise s _ _ _ _ HI Hd Hr Hval Hv eq_refl) as (? & _ & H2 & H3 & H4);
    [apply orBlank_deleted|done|].
  destruct (remap_spec l (txAddress stx) (txTargetShardID stx) Hl Hlm) as (_ & _ & o & Ho & Hos & Hto).
  split_and!; [done|done|done|by apply H4|]. rewrite (Finalise_reads _ _ o Ho Hos). exact Hto.
Qed.

Lemma commit_source_remaps s l shard stx :
  lmInv l → shard = txSourceShardID stx → txToFreeze stx = false →
  (∀ o, LoadMap.liveView l (txAddress stx) = Some o → LoadMap.suicided o = false) →
  ∃ l', ApplyStateTransferTransaction txHash true s shard l (Some stx) = Some (Some (freeReceipt stx), s, l') ∧
        (GetTargetShardID l' (txAddress stx)).1 = txTargetShardID stx.
Proof.
  intros Hl -> Hf Hlm. eexists. split.
  { unfold ApplyStateTransferTransaction. by rewrite Z.eqb_refl, Hf. }
  destruct (remap_spec l (txAddress stx) (txTargetShardID stx) Hl Hlm) as (_ & _ & o & Ho & Hos & Hto).
  rewrite (Finalise_reads _ _ o Ho Hos). exact Hto.
Qed.

Lemma Finalise_restarts s1 w :
  ready s1 w → validRevisions (Finalise s1 true) = [] ∧ emptyRootReads (db (Finalise s1 true)).
Proof.
  intros [HI Hd _]. destruct (Finalise_frame s1 true) as (Hdb & _ & _ & _ & _ & _ & _ & _ & Hv & _).
  destruct (applyValidators_spec s1 HI) as (_ & Hdb' & _). split; [done|]. by rewrite Hdb, Hdb'.
Qed.

(** C1: a whole migration inside the lifetime of the two databases.  After the freeze
    transaction on the source shard, and any program of operations there that does not thaw,
    reset or self-destruct the account, a commit transaction that carries the balance and nonce
    then read on the source shard installs on the target shard exactly the balance and nonce
    the account had before the freeze, not frozen, and both load maps send the address to the
    target shard. *)
Theorem migration_moves_account s l stx x :
  let a := txAddress stx in
  sdInv s → emptyRootReads (db s) → stateValidators s !! a = None →
  txToFreeze stx = true → live (abs s) a = Some x → aSuicided x = false → emptyAcct x = false →
  ∃ s', ApplyStateTransferTransaction txHash true s (txSourceShardID stx) l (Some stx) =
          Some (Some (freeReceipt stx), s', l) ∧
  ∀ ops s'' t lt stx2,
    Forall (λ op, ¬ unrestricted op a) ops → sdRun s' ops = Some s'' →
    txAddress stx2 = a → txSourceShardID stx2 ≠ txTargetShardID stx2 → txToFreeze stx2 = false →
    txBalance stx2 = Some (balanceOf (abs s'') a) → txNonce stx2 = default 0 (aNonce <$> live (abs s'') a) →
    sdInv t → emptyRootReads (db t) → stateValidators t !! a = None → aSuicided (orBlank (abs t) a) = false →
    lmInv l → lmInv lt →
    (∀ o, LoadMap.liveView l a = Some o → LoadMap.suicided o = false) →
    (∀ o, LoadMap.liveView lt a = Some o → LoadMap.suicided o = false) →
    ∃ t' lt' l', ApplyStateTransferTransaction txHash true t (txTargetShardID stx2) lt (Some stx2) =
               Some (Some (freeReceipt stx2), t', lt') ∧
      ApplyStateTransferTransaction txHash true s'' (txSourceShardID stx2) l (Some stx2) =
               Some (Some (freeReceipt stx2), s'', l') ∧
      balanceOf (abs t') a = aBalance x ∧ default 0 (aNonce <$> live (abs t') a) = aNonce x ∧
      frozenAt (abs t') a = false ∧ (GetTargetShardID lt' a).1 = txTargetShardID stx2 ∧
      (GetTargetShardID l' a).1 = txTargetShardID stx2.
Proof.
  intros a HI Hd Hv Hf Hx Hs He. eexists. split; [by apply apply_freeze|]. fold a.
  destruct (frozen_after s a x HI Hd Hv Hx Hs He) as [HI' Hl].
  destruct (sourceFreeze_spec s (abs s) a (ready_start s HI Hd)) as [Hr _].
  destruct (Finalise_restarts _ _ Hr) as [Hrev Hd'].
  symmetry in Hl. destruct (option_Forall2_from_Some _ _ _ Hl) as (z & Hz & Hxz).
  intros ops s'' t lt stx2 Hops Hrun Ha Hne Hf2 Hb Hn HIt Hdt Hvt Hst Hll Hllt Hsl Hslt.
  destruct (frozen_run _ ops s'' a z HI' Hrev Hd' Hz) as (y & Hy & Hyz); [symmetry; apply Hxz|done|done|].
  assert (aBalance y = aBalance x ∧ aNonce y = aNonce x) as [Hby Hny].
  { destruct Hyz as (-> & -> & _), Hxz as (Hzn & Hzb & _). simpl in *. by rewrite <-Hzn, <-Hzb. }
  unfold balanceOf in Hb. rewrite Hy in Hb, Hn. simpl in Hb, Hn.
  destruct (commit_source_remaps s'' l (txSourceShardID stx2) stx2 Hll eq_refl Hf2 ltac:(by rewrite Ha)) as (l' & Hl' & Hlt').
  subst a. rewrite <-Ha in *.
  destruct (targetInstall_spec t (abs t) (txAddress stx2) (aBalance y) (txNonce stx2) (ready_start t HIt Hdt)) as [Hrt Hvalt].
  destruct (install_finalise t _ _ _ _ HIt Hdt Hrt Hvalt Hvt eq_refl) as (_ & _ & H2 & H3 & H4);
    [apply orBlank_deleted|done|].
  destruct (remap_spec lt (txAddress stx2) (txTargetShardID stx2) Hllt Hslt) as (_ & _ & o & Ho & Hos & Hto).
  eexists _, _, l'. split; [by apply (apply_install t lt _ stx2 (aBalance y))|].
  split_and!; [done|by rewrite <-Hby|by rewrite H3, <-Hny|by apply H4| |done].
  rewrite (Finalise_reads _ _ o Ho Hos). exact Hto.
Qed.
End properties.

(** * Concrete runs *)
#[local] Existing Instances mapTrie StateDB.demoCodec demoValidators LoadMap.demoCodec.

(** Account 1 (balance 100, nonce 5) moves from shard 0 to shard 1; account 9 does not exist. *)
Definition demoHash (stx : txdata) : Hash := 7000 + stxIndex stx.
Definition freezeTx (a : Address) : txdata := NewStateTransferTransaction 0 1 0 a (Some 0) 0 [] true 3.
Definition commitTx (balance : Z) : txdata := NewStateTransferTransaction 0 1 12 1 (Some balance) 5 [] false 3.

Lemma demo_live : ∃ x, live (abs StateDB.demoDB) 1 = Some x ∧ aBalance x = 100 ∧ aSuicided x = false ∧ emptyAcct x = false.
Proof. rewrite live_abs. eexists. split; [vm_compute; reflexivity|]. by split_and!. Qed.

Lemma demo_loadMap : lmInv LoadMap.demoDB.
Proof. apply (lm_New_inv 7 LoadMap.demoDatabase LoadMap.demoDB lm_demoDB_New). Qed.

Lemma demo_mapAlive a o : LoadMap.liveView LoadMap.demoDB a = Some o → LoadMap.suicided o = false.
Proof.
  intros [Hv _]%liveView_deleted. unfold LoadMap.view in Hv.
  change (loadMapObjects LoadMap.demoDB) with (∅ : gmap Z loadMapObject) in Hv. rewrite lookup_empty in Hv.
  unfold LoadMap.loadObject in Hv. destruct (TryGet _ a); [done|]. case_decide; [done|].
  by apply fmap_Some in Hv as (d & _ & ->).
Qed.

Lemma freeze_transaction_freezes_witness :
  ∃ x s', live (abs StateDB.demoDB) 1 = Some x ∧
    ApplyStateTransferTransaction demoHash true StateDB.demoDB 0 LoadMap.demoDB (Some (freezeTx 1)) =
      Some (Some (freeReceipt demoHash (freezeTx 1)), s', LoadMap.demoDB) ∧
    live (abs s') 1 ≡ Some (setFrz true x).
Proof.
  destruct demo_live as (x & Hx & _ & Hs & He).
  destruct (freeze_transaction_freezes demoHash StateDB.demoDB LoadMap.demoDB 0 (freezeTx 1) x) as (s' & Ha & _ & Hl);
    [apply demo_inv|apply demo_emptyRoot|reflexivity|reflexivity|reflexivity|exact Hx|exact Hs|exact He|].
  exists x, s'. split_and!; [exact Hx|exact Ha|exact Hl].
Defined.

Lemma freeze_transaction_empty_witness :
  ∃ s', ApplyStateTransferTransaction demoHash true StateDB.demoDB 0 LoadMap.demoDB (Some (freezeTx 9)) =
      Some (Some (freeReceipt demoHash (freezeTx 9)), s', LoadMap.demoDB) ∧ live (abs s') 9 = None.
Proof.
  apply (freeze_transaction_empty demoHash StateDB.demoDB LoadMap.demoDB 0 (freezeTx 9));
    [apply demo_inv|apply demo_emptyRoot|reflexivity|reflexivity|reflexivity|vm_compute; reflexivity].
Defined.

Lemma commit_transaction_installs_witness :
  ∃ s' l', ApplyStateTransferTransaction demoHash true frozenDB 1 LoadMap.demoDB (Some (commitTx 250)) =
      Some (Some (freeReceipt demoHash (commitTx 250)), s', l') ∧
    balanceOf (abs s') 1 = 250 ∧ frozenAt (abs s') 1 = false ∧ (GetTargetShardID l' 1).1 = 1.
Proof.
  destruct (commit_transaction_installs demoHash frozenDB LoadMap.demoDB 1 (commitTx 250) 250) as (s' & l' & Ha & _ & Hb & _ & Hf & Ht);
    [apply frozen_inv|apply frozen_inv|reflexivity|apply demo_loadMap|reflexivity|discriminate|reflexivity|reflexivity
    |vm_compute; reflexivity|apply demo_mapAlive|].
  exists s', l'. split_and!; [exact Ha|exact Hb|exact Hf|exact Ht].
Defined.

(** The program between the two transactions: payments to and from the frozen account. *)
Definition betweenOps : list sdOp := [OpAddBalance 1 40; OpSubBalance 1 3; OpAddBalance 2 1].

Lemma migration_moves_account_witness :
  ∃ s' s'', ApplyStateTransferTransaction demoHash true StateDB.demoDB 0 LoadMap.demoDB (Some (freezeTx 1)) =
      Some (Some (freeReceipt demoHash (freezeTx 1)), s', LoadMap.demoDB) ∧
    sdRun s' betweenOps = Some s'' ∧
    ∃ t' lt' l', ApplyStateTransferTransaction demoHash true StateDB.demoDB 1 LoadMap.demoDB (Some (commitTx 100)) =
      Some (Some (freeReceipt demoHash (commitTx 100)), t', lt') ∧
    ApplyStateTransferTransaction demoHash true s'' 0 LoadMap.demoDB (Some (commitTx 100)) =
      Some (Some (freeReceipt demoHash (commitTx 100)), s'', l') ∧
    balanceOf (abs t') 1 = 100 ∧ (GetTargetShardID lt' 1).1 = 1.
Proof.
  destruct demo_live as (x & Hx & Hb & Hs & He).
  destruct (migration_moves_account demoHash StateDB.demoDB LoadMap.demoDB (freezeTx 1) x) as (s' & Ha & Hrest);
    [apply demo_inv|apply demo_emptyRoot|reflexivity|reflexivity|exact Hx|exact Hs|exact He|].
  pose proof Ha as Ha'. rewrite (apply_freeze demoHash) in Ha' by reflexivity. injection Ha' as <-.
  set (s' := Finalise (sourceFreeze StateDB.demoDB (txAddress (freezeTx 1))) true) in *.
  destruct (eval_Some (sdRun s' betweenOps) (λ s'', (balanceOf (abs s'') 1 =? 100) &&
    (default 0 (aNonce <$> live (abs s'') 1) =? 5))) as (s'' & E & Hb''); [vm_compute; reflexivity|].
  apply andb_true_iff in Hb'' as [Hb1%Z.eqb_eq Hn1%Z.eqb_eq].
  destruct (Hrest betweenOps s'' StateDB.demoDB LoadMap.demoDB (commitTx 100)) as (t' & lt' & l' & H1 & H2 & H3 & _ & _ & H5 & _);
    [unfold betweenOps; rewrite !Forall_cons, Forall_nil; split_and!; (exact I || intros [])|exact E|reflexivity|discriminate|reflexivity|simpl; by rewrite Hb1|symmetry; exact Hn1
    |apply demo_inv|apply demo_emptyRoot|reflexivity|vm_compute; reflexivity|apply demo_loadMap|apply demo_loadMap
    |apply demo_mapAlive|apply demo_mapAlive|].
  exists s', s''. split_and!; [exact Ha|exact E|]. exists t', lt', l'.
  split_and!; [exact H1|exact H2|by rewrite <-Hb|exact H5].
Defined.
