(* ===== verification/CommitPool.v ===== *)
(** * The commit pool of a follower (atomic/commit_pool.go, commit_handler.go, types/commit_cache.go)

    A follower of the two-phase commit keeps three caches of state-transfer transactions: those
    proposed and not yet frozen in a block ([freezeCache]), those frozen ([cached]) and those
    that the coordinator committed ([committed]).  The block producer takes transactions from
    the first and the last; [reset], which runs when a block is inserted, moves them on and
    wakes the handler that waits for the block, through an unbuffered channel per index.

    The data of the pool is a record with one definition per method.  The goroutines of a
    follower (the event loop that runs [reset] under the pool's mutex, one handler per request,
    the block producer and the chain) are interleaved by the executable function [nodeStep],
    whose events are the points at which a goroutine is scheduled: a handler that needs the
    mutex while [reset] holds it is [Blocked], and so is a send without a receiver.  Reads of
    the maps that the code makes without the mutex are atomic steps of their own, with two
    exceptions: [EvAdd] does [addCommittedTransaction] and the deletion from [cached] that the
    handler makes right after releasing the mutex in one step, and [EvHead] reads the current
    block, which [reset] reads again later while it holds the mutex.  RLP of the
    state data is a parameter, and what the pending state holds is chosen by the event that
    reads it; logging and the periodic report are left out. *)

From Stdlib Require Import ZArith Lia.
From stdpp Require Import base gmap list option sets.
From S2P Require Import Prelude Trie Journal LoadMap StateDB Accounts StateCommit StateTransfer.
Local Open Scope Z_scope.

(** ** [CacheShard] *)
Abbreviation CacheShard := (gmap Z txdata).
Definition NewCache : CacheShard := ∅.
Definition cacheSet (c : CacheShard) (index : Z) (tx : txdata) : CacheShard := <[index := tx]> c.
Definition cacheGet (c : CacheShard) (index : Z) : option txdata := c !! index.
Definition cacheDelete (c : CacheShard) (index : Z) : CacheShard := delete index c.
Definition Count (c : CacheShard) : Z := Z.of_nat (size c).

(** [Range]: the calls of [f] in the order of the iteration, which stops at the first [false]. *)
Fixpoint rangeWith {S} (f : Z → txdata → S → bool * S) (kvs : list (Z * txdata)) (s : S) : S :=
  match kvs with
  | [] => s
  | (k, v) :: rest => let '(go, s') := f k v s in if go : bool then rangeWith f rest s' else s'
  end.
Definition cacheRange {S} (c : CacheShard) (f : Z → txdata → S → bool * S) (s : S) : S :=
  rangeWith f (map_to_list c) s.

(** ** The pool *)
Definition minProcessSttxNum : Z := 1.

(** A channel that was made, open or closed; a missing entry of the map is a nil channel. *)
Inductive chanState := chanOpen | chanClosed.
#[export] Instance chanState_eq_dec : EqDecision chanState.
Proof. solve_decision. Defined.

Record CommitPool := mkPool {
  freezeCache : CacheShard;
  cached : CacheShard;
  committed : CacheShard;
  Signal : gmap Z chanState;
  committedTxList : gmap Z Z;
  freezeReadTxList : gmap Z Z;
  committedReadTxList : gmap Z Z;
}.

Definition setFreezeCache (p : CommitPool) c : CommitPool :=
  mkPool c (cached p) (committed p) (Signal p) (committedTxList p) (freezeReadTxList p) (committedReadTxList p).
Definition setCached (p : CommitPool) c : CommitPool :=
  mkPool (freezeCache p) c (committed p) (Signal p) (committedTxList p) (freezeReadTxList p) (committedReadTxList p).
Definition setCommitted (p : CommitPool) c : CommitPool :=
  mkPool (freezeCache p) (cached p) c (Signal p) (committedTxList p) (freezeReadTxList p) (committedReadTxList p).
Definition setSignals (p : CommitPool) c : CommitPool :=
  mkPool (freezeCache p) (cached p) (committed p) c (committedTxList p) (freezeReadTxList p) (committedReadTxList p).
Definition setCommittedTxList (p : CommitPool) c : CommitPool :=
  mkPool (freezeCache p) (cached p) (committed p) (Signal p) c (freezeReadTxList p) (committedReadTxList p).
Definition setFreezeRead (p : CommitPool) c : CommitPool :=
  mkPool (freezeCache p) (cached p) (committed p) (Signal p) (committedTxList p) c (committedReadTxList p).
Definition setCommittedRead (p : CommitPool) c : CommitPool :=
  mkPool (freezeCache p) (cached p) (committed p) (Signal p) (committedTxList p) (freezeReadTxList p) c.

(** The callback of [FreezeCache] and [Committed]: take what was not read before. *)
Definition takeUnread (index : Z) (tx : txdata) (acc : list txdata * gmap Z Z) : bool * (list txdata * gmap Z Z) :=
  let '(cache, read) := acc in
  match read !! index with
  | Some _ => (true, acc)
  | None => (true, (cache ++ [tx], <[index := 1]> read))
  end.

Definition FreezeCache (p : CommitPool) : list txdata * CommitPool :=
  if Count (freezeCache p) <? minProcessSttxNum then ([], p)
  else
    let '(cache, read) := cacheRange (freezeCache p) takeUnread ([], freezeReadTxList p) in
    (cache, setFreezeRead p read).

Definition Committed (p : CommitPool) : list txdata * CommitPool :=
  if Count (committed p) <? minProcessSttxNum then ([], p)
  else
    let '(cache, read) := cacheRange (committed p) takeUnread ([], committedReadTxList p) in
    (cache, setCommittedRead p read).

Definition Cached (p : CommitPool) : list txdata :=
  cacheRange (cached p) (λ _ tx cache, (true, cache ++ [tx])) [].
Definition CachedById (p : CommitPool) (index : Z) : option txdata := cacheGet (cached p) index.

Definition addTxFreeze (p : CommitPool) (tx : txdata) : CommitPool :=
  setFreezeCache p (cacheSet (freezeCache p) (stxIndex tx) tx).
Definition deleteTxFromFreeze (p : CommitPool) (index : Z) : CommitPool :=
  setFreezeCache p (cacheDelete (freezeCache p) index).
Definition addTxCached (p : CommitPool) (tx : txdata) : CommitPool :=
  setCached p (cacheSet (cached p) (stxIndex tx) tx).
Definition deleteTxFromCached (p : CommitPool) (index : Z) : CommitPool :=
  setCached p (cacheDelete (cached p) index).
Definition addTxCommitted (p : CommitPool) (tx : txdata) : CommitPool :=
  setCommitted p (cacheSet (committed p) (stxIndex tx) tx).
Definition deleteTxFromCommitted (p : CommitPool) (index : Z) : CommitPool :=
  setCommitted p (cacheDelete (committed p) index).

(** *** Signals *)
Definition InitSignal (p : CommitPool) (index : Z) : CommitPool := setSignals p (<[index := chanOpen]> (Signal p)).
Definition GetSignal (p : CommitPool) (index : Z) : bool := match Signal p !! index with Some _ => true | None => false end.

(** Closing a nil or a closed channel panics. *)
Definition CloseSignal (p : CommitPool) (index : Z) : option CommitPool :=
  match Signal p !! index with
  | Some chanOpen => Some (setSignals p (<[index := chanClosed]> (Signal p)))
  | _ => None
  end.

Definition CloseAllSignal (p : CommitPool) : option CommitPool :=
  if decide (map_Forall (λ _ c, c = chanOpen) (Signal p)) then Some (setSignals p ((λ _, chanClosed) <$> Signal p))
  else None.

Definition RecordCommittedTx (p : CommitPool) (index : Z) : CommitPool :=
  setCommittedTxList p (<[index := 1]> (committedTxList p)).
Definition GetCommittedTx (p : CommitPool) (index : Z) : option Z := committedTxList p !! index.

(** *** Adding transactions *)
Definition addFreezeTransaction (p : CommitPool) (index source target : Z) (address : Address) : CommitPool :=
  let newTx := NewStateTransferTransaction source target 0 address (Some 0) 0 [] true index in
  let p1 := addTxFreeze p newTx in
  if GetSignal p1 index then p1 else InitSignal p1 index.

Definition addCachedTransaction (p : CommitPool) (tx : txdata) : CommitPool :=
  let newTx := SetToFreeze (CopyTx tx) false in
  match cacheGet (cached p) (stxIndex tx) with
  | None => addTxCached p newTx
  | Some _ => p
  end.

(** The account data of a commit request; [None] is a nil balance. *)
Record StateData := mkStateData { sdAddress : Address; sdBalance : option Z; sdNonce : Z; sdData : bytes; sdBlockHeight : Z }.
Definition zeroStateData : StateData := mkStateData 0 None 0 [] 0.

Definition addCommittedTransaction (p : CommitPool) (source target : Z) (addr : Address) (index : Z) (s : StateData)
    : CommitPool :=
  let newTx := NewStateTransferTransaction source target (sdBlockHeight s) addr (sdBalance s) (sdNonce s) (sdData s)
                 false index in
  match cacheGet (committed p) index with
  | None => addTxCommitted p newTx
  | Some _ => p
  end.

(** ** [reset] *)
Record blk := mkBlk { bHash : Hash; bParent : Hash; bNumber : Z; bSttxs : list txdata }.

(** Whether [reset] gets to the transactions: the new head extends the old one or is more than
    64 blocks away from it (block numbers below [2^53], where their conversion to float is
    exact), and the two state databases open. *)
Definition resetProceeds (oldHead : option blk) (newHead : blk) (loadMapAt stateAt : bool) : bool :=
  match oldHead with
  | Some old =>
      if negb (bHash old =? bParent newHead) && (Z.abs (bNumber old - bNumber newHead) <=? 64) then false
      else loadMapAt && stateAt
  | None => loadMapAt && stateAt
  end.

(** One transaction of the current block: the part before the channel send with the value to
    send, if any, and the part after it. *)
Definition resetBefore (p : CommitPool) (sttx : txdata) : CommitPool * option Z :=
  let index := stxIndex sttx in
  if txToFreeze sttx then
    let p1 := addCachedTransaction p sttx in
    let p2 := setFreezeRead p1 (<[index := 1]> (freezeReadTxList p1)) in
    match cacheGet (freezeCache p2) index with
    | Some _ => (if GetSignal p2 index then p2 else InitSignal p2 index, Some 1)
    | None => (p2, None)
    end
  else
    let p1 := setCommittedRead p (<[index := 1]> (committedReadTxList p)) in
    match cacheGet (committed p1) index with
    | Some _ => (p1, Some 2)
    | None => (p1, None)
    end.

Definition resetAfter (p : CommitPool) (sttx : txdata) (sent : bool) : CommitPool :=
  let index := stxIndex sttx in
  if txToFreeze sttx then (if sent then deleteTxFromFreeze p index else p)
  else RecordCommittedTx (deleteTxFromCommitted p index) index.

(** A pool starts with the transactions of the current block; its caches are empty, so nothing
    is sent. *)
Definition emptyPool : CommitPool := mkPool NewCache NewCache NewCache ∅ ∅ ∅ ∅.
Definition resetSilent (p : CommitPool) (sttx : txdata) : CommitPool := resetAfter (resetBefore p sttx).1 sttx false.
Definition NewCommitPool (current : blk) (loadMapAt stateAt : bool) : CommitPool :=
  if resetProceeds None current loadMapAt stateAt then foldl resetSilent emptyPool (bSttxs current) else emptyPool.

(** ** Requests, replies and handlers *)
Record ProposeRequest := mkProposeRequest { prIndex : Z; prSource : Z; prTarget : Z; prPayload : Address }.
Record CommitRequest := mkCommitRequest { crIndex : Z; crSource : Z; crTarget : Z; crAddress : Address; crPayload : bytes }.

Inductive AckType := ACK | NACK.
#[export] Instance AckType_eq_dec : EqDecision AckType.
Proof. solve_decision. Defined.
Inductive FollowerType := SOURCE | TARGET.
#[export] Instance FollowerType_eq_dec : EqDecision FollowerType.
Proof. solve_decision. Defined.

Inductive reply :=
| ProposeReply (ack : AckType) (index : Z) (ftype : FollowerType) (address : Address) (payload : bytes)
| CommitReply (ack : AckType) (index : Z) (ftype : FollowerType)
| CommitError (index : Z).

(** Where the goroutine of a request is.  [ch] tells whether the channel that its [select]
    evaluated was made at that time; a receive from a nil channel never proceeds. *)
Inductive handler :=
| Proposing (req : ProposeRequest)                                   (* [FollowerType] is set *)
| Freezing (req : ProposeRequest)                                    (* in [addFreezeTransaction] *)
| WaitPropose (ftype : FollowerType) (req : ProposeRequest) (ch : bool)   (* in the [select] *)
| ClosePropose (ftype : FollowerType) (req : ProposeRequest)         (* in [CloseSignal], then NACK *)
| Committing (req : CommitRequest)                                   (* in [addCommittedTransaction] *)
| WaitCommit (req : CommitRequest) (ch : bool)                       (* in the [select] *)
| CloseCommit (req : CommitRequest)                                  (* in [CloseSignal], then ACK *)
| Replied (r : reply).

(** The channel a handler receives from. *)
Definition listens (h : handler) : option Z :=
  match h with
  | WaitPropose _ req true => Some (prIndex req)
  | WaitCommit req true => Some (crIndex req)
  | _ => None
  end.

(** A follower: its pool, its shared [FollowerType], the chain's current block, the head events
    not yet taken, the loop's [head], the transactions the running [reset] has left and the
    value it is sending, and the handlers by goroutine. *)
Record node := mkNode {
  shardID : Z;
  pool : CommitPool;
  followerType : FollowerType;
  current : blk;
  queue : list blk;
  head : blk;
  locked : bool;
  todo : list txdata;
  sending : option Z;
  handlers : gmap nat handler;
}.

Definition newNode (shard : Z) (b : blk) : node :=
  mkNode shard (NewCommitPool b true true) SOURCE b [] b false [] None ∅.

Definition setPool (n : node) p : node :=
  mkNode (shardID n) p (followerType n) (current n) (queue n) (head n) (locked n) (todo n) (sending n) (handlers n).
Definition setFollowerType (n : node) ft : node :=
  mkNode (shardID n) (pool n) ft (current n) (queue n) (head n) (locked n) (todo n) (sending n) (handlers n).
Definition setChain (n : node) cur q hd : node :=
  mkNode (shardID n) (pool n) (followerType n) cur q hd (locked n) (todo n) (sending n) (handlers n).
Definition setReset (n : node) l t s : node :=
  mkNode (shardID n) (pool n) (followerType n) (current n) (queue n) (head n) l t s (handlers n).
Definition setHandler (n : node) (t : nat) (h : handler) : node :=
  mkNode (shardID n) (pool n) (followerType n) (current n) (queue n) (head n) (locked n) (todo n) (sending n)
    (<[t := h]> (handlers n)).

Definition chainHeadChanSize : nat := 100.

Inductive event :=
| EvPropose (t : nat) (req : ProposeRequest)   (* a propose request arrives *)
| EvCheck (t : nat)                            (* [HandleStateTransferMsg] looks into [cached] *)
| EvFreeze (t : nat)                           (* [addFreezeTransaction] gets the mutex *)
| EvCommit (t : nat) (req : CommitRequest)     (* a commit request arrives, up to the mutex *)
| EvAdd (t : nat)                              (* [addCommittedTransaction] gets the mutex *)
| EvTimeout (t : nat)                          (* ten minutes passed in the [select] *)
| EvClosed (t : nat)                           (* the [select] receives from a closed channel *)
| EvClose (t : nat)                            (* [CloseSignal] gets the mutex *)
| EvInsert (b : blk)                           (* the chain inserts a block and posts the event *)
| EvHead (loadMapAt stateAt : bool)            (* the loop takes an event and the mutex *)
| EvReset                                      (* [reset], the next transaction up to the send *)
| EvSignal (t : nat) (balance nonce : Z)       (* the send meets a receiver, which reads the state *)
| EvUnlock                                     (* [reset] returns *)
| EvFreezeCache                                (* the block producer reads [FreezeCache] *)
| EvCommitted                                  (* the block producer reads [Committed] *)
| EvStop.                                      (* [Stop] closes every channel *)

Inductive outcome := Next (n : node) | Blocked | Panics.

(** ** The steps of a follower *)
Section follower.
Context (encodeState : StateData → bytes) (decodeState : bytes → option StateData).

Definition addCommitted (p : CommitPool) (req : CommitRequest) : CommitPool :=
  addCommittedTransaction p (crSource req) (crTarget req) (crAddress req) (crIndex req)
    (default zeroStateData (decodeState (crPayload req))).

(** What a handler in its [select] does with a received value. *)
Definition receive (n : node) (t : nat) (v balance nonce : Z) (h : handler) : option node :=
  match h with
  | WaitPropose SOURCE req true =>
      if v =? 1 then
        let rlpState := encodeState (mkStateData (prPayload req) (Some balance) nonce [] 0) in
        Some (setHandler n t (Replied (ProposeReply ACK (prIndex req) (followerType n) (prPayload req) rlpState)))
      else Some (setHandler n t (ClosePropose SOURCE req))
  | WaitPropose TARGET req true =>
      if v =? 1 then Some (setHandler n t (Replied (ProposeReply ACK (prIndex req) TARGET (prPayload req) [])))
      else Some n
  | WaitCommit req true => if v =? 2 then Some (setHandler n t (CloseCommit req)) else Some n
  | _ => None
  end.

Definition isClosed (p : CommitPool) (index : Z) : bool :=
  match Signal p !! index with Some chanClosed => true | _ => false end.

(** The steps of a handler. *)
Definition handlerStep (n : node) (t : nat) (h : handler) (ev : event) : outcome :=
  match ev, h with
  | EvCheck _, Proposing req =>
      match cacheGet (cached (pool n)) (prIndex req) with
      | None => Next (setHandler n t (Freezing req))
      | Some _ => Next (setHandler n t (WaitPropose (followerType n) req (GetSignal (pool n) (prIndex req))))
      end
  | EvFreeze _, Freezing req =>
      if locked n then Blocked
      else
        let p := addFreezeTransaction (pool n) (prIndex req) (prSource req) (prTarget req) (prPayload req) in
        Next (setHandler (setPool n p) t (WaitPropose (followerType n) req (GetSignal p (prIndex req))))
  | EvAdd _, Committing req =>
      if locked n then Blocked
      else
        let p := deleteTxFromCached (addCommitted (pool n) req) (crIndex req) in
        Next (setHandler (setPool n p) t (WaitCommit req (GetSignal p (crIndex req))))
  | EvTimeout _, WaitPropose ft req ch =>
      if ch && isClosed (pool n) (prIndex req) then Blocked else Next (setHandler n t (ClosePropose ft req))
  | EvTimeout _, WaitCommit req ch =>
      if ch && isClosed (pool n) (crIndex req) then Blocked else Next (setHandler n t (CloseCommit req))
  | EvClosed _, _ =>
      match listens h with
      | Some index =>
          if isClosed (pool n) index then
            match receive n t 0 0 0 h with Some n' => Next n' | None => Blocked end
          else Blocked
      | None => Blocked
      end
  | EvClose _, ClosePropose ft req =>
      if locked n then Blocked
      else
        match CloseSignal (pool n) (prIndex req) with
        | Some p => Next (setHandler (setPool n p) t
                            (Replied (ProposeReply NACK (prIndex req) (followerType n) (prPayload req) [])))
        | None => Panics
        end
  | EvClose _, CloseCommit req =>
      if locked n then Blocked
      else
        match CloseSignal (pool n) (crIndex req) with
        | Some p => Next (setHandler (setPool n p) t (Replied (CommitReply ACK (crIndex req) (followerType n))))
        | None => Panics
        end
  | _, _ => Blocked
  end.

Definition onHandler (n : node) (t : nat) (ev : event) : outcome :=
  match handlers n !! t with Some h => handlerStep n t h ev | None => Blocked end.

(** A request arrives in a goroutine of its own. *)
Definition arrive (n : node) (t : nat) (n' : node) : outcome :=
  match handlers n !! t with Some _ => Blocked | None => Next n' end.

Definition proposeArrives (n : node) (t : nat) (req : ProposeRequest) : node :=
  setHandler (setFollowerType n (if prTarget req =? shardID n then TARGET else SOURCE)) t (Proposing req).

Definition commitArrives (n : node) (t : nat) (req : CommitRequest) : node :=
  let drop := deleteTxFromCached (pool n) (crIndex req) in
  match CachedById (pool n) (crIndex req) with
  | None => setHandler (setPool n drop) t (Replied (CommitError (crIndex req)))
  | Some _ =>
      match GetCommittedTx (pool n) (crIndex req) with
      | None => setHandler n t (Committing req)
      | Some _ => setHandler (setPool n drop) t (WaitCommit req (GetSignal drop (crIndex req)))
      end
  end.

(** The steps of the event loop. *)
Definition takeHead (n : node) (loadMapAt stateAt : bool) : outcome :=
  match locked n, queue n with
  | false, b :: rest =>
      let work := if resetProceeds (Some (head n)) b loadMapAt stateAt then bSttxs (current n) else [] in
      Next (setReset (setChain n (current n) rest b) true work None)
  | _, _ => Blocked
  end.

Definition resetNext (n : node) : outcome :=
  match locked n, sending n, todo n with
  | true, None, sttx :: rest =>
      match resetBefore (pool n) sttx with
      | (p, Some v) => Next (setReset (setPool n p) true (sttx :: rest) (Some v))
      | (p, None) => Next (setReset (setPool n (resetAfter p sttx false)) true rest None)
      end
  | _, _, _ => Blocked
  end.

Definition signalNext (n : node) (t : nat) (balance nonce : Z) : outcome :=
  match sending n, todo n with
  | Some v, sttx :: rest =>
      match Signal (pool n) !! stxIndex sttx with
      | None => Blocked
      | Some chanClosed => Panics
      | Some chanOpen =>
          match handlers n !! t with
          | Some h =>
              if decide (listens h = Some (stxIndex sttx)) then
                match receive n t v balance nonce h with
                | Some n1 => Next (setReset (setPool n1 (resetAfter (pool n1) sttx true)) true rest None)
                | None => Blocked
                end
              else Blocked
          | None => Blocked
          end
      end
  | _, _ => Blocked
  end.

Definition nodeStep (n : node) (ev : event) : outcome :=
  match ev with
  | EvPropose t req => arrive n t (proposeArrives n t req)
  | EvCommit t req => arrive n t (commitArrives n t req)
  | EvCheck t | EvFreeze t | EvAdd t | EvTimeout t | EvClosed t | EvClose t => onHandler n t ev
  | EvInsert b =>
      if decide (length (queue n) < chainHeadChanSize)%nat then Next (setChain n b (queue n ++ [b]) (head n)) else Blocked
  | EvHead loadMapAt stateAt => takeHead n loadMapAt stateAt
  | EvReset => resetNext n
  | EvSignal t balance nonce => signalNext n t balance nonce
  | EvUnlock =>
      match locked n, sending n, todo n with
      | true, None, [] => Next (setReset n false [] None)
      | _, _, _ => Blocked
      end
  | EvFreezeCache => if locked n then Blocked else Next (setPool n (FreezeCache (pool n)).2)
  | EvCommitted => if locked n then Blocked else Next (setPool n (Committed (pool n)).2)
  | EvStop => match CloseAllSignal (pool n) with Some p => Next (setPool n p) | None => Panics end
  end.

Fixpoint nodeRun (n : node) (evs : list event) : outcome :=
  match evs with
  | [] => Next n
  | ev :: rest => match nodeStep n ev with Next n' => nodeRun n' rest | o => o end
  end.

(** What the block producer was handed in a run, in order: freeze and commit transactions. *)
Definition handedFreeze (n : node) (ev : event) : list txdata :=
  match ev with EvFreezeCache => (FreezeCache (pool n)).1 | _ => [] end.
Definition handedCommit (n : node) (ev : event) : list txdata :=
  match ev with EvCommitted => (Committed (pool n)).1 | _ => [] end.
Fixpoint handed (out : node → event → list txdata) (n : node) (evs : list event) : list txdata :=
  match evs with
  | [] => []
  | ev :: rest => match nodeStep n ev with Next n' => out n ev ++ handed out n' rest | _ => [] end
  end.

End follower.

(** ** The invariant of the pool

    The caches are keyed by the index of what they hold; what waits to be frozen is marked so
    and has a channel, the rest is not marked. *)
Definition cacheOk (freeze : bool) (c : CacheShard) : Prop :=
  ∀ i tx, c !! i = Some tx → stxIndex tx = i ∧ txToFreeze tx = freeze.

Definition poolInv (p : CommitPool) : Prop :=
  cacheOk true (freezeCache p) ∧ cacheOk false (cached p) ∧ cacheOk false (committed p)
  ∧ (∀ i, is_Some (freezeCache p !! i) → is_Some (Signal p !! i)).

Lemma cacheOk_set b c tx : cacheOk b c → txToFreeze tx = b → cacheOk b (cacheSet c (stxIndex tx) tx).
Proof. unfold cacheSet. intros H Hb i tx' [[<- <-]|[_ Hi]]%lookup_insert_Some; auto. Qed.

Lemma cacheOk_delete b c i : cacheOk b c → cacheOk b (cacheDelete c i).
Proof. unfold cacheDelete. intros H j tx [_ Hj]%lookup_delete_Some. auto. Qed.

Lemma signals_mono (p : CommitPool) s :
  (∀ i, is_Some (Signal p !! i) → is_Some (s !! i)) → poolInv p → poolInv (setSignals p s).
Proof. intros Hs (H1 & H2 & H3 & H4). split; [done|split; [done|split; [done|]]]. intros i Hi. by apply Hs, H4. Qed.

Lemma InitSignal_inv p i : poolInv p → poolInv (InitSignal p i).
Proof. apply signals_mono. intros j Hj. destruct (decide (i = j)) as [->|]; [by rewrite lookup_insert_eq|by rewrite lookup_insert_ne]. Qed.

Lemma CloseSignal_inv p i p' : poolInv p → CloseSignal p i = Some p' → poolInv p'.
Proof.
  intros Hp. unfold CloseSignal. intros E. case_all. revert Hp. apply signals_mono.
  intros j Hj. destruct (decide (i = j)) as [->|]; [by rewrite lookup_insert_eq|by rewrite lookup_insert_ne].
Qed.

Lemma CloseAllSignal_inv p p' : poolInv p → CloseAllSignal p = Some p' → poolInv p'.
Proof.
  intros Hp. unfold CloseAllSignal. intros E. case_all. revert Hp. apply signals_mono.
  intros j [c Hc]. rewrite lookup_fmap, Hc. eauto.
Qed.

Lemma addFreezeTransaction_inv p i s tg a : poolInv p → poolInv (addFreezeTransaction p i s tg a).
Proof.
  intros (H1 & H2 & H3 & H4). unfold addFreezeTransaction. cbv zeta.
  set (tx := NewStateTransferTransaction s tg 0 a (Some 0) 0 [] true i).
  assert (cacheOk true (cacheSet (freezeCache p) i tx)) as Hc by (apply (cacheOk_set true _ tx); auto).
  assert (∀ j, is_Some (cacheSet (freezeCache p) i tx !! j) → j = i ∨ is_Some (Signal p !! j)) as Hs.
  { intros j Hj. destruct (decide (i = j)) as [->|Hne]; [by left|right].
    apply H4. revert Hj. unfold cacheSet. by rewrite lookup_insert_ne. }
  case_match eqn:E; unfold GetSignal in E; cbn in E.
  - split; [exact Hc|split; [exact H2|split; [exact H3|]]]. intros j Hj. cbn.
    destruct (Hs j Hj) as [->|]; [|done]. by destruct (Signal p !! i).
  - split; [exact Hc|split; [exact H2|split; [exact H3|]]]. intros j Hj. cbn.
    destruct (decide (i = j)) as [->|Hne]; [by rewrite lookup_insert_eq|].
    rewrite lookup_insert_ne by done. by destruct (Hs j Hj) as [->|].
Qed.

Lemma addCachedTransaction_inv p tx : poolInv p → poolInv (addCachedTransaction p tx).
Proof.
  intros (H1 & H2 & H3 & H4). unfold addCachedTransaction. case_match; [done|].
  split; [exact H1|split; [|split; [exact H3|exact H4]]]. by apply (cacheOk_set false _ (SetToFreeze (CopyTx tx) false)).
Qed.

Lemma addCommittedTransaction_inv p s tg a i d : poolInv p → poolInv (addCommittedTransaction p s tg a i d).
Proof.
  intros (H1 & H2 & H3 & H4). unfold addCommittedTransaction. case_match; [done|].
  split; [exact H1|split; [exact H2|split; [|exact H4]]].
  by apply (cacheOk_set false _ (NewStateTransferTransaction s tg (sdBlockHeight d) a (sdBalance d) (sdNonce d)
              (sdData d) false i)).
Qed.

Lemma deleteTxFromCached_inv p i : poolInv p → poolInv (deleteTxFromCached p i).
Proof. intros (H1 & H2 & H3 & H4). split; [done|split; [by apply cacheOk_delete|done]]. Qed.

Lemma resetBefore_inv p tx : poolInv p → poolInv (resetBefore p tx).1.
Proof.
  intros Hp. unfold resetBefore. case_match; [|by case_match].
  pose proof (addCachedTransaction_inv p tx Hp) as Hq. cbv zeta.
  set (q := setFreezeRead _ _). assert (poolInv q) by exact Hq. case_match; [|done].
  cbn. case_match; [done|]. by apply InitSignal_inv.
Qed.

Lemma resetAfter_inv p tx sent : poolInv p → poolInv (resetAfter p tx sent).
Proof.
  intros (H1 & H2 & H3 & H4). unfold resetAfter, RecordCommittedTx, deleteTxFromCommitted, deleteTxFromFreeze. repeat case_match.
  - split; [by apply cacheOk_delete|split; [done|split; [done|]]]. cbn. unfold cacheDelete.
    intros j [tx' [_ Hj]%lookup_delete_Some]. eauto.
  - done.
  - split; [done|split; [done|split; [by apply cacheOk_delete|done]]].
Qed.

Lemma emptyPool_inv : poolInv emptyPool.
Proof.
  repeat split; try by (intros; simplify_map_eq). intros i []. simplify_map_eq.
Qed.

Lemma NewCommitPool_inv b lm st : poolInv (NewCommitPool b lm st).
Proof.
  unfold NewCommitPool. case_match; [|apply emptyPool_inv].
  generalize emptyPool, emptyPool_inv. induction (bSttxs b) as [|tx l IH]; intros p Hp; [done|].
  cbn. apply IH. by apply resetAfter_inv, resetBefore_inv.
Qed.

Lemma FreezeCache_inv p : poolInv p → poolInv (FreezeCache p).2.
Proof. intros Hp. unfold FreezeCache. case_match; [done|]. by destruct (cacheRange _ _ _). Qed.

Lemma Committed_inv p : poolInv p → poolInv (Committed p).2.
Proof. intros Hp. unfold Committed. case_match; [done|]. by destruct (cacheRange _ _ _). Qed.

Create HintDb commitpool.
#[export] Hint Resolve InitSignal_inv CloseSignal_inv CloseAllSignal_inv addFreezeTransaction_inv
  addCommittedTransaction_inv deleteTxFromCached_inv resetBefore_inv resetAfter_inv FreezeCache_inv Committed_inv
  : commitpool.

(** ** What a reply vouches for

    [B] holds of the transactions of inserted blocks; [slack] allows the timeouts. *)
Section replies.
Context (B : txdata → Prop) (slack : bool).

Definition inBlock (freeze : bool) (i : Z) : Prop := ∃ tx, B tx ∧ txToFreeze tx = freeze ∧ stxIndex tx = i.

Definition handlerOk (h : handler) : Prop :=
  match h with
  | CloseCommit req => slack = true ∨ inBlock false (crIndex req)
  | Replied (ProposeReply ACK i _ _ _) => inBlock true i
  | Replied (CommitReply ACK i _) => slack = true ∨ inBlock false i
  | _ => True
  end.

(** The value that [reset] sends tells the kind of the transaction it is at. *)
Definition sendOk (n : node) : Prop :=
  match sending n with
  | None => True
  | Some v =>
      locked n = true ∧
      match todo n with
      | [] => False
      | tx :: _ => v = (if txToFreeze tx then 1 else 2) ∧
                   (if txToFreeze tx then is_Some (freezeCache (pool n) !! stxIndex tx)
                    else is_Some (committed (pool n) !! stxIndex tx))
      end
  end.

Record nodeInv (n : node) : Prop := {
  ni_pool : poolInv (pool n);
  ni_current : ∀ tx, tx ∈ bSttxs (current n) → B tx;
  ni_todo : ∀ tx, tx ∈ todo n → B tx;
  ni_idle : locked n = false → todo n = [] ∧ sending n = None;
  ni_send : sendOk n;
  ni_handlers : map_Forall (λ _, handlerOk) (handlers n);
}.

(** The events that a run of interest may have. *)
Definition allowed (ev : event) : Prop :=
  match ev with
  | EvInsert b => ∀ tx, tx ∈ bSttxs b → B tx
  | EvTimeout _ => slack = true
  | _ => True
  end.

Lemma setHandler_inv n t h : nodeInv n → handlerOk h → nodeInv (setHandler n t h).
Proof. intros [] Hh. constructor; try done. by apply map_Forall_insert_2. Qed.

(** A handler changes the pool without touching what [reset] is sending. *)
Lemma setPool_inv n p :
  nodeInv n → poolInv p →
  (sending n ≠ None → freezeCache p = freezeCache (pool n) ∧ committed p = committed (pool n)) →
  nodeInv (setPool n p).
Proof.
  intros [] Hp Hs. constructor; try done. unfold sendOk in *. cbn.
  destruct (sending n) as [v|]; [|done]. destruct Hs as [-> ->]; done.
Qed.

Lemma setFollowerType_inv n ft : nodeInv n → nodeInv (setFollowerType n ft).
Proof. intros []. by constructor. Qed.

Lemma idle_not_sending n : nodeInv n → locked n = false → sending n = None.
Proof. intros Hn E. by destruct (ni_idle _ Hn E). Qed.

End replies.

Section steps.
Context (encodeState : StateData → bytes) (decodeState : bytes → option StateData).
Notation receive := (receive encodeState).
Notation step := (nodeStep encodeState decodeState).
Notation run := (nodeRun encodeState decodeState).
Notation handlerStep := (handlerStep encodeState decodeState).

Section invariant.
Context (B : txdata → Prop) (slack : bool).
Notation nodeInv := (nodeInv B slack).
Notation handlerOk := (handlerOk B slack).

(** A received value leaves the node alone or moves the receiving handler on. *)
Lemma receive_cases n t v b nn h n1 i :
  listens h = Some i → receive n t v b nn h = Some n1 →
  (v = 1 → inBlock B true i) → (v = 2 → inBlock B false i) →
  n1 = n ∨ ∃ h', n1 = setHandler n t h' ∧ handlerOk h'.
Proof.
  intros Hl Hr H1 H2. destruct h as [| |ft req ch| | |req ch| |]; try done; destruct ch; try done; simplify_eq/=.
  - destruct ft; case_match eqn:E; simplify_eq/=; rewrite ?Z.eqb_eq in E; [right|right|right|by left].
    all: eexists; split; [reflexivity|cbn; auto].
  - case_match eqn:E; simplify_eq/=; rewrite ?Z.eqb_eq in E; [right|by left].
    eexists; split; [reflexivity|cbn; auto].
Qed.

Lemma handlerStep_inv n t h ev n' :
  nodeInv n → allowed B slack ev → handlers n !! t = Some h → handlerStep n t h ev = Next n' → nodeInv n'.
Proof.
  intros Hn Ha Hh E. pose proof (ni_pool _ _ _ Hn) as Hp. pose proof (idle_not_sending _ _ _ Hn) as Hi.
  destruct ev; try done.
  - destruct h; try done. cbn in E. case_match; simplify_eq/=; by apply setHandler_inv.
  - destruct h; try done. cbn in E. case_match; simplify_eq/=. apply setHandler_inv; [|done].
    apply setPool_inv; auto with commitpool. by rewrite Hi.
  - destruct h; try done. cbn in E. case_match; simplify_eq/=. apply setHandler_inv; [|done].
    apply setPool_inv; [done| |by rewrite Hi]. unfold addCommitted. auto with commitpool.
  - destruct h; try done; cbn in E; case_match; simplify_eq/=; apply setHandler_inv; cbn; auto.
  - cbn in E. destruct (listens h) as [i|] eqn:El; [|done]. case_match; [|done]. case_match eqn:Er; [|done]. simplify_eq.
    destruct (receive_cases n t 0 0 0 h n' i El Er) as [->|(h' & -> & Hh')]; [done|done|done|].
    by apply setHandler_inv.
  - destruct h; try done; cbn in E; case_match; try done; case_match eqn:Ec; simplify_eq/=; apply setHandler_inv;
      try done; [apply setPool_inv; eauto with commitpool; by rewrite Hi..|].
    exact (Hn.(ni_handlers _ _ _) t _ Hh).
Qed.

Lemma commitArrives_inv n t req : nodeInv n → nodeInv (commitArrives n t req).
Proof.
  intros Hn. unfold commitArrives. repeat case_match; apply setHandler_inv; try done;
    apply setPool_inv; auto with commitpool; apply deleteTxFromCached_inv, Hn.
Qed.

Lemma takeHead_inv n lm st n' : nodeInv n → takeHead n lm st = Next n' → nodeInv n'.
Proof.
  intros Hn. unfold takeHead. intros E. destruct (locked n); [done|]. destruct (queue n); simplify_eq.
  destruct Hn. constructor; try done. cbn. case_match; [done|]. by intros ? ?%elem_of_nil.
Qed.

(** What [reset] is about to send is of the kind of the transaction. *)
Lemma resetBefore_sends p tx v :
  (resetBefore p tx).2 = Some v →
  v = (if txToFreeze tx then 1 else 2) ∧
  (if txToFreeze tx then is_Some (freezeCache (resetBefore p tx).1 !! stxIndex tx)
   else is_Some (committed (resetBefore p tx).1 !! stxIndex tx)).
Proof.
  unfold resetBefore. intros E. destruct (txToFreeze tx); cbv zeta in *.
  - set (q := setFreezeRead _ _) in *. case_match eqn:Eq; simplify_eq/=. split; [done|].
    case_match; cbn in *; eauto.
  - case_match eqn:Eq; simplify_eq/=. eauto.
Qed.

Lemma resetNext_inv n n' : nodeInv n → resetNext n = Next n' → nodeInv n'.
Proof.
  intros Hn. unfold resetNext. intros E. destruct (locked n) eqn:El; [|done]. destruct (sending n) eqn:Es; [done|].
  destruct (todo n) as [|tx rest] eqn:Et; [done|].
  pose proof (resetBefore_inv _ tx (ni_pool _ _ _ Hn)) as Hp. pose proof (resetBefore_sends (pool n) tx) as Hs.
  destruct (resetBefore (pool n) tx) as [p [v|]]; simplify_eq/=; destruct Hn as [? ? Ht ? ? ?]; rewrite Et in Ht.
  - destruct (Hs v eq_refl). by constructor.
  - constructor; try done; cbn; [by apply resetAfter_inv|]. intros tx' Hin. apply Ht. by right.
Qed.

Lemma signalNext_inv n t b nn n' : nodeInv n → signalNext encodeState n t b nn = Next n' → nodeInv n'.
Proof.
  intros Hn. unfold signalNext. intros E. destruct (sending n) as [v|] eqn:Es; [|done].
  destruct (todo n) as [|tx rest] eqn:Et; [done|].
  destruct (Signal (pool n) !! stxIndex tx) as [[]|]; try done.
  destruct (handlers n !! t) as [h|]; [|done]. case_decide as Hl; [|done].
  destruct (receive n t v b nn h) as [n1|] eqn:Er; simplify_eq.
  pose proof (ni_send _ _ _ Hn) as Hs. unfold sendOk in Hs. rewrite Es, Et in Hs. destruct Hs as (_ & Hv & _).
  assert (B tx) as HB by (apply (ni_todo _ _ _ Hn); rewrite Et; by left).
  assert (nodeInv n1 ∧ pool n1 = pool n ∧ current n1 = current n) as (Hn1 & -> & Hc).
  { destruct (receive_cases n t v b nn h n1 _ Hl Er) as [->|(h' & -> & Hh)]; [| |done|].
    1,2: intros ->; exists tx; by destruct (txToFreeze tx).
    split; [by apply setHandler_inv|done]. }
  destruct Hn1. constructor; try done; cbn; [apply resetAfter_inv, Hn|].
  intros tx' Hin. apply (ni_todo _ _ _ Hn). rewrite Et. by right.
Qed.

(** Every step keeps the invariant. *)
Lemma nodeStep_inv n ev n' : nodeInv n → allowed B slack ev → step n ev = Next n' → nodeInv n'.
Proof.
  intros Hn Ha E. pose proof (ni_pool _ _ _ Hn) as Hp. pose proof (idle_not_sending _ _ _ Hn) as Hi.
  destruct ev; cbn [nodeStep] in E;
    try (unfold onHandler in E; case_match; [by eapply handlerStep_inv|done]).
  - unfold arrive in E. case_match; simplify_eq. apply setHandler_inv; [by apply setFollowerType_inv|done].
  - unfold arrive in E. case_match; simplify_eq. by apply commitArrives_inv.
  - case_decide; simplify_eq. destruct Hn. by constructor.
  - by eapply takeHead_inv.
  - by apply resetNext_inv in E.
  - by eapply signalNext_inv.
  - destruct (locked n), (sending n), (todo n) eqn:Et; simplify_eq. destruct Hn. constructor; try done.
    cbn. by intros ? ?%elem_of_nil.
  - destruct (locked n); simplify_eq. apply setPool_inv; auto with commitpool. by rewrite Hi.
  - destruct (locked n); simplify_eq. apply setPool_inv; auto with commitpool. by rewrite Hi.
  - destruct (CloseAllSignal (pool n)) as [p|] eqn:Ec; simplify_eq. apply setPool_inv; eauto with commitpool.
    unfold CloseAllSignal in Ec. case_decide; by simplify_eq.
Qed.

Lemma nodeRun_inv n evs n' : nodeInv n → Forall (allowed B slack) evs → run n evs = Next n' → nodeInv n'.
Proof.
  intros Hn Ha. revert n Hn. induction Ha as [|ev evs Ha _ IH]; intros n Hn E; cbn in E; [by simplify_eq|].
  destruct (step n ev) as [n1| |] eqn:Es; [|done..]. eapply IH; [|done]. by eapply nodeStep_inv.
Qed.

Lemma newNode_inv shard b : (∀ tx, tx ∈ bSttxs b → B tx) → nodeInv (newNode shard b).
Proof.
  intros Hb. constructor; try done; [apply NewCommitPool_inv|by intros ? ?%elem_of_nil].
Qed.

End invariant.

(** The transactions of the blocks that a run saw. *)
Definition seen (b0 : blk) (evs : list event) (tx : txdata) : Prop :=
  ∃ b, (b = b0 ∨ EvInsert b ∈ evs) ∧ tx ∈ bSttxs b.

Lemma run_inv slack shard b0 evs n :
  (slack = false → ∀ t, EvTimeout t ∉ evs) → run (newNode shard b0) evs = Next n → nodeInv (seen b0 evs) slack n.
Proof.
  intros Hs. apply nodeRun_inv; [apply newNode_inv; unfold seen; eauto|].
  apply Forall_forall. intros ev Hin. destruct ev; try done; cbn.
  - destruct slack; [done|]. by destruct (Hs eq_refl t).
  - intros tx Htx. exists b. auto.
Qed.

(** C30: At every point of every run of a follower the caches are keyed by index and marked with
    their phase, everything waiting to be frozen has a channel, only a running [reset] has work
    left, and a value it is sending belongs to the transaction it is at, whose cache entry is
    still there. *)
Theorem CommitPool_invariant shard b0 evs n :
  run (newNode shard b0) evs = Next n →
  poolInv (pool n) ∧ (locked n = false → todo n = [] ∧ sending n = None) ∧ sendOk n.
Proof. intros H%(run_inv true); [|done]. destruct H. done. Qed.

(** C31: A follower acknowledges a proposal only after a block with the freeze transaction of that
    index was inserted into its chain, whatever the order in which its goroutines run. *)
Theorem propose_ack_after_block shard b0 evs n t i ft a payload :
  run (newNode shard b0) evs = Next n →
  handlers n !! t = Some (Replied (ProposeReply ACK i ft a payload)) →
  ∃ b tx, (b = b0 ∨ EvInsert b ∈ evs) ∧ tx ∈ bSttxs b ∧ txToFreeze tx = true ∧ stxIndex tx = i.
Proof.
  intros H%(run_inv true) Ht; [|done]. destruct (ni_handlers _ _ _ H t _ Ht) as (tx & (b & Hb & Hin) & Hf & Hi).
  eauto 10.
Qed.

(** In a run without timeouts a follower acknowledges a commit only after a block with the
    commit transaction of that index was inserted. *)
Theorem commit_ack_after_block shard b0 evs n t i ft :
  run (newNode shard b0) evs = Next n → (∀ t, EvTimeout t ∉ evs) →
  handlers n !! t = Some (Replied (CommitReply ACK i ft)) →
  ∃ b tx, (b = b0 ∨ EvInsert b ∈ evs) ∧ tx ∈ bSttxs b ∧ txToFreeze tx = false ∧ stxIndex tx = i.
Proof.
  intros H Hs Ht. apply (run_inv false) in H; [|done].
  destruct (ni_handlers _ _ _ H t _ Ht) as [?|(tx & (b & Hb & Hin) & Hf & Hi)]; [done|]. eauto 10.
Qed.

(** ** What the block producer is handed *)

(** The read lists only grow. *)
Definition readGrows (p q : CommitPool) : Prop :=
  dom (freezeReadTxList p) ⊆ dom (freezeReadTxList q) ∧ dom (committedReadTxList p) ⊆ dom (committedReadTxList q).
#[local] Instance readGrows_refl : Reflexive readGrows.
Proof. done. Qed.
#[local] Instance readGrows_trans : Transitive readGrows.
Proof. intros p q r [? ?] [? ?]. split; set_solver. Qed.

Lemma takeUnread_spec (kvs : list (Z * txdata)) acc read l read' :
  NoDup kvs.*1 → rangeWith takeUnread kvs (acc, read) = (l, read') →
  l = acc ++ (filter (λ kv, read !! kv.1 = None) kvs).*2 ∧
  (∀ i, is_Some (read' !! i) ↔ is_Some (read !! i) ∨ i ∈ kvs.*1).
Proof.
  revert acc read. induction kvs as [|[k tx] kvs IH]; intros acc read Hnd E; cbn in E.
  { simplify_eq. split; [by rewrite app_nil_r|set_solver]. }
  rewrite fmap_cons, NoDup_cons in Hnd. destruct Hnd as [Hk Hnd]. rewrite filter_cons, fmap_cons. cbn [fst] in *.
  destruct (read !! k) as [x|] eqn:Er.
  - destruct (IH _ _ Hnd E) as [-> Hr]. rewrite decide_False by done. split; [done|].
    intros i. rewrite Hr. split; [set_solver|]. intros [?|[->|?]%elem_of_cons]; eauto.
  - destruct (IH _ _ Hnd E) as [-> Hr]. rewrite decide_True by done. rewrite fmap_cons, <-app_assoc. split.
    + do 3 f_equal. apply filter_ext_elem. intros [j ty] Hj. cbn.
      rewrite lookup_insert_ne; [done|]. intros ->. apply Hk. rewrite list_elem_of_fmap. by exists (j, ty).
    + intros i. rewrite Hr. destruct (decide (k = i)) as [->|Hne]; [rewrite lookup_insert_eq|rewrite lookup_insert_ne by done];
        set_solver by eauto.
Qed.

(** A hand-out: the entries not read before, each once, all of them marked as read. *)
Record handsOut (c : CacheShard) (read : gmap Z Z) (l : list txdata) (read' : gmap Z Z) : Prop := {
  ho_elem : ∀ tx, tx ∈ l ↔ c !! stxIndex tx = Some tx ∧ read !! stxIndex tx = None;
  ho_nodup : NoDup (stxIndex <$> l);
  ho_read : ∀ i, is_Some (read' !! i) ↔ is_Some (read !! i) ∨ is_Some (c !! i);
}.

Lemma cacheRange_handsOut fr c read l read' :
  cacheOk fr c → cacheRange c takeUnread ([], read) = (l, read') → handsOut c read l read'.
Proof.
  intros Hc E. pose proof (NoDup_fst_map_to_list c) as Hnd. unfold cacheRange in E.
  destruct (takeUnread_spec _ _ _ _ _ Hnd E) as [-> Hr]. cbn [app] in *.
  assert (∀ kv, kv ∈ filter (λ kv, read !! kv.1 = None) (map_to_list c) → stxIndex kv.2 = kv.1) as Hk.
  { intros [k tx] [_ Hin%elem_of_map_to_list]%list_elem_of_filter. by apply Hc in Hin as [? _]. }
  constructor.
  - intros tx. rewrite list_elem_of_fmap. split.
    + intros ([k ty] & -> & Hin). pose proof (Hk _ Hin) as Hx. cbn in *. rewrite Hx.
      apply list_elem_of_filter in Hin as [? ?%elem_of_map_to_list]. auto.
    + intros [Hi Hn]. exists (stxIndex tx, tx). split; [done|]. apply list_elem_of_filter. split; [done|].
      by apply elem_of_map_to_list.
  - rewrite <-list_fmap_compose.
    rewrite (list_fmap_ext _ fst) by (intros ? kv Hin; apply Hk; by eapply list_elem_of_lookup_2).
    eapply sublist_NoDup; [exact Hnd|]. apply fmap_sublist, sublist_filter.
  - intros i. rewrite Hr. assert (i ∈ (map_to_list c).*1 ↔ is_Some (c !! i)) as ->; [|done].
    rewrite list_elem_of_fmap. split.
    + intros ([k tx] & -> & ?%elem_of_map_to_list). by exists tx.
    + intros [tx ?]. exists (i, tx). by rewrite elem_of_map_to_list.
Qed.

Lemma emptyCache_lookup (c : CacheShard) i : Count c < minProcessSttxNum → c !! i = None.
Proof.
  unfold Count, minProcessSttxNum. intros Hc. destruct (decide (c = ∅)) as [->|Hne%map_size_non_empty_iff]; [done|lia].
Qed.

Lemma handsOut_empty c read : Count c < minProcessSttxNum → handsOut c read [] read.
Proof.
  intros Hc. pose proof (λ i, emptyCache_lookup c i Hc) as He. constructor.
  - intros tx. rewrite He. set_solver.
  - constructor.
  - intros i. rewrite He. split; [by left|]. by intros [?|[]].
Qed.

(** [FreezeCache] and [Committed] hand out what was not handed out before. *)
Lemma FreezeCache_spec p :
  poolInv p → handsOut (freezeCache p) (freezeReadTxList p) (FreezeCache p).1 (freezeReadTxList (FreezeCache p).2).
Proof.
  intros (Hc & _). unfold FreezeCache. case_match eqn:E; [apply handsOut_empty; by apply Z.ltb_lt|].
  destruct (cacheRange _ _ _) as [l read'] eqn:Er. by eapply cacheRange_handsOut.
Qed.

Lemma Committed_spec p :
  poolInv p → handsOut (committed p) (committedReadTxList p) (Committed p).1 (committedReadTxList (Committed p).2).
Proof.
  intros (_ & _ & Hc & _). unfold Committed. case_match eqn:E; [apply handsOut_empty; by apply Z.ltb_lt|].
  destruct (cacheRange _ _ _) as [l read'] eqn:Er. by eapply cacheRange_handsOut.
Qed.

Lemma grows_freeze p i : readGrows p (setFreezeRead p (<[i := 1]> (freezeReadTxList p))).
Proof. split; cbn; set_solver. Qed.
Lemma grows_commit p i : readGrows p (setCommittedRead p (<[i := 1]> (committedReadTxList p))).
Proof. split; cbn; set_solver. Qed.

Lemma resetBefore_grows p tx : readGrows p (resetBefore p tx).1.
Proof.
  unfold resetBefore. case_match; [|case_match; apply grows_commit]. cbv zeta.
  transitivity (addCachedTransaction p tx); [unfold addCachedTransaction; by case_match|].
  etransitivity; [apply (grows_freeze _ (stxIndex tx))|]. repeat case_match; done.
Qed.

Lemma resetAfter_grows p tx sent : readGrows p (resetAfter p tx sent).
Proof. unfold resetAfter. by repeat case_match. Qed.

Lemma handsOut_grows c read l read' : handsOut c read l read' → dom read ⊆ dom read'.
Proof. intros [_ _ Hr] i. rewrite !elem_of_dom, Hr. auto. Qed.

Lemma FreezeCache_grows p : poolInv p → readGrows p (FreezeCache p).2.
Proof.
  intros Hp. split; [by eapply handsOut_grows, FreezeCache_spec|].
  unfold FreezeCache. case_match; [done|]. by destruct (cacheRange _ _ _).
Qed.

Lemma Committed_grows p : poolInv p → readGrows p (Committed p).2.
Proof.
  intros Hp. split; [|by eapply handsOut_grows, Committed_spec].
  unfold Committed. case_match; [done|]. by destruct (cacheRange _ _ _).
Qed.

Lemma receive_pool n t v b nn h n1 : receive n t v b nn h = Some n1 → pool n1 = pool n.
Proof. destruct h as [|? ?|[] ? []|? ?|?|? []|?|?]; cbn; try done; case_match; intros; by simplify_eq. Qed.

Lemma CloseSignal_grows p i q : CloseSignal p i = Some q → readGrows p q.
Proof. unfold CloseSignal. intros. by case_all. Qed.

Lemma handlerStep_grows n t h ev n' : handlerStep n t h ev = Next n' → readGrows (pool n) (pool n').
Proof.
  intros E. destruct ev; try done.
  - destruct h; try done. cbn in E. by case_match; simplify_eq/=.
  - destruct h; try done. cbn in E. case_match; simplify_eq/=. unfold addFreezeTransaction. by case_match.
  - destruct h; try done. cbn in E. case_match; simplify_eq/=. unfold addCommitted, addCommittedTransaction. by case_match.
  - destruct h; try done; cbn in E; by case_match; simplify_eq/=.
  - cbn in E. destruct (listens h) as [i|]; [|done]. case_match; [|done]. case_match eqn:Er; [|done]. simplify_eq.
    by rewrite (receive_pool _ _ _ _ _ _ _ Er).
  - destruct h; try done; cbn in E; case_match; try done; case_match eqn:Ec; simplify_eq/=; by eapply CloseSignal_grows.
Qed.

Lemma step_grows n ev n' : poolInv (pool n) → step n ev = Next n' → readGrows (pool n) (pool n').
Proof.
  intros Hp E. destruct ev; cbn [nodeStep] in E;
    try (unfold onHandler in E; case_match; [by eapply handlerStep_grows|done]).
  - unfold arrive in E. by case_match; simplify_eq.
  - unfold arrive in E. case_match; simplify_eq. unfold commitArrives. by repeat case_match.
  - by case_decide; simplify_eq.
  - unfold takeHead in E. by destruct (locked n), (queue n); simplify_eq.
  - unfold resetNext in E. destruct (locked n), (sending n), (todo n) as [|tx rest]; simplify_eq.
    pose proof (resetBefore_grows (pool n) tx) as Hg.
    destruct (resetBefore (pool n) tx) as [p [v|]]; simplify_eq; [done|]. cbn in *. etransitivity; [done|apply resetAfter_grows].
  - unfold signalNext in E. destruct (sending n), (todo n) as [|tx rest]; try done.
    destruct (Signal (pool n) !! stxIndex tx) as [[]|]; try done.
    destruct (handlers n !! t) as [h|]; [|done]. case_decide; [|done].
    destruct (receive n t _ _ _ h) as [n1|] eqn:Er; simplify_eq. cbn. rewrite (receive_pool _ _ _ _ _ _ _ Er).
    apply resetAfter_grows.
  - by destruct (locked n), (sending n), (todo n); simplify_eq.
  - destruct (locked n); simplify_eq. by apply FreezeCache_grows.
  - destruct (locked n); simplify_eq. by apply Committed_grows.
  - unfold CloseAllSignal in E. by case_decide; simplify_eq.
Qed.

(** The hand-outs of a run: disjoint from what was read before, and from each other. *)
Lemma handed_once (out : node → event → list txdata) (read : CommitPool → gmap Z Z) :
  (∀ p q, readGrows p q → dom (read p) ⊆ dom (read q)) →
  (∀ n ev n', poolInv (pool n) → step n ev = Next n' →
     NoDup (stxIndex <$> out n ev) ∧
     (∀ i, i ∈ stxIndex <$> out n ev → i ∉ dom (read (pool n)) ∧ i ∈ dom (read (pool n')))) →
  ∀ evs n, nodeInv (λ _, True) true n →
  NoDup (stxIndex <$> handed encodeState decodeState out n evs) ∧
  (∀ i, i ∈ stxIndex <$> handed encodeState decodeState out n evs → i ∉ dom (read (pool n))).
Proof.
  intros Hmono Hout. induction evs as [|ev evs IH]; intros n Hn; cbn [handed]; [split; [constructor|by intros ? ?%elem_of_nil]|].
  destruct (step n ev) as [n'| |] eqn:E; [|split; [constructor|by intros ? ?%elem_of_nil]..].
  pose proof (ni_pool _ _ _ Hn) as Hp.
  destruct (Hout _ _ _ Hp E) as [Hnd Hfresh]. pose proof (Hmono _ _ (step_grows _ _ _ Hp E)) as Hg.
  assert (nodeInv (λ _, True) true n') as Hn' by (eapply nodeStep_inv; [exact Hn| |exact E]; destruct ev; cbn; auto).
  destruct (IH n' Hn') as [Hnd' Hfresh']. rewrite fmap_app. split.
  - apply NoDup_app. split; [done|split; [|done]]. intros i Hi Hi'. apply Hfresh in Hi as [_ ?]. by apply Hfresh' in Hi'.
  - intros i [Hi|Hi]%elem_of_app; [by destruct (Hfresh i Hi)|]. apply Hfresh' in Hi. intros ?. apply Hi. by apply Hg.
Qed.

Lemma handsOut_fresh c read l read' :
  handsOut c read l read' →
  NoDup (stxIndex <$> l) ∧ (∀ i, i ∈ stxIndex <$> l → i ∉ dom read ∧ i ∈ dom read').
Proof.
  intros [He Hnd Hr]. split; [done|]. intros i (tx & -> & [Hc Hn]%He)%list_elem_of_fmap.
  rewrite not_elem_of_dom, elem_of_dom, Hr. eauto.
Qed.

(** Over a whole run, in any interleaving, the block producer of a follower is handed each
    index at most once as a freeze and at most once as a commit transaction: no block of it
    carries a migration step twice. *)
Theorem handed_at_most_once shard b0 evs :
  NoDup (stxIndex <$> handed encodeState decodeState handedFreeze (newNode shard b0) evs) ∧
  NoDup (stxIndex <$> handed encodeState decodeState handedCommit (newNode shard b0) evs).
Proof.
  assert (nodeInv (λ _, True) true (newNode shard b0)) as Hn by by apply newNode_inv.
  split.
  - apply (handed_once handedFreeze freezeReadTxList); [by intros p q []| |done].
    intros n ev n' Hp E. destruct ev; try (split; [constructor|by intros ? ?%elem_of_nil]).
    cbn in E |- *. destruct (locked n); simplify_eq. by eapply handsOut_fresh, FreezeCache_spec.
  - apply (handed_once handedCommit committedReadTxList); [by intros p q []| |done].
    intros n ev n' Hp E. destruct ev; try (split; [constructor|by intros ? ?%elem_of_nil]).
    cbn in E |- *. destruct (locked n); simplify_eq. by eapply handsOut_fresh, Committed_spec.
Qed.

(** ** [reset] returns when every channel it needs has a receiver *)

(** Whether [reset] sends for a transaction, and what it leaves behind. *)
Definition needsSignal (p : CommitPool) (tx : txdata) : Prop :=
  is_Some ((if txToFreeze tx then freezeCache p else committed p) !! stxIndex tx).
Definition processed (p : CommitPool) (tx : txdata) : Prop :=
  if txToFreeze tx then freezeCache p !! stxIndex tx = None ∧ is_Some (cached p !! stxIndex tx)
  else committed p !! stxIndex tx = None ∧ committedTxList p !! stxIndex tx = Some 1.
Definition hasReceiver (n : node) (i : Z) : Prop :=
  Signal (pool n) !! i = Some chanOpen ∧ ∃ t h, handlers n !! t = Some h ∧ listens h = Some i.

(** Two pools that agree on an index. *)
Definition sameAt (j : Z) (p q : CommitPool) : Prop :=
  freezeCache p !! j = freezeCache q !! j ∧ cached p !! j = cached q !! j ∧ committed p !! j = committed q !! j
  ∧ Signal p !! j = Signal q !! j ∧ committedTxList p !! j = committedTxList q !! j.
#[local] Instance sameAt_equiv j : Equivalence (sameAt j).
Proof.
  unfold sameAt. split; [done|intros p q H; naive_solver|].
  intros p q r (?&?&?&?&?) (?&?&?&?&?). split_and!; congruence.
Qed.

Lemma processed_proper p q tx : sameAt (stxIndex tx) p q → processed p tx → processed q tx.
Proof. unfold processed. intros (-> & -> & -> & _ & ->). done. Qed.
Lemma needsSignal_proper p q tx : sameAt (stxIndex tx) p q → needsSignal q tx → needsSignal p tx.
Proof. unfold needsSignal. intros (E1 & _ & E2 & _). destruct (txToFreeze tx); congruence. Qed.

Lemma resetBefore_frame p tx j : j ≠ stxIndex tx → sameAt j p (resetBefore p tx).1.
Proof.
  intros Hj. unfold resetBefore, addCachedTransaction, addTxCached, InitSignal, sameAt, cacheSet.
  repeat case_match; cbn; rewrite ?lookup_insert_ne by (cbn; congruence); auto 10.
Qed.
Lemma resetAfter_frame p tx b j : j ≠ stxIndex tx → sameAt j p (resetAfter p tx b).
Proof.
  intros Hj. unfold resetAfter, RecordCommittedTx, deleteTxFromCommitted, deleteTxFromFreeze, sameAt, cacheDelete.
  repeat case_match; cbn; rewrite ?lookup_delete_ne, ?lookup_insert_ne by congruence; auto 10.
Qed.

(** What [resetBefore] does at its own index. *)
Lemma resetBefore_at p tx :
  let '(q, send) := resetBefore p tx in
  (send = None ↔ ¬ needsSignal p tx)
  ∧ (if txToFreeze tx then is_Some (cached q !! stxIndex tx) else True)
  ∧ (if txToFreeze tx then freezeCache q !! stxIndex tx = freezeCache p !! stxIndex tx else True)
  ∧ (Signal p !! stxIndex tx = Some chanOpen → Signal q !! stxIndex tx = Some chanOpen).
Proof.
  unfold resetBefore, needsSignal, addCachedTransaction, addTxCached, InitSignal, GetSignal, cacheGet, cacheSet.
  destruct (txToFreeze tx); cbn.
  - destruct (cached p !! stxIndex tx) eqn:Ec; cbn; destruct (freezeCache p !! stxIndex tx) eqn:Ef; cbn;
      try (destruct (Signal p !! stxIndex tx) eqn:Es; cbn);
      rewrite ?lookup_insert_eq; rewrite ?Ef, ?Ec, ?Es; repeat split; try done; try (by intros []); eauto.
  - destruct (committed p !! stxIndex tx) eqn:Ef; cbn; repeat split; try done; try (by intros []).
Qed.

(** A receiver takes whatever is sent, and only its own handler moves. *)
Lemma receive_total n t v b nn h i :
  listens h = Some i →
  ∃ n1, receive n t v b nn h = Some n1 ∧ pool n1 = pool n ∧ (∀ t', t' ≠ t → handlers n1 !! t' = handlers n !! t').
Proof.
  intros Hl. destruct h as [|? |[] ? []|? ?|?|? []|?|?]; try done; cbn; case_match;
    eexists; (split; [reflexivity|split; [done|intros; cbn; rewrite ?lookup_insert_ne by done; done]]).
Qed.

(** The steps of the goroutine that runs [reset]. *)
Definition ofReset (ev : event) : bool := match ev with EvReset | EvSignal _ _ _ | EvUnlock => true | _ => false end.
(** The events of a [reset] that is still running and that no handler gives up on: no time-out,
    no [Stop], and no commit request, which changes [cached] without the mutex. *)
Definition calm (ev : event) : Prop :=
  match ev with EvTimeout _ | EvStop | EvCommit _ _ | EvUnlock => False | _ => True end.

(** A running [reset] that started with the transactions [txs] in the pool [p0]. *)
Record resetting (p0 : CommitPool) (txs done : list txdata) (n : node) : Prop := {
  rs_locked : locked n = true;
  rs_split : txs = done ++ todo n;
  rs_done : ∀ tx, tx ∈ done → processed (pool n) tx;
  rs_frame : ∀ j, j ∉ stxIndex <$> done → (∀ v tx rest, sending n = Some v → todo n = tx :: rest → j ≠ stxIndex tx) → sameAt j p0 (pool n);
  rs_sending : ∀ v, sending n = Some v → ∃ tx rest, todo n = tx :: rest ∧ hasReceiver n (stxIndex tx)
    ∧ if txToFreeze tx then is_Some (cached (pool n) !! stxIndex tx) else True;
  rs_receivers : ∀ tx, tx ∈ (if sending n then tail (todo n) else todo n) → needsSignal (pool n) tx → hasReceiver n (stxIndex tx);
}.
(** The steps it has left before it releases the mutex. *)
Definition resetLeft (n : node) : nat := 2 * length (todo n) - (if sending n then 1 else 0).

(** Steps that touch neither the pool nor the reset, nor a handler on an open channel. *)
Definition keepsReceivers (n n' : node) : Prop :=
  pool n' = pool n ∧ locked n' = locked n ∧ todo n' = todo n ∧ sending n' = sending n
  ∧ ∀ t h i, handlers n !! t = Some h → listens h = Some i → Signal (pool n) !! i = Some chanOpen →
      ∃ h', handlers n' !! t = Some h' ∧ listens h' = Some i.

Lemma resetting_keeps p0 txs done n n' : resetting p0 txs done n → keepsReceivers n n' → resetting p0 txs done n' ∧ resetLeft n' = resetLeft n.
Proof.
  intros [H1 H2 H3 H4 H5 H6] (Hp & Hl & Ht & Hs & Hh).
  assert (∀ i, hasReceiver n i → hasReceiver n' i) as Hr.
  { intros i (Ho & t & h & Hth & Hi). split; [by rewrite Hp|]. destruct (Hh t h i Hth Hi Ho) as (h' & ? & ?). eauto. }
  split; [|unfold resetLeft; by rewrite Ht, Hs]. constructor; rewrite ?Hp, ?Hl, ?Ht, ?Hs; try done; [|auto].
  intros v Hv. destruct (H5 v Hv) as (tx & rest & ? & ? & ?). exists tx, rest. auto.
Qed.

Lemma setHandler_keeps n n0 t h0 h : handlers n !! t = h0 → handlers n0 = handlers n → pool n0 = pool n → locked n0 = locked n → todo n0 = todo n → sending n0 = sending n →
  (∀ h1 i, h0 = Some h1 → listens h1 = Some i → Signal (pool n) !! i = Some chanOpen → listens h = Some i) → keepsReceivers n (setHandler n0 t h).
Proof.
  intros Ht Hh Hp Hl Hd Hs Hk. split_and!; try done. cbn. intros t1 h1 i Ht1 Hi Ho. rewrite Hh. destruct (decide (t1 = t)) as [->|Hne].
  - exists h. rewrite lookup_insert_eq. split; [done|]. apply (Hk h1 i); congruence.
  - exists h1. by rewrite lookup_insert_ne.
Qed.

Lemma keepsReceivers_refl n : keepsReceivers n n.
Proof. split_and!; eauto. Qed.

Lemma calm_keeps n ev n' : locked n = true → calm ev → ofReset ev = false → step n ev = Next n' → keepsReceivers n n'.
Proof.
  intros Hl Hc Ho E. destruct ev; try done; cbn [nodeStep] in E; rewrite ?Hl in E; try done.
  - unfold arrive in E. destruct (handlers n !! t) eqn:Eh; simplify_eq. by apply (setHandler_keeps n _ t None).
  - unfold onHandler in E. destruct (handlers n !! t) as [h|] eqn:Eh; [|done]. cbn in E. destruct h; try done. case_match; simplify_eq; by apply (setHandler_keeps n n t (Some (Proposing req))); try done; intros ? ? [= <-].
  - unfold onHandler in E. destruct (handlers n !! t) as [[]|]; try done. cbn in E. by rewrite Hl in E.
  - unfold onHandler in E. destruct (handlers n !! t) as [[]|]; try done. cbn in E. by rewrite Hl in E.
  - unfold onHandler in E. destruct (handlers n !! t) as [h|] eqn:Eh; [|done]. cbn [handlerStep] in E. destruct (listens h) as [i|] eqn:Ei; [|done].
    destruct (isClosed (pool n) i) eqn:Ecl; [|done]. unfold isClosed in Ecl. destruct (receive n t 0 0 0 h) as [n1|] eqn:Er; [|done]. injection E as <-.
    destruct h as [|? |[] ? []|? ?|?|? []|?|?]; try done; cbn in Er; injection Er as <-; try apply keepsReceivers_refl.
    eapply setHandler_keeps; try done. intros h1 j E1 Hj Hop. first [injection E1 as <-|rewrite Eh in E1; injection E1 as <-]. cbn in Ei, Hj. simplify_eq. by rewrite Hop in Ecl.
  - unfold onHandler in E. destruct (handlers n !! t) as [[]|]; try done; cbn in E; by rewrite Hl in E.
  - case_decide; simplify_eq. split_and!; eauto.
  - unfold takeHead in E. by rewrite Hl in E.
Qed.

(** The next transaction, up to the send. *)
Lemma resetNext_resetting p0 (txs done : list txdata) n n' :
  NoDup (stxIndex <$> txs) → resetting p0 txs done n → resetNext n = Next n' →
  ∃ done', resetting p0 txs done' n' ∧ (S (resetLeft n') ≤ resetLeft n)%nat.
Proof.
  intros Hnd [H1 H2 H3 H4 H5 H6] E. unfold resetNext in E. rewrite H1 in E. destruct (sending n) as [v|] eqn:Hs; [done|]. destruct (todo n) as [|tx rest] eqn:Ht; [done|].
  pose proof (resetBefore_at (pool n) tx) as Hat. pose proof (λ j, resetBefore_frame (pool n) tx j) as Hfr.
  rewrite H2, fmap_app, fmap_cons in Hnd. apply NoDup_app in Hnd as (Hnd1 & Hnd2 & Hnd3). apply NoDup_cons in Hnd3 as [Hni Hnd3].
  assert (∀ tx', tx' ∈ done → stxIndex tx' ≠ stxIndex tx) as Hdone by (intros tx' Hin Heq; apply (Hnd2 (stxIndex tx')); [by apply list_elem_of_fmap_2|rewrite Heq; by left]).
  assert (∀ tx', tx' ∈ rest → stxIndex tx' ≠ stxIndex tx) as Hrest by (intros tx' Hin Heq; apply Hni; rewrite <-Heq; by apply list_elem_of_fmap_2).
  destruct (resetBefore (pool n) tx) as [q [v|]]; destruct Hat as (Hsend & Hc & Hf & Hop); cbn in Hfr; injection E as <-.
  - assert (needsSignal (pool n) tx) as Hneed by (destruct (decide (needsSignal (pool n) tx)) as [|Hno]; [done|]; by apply Hsend in Hno).
    assert (∀ i, i ≠ stxIndex tx → hasReceiver n i → hasReceiver (setReset (setPool n q) true (tx :: rest) (Some v)) i) as Hrec.
    { intros i Hi (Ho & Hh). split; [|done]. cbn. destruct (Hfr i Hi) as (_ & _ & _ & <- & _). done. }
    exists done. split; [|unfold resetLeft; cbn; rewrite Hs, Ht; cbn; lia]. constructor; cbn; try done.
    + intros tx' Hin. eapply processed_proper; [|by apply H3]. apply Hfr, Hdone, Hin.
    + intros j Hj Hne. etransitivity; [apply H4; [done|done]|]. apply Hfr. by apply (Hne v tx rest).
    + intros v' _. exists tx, rest. split; [done|]. split; [|done]. destruct (H6 tx ltac:(by left) Hneed) as (Ho & Hh). split; [|done]. by apply Hop.
    + intros tx' Hin Hn. apply Hrec; [by apply Hrest|]. apply H6; [by right|]. eapply needsSignal_proper; [|exact Hn]. apply Hfr, Hrest, Hin.
  - assert (¬ needsSignal (pool n) tx) as Hno by by apply Hsend.
    assert (∀ j, j ≠ stxIndex tx → sameAt j (pool n) (resetAfter q tx false)) as Hfr2 by (intros j Hj; etransitivity; [by apply Hfr|by apply resetAfter_frame]).
    exists (done ++ [tx]). split; [|unfold resetLeft; cbn; rewrite Hs, Ht; cbn; lia]. constructor; cbn; try done.
    + by rewrite H2, <-app_assoc.
    + intros tx' [Hin| ->%list_elem_of_singleton]%elem_of_app; [eapply processed_proper; [|by apply H3]; apply Hfr2, Hdone, Hin|].
      unfold processed, resetAfter, needsSignal in *. destruct (txToFreeze tx); cbn; unfold cacheDelete; rewrite ?lookup_delete_eq, ?lookup_insert_eq; [|done].
      rewrite Hf. split; [|done]. by apply eq_None_not_Some.
    + intros j Hj _. rewrite fmap_app, not_elem_of_app in Hj. destruct Hj as [Hj1 Hj2]. etransitivity; [apply H4; [done|done]|]. apply Hfr2. intros ->. apply Hj2. by left.
    + intros tx' Hin Hn. destruct (H6 tx' ltac:(by right)) as (Ho & Hh); [eapply needsSignal_proper; [|exact Hn]; apply Hfr2, Hrest, Hin|].
      split; [|done]. cbn. destruct (Hfr2 (stxIndex tx') (Hrest tx' Hin)) as (_ & _ & _ & <- & _). done.
Qed.

(** A handler takes what is sent; any handler on the channel may. *)
Lemma signalNext_resetting p0 (txs done : list txdata) n t b nn n' :
  NoDup (stxIndex <$> txs) → resetting p0 txs done n → signalNext encodeState n t b nn = Next n' →
  ∃ done', resetting p0 txs done' n' ∧ (S (resetLeft n') ≤ resetLeft n)%nat.
Proof.
  intros Hnd [H1 H2 H3 H4 H5 H6] E. unfold signalNext in E. destruct (sending n) as [v|] eqn:Hs; [|done]. destruct (H5 v eq_refl) as (tx & rest & Ht & Hrec & Hca). rewrite Ht in *.
  rewrite (proj1 Hrec) in E. destruct (handlers n !! t) as [h|] eqn:Hh; [|done]. case_decide as Hli; [|done].
  destruct (receive_total n t v b nn h _ Hli) as (n1 & Hrc & Hpool & Hother). rewrite Hrc in E. injection E as <-.
  rewrite H2, fmap_app, fmap_cons in Hnd. apply NoDup_app in Hnd as (Hnd1 & Hnd2 & Hnd3). apply NoDup_cons in Hnd3 as [Hni Hnd3].
  assert (∀ tx', tx' ∈ done → stxIndex tx' ≠ stxIndex tx) as Hdone by (intros tx' Hin Heq; apply (Hnd2 (stxIndex tx')); [by apply list_elem_of_fmap_2|rewrite Heq; by left]).
  assert (∀ tx', tx' ∈ rest → stxIndex tx' ≠ stxIndex tx) as Hrest by (intros tx' Hin Heq; apply Hni; rewrite <-Heq; by apply list_elem_of_fmap_2).
  assert (∀ j, j ≠ stxIndex tx → sameAt j (pool n) (resetAfter (pool n1) tx true)) as Hfr by (intros j Hj; rewrite Hpool; by apply resetAfter_frame).
  exists (done ++ [tx]). split; [|unfold resetLeft; cbn; rewrite Hs, Ht; cbn; lia]. constructor; cbn; try done.
  - by rewrite H2, <-app_assoc.
  - intros tx' [Hin| ->%list_elem_of_singleton]%elem_of_app; [eapply processed_proper; [|by apply H3]; apply Hfr, Hdone, Hin|].
    rewrite Hpool. unfold processed, resetAfter. destruct (txToFreeze tx); cbn; unfold cacheDelete; rewrite ?lookup_delete_eq, ?lookup_insert_eq; eauto.
  - intros j Hj _. rewrite fmap_app, not_elem_of_app in Hj. destruct Hj as [Hj1 Hj2]. assert (j ≠ stxIndex tx) by (intros ->; apply Hj2; by left).
    etransitivity; [apply H4; [done|]|by apply Hfr]. intros v' tx' rest' _ [= <- <-]. done.
  - intros tx' Hin Hn. destruct (H6 tx' ltac:(done)) as (Ho & t' & h' & Ht' & Hl'); [eapply needsSignal_proper; [|exact Hn]; apply Hfr, Hrest, Hin|].
    split; [cbn; destruct (Hfr (stxIndex tx') (Hrest tx' Hin)) as (_ & _ & _ & <- & _); done|]. exists t', h'. split; [|done]. cbn. rewrite Hother; [done|].
    intros ->. rewrite Hh in Ht'. injection Ht' as <-. rewrite Hli in Hl'. injection Hl' as Hl'. by apply (Hrest tx' Hin).
Qed.

Lemma run_resetting p0 (txs : list txdata) evs : ∀ dn n n',
  NoDup (stxIndex <$> txs) → resetting p0 txs dn n → Forall calm evs → run n evs = Next n' →
  ∃ done', resetting p0 txs done' n' ∧ (length (List.filter ofReset evs) + resetLeft n' ≤ resetLeft n)%nat.
Proof.
  induction evs as [|ev evs IH]; intros dn n n' Hnd Hr Hc E; cbn in E; [injection E as <-; exists dn; split; [done|cbn [List.filter length]; lia]|].
  apply Forall_cons in Hc as [Hev Hc]. destruct (step n ev) as [n1| |] eqn:Es; [|done..].
  assert (∃ done1, resetting p0 txs done1 n1 ∧ ((if ofReset ev then 1 else 0) + resetLeft n1 ≤ resetLeft n)%nat) as (done1 & Hr1 & Hl1).
  { destruct (ofReset ev) eqn:Eo.
    - destruct ev; try done; cbn [nodeStep] in Es; [by eapply resetNext_resetting|by eapply signalNext_resetting].
    - destruct (resetting_keeps p0 txs dn n n1 Hr) as [? Heq]; [by eapply calm_keeps; [apply Hr|..]|]. exists dn. split; [done|]. rewrite Heq. done. }
  destruct (IH done1 n1 n' Hnd Hr1 Hc E) as (done2 & Hr2 & Hl2). exists done2. split; [done|]. cbn [List.filter]. destruct (ofReset ev); cbn [length]; lia.
Qed.

(** C32: A [reset] with distinct indices in which every transaction that a handler waits for has a
    receiver on an open channel, in every interleaving with the other goroutines in which no
    handler times out, no commit request arrives and the node is not stopped: it takes at most
    two steps per transaction before it releases the mutex, at each point it has a next step,
    no step of it panics, and when it releases the mutex every transaction of the block is
    processed: a frozen index has left [freezeCache] for [cached], a committed one has left
    [committed] and is recorded; the other indices are as before. *)
Theorem reset_completes n evs n' :
  locked n = true → sending n = None → NoDup (stxIndex <$> todo n) →
  (∀ tx, tx ∈ todo n → needsSignal (pool n) tx → hasReceiver n (stxIndex tx)) →
  Forall calm evs → run n evs = Next n' →
  (length (List.filter ofReset evs) ≤ 2 * length (todo n))%nat
  ∧ (∃ ev n'', ofReset ev = true ∧ step n' ev = Next n'') ∧ (∀ ev, ofReset ev = true → step n' ev ≠ Panics)
  ∧ (∀ n'', step n' EvUnlock = Next n'' → locked n'' = false
       ∧ (∀ tx, tx ∈ todo n → processed (pool n'') tx) ∧ (∀ j, j ∉ stxIndex <$> todo n → sameAt j (pool n) (pool n''))).
Proof.
  intros Hl Hs Hnd Hrec Hc E. assert (resetting (pool n) (todo n) [] n) as H0.
  { constructor; try done; [by intros tx ?%elem_of_nil|by rewrite Hs|by rewrite Hs]. }
  destruct (run_resetting _ _ _ _ _ _ Hnd H0 Hc E) as (done & [H1 H2 H3 H4 H5 H6] & Hlen). unfold resetLeft in Hlen. rewrite Hs in Hlen. split; [lia|]. split; [|split].
  - destruct (sending n') as [v|] eqn:Es.
    + destruct (H5 v eq_refl) as (tx & rest & Ht & (Ho & t & h & Hh & Hli) & _). destruct (receive_total n' t v 0 0 h _ Hli) as (n1 & Hrc & _).
      eexists (EvSignal t 0 0), _. split; [done|]. cbn [nodeStep]. unfold signalNext. by rewrite Es, Ht, Ho, Hh, decide_True, Hrc by done.
    + destruct (todo n') as [|tx rest] eqn:Et.
      * eexists EvUnlock, _. split; [done|]. cbn [nodeStep]. by rewrite H1, Es, Et.
      * exists EvReset. cbn [nodeStep]. unfold resetNext. rewrite H1, Es, Et. destruct (resetBefore (pool n') tx) as [q [v|]]; eauto.
  - intros ev Hev. destruct ev; try done; cbn [nodeStep]; [unfold resetNext; by repeat case_match| |by repeat case_match].
    unfold signalNext. destruct (sending n') as [v|] eqn:Es; [|done]. destruct (H5 v eq_refl) as (tx & rest & Ht & (Ho & _) & _). rewrite Ht, Ho. by repeat case_match.
  - intros n'' Eu. cbn [nodeStep] in Eu. rewrite H1 in Eu. destruct (sending n') eqn:Es; [done|]. destruct (todo n') eqn:Et; [|done]. injection Eu as <-. rewrite app_nil_r in H2. subst done.
    split; [done|]. split; [exact H3|]. intros j Hj. by apply H4.
Qed.

(** ** A [reset] without a receiver never returns *)

(** A handler that will not receive from the channel of [i] while the mutex is held. *)
Definition deaf (i : Z) (h : handler) : Prop :=
  match h with
  | Proposing req | WaitPropose _ req _ => prIndex req ≠ i
  | WaitCommit req _ => crIndex req ≠ i
  | _ => True
  end.

(** A handler that still has to reply. *)
Definition waitsForMutex (h : handler) : Prop :=
  match h with Freezing _ | Committing _ | ClosePropose _ _ | CloseCommit _ => True | _ => False end.

Definition stuck (n : node) (i : Z) : Prop :=
  locked n = true ∧ is_Some (sending n) ∧ (∃ tx rest, todo n = tx :: rest ∧ stxIndex tx = i)
  ∧ Signal (pool n) !! i = Some chanOpen ∧ map_Forall (λ _, deaf i) (handlers n).

(** The events that do not bring a new request for the index and do not stop the node. *)
Definition unrelated (i : Z) (ev : event) : Prop :=
  match ev with
  | EvPropose _ req => prIndex req ≠ i
  | EvCommit _ req => crIndex req ≠ i
  | EvStop => False
  | _ => True
  end.

(** What a step from a stuck node to another keeps: who waits for the mutex keeps waiting, and
    the head events pile up, [k] more of them. *)
Definition stays (n n' : node) (i : Z) (k : nat) : Prop :=
  stuck n' i ∧ (∀ t h, handlers n !! t = Some h → waitsForMutex h → handlers n' !! t = Some h)
  ∧ length (queue n') = (length (queue n) + k)%nat.

Lemma stays_setHandler n n0 i t h' :
  stuck n0 i → handlers n0 = handlers n → queue n0 = queue n →
  (∀ h, handlers n !! t = Some h → ¬ waitsForMutex h) → deaf i h' → stays n (setHandler n0 t h') i 0.
Proof.
  intros (?&?&?&?&?) Hh Hq Hw Hd. split; [split_and!; try done; by apply map_Forall_insert_2|].
  split; [|by rewrite <-Hq, Nat.add_0_r]. intros t1 h Ht1 Hw1. cbn. rewrite lookup_insert_ne; [by rewrite Hh|].
  intros <-. by apply (Hw h).
Qed.

Lemma stuck_setPool n i p : stuck n i → Signal p !! i = Signal (pool n) !! i → stuck (setPool n p) i.
Proof. intros (?&?&?&Hs&?) E. split_and!; try done. by rewrite <-Hs. Qed.

Lemma deaf_listens i h : deaf i h → listens h ≠ Some i.
Proof. destruct h as [|? |[] ? []|? ?|?|? []|?|?]; try done; cbn; congruence. Qed.

Lemma receive_stays n i t v b nn h n' :
  stuck n i → handlers n !! t = Some h → deaf i h → receive n t v b nn h = Some n' → stays n n' i 0.
Proof.
  intros Hst Hh Hd Hr. assert (stays n n i 0) by (split; [done|split; [auto|lia]]).
  destruct h as [|? |[] ? []|? ?|?|? []|?|?]; try done; cbn in Hr; case_match; simplify_eq; try done;
    apply stays_setHandler; try done; intros h1 E1; rewrite Hh in E1; injection E1 as <-; cbn; tauto.
Qed.

Lemma handlerStep_stays n i t h ev n' :
  stuck n i → handlers n !! t = Some h → deaf i h → handlerStep n t h ev = Next n' → stays n n' i 0.
Proof.
  intros Hst Hh Hd E. pose proof Hst as (Hl & _). 
  assert (∀ h', ¬ waitsForMutex h → deaf i h' → stays n (setHandler n t h') i 0) as Hset.
  { intros h' Hw Hd'. apply stays_setHandler; try done. intros h1 H1. by simplify_eq. }
  destruct ev; try done.
  - destruct h; try done. cbn in E. case_match; simplify_eq/=; apply Hset; cbn in *; tauto.
  - destruct h; try done. cbn in E. by rewrite Hl in E.
  - destruct h; try done. cbn in E. by rewrite Hl in E.
  - destruct h; try done; cbn in E; case_match; simplify_eq/=; apply Hset; cbn in *; tauto.
  - cbn in E. destruct (listens h) as [j|]; [|done]. case_match; [|done]. case_match eqn:Er; [|done]. simplify_eq.
    by eapply receive_stays.
  - destruct h; try done; cbn in E; by rewrite Hl in E.
Qed.

Lemma stuck_step n i ev n' :
  stuck n i → unrelated i ev → step n ev = Next n' →
  stays n n' i (match ev with EvInsert _ => 1 | _ => 0 end)
  ∧ (length (queue n') ≤ length (queue n) `max` chainHeadChanSize)%nat.
Proof.
  intros Hst Hun E. pose proof Hst as (Hl & [v Hv] & (tx & rest & Ht & Hi) & Hop & Hd).
  assert (∀ k, stays n n' i k → (k = 0)%nat → stays n n' i k ∧ (length (queue n') ≤ length (queue n) `max` chainHeadChanSize)%nat)
    as Hk by (intros k Hs ->; split; [done|]; destruct Hs as (_ & _ & ->); lia).
  destruct ev; cbn [nodeStep] in E;
    try (unfold onHandler in E; destruct (handlers n !! t) as [h|] eqn:Eh; [|done]; apply Hk; [|done];
         by eapply handlerStep_stays; [| |apply (Hd t)|]).
  - apply Hk; [|done]. unfold arrive in E. destruct (handlers n !! t) eqn:Eh; simplify_eq.
    apply stays_setHandler; try done. intros ?. by rewrite Eh.
  - apply Hk; [|done]. unfold arrive in E. destruct (handlers n !! t) eqn:Eh; simplify_eq.
    unfold commitArrives. repeat case_match; apply stays_setHandler; try done; try (intros ?; by rewrite Eh);
      by apply stuck_setPool.
  - case_decide as Hlt; simplify_eq. split; [|cbn; rewrite length_app; cbn; lia].
    split; [by split_and!; eauto|]. split; [done|]. cbn. by rewrite length_app.
  - unfold takeHead in E. by rewrite Hl in E.
  - unfold resetNext in E. by rewrite Hl, Hv in E.
  - unfold signalNext in E. rewrite Hv, Ht, Hi, Hop in E. destruct (handlers n !! t) as [h|] eqn:Eh; [|done].
    case_decide as Hli; [|done]. by destruct (deaf_listens i h (Hd t h Eh)).
  - by rewrite Hl, Hv in E.
  - by rewrite Hl in E.
  - by rewrite Hl in E.
  - done.
Qed.

Definition isInsert (ev : event) : bool := match ev with EvInsert _ => true | _ => false end.

(** Once [reset] waits on a channel that no handler listens to, it holds the mutex through
    every continuation without a new request for that index: every handler that needs the mutex
    waits for ever, and the chain can post no more than a buffer of head events. *)
Lemma stuck_forever n i evs n' :
  stuck n i → Forall (unrelated i) evs → run n evs = Next n' →
  stays n n' i (length (List.filter isInsert evs)) ∧ (length (queue n') ≤ length (queue n) `max` chainHeadChanSize)%nat.
Proof.
  intros Hst Hun. revert n Hst. induction Hun as [|ev evs Hu _ IH]; intros n Hst E; cbn in E.
  { simplify_eq. split; [split; [done|split; [auto|cbn; lia]]|lia]. }
  destruct (step n ev) as [n1| |] eqn:Es; [|done..].
  destruct (stuck_step n i ev n1 Hst Hu Es) as [(Hst1 & Hw1 & Hq1) Hle1].
  destruct (IH n1 Hst1 E) as [(Hst2 & Hw2 & Hq2) Hle2].
  split; [split; [done|split; [auto|]]|lia]. rewrite Hq2, Hq1. destruct ev; cbn; lia.
Qed.

(** ** Runs of one migration *)

Lemma run_cons n ev evs n1 o : step n ev = Next n1 → run n1 evs = o → run n (ev :: evs) = o.
Proof. intros E <-. cbn. by rewrite E. Qed.

Lemma FreezeCache_single p i tx :
  freezeCache p = <[i := tx]> ∅ → freezeReadTxList p !! i = None →
  FreezeCache p = ([tx], setFreezeRead p (<[i := 1]> (freezeReadTxList p))).
Proof.
  intros E Hr. unfold FreezeCache, Count, cacheRange. rewrite E, insert_empty, map_size_singleton, map_to_list_singleton.
  cbn. by rewrite Hr.
Qed.

Lemma Committed_single p i tx :
  committed p = <[i := tx]> ∅ → committedReadTxList p !! i = None →
  Committed p = ([tx], setCommittedRead p (<[i := 1]> (committedReadTxList p))).
Proof.
  intros E Hr. unfold Committed, Count, cacheRange. rewrite E, insert_empty, map_size_singleton, map_to_list_singleton.
  cbn. by rewrite Hr.
Qed.

(** Evaluate the next step: the lookups of the few entries that the run created. *)
Ltac unfoldPool :=
  unfold arrive, onHandler, takeHead, resetNext, signalNext, CloseSignal, addFreezeTransaction, addCachedTransaction,
    addTxFreeze, addTxCached, resetBefore, resetAfter, GetSignal, InitSignal, isClosed, cacheGet, cacheSet, cacheDelete,
    setFreezeCache, setCached, setCommitted, setSignals, setCommittedTxList, setFreezeRead, setCommittedRead,
    deleteTxFromFreeze, deleteTxFromCached, deleteTxFromCommitted, RecordCommittedTx, GetCommittedTx, CachedById,
    addCommitted, addCommittedTransaction, addTxCommitted, commitArrives, proposeArrives, setHandler, setPool, setReset,
    setChain, setFollowerType, newNode, NewCommitPool, emptyPool, NewCache in *.
Ltac lookups :=
  repeat first
    [ rewrite lookup_insert_eq | rewrite lookup_empty | rewrite lookup_delete_eq
    | rewrite lookup_insert_ne by done | rewrite Z.eqb_refl | rewrite decide_True by done
    | match goal with E : (_ =? _) = _ |- _ => rewrite E | E : decodeState _ = Some _ |- _ => rewrite E end
    | progress cbn | progress unfoldPool ].
Ltac step1 :=
  eapply run_cons; [cbn [nodeStep]; lookups; reflexivity|].

(** A node whose current block carries no state transfer, two blocks after it, a proposal, the
    freeze transaction the pool makes of it, the account's data as the source follower encodes
    it, and the commit request and commit transaction made of that. *)
Section scenario.
Context (shard index source target addr h0 h1 h2 balance nonce : Z).
Definition block0 : blk := mkBlk h0 0 0 [].
Definition block1 (txs : list txdata) : blk := mkBlk h1 h0 1 txs.
Definition block2 (txs : list txdata) : blk := mkBlk h2 h1 2 txs.
Definition propose : ProposeRequest := mkProposeRequest index source target addr.
Definition freezeTx : txdata := NewStateTransferTransaction source target 0 addr (Some 0) 0 [] true index.
Definition accountData : StateData := mkStateData addr (Some balance) nonce [] 0.
Definition commit : CommitRequest := mkCommitRequest index source target addr (encodeState accountData).
Definition commitTx : txdata := NewStateTransferTransaction source target 0 addr (Some balance) nonce [] false index.
Definition proposeEvents : list event := [EvPropose 0 propose; EvCheck 0; EvFreeze 0].
Definition blockEvents (b : blk) : list event := [EvInsert b; EvHead true true; EvReset].
Definition role : FollowerType := if target =? shard then TARGET else SOURCE.
Definition rolePayload : bytes := if target =? shard then [] else encodeState accountData.

(** One migration through a follower of either shard: the producer is handed the freeze
    transaction of the proposal; its block answers the proposal, with the account's data on the
    source side; the commit request yields the commit transaction with that balance and nonce;
    its block answers the commit, the index leaves all three caches and is recorded. *)
Theorem migration_round :
  decodeState (encodeState accountData) = Some accountData →
  ∃ n1 n2 n3 n4,
    run (newNode shard block0) proposeEvents = Next n1 ∧ (FreezeCache (pool n1)).1 = [freezeTx]
    ∧ run n1 ([EvFreezeCache] ++ blockEvents (block1 [freezeTx]) ++ [EvSignal 0 balance nonce; EvUnlock]) = Next n2
    ∧ handlers n2 !! 0%nat = Some (Replied (ProposeReply ACK index role addr rolePayload))
    ∧ run n2 [EvCommit 1 commit; EvAdd 1] = Next n3 ∧ (Committed (pool n3)).1 = [commitTx]
    ∧ run n3 ([EvCommitted] ++ blockEvents (block2 [commitTx]) ++ [EvSignal 1 0 0; EvUnlock; EvClose 1]) = Next n4
    ∧ handlers n4 !! 1%nat = Some (Replied (CommitReply ACK index role))
    ∧ freezeCache (pool n4) !! index = None ∧ cached (pool n4) !! index = None ∧ committed (pool n4) !! index = None
    ∧ committedTxList (pool n4) !! index = Some 1 ∧ locked n4 = false.
Proof.
  intros Hrt. unfold role, rolePayload. destruct (target =? shard) eqn:Er; eexists _, _, _, _.
  all: split; [cbn [proposeEvents]; step1; step1; step1; reflexivity|].
  all: split; [cbn [pool]; by erewrite FreezeCache_single|].
  all: split; [cbn [app blockEvents]; eapply run_cons; [cbn [nodeStep pool locked]; by erewrite FreezeCache_single|];
               step1; step1; step1; step1; step1; reflexivity|].
  all: split; [cbn; by lookups|].
  all: split; [step1; step1; reflexivity|].
  all: split; [cbn [pool]; by erewrite Committed_single|].
  all: split; [cbn [app blockEvents]; eapply run_cons; [cbn [nodeStep pool locked]; by erewrite Committed_single|];
               step1; step1; step1; step1; step1; step1; reflexivity|].
  all: cbn; lookups; done.
Qed.

(** If the proposal's timeout fires while [reset] is sending, the follower is lost: [reset] holds
    the mutex and waits for a receiver, the handler waits for the mutex to close the channel.
    No continuation without a new request for the index releases the mutex or answers the
    proposal, and the chain blocks after one buffer of head events. *)
Theorem timeout_deadlocks :
  ∃ n, run (newNode shard block0) (proposeEvents ++ blockEvents (block1 [freezeTx]) ++ [EvTimeout 0]) = Next n ∧
  ∀ evs n', Forall (unrelated index) evs → run n evs = Next n' →
    locked n' = true ∧ handlers n' !! 0%nat = Some (ClosePropose role propose)
    ∧ (length (List.filter isInsert evs) ≤ chainHeadChanSize)%nat.
Proof.
  eexists. split; [cbn [app proposeEvents blockEvents]; step1; step1; step1; step1; step1; step1; step1; reflexivity|].
  intros evs n' Hun Hrun. apply (stuck_forever _ index) in Hrun as [((Hl & _) & Hw & Hq) Hle]; [| |done].
  - split_and!; [done| |cbn in *; lia].
    apply Hw; [cbn; by lookups|done].
  - split_and!; [done|done|by eexists freezeTx, []|cbn; by lookups|].
    cbn. rewrite !insert_insert_eq. by apply map_Forall_insert_2; [|apply map_Forall_empty].
Qed.

(** The commit handler acknowledges a commit that timed out: no block carries it, the
    transaction is still in [committed] and the index is not recorded. *)
Theorem commit_timeout_acks :
  decodeState (encodeState accountData) = Some accountData →
  ∃ n, run (newNode shard block0)
         (proposeEvents ++ blockEvents (block1 [freezeTx])
          ++ [EvSignal 0 balance nonce; EvUnlock; EvCommit 1 commit; EvAdd 1; EvTimeout 1; EvClose 1]) = Next n
  ∧ handlers n !! 1%nat = Some (Replied (CommitReply ACK index role))
  ∧ committed (pool n) !! index = Some commitTx ∧ committedTxList (pool n) !! index = None.
Proof.
  intros Hrt. unfold role. destruct (target =? shard) eqn:Er; eexists.
  all: split; [cbn [app proposeEvents blockEvents]; do 12 step1; reflexivity|].
  all: cbn; lookups; done.
Qed.

(** A proposal that timed out stays in [freezeCache] with its channel closed: the block that
    freezes it, and on the source side the coordinator's retry, panic the follower. *)
Theorem nack_poisons :
  run (newNode shard block0)
    (proposeEvents ++ [EvTimeout 0; EvClose 0] ++ blockEvents (block1 [freezeTx]) ++ [EvSignal 0 0 0]) = Panics
  ∧ (target ≠ shard →
     run (newNode shard block0)
       (proposeEvents ++ [EvTimeout 0; EvClose 0; EvPropose 1 propose; EvCheck 1; EvFreeze 1; EvClosed 1; EvClose 1])
     = Panics).
Proof.
  split.
  - cbn [app proposeEvents blockEvents]. do 8 step1. cbn [nodeRun nodeStep]. by lookups.
  - intros Ht%Z.eqb_neq. cbn [app proposeEvents]. do 9 step1. cbn [nodeRun nodeStep]. by lookups.
Qed.

(** A proposal that reaches the follower after the block that freezes its index waits on a nil
    channel, and panics when it times out. *)
Theorem late_propose_panics :
  run (newNode shard block0)
    (blockEvents (block1 [freezeTx]) ++ [EvUnlock; EvPropose 0 propose; EvCheck 0; EvTimeout 0; EvClose 0]) = Panics.
Proof. cbn [app blockEvents]. do 7 step1. cbn [nodeRun nodeStep]. by lookups. Qed.

(** Two blocks inserted before the loop wakes: both head events read the second block, so the
    freeze of the first is never processed and its proposal keeps waiting. *)
Theorem skipped_block :
  ∃ n, run (newNode shard block0)
         (proposeEvents ++ [EvInsert (block1 [freezeTx]); EvInsert (block2 []); EvHead true true; EvUnlock;
                            EvHead true true; EvUnlock]) = Next n
  ∧ queue n = [] ∧ freezeCache (pool n) !! index = Some freezeTx ∧ cached (pool n) !! index = None
  ∧ handlers n !! 0%nat = Some (WaitPropose role propose true).
Proof.
  eexists. split; [cbn [app proposeEvents]; do 9 step1; reflexivity|]. cbn. lookups. done.
Qed.

(** The shared [FollowerType]: a proposal for which this shard is the target, arriving in
    between, makes the source's proposal answer as a target, without the account's data. *)
Theorem follower_type_race (index' source' addr' : Z) :
  target ≠ shard →
  ∃ n, run (newNode shard block0)
         ([EvPropose 0 propose; EvPropose 1 (mkProposeRequest index' source' shard addr'); EvCheck 0; EvFreeze 0]
          ++ blockEvents (block1 [freezeTx]) ++ [EvSignal 0 balance nonce]) = Next n
  ∧ handlers n !! 0%nat = Some (Replied (ProposeReply ACK index TARGET addr [])).
Proof.
  intros Ht%Z.eqb_neq. eexists. split; [cbn [app blockEvents]; do 8 step1; reflexivity|]. cbn. by lookups.
Qed.

End scenario.

(** [Stop] panics on a node that ever closed a channel: closed channels stay in the map. *)
Lemma stop_panics n i : Signal (pool n) !! i = Some chanClosed → step n EvStop = Panics.
Proof.
  intros Hc. cbn. unfold CloseAllSignal. rewrite decide_False; [done|]. intros Hall. by specialize (Hall i _ Hc).
Qed.
End steps.

(** ** Witnesses *)
Definition demoEncode (s : StateData) : bytes := [sdAddress s; default (-1) (sdBalance s); sdNonce s; sdBlockHeight s].
Definition demoDecode (b : bytes) : option StateData :=
  match b with [a; bal; non; h] => Some (mkStateData a (if bal =? -1 then None else Some bal) non [] h) | _ => None end.

(** A source follower of shard 0 migrates account 77 to shard 1 as index 5. *)
Definition demoRun : list event :=
  proposeEvents 5 0 1 77 ++ [EvFreezeCache] ++ blockEvents (block1 10 11 [freezeTx 5 0 1 77])
  ++ [EvSignal 0 300 4; EvUnlock; EvCommit 1 (commit demoEncode 5 0 1 77 300 4); EvAdd 1; EvCommitted]
  ++ blockEvents (block2 11 12 [commitTx 5 0 1 77 300 4]) ++ [EvSignal 1 0 0; EvUnlock; EvClose 1].
Definition nodeAfter (evs : list event) : node :=
  match nodeRun demoEncode demoDecode (newNode 0 (block0 10)) evs with Next n => n | _ => newNode 0 (block0 10) end.
Definition demoNode : node := Eval vm_compute in nodeAfter demoRun.
Definition demoReset : node := Eval vm_compute in nodeAfter (take 6 demoRun).

Lemma CommitPool_invariant_witness :
  poolInv (pool demoNode) ∧ (locked demoNode = false → todo demoNode = [] ∧ sending demoNode = None) ∧ sendOk demoNode.
Proof. apply (CommitPool_invariant demoEncode demoDecode 0 (block0 10) demoRun). vm_compute. reflexivity. Defined.

Lemma propose_ack_after_block_witness :
  ∃ b tx, (b = block0 10 ∨ EvInsert b ∈ demoRun) ∧ tx ∈ bSttxs b ∧ txToFreeze tx = true ∧ stxIndex tx = 5.
Proof.
  apply (propose_ack_after_block demoEncode demoDecode 0 (block0 10) demoRun demoNode 0%nat 5 SOURCE 77 [77; 300; 4; 0]);
    vm_compute; reflexivity.
Defined.

Lemma commit_ack_after_block_witness :
  ∃ b tx, (b = block0 10 ∨ EvInsert b ∈ demoRun) ∧ tx ∈ bSttxs b ∧ txToFreeze tx = false ∧ stxIndex tx = 5.
Proof.
  apply (commit_ack_after_block demoEncode demoDecode 0 (block0 10) demoRun demoNode 1%nat 5 SOURCE).
  - vm_compute. reflexivity.
  - intros t Hin. repeat (apply elem_of_cons in Hin as [Hin|Hin]; [discriminate Hin|]). by apply elem_of_nil in Hin.
  - vm_compute. reflexivity.
Defined.

(** The handler of the proposal takes the signal; meanwhile another proposal arrives and a block is inserted. *)
Definition demoResetEvents : list event := [EvPropose 9 (propose 6 0 1 78); EvReset; EvInsert (block1 11 12 []); EvSignal 0 300 4].
Lemma reset_completes_witness :
  ∃ n1 n2, nodeRun demoEncode demoDecode demoReset demoResetEvents = Next n1
    ∧ nodeStep demoEncode demoDecode n1 EvUnlock = Next n2 ∧ processed (pool n2) (freezeTx 5 0 1 77).
Proof.
  destruct (nodeRun demoEncode demoDecode demoReset demoResetEvents) as [n1| |] eqn:E; [|vm_compute in E; discriminate E..].
  exists n1. assert (∃ n2, nodeStep demoEncode demoDecode n1 EvUnlock = Next n2) as [n2 E2] by (vm_compute in E; injection E as <-; by eexists).
  exists n2. split; [reflexivity|]. split; [exact E2|].
  apply (reset_completes demoEncode demoDecode demoReset demoResetEvents n1); [reflexivity|reflexivity|apply NoDup_singleton| |repeat constructor|exact E|exact E2|by left].
  intros tx ->%list_elem_of_singleton _. split; [reflexivity|].
  exists 0%nat, (WaitPropose SOURCE (propose 5 0 1 77) true). split; reflexivity.
Defined.

Lemma migration_round_witness :
  ∃ n1 n2 n3 n4,
    nodeRun demoEncode demoDecode (newNode 0 (block0 10)) (proposeEvents 5 0 1 77) = Next n1
    ∧ (FreezeCache (pool n1)).1 = [freezeTx 5 0 1 77]
    ∧ nodeRun demoEncode demoDecode n1
        ([EvFreezeCache] ++ blockEvents (block1 10 11 [freezeTx 5 0 1 77]) ++ [EvSignal 0 300 4; EvUnlock]) = Next n2
    ∧ handlers n2 !! 0%nat = Some (Replied (ProposeReply ACK 5 SOURCE 77 [77; 300; 4; 0]))
    ∧ nodeRun demoEncode demoDecode n2 [EvCommit 1 (commit demoEncode 5 0 1 77 300 4); EvAdd 1] = Next n3
    ∧ (Committed (pool n3)).1 = [commitTx 5 0 1 77 300 4]
    ∧ nodeRun demoEncode demoDecode n3
        ([EvCommitted] ++ blockEvents (block2 11 12 [commitTx 5 0 1 77 300 4]) ++ [EvSignal 1 0 0; EvUnlock; EvClose 1])
      = Next n4
    ∧ handlers n4 !! 1%nat = Some (Replied (CommitReply ACK 5 SOURCE))
    ∧ freezeCache (pool n4) !! 5 = None ∧ cached (pool n4) !! 5 = None ∧ committed (pool n4) !! 5 = None
    ∧ committedTxList (pool n4) !! 5 = Some 1 ∧ locked n4 = false.
Proof. apply (migration_round demoEncode demoDecode 0 5 0 1 77 10 11 12 300 4). reflexivity. Defined.

Lemma commit_timeout_acks_witness :
  ∃ n, nodeRun demoEncode demoDecode (newNode 0 (block0 10))
         (proposeEvents 5 0 1 77 ++ blockEvents (block1 10 11 [freezeTx 5 0 1 77])
          ++ [EvSignal 0 300 4; EvUnlock; EvCommit 1 (commit demoEncode 5 0 1 77 300 4); EvAdd 1; EvTimeout 1; EvClose 1])
       = Next n
  ∧ handlers n !! 1%nat = Some (Replied (CommitReply ACK 5 SOURCE))
  ∧ committed (pool n) !! 5 = Some (commitTx 5 0 1 77 300 4) ∧ committedTxList (pool n) !! 5 = None.
Proof. apply (commit_timeout_acks demoEncode demoDecode 0 5 0 1 77 10 11 300 4). reflexivity. Defined.

Lemma follower_type_race_witness :
  ∃ n, nodeRun demoEncode demoDecode (newNode 0 (block0 10))
         ([EvPropose 0 (propose 5 0 1 77); EvPropose 1 (mkProposeRequest 6 1 0 88); EvCheck 0; EvFreeze 0]
          ++ blockEvents (block1 10 11 [freezeTx 5 0 1 77]) ++ [EvSignal 0 300 4]) = Next n
  ∧ handlers n !! 0%nat = Some (Replied (ProposeReply ACK 5 TARGET 77 [])).
Proof. apply (follower_type_race demoEncode demoDecode 0 5 0 1 77 10 11 300 4 6 1 88). done. Defined.
