(* ===== verification/TwoPhase.v ===== *)
(** * The two-phase commit of a migration (atomic/serverShard.go, coordinatorCache.go)

    [StateTransfer] runs on the coordinator: one goroutine per follower proposes the migration,
    the coordinator waits for all of them, and one goroutine per follower sends the commit.
    The goroutines are interleaved by the executable function [coStep].  A propose goroutine
    has its own variables; the commit goroutines share [response] and [err], as the closures of
    the code do.  One pass of a goroutine through the loop test and the code after the loop
    ([commitTest]) reads the two shared variables in one step, so a write that another goroutine
    makes between these reads is not covered.  A remote call returns a response or an error, chosen by the event.

    The second half composes the coordinator with the followers of [CommitPool]: [sysStep]
    delivers requests and replies between them.  gRPC, addresses and the start-up of the server
    are left out; the hooks of the followers accept every request, as the installed ones do. *)

From Stdlib Require Import ZArith Lia.
From stdpp Require Import base gmap list option sets relations.
From S2P Require Import Prelude Trie Journal LoadMap StateDB Accounts StateCommit StateTransfer CommitPool.
Local Open Scope Z_scope.

(** ** The coordinator's cache and the server's progress map *)
Abbreviation Cache := (gmap Z bytes).
Definition NewCoorCache : Cache := ∅.
Definition coorSet (c : Cache) (index : Z) (value : bytes) : Cache := <[index := value]> c.
Definition coorGet (c : Cache) (index : Z) : option bytes := c !! index.
Definition coorDelete (c : Cache) (index : Z) : Cache := delete index c.

Definition SetProgressForCommitPhase (m : gmap Z bool) (height : Z) (docancel : bool) : gmap Z bool := <[height := docancel]> m.
Definition HasProgressForCommitPhase (m : gmap Z bool) (height : Z) : bool := default false (m !! height).

(** ** Choosing the followers *)
Section followers.
Context {A : Type}.
Implicit Types (sf : gmap Z (list A)).

Definition shardFollowers sf (shard : Z) : list A := default [] (sf !! shard).

(** [ceil(float64(2*(len/3)))]: the division is the integer one. *)
Definition realNum (l : list A) : nat := 2 * (length l / 3).

(** The slice expression [l[:realNum+1]] panics beyond the end of the list; a list that was
    filled by [append] has its followers, and a missing one none. *)
Definition limitSlice (l : list A) : option (list A) :=
  if decide (realNum l + 1 ≤ length l)%nat then Some (take (realNum l + 1) l) else None.

Definition ObtainFollowersLimit sf (source target : Z) : option (list A) :=
  s ← limitSlice (shardFollowers sf source);
  t ← limitSlice (shardFollowers sf target);
  Some (s ++ t).

Definition ObtainFollowers sf (source target : Z) : list A := shardFollowers sf source ++ shardFollowers sf target.
End followers.

(** ** The coordinator of one transfer *)
Record TransferRequest := mkTransferRequest { trSource : Z; trTarget : Z; trPayload : Address; trIndex : Z }.
Record ProposeResponse := mkProposeResponse {
  pAcktype : AckType; pIndex : Z; pFtype : FollowerType; pAddress : Address; pPayload : bytes }.
Record Response := mkResponse { rAcktype : AckType; rIndex : Z; rFtype : FollowerType }.

(** Where a propose goroutine is: at the loop's condition, in the call, past [wg.Done], or
    returned without it. *)
Inductive proposeG :=
| PTest (responseP : option ProposeResponse) (maxAttemptNum : Z) (err : bool)
| PCall (maxAttemptNum : Z)
| PDone (responseP : ProposeResponse)
| PReturned.

(** The same for a commit goroutine, whose response and error are shared; [CPanic] reads the
    acknowledgement of a nil response. *)
Inductive commitG := CTest (maxAttemptNum : Z) | CCall (maxAttemptNum : Z) | CDone | CReturned | CPanic.

Inductive answer := AnswerACK | AnswerNACK | AnswerError.
Inductive phase := InPropose | InCommit | Answered (a : answer).

(** [commitCalls] lists the followers that [CommitTwoPhase] was called on. *)
Record coord := mkCoord {
  request : TransferRequest;
  phaseOf : phase;
  store : Cache;
  proposers : list proposeG;
  proposeRes : list ProposeResponse;
  commitRequest : option CommitRequest;
  response : option Response;
  err : bool;
  committers : list commitG;
  commitRes : list (option Response * bool);
  commitCalls : list nat;
}.

Definition newCoord (req : TransferRequest) (c : Cache) (followers : nat) : coord :=
  mkCoord req InPropose c (replicate followers (PTest None 1 false)) [] None None false [] [] [].

Definition setProposers c l : coord :=
  mkCoord (request c) (phaseOf c) (store c) l (proposeRes c) (commitRequest c) (response c) (err c) (committers c)
    (commitRes c) (commitCalls c).
Definition setProposed c st l : coord :=
  mkCoord (request c) (phaseOf c) st (proposers c) l (commitRequest c) (response c) (err c) (committers c)
    (commitRes c) (commitCalls c).
Definition setPhase c ph : coord :=
  mkCoord (request c) ph (store c) (proposers c) (proposeRes c) (commitRequest c) (response c) (err c) (committers c)
    (commitRes c) (commitCalls c).
Definition startCommit c cr (n : nat) : coord :=
  mkCoord (request c) InCommit (store c) (proposers c) (proposeRes c) cr (response c) (err c) (replicate n (CTest 1))
    (commitRes c) (commitCalls c).
Definition setShared c r e : coord :=
  mkCoord (request c) (phaseOf c) (store c) (proposers c) (proposeRes c) (commitRequest c) r e (committers c)
    (commitRes c) (commitCalls c).
Definition setCommitters c l res calls : coord :=
  mkCoord (request c) (phaseOf c) (store c) (proposers c) (proposeRes c) (commitRequest c) (response c) (err c) l res calls.

(** The capacity of the result channels, which are read only after the wait. *)
Definition chanCap : nat := 1000.

(** *** The propose phase *)
Definition proposeAgain (responseP : option ProposeResponse) (maxAttemptNum : Z) : bool :=
  match responseP with
  | None => 0 <? maxAttemptNum
  | Some r => bool_decide (pAcktype r = NACK)
  end.

Definition proposeTest (c : coord) (k : nat) : option coord :=
  match proposers c !! k with
  | Some (PTest responseP maxAttemptNum e) =>
      let go g := setProposers c (<[k := g]> (proposers c)) in
      if proposeAgain responseP maxAttemptNum then Some (go (PCall maxAttemptNum))
      else
        match responseP with
        | None => Some (go PReturned)
        | Some r =>
            if e then Some (go PReturned)
            else if decide (pAcktype r = ACK) then
              if decide (length (proposeRes c) < chanCap)%nat then
                Some (setProposed (go (PDone r)) (coorSet (store c) (trIndex (request c)) [trPayload (request c)])
                        (proposeRes c ++ [r]))
              else None
            else Some (go PReturned)
        end
  | _ => None
  end.

Definition proposeReturn (c : coord) (k : nat) (r : option ProposeResponse) : option coord :=
  match proposers c !! k with
  | Some (PCall maxAttemptNum) =>
      Some (setProposers c (<[k := PTest r (maxAttemptNum - 1) (bool_decide (r = None))]> (proposers c)))
  | _ => None
  end.

Definition isDone (g : proposeG) : bool := match g with PDone _ => true | _ => false end.

(** The commit request is made of the first response with a payload. *)
Definition makeCommitRequest (req : TransferRequest) (res : list ProposeResponse) : option CommitRequest :=
  match filter (λ r, pPayload r ≠ []) res with
  | r :: _ => Some (mkCommitRequest (pIndex r) (trSource req) (trTarget req) (pAddress r) (pPayload r))
  | [] => None
  end.

Definition proposeWait (c : coord) : option coord :=
  match phaseOf c with
  | InPropose =>
      if forallb isDone (proposers c) then
        if existsb (λ r, bool_decide (pAcktype r ≠ ACK)) (proposeRes c) then Some (setPhase c (Answered AnswerError))
        else
          match coorGet (store c) (trIndex (request c)) with
          | None => Some (setPhase c (Answered AnswerError))
          | Some _ => Some (startCommit c (makeCommitRequest (request c) (proposeRes c)) (length (proposers c)))
          end
      else None
  | _ => None
  end.

(** *** The commit phase *)
Definition commitAgain (r : option Response) (maxAttemptNum : Z) : bool :=
  match r with None => 0 <? maxAttemptNum | Some r => bool_decide (rAcktype r = NACK) end.

Definition commitTest (c : coord) (k : nat) : option coord :=
  match committers c !! k with
  | Some (CTest maxAttemptNum) =>
      let go g res calls := setCommitters c (<[k := g]> (committers c)) res calls in
      if commitAgain (response c) maxAttemptNum then
        Some (go (CCall maxAttemptNum) (commitRes c) (commitCalls c ++ [k]))
      else if decide (length (commitRes c) < chanCap)%nat then
        let res := commitRes c ++ [(response c, err c)] in
        if err c then Some (go CReturned res (commitCalls c))
        else
          match response c with
          | None => Some (go CPanic res (commitCalls c))
          | Some r => Some (go (if decide (rAcktype r = ACK) then CDone else CReturned) res (commitCalls c))
          end
      else None
  | _ => None
  end.

Definition commitReturn (c : coord) (k : nat) (r : option Response) : option coord :=
  match committers c !! k with
  | Some (CCall maxAttemptNum) =>
      Some (setShared (setCommitters c (<[k := CTest (maxAttemptNum - 1)]> (committers c)) (commitRes c) (commitCalls c))
              r (bool_decide (r = None)))
  | _ => None
  end.

Definition isCDone (g : commitG) : bool := match g with CDone => true | _ => false end.
Definition notAck (x : option Response * bool) : bool :=
  match x.1 with Some r => bool_decide (rAcktype r ≠ ACK) | None => true end.

Definition commitWait (c : coord) : option coord :=
  match phaseOf c with
  | InCommit =>
      if forallb isCDone (committers c) then
        Some (setPhase c (Answered (if existsb notAck (commitRes c) then AnswerError
                                    else if existsb snd (commitRes c) then AnswerNACK else AnswerACK)))
      else None
  | _ => None
  end.

Inductive coEvent :=
| CoTest (k : nat) | CoReturn (k : nat) (r : option ProposeResponse) | CoWait
| CmTest (k : nat) | CmReturn (k : nat) (r : option Response) | CmWait.

Definition coStep (c : coord) (ev : coEvent) : option coord :=
  match ev with
  | CoTest k => proposeTest c k
  | CoReturn k r => proposeReturn c k r
  | CoWait => proposeWait c
  | CmTest k => commitTest c k
  | CmReturn k r => commitReturn c k r
  | CmWait => commitWait c
  end.

Fixpoint coRun (c : coord) (evs : list coEvent) : option coord :=
  match evs with
  | [] => Some c
  | ev :: rest => match coStep c ev with Some c' => coRun c' rest | None => None end
  end.

(** ** Who is asked *)
Lemma realNum_bound {A} (l : list A) : l ≠ [] → (realNum l + 1 ≤ length l)%nat.
Proof.
  intros Hl. unfold realNum. assert (length l ≠ 0)%nat by (by destruct l).
  pose proof (Nat.div_mod_eq (length l) 3). pose proof (Nat.mod_upper_bound (length l) 3). lia.
Qed.

Lemma limitSlice_Some {A} (l : list A) : l ≠ [] → limitSlice l = Some (take (realNum l + 1) l).
Proof. intros Hl. unfold limitSlice. by rewrite decide_True by by apply realNum_bound. Qed.

Lemma limitSlice_None {A} (l : list A) : limitSlice l = None ↔ l = [].
Proof. split; [|by intros ->]. intros Hn. destruct l; [done|]. by rewrite limitSlice_Some in Hn. Qed.

(** [ObtainFollowersLimit] panics exactly when one of the two shards has no follower; otherwise
    it returns a prefix of each shard's followers, never empty, and the prefix is more than two
    thirds of a shard exactly when the number of its followers is not two modulo three. *)
Theorem ObtainFollowersLimit_spec {A} (sf : gmap Z (list A)) source target :
  (ObtainFollowersLimit sf source target = None ↔ shardFollowers sf source = [] ∨ shardFollowers sf target = [])
  ∧ (∀ fs, ObtainFollowersLimit sf source target = Some fs →
      ∃ s t, fs = s ++ t ∧ s `prefix_of` shardFollowers sf source ∧ t `prefix_of` shardFollowers sf target
        ∧ s ≠ [] ∧ t ≠ []
        ∧ (2 * length (shardFollowers sf source) < 3 * length s ↔ length (shardFollowers sf source) mod 3 ≠ 2)%nat
        ∧ (2 * length (shardFollowers sf target) < 3 * length t ↔ length (shardFollowers sf target) mod 3 ≠ 2)%nat).
Proof.
  unfold ObtainFollowersLimit. split.
  - destruct (limitSlice (shardFollowers sf source)) eqn:Es; cbn.
    + destruct (limitSlice (shardFollowers sf target)) eqn:Et; cbn.
      * split; [done|]. intros [E|E]; apply limitSlice_None in E; congruence.
      * apply limitSlice_None in Et. split; auto.
    + apply limitSlice_None in Es. split; auto.
  - assert (∀ l s : list A, limitSlice l = Some s → s `prefix_of` l ∧ s ≠ []
        ∧ (2 * length l < 3 * length s ↔ length l mod 3 ≠ 2)%nat) as Hone.
    { intros l s E. destruct (decide (l = [])) as [->|Hl]; [done|]. pose proof (realNum_bound l Hl) as Hb.
      rewrite limitSlice_Some in E by done. simplify_eq. split; [apply prefix_take|].
      split; [intros E%(f_equal length); rewrite length_take in E; cbn in E; lia|].
      rewrite length_take_le by done. unfold realNum.
      pose proof (Nat.div_mod_eq (length l) 3). pose proof (Nat.mod_upper_bound (length l) 3). lia. }
    intros fs E. inv_bind. rename x into s, x0 into t.
    destruct (Hone _ _ E0) as (? & ? & ?). destruct (Hone _ _ E1) as (? & ? & ?).
    by exists s, t.
Qed.

(** ** The invariant of the coordinator

    [P k r] holds of the responses that follower [k] gave. *)
Section coordinator.
Context (P : nat → ProposeResponse → Prop).

Definition proposerOk (k : nat) (g : proposeG) : Prop :=
  match g with
  | PTest (Some r) _ _ => P k r
  | PDone r => P k r ∧ pAcktype r = ACK
  | _ => True
  end.

Record coInv (c : coord) : Prop := {
  ci_proposers : ∀ k g, proposers c !! k = Some g → proposerOk k g;
  ci_res : ∀ r, r ∈ proposeRes c → ∃ k, proposers c !! k = Some (PDone r);
  ci_phase : phaseOf c ≠ InPropose → forallb isDone (proposers c) = true;
  ci_commit : phaseOf c = InPropose → committers c = [] ∧ commitCalls c = [] ∧ commitRequest c = None;
  ci_request : ∀ cr, commitRequest c = Some cr → ∃ k r, proposers c !! k = Some (PDone r) ∧ pPayload r ≠ []
    ∧ cr = mkCommitRequest (pIndex r) (trSource (request c)) (trTarget (request c)) (pAddress r) (pPayload r);
}.

Definition coAllowed (ev : coEvent) : Prop :=
  match ev with CoReturn k (Some r) => P k r | _ => True end.

(** A goroutine that is not done moves on. *)
Lemma setProposers_inv c k g g' :
  coInv c → proposers c !! k = Some g → isDone g = false → proposerOk k g' →
  coInv (setProposers c (<[k := g']> (proposers c))).
Proof.
  intros [Hp Hr Hph Hc Hq] Hk Hg Hg'.
  assert (∀ j r, proposers c !! j = Some (PDone r) → <[k:=g']> (proposers c) !! j = Some (PDone r)) as Hkeep.
  { intros j r Hj. rewrite list_lookup_insert_ne; [done|]. intros <-. by simplify_eq/=. }
  constructor; cbn; try done.
  - intros j g1 Hj. apply list_lookup_insert_Some in Hj as [(<- & <- & _)|[_ Hj]]; eauto.
  - intros r Hin. destruct (Hr r Hin) as [j Hj]. eauto.
  - intros Hn. specialize (Hph Hn). exfalso. rewrite forallb_forall in Hph.
    rewrite (Hph g) in Hg; [done|]. apply list_elem_of_In. by eapply list_elem_of_lookup_2.
  - intros cr Hcr. destruct (Hq cr Hcr) as (j & r & Hj & ?). eauto 10.
Qed.

Lemma proposeTest_inv c k c' : coInv c → proposeTest c k = Some c' → coInv c'.
Proof.
  intros Hc E. unfold proposeTest in E. destruct (proposers c !! k) as [[resp mx e| | |]|] eqn:Ek; try done.
  pose proof (ci_proposers _ Hc k _ Ek) as Hok.
  assert (∀ g, proposerOk k g → coInv (setProposers c (<[k:=g]> (proposers c)))) as Hset
    by (intros g Hg; by eapply setProposers_inv).
  case_match; [simplify_eq; by apply Hset|]. destruct resp as [r|]; [|simplify_eq; by apply Hset].
  destruct e; [simplify_eq; by apply Hset|]. case_decide as Hack; [|simplify_eq; by apply Hset].
  case_decide; simplify_eq. destruct (Hset (PDone r) (conj Hok Hack)) as [Hp Hr Hph Hcm Hq].
  constructor; try done. cbn in *. intros r' [Hin| ->%list_elem_of_singleton]%elem_of_app; [by apply Hr|].
  exists k. rewrite list_lookup_insert_eq; [done|]. by eapply lookup_lt_Some.
Qed.

Lemma coStep_inv c ev c' : coInv c → coAllowed ev → coStep c ev = Some c' → coInv c'.
Proof.
  intros Hc Ha E. destruct ev; cbn [coStep] in E.
  - by eapply proposeTest_inv.
  - unfold proposeReturn in E. destruct (proposers c !! k) as [[| | |]|] eqn:Ek; simplify_eq.
    eapply setProposers_inv; [done|done|done|]. by destruct r.
  - unfold proposeWait in E. destruct (phaseOf c) eqn:Eph; try done. case_match eqn:Ed; [|done].
    destruct Hc as [Hp Hr Hph Hcm Hq]. destruct (Hcm Eph) as (? & ? & ?).
    case_match; [simplify_eq; constructor; done|]. case_match; simplify_eq; constructor; try done.
    cbn. unfold makeCommitRequest. intros cr Hcr. case_match eqn:Ef; simplify_eq.
    assert (p ∈ filter (λ r, pPayload r ≠ []) (proposeRes c)) as [Hne Hin]%list_elem_of_filter by (rewrite Ef; by left).
    destruct (Hr p Hin) as [k Hk]. eauto 10.
  - assert (phaseOf c ≠ InPropose) as Hph.
    { intros Hph. destruct (ci_commit _ Hc Hph) as (Hcm & _). unfold commitTest in E. by rewrite Hcm in E. }
    unfold commitTest in E. destruct Hc. repeat case_match; simplify_eq; by constructor.
  - assert (phaseOf c ≠ InPropose) as Hph.
    { intros Hph. destruct (ci_commit _ Hc Hph) as (Hcm & _). unfold commitReturn in E. by rewrite Hcm in E. }
    unfold commitReturn in E. destruct Hc. repeat case_match; simplify_eq; by constructor.
  - unfold commitWait in E. destruct Hc as [Hp Hr Hph Hcm Hq]. destruct (phaseOf c) eqn:Eph; try done.
    case_match; simplify_eq. constructor; try done. intros _. by apply Hph.
Qed.

Lemma coRun_inv c evs c' : coInv c → Forall coAllowed evs → coRun c evs = Some c' → coInv c'.
Proof.
  intros Hc Ha. revert c Hc. induction Ha as [|ev evs Ha _ IH]; intros c Hc E; cbn in E; [by simplify_eq|].
  destruct (coStep c ev) as [c1|] eqn:Es; [|done]. eapply IH; [|done]. by eapply coStep_inv.
Qed.

Lemma newCoord_inv req st n : coInv (newCoord req st n).
Proof.
  constructor; cbn; try done.
  - intros k g [-> _]%lookup_replicate. done.
  - by intros r ?%elem_of_nil.
Qed.
End coordinator.

Lemma coStep_length c ev c' : coStep c ev = Some c' → length (proposers c') = length (proposers c).
Proof.
  destruct ev; cbn; unfold proposeTest, proposeReturn, proposeWait, commitTest, commitReturn, commitWait; intros E;
    repeat case_match; simplify_eq/=; by rewrite ?length_insert.
Qed.

Lemma coRun_length c evs c' : coRun c evs = Some c' → length (proposers c') = length (proposers c).
Proof.
  revert c. induction evs as [|ev evs IH]; intros c E; cbn in E; [by simplify_eq|].
  destruct (coStep c ev) as [c1|] eqn:Es; [|done]. rewrite (IH c1 E). by eapply coStep_length.
Qed.

(** Commit requests go out only after every follower acknowledged the proposal: in every
    interleaving, once the coordinator has left the propose phase the response of each follower
    is an acknowledgement that it gave, and the commit request carries the payload of one of
    them. *)
Theorem commit_after_all_acks req st n evs c :
  coRun (newCoord req st n) evs = Some c → phaseOf c ≠ InPropose ∨ commitCalls c ≠ [] →
  (∀ k, (k < n)%nat → ∃ r, CoReturn k (Some r) ∈ evs ∧ pAcktype r = ACK)
  ∧ (∀ cr, commitRequest c = Some cr → ∃ k r, CoReturn k (Some r) ∈ evs ∧ pPayload r ≠ []
       ∧ cr = mkCommitRequest (pIndex r) (trSource (request c)) (trTarget (request c)) (pAddress r) (pPayload r)).
Proof.
  intros E Hph. set (P := λ k r, CoReturn k (Some r) ∈ evs).
  assert (coInv P c) as Hc.
  { eapply coRun_inv; [apply newCoord_inv| |done]. apply Forall_forall. by intros [|k [r|]| | | |]. }
  assert (phaseOf c ≠ InPropose) as Hne by (destruct Hph as [|Hcalls]; [done|]; intros H; by destruct (ci_commit _ _ Hc H) as (_ & ? & _)).
  split.
  - intros k Hk. assert (length (proposers c) = n) as Hlen.
    { rewrite (coRun_length _ _ _ E). apply length_replicate. }
    destruct (lookup_lt_is_Some_2 (proposers c) k) as [g Hg]; [lia|].
    pose proof (ci_phase _ _ Hc Hne) as Hd. rewrite forallb_forall in Hd.
    pose proof (Hd g ltac:(apply list_elem_of_In; by eapply list_elem_of_lookup_2)) as Hgd.
    destruct g as [| |r|]; try done. exists r. exact (ci_proposers _ _ Hc k _ Hg).
  - intros cr Hcr. destruct (ci_request _ _ Hc cr Hcr) as (k & r & Hk & Hp & Hq). exists k, r. split; [|done].
    by destruct (ci_proposers _ _ Hc k _ Hk).
Qed.

(** ** A failed proposal never gets an answer *)
Lemma returned_stays c ev c' k :
  phaseOf c = InPropose → committers c = [] → proposers c !! k = Some PReturned → coStep c ev = Some c' →
  phaseOf c' = InPropose ∧ committers c' = [] ∧ commitCalls c' = commitCalls c ∧ proposers c' !! k = Some PReturned.
Proof.
  intros Hph Hcm Hk E.
  assert (∀ j g, proposers c !! j = Some g → g ≠ PReturned → ∀ g', <[j:=g']> (proposers c) !! k = Some PReturned) as Hne.
  { intros j g Hj Hg g'. rewrite list_lookup_insert_ne; [done|]. intros ->. congruence. }
  destruct ev; cbn in E; unfold proposeTest, proposeReturn, proposeWait, commitTest, commitReturn, commitWait in E.
  - destruct (proposers c !! k0) as [[| | |]|] eqn:Ej; try done. repeat case_match; simplify_eq/=; eauto.
  - destruct (proposers c !! k0) as [[| | |]|] eqn:Ej; try done. simplify_eq/=. eauto.
  - rewrite Hph in E. case_match eqn:Ed; [|done]. exfalso. rewrite forallb_forall in Ed.
    specialize (Ed PReturned ltac:(apply list_elem_of_In; by eapply list_elem_of_lookup_2)). done.
  - by rewrite Hcm in E.
  - by rewrite Hcm in E.
  - by rewrite Hph in E.
Qed.

Lemma returned_forever c evs c' k :
  phaseOf c = InPropose → committers c = [] → proposers c !! k = Some PReturned → coRun c evs = Some c' →
  phaseOf c' = InPropose ∧ commitCalls c' = commitCalls c.
Proof.
  revert c. induction evs as [|ev evs IH]; intros c Hph Hcm Hk E; cbn in E; [by simplify_eq|].
  destruct (coStep c ev) as [c1|] eqn:Es; [|done].
  destruct (returned_stays c ev c1 k) as (H1 & H2 & <- & H4); [done..|]. by apply IH.
Qed.

(** One failed propose call is enough: its goroutine returns without [wg.Done], and no
    continuation leaves the propose phase, answers the caller or sends a commit; the accounts
    frozen by the other followers stay frozen. *)
Theorem propose_error_hangs req st n k :
  (k < n)%nat →
  ∃ c, coRun (newCoord req st n) [CoTest k; CoReturn k None; CoTest k] = Some c ∧
  ∀ evs c', coRun c evs = Some c' → phaseOf c' = InPropose ∧ commitCalls c' = [].
Proof.
  intros Hk. eexists. split.
  - cbn. unfold proposeTest at 1. cbn. rewrite lookup_replicate_2 by done. cbn.
    unfold proposeReturn. cbn. rewrite list_lookup_insert_eq by (by rewrite length_replicate). cbn.
    unfold proposeTest. cbn. rewrite list_lookup_insert_eq by (by rewrite length_insert, length_replicate). reflexivity.
  - intros evs c' E. apply (returned_forever _ _ _ k) in E; [done|done|done|].
    cbn. rewrite list_lookup_insert_eq; [done|]. by rewrite !length_insert, length_replicate.
Qed.

(** ** Whole rounds *)

(** The first [k] entries of [L] replaced by [f]. *)
Definition upto {A} (f : nat → A) (k : nat) (L : list A) : list A := (f <$> seq 0 k) ++ drop k L.

Lemma upto_lookup {A} (f : nat → A) k L x : L !! k = Some x → upto f k L !! k = Some x.
Proof.
  intros Hk. unfold upto. rewrite lookup_app_r; rewrite length_fmap, length_seq; [|done].
  by rewrite Nat.sub_diag, lookup_drop, Nat.add_0_r.
Qed.

Lemma upto_insert {A} (f : nat → A) k L : (k < length L)%nat → <[k := f k]> (upto f k L) = upto f (S k) L.
Proof.
  intros Hk. unfold upto. rewrite insert_app_r_alt; rewrite length_fmap, length_seq; [|done].
  destruct (lookup_lt_is_Some_2 L k Hk) as [x Hx].
  rewrite Nat.sub_diag, (drop_S L x k Hx), seq_S, fmap_app, <-app_assoc. done.
Qed.

Lemma upto_all {A} (f : nat → A) L : upto f (length L) L = f <$> seq 0 (length L).
Proof. unfold upto. by rewrite drop_all, app_nil_r. Qed.

Lemma coRun_app c evs evs' c' : coRun c evs = Some c' → coRun c (evs ++ evs') = coRun c' evs'.
Proof.
  revert c. induction evs as [|ev evs IH]; intros c E; cbn in *; [by simplify_eq|]. destruct (coStep c ev); [auto|done].
Qed.

(** One event per goroutine, in order, along a family of states. *)
Lemma coRun_seq (e : nat → coEvent) (I : nat → coord) n :
  (∀ k, (k < n)%nat → coStep (I k) (e k) = Some (I (S k))) → coRun (I 0%nat) (e <$> seq 0 n) = Some (I n).
Proof.
  induction n as [|n IH]; intros Hs; [done|]. rewrite seq_S, fmap_app.
  rewrite (coRun_app _ _ _ (I n)) by (apply IH; auto). cbn. by rewrite (Hs n) by lia.
Qed.

Section rounds.
Context (c : coord) (n : nat).

(** Every propose goroutine makes its call, gets its response and is done. *)
Lemma propose_calls :
  proposers c = replicate n (PTest None 1 false) →
  coRun c (CoTest <$> seq 0 n) = Some (setProposers c ((λ _, PCall 1) <$> seq 0 n)).
Proof.
  intros Hp. set (I k := setProposers c (upto (λ _, PCall 1) k (proposers c))).
  assert (length (proposers c) = n) as Hl by (rewrite Hp; apply length_replicate).
  replace (setProposers c _) with (I n) by (unfold I; by rewrite <-Hl, upto_all).
  replace (coRun c) with (coRun (I 0%nat)) by (unfold I, upto; cbn; rewrite drop_0; by destruct c).
  apply coRun_seq. intros k Hk. cbn. unfold proposeTest. cbn.
  rewrite (upto_lookup _ _ _ (PTest None 1 false)) by (rewrite Hp; by apply lookup_replicate_2).
  cbn. unfold I, setProposers. cbn. do 2 f_equal. apply (upto_insert (λ _, PCall 1)). lia.
Qed.

Lemma propose_returns (rs : nat → ProposeResponse) :
  proposers c = (λ _, PCall 1) <$> seq 0 n →
  coRun c ((λ k, CoReturn k (Some (rs k))) <$> seq 0 n) = Some (setProposers c ((λ k, PTest (Some (rs k)) 0 false) <$> seq 0 n)).
Proof.
  intros Hp. set (f := λ k, PTest (Some (rs k)) 0 false). set (I k := setProposers c (upto f k (proposers c))).
  assert (length (proposers c) = n) as Hl by (by rewrite Hp, length_fmap, length_seq).
  replace (setProposers c _) with (I n) by (unfold I; by rewrite <-Hl, upto_all).
  replace (coRun c) with (coRun (I 0%nat)) by (unfold I, upto; cbn; rewrite drop_0; by destruct c).
  apply (coRun_seq (λ k, CoReturn k (Some (rs k)))). intros k Hk. cbn. unfold proposeReturn. cbn.
  rewrite (upto_lookup _ _ _ (PCall 1)) by (rewrite Hp, list_lookup_fmap, lookup_seq_lt by done; done).
  unfold I, setProposers. cbn. do 2 f_equal. apply (upto_insert f). lia.
Qed.

Lemma propose_done (rs : nat → ProposeResponse) :
  (∀ k, (k < n)%nat → pAcktype (rs k) = ACK) → (n ≤ chanCap)%nat →
  proposers c = (λ k, PTest (Some (rs k)) 0 false) <$> seq 0 n → proposeRes c = [] → (0 < n)%nat →
  coRun c (CoTest <$> seq 0 n) =
  Some (setProposed (setProposers c ((λ k, PDone (rs k)) <$> seq 0 n))
          (coorSet (store c) (trIndex (request c)) [trPayload (request c)]) (rs <$> seq 0 n)).
Proof.
  intros Hack Hcap Hp Hr H0. set (f := λ k, PDone (rs k)).
  set (st := λ k : nat, if k is O then store c else coorSet (store c) (trIndex (request c)) [trPayload (request c)]).
  set (I k := setProposed (setProposers c (upto f k (proposers c))) (st k) (rs <$> seq 0 k)).
  assert (length (proposers c) = n) as Hl by (by rewrite Hp, length_fmap, length_seq).
  replace (setProposed _ _ _) with (I n) by (unfold I, st; rewrite <-Hl, upto_all, Hl; destruct n; [lia|done]).
  replace (coRun c) with (coRun (I 0%nat)) by (unfold I, upto; cbn; rewrite drop_0, <-Hr; by destruct c).
  apply coRun_seq. intros k Hk. cbn. unfold proposeTest. cbn.
  rewrite (upto_lookup _ _ _ (PTest (Some (rs k)) 0 false)) by (rewrite Hp, list_lookup_fmap, lookup_seq_lt by done; done).
  cbn. rewrite bool_decide_eq_false_2 by (by rewrite Hack). rewrite decide_True by auto.
  rewrite length_fmap, length_seq, decide_True by lia. unfold I, setProposed, setProposers. cbn [proposers store request].
  do 2 f_equal; [|by apply (upto_insert f); lia|by rewrite seq_S, fmap_app]. unfold st, coorSet. destruct k; [done|]. by rewrite insert_insert_eq.
Qed.

(** Once the shared response is an acknowledgement, every goroutine is done without a call. *)
Lemma commit_finish (r : Response) :
  Forall (λ g, ∃ m, g = CTest m) (committers c) → length (committers c) = n → (n ≤ chanCap)%nat →
  response c = Some r → rAcktype r = ACK → err c = false → commitRes c = [] →
  coRun c (CmTest <$> seq 0 n) =
  Some (setCommitters c ((λ _, CDone) <$> seq 0 n) ((λ _, (Some r, false)) <$> seq 0 n) (commitCalls c)).
Proof.
  intros Hp Hl Hcap Hr Hack He Hres. set (f := λ _ : nat, CDone).
  set (I k := setCommitters c (upto f k (committers c)) ((λ _, (Some r, false)) <$> seq 0 k) (commitCalls c)).
  replace (setCommitters _ _ _ _) with (I n) by (unfold I; by rewrite <-Hl, upto_all).
  replace (coRun c) with (coRun (I 0%nat)) by (unfold I, upto; cbn; rewrite drop_0, <-Hres; by destruct c).
  apply coRun_seq. intros k Hk. cbn. unfold commitTest. cbn.
  destruct (lookup_lt_is_Some_2 (committers c) k) as [g Hg]; [lia|].
  destruct (Forall_lookup_1 _ _ _ _ Hp Hg) as [m ->]. rewrite (upto_lookup _ _ _ _ Hg).
  rewrite Hr, He. cbn. rewrite bool_decide_eq_false_2 by (by rewrite Hack).
  rewrite length_fmap, length_seq, (decide_True (P := (k < chanCap)%nat)) by lia. rewrite decide_True by done.
  unfold I, setCommitters. cbn [committers commitRes]. do 2 f_equal; [by apply (upto_insert f); lia|by rewrite seq_S, fmap_app].
Qed.

Lemma existsb_fmap_false {A B} (p : B → bool) (f : A → B) l : (∀ x, p (f x) = false) → existsb p (f <$> l) = false.
Proof. intros H. induction l as [|x l IH]; [done|]. rewrite fmap_cons. cbn. by rewrite H, IH. Qed.
Lemma forallb_fmap_true {A B} (p : B → bool) (f : A → B) l : (∀ x, p (f x) = true) → forallb p (f <$> l) = true.
Proof. intros H. induction l as [|x l IH]; [done|]. rewrite fmap_cons. cbn. by rewrite H, IH. Qed.

(** The answer to the caller when every commit goroutine is done. *)
Lemma commit_answer (r : Response) :
  phaseOf c = InCommit → committers c = (λ _, CDone) <$> seq 0 n → commitRes c = (λ _, (Some r, false)) <$> seq 0 n →
  rAcktype r = ACK → coRun c [CmWait] = Some (setPhase c (Answered AnswerACK)).
Proof.
  intros Hph Hp Hr Hack. cbn. unfold commitWait. rewrite Hph, Hp, Hr, forallb_fmap_true by done.
  rewrite (existsb_fmap_false notAck) by (intros _; unfold notAck; cbn; rewrite bool_decide_eq_false_2; [done|intros Hn; by apply Hn]).
  by rewrite existsb_fmap_false.
Qed.
End rounds.

(** The events of a round in which every call is made before a response arrives. *)
Definition proposeRound (n : nat) (rs : nat → ProposeResponse) : list coEvent :=
  (CoTest <$> seq 0 n) ++ ((λ k, CoReturn k (Some (rs k))) <$> seq 0 n) ++ (CoTest <$> seq 0 n) ++ [CoWait].

Lemma proposeRound_run req st n rs :
  (0 < n ≤ chanCap)%nat → (∀ k, (k < n)%nat → pAcktype (rs k) = ACK) →
  ∃ c, coRun (newCoord req st n) (proposeRound n rs) = Some c ∧ phaseOf c = InCommit
    ∧ commitRequest c = makeCommitRequest req (rs <$> seq 0 n) ∧ committers c = replicate n (CTest 1)
    ∧ response c = None ∧ err c = false ∧ commitRes c = [] ∧ commitCalls c = [].
Proof.
  intros [H0 Hcap] Hack. unfold proposeRound. eexists. split.
  - rewrite (coRun_app _ _ _ _ (propose_calls (newCoord req st n) n eq_refl)).
    erewrite coRun_app by (by apply (propose_returns _ n rs)).
    erewrite coRun_app by (by apply (propose_done _ n rs)).
    cbn [coRun coStep]. unfold proposeWait. cbn [phaseOf newCoord setProposed setProposers proposers proposeRes request store].
    rewrite forallb_fmap_true by done.
    assert (existsb (λ r, bool_decide (pAcktype r ≠ ACK)) (rs <$> seq 0 n) = false) as ->.
    { apply Bool.not_true_iff_false. intros (r & Hin & Hb)%existsb_exists.
      apply list_elem_of_In, list_elem_of_fmap in Hin as (k & -> & Hk%elem_of_seq).
      apply bool_decide_eq_true in Hb. apply Hb, Hack. lia. }
    unfold coorGet, coorSet. rewrite lookup_insert_eq. reflexivity.
  - cbn. by rewrite length_fmap, length_seq.
Qed.

(** ** Runs in which every follower acknowledges

    Every response is an acknowledgement, and in the commit phase, where the goroutines share
    one response, none arrives before every goroutine has made its call.  The order of the
    events is free otherwise. *)
Definition ackEvent (c : coord) (ev : coEvent) : Prop :=
  match ev with
  | CoReturn _ r => ∃ x, r = Some x ∧ pAcktype x = ACK
  | CmReturn _ r => (∃ x, r = Some x ∧ rAcktype x = ACK) ∧ CTest 1 ∉ committers c
  | _ => True
  end.

Inductive ackRun : coord → list coEvent → coord → Prop :=
| ackRun_nil c : ackRun c [] c
| ackRun_cons c ev c1 evs c' : ackEvent c ev → coStep c ev = Some c1 → ackRun c1 evs c' → ackRun c (ev :: evs) c'.

(** What a goroutine still has to do. *)
Definition proposeLeft (g : proposeG) : nat :=
  match g with PTest None _ _ => 3 | PCall _ => 2 | PTest (Some _) _ _ => 1 | _ => 0 end.
Definition commitLeft (g : commitG) : nat :=
  match g with CTest m => if m =? 1 then 3 else 1 | CCall _ => 2 | _ => 0 end.
Definition ackLeft (c : coord) : nat :=
  match phaseOf c with
  | InPropose => sum_list_with proposeLeft (proposers c) + 3 * length (proposers c) + 2
  | InCommit => sum_list_with commitLeft (committers c) + 1
  | Answered _ => 0
  end.

Lemma sum_insert {A} (f : A → nat) L k x y : L !! k = Some x → (sum_list_with f (<[k := y]> L) + f x = sum_list_with f L + f y)%nat.
Proof.
  revert k. induction L as [|z L IH]; intros [|k] E; [done|done|cbn in E; injection E as ->; change (<[0%nat:=y]> (x :: L)) with (y :: L); cbn; lia|].
  cbn in E. specialize (IH _ E). change (<[S k:=y]> (z :: L)) with (z :: <[k:=y]> L). cbn. lia.
Qed.

Definition proposing (g : proposeG) : Prop :=
  match g with
  | PTest None m e => m = 1 ∧ e = false
  | PCall m => m = 1
  | PTest (Some r) m e => m = 0 ∧ e = false ∧ pAcktype r = ACK
  | PDone r => pAcktype r = ACK
  | PReturned => False
  end.
(** [heard] is whether a response of the phase has arrived. *)
Definition committing (heard : bool) (g : commitG) : Prop :=
  match g with CTest m => m = (if heard then 0 else 1) | CCall m => m = 1 | CDone => heard = true | _ => False end.

Definition notDone (g : proposeG) : nat := if isDone g then 0 else 1.
Definition notCDone (g : commitG) : nat := if isCDone g then 0 else 1.

Record proposePhase (n : nat) (c : coord) : Prop := {
  pp_proposers : Forall proposing (proposers c);
  pp_acks : Forall (λ r, pAcktype r = ACK) (proposeRes c);
  pp_count : (length (proposeRes c) + sum_list_with notDone (proposers c) = n)%nat;
  pp_store : proposeRes c ≠ [] → is_Some (coorGet (store c) (trIndex (request c)));
  pp_fresh : response c = None ∧ err c = false ∧ commitRes c = [] ∧ commitCalls c = [];
}.

Record commitPhase (n : nat) (c : coord) : Prop := {
  cp_committers : Forall (committing (match response c with Some _ => true | None => false end)) (committers c);
  cp_length : length (committers c) = n;
  cp_response : ∀ r, response c = Some r → rAcktype r = ACK;
  cp_err : err c = false;
  cp_res : Forall (λ x, ∃ r, x = (Some r, false) ∧ rAcktype r = ACK) (commitRes c);
  cp_count : (length (commitRes c) + sum_list_with notCDone (committers c) = n)%nat;
  cp_nodup : NoDup (commitCalls c);
  cp_calls : ∀ k, k ∈ commitCalls c ↔ ∃ g, committers c !! k = Some g ∧ g ≠ CTest 1;
  cp_request : commitRequest c = makeCommitRequest (request c) (proposeRes c);
  cp_proposed : forallb isDone (proposers c) = true ∧ length (proposeRes c) = n;
}.
Definition ackInv (n : nat) (c : coord) : Prop :=
  length (proposers c) = n ∧
  match phaseOf c with
  | InPropose => proposePhase n c ∧ committers c = []
  | InCommit => commitPhase n c
  | Answered a => a = AnswerACK ∧ commitPhase n c ∧ forallb isCDone (committers c) = true
  end.

Lemma forallb_lookup {A} (p : A → bool) L k x : forallb p L = true → L !! k = Some x → p x = true.
Proof. rewrite forallb_forall. intros H Hk. apply H, list_elem_of_In. by eapply list_elem_of_lookup_2. Qed.
Lemma forallb_count {A} (p : A → bool) L : sum_list_with (λ x, if p x then 0%nat else 1%nat) L = 0%nat ↔ forallb p L = true.
Proof. induction L as [|x L IH]; cbn; [done|]. rewrite andb_true_iff, <-IH. destruct (p x); split; intros; try lia; naive_solver lia. Qed.

Lemma ackInv_start req st n : ackInv n (newCoord req st n) ∧ ackLeft (newCoord req st n) = (6 * n + 2)%nat.
Proof.
  assert (∀ (f : proposeG → nat), sum_list_with f (replicate n (PTest None 1 false)) = (n * f (PTest None 1 false))%nat) as Hs
    by (intros f; induction n as [|m IH]; cbn; [done|]; rewrite IH; lia).
  unfold ackInv, ackLeft. cbn [phaseOf newCoord proposers committers]. rewrite !Hs, length_replicate. split_and!; [done| |done|cbn; lia].
  constructor; cbn; try done. - by apply Forall_replicate. - rewrite Hs. cbn. lia.
Qed.

(** A propose goroutine moves on. *)
Lemma proposer_moves n c k g g' st res :
  ackInv n c → phaseOf c = InPropose → proposers c !! k = Some g → proposing g' → (proposeLeft g' + 1 = proposeLeft g)%nat →
  Forall (λ r, pAcktype r = ACK) res → (length res + notDone g' = length (proposeRes c) + notDone g)%nat →
  (res ≠ [] → is_Some (coorGet st (trIndex (request c)))) →
  let c' := setProposed (setProposers c (<[k := g']> (proposers c))) st res in ackInv n c' ∧ S (ackLeft c') = ackLeft c.
Proof.
  intros [Hl Hi] Hph Hk Hg Hleft Hack Hcount Hst. rewrite Hph in Hi. destruct Hi as [[Hp Ha Hc Hs Hf] Hcm].
  pose proof (sum_insert notDone _ _ _ g' Hk). pose proof (sum_insert proposeLeft _ _ _ g' Hk).
  unfold ackInv, ackLeft. cbn. rewrite Hph, !length_insert. split_and!; try done; [|lia].
  constructor; cbn; try done; [by apply Forall_insert|lia].
Qed.

Lemma proposeTest_ack n c k c' :
  (n ≤ chanCap)%nat → ackInv n c → phaseOf c = InPropose → proposeTest c k = Some c' → ackInv n c' ∧ S (ackLeft c') = ackLeft c.
Proof.
  intros Hcap HI Hph E. pose proof HI as [Hl Hi]. rewrite Hph in Hi. destruct Hi as [[Hp Ha Hc Hs Hf] Hcm].
  unfold proposeTest in E. destruct (proposers c !! k) as [g|] eqn:Hk; [|done]. pose proof (Forall_lookup_1 _ _ _ _ Hp Hk) as Hg.
  destruct g as [[r|] m e| | |]; try done; cbn in Hg.
  - destruct Hg as (-> & -> & Hr). cbn in E. rewrite bool_decide_eq_false_2 in E by (by rewrite Hr). rewrite decide_True in E by done. case_decide; [|done]. injection E as <-.
    apply (proposer_moves n c k _ (PDone r) _ _ HI Hph Hk); try done; [apply Forall_app; split; [done|by constructor]|rewrite length_app; cbn; lia|].
    intros _. unfold coorGet, coorSet. rewrite lookup_insert_eq. eauto.
  - destruct Hg as [-> ->]. injection E as <-. pose proof (proposer_moves n c k _ (PCall 1) (store c) (proposeRes c) HI Hph Hk) as H. destruct c. by apply H.
Qed.

(** Nothing is left to do for the proposers after their phase. *)
Lemma proposers_idle c k : forallb isDone (proposers c) = true → proposeTest c k = None ∧ ∀ r, proposeReturn c k r = None.
Proof. intros Hd. unfold proposeTest, proposeReturn. destruct (proposers c !! k) as [g|] eqn:Hk; [|done]. apply (forallb_lookup _ _ _ _ Hd) in Hk. by destruct g. Qed.
Lemma committers_idle c k : forallb isCDone (committers c) = true → commitTest c k = None ∧ ∀ r, commitReturn c k r = None.
Proof. intros Hd. unfold commitTest, commitReturn. destruct (committers c !! k) as [g|] eqn:Hk; [|done]. apply (forallb_lookup _ _ _ _ Hd) in Hk. by destruct g. Qed.

Lemma proposeWait_ack n c c' : (0 < n)%nat → ackInv n c → proposeWait c = Some c' → ackInv n c' ∧ S (ackLeft c') = ackLeft c.
Proof.
  intros Hn [Hl Hi] E. unfold proposeWait in E. destruct (phaseOf c) eqn:Hph; try done. destruct Hi as [[Hp Ha Hc Hs (Hr & He & Hres & Hcalls)] Hcm].
  destruct (forallb isDone (proposers c)) eqn:Hd; [|done]. assert (sum_list_with notDone (proposers c) = 0%nat) as Hz by exact (proj2 (forallb_count isDone (proposers c)) Hd).
  assert (existsb (λ r, bool_decide (pAcktype r ≠ ACK)) (proposeRes c) = false) as Hex.
  { apply Bool.not_true_iff_false. intros (r & Hin%list_elem_of_In & Hb%bool_decide_eq_true)%existsb_exists. rewrite Forall_forall in Ha. by apply Hb, Ha. }
  rewrite Hex in E. assert (length (proposeRes c) = n) as Hlen by lia. destruct (Hs ltac:(intros Hnil; rewrite Hnil in Hlen; cbn in Hlen; lia)) as [b Hb]. rewrite Hb in E. injection E as <-.
  assert (∀ (f : commitG → nat) m, sum_list_with f (replicate m (CTest 1)) = (m * f (CTest 1))%nat) as Hsum by (intros f m; induction m as [|m IH]; cbn; [done|]; rewrite IH; lia).
  unfold ackInv, ackLeft. cbn. rewrite Hph, Hsum. split_and!; try done.
  - constructor; cbn; rewrite ?Hr, ?Hres, ?Hcalls; try done; [by apply Forall_replicate|by rewrite length_replicate|rewrite Hsum; cbn; lia|constructor|].
    intros k. rewrite elem_of_nil. split; [done|]. intros (g & [-> _]%lookup_replicate & Hne). done.
  - assert (sum_list_with proposeLeft (proposers c) = 0%nat) as ->; [|cbn; lia].
    clear -Hd. induction (proposers c) as [|g L IH]; cbn in *; [done|]. apply andb_true_iff in Hd as [Hg Hd]. rewrite IH by done. by destruct g.
Qed.

(** A commit goroutine moves on; [calls] and [res] as the step leaves them. *)
Lemma committer_moves n c k g g' r res calls :
  ackInv n c → phaseOf c = InCommit → committers c !! k = Some g → (commitLeft g' + 1 = commitLeft g)%nat →
  Forall (committing (match r with Some _ => true | None => false end)) (<[k := g']> (committers c)) →
  (∀ x, r = Some x → rAcktype x = ACK) → Forall (λ x, ∃ r, x = (Some r, false) ∧ rAcktype r = ACK) res →
  (length res + notCDone g' = length (commitRes c) + notCDone g)%nat → NoDup calls → g' ≠ CTest 1 →
  (∀ j, j ∈ calls ↔ j = k ∨ j ∈ commitCalls c) →
  let c' := setShared (setCommitters c (<[k := g']> (committers c)) res calls) r false in ackInv n c' ∧ S (ackLeft c') = ackLeft c.
Proof.
  intros [Hl Hi] Hph Hk Hleft Hg Hr Hres Hcount Hnd Hne Hcalls. rewrite Hph in Hi. destruct Hi as [Hc Hlen Hresp He Hre Hcnt Hn Hca Hrq Hpr].
  pose proof (sum_insert notCDone _ _ _ g' Hk). pose proof (sum_insert commitLeft _ _ _ g' Hk).
  unfold ackInv, ackLeft. cbn. rewrite Hph. split_and!; [done| |lia]. constructor; cbn; try done; [by rewrite length_insert|lia|].
  intros j. rewrite Hcalls, Hca. destruct (decide (j = k)) as [->|Hjk].
  - rewrite list_lookup_insert_eq by (by eapply lookup_lt_Some). split; [intros _; by exists g'|by left].
  - rewrite list_lookup_insert_ne by done. split; [by intros [?|?]|by right].
Qed.
(** The steps of a commit goroutine. *)
Lemma commitTest_ack n c k c' : (n ≤ chanCap)%nat → ackInv n c → commitTest c k = Some c' → ackInv n c' ∧ S (ackLeft c') = ackLeft c.
Proof.
  intros Hcap HI E. pose proof HI as [Hl Hi]. unfold commitTest in E. destruct (committers c !! k) as [g|] eqn:Hk; [|done].
  destruct (phaseOf c) eqn:Hph; [destruct Hi as [_ Hcm]; by rewrite Hcm in Hk| |].
  2:{ destruct Hi as (_ & _ & Hd). apply (forallb_lookup _ _ _ _ Hd) in Hk. by destruct g. }
  destruct Hi as [Hc Hlen Hresp He Hre Hcnt Hn Hca Hrq Hpr]. pose proof (Forall_lookup_1 _ _ _ _ Hc Hk) as Hg. destruct g as [m| | | |]; try done. cbn in Hg. subst m.
  destruct (response c) as [r|] eqn:Hr; cbn in E.
  - pose proof (Hresp r eq_refl) as Hack. rewrite bool_decide_eq_false_2 in E by (by rewrite Hack). case_decide; [|done]. rewrite He, decide_True in E by done. injection E as <-.
    pose proof (committer_moves n c k _ CDone (Some r) (commitRes c ++ [(Some r, false)]) (commitCalls c) HI Hph Hk) as H1.
    destruct c; cbn in *; subst. apply H1; try done; [by apply Forall_insert|apply Forall_app; split; [done|]; constructor; [by exists r|done]|rewrite length_app; cbn; lia|].
    intros j. split; [by right|]. intros [->|]; [|done]. apply Hca. by exists (CTest 0).
  - injection E as <-. pose proof (committer_moves n c k _ (CCall 1) None (commitRes c) (commitCalls c ++ [k]) HI Hph Hk) as H1.
    destruct c; cbn in *; subst. apply H1; try done; [by apply Forall_insert| |].
    + apply NoDup_app. split_and!; [done| |apply NoDup_singleton]. intros j Hj ->%list_elem_of_singleton. apply Hca in Hj as (g & Hg & Hne). by simplify_eq.
    + intros j. rewrite elem_of_app, list_elem_of_singleton. tauto.
Qed.

Lemma commitReturn_ack n c k r c' :
  ackInv n c → rAcktype r = ACK → CTest 1 ∉ committers c → commitReturn c k (Some r) = Some c' → ackInv n c' ∧ S (ackLeft c') = ackLeft c.
Proof.
  intros HI Hack Hnot E. pose proof HI as [Hl Hi]. unfold commitReturn in E. destruct (committers c !! k) as [g|] eqn:Hk; [|done].
  destruct (phaseOf c) eqn:Hph; [destruct Hi as [_ Hcm]; by rewrite Hcm in Hk| |].
  2:{ destruct Hi as (_ & _ & Hd). apply (forallb_lookup _ _ _ _ Hd) in Hk. by destruct g. }
  destruct Hi as [Hc Hlen Hresp He Hre Hcnt Hn Hca Hrq Hpr]. pose proof (Forall_lookup_1 _ _ _ _ Hc Hk) as Hg. destruct g as [|m| | |]; try done. cbn in Hg. subst m. injection E as <-.
  apply (committer_moves n c k _ (CTest 0) (Some r) (commitRes c) (commitCalls c) HI Hph Hk); try done.
  - apply Forall_insert; [|done]. apply Forall_forall. intros g Hin. rewrite Forall_forall in Hc. specialize (Hc g Hin). destruct g as [m| | | |]; try done. cbn in Hc |- *. destruct (response c); [done|]. by subst m.
  - by intros x [= <-].
  - intros j. split; [by right|]. intros [->|]; [|done]. apply Hca. by exists (CCall 1).
Qed.

Lemma commitWait_ack n c c' : ackInv n c → commitWait c = Some c' → ackInv n c' ∧ S (ackLeft c') = ackLeft c.
Proof.
  intros [Hl Hi] E. unfold commitWait in E. destruct (phaseOf c) eqn:Hph; try done. destruct (forallb isCDone (committers c)) eqn:Hd; [|done]. pose proof Hi as [Hc Hlen Hresp He Hre Hcnt Hn Hca Hrq Hpr].
  assert (existsb notAck (commitRes c) = false ∧ existsb snd (commitRes c) = false) as [Hex1 Hex2].
  { split; apply Bool.not_true_iff_false; intros (x & Hin%list_elem_of_In & Hb)%existsb_exists; rewrite Forall_forall in Hre; destruct (Hre x Hin) as (r & -> & Hr); [|done].
    unfold notAck in Hb. cbn in Hb. apply bool_decide_eq_true in Hb. done. }
  rewrite Hex1, Hex2 in E. injection E as <-. unfold ackInv, ackLeft. cbn. rewrite Hph. split; [split; [done|]; split; [done|]; split; [|done]|].
  - by destruct c; constructor.
  - assert (sum_list_with commitLeft (committers c) = 0%nat) as ->; [|done].
    clear -Hd. induction (committers c) as [|g L IH]; cbn in *; [done|]. apply andb_true_iff in Hd as [Hg Hd]. rewrite IH by done. by destruct g.
Qed.

Lemma ackStep n c ev c' : (0 < n ≤ chanCap)%nat → ackInv n c → ackEvent c ev → coStep c ev = Some c' → ackInv n c' ∧ S (ackLeft c') = ackLeft c.
Proof.
  intros [Hn Hcap] HI Hev E.
  assert (phaseOf c ≠ InPropose → forallb isDone (proposers c) = true) as Hidle.
  { destruct HI as [_ Hi]. intros Hph. destruct (phaseOf c); [done|apply (cp_proposed _ _ Hi)|apply (cp_proposed _ _ (proj1 (proj2 Hi)))]. }
  assert (phaseOf c = InPropose ∨ phaseOf c ≠ InPropose) as Hph by (destruct (phaseOf c); auto).
  destruct ev as [k|k r| |k|k r|]; cbn [coStep] in E.
  - destruct Hph as [Hph|Hph]; [by eapply proposeTest_ack|]. by rewrite (proj1 (proposers_idle c k (Hidle Hph))) in E.
  - destruct Hph as [Hph|Hph]; [|by rewrite (proj2 (proposers_idle c k (Hidle Hph))) in E].
    destruct Hev as (x & -> & Hx). unfold proposeReturn in E. destruct (proposers c !! k) as [g|] eqn:Hk; [|done]. pose proof HI as [Hl Hi]. rewrite Hph in Hi. destruct Hi as [Hpp _].
    pose proof (Forall_lookup_1 _ _ _ _ (pp_proposers _ _ Hpp) Hk) as Hg. destruct g as [|m| |]; try done. cbn in Hg. subst m. injection E as <-.
    pose proof (proposer_moves n c k _ (PTest (Some x) 0 false) (store c) (proposeRes c) HI Hph Hk) as H1. destruct Hpp. destruct c. by apply H1.
  - by eapply proposeWait_ack.
  - by eapply commitTest_ack.
  - destruct Hev as [(x & -> & Hx) Hnot]. by eapply commitReturn_ack.
  - by eapply commitWait_ack.
Qed.

Lemma ackRun_inv n c evs c' : (0 < n ≤ chanCap)%nat → ackRun c evs c' → ackInv n c → ackInv n c' ∧ (length evs + ackLeft c' = ackLeft c)%nat.
Proof.
  intros Hn. induction 1 as [c|c ev c1 evs c' Hev E _ IH]; intros HI; [done|]. destruct (ackStep n c ev c1 Hn HI Hev E) as [HI1 Hl1].
  destruct (IH HI1) as [HI2 Hl2]. split; [done|]. cbn [length]. lia.
Qed.
Lemma ackRun_snoc c evs c1 ev c' : ackRun c evs c1 → ackEvent c1 ev → coStep c1 ev = Some c' → ackRun c (evs ++ [ev]) c'.
Proof. induction 1 as [c|c ev0 c0 evs c1 H0 E0 _ IH]; intros Hev E; cbn; eauto using ackRun_nil, ackRun_cons. Qed.
Lemma ackRun_run c evs c' : ackRun c evs c' → coRun c evs = Some c'.
Proof. induction 1 as [|c ev c1 evs c' _ E _ IH]; [done|]. cbn. by rewrite E. Qed.

Lemma coRun_request c evs c' : coRun c evs = Some c' → request c' = request c.
Proof.
  revert c. induction evs as [|ev evs IH]; intros c E; cbn in E; [by simplify_eq|]. destruct (coStep c ev) as [c1|] eqn:Es; [|done]. rewrite (IH c1 E). clear -Es.
  destruct ev; cbn in Es; unfold proposeTest, proposeReturn, proposeWait, commitTest, commitReturn, commitWait in Es; repeat case_match; by simplify_eq/=.
Qed.

(** Some event is possible until the coordinator has answered. *)
Lemma find_goroutine {A} (p : A → bool) L : forallb p L = false → ∃ k x, L !! k = Some x ∧ p x = false.
Proof.
  induction L as [|x L IH]; cbn; [done|]. intros E. destruct (p x) eqn:Ex; [|by exists 0%nat, x].
  destruct (IH E) as (k & y & Hk & Hy). by exists (S k), y.
Qed.
Lemma ack_progress n c : (0 < n ≤ chanCap)%nat → ackInv n c → (∀ a, phaseOf c ≠ Answered a) → ∃ ev c', ackEvent c ev ∧ coStep c ev = Some c'.
Proof.
  intros [Hn Hcap] [Hl Hi] Hph. destruct (phaseOf c) as [| |a] eqn:Eph; [| |by destruct (Hph a)].
  - destruct Hi as [[Hp Ha Hc Hs Hf] _]. destruct (forallb isDone (proposers c)) eqn:Hd.
    + assert (sum_list_with notDone (proposers c) = 0%nat) as Hz by exact (proj2 (forallb_count isDone (proposers c)) Hd).
      exists CoWait. cbn. unfold proposeWait. rewrite Eph, Hd. repeat case_match; eauto.
    + apply find_goroutine in Hd as (k & g & Hk & Hg). pose proof (Forall_lookup_1 _ _ _ _ Hp Hk) as Hok.
      pose proof (sum_insert notDone _ _ _ (PDone (mkProposeResponse ACK 0 SOURCE 0 [])) Hk) as Hsum. cbn in Hsum. unfold notDone in Hsum at 2. rewrite Hg in Hsum.
      destruct g as [[r|] m e|m| |]; try done; cbn in Hok.
      * destruct Hok as (-> & -> & Hr). exists (CoTest k). cbn. unfold proposeTest. rewrite Hk. cbn. rewrite bool_decide_eq_false_2 by (by rewrite Hr). rewrite decide_True by done. case_decide; [eauto|lia].
      * destruct Hok as [-> ->]. exists (CoTest k). cbn. unfold proposeTest. rewrite Hk. cbn. eauto.
      * eexists (CoReturn k (Some (mkProposeResponse ACK 0 SOURCE 0 []))), _. split; [by eexists|]. cbn. unfold proposeReturn. by rewrite Hk.
  - destruct Hi as [Hc Hlen Hresp He Hre Hcnt Hnd Hca Hrq Hpr]. destruct (forallb isCDone (committers c)) eqn:Hd.
    + exists CmWait. cbn. unfold commitWait. rewrite Eph, Hd. eauto.
    + assert ((∃ k m, committers c !! k = Some (CTest m)) ∨ ∀ k m, committers c !! k ≠ Some (CTest m)) as [(k & m & Hk)|Hno].
      { clear. induction (committers c) as [|g L [(k & m & Hk)|IH]]; [by right|left; by exists (S k), m|]. destruct g as [m| | | |]; try (right; intros [|k] m'; [done|apply IH]). left. by exists 0%nat, m. }
      * pose proof (Forall_lookup_1 _ _ _ _ Hc Hk) as Hok. cbn in Hok. subst m. pose proof (sum_insert notCDone _ _ _ CDone Hk) as Hsum. cbn in Hsum.
        exists (CmTest k). cbn. unfold commitTest. rewrite Hk. destruct (response c) as [r|] eqn:Hr; cbn; [|eauto]. rewrite bool_decide_eq_false_2 by (by rewrite (Hresp r eq_refl)).
        case_decide; [|lia]. rewrite He, decide_True by auto. eauto.
      * apply find_goroutine in Hd as (k & g & Hk & Hg). pose proof (Forall_lookup_1 _ _ _ _ Hc Hk) as Hok. destruct g as [m|m| | |]; try done; [by destruct (Hno k m)|].
        eexists (CmReturn k (Some (mkResponse ACK 0 SOURCE))), _. split; [|cbn; unfold commitReturn; by rewrite Hk]. split; [by eexists|]. intros (j & Hj)%list_elem_of_lookup. by destruct (Hno j 1).
Qed.

(** C34: A transfer to [n] followers, at most the capacity of the channels, in which every follower
    answers both calls with an acknowledgement and no commit response arrives before every
    commit call was made, in every order of the events otherwise: a run has at most [6 n + 2]
    events, some event is possible until the coordinator has answered, and then it has answered
    with an acknowledgement, every follower was sent the commit exactly once, every follower's
    acknowledgement was counted, and the commit carries the first payload among them in the
    order in which they were counted. *)
Theorem StateTransfer_completes req st n evs c :
  (0 < n ≤ chanCap)%nat → ackRun (newCoord req st n) evs c →
  (length evs ≤ 6 * n + 2)%nat
  ∧ ((∃ ev c', ackEvent c ev ∧ coStep c ev = Some c')
     ∨ phaseOf c = Answered AnswerACK ∧ commitCalls c ≡ₚ seq 0 n
       ∧ length (proposeRes c) = n ∧ (∀ r, r ∈ proposeRes c → ∃ k, CoReturn k (Some r) ∈ evs)
       ∧ commitRequest c = makeCommitRequest req (proposeRes c)).
Proof.
  intros Hn Hrun. destruct (ackInv_start req st n) as [HI0 Hl0]. destruct (ackRun_inv n _ _ _ Hn Hrun HI0) as [HI Hl]. rewrite Hl0 in Hl. split; [lia|].
  assert ((∃ a, phaseOf c = Answered a) ∨ ∀ a, phaseOf c ≠ Answered a) as [[a Ha]|Hno] by (destruct (phaseOf c); eauto); [|left; by eapply ack_progress].
  right. destruct HI as [_ Hi]. rewrite Ha in Hi. destruct Hi as (-> & [Hc Hlen Hresp He Hre Hcnt Hnd Hca Hrq [_ Hpr]] & Hd).
  assert (coInv (λ k r, CoReturn k (Some r) ∈ evs) c) as HC.
  { eapply coRun_inv; [apply newCoord_inv| |by apply ackRun_run]. apply Forall_forall. by intros [|k [r|]| | | |]. }
  split_and!; [done| |done| |].
  - apply NoDup_Permutation; [done|apply NoDup_seq|]. intros k. rewrite Hca, elem_of_seq. split.
    + intros (g & Hg%lookup_lt_Some & _). lia.
    + intros Hk. destruct (lookup_lt_is_Some_2 (committers c) k) as [g Hg]; [lia|]. exists g. split; [done|]. apply (forallb_lookup _ _ _ _ Hd) in Hg. by intros ->.
  - intros r Hr. destruct (ci_res _ _ HC r Hr) as [k Hk]. exists k. by destruct (ci_proposers _ _ HC k _ Hk).
  - rewrite Hrq. f_equal. by apply ackRun_run, coRun_request in Hrun.
Qed.

(** The commit goroutines share one response: if the first follower's acknowledgement arrives
    before the other goroutines start, they skip their calls.  The coordinator reports success
    although, of any number of followers, only one was sent the commit. *)
Theorem commit_reaches_one_follower req st n rs r :
  (0 < n ≤ chanCap)%nat → (∀ k, (k < n)%nat → pAcktype (rs k) = ACK) → rAcktype r = ACK →
  ∃ c, coRun (newCoord req st n)
         (proposeRound n rs ++ [CmTest 0; CmReturn 0 (Some r)] ++ (CmTest <$> seq 0 n) ++ [CmWait]) = Some c
    ∧ phaseOf c = Answered AnswerACK ∧ commitCalls c = [0%nat].
Proof.
  intros Hn Hack Hr1. destruct (proposeRound_run req st n rs Hn Hack) as (c & Hrun & Hph & Hreq & Hcm & Hr & He & Hres & Hcalls).
  assert (n ≠ 0)%nat as Hn0 by lia. destruct n as [|m]; [done|].
  set (c1 := setShared (setCommitters c (CTest 0 :: replicate m (CTest 1)) [] [0%nat]) (Some r) false).
  assert (coRun c [CmTest 0; CmReturn 0 (Some r)] = Some c1) as Hskip.
  { cbn [coRun coStep]. unfold commitTest. rewrite Hcm, Hr, Hres, Hcalls. reflexivity. }
  eexists. split; [|split].
  - rewrite (coRun_app _ _ _ _ Hrun), (coRun_app _ _ _ _ Hskip).
    erewrite coRun_app.
    2:{ apply (commit_finish c1 (S m) r); try done; [|cbn; by rewrite length_replicate|lia].
        constructor; [eauto|]. apply Forall_replicate. eauto. }
    by apply (commit_answer _ (S m) r).
  - done.
  - done.
Qed.

(** ** The coordinator with its followers *)

(** The index a propose handler is about. *)
Definition proposeIndex (h : handler) : option Z :=
  match h with
  | Proposing req | Freezing req | WaitPropose _ req _ | ClosePropose _ req => Some (prIndex req)
  | Replied (ProposeReply _ i _ _ _) => Some i
  | _ => None
  end.

Section system.
Context (encodeState : StateData → bytes) (decodeState : bytes → option StateData).
Notation step := (nodeStep encodeState decodeState).

(** The coordinator, its followers with the blocks each of them inserted, and the goroutine of
    each follower that serves a pending call. *)
Record sys := mkSys {
  sCoord : coord;
  sNodes : list node;
  sBlocks : list (list blk);
  sCalls : gmap nat nat;
  sCommits : gmap nat nat;
}.

Definition newSys (req : TransferRequest) (st : Cache) (starts : list (Z * blk)) : sys :=
  mkSys (newCoord req st (length starts)) ((λ x, newNode x.1 x.2) <$> starts) ((λ x, [x.2]) <$> starts) ∅ ∅.

(** The propose request that the coordinator sends. *)
Definition proposeOf (req : TransferRequest) : ProposeRequest :=
  mkProposeRequest (trIndex req) (trSource req) (trTarget req) (trPayload req).

(** The steps of the coordinator that need no follower, a failed remote call included. *)
Definition localEvent (ev : coEvent) : Prop :=
  match ev with CoReturn _ (Some _) | CmReturn _ (Some _) => False | _ => True end.

Definition insertedBy (ev : event) (bs : list blk) : list blk := match ev with EvInsert b => b :: bs | _ => bs end.

(** What the caller of [CommitTwoPhase] gets. *)
Definition commitResponse (r : reply) : option Response :=
  match r with CommitReply ack i ft => Some (mkResponse ack i ft) | _ => None end.

Inductive sysStep : sys → sys → Prop :=
| SysNode c ns bss pc cc k n ev n' bs :
    ns !! k = Some n → bss !! k = Some bs → step n ev = Next n' →
    sysStep (mkSys c ns bss pc cc) (mkSys c (<[k := n']> ns) (<[k := insertedBy ev bs]> bss) pc cc)
| SysCoord c ns bss pc cc ev c' :
    localEvent ev → coStep c ev = Some c' → sysStep (mkSys c ns bss pc cc) (mkSys c' ns bss pc cc)
| SysPropose c ns bss pc cc k n t n' m :
    proposers c !! k = Some (PCall m) → pc !! k = None → ns !! k = Some n →
    step n (EvPropose t (proposeOf (request c))) = Next n' →
    sysStep (mkSys c ns bss pc cc) (mkSys c (<[k := n']> ns) bss (<[k := t]> pc) cc)
| SysProposed c ns bss pc cc k n t c' ack i ft a pl :
    pc !! k = Some t → ns !! k = Some n → handlers n !! t = Some (Replied (ProposeReply ack i ft a pl)) →
    coStep c (CoReturn k (Some (mkProposeResponse ack i ft a pl))) = Some c' →
    sysStep (mkSys c ns bss pc cc) (mkSys c' ns bss (delete k pc) cc)
| SysCommit c ns bss pc cc k n t n' m cr :
    committers c !! k = Some (CCall m) → cc !! k = None → commitRequest c = Some cr → ns !! k = Some n →
    step n (EvCommit t cr) = Next n' →
    sysStep (mkSys c ns bss pc cc) (mkSys c (<[k := n']> ns) bss pc (<[k := t]> cc))
| SysCommitted c ns bss pc cc k n t c' r :
    cc !! k = Some t → ns !! k = Some n → handlers n !! t = Some (Replied r) →
    coStep c (CmReturn k (commitResponse r)) = Some c' →
    sysStep (mkSys c ns bss pc cc) (mkSys c' ns bss pc (delete k cc)).

(** The same steps as a function of the chosen event. *)
Inductive sysEvent :=
| SeNode (k : nat) (ev : event) | SeCoord (ev : coEvent)
| SePropose (k t : nat) | SeProposed (k : nat) | SeCommit (k t : nat) | SeCommitted (k : nat).

Definition ofOutcome (o : outcome) : option node := match o with Next n => Some n | _ => None end.

Definition sysExec (s : sys) (e : sysEvent) : option sys :=
  let '(mkSys c ns bss pc cc) := s in
  match e with
  | SeNode k ev =>
      n ← ns !! k; bs ← bss !! k; n' ← ofOutcome (step n ev);
      Some (mkSys c (<[k := n']> ns) (<[k := insertedBy ev bs]> bss) pc cc)
  | SeCoord (CoReturn _ (Some _)) | SeCoord (CmReturn _ (Some _)) => None
  | SeCoord ev => c' ← coStep c ev; Some (mkSys c' ns bss pc cc)
  | SePropose k t =>
      match proposers c !! k, pc !! k with
      | Some (PCall _), None =>
          n ← ns !! k; n' ← ofOutcome (step n (EvPropose t (proposeOf (request c))));
          Some (mkSys c (<[k := n']> ns) bss (<[k := t]> pc) cc)
      | _, _ => None
      end
  | SeProposed k =>
      t ← pc !! k; n ← ns !! k; h ← handlers n !! t;
      match h with
      | Replied (ProposeReply ack i ft a pl) =>
          c' ← coStep c (CoReturn k (Some (mkProposeResponse ack i ft a pl)));
          Some (mkSys c' ns bss (delete k pc) cc)
      | _ => None
      end
  | SeCommit k t =>
      match committers c !! k, cc !! k, commitRequest c with
      | Some (CCall _), None, Some cr =>
          n ← ns !! k; n' ← ofOutcome (step n (EvCommit t cr));
          Some (mkSys c (<[k := n']> ns) bss pc (<[k := t]> cc))
      | _, _, _ => None
      end
  | SeCommitted k =>
      t ← cc !! k; n ← ns !! k; h ← handlers n !! t;
      match h with
      | Replied r => c' ← coStep c (CmReturn k (commitResponse r)); Some (mkSys c' ns bss pc (delete k cc))
      | _ => None
      end
  end.

Fixpoint sysRun (s : sys) (es : list sysEvent) : option sys :=
  match es with [] => Some s | e :: rest => s' ← sysExec s e; sysRun s' rest end.

Lemma ofOutcome_Some o n : ofOutcome o = Some n → o = Next n.
Proof. destruct o; cbn; congruence. Qed.

Lemma sysExec_sound s e s' : sysExec s e = Some s' → sysStep s s'.
Proof.
  destruct s as [c ns bss pc cc]. intros E. destruct e as [k ev|ev|k t|k|k t|k]; cbn [sysExec] in E.
  - inv_bind. econstructor; [done..|]. by apply ofOutcome_Some.
  - assert (localEvent ev ∧ ∃ c', coStep c ev = Some c' ∧ s' = mkSys c' ns bss pc cc) as (Hl & c' & Ec & ->).
    { destruct ev as [|? []| | |? []|]; try done; apply bind_Some in E as (c' & ? & [= <-]); (split; [done|by exists c']). }
    by eapply SysCoord.
  - destruct (proposers c !! k) as [[]|] eqn:Ep; try done. destruct (pc !! k) eqn:Ek; [done|]. inv_bind.
    eapply SysPropose; [done..|]. by apply ofOutcome_Some.
  - inv_bind. case_match; try done. case_match; try done. apply bind_Some in E as (c' & Ec & [= <-]). by eapply SysProposed.
  - destruct (committers c !! k) as [[]|] eqn:Ep; try done. destruct (cc !! k) eqn:Ek; [done|].
    destruct (commitRequest c) eqn:Er; [|done]. inv_bind. eapply SysCommit; [done..|]. by apply ofOutcome_Some.
  - inv_bind. case_match; try done. apply bind_Some in E as (c' & Ec & [= <-]). by eapply SysCommitted.
Qed.

Lemma sysRun_sound s es s' : sysRun s es = Some s' → rtc sysStep s s'.
Proof.
  revert s. induction es as [|e es IH]; intros s E; cbn in E; [by simplify_eq|].
  apply bind_Some in E as (s1 & E1 & E). eapply rtc_l; [by eapply sysExec_sound|by apply IH].
Qed.

(** *** Lemmas on the parts *)
Lemma coInv_mono P Q c : (∀ k r, P k r → Q k r) → coInv P c → coInv Q c.
Proof.
  intros HPQ []. constructor; try done. intros k g Hk. pose proof (ci_proposers0 k g Hk) as Hok.
  destruct g as [[] ? ?| | |]; cbn in *; naive_solver.
Qed.

Lemma nodeInv_mono (B B' : txdata → Prop) n : (∀ tx, B tx → B' tx) → nodeInv B true n → nodeInv B' true n.
Proof.
  intros HB []. constructor; try done; eauto. intros t h Hh. pose proof (ni_handlers t h Hh) as Hok.
  destruct h as [| | | | | | |[[] ? ? ? ?|[] ? ?|?]]; cbn in *; eauto. destruct Hok as (tx & ? & ? & ?). exists tx. eauto.
Qed.

Lemma coStep_request c ev c' : coStep c ev = Some c' → request c' = request c.
Proof.
  destruct ev; cbn; unfold proposeTest, proposeReturn, proposeWait, commitTest, commitReturn, commitWait; intros E;
    repeat case_match; by simplify_eq/=.
Qed.

Lemma coStep_phase c ev c' : coStep c ev = Some c' → phaseOf c ≠ InPropose → phaseOf c' ≠ InPropose.
Proof.
  destruct ev; cbn; unfold proposeTest, proposeReturn, proposeWait, commitTest, commitReturn, commitWait; intros E;
    repeat case_match; by simplify_eq/=.
Qed.

(** A propose handler keeps its index through every step of its node. *)
Lemma setHandler_index n t h t0 h0 i :
  handlers n !! t0 = Some h0 → proposeIndex h0 = Some i → (t = t0 → proposeIndex h = Some i) →
  ∃ h', handlers (setHandler n t h) !! t0 = Some h' ∧ proposeIndex h' = Some i.
Proof.
  intros Ht0 Hi Ht. cbn. destruct (decide (t = t0)) as [->|Hne]; [rewrite lookup_insert_eq; eauto|].
  rewrite lookup_insert_ne by done. eauto.
Qed.

(** A handler that moves keeps what it is about. *)
Lemma receive_index n t v b nn h n1 t0 h0 i :
  receive encodeState n t v b nn h = Some n1 → handlers n !! t = Some h →
  handlers n !! t0 = Some h0 → proposeIndex h0 = Some i → ∃ h', handlers n1 !! t0 = Some h' ∧ proposeIndex h' = Some i.
Proof.
  intros E Hh H0 Hi. destruct h as [|? |[] ? []|? ?|?|? []|?|?]; try done; cbn in E; case_match; simplify_eq; eauto;
    eapply setHandler_index; eauto; intros ->; rewrite Hh in H0; by simplify_eq/=.
Qed.

Lemma handlerStep_index n t h ev n' t0 h0 i :
  handlerStep encodeState decodeState n t h ev = Next n' → handlers n !! t = Some h →
  handlers n !! t0 = Some h0 → proposeIndex h0 = Some i → ∃ h', handlers n' !! t0 = Some h' ∧ proposeIndex h' = Some i.
Proof.
  intros E Hh H0 Hi. destruct ev; try done.
  5:{ cbn in E. destruct (listens h) as [j|]; [|done]. case_match; [|done]. case_match eqn:Er; [|done]. simplify_eq.
      by eapply receive_index. }
  all: destruct h; try done; cbn in E; repeat case_match; simplify_eq; eapply setHandler_index; eauto; intros ->; rewrite Hh in H0; by simplify_eq/=.
Qed.

Lemma step_index n ev n' t0 h0 i :
  step n ev = Next n' → handlers n !! t0 = Some h0 → proposeIndex h0 = Some i →
  ∃ h', handlers n' !! t0 = Some h' ∧ proposeIndex h' = Some i.
Proof.
  intros E H0 Hi. destruct ev; cbn [nodeStep] in E;
    try (unfold onHandler in E; destruct (handlers n !! t) as [h|] eqn:Eh; [|done]; by eapply handlerStep_index).
  - unfold arrive in E. destruct (handlers n !! t) eqn:Eh; simplify_eq.
    eapply setHandler_index; [done|done|]. intros ->. congruence.
  - unfold arrive in E. destruct (handlers n !! t) eqn:Eh; simplify_eq. unfold commitArrives.
    repeat case_match; (eapply setHandler_index; [done|done|]); intros ->; congruence.
  - case_decide; simplify_eq; eauto.
  - unfold takeHead in E. destruct (locked n), (queue n); simplify_eq; eauto.
  - unfold resetNext in E. destruct (locked n), (sending n), (todo n); simplify_eq; eauto.
    destruct (resetBefore _ _) as [p []]; simplify_eq; eauto.
  - unfold signalNext in E. destruct (sending n), (todo n) as [|tx rest]; try done.
    destruct (Signal (pool n) !! stxIndex tx) as [[]|]; try done.
    destruct (handlers n !! t) as [h|] eqn:Eh; [|done]. case_decide; [|done].
    destruct (receive encodeState n t _ _ _ h) as [n1|] eqn:Er; simplify_eq. cbn. by eapply receive_index.
  - destruct (locked n), (sending n), (todo n); simplify_eq; eauto.
  - destruct (locked n); simplify_eq; eauto.
  - destruct (locked n); simplify_eq; eauto.
  - destruct (CloseAllSignal (pool n)); simplify_eq; eauto.
Qed.

(** *** The invariant of the system *)
Definition inserted (bs : list blk) (tx : txdata) : Prop := ∃ b, b ∈ bs ∧ tx ∈ bSttxs b.
Definition frozenAt (bss : list (list blk)) (i : Z) (k : nat) : Prop :=
  ∀ bs, bss !! k = Some bs → inBlock (inserted bs) true i.
Definition vouched (bss : list (list blk)) (i : Z) (k : nat) (r : ProposeResponse) : Prop :=
  pIndex r = i ∧ (pAcktype r = ACK → frozenAt bss i k).

Record sysInv (i : Z) (s : sys) : Prop := {
  si_index : trIndex (request (sCoord s)) = i;
  si_len : length (sBlocks s) = length (proposers (sCoord s)) ∧ length (sNodes s) = length (sBlocks s);
  si_coord : coInv (vouched (sBlocks s) i) (sCoord s);
  si_nodes : ∀ k n bs, sNodes s !! k = Some n → sBlocks s !! k = Some bs → nodeInv (inserted bs) true n;
  si_calls : ∀ k t n, sCalls s !! k = Some t → sNodes s !! k = Some n →
    ∃ h, handlers n !! t = Some h ∧ proposeIndex h = Some i;
  si_commits : sCommits s ≠ ∅ → phaseOf (sCoord s) ≠ InPropose;
}.

(** A node moves, by a step that keeps its invariant with more blocks. *)
Lemma node_move_inv i c ns bss pc cc k n n' bs bs' ev :
  sysInv i (mkSys c ns bss pc cc) → ns !! k = Some n → bss !! k = Some bs → bs ⊆ bs' →
  step n ev = Next n' → allowed (inserted bs') true ev →
  sysInv i (mkSys c (<[k := n']> ns) (<[k := bs']> bss) pc cc).
Proof.
  intros [Hi Hl Hc Hn Hpc Hcc] Hk Hb Hsub E Ha. cbn in *.
  assert (∀ tx, inserted bs tx → inserted bs' tx) as Hmono by (intros tx (b & ? & ?); exists b; set_solver).
  constructor; cbn; [done|by rewrite !length_insert| | | |done].
  - eapply coInv_mono; [|done]. intros j r [Hr Hf]. split; [done|]. intros Hack bs1 Hbs1.
    apply list_lookup_insert_Some in Hbs1 as [(<- & <- & _)|[_ Hj]]; [|by apply Hf].
    destruct (Hf Hack bs Hb) as (tx & ? & ? & ?). exists tx. eauto.
  - intros j n1 bs1 Hj Hbs1. apply list_lookup_insert_Some in Hj as [(<- & <- & Hlt)|[Hne Hj]].
    + rewrite list_lookup_insert_eq in Hbs1 by (destruct Hl; lia). simplify_eq.
      eapply nodeStep_inv; [|done|done]. eapply nodeInv_mono; [done|]. by apply (Hn k).
    + rewrite list_lookup_insert_ne in Hbs1 by done. by apply (Hn j).
  - intros j t n1 Ht Hj. apply list_lookup_insert_Some in Hj as [(<- & <- & _)|[Hne Hj]]; [|by apply (Hpc j)].
    destruct (Hpc k t n Ht Hk) as (h & Hh & Hix). by eapply step_index.
Qed.

(** The coordinator moves. *)
Lemma coord_move_inv i c ns bss pc cc ev c' pc' cc' :
  sysInv i (mkSys c ns bss pc cc) → coStep c ev = Some c' → coAllowed (vouched bss i) ev →
  pc' ⊆ pc → (cc' ≠ ∅ → cc ≠ ∅) → sysInv i (mkSys c' ns bss pc' cc').
Proof.
  intros [Hi Hl Hc Hn Hpc Hcc] E Ha Hsub Hsub'. cbn in *. constructor; cbn.
  - by rewrite (coStep_request _ _ _ E).
  - by rewrite (coStep_length _ _ _ E).
  - by eapply coStep_inv.
  - done.
  - intros k t n Ht. apply Hpc. by eapply lookup_weaken.
  - intros Hne. eapply coStep_phase; [done|]. auto.
Qed.

Lemma newSys_inv req st starts : sysInv (trIndex req) (newSys req st starts).
Proof.
  constructor; cbn [newSys sCoord sNodes sBlocks sCalls sCommits]; try done.
  - cbn [newCoord proposers]. by rewrite !length_fmap, length_replicate.
  - apply newCoord_inv.
  - intros k n bs Hn Hb. rewrite list_lookup_fmap in Hn. rewrite list_lookup_fmap in Hb. destruct (starts !! k) as [[sh b]|]; simplify_eq/=.
    apply newNode_inv. intros tx Htx. exists b. split; [by left|done].
Qed.

Lemma sysStep_inv i s s' : sysInv i s → sysStep s s' → sysInv i s'.
Proof.
  intros Hs Hst. pose proof Hs as [Hi [Hl1 Hl2] Hc Hn Hpc Hcc].
  destruct Hst as [c ns bss pc cc k n ev n' bs Hk Hb E|c ns bss pc cc ev c' Hloc E
    |c ns bss pc cc k n t n' m Hp Hpk Hk E|c ns bss pc cc k n t c' ack j ft a pl Ht Hk Hh E
    |c ns bss pc cc k n t n' m cr Hp Hck Hcr Hk E|c ns bss pc cc k n t c' r Ht Hk Hh E]; cbn [sCoord sNodes sBlocks sCalls sCommits] in *.
  - eapply node_move_inv; [done..| |done|].
    + destruct ev; cbn; set_solver.
    + destruct ev; try done. cbn. intros tx Htx. exists b. split; [by left|done].
  - eapply coord_move_inv; try done. by destruct ev as [|? []| | |? []|].
  - destruct (lookup_lt_is_Some_2 bss k) as [bs Hb]; [rewrite <-Hl2; by eapply lookup_lt_Some|].
    assert (sysInv i (mkSys c (<[k:=n']> ns) (<[k:=bs]> bss) pc cc)) as [Hi' Hl' Hc' Hn' Hpc' Hcc'] 
      by (apply (node_move_inv i c ns bss pc cc k n n' bs bs (EvPropose t (proposeOf (request c)))); [done|done|done|set_solver|done|exact I]).
    rewrite (list_insert_id bss k bs Hb) in *. constructor; cbn [sCoord sNodes sBlocks sCalls sCommits] in *; try done.
    intros k1 t1 n1 [[<- <-]|[Hne Ht1]]%lookup_insert_Some; [|by apply Hpc'].
    rewrite list_lookup_insert_eq by (by eapply lookup_lt_Some). intros ?; simplify_eq.
    cbn in E. unfold arrive in E. destruct (handlers n !! t); simplify_eq. cbn. rewrite lookup_insert_eq.
    eexists. split; [done|]. done.
  - destruct (Hpc k t n Ht Hk) as (h & Hh' & Hix). rewrite Hh in Hh'. injection Hh' as <-. injection Hix as ->.
    eapply coord_move_inv; [exact Hs|exact E| |apply delete_subseteq|done].
    cbn. split; [done|]. cbn. intros -> bs Hb. exact (ni_handlers _ _ _ (Hn k n bs Hk Hb) t _ Hh).
  - destruct (lookup_lt_is_Some_2 bss k) as [bs Hb]; [rewrite <-Hl2; by eapply lookup_lt_Some|].
    assert (sysInv i (mkSys c (<[k:=n']> ns) (<[k:=bs]> bss) pc cc)) as [Hi' Hl' Hc' Hn' Hpc' Hcc'] 
      by (apply (node_move_inv i c ns bss pc cc k n n' bs bs (EvCommit t cr)); [done|done|done|set_solver|done|exact I]).
    rewrite (list_insert_id bss k bs Hb) in *. constructor; cbn [sCoord sNodes sBlocks sCalls sCommits] in *; try done.
    intros _ Hph. destruct (ci_commit _ _ Hc Hph) as (Hcm & _). by rewrite Hcm in Hp.
  - eapply coord_move_inv; [done|done|by destruct r as [[]|[]|]|done|]. intros _ ->. by rewrite lookup_empty in Ht.
Qed.

(** C2: A migration is committed nowhere before it is frozen everywhere: in every interleaving of
    the coordinator with its followers, once the coordinator has left the propose phase, or has
    delivered a commit to any follower, every follower it asked has inserted a block with the
    freeze transaction of the migration. *)
Theorem commit_needs_freeze_everywhere req st starts s :
  rtc sysStep (newSys req st starts) s → phaseOf (sCoord s) ≠ InPropose ∨ sCommits s ≠ ∅ →
  ∀ k, (k < length (sBlocks s))%nat →
  ∃ bs b tx, sBlocks s !! k = Some bs ∧ b ∈ bs ∧ tx ∈ bSttxs b ∧ txToFreeze tx = true ∧ stxIndex tx = trIndex req.
Proof.
  intros Hrtc Hph k Hk.
  assert (sysInv (trIndex req) s) as Hs.
  { generalize (newSys_inv req st starts). induction Hrtc as [|s1 s2 s3 H12 _ IH]; [done|].
    intros H1. by eapply IH, sysStep_inv. }
  destruct Hs as [Hi [Hl1 Hl2] Hc Hn Hpc Hcc].
  assert (phaseOf (sCoord s) ≠ InPropose) as Hne by (destruct Hph; auto).
  destruct (lookup_lt_is_Some_2 (proposers (sCoord s)) k) as [g Hg]; [lia|].
  pose proof (ci_phase _ _ Hc Hne) as Hd. rewrite forallb_forall in Hd.
  pose proof (Hd g ltac:(apply list_elem_of_In; by eapply list_elem_of_lookup_2)) as Hgd.
  destruct g as [| |r|]; try done. destruct (ci_proposers _ _ Hc k _ Hg) as [[_ Hf] Hack].
  destruct (lookup_lt_is_Some_2 (sBlocks s) k Hk) as [bs Hbs].
  destruct (Hf Hack bs Hbs) as (tx & (b & Hb & Hin) & Hfr & Hix). eauto 10.
Qed.
End system.

(** ** Witnesses *)
Definition demoReq : TransferRequest := mkTransferRequest 0 1 77 5.
Definition demoPR (k : nat) : ProposeResponse :=
  mkProposeResponse ACK 5 (if k is O then SOURCE else TARGET) 77 (if k is O then [77; 300; 4; 0] else []).
Definition demoCR (k : nat) : Response := mkResponse ACK 5 (if k is O then SOURCE else TARGET).

Lemma commit_after_all_acks_witness :
  (∀ k, (k < 2)%nat → ∃ r, CoReturn k (Some r) ∈ proposeRound 2 demoPR ∧ pAcktype r = ACK)
  ∧ (∀ cr, Some (mkCommitRequest 5 0 1 77 [77; 300; 4; 0]) = Some cr → ∃ k r,
       CoReturn k (Some r) ∈ proposeRound 2 demoPR ∧ pPayload r ≠ []
       ∧ cr = mkCommitRequest (pIndex r) 0 1 (pAddress r) (pPayload r)).
Proof.
  destruct (coRun (newCoord demoReq ∅ 2) (proposeRound 2 demoPR)) as [c|] eqn:E; [|vm_compute in E; discriminate E].
  assert (Some (phaseOf c, commitRequest c, request c) = Some (InCommit, Some (mkCommitRequest 5 0 1 77 [77; 300; 4; 0]), demoReq)) as Ec.
  { transitivity ((λ c, (phaseOf c, commitRequest c, request c)) <$> coRun (newCoord demoReq ∅ 2) (proposeRound 2 demoPR));
      [by rewrite E|vm_compute; reflexivity]. }
  injection Ec as Eph Ecr Erq.
  pose proof (commit_after_all_acks demoReq ∅ 2 _ c E ltac:(left; by rewrite Eph)) as H.
  by rewrite Ecr, Erq in H.
Defined.

Lemma propose_error_hangs_witness :
  ∃ c, coRun (newCoord demoReq ∅ 2) [CoTest 1; CoReturn 1 None; CoTest 1] = Some c ∧
  ∀ evs c', coRun c evs = Some c' → phaseOf c' = InPropose ∧ commitCalls c' = [].
Proof. apply (propose_error_hangs demoReq ∅ 2 1). lia. Defined.

(** A check of [ackRun] that computes. *)
Definition ackEventb (c : coord) (ev : coEvent) : bool :=
  match ev with
  | CoReturn _ r => match r with Some x => bool_decide (pAcktype x = ACK) | None => false end
  | CmReturn _ r => match r with Some x => bool_decide (rAcktype x = ACK) | None => false end
      && forallb (λ g, match g with CTest m => negb (m =? 1) | _ => true end) (committers c)
  | _ => true
  end.
Fixpoint ackCheck (c : coord) (evs : list coEvent) : bool :=
  match evs with
  | [] => true
  | ev :: rest => ackEventb c ev && match coStep c ev with Some c1 => ackCheck c1 rest | None => false end
  end.
Lemma ackRun_check c evs c' : coRun c evs = Some c' → ackCheck c evs = true → ackRun c evs c'.
Proof.
  revert c. induction evs as [|ev evs IH]; intros c E H; cbn in E, H; [injection E as <-; constructor|].
  apply andb_true_iff in H as [Hev H]. destruct (coStep c ev) as [c1|] eqn:Es; [|done]. eapply ackRun_cons; [|done|by apply IH].
  destruct ev as [|k [r|]| | |k [r|]|]; try done; cbn in Hev.
  - exists r. split; [done|]. by apply bool_decide_eq_true in Hev.
  - apply andb_true_iff in Hev as [Hr Hn]. apply bool_decide_eq_true in Hr. split; [by exists r|]. intros (k' & Hk)%list_elem_of_lookup. by apply (forallb_lookup _ _ _ _ Hn) in Hk.
Qed.

(** The second follower is first in the propose phase, and the commit calls return out of order. *)
Definition ackEvents : list coEvent :=
  [CoTest 1; CoReturn 1 (Some (demoPR 1)); CoTest 0; CoTest 1; CoReturn 0 (Some (demoPR 0)); CoTest 0; CoWait;
   CmTest 1; CmTest 0; CmReturn 0 (Some (demoCR 0)); CmTest 0; CmReturn 1 (Some (demoCR 1)); CmTest 1; CmWait].
Definition demoAnswered : coord := default (newCoord demoReq ∅ 2) (coRun (newCoord demoReq ∅ 2) ackEvents).

Lemma StateTransfer_completes_witness :
  ackRun (newCoord demoReq ∅ 2) ackEvents demoAnswered
  ∧ phaseOf demoAnswered = Answered AnswerACK ∧ commitCalls demoAnswered ≡ₚ [0%nat; 1%nat]
  ∧ commitRequest demoAnswered = makeCommitRequest demoReq (proposeRes demoAnswered).
Proof.
  assert (ackRun (newCoord demoReq ∅ 2) ackEvents demoAnswered) as Hrun by (apply ackRun_check; vm_compute; reflexivity).
  split; [exact Hrun|].
  destruct (StateTransfer_completes demoReq ∅ 2 ackEvents demoAnswered ltac:(unfold chanCap; lia) Hrun) as [_ [(ev & c' & Hev & E)|(H1 & H2 & _ & _ & H3)]]; [|exact (conj H1 (conj H2 H3))].
  destruct (StateTransfer_completes demoReq ∅ 2 _ c' ltac:(unfold chanCap; lia) (ackRun_snoc _ _ _ _ _ Hrun Hev E)) as [Hlen _]. cbn in Hlen. lia.
Defined.

Lemma commit_reaches_one_follower_witness :
  ∃ c, coRun (newCoord demoReq ∅ 3)
         (proposeRound 3 demoPR ++ [CmTest 0; CmReturn 0 (Some (demoCR 0))] ++ (CmTest <$> seq 0 3) ++ [CmWait]) = Some c
    ∧ phaseOf c = Answered AnswerACK ∧ commitCalls c = [0%nat].
Proof. apply (commit_reaches_one_follower demoReq ∅ 3 demoPR (demoCR 0)); [unfold chanCap; lia|done|done]. Defined.

(** Account 77 migrates from shard 0 to shard 1 as index 5, with one follower of each shard:
    each follower freezes it in a block of its chain, then the commit reaches both. *)
Definition demoFreeze (k : nat) : list sysEvent :=
  [SeCoord (CoTest k); SePropose k 0; SeNode k (EvCheck 0); SeNode k (EvFreeze 0);
   SeNode k (EvInsert (block1 10 11 [freezeTx 5 0 1 77])); SeNode k (EvHead true true); SeNode k EvReset;
   SeNode k (EvSignal 0 300 4); SeNode k EvUnlock; SeProposed k; SeCoord (CoTest k)].
Definition demoCommit (k : nat) : list sysEvent :=
  [SeCommit k 1; SeNode k (EvAdd 1); SeNode k (EvInsert (block2 11 12 [commitTx 5 0 1 77 300 4]));
   SeNode k (EvHead true true); SeNode k EvReset; SeNode k (EvSignal 1 0 0); SeNode k EvUnlock; SeNode k (EvClose 1);
   SeCommitted k].
Definition demoEvents : list sysEvent :=
  demoFreeze 0 ++ demoFreeze 1 ++ [SeCoord CoWait; SeCoord (CmTest 0); SeCoord (CmTest 1)]
  ++ demoCommit 0 ++ demoCommit 1 ++ [SeCoord (CmTest 0); SeCoord (CmTest 1); SeCoord CmWait].
Definition demoStart : sys := newSys demoReq ∅ [(0, block0 10); (1, block0 10)].
Definition demoEnd : sys := Eval vm_compute in default demoStart (sysRun demoEncode demoDecode demoStart demoEvents).

Lemma commit_needs_freeze_everywhere_witness :
  phaseOf (sCoord demoEnd) = Answered AnswerACK
  ∧ ∃ bs b tx, sBlocks demoEnd !! 1%nat = Some bs ∧ b ∈ bs ∧ tx ∈ bSttxs b ∧ txToFreeze tx = true ∧ stxIndex tx = 5.
Proof.
  split; [reflexivity|].
  apply (commit_needs_freeze_everywhere demoEncode demoDecode demoReq ∅ [(0, block0 10); (1, block0 10)] demoEnd).
  - apply (sysRun_sound _ _ _ demoEvents). vm_compute. reflexivity.
  - left. discriminate.
  - cbn. lia.
Defined.
